(* ===== verification/_CoqProject ===== *)
-Q . S2P
Prelude.v
Machine.v
CoreIds.v
CoreTime.v
Adapters.v
External.v
Routes.v
QuotaState.v
QuotaSettings.v
QuotaSchedule.v
QuotaAdmission.v
QuotaReadiness.v
QuotaStore.v
QuotaPlan.v
QuotaReport.v
QuotaCalibration.v
QuotaEdge.v
Reconciler.v
ReconcilerRuns.v
JsonDocument.v
JsonGrammar.v
ReviewPaths.v
ReviewPolicy.v
ReviewCheck.v
FabricClaims.v
FabricLanding.v
FabricPaths.v
FabricFences.v
FabricHistory.v
TelemetryRecords.v
TelemetryCosts.v
TelemetryStats.v
TelemetryTotals.v
TelemetryShares.v
LanePorts.v
RoutingTypes.v
RoutingPolicy.v
RoutingConfig.v
RoutingPacing.v
RoutingResolve.v
RoutingPool.v
RoutingExample.v
RoutingDraw.v
RoutingSafety.v
RoutingRules.v
RoutingViews.v
GraphModel.v
GraphOutcome.v
GraphAttempts.v
GraphAttemptRuns.v
GraphContinue.v
GraphBudget.v
GraphSchedule.v
GraphAdmission.v
GraphRuns.v
RunLedger.v
RunLedgerRuns.v
