(* ===== verification/Prelude.v ===== *)
(** * Provenant: a verification development

    Provenant ([src/tools/front-door/]) launches and supervises coding-agent
    providers and lands their work.  A launch names a route (adapter, model,
    account), is admitted against the quota and readiness evidence the host has
    recorded, may lease a block of ports, and runs under a guardian process
    that may stop it and publishes how it ended.  Agents coordinate through a
    store of work claims and landings; finished work goes through a review
    whose shape the policy selects, and a reconciler takes each pull request
    from review to merge.  Usage reports account for what the attempts cost.

    ** Parts and files

    Paths are under [src/tools/front-door/crates/].

    - [Prelude]: [Result], machine integers, text as UTF-8 bytes, list
      operations of the standard library, the shared lemmas and tactics.
    - [Machine] ([supervisor/src/machine.rs]): the lifecycle machine.  [State]
      and [Tick] are the source's records, [step] the source's function with
      its early returns, [run] a sequence of turns with the deadline extensions
      the guardian interleaves.
    - [CoreIds] ([core/src/bytes.rs], [ids.rs]) and [CoreTime]
      ([core/src/retry.rs], the monotonic part of [time.rs]).
    - [Adapters] ([records/src/adapters.rs], [control.rs]): the table of
      provider adapters, every row, and the launch check.
    - [External]: the third-party crates the data uses, as classes of
      operations with classes of laws.
    - [Routes] ([records/src/resolved_route.rs]): resolved routes and receipts.
    - [QuotaState] ([quota/src/source.rs], [state.rs]): account records, their
      validation and the compare-and-swap intent.
    - [QuotaSettings] ([quota/src/settings.rs]), [QuotaSchedule], [QuotaPlan]
      and [QuotaReport] ([quota/src/schedule.rs]): intervals and due times,
      the two ends of a probe, the plan of a tick, and the report.
    - [QuotaAdmission] ([quota/src/admission.rs]): what a launch may use and
      how provider evidence is recorded.
    - [QuotaReadiness] ([quota/src/readiness.rs]): readiness observations.
    - [QuotaCalibration] ([quota/src/calibration.rs], [chair.rs]).
    - [QuotaStore], [QuotaEdge] ([cli/src/quota.rs]): the records in memory
      under the lock, and the files behind them.
    - [Reconciler], [ReconcilerRuns] ([workflow/src/reconciler.rs]): the
      operations on the table of pull requests, each one transaction, and runs
      of any number of writers as sequences of successful operations.
    - [JsonDocument], [JsonGrammar] ([records/src/json.rs]): the validator of
      documents, bounded reading and decoding; and the grammar it decides.
    - [ReviewPaths], [ReviewPolicy], [ReviewCheck] ([routing/src/review.rs]):
      path patterns, path floors, shape selection, panels and lenses; and the
      validation of the policy and the size of a change.
    - [FabricClaims], [FabricLanding] ([fabric-store/src/claims.rs],
      [landing.rs], with what they use of [lib.rs], [events.rs] and [db.rs]):
      work claims, landings and pushes over their tables.  [FabricPaths] has
      the overlap of paths, [FabricFences] the steps of the store and their
      invariant, [FabricHistory] the theorems over every history.
    - [TelemetryRecords], [TelemetryCosts], [TelemetryStats]
      ([telemetry/src/reducer.rs], [prices.rs]): running totals, prices and
      rounding, and the reports.  [TelemetryTotals] and [TelemetryShares] have
      the theorems about them.
    - [LanePorts] ([os/src/lane_ports.rs]): port blocks for parallel lanes.
    - [RoutingTypes], [RoutingPolicy], [RoutingConfig] ([routing/src/request.rs],
      [catalog.rs], [policy.rs], [exclusion.rs], [fallback.rs], [retry.rs],
      [facts.rs]): requests, the catalogue, model policies and schedules, the
      routing settings with their validation.  [RoutingPacing],
      [RoutingResolve], [RoutingPool] ([resolve.rs]): the pacing of an account,
      candidates and what excludes them, the classification of a pool and the
      draw, resolution with and without a chosen account.  [RoutingViews] has
      listings, previews and guidance; [RoutingExample] a small host for the
      witnesses; [RoutingDraw], [RoutingSafety] and [RoutingRules] the theorems.

    - [GraphModel] ([fabric-runtime/src/graph/model.rs], [observation.rs]): the
      plan and the checkpoint of a task graph, the fields the operations below
      read or write.  [GraphOutcome] ([model.rs], [loops.rs], [repair.rs]): when
      a settled graph is a success, partial or failed.  [GraphAttempts]
      ([next_attempt.rs], [transitions.rs]): what a node does next, launch
      errors and their retries, the settlement of an attempt, a redraw of the
      same alias.  [GraphAttemptRuns] and [GraphContinue] ([graph.rs],
      [no_work.rs]): the steps of one row over its life and the continuation of
      a writer that stopped without work.  [GraphBudget] ([budget.rs]): budgets,
      their extension, the record of unknown usage.  [GraphSchedule]
      ([transitions.rs], [graph.rs]): when dependencies let a node run, gates,
      cancellation and resume.  [GraphAdmission] ([transitions.rs], [plans.rs]):
      writers, slots and admission.  [GraphRuns] ([graph.rs], [journal.rs]): runs
      of the scheduler over one plan, with detached nodes and late deliveries.
    - The host admission ledger ([run/src/]): [RunLedger] ([ledger.rs],
      [token_budget.rs], the lane limits of [config/src/gc.rs]): the leases of
      every lane on the host, their pruning, startup spacing and the upgrade of
      the file.  [RunLedgerRuns]: every history of claims and yields on the
      clocks of one host.

    The components meet in interfaces.  [UpdateOp] (in [QuotaStore]) is what
    the store needs of an operation that computes an intent: reservation,
    completion, refusal, cooldown and lane success are its instances.  [Codec]
    (in [QuotaEdge]) is what the files need of the JSON codec.  [Json] and
    [Jiff] (in [External]) are what the data needs of its two libraries, with
    [JsonText] for JSON strings and numbers and [Civil] for dates and zones.
    [RoutingAssets] (in [RoutingPolicy]) holds the bundled catalogue, policy and
    registry, and [Fmt] (in [RoutingPacing]) how texts and floats print.
    [FabricEnv] (in [FabricClaims]) is what the claims need of the digest, the
    file system and the encoding, with [FabricLaws] for what they rely on:
    scopes with one digest are one scope, and a canonical path is a list of
    components.  [Ord] (in [TelemetryRecords]) is the comparison of the keys of
    an ordered map.

    ** What the theorems show

    - Machine: invariants over every sequence of turns (well-formed states, a
      single publication, no stop without a cause), priority of an observed
      exit, settlement, exact wake-up time, and what a reported timeout means.
    - Quota store and files: the records in memory refine the files over every
      write and every way it can fail, and the files read back exactly when the
      write fits the store; a stale intent conflicts; an operation computed under
      the lock commits; a persisted refusal blocks the launches it reaches until
      it expires or its account is written again; a replay changes nothing; a
      login probe sets only login evidence aside.
    - Probe protocol, over every history of an account: a claim is completed
      at most once, probes do not overlap, a failure backs off.
    - Exact characterisations of the quota operations: reservation, completion,
      refusal, cooldown, admission, account blocks, planning, refusal
      publication, chair placement, launch checks.
    - Bounds and closed forms: intervals never overflow under validated
      settings, the backoff loop is a capped geometric sequence, wait budgets
      stay within their transport's cap.
    - Reconciler, over every run of its writers: the table stays well formed;
      a retry needs an observed absence; nothing lands but through the whole
      pipeline; a superseded head cannot act; identifiers are never reused; an
      observation that a retry has overtaken is refused.
    - Documents: the validator ends, and accepts exactly the bounded grammar.
    - Review: the matcher decides the glob relation; the floor of a change is
      what its paths demand; the selected shape and the seated lenses respect
      it; a validated policy always selects.
    - Claims and landings, over every history of the store: live claims are
      disjoint, superseded fences stay dead, at most one push per branch is in
      flight, and the phase of a push agrees with what was seen of the remote.
    - Telemetry: a report counts every selected attempt once, its rows add up
      to the attempts that are joined and with those left out to its totals,
      splitting attempts over groups conserves tokens and costs, cache shares
      and unmarked costs are exact.
    - Ports: live lanes on one state directory have disjoint ports, and a lane goes
      without a block only when none is free.
    - Routing: confidential work goes only to models that do not train on
      prompts; exclusions, read-only policies and a chosen account hold for the
      route and its alternatives; a ready route passed every gate; a pool with
      a ready member yields one, each with the share its weight, pacing
      and cache preference give; each field of a policy has one winning rule; the tightest window
      paces an account; deadlines round trip; listed pairs can be asked for.
    - Task graph: a node is launched at most once more than its allowance, and
      once more when it is continued; routes go in order and every change of
      route is justified; launch retries end; writers that run together share no
      path, over every run with cancellations and resumes, but for pairs that
      admission never compares, a detached start beside a fenced writer and a
      redelivered row ([detached_start_overlaps], [redelivery_overlaps]); admission, budgets,
      gates and the scheduler's readiness are characterised exactly; an
      extension only relaxes a budget; the outcome of a settled graph always
      exists and means what its name says; a resume undoes a cancellation.
    - Ledger: the lane limits hold in every history of the host; starts of one
      class in one boot are at least their spacing apart; lanes that are gone do
      not block a start, and a lane that may live keeps its lease.
    - Three theorems state faults of the code: [expired_refusals_fill_record],
      [full_store_becomes_unreadable] and [stale_record_hides_account].
      Smaller facts do so too:
      [prepared_wakes_early] (a difference from the documentation),
      [double_star_unanchored], [ready_rule_hides_floor] and
      [ready_rule_unvalidated] (review policy), and
      [continuation_exceeds_allowance] (task graph).

    ** How the code is modelled

    Machine integers are [Z] with the behaviour at the end of their range
    written out: checked, saturating and (for unchecked arithmetic, which wraps
    in a release build) modular.  Text is the string of its UTF-8 bytes.
    [Result] is [result], with [?] as bind.  Mutation is state passing.  Reads
    of clocks, files and locks are arguments.  A table of the database is a map
    from its primary key, or an association list where the order of rows
    matters; a transaction is a function that answers an error or the new
    tables.  Histories are inductive: a step is a successful operation, on a
    clock that does not run backwards.  Ordered maps of settings are lists of
    entries in key order; [f64] is IEEE 754 binary64 ([SpecFloat]).

    Fuel: [chunks] gets the length of the list ([chunks_concat] shows nothing
    is lost); the document validator two rounds per byte, which
    [validate_terminates] proves enough; the path matcher the sum of the two
    lengths, enough by [path_matches_exact]; the search for a free floor name
    one more than the number of names; the scan of port blocks their number,
    and the gate its hundred attempts, and the search for a pacing deadline its
    63 days, as in the code.  In the task graph the recursion through the owner
    of a loop gets one more than the number of nodes ([owner_fuel]) and the walk
    below the composites one more than the names it can push ([cover_fuel]),
    enough by [outcome_exact] when loops come after their rounds; a decision asks
    the host at most twice ([decide_next_attempt_returns]).

    ** What is not modelled, and what comes next

    Operating-system calls, the confinement profiles, protocol glue,
    command-line rendering and provider-specific wire decoding are outside.  Of
    [cli/src/quota.rs] the tick command that drives the plan is still missing.
    Directory entries that are not account files, and the order in which the
    first of several errors is found while reading a damaged store, are
    abstracted.  Of the task graph, what a captured result and its findings say
    enters the settlement of an attempt as conclusions ([Contract]), and the
    rendering of inputs enters admission the same way ([InputFacts]); the
    expansion of loops and plans, patches other than the reset of a row, asks,
    landing, the observation of CI and the rest of the journal are outside, and other work
    of the driver on a row is a step that keeps its attempts and allowance.  The
    tasks and messages of [fabric-store], the queue of tickets, the admission
    window, the controls and the holder of [run], risk classes of [workflow],
    the quota history and the encoding side of the codec are not modelled
    either.  Of [routing] the decoding of settings and assets is outside. *)

From stdpp Require Import base option list strings gmap numbers.

Local Open Scope Z_scope.

(** ** Fallible code

    Rust's [Result<A, E>], with [?] as the monadic bind. *)

Inductive result (E A : Type) :=
| Ok (a : A)
| Err (e : E).
Arguments Ok {E A} a.
Arguments Err {E A} e.

#[export] Instance result_ret E : MRet (result E) := λ A a, Ok a.
#[export] Instance result_bind E : MBind (result E) :=
  λ A B f m, match m with Ok a => f a | Err e => Err e end.

(** [Option::ok_or]. *)
Definition ok_or {E A} (o : option A) (e : E) : result E A :=
  match o with Some a => Ok a | None => Err e end.

Definition is_ok {E A} (r : result E A) : bool :=
  match r with Ok _ => true | Err _ => false end.

(** [Option::is_some_and] and [Option::is_none_or]. *)
Definition is_some_and {A} (o : option A) (p : A → bool) : bool :=
  match o with Some a => p a | None => false end.
Definition is_none_or {A} (o : option A) (p : A → bool) : bool :=
  match o with Some a => p a | None => true end.
Definition is_some {A} (o : option A) : bool :=
  match o with Some _ => true | None => false end.
Definition is_none {A} (o : option A) : bool := negb (is_some o).
Definition unwrap_or {A} (o : option A) (d : A) : A :=
  match o with Some a => a | None => d end.

(** Decidable equality as the boolean the source computes with [==]. *)
Declare Scope rust_scope.
Delimit Scope rust_scope with rust.
Notation "x == y" := (bool_decide (x = y)) (at level 70) : rust_scope.
Notation "x != y" := (negb (bool_decide (x = y))) (at level 70) : rust_scope.

(** ** Machine integers

    A machine integer is a [Z]; the functions below write out what each
    operation does at the end of its range. *)

Definition i64_min : Z := -9223372036854775808.
Definition i64_max : Z := 9223372036854775807.
Definition u64_max : Z := 18446744073709551615.

Definition in_i64 (z : Z) : bool := (i64_min <=? z) && (z <=? i64_max).
Definition in_u64 (z : Z) : bool := (0 <=? z) && (z <=? u64_max).

Definition checked_add_i64 (a b : Z) : option Z :=
  if in_i64 (a + b) then Some (a + b) else None.
Definition checked_add_u64 (a b : Z) : option Z :=
  if in_u64 (a + b) then Some (a + b) else None.
Definition checked_mul_u64 (a b : Z) : option Z :=
  if in_u64 (a * b) then Some (a * b) else None.

Definition clamp (lo hi z : Z) : Z := Z.max lo (Z.min hi z).
Definition saturating_add_i64 (a b : Z) : Z := clamp i64_min i64_max (a + b).
Definition saturating_sub_i64 (a b : Z) : Z := clamp i64_min i64_max (a - b).
Definition saturating_add_u64 (a b : Z) : Z := clamp 0 u64_max (a + b).
Definition saturating_sub_u64 (a b : Z) : Z := clamp 0 u64_max (a - b).

(** [a * b] on [u64] in a release build, and [as i64] from [u64]. *)
Definition wrapping_mul_u64 (a b : Z) : Z := (a * b) mod 2 ^ 64.
Definition u64_as_i64 (z : Z) : Z := (z + 2 ^ 63) mod 2 ^ 64 - 2 ^ 63.

(** [i64::try_from] on a [u64] and [u64::try_from] on an [i64]. *)
Definition i64_try_from_u64 (z : Z) : option Z :=
  if z <=? i64_max then Some z else None.
Definition u64_try_from_i64 (z : Z) : option Z :=
  if 0 <=? z then Some z else None.

(** ** Text

    A Rust [str] is its UTF-8 bytes: a [string] whose characters are bytes,
    so that [String.length] is [str::len]. *)

Definition byte_of (c : Ascii.ascii) : Z := Z.of_nat (Ascii.nat_of_ascii c).

Fixpoint all_bytes (p : Ascii.ascii → bool) (s : string) : bool :=
  match s with
  | EmptyString => true
  | String c s' => p c && all_bytes p s'
  end.
Definition any_byte (p : Ascii.ascii → bool) (s : string) : bool :=
  negb (all_bytes (λ c, negb (p c)) s).

Definition str_len (s : string) : Z := Z.of_nat (String.length s).
Definition str_is_empty (s : string) : bool :=
  match s with EmptyString => true | _ => false end.

Definition is_ascii_digit (c : Ascii.ascii) : bool :=
  let b := byte_of c in (48 <=? b) && (b <=? 57).
Definition is_ascii_alphanumeric (c : Ascii.ascii) : bool :=
  let b := byte_of c in
  is_ascii_digit c || ((65 <=? b) && (b <=? 90)) || ((97 <=? b) && (b <=? 122)).

(** [text.chars().any(char::is_control)] on UTF-8 bytes: U+0000 to U+001F and
    U+007F are one byte each, and U+0080 to U+009F are the two-byte sequences
    that start with C2 and go on with 80 to 9F. *)
Fixpoint has_control (s : string) : bool :=
  match s with
  | EmptyString => false
  | String c s' =>
      let b := byte_of c in
      (b <? 32) || (b =? 127)
      || ((b =? 194) && match s' with
                        | String d _ => (128 <=? byte_of d) && (byte_of d <=? 159)
                        | EmptyString => false
                        end)
      || has_control s'
  end.

(** [str::contains] for one ASCII character. *)
Definition contains_char (c : Ascii.ascii) (s : string) : bool :=
  any_byte (Ascii.eqb c) s.

(** [str::strip_prefix]. *)
Fixpoint strip_prefix (prefix s : string) : option string :=
  match prefix, s with
  | EmptyString, _ => Some s
  | String a p', String b s' => if Ascii.eqb a b then strip_prefix p' s' else None
  | String _ _, EmptyString => None
  end.
Definition starts_with (s prefix : string) : bool := is_some (strip_prefix prefix s).

(** [str::split_once] at one ASCII character. *)
Fixpoint split_once (sep : Ascii.ascii) (s : string) : option (string * string) :=
  match s with
  | EmptyString => None
  | String c s' =>
      if Ascii.eqb c sep then Some (EmptyString, s')
      else match split_once sep s' with
           | Some (a, b) => Some (String c a, b)
           | None => None
           end
  end.

(** [str::split] at one ASCII character. *)
Fixpoint split_all (sep : Ascii.ascii) (s : string) : list string :=
  match s with
  | EmptyString => [EmptyString]
  | String c s' =>
      if Ascii.eqb c sep then EmptyString :: split_all sep s'
      else match split_all sep s' with
           | [] => [String c EmptyString]
           | part :: parts => String c part :: parts
           end
  end.

(** [str::strip_suffix] and [str::ends_with]. *)
Fixpoint strip_suffix (suffix s : string) : option string :=
  if bool_decide (s = suffix) then Some EmptyString
  else match s with
       | EmptyString => None
       | String c s' => String c <$> strip_suffix suffix s'
       end.
Definition ends_with (s suffix : string) : bool := is_some (strip_suffix suffix s).

(** [str::contains] and [str::split_once] for a text. *)
Fixpoint contains_str (part s : string) : bool :=
  starts_with s part || match s with EmptyString => false | String _ s' => contains_str part s' end.
Fixpoint split_once_str (sep s : string) : option (string * string) :=
  match strip_prefix sep s with
  | Some rest => Some (EmptyString, rest)
  | None => match s with
            | EmptyString => None
            | String c s' => prod_map (String c) id <$> split_once_str sep s'
            end
  end.

(** [str::parse] of an unsigned integer up to [max]: an optional plus sign, at
    least one digit, in range. *)
Definition uint_digits (max : Z) (s : string) : option Z :=
  if str_is_empty s || negb (all_bytes is_ascii_digit s) then None
  else let n := fold_left (λ n c, 10 * n + (byte_of c - 48)) (String.list_ascii_of_string s) 0 in
       if n <=? max then Some n else None.
Definition parse_uint (max : Z) (s : string) : option Z :=
  match s with
  | String c s' => if (byte_of c =? 43) then uint_digits max s' else uint_digits max s
  | EmptyString => None
  end.

(** ** Lists *)

(** [iter_mut().find(p)] followed by an update of the found element; [None]
    when there is no such element. *)
Fixpoint update_first {A} (p : A → bool) (f : A → A) (l : list A) : option (list A) :=
  match l with
  | [] => None
  | x :: l' => if p x then Some (f x :: l')
               else match update_first p f l' with
                    | Some l'' => Some (x :: l'')
                    | None => None
                    end
  end.

(** [iter().position(p)]. *)
Fixpoint position {A} (p : A → bool) (l : list A) : option nat :=
  match l with
  | [] => None
  | x :: l' => if p x then Some O else S <$> position p l'
  end.

(** [slice::chunks(n)], with fuel: a chunk takes at least one element, so
    [length l] rounds are enough. *)
Fixpoint chunks_fuel {A} (fuel : nat) (n : nat) (l : list A) : list (list A) :=
  match fuel, l with
  | O, _ => []
  | _, [] => []
  | S fuel', _ => take n l :: chunks_fuel fuel' n (drop n l)
  end.
Definition chunks {A} (n : nat) (l : list A) : list (list A) :=
  chunks_fuel (length l) n l.

Definition len {A} (l : list A) : Z := Z.of_nat (length l).

(** Elements of a list are pairwise distinct under a key, checked the way the
    source does it with a [BTreeSet] and [insert]. *)
Fixpoint distinct_by {A K} `{EqDecision K} (key : A → K) (seen : list K) (l : list A) : bool :=
  match l with
  | [] => true
  | x :: l' => negb (bool_decide (key x ∈ seen)) && distinct_by key (key x :: seen) l'
  end.

(** ** Shared lemmas *)

Lemma result_bind_Ok {E A B} (m : result E A) (f : A → result E B) b :
  (m ≫= f) = Ok b ↔ ∃ a, m = Ok a ∧ f a = Ok b.
Proof. destruct m as [a|e]; simpl; naive_solver. Qed.

(** [check()?; rest]: the unit result of the check is dropped. *)
Lemma result_seq_Ok {E B} (m : result E unit) (k : result E B) b :
  (m ≫= λ _, k) = Ok b ↔ m = Ok tt ∧ k = Ok b.
Proof. destruct m as [[]|e]; simpl; naive_solver. Qed.

(** [if guard { return Err(e) }; rest]. *)
Lemma result_guard_Ok {E B} (guard : bool) (e : E) (k : result E B) b :
  (if guard then Err e else k) = Ok b ↔ guard = false ∧ k = Ok b.
Proof. destruct guard; naive_solver. Qed.

Lemma Ok_tt_True {E} : @Ok E unit tt = Ok tt ↔ True.
Proof. done. Qed.

Lemma ok_or_Ok {E A} (o : option A) (e : E) a : ok_or o e = Ok a ↔ o = Some a.
Proof. destruct o; simpl; naive_solver. Qed.

Lemma is_ok_true {E A} (r : result E A) : is_ok r = true ↔ ∃ a, r = Ok a.
Proof. destruct r; simpl; naive_solver. Qed.

Lemma is_some_and_true {A} (o : option A) p :
  is_some_and o p = true ↔ ∃ a, o = Some a ∧ p a = true.
Proof. destruct o; simpl; naive_solver. Qed.

Lemma is_some_and_false {A} (o : option A) p :
  is_some_and o p = false ↔ ∀ a, o = Some a → p a = false.
Proof. destruct o; simpl; naive_solver. Qed.

Lemma is_none_or_false {A} (o : option A) p :
  is_none_or o p = false ↔ ∃ a, o = Some a ∧ p a = false.
Proof. destruct o; simpl; naive_solver. Qed.

Lemma is_none_or_true {A} (o : option A) p :
  is_none_or o p = true ↔ ∀ a, o = Some a → p a = true.
Proof. destruct o; simpl; naive_solver. Qed.

Lemma is_some_true {A} (o : option A) : is_some o = true ↔ ∃ a, o = Some a.
Proof. destruct o; simpl; naive_solver. Qed.

Lemma is_some_false {A} (o : option A) : is_some o = false ↔ o = None.
Proof. destruct o; simpl; naive_solver. Qed.

Lemma checked_add_i64_Some a b c :
  checked_add_i64 a b = Some c ↔ c = a + b ∧ i64_min ≤ a + b ≤ i64_max.
Proof.
  unfold checked_add_i64, in_i64. destruct (_ && _) eqn:E; naive_solver lia.
Qed.

Lemma checked_add_u64_Some a b c :
  checked_add_u64 a b = Some c ↔ c = a + b ∧ 0 ≤ a + b ≤ u64_max.
Proof.
  unfold checked_add_u64, in_u64. destruct (_ && _) eqn:E; naive_solver lia.
Qed.

Lemma i64_try_from_u64_Some a b :
  i64_try_from_u64 a = Some b ↔ b = a ∧ a ≤ i64_max.
Proof. unfold i64_try_from_u64. destruct (_ <=? _) eqn:E; naive_solver lia. Qed.

Lemma u64_as_i64_small z : 0 ≤ z ≤ i64_max → u64_as_i64 z = z.
Proof. unfold u64_as_i64, i64_max. intros. rewrite Z.mod_small; lia. Qed.

Lemma wrapping_mul_u64_small a b :
  0 ≤ a * b ≤ u64_max → wrapping_mul_u64 a b = a * b.
Proof. unfold wrapping_mul_u64, u64_max. intros. rewrite Z.mod_small; lia. Qed.

Lemma string_app_assoc (a b c : string) : a +:+ (b +:+ c) = (a +:+ b) +:+ c.
Proof. induction a as [|x a IH]; [done|]. exact (f_equal (String x) IH). Qed.

Lemma strip_prefix_Some p s r : strip_prefix p s = Some r ↔ s = (p +:+ r)%string.
Proof.
  revert s; induction p as [|a p IH]; intros s; simpl.
  { split; [by intros [= ->] | by intros ->]. }
  destruct s as [|b s]; [done|].
  destruct (Ascii.eqb_spec a b) as [->|Hne].
  - rewrite IH. split; [by intros -> | by intros [= ->]].
  - split; [done | by intros [= -> _]].
Qed.

(** A byte that a check of every byte refuses does not occur. *)
Lemma all_bytes_contains p c s :
  all_bytes p s = true → p c = false → contains_char c s = false.
Proof.
  unfold contains_char, any_byte. rewrite negb_false_iff. intros Hp Hc.
  induction s as [|d s IH]; [done|]. simpl in Hp |- *.
  apply andb_true_iff in Hp as [Hd Hs]. rewrite IH, andb_true_r by done.
  destruct (Ascii.eqb_spec c d); [congruence|done].
Qed.

Lemma digits_nonneg s m :
  0 ≤ m → all_bytes is_ascii_digit s = true →
  0 ≤ fold_left (λ n c, 10 * n + (byte_of c - 48)) (String.list_ascii_of_string s) m.
Proof.
  revert m. induction s as [|c s IH]; intros m Hm; simpl; [done|]. intros [Hc Hs]%andb_true_iff.
  apply IH; [|done]. unfold is_ascii_digit in Hc. apply andb_true_iff in Hc as [?%Z.leb_le _]. lia.
Qed.
Lemma parse_uint_range max s n : parse_uint max s = Some n → 0 ≤ n ≤ max.
Proof.
  assert (∀ s n, uint_digits max s = Some n → 0 ≤ n ≤ max) as H.
  { clear. intros s n. unfold uint_digits. destruct (_ || _) eqn:Hs; [done|].
    apply orb_false_iff in Hs as [_ Hs%negb_false_iff]. destruct (Z.leb_spec (fold_left (λ n c, 10 * n + (byte_of c - 48))
      (String.list_ascii_of_string s) 0) max); [|done]. intros [= <-]. split; [|done]. by apply digits_nonneg. }
  destruct s as [|c s]; simpl; [done|]. case_match; apply H.
Qed.

Lemma split_all_app sep a b :
  split_all sep (a +:+ String sep b)%string = split_all sep a ++ split_all sep b.
Proof.
  induction a as [|c a IH]; simpl; [by rewrite Ascii.eqb_refl|]. destruct (Ascii.eqb c sep); rewrite IH; [done|].
  destruct (split_all sep a) as [|part parts] eqn:Ha; [|done]. by destruct a; simpl in Ha; repeat case_match.
Qed.

Lemma split_once_Some sep s a b :
  split_once sep s = Some (a, b) ↔
  s = (a +:+ String sep b)%string ∧ contains_char sep a = false.
Proof.
  unfold contains_char, any_byte. rewrite negb_false_iff.
  revert a; induction s as [|c s IH]; intros a; simpl.
  { split; [done|]. intros [Heq _]. by destruct a. }
  destruct (Ascii.eqb_spec c sep) as [->|Hne].
  - split; [by intros [= <- ->]|]. intros [Heq Ha]. destruct a as [|d a]; simpl in *.
    + by injection Heq as ->.
    + injection Heq as -> _. by rewrite Ascii.eqb_refl in Ha.
  - trans (∃ a', a = String c a' ∧ split_once sep s = Some (a', b)).
    { destruct (split_once sep s) as [[a' b']|]; [|naive_solver].
      split; [intros [= <- ->]; eauto | by intros (? & -> & [= -> ->])]. }
    setoid_rewrite IH. split.
    + intros (a' & -> & -> & Ha'). simpl. split; [done|]. rewrite Ha', andb_true_r, negb_true_iff.
      apply Ascii.eqb_neq. congruence.
    + intros [Heq Ha]. destruct a as [|d a]; simpl in *; [by injection Heq|].
      injection Heq as -> ->. apply andb_true_iff in Ha as [_ Ha]. eauto.
Qed.

Lemma update_first_Some {A} (p : A → bool) f l l' :
  update_first p f l = Some l' →
  ∃ l1 x l2, l = l1 ++ x :: l2 ∧ l' = l1 ++ f x :: l2 ∧ p x = true ∧
             Forall (λ y, p y = false) l1.
Proof.
  revert l'; induction l as [|x l IH]; intros l' H; simpl in H; [done|].
  destruct (p x) eqn:Hp.
  - injection H as <-. exists [], x, l. by repeat constructor.
  - destruct (update_first p f l) as [l''|] eqn:E; [|done]. injection H as <-.
    destruct (IH _ eq_refl) as (l1 & y & l2 & -> & -> & Hy & Hl1).
    exists (x :: l1), y, l2. repeat split; auto.
Qed.

Lemma update_first_None {A} (p : A → bool) f l :
  update_first p f l = None ↔ Forall (λ y, p y = false) l.
Proof.
  induction l as [|x l IH]; simpl; [split; auto|].
  destruct (p x) eqn:Hp.
  - split; [done|]. intros H%Forall_cons_1. destruct H; congruence.
  - rewrite Forall_cons_iff, <-IH. destruct (update_first p f l); naive_solver.
Qed.

(** Updating an element that keeps [g] leaves the list of [g]s alone. *)
Lemma update_first_map {A B} (p : A → bool) f (g : A → B) l l' :
  (∀ x, g (f x) = g x) → update_first p f l = Some l' → g <$> l' = g <$> l.
Proof.
  intros Hg H. apply update_first_Some in H as (l1 & x & l2 & -> & -> & _).
  rewrite !fmap_app, !fmap_cons. by rewrite Hg.
Qed.

Lemma position_Some {A} (p : A → bool) l i :
  position p l = Some i → ∃ x, l !! i = Some x ∧ p x = true.
Proof.
  revert i; induction l as [|x l IH]; intros i H; simpl in H; [done|].
  destruct (p x) eqn:Hp; [injection H as <-; by exists x|].
  destruct (position p l) as [j|]; [|done]. injection H as <-. simpl. by apply IH.
Qed.

Lemma position_split {A} (p : A → bool) l i :
  position p l = Some i →
  ∃ l1 x l2, l = l1 ++ x :: l2 ∧ i = length l1 ∧ p x = true ∧ Forall (λ y, p y = false) l1.
Proof.
  revert i; induction l as [|x l IH]; intros i H; simpl in H; [done|].
  destruct (p x) eqn:Hp; [injection H as <-; exists [], x, l; by repeat constructor|].
  destruct (position p l) as [j|]; [|done]. injection H as <-.
  destruct (IH j eq_refl) as (l1 & y & l2 & -> & -> & ? & ?).
  exists (x :: l1), y, l2. split_and!; auto.
Qed.

Lemma insert_middle {A} (l1 l2 : list A) x y : <[length l1 := y]> (l1 ++ x :: l2) = l1 ++ y :: l2.
Proof. induction l1 as [|z l1 IH]; simpl; [done|]. by rewrite IH. Qed.

Lemma position_None {A} (p : A → bool) l :
  position p l = None ↔ Forall (λ y, p y = false) l.
Proof.
  induction l as [|x l IH]; simpl; [split; auto|].
  destruct (p x) eqn:Hp.
  - split; [done|]. intros H%Forall_cons_1. destruct H; congruence.
  - rewrite Forall_cons_iff, <-IH. destruct (position p l); naive_solver.
Qed.

Lemma chunks_fuel_concat {A} fuel n (l : list A) :
  (0 < n)%nat → (length l ≤ fuel)%nat → concat (chunks_fuel fuel n l) = l.
Proof.
  intros Hn. revert l; induction fuel as [|fuel IH]; intros [|x l] Hl; simpl in *; try done; [lia|].
  rewrite IH.
  - destruct n; [lia|]. by rewrite (take_drop (S n) (x :: l)).
  - rewrite length_drop. simpl. lia.
Qed.

Lemma chunks_concat {A} n (l : list A) : (0 < n)%nat → concat (chunks n l) = l.
Proof. intros. by apply chunks_fuel_concat. Qed.

Lemma chunks_fuel_bound {A} fuel n (l : list A) :
  Forall (λ c, (length c ≤ n)%nat) (chunks_fuel fuel n l).
Proof.
  revert l; induction fuel as [|fuel IH]; intros [|x l]; simpl; auto.
  constructor; [|apply IH]. rewrite length_take. lia.
Qed.

Lemma chunks_bound {A} n (l : list A) : Forall (λ c, (length c ≤ n)%nat) (chunks n l).
Proof. apply chunks_fuel_bound. Qed.

Lemma chunks_nonempty {A} n (l : list A) : (0 < n)%nat → Forall (λ c, c ≠ []) (chunks n l).
Proof.
  intros Hn. unfold chunks. generalize (length l) as fuel. intros fuel.
  revert l; induction fuel as [|fuel IH]; intros [|x l]; simpl; auto.
  constructor; [|apply IH]. by destruct n; [lia|].
Qed.

Lemma distinct_by_NoDup {A K} `{EqDecision K} (key : A → K) l seen :
  distinct_by key seen l = true ↔
  NoDup (key <$> l) ∧ Forall (λ x, key x ∉ seen) l.
Proof.
  revert seen; induction l as [|x l IH]; intros seen; simpl.
  { split; [intros _; split; constructor | done]. }
  rewrite andb_true_iff, negb_true_iff, bool_decide_eq_false, IH, list.NoDup_cons, Forall_cons_iff.
  rewrite list_elem_of_fmap. split.
  - intros (Hx & Hnd & Hl). rewrite list.Forall_forall in Hl.
    split_and!; auto.
    + intros (y & Hxy & Hy). apply (Hl y Hy). rewrite Hxy. set_solver.
    + apply list.Forall_forall. intros y Hy. specialize (Hl y Hy). set_solver.
  - intros ((Hx & Hnd) & Hs & Hl). rewrite list.Forall_forall in Hl.
    split_and!; auto. apply list.Forall_forall. intros y Hy.
    specialize (Hl y Hy). rewrite not_elem_of_cons. split; [|done].
    intros Heq. apply Hx. by exists y.
Qed.

(** Two elements of a list with distinct keys and the same key are equal. *)
Lemma NoDup_key_inj {A K} (key : A → K) l x y :
  NoDup (key <$> l) → x ∈ l → y ∈ l → key x = key y → x = y.
Proof.
  intros Hnd Hx Hy Heq.
  apply list_elem_of_lookup in Hx as [i Hi], Hy as [j Hj].
  assert (i = j) as ->; [|congruence].
  eapply NoDup_lookup; [exact Hnd| |];
    rewrite list_lookup_fmap; [by rewrite Hi | by rewrite Hj, Heq].
Qed.

Lemma find_Some_elem {A} (p : A → bool) l x :
  List.find p l = Some x → x ∈ l ∧ p x = true.
Proof. intros [Hin Hp]%List.find_some. by rewrite list_elem_of_In. Qed.

Lemma find_None_elem {A} (p : A → bool) l :
  List.find p l = None ↔ ∀ x, x ∈ l → p x = false.
Proof.
  split.
  - intros H x Hx. eapply List.find_none in H; [done|]. by apply list_elem_of_In.
  - intros H. induction l as [|y l IH]; [done|]. simpl. rewrite H by set_solver.
    apply IH. set_solver.
Qed.

Lemma find_Some_split {A} (p : A → bool) l x :
  List.find p l = Some x ↔
  ∃ l1 l2, l = l1 ++ x :: l2 ∧ p x = true ∧ Forall (λ y, p y = false) l1.
Proof.
  induction l as [|y l IH]; simpl.
  { split; [done|]. intros ([|] & l2 & ? & _); done. }
  destruct (p y) eqn:Hy.
  - split; [intros [= ->]; by exists [], l|].
    intros ([|z l1] & l2 & Heq & Hx & Hl1); injection Heq as -> ->; [done|].
    apply Forall_cons_1 in Hl1. destruct Hl1; congruence.
  - rewrite IH. split.
    + intros (l1 & l2 & -> & Hx & Hl1). exists (y :: l1), l2. split_and!; auto.
    + intros ([|z l1] & l2 & Heq & Hx & Hl1); injection Heq as -> ->; [congruence|].
      apply Forall_cons_1 in Hl1 as [_ Hl1]. by exists l1, l2.
Qed.

Lemma existsb_elem {A} (p : A → bool) l :
  existsb p l = true ↔ ∃ x, x ∈ l ∧ p x = true.
Proof. rewrite existsb_exists. setoid_rewrite list_elem_of_In. done. Qed.

Lemma existsb_false_elem {A} (p : A → bool) l :
  existsb p l = false ↔ ∀ x, x ∈ l → p x = false.
Proof.
  rewrite <-not_true_iff_false, existsb_elem. split.
  - intros H x Hx. apply not_true_iff_false. naive_solver.
  - intros H (x & Hx & Hp). rewrite (H x Hx) in Hp. done.
Qed.

Lemma forallb_elem {A} (p : A → bool) l :
  forallb p l = true ↔ ∀ x, x ∈ l → p x = true.
Proof. rewrite forallb_forall. setoid_rewrite list_elem_of_In. done. Qed.

Lemma bfilter_elem {A} (p : A → bool) l x :
  x ∈ List.filter p l ↔ x ∈ l ∧ p x = true.
Proof. rewrite !list_elem_of_In. apply List.filter_In. Qed.

Lemma bfilter_length {A} (p : A → bool) l : (length (List.filter p l) ≤ length l)%nat.
Proof. induction l as [|x l IH]; simpl; [lia|]. destruct (p x); simpl; lia. Qed.

Lemma bfilter_all {A} (p : A → bool) l : (∀ x, x ∈ l → p x = true) → List.filter p l = l.
Proof.
  induction l as [|x l IH]; intros H; simpl; [done|].
  rewrite H by set_solver. rewrite IH; [done|]. set_solver.
Qed.

(** ** Automation *)

(** Boolean tests of the code, as the propositions they decide. *)
Create Rewrite HintDb rust_bool.
#[export] Hint Rewrite @bool_decide_eq_true @bool_decide_eq_false
  andb_true_iff andb_false_iff orb_true_iff orb_false_iff negb_true_iff negb_false_iff
  Z.leb_le Z.ltb_lt Z.leb_gt Z.ltb_ge Z.eqb_eq Z.eqb_neq Z.geb_le Z.gtb_lt
  @is_some_and_true @is_some_and_false @is_none_or_true @is_none_or_false
  @is_some_true @is_some_false
  @existsb_elem @existsb_false_elem @forallb_elem : rust_bool.

Ltac bool_prop := autorewrite with rust_bool in *.

(** Take a successful run of fallible code apart: every [?] and every early
    return on its path becomes a hypothesis. *)
Ltac ok_inv_step :=
  match goal with
  | H : mbind _ _ = Ok _ |- _ => apply result_bind_Ok in H as (? & ? & H)
  | H : ok_or _ _ = Ok _ |- _ => apply ok_or_Ok in H
  | H : mret _ = Ok _ |- _ => unfold mret, result_ret in H
  | H : Ok _ = Ok _ |- _ => injection H as H
  | H : Err _ = Ok _ |- _ => discriminate H
  | H : Ok _ = Err _ |- _ => discriminate H
  | H : (if ?b then Err _ else _) = Ok _ |- _ =>
      let E := fresh "Hguard" in destruct b eqn:E; [discriminate H|]
  | H : checked_add_i64 _ _ = Some _ |- _ => apply checked_add_i64_Some in H as [? ?]
  | H : checked_add_u64 _ _ = Some _ |- _ => apply checked_add_u64_Some in H as [? ?]
  | H : i64_try_from_u64 _ = Some _ |- _ => apply i64_try_from_u64_Some in H as [? ?]
  end.
Ltac ok_inv := repeat (ok_inv_step; subst; simpl in * ).

(** ** Lists of lists, and empty text *)

Lemma flat_map_nil {A B} (f : A → list B) l : flat_map f l = [] ↔ ∀ x, x ∈ l → f x = [].
Proof.
  induction l as [|x l IH]; simpl; [split; [by intros _ ? ?%elem_of_nil|done]|].
  rewrite app_nil, IH. set_solver.
Qed.
Lemma flat_map_filter_sublist {A B} (q : A → bool) (g : A → list B) l :
  flat_map g (List.filter q l) `sublist_of` flat_map g l.
Proof.
  induction l as [|x l IH]; simpl; [done|]. destruct (q x); simpl.
  - by apply sublist_app.
  - by apply sublist_inserts_l.
Qed.
Lemma str_is_empty_false s : str_is_empty s = false ↔ s ≠ EmptyString.
Proof. by destruct s. Qed.

Create HintDb rust.
#[export] Hint Resolve chunks_bound update_first_map NoDup_nil_2 : rust.
