(* ===== verification/Machine.v ===== *)
(** * The provider lifecycle machine

    Models [crates/supervisor/src/machine.rs]: the pure state machine that
    decides, from one event and one observation of the operating system at a
    time, when the guardian may signal a provider, when cleanup starts and when
    the exit is published. [step] is the source's [step], [request_stop] and
    [retry_stop] its two helpers; [run] folds [step] over a sequence of turns,
    with the wall deadline extensions the guardian interleaves with them. *)

From stdpp Require Import base option list sets strings numbers.
From S2P Require Import Prelude.

Local Open Scope Z_scope.
Local Open Scope rust_scope.

(** ** Data *)

(** [provenant_os::exec::Termination]. *)
Inductive Termination :=
| Exit (code : Z)
| Signal (number : Z).

Inductive Phase :=
| Prepared
| Running
| TerminalGrace
| Stopping
| Cleaning
| Exited
| Published.

Inductive StopReason :=
| ExplicitCancellation
| WallDeadline
| ProtocolRejected
| SupervisorSignal
| PostTerminalCleanup
| TokenBudget.

Inductive DeliveryFailure :=
| IdentityChanged
| NotOwned
| NoSuchProcess
| PermissionDenied
| OsError (errno : Z).

Inductive DeliveryOutcome :=
| Delivered
| Failed (failure : DeliveryFailure).

Record StopAttempt := mkStopAttempt {
  reason : StopReason;
  delivery : option DeliveryOutcome;
}.

Inductive CleanupObservation :=
| CleanupUnknown
| CleanupPending
| DescendantsPresent
| Unresolved
| Complete.

Inductive PublicationFailure :=
| NoSpace
| IoError (errno : Z)
| ReservationUnavailable.

Inductive PublicationOutcome :=
| Durable
| Pending (failure : PublicationFailure)
| VisibleDurabilityUnconfirmed (failure : PublicationFailure).

Inductive DeadlineKind :=
| Wall
| RootFlush
| DescendantGrace.

Inductive Effect :=
| CloseStdin
| BeginCleanup (exit : Termination)
| DeliverStop (r : StopReason)
| PublishExit
| RetryExitPublication
| RetryPublishedDirectorySync
| DeadlineUnavailable (kind : DeadlineKind)
| RejectDeliveryReceipt (r : StopReason).

Record Budgets := mkBudgets {
  wall_deadline_ms : Z;
  root_flush_ms : Z;
  descendant_grace_ms : Z;
}.

#[export] Instance Termination_eq_dec : EqDecision Termination.
Proof. solve_decision. Defined.
#[export] Instance Phase_eq_dec : EqDecision Phase.
Proof. solve_decision. Defined.
#[export] Instance StopReason_eq_dec : EqDecision StopReason.
Proof. solve_decision. Defined.
#[export] Instance DeliveryFailure_eq_dec : EqDecision DeliveryFailure.
Proof. solve_decision. Defined.
#[export] Instance DeliveryOutcome_eq_dec : EqDecision DeliveryOutcome.
Proof. solve_decision. Defined.
#[export] Instance StopAttempt_eq_dec : EqDecision StopAttempt.
Proof. solve_decision. Defined.
#[export] Instance CleanupObservation_eq_dec : EqDecision CleanupObservation.
Proof. solve_decision. Defined.
#[export] Instance PublicationFailure_eq_dec : EqDecision PublicationFailure.
Proof. solve_decision. Defined.
#[export] Instance PublicationOutcome_eq_dec : EqDecision PublicationOutcome.
Proof. solve_decision. Defined.
#[export] Instance DeadlineKind_eq_dec : EqDecision DeadlineKind.
Proof. solve_decision. Defined.
#[export] Instance Effect_eq_dec : EqDecision Effect.
Proof. solve_decision. Defined.

Definition DEFAULT_DESCENDANT_GRACE_MS : Z := 500.
Definition DEFAULT_ROOT_FLUSH_MS : Z := 2000.

(** [Budgets::new] and [Budgets::with_cleanup]. *)
Definition Budgets_new (wall : Z) : Budgets :=
  mkBudgets wall DEFAULT_ROOT_FLUSH_MS DEFAULT_DESCENDANT_GRACE_MS.
Definition Budgets_with_cleanup (wall flush grace : Z) : Budgets :=
  mkBudgets wall flush grace.

#[projections(primitive)] Record State := mkState {
  phase : Phase;
  budgets : Budgets;
  root_flush_deadline_ms : option Z;
  descendant_deadline_ms : option Z;
  exit : option Termination;
  never_spawned_reason : option StopReason;
  stop_attempts : list StopAttempt;
  publication : option PublicationOutcome;
  last_progress_ms : option Z;
}.

(** Assignments to one field of the mutable [state]. *)
Definition set_phase (p : Phase) (s : State) : State :=
  mkState p s.(budgets) s.(root_flush_deadline_ms) s.(descendant_deadline_ms) s.(exit)
    s.(never_spawned_reason) s.(stop_attempts) s.(publication) s.(last_progress_ms).
Definition set_budgets (b : Budgets) (s : State) : State :=
  mkState s.(phase) b s.(root_flush_deadline_ms) s.(descendant_deadline_ms) s.(exit)
    s.(never_spawned_reason) s.(stop_attempts) s.(publication) s.(last_progress_ms).
Definition set_root_flush_deadline_ms (d : option Z) (s : State) : State :=
  mkState s.(phase) s.(budgets) d s.(descendant_deadline_ms) s.(exit)
    s.(never_spawned_reason) s.(stop_attempts) s.(publication) s.(last_progress_ms).
Definition set_descendant_deadline_ms (d : option Z) (s : State) : State :=
  mkState s.(phase) s.(budgets) s.(root_flush_deadline_ms) d s.(exit)
    s.(never_spawned_reason) s.(stop_attempts) s.(publication) s.(last_progress_ms).
Definition set_exit (e : option Termination) (s : State) : State :=
  mkState s.(phase) s.(budgets) s.(root_flush_deadline_ms) s.(descendant_deadline_ms) e
    s.(never_spawned_reason) s.(stop_attempts) s.(publication) s.(last_progress_ms).
Definition set_never_spawned_reason (r : option StopReason) (s : State) : State :=
  mkState s.(phase) s.(budgets) s.(root_flush_deadline_ms) s.(descendant_deadline_ms) s.(exit)
    r s.(stop_attempts) s.(publication) s.(last_progress_ms).
Definition set_stop_attempts (l : list StopAttempt) (s : State) : State :=
  mkState s.(phase) s.(budgets) s.(root_flush_deadline_ms) s.(descendant_deadline_ms) s.(exit)
    s.(never_spawned_reason) l s.(publication) s.(last_progress_ms).
Definition set_publication (p : option PublicationOutcome) (s : State) : State :=
  mkState s.(phase) s.(budgets) s.(root_flush_deadline_ms) s.(descendant_deadline_ms) s.(exit)
    s.(never_spawned_reason) s.(stop_attempts) p s.(last_progress_ms).
Definition set_last_progress_ms (p : option Z) (s : State) : State :=
  mkState s.(phase) s.(budgets) s.(root_flush_deadline_ms) s.(descendant_deadline_ms) s.(exit)
    s.(never_spawned_reason) s.(stop_attempts) s.(publication) p.

Definition set_delivery (d : option DeliveryOutcome) (a : StopAttempt) : StopAttempt :=
  mkStopAttempt a.(reason) d.

(** [State::prepared] and [State::never_spawned]. *)
Definition prepared (b : Budgets) : State :=
  mkState Prepared b None None None None [] None None.
Definition never_spawned : State :=
  set_phase Exited (prepared (Budgets_new 0)).

(** [State::extend_wall_deadline]. *)
Definition extend_wall_deadline (s : State) (ms : Z) : State :=
  set_budgets
    (mkBudgets (saturating_add_u64 s.(budgets).(wall_deadline_ms) ms)
       s.(budgets).(root_flush_ms) s.(budgets).(descendant_grace_ms)) s.

(** [wall.into_iter().chain(flush).min()]. *)
Definition option_min (a b : option Z) : option Z :=
  match a, b with
  | Some x, Some y => Some (Z.min x y)
  | Some x, None => Some x
  | None, y => y
  end.

(** [State::deadline_in_ms]. *)
Definition deadline_in_ms (s : State) (now_ms wall_ms : Z) : option Z :=
  let wall :=
    match s.(phase) with
    | Prepared | Running | TerminalGrace =>
        Some (saturating_sub_u64 s.(budgets).(wall_deadline_ms) (Z.max now_ms wall_ms))
    | _ => None
    end in
  let flush :=
    (λ deadline, saturating_sub_u64 deadline now_ms) <$>
      (if s.(phase) == TerminalGrace then s.(root_flush_deadline_ms) else None) in
  option_min wall flush.

(** [State::timed_out]. *)
Definition timed_out (s : State) : bool :=
  existsb (λ attempt, (attempt.(reason) == WallDeadline)
                      && (attempt.(delivery) == Some Delivered)) s.(stop_attempts).

Inductive Event :=
| Started
| Progress
| Terminal
| Cancel
| EventProtocolRejected
| EventSupervisorSignal
| EventTokenBudget
| RetryStop (r : StopReason)
| Silence
| CaptureFailure
| ObservationFailure.

#[export] Instance Event_eq_dec : EqDecision Event.
Proof. solve_decision. Defined.

Record DeliveryReceipt := mkReceipt {
  receipt_reason : StopReason;
  receipt_outcome : DeliveryOutcome;
}.

Record Tick := mkTick {
  now_ms : Z;
  wall_ms : Z;
  observed_exit : option Termination;
  tick_delivery : option DeliveryReceipt;
  cleanup : option CleanupObservation;
  tick_publication : option PublicationOutcome;
}.

(** [Tick::at]. *)
Definition at_ms (now : Z) : Tick := mkTick now 0 None None None None.

(** ** The step *)

(** The helpers take the effects pushed so far and return them extended. *)
Definition request_stop (s : State) (r : StopReason) (effects : list Effect)
  : State * list Effect :=
  if (s.(phase) == Stopping) || ((s.(phase) == Cleaning) && (r != PostTerminalCleanup))
  then (s, effects)
  else
    let s := set_phase Stopping s in
    match List.find (λ attempt, attempt.(reason) == r) s.(stop_attempts) with
    | Some attempt =>
        if is_some attempt.(delivery) then (s, effects)
        else (s, effects ++ [DeliverStop r])
    | None =>
        (set_stop_attempts (s.(stop_attempts) ++ [mkStopAttempt r None]) s,
         effects ++ [DeliverStop r])
    end.

Definition retry_stop (s : State) (r : StopReason) (effects : list Effect)
  : State * list Effect :=
  if s.(phase) != Stopping then (s, effects)
  else
    match update_first (λ attempt, attempt.(reason) == r) (set_delivery None) s.(stop_attempts) with
    | Some attempts => (set_stop_attempts attempts s, effects ++ [DeliverStop r])
    | None => (s, effects)
    end.

(** The first block of [step]: a delivery receipt is stored on its attempt. *)
Definition apply_receipt (s : State) (d : option DeliveryReceipt) : State * list Effect :=
  match d with
  | None => (s, [])
  | Some receipt =>
      match update_first (λ attempt, attempt.(reason) == receipt.(receipt_reason))
              (set_delivery (Some receipt.(receipt_outcome))) s.(stop_attempts) with
      | Some attempts => (set_stop_attempts attempts s, [])
      | None => (s, [RejectDeliveryReceipt receipt.(receipt_reason)])
      end
  end.

Definition leader_live (p : Phase) : bool :=
  match p with Running | TerminalGrace | Stopping => true | _ => false end.

(** The final [match state.phase] of [step]. *)
Definition step_phase (s : State) (event : Event) (tick : Tick) (effects : list Effect)
  : State * list Effect :=
  match s.(phase) with
  | Prepared =>
      match event with
      | Started => (set_phase Running s, effects)
      | Cancel | EventSupervisorSignal =>
          (set_never_spawned_reason
             (Some (if event == Cancel then ExplicitCancellation else SupervisorSignal))
             (set_phase Exited s),
           effects ++ [PublishExit])
      | _ => (s, effects)
      end
  | Running =>
      match event with
      | Progress => (set_last_progress_ms (Some tick.(now_ms)) s, effects)
      | Terminal =>
          let deadline := checked_add_u64 tick.(now_ms) s.(budgets).(root_flush_ms) in
          (set_root_flush_deadline_ms deadline (set_phase TerminalGrace s),
           (effects ++ [CloseStdin])
             ++ (if is_none deadline then [DeadlineUnavailable RootFlush] else []))
      | Cancel => request_stop s ExplicitCancellation effects
      | EventProtocolRejected => request_stop s ProtocolRejected effects
      | EventSupervisorSignal => request_stop s SupervisorSignal effects
      | EventTokenBudget => request_stop s TokenBudget effects
      | _ => (s, effects)
      end
  | TerminalGrace =>
      let s := if event == Progress then set_last_progress_ms (Some tick.(now_ms)) s else s in
      if is_some_and s.(root_flush_deadline_ms) (λ deadline, deadline <=? tick.(now_ms))
      then request_stop s PostTerminalCleanup effects
      else
        match event with
        | Cancel => request_stop s ExplicitCancellation effects
        | EventProtocolRejected => request_stop s ProtocolRejected effects
        | EventSupervisorSignal => request_stop s SupervisorSignal effects
        | RetryStop r => retry_stop s r effects
        | _ => (s, effects)
        end
  | Stopping =>
      let '(s, effects) :=
        match event with
        | RetryStop r => retry_stop s r effects
        | _ => (s, effects)
        end in
      if is_some s.(exit) && (tick.(cleanup) == Some Complete)
      then (set_phase Exited s, effects ++ [PublishExit])
      else (s, effects)
  | Cleaning =>
      if (tick.(cleanup) == Some Complete) || (tick.(cleanup) == Some Unresolved)
      then (set_phase Exited s, effects ++ [PublishExit])
      else if (tick.(cleanup) == Some DescendantsPresent)
              && is_some_and s.(descendant_deadline_ms) (λ deadline, deadline <=? tick.(now_ms))
      then request_stop s PostTerminalCleanup effects
      else (s, effects)
  | Exited | Published => (s, effects)
  end.

Definition step (s : State) (event : Event) (tick : Tick) : State * list Effect :=
  let '(s, effects) := apply_receipt s tick.(tick_delivery) in
  match (if leader_live s.(phase) then tick.(observed_exit) else None) with
  | Some e =>
      let deadline := checked_add_u64 tick.(now_ms) s.(budgets).(descendant_grace_ms) in
      (set_descendant_deadline_ms deadline (set_phase Cleaning (set_exit (Some e) s)),
       (effects ++ (if is_none deadline then [DeadlineUnavailable DescendantGrace] else []))
         ++ [BeginCleanup e])
  | None =>
      if s.(phase) == Published then (s, effects)
      else if s.(phase) == Exited then
        match tick.(tick_publication) with
        | None => (s, effects)
        | Some outcome =>
            let s := set_publication (Some outcome) s in
            match outcome with
            | Durable => (set_phase Published s, effects)
            | Pending _ => (s, effects ++ [RetryExitPublication])
            | VisibleDurabilityUnconfirmed _ => (s, effects ++ [RetryPublishedDirectorySync])
            end
        end
      else if (s.(phase) == Prepared) && (s.(budgets).(wall_deadline_ms) <=? tick.(now_ms)) then
        (set_never_spawned_reason (Some WallDeadline) (set_phase Exited s),
         effects ++ [PublishExit])
      else if ((s.(phase) == Running) || (s.(phase) == TerminalGrace))
              && (s.(budgets).(wall_deadline_ms) <=? Z.max tick.(now_ms) tick.(wall_ms)) then
        request_stop s WallDeadline effects
      else step_phase s event tick effects
  end.

(** ** Runs

    A turn of the guardian's loop: a [step], or the deadline extension it
    applies while a lane waits for a build slot. *)

Inductive Turn :=
| Step (event : Event) (tick : Tick)
| Extend (ms : Z).

Definition turn (s : State) (t : Turn) : State * list Effect :=
  match t with
  | Step event tick => step s event tick
  | Extend ms => (extend_wall_deadline s ms, [])
  end.

(** The effects of a run are in the order the machine returned them. *)
Fixpoint run (s : State) (ts : list Turn) : State * list Effect :=
  match ts with
  | [] => (s, [])
  | t :: ts' =>
      let '(s1, es1) := turn s t in
      let '(s2, es2) := run s1 ts' in
      (s2, es1 ++ es2)
  end.

(** ** The transition relation

    What one [step] may do, rule by rule. [cause s event tick r] is the only
    authority for a stop with reason [r]. *)

Definition cause (s : State) (event : Event) (tick : Tick) (r : StopReason) : Prop :=
  match r with
  | WallDeadline =>
      (s.(phase) = Running ∨ s.(phase) = TerminalGrace) ∧
      s.(budgets).(wall_deadline_ms) ≤ Z.max tick.(now_ms) tick.(wall_ms)
  | ExplicitCancellation =>
      event = Cancel ∧ (s.(phase) = Running ∨ s.(phase) = TerminalGrace)
  | ProtocolRejected =>
      event = EventProtocolRejected ∧ (s.(phase) = Running ∨ s.(phase) = TerminalGrace)
  | SupervisorSignal =>
      event = EventSupervisorSignal ∧ (s.(phase) = Running ∨ s.(phase) = TerminalGrace)
  | TokenBudget => event = EventTokenBudget ∧ s.(phase) = Running
  | PostTerminalCleanup =>
      (s.(phase) = TerminalGrace ∧
       ∃ d, s.(root_flush_deadline_ms) = Some d ∧ d ≤ tick.(now_ms)) ∨
      (s.(phase) = Cleaning ∧ tick.(cleanup) = Some DescendantsPresent ∧
       ∃ d, s.(descendant_deadline_ms) = Some d ∧ d ≤ tick.(now_ms))
  end.

(** Only the delivery fields of the attempts differ. *)
Definition same_reasons (l l' : list StopAttempt) : Prop :=
  reason <$> l' = reason <$> l.

(** A retry clears delivery outcomes and changes nothing else. *)
Definition cleared : list StopAttempt → list StopAttempt → Prop :=
  Forall2 (λ a b, b.(reason) = a.(reason) ∧ (b = a ∨ b.(delivery) = None)).

Inductive receipt : State → option DeliveryReceipt → State → list Effect → Prop :=
| receipt_none s : receipt s None s []
| receipt_stored s d l1 a l2 :
    s.(stop_attempts) = l1 ++ a :: l2 → a.(reason) = d.(receipt_reason) →
    receipt s (Some d)
      (set_stop_attempts (l1 ++ set_delivery (Some d.(receipt_outcome)) a :: l2) s) []
| receipt_rejected s d :
    d.(receipt_reason) ∉ (reason <$> s.(stop_attempts)) →
    receipt s (Some d) s [RejectDeliveryReceipt d.(receipt_reason)].

Inductive transition : State → Event → Tick → State → list Effect → Prop :=
| t_exit s event tick e es :
    leader_live s.(phase) = true → tick.(observed_exit) = Some e →
    Forall (λ x, x = DeadlineUnavailable DescendantGrace) es →
    transition s event tick
      (set_descendant_deadline_ms
         (checked_add_u64 tick.(now_ms) s.(budgets).(descendant_grace_ms))
         (set_phase Cleaning (set_exit (Some e) s)))
      (es ++ [BeginCleanup e])
| t_idle s event tick p :
    (leader_live s.(phase) = false ∨ tick.(observed_exit) = None) →
    (p = s.(last_progress_ms) ∨ event = Progress) →
    transition s event tick (set_last_progress_ms p s) []
| t_publication s event tick outcome p es :
    s.(phase) = Exited → tick.(tick_publication) = Some outcome →
    p = (if outcome == Durable then Published else Exited) →
    Forall (λ x, x = RetryExitPublication ∨ x = RetryPublishedDirectorySync) es →
    transition s event tick (set_phase p (set_publication (Some outcome) s)) es
| t_never_spawned s event tick r :
    s.(phase) = Prepared →
    (r = WallDeadline ∧ s.(budgets).(wall_deadline_ms) ≤ tick.(now_ms) ∨
     r = ExplicitCancellation ∧ event = Cancel ∨
     r = SupervisorSignal ∧ event = EventSupervisorSignal) →
    transition s event tick
      (set_never_spawned_reason (Some r) (set_phase Exited s)) [PublishExit]
| t_start s tick :
    s.(phase) = Prepared → tick.(now_ms) < s.(budgets).(wall_deadline_ms) →
    transition s Started tick (set_phase Running s) []
| t_terminal s tick es :
    s.(phase) = Running → tick.(observed_exit) = None →
    Forall (λ x, x = DeadlineUnavailable RootFlush) es →
    transition s Terminal tick
      (set_root_flush_deadline_ms
         (checked_add_u64 tick.(now_ms) s.(budgets).(root_flush_ms))
         (set_phase TerminalGrace s)) (CloseStdin :: es)
| t_stop s event tick r p l es :
    cause s event tick r →
    (leader_live s.(phase) = false ∨ tick.(observed_exit) = None) →
    (p = s.(last_progress_ms) ∨ event = Progress) →
    (r ∈ (reason <$> s.(stop_attempts)) ∧ l = s.(stop_attempts) ∨
     (r ∉ (reason <$> s.(stop_attempts))) ∧ l = s.(stop_attempts) ++ [mkStopAttempt r None]) →
    (es = [] ∧ r ∈ (reason <$> s.(stop_attempts)) ∨ es = [DeliverStop r]) →
    transition s event tick
      (set_stop_attempts l (set_phase Stopping (set_last_progress_ms p s))) es
| t_retry s r tick l1 a l2 :
    s.(phase) = Stopping → tick.(observed_exit) = None →
    s.(stop_attempts) = l1 ++ a :: l2 → a.(reason) = r →
    (s.(exit) = None ∨ tick.(cleanup) ≠ Some Complete) →
    transition s (RetryStop r) tick
      (set_stop_attempts (l1 ++ set_delivery None a :: l2) s) [DeliverStop r]
| t_settle s event tick l es :
    (s.(phase) = Cleaning ∧ (tick.(cleanup) = Some Complete ∨ tick.(cleanup) = Some Unresolved) ∨
     s.(phase) = Stopping ∧ tick.(observed_exit) = None ∧ tick.(cleanup) = Some Complete ∧
     is_Some s.(exit)) →
    cleared s.(stop_attempts) l →
    (∀ x, x ∈ es → ∃ r, x = DeliverStop r ∧ event = RetryStop r ∧ s.(phase) = Stopping ∧
                       r ∈ (reason <$> s.(stop_attempts))) →
    transition s event tick (set_stop_attempts l (set_phase Exited s)) (es ++ [PublishExit]).

(** ** Lemmas on the helpers *)

Create HintDb machine.

Lemma find_reason r l a :
  List.find (λ x : StopAttempt, x.(reason) == r) l = Some a →
  r ∈ (reason <$> l).
Proof.
  intros [Hin Heq]%find_Some_elem. bool_prop. subst.
  apply list_elem_of_fmap. eauto.
Qed.

Lemma find_reason_None r l :
  List.find (λ x : StopAttempt, x.(reason) == r) l = None →
  r ∉ (reason <$> l).
Proof.
  rewrite find_None_elem. intros H (a & -> & Ha)%list_elem_of_fmap.
  specialize (H _ Ha). bool_prop. done.
Qed.

Lemma update_reason_None r f l :
  update_first (λ x : StopAttempt, x.(reason) == r) f l = None →
  r ∉ (reason <$> l).
Proof.
  rewrite update_first_None, list.Forall_forall.
  intros H (a & -> & Ha)%list_elem_of_fmap. specialize (H _ Ha). bool_prop. done.
Qed.

Lemma apply_receipt_spec s d s' es :
  apply_receipt s d = (s', es) → receipt s d s' es.
Proof.
  unfold apply_receipt. destruct d as [d|]; [|intros [= <- <-]; constructor].
  destruct (update_first _ _ _) as [l|] eqn:E; intros [= <- <-].
  - apply update_first_Some in E as (l1 & a & l2 & El & -> & Hp & _). bool_prop.
    by econstructor.
  - constructor. by eapply update_reason_None.
Qed.

Lemma request_stop_spec s event tick r p s' es :
  cause s event tick r →
  (leader_live s.(phase) = false ∨ tick.(observed_exit) = None) →
  (p = s.(last_progress_ms) ∨ event = Progress) →
  request_stop (set_last_progress_ms p s) r [] = (s', es) →
  transition s event tick s' es.
Proof.
  intros Hc Hlive Hp. unfold request_stop. simpl.
  assert ((s.(phase) == Stopping) || ((s.(phase) == Cleaning) && (r != PostTerminalCleanup)) = false)
    as ->.
  { destruct r; simpl in Hc; destruct s.(phase); try reflexivity; naive_solver. }
  destruct (List.find _ _) as [a|] eqn:E.
  - apply find_reason in E as Hin.
    destruct (is_some a.(delivery)); intros [= <- <-];
      eapply (t_stop s event tick r p s.(stop_attempts)); eauto.
  - apply find_reason_None in E. intros [= <- <-]. eapply (t_stop s event tick r p); eauto.
Qed.

Lemma same_reasons_set l1 l2 a d :
  same_reasons (l1 ++ a :: l2) (l1 ++ set_delivery d a :: l2).
Proof. unfold same_reasons. by rewrite !fmap_app. Qed.
#[export] Hint Resolve same_reasons_set : machine.

Lemma cleared_refl l : cleared l l.
Proof. induction l; constructor; auto. Qed.
Lemma cleared_set l1 l2 a :
  cleared (l1 ++ a :: l2) (l1 ++ set_delivery None a :: l2).
Proof. apply Forall2_app; [apply cleared_refl|]. constructor; [auto|apply cleared_refl]. Qed.
Lemma cleared_same l l' : cleared l l' → same_reasons l l'.
Proof. unfold same_reasons. induction 1 as [|a b l l' [Hr _] _ IH]; [done|]. by rewrite !fmap_cons, Hr, IH. Qed.
#[export] Hint Resolve cleared_refl cleared_set cleared_same : machine.

Lemma retry_stop_spec s r es s' es' :
  retry_stop s r es = (s', es') → s.(phase) = Stopping →
  (s' = s ∧ es' = es) ∨
  (∃ l1 a l2, s.(stop_attempts) = l1 ++ a :: l2 ∧ a.(reason) = r ∧
     s' = set_stop_attempts (l1 ++ set_delivery None a :: l2) s ∧
     es' = es ++ [DeliverStop r]).
Proof.
  unfold retry_stop. intros H Hp. rewrite Hp in H. simpl in H.
  destruct (update_first _ _ _) as [l|] eqn:E; injection H as <- <-; [right|by left].
  apply update_first_Some in E as (l1 & a & l2 & El & -> & Hr & _). bool_prop.
  by exists l1, a, l2.
Qed.

(** The branches of [step_phase] that call the helpers. *)
Lemma terminal_grace_spec s event tick s' es :
  s.(phase) = TerminalGrace → tick.(observed_exit) = None →
  (let s1 := if event == Progress then set_last_progress_ms (Some tick.(now_ms)) s else s in
   if is_some_and s1.(root_flush_deadline_ms) (λ deadline, deadline <=? tick.(now_ms))
   then request_stop s1 PostTerminalCleanup []
   else
     match event with
     | Cancel => request_stop s1 ExplicitCancellation []
     | EventProtocolRejected => request_stop s1 ProtocolRejected []
     | EventSupervisorSignal => request_stop s1 SupervisorSignal []
     | RetryStop r => retry_stop s1 r []
     | _ => (s1, [])
     end) = (s', es) →
  transition s event tick s' es.
Proof.
  intros Hph Hobs H.
  assert (∃ p, (p = s.(last_progress_ms) ∨ event = Progress) ∧
    (if event == Progress then set_last_progress_ms (Some tick.(now_ms)) s else s) =
    set_last_progress_ms p s) as (p & Hp & Hs).
  { case_bool_decide; [by exists (Some tick.(now_ms)); auto | by exists s.(last_progress_ms); auto]. }
  cbv zeta in H. rewrite Hs in H. simpl in H. clear Hs.
  destruct (is_some_and _ _) eqn:Hflush.
  - apply is_some_and_true in Hflush as (d & Hd & Hle%Z.leb_le).
    eapply request_stop_spec; eauto. simpl. left. eauto.
  - destruct event; try (injection H as <- <-; apply t_idle; by auto);
      try (eapply request_stop_spec; [|by auto|exact Hp|exact H]; simpl; by auto).
    unfold retry_stop in H. simpl in H. rewrite Hph in H. simpl in H.
    injection H as <- <-. apply t_idle; auto.
Qed.

Lemma stopping_spec s event tick s' es :
  s.(phase) = Stopping → tick.(observed_exit) = None →
  (let '(s1, es1) := match event with RetryStop r => retry_stop s r [] | _ => (s, []) end in
   if is_some s1.(exit) && (tick.(cleanup) == Some Complete)
   then (set_phase Exited s1, es1 ++ [PublishExit])
   else (s1, es1)) = (s', es) →
  transition s event tick s' es.
Proof.
  intros Hph Hobs H.
  assert (Hplain : ∀ s' es, (if is_some s.(exit) && (tick.(cleanup) == Some Complete)
             then (set_phase Exited s, [] ++ [PublishExit]) else (s, [])) = (s', es) →
             transition s event tick s' es).
  { intros s2 es2 H2. destruct (_ && _) eqn:Hc; injection H2 as <- <-; [|by apply (t_idle s event tick s.(last_progress_ms)); auto].
    apply (t_settle s event tick s.(stop_attempts) []); [|apply cleared_refl|set_solver].
    right. bool_prop. destruct Hc as [[e He] Hc]. split_and!; eauto. }
  destruct event as [| | | | | | |r| | |]; try (by apply Hplain).
  destruct (retry_stop s r []) as [s1 es1] eqn:E.
  apply retry_stop_spec in E as [[-> ->]|(l1 & a & l2 & El & Ha & -> & ->)]; [by apply Hplain| |done].
  simpl in H. destruct (_ && _) eqn:Hc; injection H as <- <-.
  - apply (t_settle s (RetryStop r) tick _ [DeliverStop r]).
    + right. bool_prop. destruct Hc as [[e He] Hc]. split_and!; eauto.
    + rewrite El. apply cleared_set.
    + intros x ->%list_elem_of_singleton. exists r. split_and!; auto.
      rewrite El, fmap_app. simpl. rewrite Ha. set_solver.
  - eapply t_retry; eauto. bool_prop. destruct Hc as [Hc|Hc]; auto.
Qed.

(** [step] is the transition relation after the receipt. *)
Lemma step_phase_spec s event tick s' es :
  (leader_live s.(phase) = false ∨ tick.(observed_exit) = None) →
  (s.(phase) = Prepared → tick.(now_ms) < s.(budgets).(wall_deadline_ms)) →
  step_phase s event tick [] = (s', es) →
  transition s event tick s' es.
Proof.
  intros Hlive Hwall H. unfold step_phase in H.
  assert (Hidle : transition s event tick s []) by (eapply (t_idle s event tick s.(last_progress_ms)); auto).
  destruct (phase s) eqn:Hph.
  - (* Prepared *)
    destruct event; try (by injection H as <- <-); simpl in H; injection H as <- <-.
    + apply t_start; auto.
    + apply t_never_spawned; auto.
    + apply t_never_spawned; auto.
  - (* Running *)
    destruct Hlive as [|Hobs]; [done|].
    assert (Hstop : ∀ r, cause s event tick r → request_stop s r [] = (s', es) →
                         transition s event tick s' es).
    { intros r Hc. apply (request_stop_spec s event tick r s.(last_progress_ms)); auto. }
    destruct event; try (by injection H as <- <-); simpl in H;
      try (eapply Hstop; [|exact H]; simpl; by auto).
    + injection H as <- <-. apply t_idle; auto.
    + injection H as <- <-. apply t_terminal; auto. by destruct (is_none _); repeat constructor.
  - (* TerminalGrace *)
    destruct Hlive as [|Hobs]; [done|].
    eapply terminal_grace_spec; eauto.
  - (* Stopping *)
    destruct Hlive as [|Hobs]; [done|].
    eapply stopping_spec; eauto.
  - (* Cleaning *)
    destruct (_ || _) eqn:Hset.
    { injection H as <- <-.
      apply (t_settle s event tick s.(stop_attempts) []); [|apply cleared_refl|set_solver].
      left. bool_prop. split; [done | naive_solver]. }
    destruct (_ && _) eqn:Hgrace; [|by injection H as <- <-].
    apply andb_true_iff in Hgrace as [Hdesc%bool_decide_eq_true (d & Hd & Hle%Z.leb_le)%is_some_and_true].
    eapply (request_stop_spec s event tick _ s.(last_progress_ms)); eauto.
    + simpl. right. split_and!; eauto.
    + by rewrite Hph.
  - by injection H as <- <-.
  - by injection H as <- <-.
Qed.

Lemma set_phase_id s p : s.(phase) = p → set_phase p s = s.
Proof. by intros <-. Qed.

(** The helpers only append to the effects they are given. *)
Ltac appended H :=
  injection H as <- <-; eexists; (split; [done|]); simpl; by rewrite ?app_nil_r, <-?app_assoc.

Lemma request_stop_effects s r es s' es' :
  request_stop s r es = (s', es') →
  ∃ es1, request_stop s r [] = (s', es1) ∧ es' = es ++ es1.
Proof.
  unfold request_stop. intros H.
  repeat case_match; appended H.
Qed.

Lemma retry_stop_effects s r es s' es' :
  retry_stop s r es = (s', es') →
  ∃ es1, retry_stop s r [] = (s', es1) ∧ es' = es ++ es1.
Proof.
  unfold retry_stop. intros H.
  repeat case_match; appended H.
Qed.

Lemma step_phase_effects s event tick es s' es' :
  step_phase s event tick es = (s', es') →
  ∃ es1, step_phase s event tick [] = (s', es1) ∧ es' = es ++ es1.
Proof.
  unfold step_phase. intros H. destruct (phase s) eqn:Hph.
  4: { assert (∃ s1 es1, match event with RetryStop r => retry_stop s r [] | _ => (s, []) end = (s1, es1)
         ∧ match event with RetryStop r => retry_stop s r es | _ => (s, es) end = (s1, es ++ es1))
         as (s1 & es1 & E1 & E2).
       { destruct event as [| | | | | | |r| | |]; try (exists s, []; by rewrite app_nil_r).
         destruct (retry_stop s r es) as [s1 es1] eqn:E.
         apply retry_stop_effects in E as (es2 & E & ->). by exists s1, es2. }
       rewrite E1. rewrite E2 in H.
       destruct (is_some s1.(exit) && _); appended H. }
  all: repeat case_match;
    first [ appended H | exact (request_stop_effects _ _ _ _ _ H)
          | exact (retry_stop_effects _ _ _ _ _ H) ].
Qed.

Theorem step_transition s event tick s' es :
  step s event tick = (s', es) →
  ∃ s0 es0 es1, receipt s tick.(tick_delivery) s0 es0 ∧
    transition s0 event tick s' es1 ∧ es = es0 ++ es1.
Proof.
  unfold step. destruct (apply_receipt s _) as [s0 es0] eqn:Er.
  apply apply_receipt_spec in Er. intros H. exists s0, es0.
  enough (∃ es1, transition s0 event tick s' es1 ∧ es = es0 ++ es1) by naive_solver.
  destruct (if leader_live s0.(phase) then tick.(observed_exit) else None) as [e|] eqn:Hobs.
  { destruct (leader_live s0.(phase)) eqn:Hl; [|done].
    injection H as <- <-. eexists. rewrite <-app_assoc. split; [|done]. apply t_exit; auto.
    case_match; repeat constructor. }
  assert (Hlive : leader_live s0.(phase) = false ∨ tick.(observed_exit) = None)
    by (destruct (leader_live _); auto). clear Hobs.
  assert (Hidle : transition s0 event tick s0 [])
    by (by apply (t_idle s0 event tick s0.(last_progress_ms)); auto).
  case_bool_decide as Hpub.
  { injection H as <- <-. exists []. by rewrite app_nil_r. }
  case_bool_decide as Hex.
  { destruct tick.(tick_publication) as [o|] eqn:Hp;
      [|injection H as <- <-; exists []; by rewrite app_nil_r].
    destruct o; injection H as <- <-;
      [exists [] | exists [RetryExitPublication] | exists [RetryPublishedDirectorySync]];
      (split; [|by rewrite ?app_nil_r]).
    - change (set_phase Published (set_publication (Some Durable) s0)) with
        (set_phase (if Durable == Durable then Published else Exited) (set_publication (Some Durable) s0)).
      eapply t_publication; eauto.
    - rewrite <-(set_phase_id (set_publication _ s0) Exited) by done.
      eapply t_publication; eauto.
    - rewrite <-(set_phase_id (set_publication _ s0) Exited) by done.
      eapply t_publication; eauto. }
  destruct ((s0.(phase) == Prepared) && _) eqn:Hexp.
  { bool_prop. destruct Hexp as [Hpr Hle]. injection H as <- <-. eexists. split; [|done].
    apply t_never_spawned; auto. }
  destruct (_ && (_ <=? Z.max _ _)) eqn:Hw.
  { bool_prop. destruct Hw as [Hph Hle]. apply request_stop_effects in H as (es1 & H & ->).
    exists es1. split; [|done].
    eapply (request_stop_spec s0 event tick _ s0.(last_progress_ms)); eauto. by split. }
  apply step_phase_effects in H as (es1 & H & ->). exists es1. split; [|done].
  apply step_phase_spec; auto. intros Hpr. rewrite Hpr in Hexp. simpl in Hexp. bool_prop. lia.
Qed.

(** ** The invariant *)

Definition finished (p : Phase) : Prop := p = Exited ∨ p = Published.
Definition before_stop (p : Phase) : Prop := p = Prepared ∨ p = Running ∨ p = TerminalGrace.

Record wf (s : State) : Prop := {
  wf_reasons : NoDup (reason <$> s.(stop_attempts));
  wf_early : before_stop s.(phase) →
    s.(stop_attempts) = [] ∧ s.(exit) = None ∧ s.(never_spawned_reason) = None;
  wf_stopping : s.(phase) = Stopping →
    s.(stop_attempts) ≠ [] ∧ s.(never_spawned_reason) = None;
  wf_cleaning : s.(phase) = Cleaning → is_Some s.(exit) ∧ s.(never_spawned_reason) = None;
  wf_finished : finished s.(phase) →
    (is_Some s.(exit) ∧ s.(never_spawned_reason) = None) ∨
    (s.(exit) = None ∧ is_Some s.(never_spawned_reason) ∧ s.(stop_attempts) = []);
  wf_durable : s.(publication) = Some Durable ↔ s.(phase) = Published;
  wf_unpublished : ¬ finished s.(phase) → s.(publication) = None;
}.

Ltac wf_solve := unfold finished, before_stop in *; simpl in *; try naive_solver.

Lemma wf_prepared b : wf (prepared b).
Proof. split; wf_solve. apply NoDup_nil_2. Qed.

Lemma same_reasons_nil l l' : same_reasons l l' → (l' = [] ↔ l = []).
Proof. destruct l, l'; unfold same_reasons; simpl; naive_solver. Qed.

(** Changing only delivery fields keeps the invariant. *)
Lemma wf_set_attempts s l :
  same_reasons s.(stop_attempts) l → wf s → wf (set_stop_attempts l s).
Proof.
  intros Hl [H1 H2 H3 H4 H5 H6 H7]. pose proof (same_reasons_nil _ _ Hl) as Hnil.
  split; simpl; auto; [by rewrite Hl | | |]; rewrite ?Hnil; auto.
Qed.
#[export] Hint Resolve wf_set_attempts : machine.

Lemma receipt_same s d s' es :
  receipt s d s' es →
  ∃ l, s' = set_stop_attempts l s ∧ same_reasons s.(stop_attempts) l ∧
       Forall (λ x, ∃ r, x = RejectDeliveryReceipt r) es.
Proof.
  destruct 1 as [s|s d l1 a l2 El Ha|s d Hd].
  - exists s.(stop_attempts). repeat split; auto.
  - eexists. rewrite El. split_and!; [done|auto with machine|done].
  - exists s.(stop_attempts). split_and!; [done|done|]. eauto.
Qed.

Lemma cause_phase s event tick r :
  cause s event tick r → s.(phase) = Running ∨ s.(phase) = TerminalGrace ∨ s.(phase) = Cleaning.
Proof. destruct r; simpl; naive_solver. Qed.

Lemma wf_transition s event tick s' es :
  transition s event tick s' es → wf s → wf s'.
Proof.
  intros Ht [H1 H2 H3 H4 H5 H6 H7].
  destruct Ht as [s event tick e es Hl|s|s event tick o p es Hph Hpub ->|s event tick r Hph|
    s tick Hph|s tick es Hph|s event tick r p l es Hc Hl Hp Hr He|s r tick l1 a l2 Hph Ho El Ha|
    s event tick l es Hph Hs].
  - destruct (phase s) eqn:Hph; try done; split; wf_solve.
  - split; wf_solve.
  - split; simpl; auto; case_bool_decide; wf_solve.
  - destruct H2 as (Ha & He & Hn); [by left|]. rewrite Hph in *. split; wf_solve.
  - rewrite Hph in *. split; wf_solve.
  - rewrite Hph in *. split; wf_solve.
  - apply cause_phase in Hc.
    assert (r ∈ (reason <$> l) ∧ NoDup (reason <$> l)) as [Hin Hnd].
    { destruct Hr as [[Hr ->]|[Hr ->]]; [done|]. rewrite fmap_app, list.NoDup_app.
      split; [set_solver|]. split_and!; [done| |apply NoDup_singleton]. set_solver. }
    assert (l ≠ []) by (intros ->; set_solver).
    assert (s.(never_spawned_reason) = None ∧ s.(publication) = None) as [Hn Hpub].
    { clear - H2 H4 H7 Hc. unfold before_stop, finished in *.
      destruct Hc as [Hc|[Hc|Hc]]; rewrite Hc in *; naive_solver. }
    clear - Hnd H Hn Hpub. split; simpl; rewrite ?Hpub; wf_solve.
  - apply wf_set_attempts; [|by split]. rewrite El. auto with machine.
  - apply wf_set_attempts; [auto with machine|].
    assert (is_Some s.(exit) ∧ s.(never_spawned_reason) = None ∧ s.(publication) = None)
      as (He & Hn & Hpub).
    { clear - H3 H4 H7 Hph. unfold finished in *.
      destruct Hph as [[Hph _]|(Hph & _ & _ & He)]; rewrite Hph in *; naive_solver. }
    clear - H1 He Hn Hpub. split; simpl; rewrite ?Hpub; wf_solve.
Qed.

Lemma wf_extend s ms : wf s → wf (extend_wall_deadline s ms).
Proof. intros [H1 H2 H3 H4 H5 H6 H7]. split; wf_solve. Qed.
#[export] Hint Resolve wf_prepared wf_transition wf_extend : machine.

Lemma wf_turn s t s' es : turn s t = (s', es) → wf s → wf s'.
Proof.
  destruct t as [event tick|ms]; simpl; [|intros [= <- _]; auto with machine].
  intros (s0 & es0 & es1 & Hr & Ht & _)%step_transition Hwf.
  apply receipt_same in Hr as (l & -> & Hl & _). eauto with machine.
Qed.

Lemma wf_run_from s ts s' es : run s ts = (s', es) → wf s → wf s'.
Proof.
  revert s es; induction ts as [|t ts IH]; simpl; intros s es H Hwf; [by injection H as <- _|].
  destruct (turn s t) as [s1 es1] eqn:Ht, (run s1 ts) as [s2 es2] eqn:Hr.
  injection H as <- _. eauto using wf_turn.
Qed.

(** C2: Every state a run reaches from [prepared] is well formed: stop reasons
    are recorded at most once, nothing is recorded before the first stop
    request, a finished run either exited or was never spawned (never both, and
    a run that was never spawned was never signalled), and the phase is
    [Published] exactly when the publication is durable. *)
Theorem machine_wf b ts : wf (run (prepared b) ts).1.
Proof.
  destruct (run (prepared b) ts) as [s es] eqn:H. eapply wf_run_from; [exact H|].
  apply wf_prepared.
Qed.

(** ** No signal without a cause *)

Lemma cause_attempts s l event tick r :
  cause (set_stop_attempts l s) event tick r ↔ cause s event tick r.
Proof. destruct r; reflexivity. Qed.

(** What a transition adds to the reasons, and what it delivers, has a cause. *)
Lemma transition_cause s event tick s' es r :
  transition s event tick s' es →
  r ∈ (reason <$> s'.(stop_attempts)) ∨ DeliverStop r ∈ es →
  r ∈ (reason <$> s.(stop_attempts)) ∨ cause s event tick r.
Proof.
  destruct 1 as [s event tick e es Hl Ho Hes|s|s event tick o p es Hph Hpub -> Hes|s event tick r0 Hph|
    s tick Hph|s tick es Hph Ho Hes|s event tick r0 p l es Hc Hl Hp Hr He|s r0 tick l1 a l2 Hph Ho El Ha|
    s event tick l es Hph Hs Hes]; simpl; intros [Hin|Hin]; try (by left); try set_solver.
  - rewrite list.Forall_forall in Hes. apply elem_of_app in Hin as [Hin|Hin]; [|set_solver].
    by apply Hes in Hin.
  - rewrite list.Forall_forall in Hes. apply Hes in Hin. naive_solver.
  - rewrite list.Forall_forall in Hes. apply elem_of_cons in Hin as [Hin|Hin]; [done|].
    by apply Hes in Hin.
  - destruct Hr as [[Hr ->]|[Hr ->]]; [by left|]. rewrite fmap_app in Hin.
    apply elem_of_app in Hin as [Hin|Hin]; [by left|].
    apply list_elem_of_singleton in Hin as ->. by right.
  - destruct He as [[-> _]| ->]; [set_solver|].
    apply list_elem_of_singleton in Hin as [= ->]. by right.
  - left. rewrite El. rewrite <-(same_reasons_set l1 l2 a None). done.
  - left. apply list_elem_of_singleton in Hin as [= ->]. rewrite El, fmap_app. simpl.
    rewrite Ha. set_solver.
  - left. apply cleared_same in Hs. by rewrite <-Hs.
Qed.

Lemma step_cause s event tick s' es r :
  step s event tick = (s', es) →
  r ∈ (reason <$> s'.(stop_attempts)) ∨ DeliverStop r ∈ es →
  r ∈ (reason <$> s.(stop_attempts)) ∨ cause s event tick r.
Proof.
  intros (s0 & es0 & es1 & Hr & Ht & ->)%step_transition Hin.
  apply receipt_same in Hr as (l & -> & Hl & Hes0).
  apply (transition_cause _ _ _ _ _ r) in Ht; [simpl in Ht; by rewrite Hl, cause_attempts in Ht|].
  destruct Hin as [Hin|[Hin|Hin]%elem_of_app]; auto.
  rewrite list.Forall_forall in Hes0. apply Hes0 in Hin. naive_solver.
Qed.

Lemma turn_cause s t s' es r :
  turn s t = (s', es) →
  r ∈ (reason <$> s'.(stop_attempts)) ∨ DeliverStop r ∈ es →
  r ∈ (reason <$> s.(stop_attempts)) ∨
  ∃ event tick, t = Step event tick ∧ cause s event tick r.
Proof.
  destruct t as [event tick|ms]; simpl.
  - intros H Hin. destruct (step_cause _ _ _ _ _ _ H Hin); eauto.
  - intros [= <- <-] [Hin|Hin]; [by left|set_solver].
Qed.

Lemma run_cause s ts s' es r :
  run s ts = (s', es) →
  r ∈ (reason <$> s'.(stop_attempts)) ∨ DeliverStop r ∈ es →
  r ∈ (reason <$> s.(stop_attempts)) ∨
  ∃ ts1 event tick ts2, ts = ts1 ++ Step event tick :: ts2 ∧ cause (run s ts1).1 event tick r.
Proof.
  revert s es; induction ts as [|t ts IH]; simpl; intros s es H Hin.
  { injection H as <- <-. left. set_solver. }
  destruct (turn s t) as [s1 es1] eqn:Ht, (run s1 ts) as [s2 es2] eqn:Hr.
  injection H as <- <-.
  assert (Hcase : (r ∈ (reason <$> s1.(stop_attempts)) ∨ DeliverStop r ∈ es1) ∨
    ∃ ts1 event tick ts2, ts = ts1 ++ Step event tick :: ts2 ∧ cause (run s1 ts1).1 event tick r).
  { destruct Hin as [Hin|[Hin|Hin]%elem_of_app]; [| by left; right |];
      (destruct (IH s1 es2 Hr) as [Hs|Hs]; [auto|by left; left|by right]). }
  destruct Hcase as [Hcase|(ts1 & event & tick & ts2 & -> & Hc)].
  - destruct (turn_cause _ _ _ _ _ Ht Hcase) as [Hs|(event & tick & -> & Hc)]; [by left|].
    right. by exists [], event, tick, ts.
  - right. exists (t :: ts1), event, tick, ts2. split; [done|]. simpl. rewrite Ht.
    by destruct (run s1 ts1).
Qed.

(** C1: The guardian never signals a provider without a cause: whenever a run
    delivers a stop for a reason, some turn of that run had that reason's
    cause, evaluated in the state the run was in at that turn (a cancel, a
    rejected protocol, a supervisor signal or a token budget event while the
    leader was running, a wall deadline reached on either clock, or an expired
    flush or descendant grace). *)
Theorem machine_stop_caused b ts r :
  DeliverStop r ∈ (run (prepared b) ts).2 →
  ∃ ts1 event tick ts2, ts = ts1 ++ Step event tick :: ts2 ∧
    cause (run (prepared b) ts1).1 event tick r.
Proof.
  destruct (run (prepared b) ts) as [s es] eqn:H. simpl. intros Hin.
  destruct (run_cause _ _ _ _ r H) as [Hr|Hr]; [by right| |done]. simpl in Hr. set_solver.
Qed.

(** ** The exit is published exactly once *)

Definition publish_count (es : list Effect) : nat :=
  length (List.filter (λ e, e == PublishExit) es).

Lemma publish_count_app es1 es2 :
  publish_count (es1 ++ es2) = (publish_count es1 + publish_count es2)%nat.
Proof. unfold publish_count. by rewrite List.filter_app, length_app. Qed.

Lemma publish_count_0 es : PublishExit ∉ es → publish_count es = O.
Proof.
  unfold publish_count. induction es as [|e es IH]; simpl; [done|]. intros H.
  case_bool_decide; [set_solver|]. apply IH. set_solver.
Qed.

Definition is_finished (p : Phase) : nat :=
  match p with Exited | Published => 1 | _ => 0 end.

Ltac no_publish H :=
  rewrite publish_count_0; [|rewrite list.Forall_forall in H; intros Hin; apply H in Hin; naive_solver].

Lemma transition_publish s event tick s' es :
  transition s event tick s' es →
  (publish_count es + is_finished s.(phase))%nat = is_finished s'.(phase).
Proof.
  destruct 1 as [s event tick e es Hl Ho Hes|s|s event tick o p es Hph Hpub -> Hes|s event tick r0 Hph|
    s tick Hph|s tick es Hph Ho Hes|s event tick r0 p l es Hc Hl Hp Hr He|s r0 tick l1 a l2 Hph Ho El Ha|
    s event tick l es Hph Hs Hes]; simpl; try done.
  - rewrite publish_count_app. no_publish Hes. by destruct (phase s).
  - no_publish Hes. rewrite Hph. by case_bool_decide.
  - by rewrite Hph.
  - by rewrite Hph.
  - change (CloseStdin :: es) with ([CloseStdin] ++ es). rewrite publish_count_app.
    rewrite (publish_count_0 [CloseStdin]) by set_solver. simpl. no_publish Hes. by rewrite Hph.
  - apply cause_phase in Hc. rewrite publish_count_0; [|destruct He as [[-> _]| ->]; set_solver].
    by destruct Hc as [->|[->| ->]].
  - rewrite publish_count_app, (publish_count_0 es); [|intros Hin; apply Hes in Hin; naive_solver].
    by destruct Hph as [[-> _]|[-> _]].
Qed.

Lemma turn_publish s t s' es :
  turn s t = (s', es) →
  (publish_count es + is_finished s.(phase))%nat = is_finished s'.(phase).
Proof.
  destruct t as [event tick|ms]; simpl; [|by intros [= <- <-]].
  intros (s0 & es0 & es1 & Hr & Ht & ->)%step_transition.
  apply receipt_same in Hr as (l & -> & Hl & Hes0). apply transition_publish in Ht.
  rewrite publish_count_app. no_publish Hes0. done.
Qed.

Lemma run_publish s ts s' es :
  run s ts = (s', es) →
  (publish_count es + is_finished s.(phase))%nat = is_finished s'.(phase).
Proof.
  revert s es; induction ts as [|t ts IH]; simpl; intros s es H; [by injection H as <- <-|].
  destruct (turn s t) as [s1 es1] eqn:Ht, (run s1 ts) as [s2 es2] eqn:Hr.
  injection H as <- <-. apply turn_publish in Ht. apply IH in Hr.
  rewrite publish_count_app. lia.
Qed.

(** C3: A run asks for the exit to be published exactly once when it has
    finished ([Exited] or [Published]) and not at all before, however events,
    ticks and deadline extensions interleave. *)
Theorem machine_publishes_once b ts :
  publish_count (run (prepared b) ts).2 = is_finished (run (prepared b) ts).1.(phase).
Proof.
  destruct (run (prepared b) ts) as [s es] eqn:H. apply run_publish in H. simpl in *. lia.
Qed.

(** ** An observed exit wins over a late stop *)

Lemma machine_exit_phase s event tick e s' es :
  leader_live s.(phase) = true → tick.(observed_exit) = Some e →
  step s event tick = (s', es) → s'.(phase) = Cleaning.
Proof.
  intros Hl Ho H. unfold step in H. destruct (apply_receipt s _) as [s0 es0] eqn:Er.
  apply apply_receipt_spec, receipt_same in Er as (l & -> & _).
  simpl in H. rewrite Hl, Ho in H. by injection H as <- <-.
Qed.

(** The exit observation is handled first: when the leader is live and its
    exit is observed in a tick, the step goes to [Cleaning] with that exit
    recorded, begins cleanup once, keeps the recorded stop reasons and delivers
    no stop, whatever event or expired deadline arrives in the same tick. *)
Theorem machine_exit_wins s event tick e s' es :
  leader_live s.(phase) = true → tick.(observed_exit) = Some e →
  step s event tick = (s', es) →
  s'.(phase) = Cleaning ∧ s'.(exit) = Some e ∧
  BeginCleanup e ∈ es ∧ (∀ r, DeliverStop r ∉ es) ∧
  (reason <$> s'.(stop_attempts)) = (reason <$> s.(stop_attempts)).
Proof.
  intros Hl Ho H. unfold step in H.
  destruct (apply_receipt s _) as [s0 es0] eqn:Er.
  apply apply_receipt_spec, receipt_same in Er as (l & -> & Hr & Hes0).
  simpl in H. rewrite Hl, Ho in H. injection H as <- <-. simpl.
  rewrite list.Forall_forall in Hes0.
  split_and!; try done; [set_solver|]. intros r Hin.
  rewrite !elem_of_app in Hin. destruct Hin as [[Hin|Hin]|Hin]; [by apply Hes0 in Hin as [? [=]]| |set_solver].
  case_match; set_solver.
Qed.

(** A lane that has started under a 100 ms wall budget. *)
Definition ex_running : State :=
  (step (prepared (Budgets_with_cleanup 100 10 5)) Started (at_ms 0)).1.
Definition ex_exit_tick : Tick := mkTick 100 0 (Some (Exit 0)) None None None.

Lemma machine_exit_wins_witness :
  leader_live ex_running.(phase) = true ∧
  (step ex_running Cancel ex_exit_tick).1.(phase) = Cleaning.
Proof.
  split; [reflexivity|].
  exact (proj1 (machine_exit_wins ex_running Cancel ex_exit_tick (Exit 0)
                  (step ex_running Cancel ex_exit_tick).1
                  (step ex_running Cancel ex_exit_tick).2 eq_refl eq_refl eq_refl)).
Defined.

(** ** The guardian's settlement *)

(** A turn of the guardian's loop before settlement carries no cleanup or
    publication observation. *)
Definition loop_turn (t : Turn) : Prop :=
  match t with
  | Step _ tick => tick.(cleanup) = None ∧ tick.(tick_publication) = None
  | Extend _ => True
  end.

Definition observes_exit (t : Turn) : bool :=
  match t with Step _ tick => is_some tick.(observed_exit) | Extend _ => false end.

(** The tick the guardian settles with. *)
Definition settle_tick (now : Z) (complete : bool) : Tick :=
  mkTick now 0 None None (Some (if complete then Complete else Unresolved)) None.

Lemma loop_turn_live s t s' es :
  loop_turn t → leader_live s.(phase) = true → turn s t = (s', es) →
  s'.(phase) = Cleaning ∧ observes_exit t = true ∨
  leader_live s'.(phase) = true ∧ observes_exit t = false.
Proof.
  destruct t as [event tick|ms]; simpl; [|by intros _ Hl [= <- _]; right].
  intros [Hc Hp] Hl H. destruct (observed_exit tick) as [e|] eqn:Ho.
  { left. split; [|done]. eapply machine_exit_phase; eauto. }
  right. split; [|done].
  apply step_transition in H as (s0 & es0 & es1 & Hr & Ht & _).
  apply receipt_same in Hr as (l & -> & Hr & _).
  inversion Ht; subst; simpl in *; try done; try congruence; try (by rewrite H in Hl).
  destruct H as [[Hcl _]|(_ & _ & Hcl & _)]; [by rewrite Hcl in Hl|congruence].
Qed.

Lemma loop_turn_cleaning s t s' es :
  loop_turn t → s.(phase) = Cleaning → turn s t = (s', es) → s'.(phase) = Cleaning.
Proof.
  destruct t as [event tick|ms]; simpl; [|by intros _ Hl [= <- _]].
  intros [Hc Hp] Hl (s0 & es0 & es1 & Hr & Ht & _)%step_transition.
  apply receipt_same in Hr as (l & -> & Hr & _).
  inversion Ht as [| | | | | |? ? ? r ? ? ? Hcause| |? ? ? ? ? Hcl]; subst; simpl in *; try congruence;
    try (by rewrite Hl in *).
  - destruct r; simpl in Hcause; rewrite Hl in Hcause; naive_solver.
  - rewrite Hl in Hcl. naive_solver.
Qed.

Lemma loop_cleaning s ts s' es :
  Forall loop_turn ts → s.(phase) = Cleaning → run s ts = (s', es) → s'.(phase) = Cleaning.
Proof.
  revert s es; induction ts as [|t ts IH]; simpl; intros s es Hts Hs H; [by injection H as <- _|].
  destruct (turn s t) as [s1 es1] eqn:Ht, (run s1 ts) as [s2 es2] eqn:Hr.
  injection H as <- _. inversion Hts; subst. eauto using loop_turn_cleaning.
Qed.

Lemma loop_phase s ts s' es :
  Forall loop_turn ts → leader_live s.(phase) = true → existsb observes_exit ts = true →
  run s ts = (s', es) → s'.(phase) = Cleaning.
Proof.
  revert s es; induction ts as [|t ts IH]; simpl; intros s es Hts Hs Hex H; [done|].
  destruct (turn s t) as [s1 es1] eqn:Ht, (run s1 ts) as [s2 es2] eqn:Hr.
  injection H as <- _. inversion Hts; subst.
  destruct (loop_turn_live _ _ _ _ ltac:(eassumption) Hs Ht) as [[Hc _]|[Hl Ho]].
  - eauto using loop_cleaning.
  - rewrite Ho in Hex. eauto.
Qed.

(** C38: The guardian's settlement always publishes: once a run of the loop has
    observed the provider's exit, it is in [Cleaning], and the settling step
    (cleanup complete or unresolved) ends in [Exited] with the effect
    [PublishExit], so the guardian's [InvalidRecord] refusal after it is never
    taken. *)
Theorem guardian_settles s ts now complete :
  leader_live s.(phase) = true → Forall loop_turn ts → existsb observes_exit ts = true →
  let s' := (run s ts).1 in
  s'.(phase) = Cleaning ∧
  (step s' Silence (settle_tick now complete)).1.(phase) = Exited ∧
  (step s' Silence (settle_tick now complete)).2 = [PublishExit].
Proof.
  intros Hl Hts Hex. destruct (run s ts) as [s' es] eqn:H. simpl.
  pose proof (loop_phase _ _ _ _ Hts Hl Hex H) as Hc.
  unfold step, step_phase. simpl. rewrite Hc. simpl. by destruct complete.
Qed.

Definition ex_loop : list Turn :=
  [Step Progress (at_ms 5); Extend 20; Step Cancel (at_ms 7); Step Silence ex_exit_tick].

Lemma guardian_settles_witness :
  leader_live ex_running.(phase) = true ∧ existsb observes_exit ex_loop = true ∧
  (step (run ex_running ex_loop).1 Silence (settle_tick 200 false)).2 = [PublishExit].
Proof.
  split; [reflexivity|]. split; [reflexivity|].
  refine (proj2 (proj2 (guardian_settles ex_running ex_loop 200 false eq_refl _ eq_refl))).
  repeat constructor.
Defined.

(** ** Wake-up times *)

Lemma request_stop_phase s r es :
  s.(phase) = Running ∨ s.(phase) = TerminalGrace → (request_stop s r es).1.(phase) = Stopping.
Proof.
  intros Hph. unfold request_stop.
  assert ((s.(phase) == Stopping) || ((s.(phase) == Cleaning) && (r != PostTerminalCleanup)) = false)
    as -> by (by destruct Hph as [->| ->]).
  by repeat case_match.
Qed.

(** A prepared lane wakes for the wall deadline of either clock but expires
    on the monotonic one only: after the host slept past the deadline the wait
    is zero and a silent turn changes nothing. *)
Theorem prepared_wakes_early b now wall :
  0 ≤ now → now < b.(wall_deadline_ms) → b.(wall_deadline_ms) ≤ wall → wall ≤ u64_max →
  deadline_in_ms (prepared b) now wall = Some 0 ∧
  step (prepared b) Silence (mkTick now wall None None None None) = (prepared b, []).
Proof.
  intros H0 H1 H2 H3. unfold deadline_in_ms, saturating_sub_u64, clamp. simpl. split.
  - f_equal. lia.
  - unfold step. simpl. by destruct (Z.leb_spec b.(wall_deadline_ms) now); [lia|].
Qed.

(** [deadline_in_ms] is exact for a running lane: if both clocks advance by
    [k] from the moment it was asked, a silent turn stops the lane exactly when
    [k] has reached the reported time, never earlier and never later. *)
Theorem wake_deadline_exact s now wall d k :
  s.(phase) = Running ∨ s.(phase) = TerminalGrace →
  0 ≤ now → 0 ≤ wall → 0 ≤ k →
  s.(budgets).(wall_deadline_ms) ≤ u64_max →
  (∀ f, s.(root_flush_deadline_ms) = Some f → f ≤ u64_max) →
  deadline_in_ms s now wall = Some d →
  ((step s Silence (mkTick (now + k) (wall + k) None None None None)).1.(phase) = Stopping ↔ d ≤ k).
Proof.
  intros Hph Hn Hw Hk Hwd Hfd. unfold deadline_in_ms, step, saturating_sub_u64, clamp. simpl.
  destruct Hph as [Hph|Hph]; rewrite Hph; simpl.
  - intros [= <-]. destruct (Z.leb_spec s.(budgets).(wall_deadline_ms) (Z.max (now + k) (wall + k))).
    + rewrite request_stop_phase by auto. split; [lia|done].
    + unfold step_phase. rewrite Hph. simpl. rewrite Hph. split; [done|lia].
  - intros Hd. destruct (Z.leb_spec s.(budgets).(wall_deadline_ms) (Z.max (now + k) (wall + k))).
    { rewrite request_stop_phase by auto. split; [intros _|done].
      destruct s.(root_flush_deadline_ms) as [f|]; injection Hd as <-; lia. }
    unfold step_phase. rewrite Hph. simpl.
    destruct s.(root_flush_deadline_ms) as [f|]; simpl in *; injection Hd as <-.
    + specialize (Hfd f eq_refl). destruct (Z.leb_spec f (now + k)).
      * rewrite request_stop_phase by auto. split; [lia|done].
      * simpl. rewrite Hph. split; [done|lia].
    + rewrite Hph. split; [done|lia].
Qed.

Lemma wake_deadline_exact_witness :
  deadline_in_ms ex_running 10 40 = Some 60 ∧
  ((step ex_running Silence (mkTick (10 + 60) (40 + 60) None None None None)).1.(phase) = Stopping
   ↔ 60 ≤ 60).
Proof.
  split; [reflexivity|].
  refine (wake_deadline_exact ex_running 10 40 60 60 (or_introl eq_refl) _ _ _ _ _ eq_refl).
  1-3: lia.
  - vm_compute. discriminate.
  - intros f Hf. vm_compute in Hf. discriminate.
Defined.

(** ** Timeouts *)

(** A delivery outcome on an attempt was there before or came from a receipt. *)
Lemma transition_delivered s event tick s' es a o :
  transition s event tick s' es → a ∈ s'.(stop_attempts) → a.(delivery) = Some o →
  a ∈ s.(stop_attempts).
Proof.
  destruct 1 as [| | | | | |s event tick r0 p l es Hc Hl Hp Hr He|s r0 tick l1 b l2 Hph Ho El Ha|
    s event tick l es Hph Hs Hes]; simpl; intros Hin Hd; eauto.
  - destruct Hr as [[_ ->]|[_ ->]]; [done|].
    apply elem_of_app in Hin as [Hin|Hin]; [done|]. by apply list_elem_of_singleton in Hin as ->.
  - rewrite El. apply elem_of_app in Hin as [Hin|Hin]; [set_solver|].
    apply elem_of_cons in Hin as [->|Hin]; [done|set_solver].
  - apply list_elem_of_lookup in Hin as [i Hi].
    destruct (Forall2_lookup_r _ _ _ _ _ Hs Hi) as (b & Hb & _ & [->|Hn]); [|congruence].
    by eapply list_elem_of_lookup_2.
Qed.

Lemma receipt_delivered s d s' es a o :
  receipt s d s' es → a ∈ s'.(stop_attempts) → a.(delivery) = Some o →
  a ∈ s.(stop_attempts) ∨ d = Some (mkReceipt a.(reason) o).
Proof.
  destruct 1 as [|s d l1 b l2 El Hb|]; simpl; intros Hin Hd; auto.
  rewrite El. apply elem_of_app in Hin as [Hin|Hin]; [set_solver|].
  apply elem_of_cons in Hin as [->|Hin]; [right|set_solver].
  simpl in *. injection Hd as <-. rewrite Hb. by destruct d.
Qed.

Lemma run_delivered s ts s' es a o :
  run s ts = (s', es) → a ∈ s'.(stop_attempts) → a.(delivery) = Some o →
  a ∈ s.(stop_attempts) ∨
  ∃ event tick, Step event tick ∈ ts ∧ tick.(tick_delivery) = Some (mkReceipt a.(reason) o).
Proof.
  revert s es; induction ts as [|t ts IH]; simpl; intros s es H Hin Hd; [left; by injection H as <- _|].
  destruct (turn s t) as [s1 es1] eqn:Ht, (run s1 ts) as [s2 es2] eqn:Hr.
  injection H as <- _.
  destruct (IH _ _ Hr Hin Hd) as [Hs1|(event & tick & Htick & Hrec)]; [|right; set_solver].
  destruct t as [event tick|ms]; simpl in Ht; [|injection Ht as <- _; by left].
  apply step_transition in Ht as (s0 & es0 & es3 & Hrec & Htr & _).
  eapply transition_delivered in Htr; eauto.
  destruct (receipt_delivered _ _ _ _ _ _ Hrec Htr Hd); [by left|right; set_solver].
Qed.

(** A run reports a timeout only when the wall deadline was reached on one
    of the two clocks while the leader was running, and a receipt said that the
    wall-deadline stop was delivered. *)
Theorem timed_out_is_delivered b ts :
  timed_out (run (prepared b) ts).1 = true →
  (∃ ts1 event tick ts2, ts = ts1 ++ Step event tick :: ts2 ∧
     cause (run (prepared b) ts1).1 event tick WallDeadline) ∧
  (∃ event tick, Step event tick ∈ ts ∧
     tick.(tick_delivery) = Some (mkReceipt WallDeadline Delivered)).
Proof.
  destruct (run (prepared b) ts) as [s es] eqn:H. simpl. unfold timed_out.
  intros (a & Hin & [Hr%bool_decide_eq_true Hd%bool_decide_eq_true]%andb_true_iff)%existsb_elem.
  split.
  - destruct (run_cause _ _ _ _ WallDeadline H) as [Hc|Hc]; [|simpl in Hc; set_solver|done].
    left. rewrite <-Hr. apply list_elem_of_fmap. eauto.
  - destruct (run_delivered _ _ _ _ _ _ H Hin Hd) as [Hc|Hc]; [simpl in Hc; set_solver|].
    by rewrite Hr in Hc.
Qed.

Definition ex_timeout : list Turn :=
  [Step Started (at_ms 0); Step Silence (mkTick 40 100 None None None None);
   Step Silence (mkTick 41 101 None (Some (mkReceipt WallDeadline Delivered)) None None)].

Lemma timed_out_is_delivered_witness :
  timed_out (run (prepared (Budgets_with_cleanup 100 10 5)) ex_timeout).1 = true ∧
  ∃ event tick, Step event tick ∈ ex_timeout ∧
     tick.(tick_delivery) = Some (mkReceipt WallDeadline Delivered).
Proof.
  split; [reflexivity|].
  exact (proj2 (timed_out_is_delivered (Budgets_with_cleanup 100 10 5) ex_timeout eq_refl)).
Defined.

Lemma machine_stop_caused_witness :
  DeliverStop WallDeadline ∈ (run (prepared (Budgets_with_cleanup 100 10 5)) ex_timeout).2 ∧
  ∃ ts1 event tick ts2, ex_timeout = ts1 ++ Step event tick :: ts2 ∧
    cause (run (prepared (Budgets_with_cleanup 100 10 5)) ts1).1 event tick WallDeadline.
Proof.
  assert (H : DeliverStop WallDeadline ∈ (run (prepared (Budgets_with_cleanup 100 10 5)) ex_timeout).2)
    by (vm_compute; left).
  split; [exact H|].
  exact (machine_stop_caused (Budgets_with_cleanup 100 10 5) ex_timeout WallDeadline H).
Defined.
