(* ===== verification/CoreIds.v ===== *)
(** * Byte text and identifiers

    Models [crates/core/src/bytes.rs] ([hex] and [unhex]) and
    [crates/core/src/ids.rs]: the 16-byte identifiers, [GitOid], [Digest] and
    [OperationId], with their [parse] and [Display].  A byte is an [ascii]
    character, so a byte string and a text have the same characters. *)

From Stdlib Require Import Ascii.
From stdpp Require Import base option list sets strings numbers.
From S2P Require Import Prelude.

Local Open Scope Z_scope.

(** ** [bytes.rs] *)

Definition byte_from (z : Z) : Ascii.ascii := Ascii.ascii_of_nat (Z.to_nat z).

Definition DIGITS : string := "0123456789abcdef".

(** [char::from(DIGITS[i])]; the indices [hex] uses are below 16. *)
Definition digit (i : Z) : Ascii.ascii :=
  match String.get (Z.to_nat i) DIGITS with Some c => c | None => "0"%char end.

Definition hex_byte (b : Ascii.ascii) : list Ascii.ascii :=
  [digit (Z.shiftr (byte_of b) 4); digit (Z.land (byte_of b) 15)].

Definition hex (bytes : list Ascii.ascii) : string :=
  String.string_of_list_ascii (flat_map hex_byte bytes).

Definition nibble (c : Ascii.ascii) : option Z :=
  let b := byte_of c in
  if (48 <=? b) && (b <=? 57) then Some (b - 48)
  else if (97 <=? b) && (b <=? 102) then Some (b - 97 + 10)
  else None.

(** [as_chunks::<2>]: the pairs and the remainder. *)
Fixpoint as_chunks2 {A} (l : list A) : list (A * A) * list A :=
  match l with
  | a :: b :: l' => let '(pairs, rest) := as_chunks2 l' in ((a, b) :: pairs, rest)
  | _ => ([], l)
  end.

Definition unhex_pair (p : Ascii.ascii * Ascii.ascii) : option Ascii.ascii :=
  high ← nibble p.1; low ← nibble p.2; Some (byte_from (high * 16 + low)).

Definition unhex (text : string) : option (list Ascii.ascii) :=
  let '(pairs, remainder) := as_chunks2 (String.list_ascii_of_string text) in
  match remainder with
  | [] => mapM unhex_pair pairs
  | _ => None
  end.

(** ** [ids.rs] *)

(** [decode_hex::<N>]: [try_into] refuses any other length. *)
Definition decode_hex (n : nat) (text : string) : option (list Ascii.ascii) :=
  bytes ← unhex text; if bool_decide (length bytes = n) then Some bytes else None.

Inductive IdError := id_error.
Inductive OperationIdError := operation_id_error.
Inductive GitOidError := git_oid_error.
Inductive DigestError := digest_error.

(** The identifiers the [ids!] macro declares are 16 bytes. *)
Record Id := mkId { id_bytes : list Ascii.ascii }.
Definition Id_parse (text : string) : result IdError Id :=
  ok_or (mkId <$> decode_hex 16 text) id_error.
Definition Id_display (id : Id) : string := hex id.(id_bytes).

(** [AttemptId::sandbox_lookup_name]. *)
Definition sandbox_lookup_name (id : Id) : string :=
  ("dev.provenant.attempt." +:+ Id_display id)%string.

Record OperationId := mkOperationId { operation_text : string }.
Definition operation_byte (c : Ascii.ascii) : bool :=
  is_ascii_alphanumeric c || Ascii.eqb c "." || Ascii.eqb c "_" || Ascii.eqb c "-".
Definition OperationId_parse (text : string) : result OperationIdError OperationId :=
  if negb ((1 <=? str_len text) && (str_len text <=? 128))
     || negb (match text with String c _ => is_ascii_alphanumeric c | EmptyString => false end)
     || negb (all_bytes operation_byte text)
  then Err operation_id_error
  else Ok (mkOperationId text).

Inductive GitOid :=
| Sha1 (bytes : list Ascii.ascii)
| Sha256 (bytes : list Ascii.ascii).
Definition GitOid_parse (text : string) : result GitOidError GitOid :=
  ok_or (if str_len text =? 40 then Sha1 <$> decode_hex 20 text
         else if str_len text =? 64 then Sha256 <$> decode_hex 32 text
         else None) git_oid_error.
Definition GitOid_display (oid : GitOid) : string :=
  match oid with Sha1 bytes => hex bytes | Sha256 bytes => hex bytes end.

Record Digest := mkDigest { digest_bytes : list Ascii.ascii }.
Definition Digest_parse (text : string) : result DigestError Digest :=
  ok_or (mkDigest <$> (strip_prefix "sha256:" text ≫= decode_hex 32)) digest_error.
Definition Digest_display (d : Digest) : string := ("sha256:" +:+ hex d.(digest_bytes))%string.

(** The array types of the source fix the lengths. *)
Definition Id_ok (id : Id) : Prop := length id.(id_bytes) = 16%nat.
Definition Digest_ok (d : Digest) : Prop := length d.(digest_bytes) = 32%nat.
Definition GitOid_ok (oid : GitOid) : Prop :=
  match oid with Sha1 b => length b = 20%nat | Sha256 b => length b = 32%nat end.

(** ** Lemmas *)

(** Induction two elements at a time. *)
Lemma list_pair_ind {A} (P : list A → Prop) :
  P [] → (∀ a, P [a]) → (∀ a b l, P l → P (a :: b :: l)) → ∀ l, P l.
Proof.
  intros H0 H1 H2. assert (H : ∀ l, P l ∧ ∀ a, P (a :: l)); [|intros l; apply H].
  induction l as [|a l [IH1 IH2]]; split; auto.
Qed.

(** A finite check over the 256 bytes. *)
Definition all_ascii : list Ascii.ascii := Ascii.ascii_of_nat <$> seq 0 256.

Lemma all_ascii_complete c : c ∈ all_ascii.
Proof.
  apply list_elem_of_fmap. exists (Ascii.nat_of_ascii c).
  split; [by rewrite Ascii.ascii_nat_embedding|].
  apply elem_of_seq. pose proof (Ascii.nat_ascii_bounded c). lia.
Qed.

Lemma ascii_check (p : Ascii.ascii → bool) : forallb p all_ascii = true → ∀ c, p c = true.
Proof. intros H c. rewrite forallb_elem in H. apply H, all_ascii_complete. Qed.

Lemma unhex_hex_byte b :
  unhex_pair (digit (Z.shiftr (byte_of b) 4), digit (Z.land (byte_of b) 15)) = Some b.
Proof.
  apply (bool_decide_eq_true_1 _).
  revert b. apply ascii_check. vm_compute. reflexivity.
Qed.

(** A pair [unhex] accepts is the spelling [hex] writes. *)
Lemma hex_unhex_pair h l b :
  unhex_pair (h, l) = Some b → hex_byte b = [h; l].
Proof.
  assert (H : ∀ h l, (if unhex_pair (h, l) is Some b then bool_decide (hex_byte b = [h; l]) else true) = true).
  { intros h'. apply ascii_check.
    revert h'. apply (ascii_check (λ h', forallb (λ l', if unhex_pair (h', l') is Some b
       then bool_decide (hex_byte b = [h'; l']) else true) all_ascii)).
    vm_compute. reflexivity. }
  intros Hb. specialize (H h l). rewrite Hb in H. by bool_prop.
Qed.

Lemma as_chunks2_hex bs :
  as_chunks2 (flat_map hex_byte bs) =
  ((λ b, (digit (Z.shiftr (byte_of b) 4), digit (Z.land (byte_of b) 15))) <$> bs, []).
Proof. induction bs as [|b bs IH]; [done|]. simpl. by rewrite IH. Qed.

Lemma as_chunks2_flat {A} (l : list A) pairs :
  as_chunks2 l = (pairs, []) → l = flat_map (λ p, [p.1; p.2]) pairs.
Proof.
  revert pairs. induction l as [| |a b l IH] using list_pair_ind; simpl; intros pairs H.
  - by injection H as <-.
  - done.
  - destruct (as_chunks2 l) as [ps rest] eqn:E. injection H as <- ->. simpl. by rewrite <-IH.
Qed.

Lemma unhex_hex bs : unhex (hex bs) = Some bs.
Proof.
  unfold unhex, hex. rewrite String.list_ascii_of_string_of_list_ascii, as_chunks2_hex.
  apply mapM_fmap_Some, unhex_hex_byte.
Qed.

Lemma hex_unhex text bs : unhex text = Some bs → hex bs = text.
Proof.
  unfold unhex, hex. destruct (as_chunks2 _) as [pairs [|]] eqn:E; [|done].
  apply as_chunks2_flat in E. intros H.
  rewrite <-(String.string_of_list_ascii_of_string text), E. f_equal. clear E.
  apply mapM_Some_1 in H. induction H as [|[h l] b pairs bs Hb _ IH]; [done|].
  apply hex_unhex_pair in Hb. simpl. unfold hex_byte in Hb. injection Hb as -> ->. by rewrite IH.
Qed.

Lemma decode_hex_Some n text bs :
  decode_hex n text = Some bs ↔ text = hex bs ∧ length bs = n.
Proof.
  unfold decode_hex. split.
  - destruct (unhex text) as [bs'|] eqn:E; [|done]. simpl. case_bool_decide; [|done].
    intros [= <-]. split; [symmetry; by apply hex_unhex|done].
  - intros [-> <-]. rewrite unhex_hex. simpl. by rewrite bool_decide_eq_true_2.
Qed.

Lemma hex_length bs : str_len (hex bs) = 2 * len bs.
Proof.
  unfold str_len, hex, len. induction bs as [|b bs IH]; [done|]. simpl in *. lia.
Qed.

(** ** Properties *)

(** [hex] and [unhex] are inverse: what [hex] writes decodes to the same
    bytes, and a text decodes to bytes only if it is the one spelling [hex]
    writes for them (so upper case, odd lengths and other digits are refused). *)
Theorem hex_roundtrip bs text : unhex text = Some bs ↔ text = hex bs.
Proof.
  split; [intros H; symmetry; by apply hex_unhex|]. intros ->. apply unhex_hex.
Qed.

(** The wire form of every identifier type is canonical: [parse] succeeds
    with a value exactly when the text is what [Display] writes for that value
    and the value has the length its type fixes.  For [GitOid] this also says
    that the two algorithms are never confused. *)
Theorem id_parse_display :
  (∀ text id, Id_parse text = Ok id ↔ text = Id_display id ∧ Id_ok id) ∧
  (∀ text d, Digest_parse text = Ok d ↔ text = Digest_display d ∧ Digest_ok d) ∧
  (∀ text oid, GitOid_parse text = Ok oid ↔ text = GitOid_display oid ∧ GitOid_ok oid).
Proof.
  unfold Id_parse, Digest_parse, GitOid_parse, Id_display, Digest_display, Id_ok, Digest_ok.
  split_and!.
  - intros text [bs]. rewrite ok_or_Ok, fmap_Some. setoid_rewrite decode_hex_Some.
    naive_solver.
  - intros text [bs]. rewrite ok_or_Ok, fmap_Some.
    setoid_rewrite bind_Some. setoid_rewrite decode_hex_Some.
    setoid_rewrite strip_prefix_Some. naive_solver.
  - intros text oid. rewrite ok_or_Ok. split.
    + destruct (_ =? 40) eqn:E40; [|destruct (_ =? 64) eqn:E64; [|done]];
        intros (bs & Hbs & ->)%fmap_Some; by apply decode_hex_Some in Hbs.
    + intros [-> Hok]. destruct oid as [bs|bs]; simpl in *; rewrite hex_length; unfold len; rewrite Hok; simpl.
      * apply fmap_Some. exists bs. by rewrite decode_hex_Some.
      * apply fmap_Some. exists bs. by rewrite decode_hex_Some.
Qed.

Lemma all_bytes_not_in p c s :
  all_bytes p s = true → p c = false → contains_char c s = false.
Proof.
  unfold contains_char, any_byte. intros H Hc. rewrite negb_false_iff.
  induction s as [|d s IH]; simpl in *; [done|]. bool_prop. destruct H as [Hd Hs].
  split; [|by apply IH]. destruct (Ascii.eqb_spec c d); congruence.
Qed.

(** An accepted operation ID is between 1 and 128 bytes, starts with a
    letter or digit and holds no separator, so it is one path component and
    never [.] or [..]; [parse] keeps the text. *)
Theorem operation_id_is_component text op :
  OperationId_parse text = Ok op →
  op = mkOperationId text ∧ 1 ≤ str_len text ≤ 128 ∧
  contains_char "/" text = false ∧ text ≠ "." ∧ text ≠ "..".
Proof.
  unfold OperationId_parse. intros H. ok_inv. bool_prop. destruct Hguard as [[Hlen Hhead] Hall].
  split_and!; try done; try lia.
  - by apply (all_bytes_not_in operation_byte).
  - intros ->. done.
  - intros ->. done.
Qed.

Lemma operation_id_is_component_witness :
  OperationId_parse "A.key-1_2" = Ok (mkOperationId "A.key-1_2") ∧
  contains_char "/" "A.key-1_2" = false.
Proof.
  split; [reflexivity|].
  exact (proj1 (proj2 (proj2 (operation_id_is_component "A.key-1_2" _ eq_refl)))).
Defined.
