(* ===== verification/CoreTime.v ===== *)
(** * Backoff and bounded waits

    Models [Backoff] of [crates/core/src/retry.rs], and of
    [crates/core/src/time.rs] the monotonic part: [DurationMicros], [MonoTime],
    [Deadline], [WaitTransport] and [WaitBudget].  The wall-clock type wraps a
    timestamp of the [jiff] crate and is not modelled. *)

From stdpp Require Import base option list sets strings numbers.
From S2P Require Import Prelude.

Local Open Scope Z_scope.

(** ** [retry.rs]

    A [std::time::Duration] is its number of nanoseconds. *)

Definition duration_max : Z := u64_max * 1000000000 + 999999999.
Definition from_secs (s : Z) : Z := s * 1000000000.
Definition as_secs (d : Z) : Z := d / 1000000000.
Definition saturating_mul_duration (d factor : Z) : Z := Z.min duration_max (d * factor).
Definition saturating_add_duration (d e : Z) : Z := Z.min duration_max (d + e).

Record Backoff := mkBackoff { first : Z; factor : Z; cap : Z }.

(** The [for] loop of [delay], with its [break]. *)
Fixpoint delay_loop (b : Backoff) (delay : Z) (attempt : nat) : Z :=
  match attempt with
  | O => delay
  | S attempt' =>
      let next := Z.min (saturating_mul_duration delay b.(factor)) b.(cap) in
      if next =? delay then delay else delay_loop b next attempt'
  end.

Definition delay (b : Backoff) (attempt : Z) : Z :=
  delay_loop b (Z.min b.(first) b.(cap)) (Z.to_nat attempt).

Definition delay_with_jitter (b : Backoff) (attempt jitter : Z) : Z :=
  Z.min (saturating_add_duration (delay b attempt) jitter) b.(cap).

(** [Duration] is nonnegative and bounded, the factor a [u32]. *)
Definition Backoff_ok (b : Backoff) : Prop :=
  0 ≤ b.(first) ∧ 0 ≤ b.(factor) ∧ 0 ≤ b.(cap) ≤ duration_max.

(** ** [time.rs] *)

Inductive TimeError :=
| Overflow
| WaitLimit (maximum_seconds : Z).

(** [DurationMicros], [MonoTime] and [Deadline] are newtypes over [u64]. *)
Definition DurationMicros_from_seconds (seconds : Z) : result TimeError Z :=
  ok_or (checked_mul_u64 seconds 1000000) Overflow.
Definition MonoTime_checked_add (t duration : Z) : result TimeError Z :=
  ok_or (checked_add_u64 t duration) Overflow.
Definition is_expired (deadline now : Z) : bool := deadline <=? now.

Definition MAX_LANE_RUNTIME_SECONDS : Z := 14400.

Inductive WaitTransport := Cli | Mcp.
Definition maximum_seconds (t : WaitTransport) : Z :=
  match t with Cli => MAX_LANE_RUNTIME_SECONDS | Mcp => 55 end.

Record WaitBudget := mkWaitBudget { deadline : Z; is_nonblocking : bool }.

Definition WaitBudget_nonblocking (now : Z) : WaitBudget := mkWaitBudget now true.

Definition WaitBudget_new (now duration : Z) (t : WaitTransport) : result TimeError WaitBudget :=
  if (duration <? 1000000) || (maximum_seconds t * 1000000 <? duration)
  then Err (WaitLimit (maximum_seconds t))
  else d ← MonoTime_checked_add now duration; Ok (mkWaitBudget d false).

Definition WaitBudget_up_to (now duration : Z) : WaitBudget :=
  let maximum := MAX_LANE_RUNTIME_SECONDS * 1000000 in
  mkWaitBudget
    (match MonoTime_checked_add now (Z.min duration maximum) with
     | Ok d => d
     | Err _ => u64_max
     end) false.

Definition WaitBudget_cli (now seconds : Z) : result TimeError WaitBudget :=
  d ← DurationMicros_from_seconds seconds; WaitBudget_new now d Cli.
Definition WaitBudget_mcp (now seconds : Z) : result TimeError WaitBudget :=
  d ← DurationMicros_from_seconds seconds; WaitBudget_new now d Mcp.

Definition cap_at (b : WaitBudget) (limit : Z) : WaitBudget :=
  mkWaitBudget (Z.min b.(deadline) limit) b.(is_nonblocking).

Definition remaining (b : WaitBudget) (now : Z) : Z :=
  saturating_sub_u64 b.(deadline) now.

(** ** Properties of the backoff *)

Definition closed_form (b : Backoff) (attempt : Z) : Z :=
  Z.min (b.(first) * b.(factor) ^ attempt) b.(cap).

Lemma backoff_next b d :
  Backoff_ok b → 0 ≤ d →
  Z.min (saturating_mul_duration d b.(factor)) b.(cap) = Z.min (d * b.(factor)) b.(cap).
Proof. unfold Backoff_ok, saturating_mul_duration. lia. Qed.

Lemma closed_form_succ b n :
  Backoff_ok b → 0 ≤ n →
  closed_form b (Z.succ n) = Z.min (closed_form b n * b.(factor)) b.(cap).
Proof.
  intros (Hf & Hk & Hc & _) Hn. unfold closed_form. rewrite Z.pow_succ_r by done.
  assert (0 ≤ b.(factor) ^ n) by (by apply Z.pow_nonneg).
  assert (0 ≤ b.(first) * b.(factor) ^ n) by nia.
  replace (b.(first) * (b.(factor) * b.(factor) ^ n))
    with (b.(first) * b.(factor) ^ n * b.(factor)) by ring.
  set (x := b.(first) * b.(factor) ^ n) in *. clearbody x.
  destruct (Z.eq_dec b.(factor) 0) as [->|]; [lia|].
  destruct (Z.min_spec x b.(cap)) as [[? ->]|[? ->]]; nia.
Qed.

(** A fixed point of the loop body is the value for every later attempt. *)
Lemma closed_form_fixed b n k :
  Backoff_ok b → 0 ≤ n →
  Z.min (closed_form b n * b.(factor)) b.(cap) = closed_form b n →
  closed_form b (n + Z.of_nat k) = closed_form b n.
Proof.
  intros Hok Hn Hfix. induction k as [|k IH]; [by rewrite Z.add_0_r|].
  replace (n + Z.of_nat (S k)) with (Z.succ (n + Z.of_nat k)) by lia.
  rewrite closed_form_succ by (done || lia). by rewrite IH.
Qed.

Lemma closed_form_nonneg b n : Backoff_ok b → 0 ≤ n → 0 ≤ closed_form b n.
Proof.
  intros (Hf & Hk & Hc & _) Hn. unfold closed_form.
  assert (0 ≤ b.(factor) ^ n) by (by apply Z.pow_nonneg). nia.
Qed.

Lemma delay_loop_closed b n k :
  Backoff_ok b → 0 ≤ n →
  delay_loop b (closed_form b n) k = closed_form b (n + Z.of_nat k).
Proof.
  intros Hok. revert n. induction k as [|k IH]; intros n Hn; simpl; [by rewrite Z.add_0_r|].
  rewrite backoff_next by auto using closed_form_nonneg.
  destruct (Z.eqb_spec (Z.min (closed_form b n * b.(factor)) b.(cap)) (closed_form b n)) as [E|E].
  - change (Z.pos (Pos.of_succ_nat k)) with (Z.of_nat (S k)). by rewrite closed_form_fixed.
  - rewrite <-closed_form_succ by done. rewrite IH by lia. f_equal. lia.
Qed.

Lemma delay_closed_form b attempt :
  Backoff_ok b → 0 ≤ attempt → delay b attempt = closed_form b attempt.
Proof.
  intros Hok Ha. unfold delay.
  assert (Z.min b.(first) b.(cap) = closed_form b 0) as ->.
  { unfold closed_form. rewrite Z.pow_0_r. f_equal. lia. }
  rewrite delay_loop_closed by (done || lia). f_equal. lia.
Qed.

(** The doubling loop of [Backoff::delay], which stops early when the delay
    no longer changes, computes the capped power [min (first * factor^n) cap]
    for every attempt number, and jitter never takes it past the cap. *)
Theorem backoff_delay_exact b attempt jitter :
  Backoff_ok b → 0 ≤ attempt →
  delay b attempt = Z.min (b.(first) * b.(factor) ^ attempt) b.(cap) ∧
  delay_with_jitter b attempt jitter ≤ b.(cap).
Proof.
  intros Hok Ha. split; [by apply delay_closed_form|].
  unfold delay_with_jitter. lia.
Qed.

Lemma backoff_delay_exact_witness :
  delay (mkBackoff (from_secs 15) 2 (from_secs 300)) 4 = from_secs 240 ∧
  delay_with_jitter (mkBackoff (from_secs 15) 2 (from_secs 300)) 4 (from_secs 500) ≤ from_secs 300.
Proof.
  split.
  - rewrite (proj1 (backoff_delay_exact (mkBackoff (from_secs 15) 2 (from_secs 300)) 4 0
                      ltac:(vm_compute; repeat split; discriminate) ltac:(lia))). reflexivity.
  - refine (proj2 (backoff_delay_exact (mkBackoff (from_secs 15) 2 (from_secs 300)) 4 (from_secs 500) _ _));
      [vm_compute; repeat split; discriminate | lia].
Defined.

(** ** Properties of the wait budget *)

(** A wait budget for a transport is granted exactly for a duration of at
    least one second and at most that transport's maximum whose deadline fits
    the clock; it then ends exactly that long after now, is not expired before,
    and capping it at an external deadline only ever shortens it and never
    turns it into a nonblocking probe. *)
Theorem wait_budget_bounds now duration t limit :
  0 ≤ now → 0 ≤ duration →
  (∀ b, WaitBudget_new now duration t = Ok b ↔
     b = mkWaitBudget (now + duration) false ∧
     1000000 ≤ duration ≤ maximum_seconds t * 1000000 ∧ now + duration ≤ u64_max) ∧
  (∀ b, WaitBudget_new now duration t = Ok b →
     remaining b now = duration ∧ is_expired b.(deadline) now = false ∧
     remaining (cap_at b limit) now ≤ remaining b now ∧
     is_nonblocking (cap_at b limit) = false).
Proof.
  intros Hn Hd.
  assert (Hnew : ∀ b, WaitBudget_new now duration t = Ok b ↔
     b = mkWaitBudget (now + duration) false ∧
     1000000 ≤ duration ≤ maximum_seconds t * 1000000 ∧ now + duration ≤ u64_max).
  { intros b. unfold WaitBudget_new, MonoTime_checked_add. split.
    - intros H. ok_inv. bool_prop. split; [done|lia].
    - intros (-> & Hd' & Hmax).
      replace (_ || _) with false by (symmetry; rewrite orb_false_iff; lia).
      unfold checked_add_u64, in_u64. replace (_ && _) with true by lia. done. }
  split; [done|]. intros b (-> & Hd' & Hmax)%Hnew.
  unfold remaining, is_expired, cap_at, saturating_sub_u64, clamp. simpl.
  split_and!; try done; lia.
Qed.

Lemma wait_budget_bounds_witness :
  WaitBudget_new 7 2000000 Mcp = Ok (mkWaitBudget 2000007 false) ∧
  remaining (mkWaitBudget 2000007 false) 7 = 2000000.
Proof.
  split; [reflexivity|].
  exact (proj1 (proj2 (wait_budget_bounds 7 2000000 Mcp 100 ltac:(lia) ltac:(lia)) _ eq_refl)).
Defined.

(** The convenience constructors inherit the bounds: an MCP wait in whole
    seconds is granted only for 1 to 55 seconds, a CLI wait only for 1 to
    14400, and an internal wait ([up_to]) never exceeds the CLI maximum. *)
Theorem wait_budget_transports now seconds duration :
  0 ≤ now ≤ u64_max → 0 ≤ seconds → 0 ≤ duration →
  (∀ b, WaitBudget_mcp now seconds = Ok b → 1 ≤ seconds ≤ 55 ∧ remaining b now = seconds * 1000000) ∧
  (∀ b, WaitBudget_cli now seconds = Ok b → 1 ≤ seconds ≤ 14400 ∧ remaining b now = seconds * 1000000) ∧
  remaining (WaitBudget_up_to now duration) now ≤ Z.min duration 14400000000.
Proof.
  intros Hn Hs Hd.
  unfold WaitBudget_mcp, WaitBudget_cli, DurationMicros_from_seconds, WaitBudget_up_to,
    WaitBudget_new, MonoTime_checked_add, remaining, saturating_sub_u64, clamp.
  split_and!.
  1,2: intros b H; ok_inv; unfold checked_mul_u64, in_u64 in *; case_match; simplify_eq;
    bool_prop; simpl in *; unfold MAX_LANE_RUNTIME_SECONDS in *; unfold u64_max in *; lia.
  unfold checked_add_u64, in_u64, MAX_LANE_RUNTIME_SECONDS. simpl.
  destruct (_ && _) eqn:E; simpl; bool_prop; unfold u64_max in *; lia.
Qed.

Lemma wait_budget_transports_witness :
  WaitBudget_mcp 5 55 = Ok (mkWaitBudget 55000005 false) ∧
  remaining (mkWaitBudget 55000005 false) 5 = 55 * 1000000.
Proof.
  split; [reflexivity|].
  refine (proj2 (proj1 (wait_budget_transports 5 55 1 _ _ _) (mkWaitBudget 55000005 false) eq_refl));
    unfold u64_max; lia.
Defined.
