(* ===== verification/Adapters.v ===== *)
(** * Adapters: the closed table of provider adapters

    Models [crates/records/src/adapters.rs] and the capability matrix of
    [crates/records/src/control.rs]: one [AdapterSpec] per [Harness], the
    launch capabilities an adapter declares, and the check a launch request
    passes before any side effect.  The row of the test fixture provider is
    compiled only under a cargo feature and is left out. *)

From Stdlib Require Import Ascii.
From stdpp Require Import base option list strings sets.
From S2P Require Import Prelude.

Local Open Scope string_scope.
Local Open Scope list_scope.
Local Open Scope Z_scope.
Local Open Scope rust_scope.

Inductive Harness := Claude | Codex | Cursor | Agy | Opencode | Command | HostNative.
#[export] Instance Harness_eq_dec : EqDecision Harness.
Proof. solve_decision. Defined.

Inductive QuotaProbeKind := QuotaProbeKind_None | HttpGet | QuotaProbeKind_Command | LocalLedger.
#[export] Instance QuotaProbeKind_eq_dec : EqDecision QuotaProbeKind.
Proof. solve_decision. Defined.

Inductive CloudTransport := CloudTransport_Claude | CloudTransport_Codex.
Inductive GithubAuth := Environment | ShellEnvironment.
Inductive LoginReprobe :=
| LoginReprobe_None | LoginReprobe_Codex | LoginReprobe_Cursor | AccountIdentity
| LoginReprobe_ExecutableOnly.
Inductive LoginObservation :=
| LoginObservation_None | AccountAvailability | Reprobe | LoginObservation_ExecutableOnly.
Inductive SetupRoot := SetupRoot_None | Home | XdgDataHome.
Inductive NamedEntry := NamedEntry_None | NamedEntry_Command | DelegatedAgent.
Inductive ModelObservation := Stream | Rollout | SessionDatabase.

Inductive NetworkAccess := Provider | Local | Open.
#[export] Instance NetworkAccess_eq_dec : EqDecision NetworkAccess.
Proof. solve_decision. Defined.

(** ** Control support, [control.rs] *)

Inductive LaunchKind := Lane | Chair.
#[export] Instance LaunchKind_eq_dec : EqDecision LaunchKind.
Proof. solve_decision. Defined.

Inductive ControlSupport := LiveInjection | MailOnly | ContinuationOnly | Unsupported.

Definition delivers (s : ControlSupport) : bool :=
  match s with LiveInjection | MailOnly => true | _ => false end.

Definition ControlSupport_reason (s : ControlSupport) : string :=
  match s with
  | LiveInjection => "injected at a tool boundary of the live session"
  | MailOnly => "delivered as Fabric mail for the session to read"
  | ContinuationOnly => "no live control path; use retry to continue"
  | Unsupported => "the adapter offers no control path for this launch"
  end.

Record ControlCapabilities := mkControlCapabilities {
  lane : ControlSupport;
  chair : ControlSupport;
}.

Definition for_launch (c : ControlCapabilities) (launch : LaunchKind) : ControlSupport :=
  match launch with Lane => lane c | Chair => chair c end.

(** ** The adapter row *)

Record SkillLocation := mkSkillLocation {
  environment : option string;
  fallback : string;
  suffix : string;
}.

Definition ALL_NETWORK : list NetworkAccess := [Provider; Local; Open].

Record LaunchCapabilities := mkLaunchCapabilities {
  caps_model : bool;
  default_network : NetworkAccess;
  caps_effort : bool;
  caps_resume : bool;
  control : ControlCapabilities;
  caps_network : list NetworkAccess;
  image_input : bool;
  caps_write : bool;
}.

Record AdapterSpec := {
  id : Harness;
  adapter_name : string;
  binary : string;
  skills : option SkillLocation;
  skill_install_roots : list string;
  default_account_directory : option (string * string);
  registered_account : bool;
  account_config_dir : bool;
  account_directory_prefix : option string;
  shared_account_settings : bool;
  isolated_login_keychain : bool;
  transcript_account_root : bool;
  setup_root : SetupRoot;
  local_login : bool;
  login_reprobe : LoginReprobe;
  login_observation : LoginObservation;
  login_check_names_account : bool;
  local_account : string * string;
  argv_prompt : bool;
  authentication : option string;
  credential_files : list string;
  credential_profile_sibling : bool;
  credential_host_keychain : bool;
  login_hint : string;
  login_template : option string;
  login_refresh_template : option string;
  auth_markers : list string;
  shell_prefix : option (string * string);
  context_directory_arg : option string;
  compaction_env : option string;
  allowance_prefix : option string;
  allowance_windows : list string;
  namespaced_models : bool;
  chair_switch : bool;
  local_offer_reader : bool;
  cloud_transport : option CloudTransport;
  github_auth : option GithubAuth;
  session_handoff : bool;
  launch_token_refresh : bool;
  deduplicate_result : bool;
  result_event_usage : bool;
  token_budget_notice : option string;
  exit_route : bool;
  stderr_quota : bool;
  model_observation : ModelObservation;
  named_entry : NamedEntry;
  user_sessions : bool;
  copy_sessions_only : bool;
  quota_probe : QuotaProbeKind;
  quota_credits : bool;
  grouped_quota_pools : bool;
  retain_quota_accounts : bool;
  quota_identity_check : bool;
  peer_bootstrap : bool;
  quota_model_prefix : option string;
  free_account : option (string * string);
  free_pool : option string;
  pacing_keys : option (string * string);
  launch : LaunchCapabilities;
}.

(** ** Launch requests *)

Record LaunchRequest := mkLaunchRequest {
  req_model : option string;
  req_effort : option string;
  req_resume : bool;
  req_network : option NetworkAccess;
  req_write : bool;
  req_skill_location : bool;
}.

Inductive LaunchField := Model | Effort | Resume | Network | Write | FieldSkillLocation.
#[export] Instance LaunchField_eq_dec : EqDecision LaunchField.
Proof. solve_decision. Defined.

Definition LaunchField_name (f : LaunchField) : string :=
  match f with
  | Model => "model" | Effort => "effort" | Resume => "resume"
  | Network => "network" | Write => "write" | FieldSkillLocation => "skill location"
  end.

Definition LaunchField_refusal (f : LaunchField) : string :=
  match f with
  | Model => "model is not supported by the route's adapter"
  | Effort => "effort is not supported by the route's adapter"
  | Resume => "resume is not supported by the route's adapter"
  | Network => "network mode is not supported by the route's adapter"
  | Write => "worktree-write is not supported by the route's adapter"
  | FieldSkillLocation => "skill location is not supported by the route's adapter"
  end.

Record UnsupportedLaunch := mkUnsupportedLaunch {
  unsupported_adapter : string;
  unsupported_field : LaunchField;
}.

Definition UnsupportedLaunch_display (u : UnsupportedLaunch) : string :=
  unsupported_adapter u +:+ " does not support " +:+ LaunchField_name (unsupported_field u).

Definition is_unregistered_local (self : AdapterSpec) (key : string) : bool :=
  registered_account self && local_login self && (key == "local").

Definition check_launch (self : AdapterSpec) (request : LaunchRequest)
    : result UnsupportedLaunch unit :=
  let caps := launch self in
  let field :=
    if is_some (req_model request) && negb (caps_model caps) then Some Model
    else if is_some (req_effort request) && negb (caps_effort caps) then Some Effort
    else if req_resume request && negb (caps_resume caps) then Some Resume
    else if is_some_and (req_network request)
              (λ mode, negb (bool_decide (mode ∈ caps_network caps))) then Some Network
    else if req_write request && negb (caps_write caps) then Some Write
    else if req_skill_location request && is_none (skills self) then Some FieldSkillLocation
    else None in
  match field with
  | None => Ok tt
  | Some field => Err (mkUnsupportedLaunch (adapter_name self) field)
  end.

Definition account_serves_model (self : AdapterSpec) (account model : string) : bool :=
  is_none_or (free_account self)
    (λ '(free_account, prefix), (account == free_account) == starts_with model prefix).

Definition window_serves_pool (self : AdapterSpec) (window : string) (model_pool : option string) : bool :=
  match grouped_quota_pools self, model_pool, split_once "."%char window with
  | true, Some pool, Some (group, _) => group == pool
  | _, _, _ => true
  end.

Definition SKILL_INSTALL_ROOTS : list string := [".local/share/provenant/v1/releases"].

(** ** The rows, in [Harness] order *)

Definition spec_Claude : AdapterSpec := {|
  id := Claude;
  adapter_name := "claude";
  binary := "claude";
  skills := Some (mkSkillLocation None ".claude" "skills");
  skill_install_roots := SKILL_INSTALL_ROOTS;
  default_account_directory := None;
  registered_account := true;
  account_config_dir := true;
  account_directory_prefix := Some ".claude-";
  shared_account_settings := true;
  isolated_login_keychain := false;
  transcript_account_root := true;
  setup_root := SetupRoot_None;
  local_login := false;
  login_reprobe := LoginReprobe_None;
  login_observation := AccountAvailability;
  login_check_names_account := false;
  local_account := ("default", "local");
  argv_prompt := false;
  authentication := None;
  credential_files := [".credentials.json"; "settings.json"];
  credential_profile_sibling := true;
  credential_host_keychain := true;
  login_hint := "claude auth login";
  login_template := Some "CLAUDE_CONFIG_DIR={directory} claude auth login";
  login_refresh_template := Some "CLAUDE_CONFIG_DIR={directory} claude";
  auth_markers := ["not logged in"; "authentication_failed"];
  shell_prefix := Some ("bin/claude-shell", "CLAUDE_CODE_SHELL_PREFIX");
  context_directory_arg := Some "--add-dir";
  compaction_env := Some "CLAUDE_CODE_AUTO_COMPACT_WINDOW";
  allowance_prefix := None;
  allowance_windows := [];
  namespaced_models := false;
  chair_switch := true;
  local_offer_reader := true;
  cloud_transport := Some CloudTransport_Claude;
  github_auth := Some Environment;
  session_handoff := true;
  launch_token_refresh := true;
  deduplicate_result := false;
  result_event_usage := true;
  token_budget_notice := None;
  exit_route := false;
  stderr_quota := false;
  model_observation := Stream;
  named_entry := NamedEntry_None;
  user_sessions := true;
  copy_sessions_only := false;
  quota_probe := HttpGet;
  quota_credits := true;
  grouped_quota_pools := false;
  retain_quota_accounts := false;
  quota_identity_check := false;
  peer_bootstrap := true;
  quota_model_prefix := None;
  free_account := None;
  free_pool := None;
  pacing_keys := None;
  launch := mkLaunchCapabilities true Open true true
      (mkControlCapabilities ContinuationOnly MailOnly) ALL_NETWORK true true;
|}.

Definition spec_Codex : AdapterSpec := {|
  id := Codex;
  adapter_name := "codex";
  binary := "codex";
  skills := Some (mkSkillLocation None ".agents" "skills");
  skill_install_roots := SKILL_INSTALL_ROOTS;
  default_account_directory := Some ("CODEX_HOME", ".codex");
  registered_account := true;
  account_config_dir := true;
  account_directory_prefix := None;
  shared_account_settings := false;
  isolated_login_keychain := false;
  transcript_account_root := false;
  setup_root := SetupRoot_None;
  local_login := false;
  login_reprobe := LoginReprobe_Codex;
  login_observation := Reprobe;
  login_check_names_account := false;
  local_account := ("default", "local");
  argv_prompt := false;
  authentication := Some "login";
  credential_files := ["auth.json"; "config.toml"];
  credential_profile_sibling := false;
  credential_host_keychain := false;
  login_hint := "codex login";
  login_template := Some "CODEX_HOME={directory} codex login";
  login_refresh_template := None;
  auth_markers := ["please log out and sign in again"; "refresh token expired"; "not logged in"];
  shell_prefix := None;
  context_directory_arg := None;
  compaction_env := None;
  allowance_prefix := None;
  allowance_windows := [];
  namespaced_models := false;
  chair_switch := false;
  local_offer_reader := false;
  cloud_transport := Some CloudTransport_Codex;
  github_auth := Some ShellEnvironment;
  session_handoff := false;
  launch_token_refresh := false;
  deduplicate_result := false;
  result_event_usage := false;
  token_budget_notice := Some "Codex writer token budgets are checked at completed-turn boundaries; a turn cannot be interrupted mid-flight";
  exit_route := false;
  stderr_quota := false;
  model_observation := Rollout;
  named_entry := NamedEntry_None;
  user_sessions := false;
  copy_sessions_only := true;
  quota_probe := QuotaProbeKind_Command;
  quota_credits := true;
  grouped_quota_pools := false;
  retain_quota_accounts := false;
  quota_identity_check := true;
  peer_bootstrap := true;
  quota_model_prefix := None;
  free_account := None;
  free_pool := None;
  pacing_keys := None;
  launch := mkLaunchCapabilities true Open true true
      (mkControlCapabilities ContinuationOnly MailOnly) ALL_NETWORK true true;
|}.

Definition spec_Cursor : AdapterSpec := {|
  id := Cursor;
  adapter_name := "cursor";
  binary := "cursor-agent";
  skills := Some (mkSkillLocation None ".cursor" "skills");
  skill_install_roots := SKILL_INSTALL_ROOTS;
  default_account_directory := None;
  registered_account := false;
  account_config_dir := false;
  account_directory_prefix := None;
  shared_account_settings := false;
  isolated_login_keychain := false;
  transcript_account_root := false;
  setup_root := Home;
  local_login := true;
  login_reprobe := LoginReprobe_Cursor;
  login_observation := Reprobe;
  login_check_names_account := false;
  local_account := ("default", "local");
  argv_prompt := true;
  authentication := Some "login";
  credential_files := ["state.vscdb"; "state.vscdb-wal"; "cli-config.json"];
  credential_profile_sibling := false;
  credential_host_keychain := false;
  login_hint := "agent login";
  login_template := None;
  login_refresh_template := None;
  auth_markers := ["authentication required. please run agent login"; "not logged in"];
  shell_prefix := None;
  context_directory_arg := None;
  compaction_env := None;
  allowance_prefix := None;
  allowance_windows := [];
  namespaced_models := false;
  chair_switch := false;
  local_offer_reader := false;
  cloud_transport := None;
  github_auth := None;
  session_handoff := false;
  launch_token_refresh := false;
  deduplicate_result := false;
  result_event_usage := false;
  token_budget_notice := None;
  exit_route := false;
  stderr_quota := false;
  model_observation := Stream;
  named_entry := NamedEntry_None;
  user_sessions := true;
  copy_sessions_only := false;
  quota_probe := HttpGet;
  quota_credits := false;
  grouped_quota_pools := false;
  retain_quota_accounts := false;
  quota_identity_check := true;
  peer_bootstrap := false;
  quota_model_prefix := None;
  free_account := None;
  free_pool := None;
  pacing_keys := None;
  launch := mkLaunchCapabilities true Open false true
      (mkControlCapabilities ContinuationOnly MailOnly) ALL_NETWORK false true;
|}.

Definition spec_Agy : AdapterSpec := {|
  id := Agy;
  adapter_name := "agy";
  binary := "agy";
  skills := Some (mkSkillLocation None ".gemini" "skills");
  skill_install_roots := SKILL_INSTALL_ROOTS;
  default_account_directory := None;
  registered_account := true;
  account_config_dir := false;
  account_directory_prefix := None;
  shared_account_settings := false;
  isolated_login_keychain := true;
  transcript_account_root := false;
  setup_root := SetupRoot_None;
  local_login := true;
  login_reprobe := AccountIdentity;
  login_observation := Reprobe;
  login_check_names_account := true;
  local_account := ("default", "local");
  argv_prompt := true;
  authentication := Some "keychain";
  credential_files := ["state.vscdb"; "state.vscdb-wal"; "Library/Keychains/login.keychain-db"];
  credential_profile_sibling := false;
  credential_host_keychain := false;
  login_hint := "agy auth login";
  login_template := Some "HOME={directory} agy` and use `/login";
  login_refresh_template := None;
  auth_markers := ["authentication required. please login to continue."; "authentication required. please log in"];
  shell_prefix := None;
  context_directory_arg := None;
  compaction_env := None;
  allowance_prefix := None;
  allowance_windows := [];
  namespaced_models := false;
  chair_switch := false;
  local_offer_reader := false;
  cloud_transport := None;
  github_auth := None;
  session_handoff := false;
  launch_token_refresh := false;
  deduplicate_result := true;
  result_event_usage := false;
  token_budget_notice := None;
  exit_route := false;
  stderr_quota := false;
  model_observation := Stream;
  named_entry := NamedEntry_None;
  user_sessions := false;
  copy_sessions_only := false;
  quota_probe := QuotaProbeKind_Command;
  quota_credits := false;
  grouped_quota_pools := true;
  retain_quota_accounts := true;
  quota_identity_check := false;
  peer_bootstrap := false;
  quota_model_prefix := None;
  free_account := None;
  free_pool := None;
  pacing_keys := None;
  launch := mkLaunchCapabilities true Open true true
      (mkControlCapabilities ContinuationOnly MailOnly) ALL_NETWORK false true;
|}.

Definition spec_Opencode : AdapterSpec := {|
  id := Opencode;
  adapter_name := "opencode";
  binary := "opencode";
  skills := Some (mkSkillLocation (Some "XDG_CONFIG_HOME") ".config" "opencode/skills");
  skill_install_roots := SKILL_INSTALL_ROOTS;
  default_account_directory := None;
  registered_account := false;
  account_config_dir := false;
  account_directory_prefix := None;
  shared_account_settings := false;
  isolated_login_keychain := false;
  transcript_account_root := false;
  setup_root := XdgDataHome;
  local_login := true;
  login_reprobe := LoginReprobe_ExecutableOnly;
  login_observation := LoginObservation_ExecutableOnly;
  login_check_names_account := false;
  local_account := ("go", "go");
  argv_prompt := false;
  authentication := None;
  credential_files := ["auth.json"; "opencode.db"; "opencode.db-wal"; "opencode.json"];
  credential_profile_sibling := false;
  credential_host_keychain := false;
  login_hint := "opencode auth login";
  login_template := None;
  login_refresh_template := None;
  auth_markers := ["no api key found"; "run opencode auth login"];
  shell_prefix := None;
  context_directory_arg := None;
  compaction_env := None;
  allowance_prefix := Some "opencode-go/";
  allowance_windows := ["five_hour"; "seven_day"; "thirty_day"];
  namespaced_models := true;
  chair_switch := false;
  local_offer_reader := false;
  cloud_transport := None;
  github_auth := None;
  session_handoff := false;
  launch_token_refresh := false;
  deduplicate_result := false;
  result_event_usage := false;
  token_budget_notice := None;
  exit_route := false;
  stderr_quota := true;
  model_observation := SessionDatabase;
  named_entry := NamedEntry_None;
  user_sessions := true;
  copy_sessions_only := false;
  quota_probe := LocalLedger;
  quota_credits := true;
  grouped_quota_pools := false;
  retain_quota_accounts := false;
  quota_identity_check := false;
  peer_bootstrap := false;
  quota_model_prefix := Some "opencode-go/";
  free_account := Some ("zen", "opencode/");
  free_pool := Some "opencode-free";
  pacing_keys := Some ("opencode_free", "opencode_paid");
  launch := mkLaunchCapabilities true Open true true
      (mkControlCapabilities ContinuationOnly MailOnly) ALL_NETWORK false true;
|}.

Definition spec_Command : AdapterSpec := {|
  id := Command;
  adapter_name := "command";
  binary := EmptyString;
  skills := None;
  skill_install_roots := [];
  default_account_directory := None;
  registered_account := false;
  account_config_dir := false;
  account_directory_prefix := None;
  shared_account_settings := false;
  isolated_login_keychain := false;
  transcript_account_root := false;
  setup_root := SetupRoot_None;
  local_login := false;
  login_reprobe := LoginReprobe_None;
  login_observation := LoginObservation_None;
  login_check_names_account := false;
  local_account := ("default", "local");
  argv_prompt := false;
  authentication := None;
  credential_files := [];
  credential_profile_sibling := false;
  credential_host_keychain := false;
  login_hint := EmptyString;
  login_template := None;
  login_refresh_template := None;
  auth_markers := [];
  shell_prefix := None;
  context_directory_arg := None;
  compaction_env := None;
  allowance_prefix := None;
  allowance_windows := [];
  namespaced_models := false;
  chair_switch := false;
  local_offer_reader := false;
  cloud_transport := None;
  github_auth := None;
  session_handoff := false;
  launch_token_refresh := false;
  deduplicate_result := false;
  result_event_usage := false;
  token_budget_notice := None;
  exit_route := true;
  stderr_quota := false;
  model_observation := Stream;
  named_entry := NamedEntry_Command;
  user_sessions := false;
  copy_sessions_only := false;
  quota_probe := QuotaProbeKind_None;
  quota_credits := false;
  grouped_quota_pools := false;
  retain_quota_accounts := false;
  quota_identity_check := false;
  peer_bootstrap := false;
  quota_model_prefix := None;
  free_account := None;
  free_pool := None;
  pacing_keys := None;
  launch := mkLaunchCapabilities false Open false false
      (mkControlCapabilities Unsupported Unsupported) ALL_NETWORK false false;
|}.

Definition spec_HostNative : AdapterSpec := {|
  id := HostNative;
  adapter_name := "host-native";
  binary := EmptyString;
  skills := None;
  skill_install_roots := [];
  default_account_directory := None;
  registered_account := false;
  account_config_dir := false;
  account_directory_prefix := None;
  shared_account_settings := false;
  isolated_login_keychain := false;
  transcript_account_root := false;
  setup_root := SetupRoot_None;
  local_login := false;
  login_reprobe := LoginReprobe_None;
  login_observation := LoginObservation_None;
  login_check_names_account := false;
  local_account := ("default", "local");
  argv_prompt := false;
  authentication := None;
  credential_files := [];
  credential_profile_sibling := false;
  credential_host_keychain := false;
  login_hint := EmptyString;
  login_template := None;
  login_refresh_template := None;
  auth_markers := [];
  shell_prefix := None;
  context_directory_arg := None;
  compaction_env := None;
  allowance_prefix := None;
  allowance_windows := [];
  namespaced_models := false;
  chair_switch := false;
  local_offer_reader := false;
  cloud_transport := None;
  github_auth := None;
  session_handoff := false;
  launch_token_refresh := false;
  deduplicate_result := false;
  result_event_usage := false;
  token_budget_notice := None;
  exit_route := false;
  stderr_quota := false;
  model_observation := Stream;
  named_entry := DelegatedAgent;
  user_sessions := false;
  copy_sessions_only := false;
  quota_probe := QuotaProbeKind_None;
  quota_credits := false;
  grouped_quota_pools := false;
  retain_quota_accounts := false;
  quota_identity_check := false;
  peer_bootstrap := false;
  quota_model_prefix := None;
  free_account := None;
  free_pool := None;
  pacing_keys := None;
  launch := mkLaunchCapabilities false Open false false
      (mkControlCapabilities Unsupported Unsupported) ALL_NETWORK false true;
|}.


Definition ADAPTER_SPECS : list AdapterSpec :=
  [spec_Claude; spec_Codex; spec_Cursor; spec_Agy; spec_Opencode; spec_Command; spec_HostNative].

(** [self as usize]: the position of the variant in the declaration. *)
Definition Harness_as_usize (h : Harness) : nat :=
  match h with
  | Claude => 0 | Codex => 1 | Cursor => 2 | Agy => 3 | Opencode => 4
  | Command => 5 | HostNative => 6
  end.

(** [&ADAPTER_SPECS[self as usize]]; indexing out of range panics, so the
    result is an option. *)
Definition Harness_spec (h : Harness) : option AdapterSpec :=
  ADAPTER_SPECS !! Harness_as_usize h.

Definition get (name : string) : option AdapterSpec :=
  List.find (λ spec, adapter_name spec == name) ADAPTER_SPECS.

(** ** The published control matrix, [control.rs] *)

Inductive AnswerTransport := FabricMail | ClaudeHook.

Record ActionSupport := mkActionSupport {
  action_name : string;
  action_supported : bool;
  action_reason : string;
}.

Record ControlCapability := mkControlCapability {
  cc_provider : Harness;
  cc_launch : LaunchKind;
  cc_support : ControlSupport;
  cc_transport : option AnswerTransport;
  cc_reason : string;
  cc_actions : list ActionSupport;
}.

Definition action (name : string) (supported : bool) (reason : string) : ActionSupport :=
  mkActionSupport name supported reason.

Definition control_row (spec : AdapterSpec) (kind : LaunchKind) : ControlCapability :=
  let support := for_launch (control (launch spec)) kind in
  let lane := kind == Lane in
  let owned (ok : bool) (no : string) := if ok then "supported" else no in
  mkControlCapability (id spec) kind support
    (if delivers support then Some FabricMail else None)
    (ControlSupport_reason support)
    [ action "cancel" lane (owned lane "applies to lanes only");
      action "resume" (lane && caps_resume (launch spec))
        (owned (lane && caps_resume (launch spec)) "the adapter has no provider continuation");
      action "land" (lane && caps_write (launch spec))
        (owned (lane && caps_write (launch spec)) "only worktree writers land") ].

Definition control_capabilities : list ControlCapability :=
  flat_map (λ spec, map (control_row spec) [Lane; Chair]) ADAPTER_SPECS.

(** ** Lookup *)

Lemma spec_elem h spec : Harness_spec h = Some spec → spec ∈ ADAPTER_SPECS.
Proof. apply list_elem_of_lookup_2. Qed.

(** The table and the enumeration agree.  Indexing [ADAPTER_SPECS] by a
    harness never goes out of range and finds the row of that harness, the
    lookup by name finds exactly that row again, and [get] answers no other
    row than the one [Harness_spec] gives for its identity. *)
Theorem adapter_table_agrees :
  (∀ h, ∃ spec, Harness_spec h = Some spec ∧ id spec = h ∧ get (adapter_name spec) = Some spec) ∧
  (∀ name spec, get name = Some spec →
     adapter_name spec = name ∧ Harness_spec (id spec) = Some spec).
Proof.
  split.
  - intros []; eexists; split_and!; reflexivity.
  - intros name spec [Hin Hname]%find_Some_elem.
    apply bool_decide_eq_true in Hname as <-. split; [done|].
    apply list_elem_of_lookup in Hin as [i Hi].
    do 7 (destruct i as [|i]; [injection Hi as <-; reflexivity|]). done.
Qed.

(** ** Launch checking *)

(** What a row lets a request ask for. *)
Definition launch_supported (self : AdapterSpec) (request : LaunchRequest) (f : LaunchField) : Prop :=
  match f with
  | Model => req_model request ≠ None → caps_model (launch self) = true
  | Effort => req_effort request ≠ None → caps_effort (launch self) = true
  | Resume => req_resume request = true → caps_resume (launch self) = true
  | Network => ∀ mode, req_network request = Some mode → mode ∈ caps_network (launch self)
  | Write => req_write request = true → caps_write (launch self) = true
  | FieldSkillLocation => req_skill_location request = true → skills self ≠ None
  end.

Definition launch_fields : list LaunchField :=
  [Model; Effort; Resume; Network; Write; FieldSkillLocation].

Definition unsupported_b (self : AdapterSpec) (request : LaunchRequest) (f : LaunchField) : bool :=
  let caps := launch self in
  match f with
  | Model => is_some (req_model request) && negb (caps_model caps)
  | Effort => is_some (req_effort request) && negb (caps_effort caps)
  | Resume => req_resume request && negb (caps_resume caps)
  | Network => is_some_and (req_network request) (λ m, negb (bool_decide (m ∈ caps_network caps)))
  | Write => req_write request && negb (caps_write caps)
  | FieldSkillLocation => req_skill_location request && is_none (skills self)
  end.

Lemma unsupported_b_false self request f :
  unsupported_b self request f = false ↔ launch_supported self request f.
Proof.
  unfold unsupported_b, launch_supported, is_none.
  destruct f; rewrite ?andb_false_iff, ?negb_false_iff, ?is_some_false, ?is_some_and_false.
  - destruct (req_model request), (caps_model _); naive_solver.
  - destruct (req_effort request), (caps_effort _); naive_solver.
  - destruct (req_resume request), (caps_resume _); naive_solver.
  - setoid_rewrite negb_false_iff. by setoid_rewrite bool_decide_eq_true.
  - destruct (req_write request), (caps_write _); naive_solver.
  - rewrite is_some_true. destruct (req_skill_location request), (skills self); naive_solver.
Qed.

Lemma check_launch_find self request :
  check_launch self request =
  match List.find (unsupported_b self request) launch_fields with
  | Some f => Err (mkUnsupportedLaunch (adapter_name self) f)
  | None => Ok tt
  end.
Proof.
  unfold check_launch, launch_fields, unsupported_b. simpl.
  repeat (case_match; [done|]). done.
Qed.

Lemma launch_fields_all f : f ∈ launch_fields.
Proof. destruct f; unfold launch_fields; set_solver. Qed.

(** A launch request passes the check exactly when every field it sets is
    within the adapter's declared row; a refusal names the adapter and the
    first unsupported field in the declared order, so the fields before it are
    all supported. *)
Theorem check_launch_exact self request :
  (check_launch self request = Ok tt ↔ ∀ f, launch_supported self request f) ∧
  (∀ u, check_launch self request = Err u ↔
     unsupported_adapter u = adapter_name self ∧
     ∃ before after,
       launch_fields = before ++ unsupported_field u :: after ∧
       ¬ launch_supported self request (unsupported_field u) ∧
       Forall (launch_supported self request) before).
Proof.
  rewrite check_launch_find. split.
  - setoid_rewrite <-unsupported_b_false.
    destruct (List.find _ _) as [f|] eqn:E.
    + apply find_Some_elem in E as [_ Hf]. split; [done|]. intros H. specialize (H f). congruence.
    + rewrite find_None_elem in E. split; [|done]. intros _ f. apply E, launch_fields_all.
  - intros [a f]; cbn [unsupported_adapter unsupported_field].
    trans (a = adapter_name self ∧
           List.find (unsupported_b self request) launch_fields = Some f).
    { destruct (List.find _ _) as [f'|]; split; try done.
      - by intros [= -> ->].
      - by intros [-> [= ->]].
      - by intros [_ ?]. }
    rewrite find_Some_split. pose proof (unsupported_b_false self request) as Hb.
    split; intros (-> & l1 & l2 & Hl & Hf & Hl1); split; [done| |done|];
      exists l1, l2; split_and!; try done.
    + rewrite <-Hb. by rewrite Hf.
    + eapply Forall_impl; [exact Hl1|]. intros ?. apply Hb.
    + rewrite <-Hb in Hf. by apply not_false_iff_true.
    + eapply Forall_impl; [exact Hl1|]. intros ?. apply Hb.
Qed.

(** ** Quota windows and accounts *)

(** On an adapter with a free allowance exactly the free account serves
    the models under the free prefix: the free account serves no other model,
    and no other account serves one of them.  Without a free allowance every
    account serves every model. *)
Theorem account_serves_model_exact self account model :
  account_serves_model self account model = true ↔
  match free_account self with
  | None => True
  | Some (free, prefix) => account = free ↔ ∃ rest, model = prefix +:+ rest
  end.
Proof.
  unfold account_serves_model. destruct (free_account self) as [[free prefix]|]; [|done]; simpl.
  rewrite bool_decide_eq_true. unfold starts_with.
  assert (is_some (strip_prefix prefix model) = true ↔ ∃ rest, model = prefix +:+ rest) as <-.
  { rewrite is_some_true. by setoid_rewrite strip_prefix_Some. }
  case_bool_decide; destruct (is_some (strip_prefix prefix model)); naive_solver.
Qed.

(** A quota window is set aside for a model only when the adapter groups
    its pools, the model names its pool and the window is of another group;
    a window without a group, a model without a pool and every adapter without
    grouped pools keep every window. *)
Theorem window_serves_pool_exact self window model_pool :
  window_serves_pool self window model_pool = false ↔
  grouped_quota_pools self = true ∧
  ∃ pool group rest,
    model_pool = Some pool ∧ window = group +:+ "." +:+ rest ∧
    contains_char "."%char group = false ∧ group ≠ pool.
Proof.
  unfold window_serves_pool.
  destruct (grouped_quota_pools self), model_pool as [pool|]; [|naive_solver..].
  destruct (split_once "."%char window) as [[g r]|] eqn:E.
  - apply split_once_Some in E as [-> Hg].
    rewrite bool_decide_eq_false. split; [naive_solver|].
    intros (_ & p & g' & r' & [= <-] & Heq & Hg' & Hne).
    pose proof (proj2 (split_once_Some "."%char _ g r) (conj eq_refl Hg)) as H1.
    rewrite (proj2 (split_once_Some "."%char _ g' r') (conj Heq Hg')) in H1.
    by injection H1 as -> _.
  - split; [done|]. intros (_ & p & g' & r' & _ & -> & Hg' & _).
    pose proof (proj2 (split_once_Some "."%char _ g' r') (conj eq_refl Hg')) as H1.
    discriminate (eq_trans (eq_sym H1) E).
Qed.

(** ** Control *)

(** The published control matrix has one row per adapter and launch kind,
    in table order, and every row is honest: it names a transport exactly when
    its support delivers without a new launch, it offers cancel on lanes only,
    and it offers resume and land exactly on the lanes of the adapters whose
    launch check lets a resume or a worktree write through. *)
Theorem control_matrix_exact :
  (map (λ r, (cc_provider r, cc_launch r)) control_capabilities =
   flat_map (λ spec, [(id spec, Lane); (id spec, Chair)]) ADAPTER_SPECS) ∧
  (∀ row, row ∈ control_capabilities → ∃ spec,
     Harness_spec (cc_provider row) = Some spec ∧
     (cc_transport row = Some FabricMail ↔ delivers (cc_support row) = true) ∧
     map (λ a, (action_name a, action_supported a)) (cc_actions row) =
       [("cancel", cc_launch row == Lane);
        ("resume", (cc_launch row == Lane) &&
           is_ok (check_launch spec (mkLaunchRequest None None true None false false)));
        ("land", (cc_launch row == Lane) &&
           is_ok (check_launch spec (mkLaunchRequest None None false None true false)))]).
Proof.
  split; [reflexivity|]. intros row Hrow.
  assert (∃ spec k, spec ∈ ADAPTER_SPECS ∧ row = control_row spec k) as (spec & k & Hs & ->).
  { unfold control_capabilities in Hrow.
    apply list_elem_of_In, in_flat_map in Hrow as (spec & Hs & Hr).
    apply in_map_iff in Hr as (k & <- & _). exists spec, k. by rewrite list_elem_of_In. }
  exists spec. split_and!.
  - apply list_elem_of_lookup in Hs as [i Hi].
    do 7 (destruct i as [|i]; [injection Hi as <-; reflexivity|]). done.
  - simpl. by destruct (delivers _).
  - unfold check_launch. simpl.
    by destruct (caps_resume (launch spec)), (caps_write (launch spec)).
Qed.
