(* ===== verification/External.v ===== *)
(** * External: the libraries the program only calls

    Two third-party crates appear in the data the model covers.  Each is a
    class of operations, and what the program relies on is a second class of
    laws, so that every theorem shows which of them it needs.  A concrete
    instance of each, used by the witnesses, shows that the laws can hold. *)

From Stdlib Require Import DecimalString DecimalZ DecimalPos.
From stdpp Require Import base option strings gmap numbers.
From S2P Require Import Prelude.

Local Open Scope Z_scope.

(** ** [serde_json::Value]

    Unknown fields of a record are kept as a map from names to JSON values
    ([ExtraFields], [crates/records/src/lib.rs]).  The program compares such
    values, and reads and writes booleans. *)

Class Json := {
  json : Type;
  json_eq_dec :: EqDecision json;
  json_Bool : bool → json;
  json_as_bool : json → option bool;
}.

Class JsonLaws `{J : Json} := {
  json_as_bool_Bool : ∀ b, json_as_bool (json_Bool b) = Some b;
}.

(** Values the program only writes. *)
Class JsonText `{J : Json} := {
  json_String : string → json;
  json_Number : Z → json;
  json_Array : list json → json;
  json_Object : list (string * json) → json;
}.

Abbreviation ExtraFields := (gmap string json).

(** ** [jiff::Timestamp] *)

Class Jiff := {
  Timestamp : Type;
  Timestamp_eq_dec :: EqDecision Timestamp;
  as_second : Timestamp → Z;
  from_second : Z → option Timestamp;
  Timestamp_leb : Timestamp → Timestamp → bool;
  Timestamp_to_string : Timestamp → string;
  Timestamp_parse : string → option Timestamp;
}.

(** Whole seconds survive the constructor, the printed form parses back and
    the order of whole seconds is the order of instants. *)
Class JiffLaws `{T : Jiff} := {
  as_second_from_second : ∀ s t, from_second s = Some t → as_second t = s;
  Timestamp_parse_to_string : ∀ t, Timestamp_parse (Timestamp_to_string t) = Some t;
  Timestamp_leb_seconds : ∀ s t s' t',
    from_second s = Some t → from_second s' = Some t' →
    Timestamp_leb t t' = (s <=? s')%Z;
}.

(** ** Civil time of [jiff]

    A time zone converts an instant to a civil date and hour, and a civil date
    and time to the instant its [compatible] disambiguation names. *)
Class Civil `{T : Jiff} := {
  TimeZone : Type;
  tz_get : string → option TimeZone;
  tz_UTC : TimeZone;
  tz_system : TimeZone;
  Date : Type;
  to_zoned : TimeZone → Timestamp → Date * Z;
  date_day : Date → Z;
  days_in_month : Date → Z;
  weekday_monday_zero : Date → Z;
  yesterday : Date → option Date;
  DateTime : Type;
  DateTime_parse : string → option DateTime;
  DateTime_display : DateTime → string;
  date_at : Date → Z → Z → DateTime;
  compatible_instant : TimeZone → DateTime → option Timestamp;
  display_micros : Timestamp → string;
}.

(** ** Instances for the witnesses *)

(** JSON restricted to booleans. *)
Definition json_example : Json := {|
  json := bool;
  json_eq_dec := _;
  json_Bool b := b;
  json_as_bool b := Some b;
|}.

Lemma json_example_laws : @JsonLaws json_example.
Proof. by constructor. Qed.

(** Instants of the range jiff accepts, with the printed form in decimal. *)
Definition jiff_min : Z := -377705023201.
Definition jiff_max : Z := 253402207200.

Definition jiff_from_second (s : Z) : option Z :=
  if (jiff_min <=? s) && (s <=? jiff_max) then Some s else None.

Definition jiff_example : Jiff := {|
  Timestamp := Z;
  Timestamp_eq_dec := _;
  as_second t := t;
  from_second := jiff_from_second;
  Timestamp_leb := Z.leb;
  Timestamp_to_string t := DecimalString.NilZero.string_of_int (Z.to_int t);
  Timestamp_parse s := Z.of_int <$> DecimalString.NilZero.int_of_string s;
|}.

Lemma jiff_example_laws : @JiffLaws jiff_example.
Proof.
  split; simpl.
  - intros s t. unfold jiff_from_second. case_match; naive_solver.
  - intros t. rewrite DecimalString.NilZero.isi; simpl; [by rewrite DecimalZ.of_to|..];
      destruct t; cbn; try done; intros [= H]; by apply DecimalPos.Unsigned.to_uint_nonnil in H.
  - intros s t s' t'. unfold jiff_from_second. repeat case_match; naive_solver.
Qed.

Definition json_text_example : @JsonText json_example :=
  @Build_JsonText json_example (λ _, true) (λ _, true) (λ _, true) (λ _, true).

(** The proleptic Gregorian calendar in UTC: a date is its number of days since
    1970-01-01, a Thursday. *)
Definition gregorian_day (days : Z) : Z :=
  let z := days + 719468 in
  let doe := z mod 146097 in
  let yoe := (doe - doe / 1460 + doe / 36524 - doe / 146096) / 365 in
  let doy := doe - (365 * yoe + yoe / 4 - yoe / 100) in
  let mp := (5 * doy + 2) / 153 in
  doy - (153 * mp + 2) / 5 + 1.
(** The last day of the month is the day before the next first of a month. *)
Definition gregorian_month_length (days : Z) : Z :=
  let first := days - gregorian_day days + 1 in
  if gregorian_day (first + 28) =? 1 then 28
  else if gregorian_day (first + 29) =? 1 then 29
  else if gregorian_day (first + 30) =? 1 then 30 else 31.

Definition civil_example : @Civil jiff_example :=
  @Build_Civil jiff_example unit (λ name, if bool_decide (name = "UTC"%string) then Some tt else None) tt tt
    Z (λ _ t, (t / 86400, (t mod 86400) / 3600))
    gregorian_day gregorian_month_length (λ d, (d + 3) mod 7) (λ d, Some (d - 1))
    (Z * Z * Z) (λ _, None) (λ _, EmptyString) (λ d h m, (d, h, m)) (λ _ '(d, h, m), jiff_from_second (d * 86400 + h * 3600 + m * 60))
    (λ t, DecimalString.NilZero.string_of_int (Z.to_int t)).
