(* ===== verification/Routes.v ===== *)
(** * Routes: the resolved route and its receipts

    Models [crates/records/src/resolved_route.rs]: the immutable decision of
    routing that run, quota and the providers share.  A receipt has two
    readiness statuses only, so an unknown or stale observation projects onto
    an unavailable one with its own reason. *)

From stdpp Require Import base option list strings gmap.
From S2P Require Import Prelude External.

Local Open Scope string_scope.
Local Open Scope list_scope.
Local Open Scope Z_scope.
Local Open Scope rust_scope.

(** ** Provider failure facts, [crates/records/src/diagnostic.rs] *)

Inductive ProviderFailureFact :=
| Quota (free_pool : bool)
| RateLimit
| ModelUnavailable
| Capacity
| Denied
| FactAuthRequired
| EarlyStop
| CodexIdentity
| OpenCodeIdentity.

Definition ProviderFailureFact_reason (f : ProviderFailureFact) : string :=
  match f with
  | Quota true =>
      "provider quota exhausted; free tier exhausted; use a paid route or wait for its allowance reset"
  | Quota false =>
      "provider quota exhausted; wait for the allowance to reset or select an eligible route"
  | RateLimit => "provider rate limited; wait for the allowance to reset before retrying"
  | ModelUnavailable =>
      "provider model unavailable; check the selected model and choose an eligible route"
  | Capacity =>
      "provider capacity: the selected model is overloaded; wait or choose an eligible route"
  | Denied => "provider denied an action; check account access and inspect the result"
  | FactAuthRequired =>
      "provider requires login; sign in to the selected account and run `provenant quota tick`"
  | EarlyStop => "provider stopped early; inspect the result and resume if needed"
  | CodexIdentity =>
      "Codex rollout identity could not be verified; inspect the local session evidence"
  | OpenCodeIdentity =>
      "OpenCode session identity could not be verified; inspect the local session evidence"
  end.

(** ** Exclusions *)

Inductive RouteExclusionReason :=
| Disabled
| MissingExecutable
| UnknownAvailability
| StaleAvailability
| UnknownAccount
| DisclosureDenied
| ConfinementUnavailable
| UnsupportedEffort
| Exhausted
| PacingReserve
| UnknownPartialHeadroom
| AuthRequired
| LoginExpired
| UnverifiedModel
| AccountMismatch
| FreeTierRefused
| ProviderRefused
| InvalidAccountEvidence.
#[export] Instance RouteExclusionReason_eq_dec : EqDecision RouteExclusionReason.
Proof. solve_decision. Defined.

Definition diagnostic_parts (r : RouteExclusionReason) : string * string :=
  match r with
  | Disabled =>
      ("the selected route is disabled",
       "enable an eligible route in the host configuration")
  | MissingExecutable =>
      ("the selected adapter executable is unavailable",
       "install the adapter or select an available route")
  | UnknownAvailability =>
      ("the selected account's readiness has not been verified",
       "run `provenant quota tick` or check the account login")
  | StaleAvailability =>
      ("the selected account's provider availability observation is stale",
       "re-probe the selected account; if it remains unavailable, run `provenant quota tick` or check its login")
  | UnknownAccount =>
      ("the selected account is not registered",
       "run `provenant accounts list` and select a registered account")
  | DisclosureDenied =>
      ("the route cannot receive the requested data",
       "select a route permitted by the disclosure policy")
  | ConfinementUnavailable =>
      ("the requested confinement is unavailable",
       "repair the host confinement setup before retrying")
  | UnsupportedEffort =>
      ("the selected route does not support the requested effort",
       "choose a supported effort or another route")
  | Exhausted =>
      ("the selected account's allowance is exhausted",
       "wait for the allowance to reset or select an eligible route")
  | PacingReserve =>
      ("the selected account is held by its pacing reserve",
       "wait for the pacing window or adjust the configured reserve")
  | UnknownPartialHeadroom =>
      ("partial usage does not establish available headroom",
       "refresh quota evidence or wait for the allowance to reset")
  | AuthRequired =>
      ("the selected account requires login", ProviderFailureFact_reason FactAuthRequired)
  | LoginExpired =>
      ("the selected account's login expired", ProviderFailureFact_reason FactAuthRequired)
  | UnverifiedModel =>
      ("the selected model is not verified for this route",
       "select a verified model or refresh the catalogue")
  | AccountMismatch =>
      ("the signed-in account differs from registration",
       "account mismatch; re-register the selected account")
  | FreeTierRefused =>
      ("the provider refused the free tier",
       "free tier exhausted; use a paid route or wait for its allowance reset")
  | ProviderRefused =>
      ("the provider refused this route or pool",
       "scoped provider refusal; wait or select an eligible route")
  | InvalidAccountEvidence =>
      ("persisted account evidence is invalid",
       "repair or re-register the account before retrying")
  end.

Definition is_account_block (r : RouteExclusionReason) : bool :=
  match r with
  | AccountMismatch | FreeTierRefused | ProviderRefused | InvalidAccountEvidence => true
  | _ => false
  end.

Inductive RouteEligibility := Eligible | EligibilityUnverifiedModel.
#[export] Instance RouteEligibility_eq_dec : EqDecision RouteEligibility.
Proof. solve_decision. Defined.

(** ** Routes *)

Section Routes.
Context {J : Json}.

Inductive RouteReadiness :=
| Ready (extra : ExtraFields) (availability_ref : string) (expires_unix_seconds : Z)
| Unavailable (extra : ExtraFields) (reason : RouteExclusionReason).

Definition RouteReadiness_unknown : RouteReadiness := Unavailable ∅ UnknownAvailability.
Definition RouteReadiness_stale : RouteReadiness := Unavailable ∅ StaleAvailability.
Definition RouteReadiness_is_unknown (r : RouteReadiness) : bool :=
  match r with
  | Unavailable _ (UnknownAvailability | StaleAvailability) => true
  | _ => false
  end.

Record RouteConfidentiality := mkRouteConfidentiality {
  conf_extra : ExtraFields;
  evidence_ref : string;
}.

Record RouteExclusion := mkRouteExclusion {
  excl_extra : ExtraFields;
  excl_adapter : string;
  excl_model : string;
  excl_reason : RouteExclusionReason;
}.

Record RouteSelectionCandidate := mkRouteSelectionCandidate {
  cand_extra : ExtraFields;
  cand_model : string;
  weight : Z;
  factor_basis_points : Z;
  pacing_detail : option string;
  cand_effort : option string;
  cand_readiness : option RouteReadiness;
  exclusion : option string;
}.

Record RouteSelectionRedraw := mkRouteSelectionRedraw {
  redraw_extra : ExtraFields;
  rejected_pick : string;
  redraw_roll : Z;
  redraw_total_weight : Z;
  redraw_reason : string;
}.

Record RouteSelectionReceipt := mkRouteSelectionReceipt {
  sel_extra : ExtraFields;
  sel_pool : string;
  candidates : list RouteSelectionCandidate;
  roll : Z;
  total_weight : Z;
  pick : string;
  sel_reason : option string;
  redraws : list RouteSelectionRedraw;
}.

Record RouteAlternative := mkRouteAlternative {
  alt_extra : ExtraFields;
  alt_adapter : string;
  alt_model : string;
  alt_effort : option string;
  alt_account_key : option string;
  alt_host : string;
  alt_eligibility : RouteEligibility;
  alt_readiness : RouteReadiness;
  alt_confidentiality : RouteConfidentiality;
}.

(** The field is private: [RouteAlternatives_new] is the only constructor, also
    for a deserialised value. *)
Record RouteAlternatives := mkRouteAlternatives { as_slice : list RouteAlternative }.
Inductive TooManyAlternatives := too_many_alternatives.

Definition RouteAlternatives_new (values : list RouteAlternative)
    : result TooManyAlternatives RouteAlternatives :=
  if 2 <? len values then Err too_many_alternatives else Ok (mkRouteAlternatives values).

Record ResolvedRoute := mkResolvedRoute {
  route_extra : ExtraFields;
  route_adapter : string;
  route_model : string;
  route_effort : option string;
  catalogue_revision : string;
  route_account_key : option string;
  route_host : string;
  alternatives : RouteAlternatives;
  exclusions : list RouteExclusion;
  eligibility : RouteEligibility;
  readiness : RouteReadiness;
  confidentiality : RouteConfidentiality;
  pool_selection : option RouteSelectionReceipt;
}.

Definition user_skills (r : ResolvedRoute) : bool :=
  unwrap_or (route_extra r !! "user_skills" ≫= json_as_bool) true.

Definition set_user_skills (r : ResolvedRoute) (enabled : bool) : ResolvedRoute :=
  mkResolvedRoute (<["user_skills" := json_Bool enabled]> (route_extra r))
    (route_adapter r) (route_model r) (route_effort r) (catalogue_revision r)
    (route_account_key r) (route_host r) (alternatives r) (exclusions r) (eligibility r)
    (readiness r) (confidentiality r) (pool_selection r).

(** Overriding user skills is read back, defaults to on, is undone by the
    next override, and touches no other field a newer writer left in the
    route's extra fields. *)
Theorem user_skills_roundtrip `{!JsonLaws} r enabled :
  user_skills (set_user_skills r enabled) = enabled ∧
  (∀ b, set_user_skills (set_user_skills r b) enabled = set_user_skills r enabled) ∧
  (∀ k, k ≠ "user_skills" → route_extra (set_user_skills r enabled) !! k = route_extra r !! k) ∧
  (route_extra r !! "user_skills" = None → user_skills r = true).
Proof.
  unfold user_skills, set_user_skills. simpl. split_and!.
  - rewrite lookup_insert_eq. simpl. by rewrite json_as_bool_Bool.
  - intros b. by rewrite insert_insert_eq.
  - intros k Hk. by rewrite lookup_insert_ne.
  - by intros ->.
Qed.
End Routes.

(** Instance of the round trip at a concrete route. *)
Definition ex_route : @ResolvedRoute json_example :=
  @mkResolvedRoute json_example ∅ "codex" "gpt-5" None "1" (Some "key") "local"
    (@mkRouteAlternatives json_example []) [] Eligible
    (@Ready json_example ∅ "ref" 100) (@mkRouteConfidentiality json_example ∅ "policy") None.

Lemma user_skills_roundtrip_witness :
  @user_skills json_example (set_user_skills ex_route false) = false ∧
  @user_skills json_example ex_route = true.
Proof.
  split.
  - exact (proj1 (@user_skills_roundtrip json_example json_example_laws ex_route false)).
  - exact (proj2 (proj2 (proj2 (@user_skills_roundtrip json_example json_example_laws ex_route false)))
             eq_refl).
Defined.
