(* ===== verification/QuotaState.v ===== *)
(** * QuotaState: quota evidence, its validation and compare-and-swap intents

    Models the data of [crates/quota/src/source.rs], [state.rs] and the two
    evidence records of [admission.rs], with every [validate] and the
    compare-and-swap check of [UpdateIntent]. *)

From Stdlib Require Import Ascii.
From stdpp Require Import base option list strings gmap sets.
From S2P Require Import Prelude External.

Local Open Scope string_scope.
Local Open Scope list_scope.
Local Open Scope Z_scope.
Local Open Scope rust_scope.

(** ** Errors and enumerations *)

(** [QuotaError] without [Record], which only the JSON decoder raises. *)
Inductive QuotaError :=
| QuotaDisabled
| NumberOutOfRange
| Invalid (what : string)
| TimeRange
| InvalidTimestamp
| Conflict
| Refused (why : string).

Inductive QuotaStatus :=
| Available
| CreditOnly
| StatusExhausted
| Stale
| StatusUnknown
| StatusAuthRequired
| KeychainUnavailable
| StatusUnsupported.
#[export] Instance QuotaStatus_eq_dec : EqDecision QuotaStatus.
Proof. solve_decision. Defined.

Inductive ProbeFailure :=
| Network
| RateLimited
| Auth
| FailureLoginExpired
| FailureAccountMismatch
| IsolatedKeychainUnavailable
| MissingCli
| ProbeDirectory
| FailureDisabled
| Malformed.
#[export] Instance ProbeFailure_eq_dec : EqDecision ProbeFailure.
Proof. solve_decision. Defined.

(** [ReadinessReason] of [readiness.rs]. *)
Inductive ReadinessReason :=
| NotProbed
| ReasonStale
| ProbeTimeout
| CommandFailure
| ReasonMissingExecutable
| SignedOut
| ReasonLoginExpired
| ReasonAccountMismatch
| ReasonExhausted
| ProviderRefusal
| UncalibratedPartialCoverage
| InvalidEvidence
| UnreachablePeer
| UnsupportedPeerVersion.
#[export] Instance ReadinessReason_eq_dec : EqDecision ReadinessReason.
Proof. solve_decision. Defined.

Definition readiness_reason (f : ProbeFailure) : ReadinessReason :=
  match f with
  | MissingCli | FailureDisabled => ReasonMissingExecutable
  | Auth => SignedOut
  | FailureLoginExpired => ReasonLoginExpired
  | FailureAccountMismatch => ReasonAccountMismatch
  | _ => CommandFailure
  end.

Definition needs_login (f : ProbeFailure) : bool :=
  match f with Auth | FailureLoginExpired | FailureAccountMismatch => true | _ => false end.

(** ** Bounds and text checks *)

Definition MAX_ACCOUNTS : Z := 128.
Definition MAX_WINDOWS : Z := 64.
Definition MAX_RECORD_BYTES : Z := 1048576.
(** [TICK_BUDGET_SECONDS] of [schedule.rs], from [DEFAULT_WALL_BUDGET_SECONDS]
    of [settings.rs]. *)
Definition DEFAULT_WALL_BUDGET_SECONDS : Z := 55.
Definition TICK_BUDGET_SECONDS : Z := DEFAULT_WALL_BUDGET_SECONDS.

Definition component (text : string) : bool :=
  negb (str_is_empty text) && (str_len text <=? 128) && (text != ".") && (text != "..")
  && all_bytes (λ b, is_ascii_alphanumeric b || Ascii.eqb b "-" || Ascii.eqb b "_") text.

Definition reference (text : string) : bool :=
  negb (str_is_empty text) && (str_len text <=? 256)
  && all_bytes (λ b, is_ascii_alphanumeric b || contains_char b "-_.:") text.

Definition has_address_char (text : string) : bool :=
  contains_char "@" text || contains_char "/" text || contains_char "\" text.

Definition detail_text (text : string) (maximum : Z) : bool :=
  negb (str_is_empty text) && (str_len text <=? maximum)
  && negb (has_control text) && negb (has_address_char text).

Definition fingerprint (text : string) : bool :=
  let '(hex, length) :=
    match strip_prefix "google-" text with
    | Some hex => (hex, 12)
    | None => (text, 16)
    end in
  (str_len hex =? length)
  && all_bytes (λ b, is_ascii_digit b || ((97 <=? byte_of b) && (byte_of b <=? 102))) hex.

(** ** Accounts, snapshots and details, [source.rs] *)

Record QuotaPolicy := mkQuotaPolicy {
  policy_adapter : string;
  timer_seconds : Z;
  panel_seconds : Z;
  probe_seconds : Z;
  low_power : bool;
  solo : bool;
}.

Record AccountScope := mkAccountScope {
  adapter : string;
  account_key : string;
  label : string;
}.
#[export] Instance AccountScope_eq_dec : EqDecision AccountScope.
Proof. solve_decision. Defined.

Definition AccountScope_validate (a : AccountScope) : result QuotaError unit :=
  if negb (component (adapter a)) || negb (component (account_key a))
     || str_is_empty (label a) || (128 <? str_len (label a))
     || has_control (label a) || has_address_char (label a)
  then Err (Invalid "account identity") else Ok tt.

Record QuotaDetails := mkQuotaDetails {
  source : option string;
  coverage : option string;
  calibration_expires : option Z;
  calibrated_windows : list string;
  plan : option string;
  tier : option string;
  billing_anchor : option string;
  details_fingerprint : option string;
  priority : option Z;
  credit_balance : option string;
  reset_credits : option Z;
  reset_expiries : list Z;
  note : option string;
}.
#[export] Instance QuotaDetails_eq_dec : EqDecision QuotaDetails.
Proof. solve_decision. Defined.

Definition QuotaDetails_default : QuotaDetails :=
  mkQuotaDetails None None None [] None None None None None None None [] None.

Definition calibration_active (d : QuotaDetails) (pool : string) (now : Z) : bool :=
  is_some_and (calibration_expires d) (λ expiry, now <? expiry)
  && existsb (λ window, window == pool) (calibrated_windows d).

Record QuotaWindow := mkQuotaWindow {
  pool : string;
  window_seconds : option Z;
  used_basis_points : Z;
  resets : option Z;
}.
#[export] Instance QuotaWindow_eq_dec : EqDecision QuotaWindow.
Proof. solve_decision. Defined.

Record QuotaSnapshot := mkQuotaSnapshot {
  snap_schema_version : Z;
  snap_account : AccountScope;
  snap_revision : Z;
  status : QuotaStatus;
  observed : Z;
  source_ref : string;
  authority_ref : option string;
  windows : list QuotaWindow;
  details : option QuotaDetails;
}.
#[export] Instance QuotaSnapshot_eq_dec : EqDecision QuotaSnapshot.
Proof. solve_decision. Defined.

Definition set_snap_account (a : AccountScope) (s : QuotaSnapshot) : QuotaSnapshot :=
  mkQuotaSnapshot (snap_schema_version s) a (snap_revision s) (status s) (observed s)
    (source_ref s) (authority_ref s) (windows s) (details s).
Definition set_snap_revision (n : Z) (s : QuotaSnapshot) : QuotaSnapshot :=
  mkQuotaSnapshot (snap_schema_version s) (snap_account s) n (status s) (observed s)
    (source_ref s) (authority_ref s) (windows s) (details s).
Definition set_snap_status (st : QuotaStatus) (s : QuotaSnapshot) : QuotaSnapshot :=
  mkQuotaSnapshot (snap_schema_version s) (snap_account s) (snap_revision s) st (observed s)
    (source_ref s) (authority_ref s) (windows s) (details s).
Definition set_snap_windows (w : list QuotaWindow) (s : QuotaSnapshot) : QuotaSnapshot :=
  mkQuotaSnapshot (snap_schema_version s) (snap_account s) (snap_revision s) (status s)
    (observed s) (source_ref s) (authority_ref s) w (details s).
Definition set_snap_details (d : option QuotaDetails) (s : QuotaSnapshot) : QuotaSnapshot :=
  mkQuotaSnapshot (snap_schema_version s) (snap_account s) (snap_revision s) (status s)
    (observed s) (source_ref s) (authority_ref s) (windows s) d.

(** The disjunction over the fields of [details] in [QuotaSnapshot::validate]. *)
Definition details_invalid (d : QuotaDetails) : bool :=
  let bad (o : option string) (maximum : Z) := is_some_and o (λ s, negb (detail_text s maximum)) in
  bad (source d) 128 || bad (coverage d) 128
  || (MAX_WINDOWS <? len (calibrated_windows d))
  || existsb (λ s, negb (detail_text s 128)) (calibrated_windows d)
  || bad (plan d) 128 || bad (tier d) 128
  || is_some_and (details_fingerprint d) (λ value, negb (fingerprint value))
  || bad (credit_balance d) 128 || bad (note d) 256
  || (MAX_WINDOWS <? len (reset_expiries d)).

(** The loop over the windows; [pools] holds the pools already seen. *)
Fixpoint validate_windows (pools : list string) (l : list QuotaWindow) : result QuotaError unit :=
  match l with
  | [] => Ok tt
  | w :: l' =>
      if str_is_empty (pool w) || (256 <? str_len (pool w)) || bool_decide (pool w ∈ pools)
      then Err (Invalid "allowance pool")
      else if 1000000 <? used_basis_points w then Err NumberOutOfRange
      else validate_windows (pool w :: pools) l'
  end.

Definition QuotaSnapshot_validate (s : QuotaSnapshot) : result QuotaError unit :=
  _ ← AccountScope_validate (snap_account s);
  if (snap_schema_version s != 1)
     || (MAX_WINDOWS <? len (windows s))
     || negb (reference (source_ref s))
     || is_some_and (authority_ref s) (λ r, negb (reference r))
     || is_some_and (details s) details_invalid
  then Err (Invalid "snapshot header or bounds")
  else validate_windows [] (windows s).

Record RefreshClaim := mkRefreshClaim { token : string; claim_deadline : Z }.
#[export] Instance RefreshClaim_eq_dec : EqDecision RefreshClaim.
Proof. solve_decision. Defined.

Record CredentialStat := mkCredentialStat {
  device : Z; inode : Z; mode : Z; uid : Z; size : Z; modified_ns : Z;
}.
#[export] Instance CredentialStat_eq_dec : EqDecision CredentialStat.
Proof. solve_decision. Defined.

Record CredentialMetadata := mkCredentialMetadata { path : string; stat : option CredentialStat }.
#[export] Instance CredentialMetadata_eq_dec : EqDecision CredentialMetadata.
Proof. solve_decision. Defined.

(** [Path::is_absolute] on Unix. *)
Definition is_absolute (path : string) : bool := starts_with path "/".

(** ** Account records, [state.rs] and [admission.rs] *)

Section Records.
Context {J : Json}.

Record Refusal := mkRefusal {
  ref_extra : ExtraFields;
  ref_account : AccountScope;
  ref_model : string;
  ref_pool : option string;
  ref_observed : Z;
  ref_resets : option Z;
}.
#[export] Instance Refusal_eq_dec : EqDecision Refusal.
Proof. solve_decision. Defined.

(** [Refusal::expires_unix_seconds]. *)
Definition ref_expires (r : Refusal) : result QuotaError Z :=
  match ref_resets r with
  | Some resets => Ok resets
  | None => ok_or (checked_add_i64 (ref_observed r) 3600) TimeRange
  end.

Record CapacityCooldown := mkCapacityCooldown {
  cool_extra : ExtraFields;
  cool_account : AccountScope;
  cool_model : string;
  cool_observed : Z;
  cool_expires : Z;
}.
#[export] Instance CapacityCooldown_eq_dec : EqDecision CapacityCooldown.
Proof. solve_decision. Defined.

Definition set_ref_account (a : AccountScope) (r : Refusal) : Refusal :=
  mkRefusal (ref_extra r) a (ref_model r) (ref_pool r) (ref_observed r) (ref_resets r).
Definition set_cool_account (a : AccountScope) (c : CapacityCooldown) : CapacityCooldown :=
  mkCapacityCooldown (cool_extra c) a (cool_model c) (cool_observed c) (cool_expires c).

Record AccountRecord := mkAccountRecord {
  schema_version : Z;
  account : AccountScope;
  revision : Z;
  snapshot : option QuotaSnapshot;
  claim : option RefreshClaim;
  last_attempt : option Z;
  backoff_until : option Z;
  failures : Z;
  last_error : option ProbeFailure;
  auth_verified : option Z;
  credential_metadata : list CredentialMetadata;
  auth_retry_pending : bool;
  refusals : list Refusal;
  capacity_cooldowns : list CapacityCooldown;
}.
#[export] Instance AccountRecord_eq_dec : EqDecision AccountRecord.
Proof. solve_decision. Defined.

Definition AccountRecord_empty (a : AccountScope) : AccountRecord :=
  mkAccountRecord 1 a 0 None None None None 0 None None [] false [] [].

Definition set_account (a : AccountScope) (r : AccountRecord) : AccountRecord :=
  mkAccountRecord (schema_version r) a (revision r) (snapshot r) (claim r) (last_attempt r)
    (backoff_until r) (failures r) (last_error r) (auth_verified r) (credential_metadata r)
    (auth_retry_pending r) (refusals r) (capacity_cooldowns r).
Definition set_revision (n : Z) (r : AccountRecord) : AccountRecord :=
  mkAccountRecord (schema_version r) (account r) n (snapshot r) (claim r) (last_attempt r)
    (backoff_until r) (failures r) (last_error r) (auth_verified r) (credential_metadata r)
    (auth_retry_pending r) (refusals r) (capacity_cooldowns r).
Definition set_snapshot (s : option QuotaSnapshot) (r : AccountRecord) : AccountRecord :=
  mkAccountRecord (schema_version r) (account r) (revision r) s (claim r) (last_attempt r)
    (backoff_until r) (failures r) (last_error r) (auth_verified r) (credential_metadata r)
    (auth_retry_pending r) (refusals r) (capacity_cooldowns r).
Definition set_claim (c : option RefreshClaim) (r : AccountRecord) : AccountRecord :=
  mkAccountRecord (schema_version r) (account r) (revision r) (snapshot r) c (last_attempt r)
    (backoff_until r) (failures r) (last_error r) (auth_verified r) (credential_metadata r)
    (auth_retry_pending r) (refusals r) (capacity_cooldowns r).
Definition set_last_attempt (t : option Z) (r : AccountRecord) : AccountRecord :=
  mkAccountRecord (schema_version r) (account r) (revision r) (snapshot r) (claim r) t
    (backoff_until r) (failures r) (last_error r) (auth_verified r) (credential_metadata r)
    (auth_retry_pending r) (refusals r) (capacity_cooldowns r).
Definition set_backoff_until (t : option Z) (r : AccountRecord) : AccountRecord :=
  mkAccountRecord (schema_version r) (account r) (revision r) (snapshot r) (claim r)
    (last_attempt r) t (failures r) (last_error r) (auth_verified r) (credential_metadata r)
    (auth_retry_pending r) (refusals r) (capacity_cooldowns r).
Definition set_failures (n : Z) (r : AccountRecord) : AccountRecord :=
  mkAccountRecord (schema_version r) (account r) (revision r) (snapshot r) (claim r)
    (last_attempt r) (backoff_until r) n (last_error r) (auth_verified r)
    (credential_metadata r) (auth_retry_pending r) (refusals r) (capacity_cooldowns r).
Definition set_last_error (e : option ProbeFailure) (r : AccountRecord) : AccountRecord :=
  mkAccountRecord (schema_version r) (account r) (revision r) (snapshot r) (claim r)
    (last_attempt r) (backoff_until r) (failures r) e (auth_verified r)
    (credential_metadata r) (auth_retry_pending r) (refusals r) (capacity_cooldowns r).
Definition set_auth_verified (t : option Z) (r : AccountRecord) : AccountRecord :=
  mkAccountRecord (schema_version r) (account r) (revision r) (snapshot r) (claim r)
    (last_attempt r) (backoff_until r) (failures r) (last_error r) t
    (credential_metadata r) (auth_retry_pending r) (refusals r) (capacity_cooldowns r).
Definition set_auth_retry_pending (b : bool) (r : AccountRecord) : AccountRecord :=
  mkAccountRecord (schema_version r) (account r) (revision r) (snapshot r) (claim r)
    (last_attempt r) (backoff_until r) (failures r) (last_error r) (auth_verified r)
    (credential_metadata r) b (refusals r) (capacity_cooldowns r).
Definition set_refusals (l : list Refusal) (r : AccountRecord) : AccountRecord :=
  mkAccountRecord (schema_version r) (account r) (revision r) (snapshot r) (claim r)
    (last_attempt r) (backoff_until r) (failures r) (last_error r) (auth_verified r)
    (credential_metadata r) (auth_retry_pending r) l (capacity_cooldowns r).
Definition set_capacity_cooldowns (l : list CapacityCooldown) (r : AccountRecord) : AccountRecord :=
  mkAccountRecord (schema_version r) (account r) (revision r) (snapshot r) (claim r)
    (last_attempt r) (backoff_until r) (failures r) (last_error r) (auth_verified r)
    (credential_metadata r) (auth_retry_pending r) (refusals r) l.

(** The checks of [AccountRecord::validate], one per block of its body. *)
Definition validate_claim (r : AccountRecord) : result QuotaError unit :=
  match claim r with
  | None => Ok tt
  | Some c =>
      started ← ok_or (last_attempt r) (Invalid "claim without attempt");
      maximum ← ok_or (checked_add_i64 started TICK_BUDGET_SECONDS) TimeRange;
      if (claim_deadline c <=? started) || (maximum <? claim_deadline c)
      then Err (Invalid "claim deadline") else Ok tt
  end.

Definition validate_backoff (r : AccountRecord) : result QuotaError unit :=
  match backoff_until r with
  | None => Ok tt
  | Some backoff =>
      started ← ok_or (last_attempt r) (Invalid "backoff without attempt");
      maximum ← ok_or (checked_add_i64 started TICK_BUDGET_SECONDS
                         ≫= λ s, checked_add_i64 s 86400) TimeRange;
      if (backoff <=? started) || (maximum <? backoff)
      then Err (Invalid "backoff deadline") else Ok tt
  end.

Definition refusal_invalid (a : AccountScope) (r : Refusal) : bool :=
  (ref_account r != a) || str_is_empty (ref_model r) || (256 <? str_len (ref_model r))
  || is_some_and (ref_pool r) (λ p, str_is_empty p || (256 <? str_len p)).

Definition cooldown_invalid (a : AccountScope) (c : CapacityCooldown) : bool :=
  (cool_account c != a) || str_is_empty (cool_model c) || (256 <? str_len (cool_model c))
  || has_control (cool_model c) || (cool_expires c <=? cool_observed c).

Definition validate_snapshot (r : AccountRecord) : result QuotaError unit :=
  match snapshot r with
  | None => Ok tt
  | Some s =>
      _ ← QuotaSnapshot_validate s;
      if (snap_account s != account r) || (revision r <? snap_revision s)
      then Err (Invalid "snapshot identity or revision") else Ok tt
  end.

Definition AccountRecord_validate (r : AccountRecord) : result QuotaError unit :=
  _ ← AccountScope_validate (account r);
  if (schema_version r != 1) || is_some_and (claim r) (λ c, negb (component (token c)))
  then Err (Invalid "record header or claim") else
  _ ← validate_claim r;
  _ ← validate_backoff r;
  if (8 <? len (credential_metadata r))
     || existsb (λ m, negb (is_absolute (path m))) (credential_metadata r)
  then Err (Invalid "credential metadata bounds") else
  if (MAX_WINDOWS <? len (refusals r)) || existsb (refusal_invalid (account r)) (refusals r)
  then Err (Invalid "refusal scope or bounds") else
  if (MAX_WINDOWS <? len (capacity_cooldowns r))
     || existsb (cooldown_invalid (account r)) (capacity_cooldowns r)
  then Err (Invalid "capacity cooldown scope or bounds") else
  validate_snapshot r.

(** ** Compare-and-swap intents *)

Record UpdateIntent := mkUpdateIntent {
  intent_account : AccountScope;
  expected : option AccountRecord;
  replacement : option AccountRecord;
  readiness_probe_result : option (option ReadinessReason);
  login_probe_expiry : option (option Z * Z);
}.

Definition check (self : UpdateIntent) (current : option AccountRecord) : result QuotaError unit :=
  _ ← AccountScope_validate (intent_account self);
  if (current != expected self) || is_some_and current (λ r, account r != intent_account self)
  then Err Conflict
  else match replacement self with
       | None => Ok tt
       | Some next =>
           _ ← AccountRecord_validate next;
           if adapter (account next) != adapter (intent_account self)
           then Err (Invalid "update revision")
           else if account_key (account next) != account_key (intent_account self)
           then Err (Invalid "update revision")
           else
             bumped ← ok_or (checked_add_u64 (from_option revision 0 (expected self)) 1)
                        NumberOutOfRange;
             if revision next != bumped then Err (Invalid "update revision") else Ok tt
       end.

(** ** What validation means *)

Definition scope_valid (a : AccountScope) : Prop := AccountScope_validate a = Ok tt.

(** A claim was taken at the recorded attempt and expires within the tick
    budget of it. *)
Definition claim_valid (r : AccountRecord) : Prop :=
  ∀ c, claim r = Some c → component (token c) = true ∧
    ∃ started, last_attempt r = Some started ∧
      i64_min ≤ started + TICK_BUDGET_SECONDS ≤ i64_max ∧
      started < claim_deadline c ≤ started + TICK_BUDGET_SECONDS.

(** A backoff ends within a day and the tick budget of the recorded attempt. *)
Definition backoff_valid (r : AccountRecord) : Prop :=
  ∀ b, backoff_until r = Some b →
    ∃ started, last_attempt r = Some started ∧
      i64_min ≤ started + TICK_BUDGET_SECONDS ≤ i64_max ∧
      i64_min ≤ started + TICK_BUDGET_SECONDS + 86400 ≤ i64_max ∧
      started < b ≤ started + TICK_BUDGET_SECONDS + 86400.

Definition metadata_valid (r : AccountRecord) : Prop :=
  len (credential_metadata r) ≤ 8 ∧
  ∀ m, m ∈ credential_metadata r → is_absolute (path m) = true.

Definition refusals_valid (r : AccountRecord) : Prop :=
  len (refusals r) ≤ MAX_WINDOWS ∧
  ∀ x, x ∈ refusals r → refusal_invalid (account r) x = false.

Definition cooldowns_valid (r : AccountRecord) : Prop :=
  len (capacity_cooldowns r) ≤ MAX_WINDOWS ∧
  ∀ x, x ∈ capacity_cooldowns r → cooldown_invalid (account r) x = false.

Definition snapshot_valid (r : AccountRecord) : Prop :=
  ∀ s, snapshot r = Some s →
    QuotaSnapshot_validate s = Ok tt ∧ snap_account s = account r ∧ snap_revision s ≤ revision r.

Record record_valid (r : AccountRecord) : Prop := {
  rv_scope : scope_valid (account r);
  rv_schema : schema_version r = 1;
  rv_claim : claim_valid r;
  rv_backoff : backoff_valid r;
  rv_metadata : metadata_valid r;
  rv_refusals : refusals_valid r;
  rv_cooldowns : cooldowns_valid r;
  rv_snapshot : snapshot_valid r;
}.

(** A deadline that [validate] bounds from both sides. *)
Lemma bounded_deadline_Ok (what : string) (t d : Z) (maximum : option Z) :
  (maximum' ← ok_or maximum TimeRange;
   if (d <=? t) || (maximum' <? d) then Err (Invalid what) else Ok tt) = Ok tt ↔
  ∃ m, maximum = Some m ∧ t < d ≤ m.
Proof.
  rewrite result_bind_Ok. setoid_rewrite ok_or_Ok. setoid_rewrite result_guard_Ok.
  setoid_rewrite orb_false_iff. setoid_rewrite Z.leb_gt. setoid_rewrite Z.ltb_ge. naive_solver.
Qed.

Lemma validate_claim_Ok r :
  is_some_and (claim r) (λ c, negb (component (token c))) = false ∧ validate_claim r = Ok tt ↔
  claim_valid r.
Proof.
  unfold validate_claim, claim_valid. rewrite is_some_and_false.
  destruct (claim r) as [c|]; [|naive_solver].
  setoid_rewrite negb_false_iff.
  destruct (last_attempt r) as [t|]; simpl; [|naive_solver].
  rewrite bounded_deadline_Ok. setoid_rewrite checked_add_i64_Some.
  split; [naive_solver|]. intros H. destruct (H c eq_refl) as (? & ? & [= <-] & ? & ?).
  naive_solver.
Qed.

Lemma validate_backoff_Ok r : validate_backoff r = Ok tt ↔ backoff_valid r.
Proof.
  unfold validate_backoff, backoff_valid.
  destruct (backoff_until r) as [b|]; [|naive_solver].
  destruct (last_attempt r) as [t|]; simpl; [|naive_solver].
  rewrite bounded_deadline_Ok. setoid_rewrite bind_Some. setoid_rewrite checked_add_i64_Some.
  split; [naive_solver|]. intros H. destruct (H b eq_refl) as (? & [= <-] & ? & ? & ?).
  eexists; split; [|done]. eauto.
Qed.

Lemma validate_snapshot_Ok r : validate_snapshot r = Ok tt ↔ snapshot_valid r.
Proof.
  unfold validate_snapshot, snapshot_valid. destruct (snapshot r) as [s|]; [|naive_solver].
  rewrite result_seq_Ok, result_guard_Ok, orb_false_iff, negb_false_iff, bool_decide_eq_true,
    Z.ltb_ge. naive_solver.
Qed.

(** [validate] accepts exactly the valid records. *)
Lemma validate_Ok r : AccountRecord_validate r = Ok tt ↔ record_valid r.
Proof.
  unfold AccountRecord_validate.
  rewrite !result_seq_Ok, !result_guard_Ok, !result_seq_Ok, !result_guard_Ok, !orb_false_iff,
    negb_false_iff, bool_decide_eq_true, !Z.ltb_ge, !existsb_false_elem,
    validate_backoff_Ok, validate_snapshot_Ok.
  setoid_rewrite negb_false_iff. fold (scope_valid (account r)). split.
  - intros (? & (? & ?) & ? & ? & ? & ? & ? & ?).
    constructor; try done. by apply validate_claim_Ok.
  - intros [? ? [? ?]%validate_claim_Ok ? [] [] [] ?]. tauto.
Qed.

(** ** What a checked intent guarantees *)

(** The identity of an account: the display label may change. *)
Definition same_identity (a b : AccountScope) : Prop :=
  adapter a = adapter b ∧ account_key a = account_key b.

Definition expected_revision (i : UpdateIntent) : Z := from_option revision 0 (expected i).

Record intent_valid (i : UpdateIntent) (current : option AccountRecord) : Prop := {
  iv_scope : scope_valid (intent_account i);
  iv_current : current = expected i;
  iv_account : ∀ r, current = Some r → account r = intent_account i;
  iv_next : ∀ next, replacement i = Some next →
    record_valid next ∧ same_identity (account next) (intent_account i) ∧
    revision next = expected_revision i + 1 ∧ 0 ≤ expected_revision i + 1 ≤ u64_max;
}.

Lemma check_Ok i current : check i current = Ok tt ↔ intent_valid i current.
Proof.
  unfold check. rewrite result_seq_Ok, result_guard_Ok, orb_false_iff, negb_false_iff,
    bool_decide_eq_true, is_some_and_false.
  setoid_rewrite negb_false_iff. setoid_rewrite bool_decide_eq_true.
  assert ((match replacement i with
           | None => Ok tt
           | Some next =>
               _ ← AccountRecord_validate next;
               if adapter (account next) != adapter (intent_account i)
               then Err (Invalid "update revision")
               else if account_key (account next) != account_key (intent_account i)
               then Err (Invalid "update revision")
               else bumped ← ok_or (checked_add_u64 (expected_revision i) 1) NumberOutOfRange;
                    if revision next != bumped then Err (Invalid "update revision") else Ok tt
           end) = Ok tt ↔
          ∀ next, replacement i = Some next →
            record_valid next ∧ same_identity (account next) (intent_account i) ∧
            revision next = expected_revision i + 1 ∧ 0 ≤ expected_revision i + 1 ≤ u64_max)
    as Hnext.
  { destruct (replacement i) as [next|]; [|naive_solver].
    rewrite result_seq_Ok, !result_guard_Ok, result_bind_Ok, validate_Ok, !negb_false_iff,
      !bool_decide_eq_true.
    setoid_rewrite result_guard_Ok. setoid_rewrite ok_or_Ok. setoid_rewrite checked_add_u64_Some.
    setoid_rewrite negb_false_iff. setoid_rewrite bool_decide_eq_true.
    unfold same_identity. split.
    - intros (? & ? & ? & b & [-> ?] & ? & _) ? [= <-]. done.
    - intros H. destruct (H next eq_refl) as (? & [? ?] & ? & ?).
      split_and!; [done..|]. exists (expected_revision i + 1). done. }
  rewrite Hnext. split; [|intros []; done]. intros (? & (? & ?) & ?). by constructor.
Qed.

(** ** Windows *)

Definition window_valid (w : QuotaWindow) : Prop :=
  pool w ≠ EmptyString ∧ str_len (pool w) ≤ 256 ∧ used_basis_points w ≤ 1000000.


Lemma validate_windows_Ok pools l :
  validate_windows pools l = Ok tt ↔
  Forall window_valid l ∧ NoDup (pool <$> l) ∧ Forall (λ w, pool w ∉ pools) l.
Proof.
  revert pools; induction l as [|w l IH]; intros pools; simpl.
  { split; [|done]. intros _. split_and!; constructor. }
  rewrite !result_guard_Ok, !orb_false_iff, str_is_empty_false, !Z.ltb_ge, bool_decide_eq_false, IH.
  rewrite !Forall_cons_iff, list.NoDup_cons, list_elem_of_fmap. unfold window_valid at 2.
  rewrite !list.Forall_forall. setoid_rewrite not_elem_of_cons. split.
  - intros (((? & ?) & ?) & ? & ? & ? & Hl). split_and!; try done; [|naive_solver].
    intros (y & Hy & Hin). destruct (Hl y Hin) as [Hne _]. by rewrite Hy in Hne.
  - intros (((? & ? & ?) & ?) & (Hw & ?) & ? & ?). split_and!; try done.
    intros y Hy. split; [|auto]. intros Heq. apply Hw. eauto.
Qed.

Lemma snapshot_validate_Ok s :
  QuotaSnapshot_validate s = Ok tt ↔
  scope_valid (snap_account s) ∧ snap_schema_version s = 1 ∧ len (windows s) ≤ MAX_WINDOWS ∧
  reference (source_ref s) = true ∧
  is_some_and (authority_ref s) (λ r, negb (reference r)) = false ∧
  is_some_and (details s) details_invalid = false ∧
  Forall window_valid (windows s) ∧ NoDup (pool <$> windows s).
Proof.
  unfold QuotaSnapshot_validate.
  rewrite result_seq_Ok, result_guard_Ok, !orb_false_iff, !negb_false_iff, bool_decide_eq_true,
    Z.ltb_ge, validate_windows_Ok. fold (scope_valid (snap_account s)).
  assert (Forall (λ w, pool w ∉ ([] : list string)) (windows s)) by
    (apply list.Forall_forall; intros; apply not_elem_of_nil).
  tauto.
Qed.
End Records.

#[export] Hint Resolve rv_scope rv_schema rv_claim rv_backoff rv_metadata rv_refusals rv_cooldowns
  rv_snapshot : rust.

(** An accepted account identity is safe to store: adapter and key are
    single path components (never empty, ["."] or [".."], no separator, no
    NUL, at most 128 bytes, so that [<key>/<adapter>.json] stays in the quota
    directory), and no part of it can hold an address or a path. *)
Theorem account_scope_safe a (H : AccountScope_validate a = Ok tt) :
  (∀ t, t ∈ [adapter a; account_key a] →
     t ≠ EmptyString ∧ t ≠ "." ∧ t ≠ ".." ∧ str_len t ≤ 128 ∧
     ∀ c, c ∈ ["/"%char; "\"%char; "@"%char; "."%char; Ascii.zero] → contains_char c t = false) ∧
  label a ≠ EmptyString ∧ str_len (label a) ≤ 128 ∧ has_control (label a) = false ∧
  ∀ c, c ∈ ["/"%char; "\"%char; "@"%char] → contains_char c (label a) = false.
Proof.
  unfold AccountScope_validate, has_address_char in H.
  rewrite result_guard_Ok, !orb_false_iff, !negb_false_iff, str_is_empty_false, Z.ltb_ge in H.
  destruct H as ((((((Ha & Hk) & ?) & ?) & ?) & (? & ?) & ?) & _).
  split; [|split_and!; set_solver].
  intros t Ht. assert (component t = true) as Hc by set_solver. clear -Hc.
  unfold component in Hc.
  rewrite !andb_true_iff, !negb_true_iff, !bool_decide_eq_false, str_is_empty_false, Z.leb_le in Hc.
  destruct Hc as ((((? & ?) & ?) & ?) & Hall). split_and!; try done.
  intros c Hin. eapply all_bytes_contains; [exact Hall|].
  rewrite !elem_of_cons, elem_of_nil in Hin.
  by destruct Hin as [->|[->|[->|[->|[->|[]]]]]].
Qed.

Definition ex_account : AccountScope := mkAccountScope "codex" "key-1" "Work".

Lemma account_scope_safe_witness :
  AccountScope_validate ex_account = Ok tt ∧ contains_char "/" (label ex_account) = false.
Proof.
  split; [reflexivity|].
  refine (proj2 (proj2 (proj2 (proj2 (account_scope_safe ex_account eq_refl)))) _ _).
  apply list_elem_of_here.
Defined.
