(* ===== verification/QuotaSettings.v ===== *)
(** * QuotaSettings: the configured bounds of the quota scheduler

    Models [crates/quota/src/settings.rs] and the [Calibration] record of
    [calibration.rs].  A [BTreeMap] keyed by text is its list of entries in
    key order: the code iterates it and looks keys up. *)

From Stdlib Require Import Ascii.
From stdpp Require Import base option list strings sets.
From S2P Require Import Prelude External QuotaState.

Local Open Scope string_scope.
Local Open Scope list_scope.
Local Open Scope Z_scope.
Local Open Scope rust_scope.

Definition BTreeMap (A : Type) : Type := list (string * A).
Definition btree_get {A} (m : BTreeMap A) (k : string) : option A :=
  snd <$> List.find (λ '(k', _), k' == k) m.

Lemma btree_get_elem {A} (m : BTreeMap A) k v : btree_get m k = Some v → (k, v) ∈ m.
Proof.
  unfold btree_get. intros ([k' v'] & [Hin Hk]%find_Some_elem & ->)%fmap_Some.
  by apply bool_decide_eq_true in Hk as <-.
Qed.

(** [SectionError] of [crates/config/src/domains.rs]. *)
Record SectionError := mkSectionError {
  field : string;
  code : string;
  detail : option string;
}.

Definition MAX_PARALLEL : Z := 16.
Definition MAX_WALL_BUDGET_SECONDS : Z := 600.
Definition DEFAULT_LOGIN_WARNING_SECONDS : Z := 3600.
Definition DEFAULT_HISTORY_MAX_BYTES : Z := 4 * 1024 * 1024.
Definition MIN_HISTORY_MAX_BYTES : Z := 64 * 1024.
Definition MAX_HISTORY_MAX_BYTES : Z := 128 * 1024 * 1024.
Definition MOST_CONSTRAINED : string := "most_constrained".

Record PollingIntervals := mkPollingIntervals {
  poll_timer_seconds : option Z;
  poll_panel_seconds : option Z;
}.

Inductive Headline := Auto | FiveHour | Weekly.
Record Display := mkDisplay { headline : Headline; icon : string }.
Definition Display_default : Display := mkDisplay Auto MOST_CONSTRAINED.

Definition valid_icon (icon : string) : bool :=
  (icon == MOST_CONSTRAINED)
  || (negb (str_is_empty icon) && (str_len icon <=? 128)
      && all_bytes (λ b, is_ascii_alphanumeric b || contains_char b "._-") icon).

Section Settings.
Context {T : Jiff}.

(** ** Calibration floors *)

Record Calibration := mkCalibration {
  five_hour : option Z;
  seven_day : option Z;
  thirty_day : option Z;
  expires : Timestamp;
}.

Definition expiry (c : Calibration) : Z := as_second (expires c).

Definition Calibration_valid (c : Calibration) : bool :=
  let values := [five_hour c; seven_day c; thirty_day c] in
  existsb is_some values
  && forallb (λ v, match v with Some percent => percent <=? 100 | None => true end) values.

(** ** Settings *)

Record Settings := mkSettings {
  max_parallel : Z;
  wall_budget_seconds : Z;
  polling_intervals : BTreeMap PollingIntervals;
  display : Display;
  calibration : BTreeMap Calibration;
  history_max_bytes : Z;
  login_expiry_warning_seconds : Z;
}.

Definition Settings_default : Settings :=
  mkSettings 3 DEFAULT_WALL_BUDGET_SECONDS [] Display_default [] DEFAULT_HISTORY_MAX_BYTES
    DEFAULT_LOGIN_WARNING_SECONDS.

(** One policy under the overrides of its adapter. *)
Definition apply_polling_interval (s : Settings) (p : QuotaPolicy) : QuotaPolicy :=
  match btree_get (polling_intervals s) (policy_adapter p) with
  | None => p
  | Some intervals =>
      mkQuotaPolicy (policy_adapter p)
        (unwrap_or (poll_timer_seconds intervals) (timer_seconds p))
        (unwrap_or (poll_panel_seconds intervals) (panel_seconds p))
        (probe_seconds p) (low_power p) (solo p)
  end.
Definition apply_polling_intervals (s : Settings) (policies : list QuotaPolicy) : list QuotaPolicy :=
  map (apply_polling_interval s) policies.

Definition within (lo hi z : Z) : bool := (lo <=? z) && (z <=? hi).

Definition ceiling_errors (s : Settings) : list SectionError :=
  map (λ '(field, _), mkSectionError field "ceiling" None)
    (List.filter (λ '(_, ok), negb ok)
      [("max_parallel", within 1 MAX_PARALLEL (max_parallel s));
       ("wall_budget_seconds", within 1 MAX_WALL_BUDGET_SECONDS (wall_budget_seconds s))]).

(** [i64::MAX as u64 / 4]: the scheduler multiplies by up to four. *)
Definition MAX_INTERVAL_SECONDS : Z := i64_max / 4.

Lemma MAX_INTERVAL_SECONDS_eq : MAX_INTERVAL_SECONDS = 2305843009213693951.
Proof. reflexivity. Qed.

Definition interval_errors (adapter : string) (i : PollingIntervals) : list SectionError :=
  (if component adapter then []
   else [mkSectionError ("polling_intervals." +:+ adapter) "adapter" None])
  ++ flat_map
       (λ '(field, seconds),
          if is_some_and seconds (λ n, (n =? 0) || (MAX_INTERVAL_SECONDS <? n))
          then [mkSectionError ("polling_intervals." +:+ adapter +:+ "." +:+ field) "interval" None]
          else [])
       [("timer_seconds", poll_timer_seconds i); ("panel_seconds", poll_panel_seconds i)].

Definition Settings_validate (s : Settings) : list SectionError :=
  ceiling_errors s
  ++ flat_map (λ '(adapter, i), interval_errors adapter i) (polling_intervals s)
  ++ (if within MIN_HISTORY_MAX_BYTES MAX_HISTORY_MAX_BYTES (history_max_bytes s) then []
      else [mkSectionError "history_max_bytes" "ceiling" None])
  ++ (if valid_icon (icon (display s)) then [] else [mkSectionError "display.icon" "icon" None])
  ++ flat_map (λ '(account, c),
       if negb (component account) || negb (Calibration_valid c)
       then [mkSectionError ("calibration." +:+ account) "calibration" None] else [])
       (calibration s).

(** ** What validation means *)

Definition interval_valid (seconds : option Z) : Prop :=
  ∀ n, seconds = Some n → n ≠ 0 ∧ n ≤ MAX_INTERVAL_SECONDS.

Record settings_valid (s : Settings) : Prop := {
  sv_parallel : 1 ≤ max_parallel s ≤ MAX_PARALLEL;
  sv_budget : 1 ≤ wall_budget_seconds s ≤ MAX_WALL_BUDGET_SECONDS;
  sv_polling : ∀ a i, (a, i) ∈ polling_intervals s →
    component a = true ∧ interval_valid (poll_timer_seconds i) ∧ interval_valid (poll_panel_seconds i);
  sv_history : MIN_HISTORY_MAX_BYTES ≤ history_max_bytes s ≤ MAX_HISTORY_MAX_BYTES;
  sv_icon : valid_icon (icon (display s)) = true;
  sv_calibration : ∀ a c, (a, c) ∈ calibration s →
    component a = true ∧ Calibration_valid c = true;
}.


Lemma singleton_error_nil {A} (b : bool) (x : A) : (if b then [] else [x]) = [] ↔ b = true.
Proof. by destruct b. Qed.
Lemma error_singleton_nil {A} (b : bool) (x : A) : (if b then [x] else []) = [] ↔ b = false.
Proof. by destruct b. Qed.

Lemma within_true lo hi z : within lo hi z = true ↔ lo ≤ z ≤ hi.
Proof. unfold within. rewrite andb_true_iff, !Z.leb_le. lia. Qed.

Lemma interval_errors_nil a i :
  interval_errors a i = [] ↔
  component a = true ∧ interval_valid (poll_timer_seconds i) ∧ interval_valid (poll_panel_seconds i).
Proof.
  unfold interval_errors, interval_valid. simpl.
  rewrite !app_nil, singleton_error_nil, !error_singleton_nil, !is_some_and_false.
  setoid_rewrite orb_false_iff. setoid_rewrite Z.eqb_neq. setoid_rewrite Z.ltb_ge. tauto.
Qed.

Lemma settings_validate_nil s : Settings_validate s = [] ↔ settings_valid s.
Proof.
  unfold Settings_validate, ceiling_errors. simpl.
  rewrite !app_nil, !flat_map_nil, !singleton_error_nil, within_true.
  assert ((map (λ '(field, _), mkSectionError field "ceiling" None)
     (if negb (within 1 MAX_PARALLEL (max_parallel s))
      then ("max_parallel", within 1 MAX_PARALLEL (max_parallel s))
        :: (if negb (within 1 MAX_WALL_BUDGET_SECONDS (wall_budget_seconds s))
            then [("wall_budget_seconds", within 1 MAX_WALL_BUDGET_SECONDS (wall_budget_seconds s))]
            else [])
      else if negb (within 1 MAX_WALL_BUDGET_SECONDS (wall_budget_seconds s))
           then [("wall_budget_seconds", within 1 MAX_WALL_BUDGET_SECONDS (wall_budget_seconds s))]
           else []) = []) ↔
    1 ≤ max_parallel s ≤ MAX_PARALLEL ∧ 1 ≤ wall_budget_seconds s ≤ MAX_WALL_BUDGET_SECONDS) as ->.
  { rewrite <-!within_true. destruct (within _ _ _), (within _ _ _); simpl; naive_solver. }
  split.
  - intros ((? & ?) & Hp & ? & ? & Hc). constructor; try done.
    + intros a i Hin. apply interval_errors_nil. exact (Hp (a, i) Hin).
    + intros a c Hin. specialize (Hc (a, c) Hin). simpl in Hc.
      rewrite error_singleton_nil, orb_false_iff, !negb_false_iff in Hc. done.
  - intros [? ? Hp ? ? Hc]. split_and!; try done; try lia.
    + intros [a i] Hin. apply interval_errors_nil. eauto.
    + intros [a c] Hin. rewrite error_singleton_nil, orb_false_iff, !negb_false_iff. eauto.
Qed.

(** ** Overrides keep the intervals multipliable

    A policy is bounded when four times each interval still fits the signed
    seconds the scheduler adds to a time. *)
Definition policy_bounded (p : QuotaPolicy) : Prop :=
  0 ≤ timer_seconds p ≤ MAX_INTERVAL_SECONDS ∧ 0 ≤ panel_seconds p ≤ MAX_INTERVAL_SECONDS.

(** The interval fields are [u64]. *)
Definition intervals_unsigned (s : Settings) : Prop :=
  ∀ a i n, (a, i) ∈ polling_intervals s →
    poll_timer_seconds i = Some n ∨ poll_panel_seconds i = Some n → 0 ≤ n.

Lemma apply_polling_intervals_bounded s policies :
  settings_valid s → intervals_unsigned s →
  Forall policy_bounded policies → Forall policy_bounded (apply_polling_intervals s policies).
Proof.
  intros Hs Hu. unfold apply_polling_intervals. rewrite List.Forall_map.
  intros Hb. eapply Forall_impl; [exact Hb|]. intros p [Ht Hpn]. unfold apply_polling_interval, btree_get.
  destruct (List.find _ _) as [[a i]|] eqn:E; [|done]. simpl.
  apply find_Some_elem in E as [Hin _].
  destruct (sv_polling s Hs a i Hin) as (_ & H1 & H2). unfold interval_valid in *.
  split; simpl.
  - destruct (poll_timer_seconds i) as [n|] eqn:En; simpl; [|done].
    pose proof (Hu a i n Hin (or_introl En)). destruct (H1 n eq_refl). lia.
  - destruct (poll_panel_seconds i) as [n|] eqn:En; simpl; [|done].
    pose proof (Hu a i n Hin (or_intror En)). destruct (H2 n eq_refl). lia.
Qed.
End Settings.

(** The quota policy of each registered adapter with a quota source. *)
Definition codex_policy : QuotaPolicy := mkQuotaPolicy "codex" 900 300 10 true false.
Definition claude_policy : QuotaPolicy := mkQuotaPolicy "claude" 300 120 14 true false.
Definition cursor_policy : QuotaPolicy := mkQuotaPolicy "cursor" 1800 600 14 true false.
Definition agy_policy : QuotaPolicy := mkQuotaPolicy "agy" 1200 900 30 false true.
Definition opencode_policy : QuotaPolicy := mkQuotaPolicy "opencode" 300 120 14 true false.

(** [quota_policies] on the registry: the command and host-native adapters have
    no quota source. *)
Definition quota_policies : list QuotaPolicy :=
  [codex_policy; claude_policy; cursor_policy; agy_policy; opencode_policy].

Lemma quota_policies_bounded : Forall policy_bounded quota_policies.
Proof.
  apply list.Forall_forall. intros p Hp. unfold quota_policies in Hp.
  rewrite !elem_of_cons, elem_of_nil in Hp. unfold policy_bounded, MAX_INTERVAL_SECONDS, i64_max.
  destruct Hp as [->|[->|[->|[->|[->|[]]]]]]; repeat split; by vm_compute.
Qed.
