(* ===== verification/QuotaSchedule.v ===== *)
(** * QuotaSchedule: when an account may be probed, and what a probe leaves

    Models the first half of [crates/quota/src/schedule.rs]: polling
    intervals, due times, backoff, and the two ends of a probe, [reserve] and
    [complete], which produce the compare-and-swap intents of
    [QuotaState]. *)

From stdpp Require Import base option list strings sets.
From S2P Require Import Prelude External CoreTime QuotaState QuotaSettings.

Local Open Scope string_scope.
Local Open Scope list_scope.
Local Open Scope Z_scope.
Local Open Scope rust_scope.

Inductive Trigger := Timer | Panel | Manual | Wake | TriggerPower.
#[export] Instance Trigger_eq_dec : EqDecision Trigger.
Proof. solve_decision. Defined.

Inductive Power := Ac | Battery | Low.
#[export] Instance Power_eq_dec : EqDecision Power.
Proof. solve_decision. Defined.

Definition add (now seconds : Z) : result QuotaError Z :=
  s ← ok_or (i64_try_from_u64 seconds) TimeRange;
  ok_or (checked_add_i64 now s) TimeRange.

Definition probe_deadline (tick_deadline started : Z) : result QuotaError Z :=
  claim_expiry ← add started TICK_BUDGET_SECONDS;
  Ok (Z.min tick_deadline (claim_expiry - 1)).

Definition power_factor (power : Power) : Z :=
  match power with Ac => 1 | Battery => 2 | Low => 4 end.

Definition interval (policies : list QuotaPolicy) (adapter : string) (trigger : Trigger)
    (power : Power) : option Z :=
  policy ← List.find (λ policy, policy_adapter policy == adapter) policies;
  if negb (low_power policy) && (power == Low) then None
  else
    let base :=
      match trigger with
      | Manual => 30
      | Panel => panel_seconds policy
      | _ => timer_seconds policy
      end in
    Some (wrapping_mul_u64 base (power_factor power)).

Definition backoff (failure : ProbeFailure) (failures : Z) (retry_after_seconds : option Z) : Z :=
  let base :=
    match failure with
    | Network | RateLimited =>
        let '(first, cap) := if failure == Network then (15, 300) else (120, 3600) in
        as_secs (delay (mkBackoff (from_secs first) 2 (from_secs cap))
                   (saturating_sub_u64 failures 1))
    | Auth | FailureLoginExpired | FailureAccountMismatch => 900
    | IsolatedKeychainUnavailable => 3600
    | MissingCli | FailureDisabled => 86400
    | Malformed | ProbeDirectory => 120
    end in
  Z.max base (Z.min (unwrap_or retry_after_seconds 0) 3600).

(** ** Intervals *)

Lemma add_Ok now seconds d :
  add now seconds = Ok d ↔
  d = now + seconds ∧ seconds ≤ i64_max ∧ i64_min ≤ now + seconds ≤ i64_max.
Proof.
  unfold add. rewrite result_bind_Ok. setoid_rewrite ok_or_Ok.
  setoid_rewrite i64_try_from_u64_Some. setoid_rewrite checked_add_i64_Some. naive_solver.
Qed.

Definition base_interval (policy : QuotaPolicy) (trigger : Trigger) : Z :=
  match trigger with
  | Manual => 30
  | Panel => panel_seconds policy
  | _ => timer_seconds policy
  end.

(** On bounded policies the multiplication does not wrap. *)
Lemma interval_Some policies adapter trigger power n :
  Forall policy_bounded policies →
  interval policies adapter trigger power = Some n →
  ∃ policy, policy ∈ policies ∧ policy_adapter policy = adapter ∧
    n = base_interval policy trigger * power_factor power ∧ 0 ≤ n ≤ i64_max.
Proof.
  intros Hb H. unfold interval in H. apply bind_Some in H as (p & Hp & H).
  apply find_Some_elem in Hp as [Hin Hp%bool_decide_eq_true].
  case_match; [done|]. injection H as <-. fold (base_interval p trigger).
  assert (0 ≤ base_interval p trigger ≤ MAX_INTERVAL_SECONDS) as Hi.
  { rewrite list.Forall_forall in Hb. destruct (Hb p Hin) as [? ?].
    rewrite MAX_INTERVAL_SECONDS_eq in *. destruct trigger; simpl; lia. }
  rewrite MAX_INTERVAL_SECONDS_eq in Hi.
  assert (1 ≤ power_factor power ≤ 4) by (destruct power; simpl; lia).
  rewrite wrapping_mul_u64_small; unfold i64_max, u64_max; [|nia].
  exists p. split_and!; try done; nia.
Qed.

(** With settings that pass validation no polling interval overflows: for
    the registered sources under any accepted override the interval the
    scheduler computes is the exact product of the policy's interval and the
    power factor, and it fits the signed seconds it is added to. *)
Theorem interval_never_overflows `{T : Jiff} s adapter trigger power n :
  Settings_validate s = [] → intervals_unsigned s →
  interval (apply_polling_intervals s quota_policies) adapter trigger power = Some n →
  ∃ policy, policy ∈ apply_polling_intervals s quota_policies ∧ policy_adapter policy = adapter ∧
    n = base_interval policy trigger * power_factor power ∧ 0 ≤ n ≤ i64_max.
Proof.
  intros Hs%settings_validate_nil Hu. apply interval_Some.
  apply apply_polling_intervals_bounded; auto using quota_policies_bounded.
Qed.

(** The largest accepted override, on battery saver. *)
Definition ex_settings : @Settings jiff_example :=
  @mkSettings jiff_example 3 55
    [("codex", mkPollingIntervals (Some 2305843009213693951) None)] Display_default []
    DEFAULT_HISTORY_MAX_BYTES 3600.

Lemma interval_never_overflows_witness :
  interval (apply_polling_intervals ex_settings quota_policies) "codex" Timer Low
    = Some 9223372036854775804 ∧
  9223372036854775804 ≤ i64_max.
Proof.
  split; [vm_compute; reflexivity|].
  assert (@intervals_unsigned jiff_example ex_settings) as Hu.
  { intros a i n Hin Hn. apply list_elem_of_singleton in Hin. injection Hin as -> ->.
    destruct Hn as [[= <-]|[=]]. by vm_compute. }
  destruct (interval_never_overflows (T := jiff_example) ex_settings "codex" Timer Low
              9223372036854775804 ltac:(vm_compute; reflexivity) Hu
              ltac:(vm_compute; reflexivity)) as (p & _ & _ & _ & _ & H).
  exact H.
Defined.

(** ** Backoff *)

Lemma delay_seconds f c a :
  1 ≤ f → f ≤ c → c ≤ 86400 → 0 ≤ a →
  as_secs (delay (mkBackoff (from_secs f) 2 (from_secs c)) a) = Z.min (f * 2 ^ a) c.
Proof.
  intros Hf Hfc Hc Ha. rewrite delay_closed_form; [|unfold Backoff_ok, from_secs, duration_max, u64_max; simpl; lia|done].
  unfold closed_form, as_secs, from_secs; simpl.
  replace (Z.min (f * 1000000000 * 2 ^ a) (c * 1000000000))
    with (Z.min (f * 2 ^ a) c * 1000000000) by lia.
  by rewrite Z.div_mul.
Qed.

(** The failure count grows the delay of the two transient failures. *)
Definition backoff_base (failure : ProbeFailure) (failures : Z) : Z :=
  match failure with
  | Network => Z.min (15 * 2 ^ saturating_sub_u64 failures 1) 300
  | RateLimited => Z.min (120 * 2 ^ saturating_sub_u64 failures 1) 3600
  | Auth | FailureLoginExpired | FailureAccountMismatch => 900
  | IsolatedKeychainUnavailable => 3600
  | MissingCli | FailureDisabled => 86400
  | Malformed | ProbeDirectory => 120
  end.

Lemma backoff_eq failure failures retry_after :
  backoff failure failures retry_after =
  Z.max (backoff_base failure failures) (Z.min (unwrap_or retry_after 0) 3600).
Proof.
  assert (0 ≤ saturating_sub_u64 failures 1) by (unfold saturating_sub_u64, clamp; lia).
  unfold backoff, backoff_base.
  destruct failure; try done; case_bool_decide; try done; by rewrite delay_seconds by lia.
Qed.

Lemma backoff_range failure failures retry_after :
  15 ≤ backoff failure failures retry_after ≤ 86400.
Proof.
  rewrite backoff_eq.
  assert (0 < 2 ^ saturating_sub_u64 failures 1).
  { apply Z.pow_pos_nonneg; [lia|]. unfold saturating_sub_u64, clamp. lia. }
  destruct failure; simpl; lia.
Qed.

Section Schedule.
Context {J : Json}.

(** The retry a user event asks for: it skips the interval and the backoff. *)
Definition event_auth_retry (record : AccountRecord) (trigger : Trigger) : bool :=
  auth_retry_pending record
  || ((trigger == Manual) && is_some_and (last_error record) needs_login).

Definition next_due (policies : list QuotaPolicy) (record : AccountRecord) (trigger : Trigger)
    (power : Power) : result QuotaError (option Z) :=
  match interval policies (adapter (account record)) trigger power with
  | None => Ok None
  | Some ttl =>
      let event := event_auth_retry record trigger in
      due ← match last_attempt record with
            | Some at_ => if negb event && (last_error record != Some Network)
                          then add at_ ttl else Ok i64_min
            | None => Ok i64_min
            end;
      let due := match backoff_until record with
                 | Some backoff => if negb event then Z.max due backoff else due
                 | None => due
                 end in
      let due := match claim record with
                 | Some claim => Z.max due (claim_deadline claim)
                 | None => due
                 end in
      Ok (Some due)
  end.

Definition trigger_for_readiness (policies : list QuotaPolicy) (record : option AccountRecord)
    (trigger : Trigger) (power : Power) (missing : bool) : result QuotaError Trigger :=
  match (if missing then record else None) with
  | None => Ok trigger
  | Some record =>
      normal ← next_due policies record trigger power;
      readiness ← next_due policies record Panel power;
      Ok (match normal, readiness with
          | Some normal, Some readiness => if readiness <? normal then Panel else trigger
          | _, _ => trigger
          end)
  end.

(** [current.cloned().unwrap_or_else(|| AccountRecord::empty(account))]. *)
Definition current_or_empty (current : option AccountRecord) (account : AccountScope) : AccountRecord :=
  match current with Some r => r | None => AccountRecord_empty account end.

(** Adopt the display label of [a] in the record and everything scoped to it. *)
Definition relabel (a : AccountScope) (record : AccountRecord) : AccountRecord :=
  set_capacity_cooldowns (set_cool_account a <$> capacity_cooldowns record)
    (set_refusals (set_ref_account a <$> refusals record)
      (set_snapshot (set_snap_account a <$> snapshot record)
        (set_account a record))).

Definition reserve (policies : list QuotaPolicy) (current : option AccountRecord)
    (account : AccountScope) (now : Z) (token : string) (trigger : Trigger) (power : Power)
    : result QuotaError UpdateIntent :=
  _ ← AccountScope_validate account;
  if negb (component token) then Err (Invalid "claim token") else
  let record := current_or_empty current account in
  _ ← AccountRecord_validate record;
  if adapter (QuotaState.account record) != adapter account then Err Conflict else
  if account_key (QuotaState.account record) != account_key account then Err Conflict else
  due ← next_due policies record trigger power;
  if is_none_or due (λ due, now <? due) then Err Conflict else
  let stored_account := QuotaState.account record in
  let record := relabel account record in
  bumped ← ok_or (checked_add_u64 (revision record) 1) NumberOutOfRange;
  let record := set_revision bumped record in
  deadline ← add now TICK_BUDGET_SECONDS;
  let record := set_claim (Some (mkRefreshClaim token deadline)) record in
  let record := set_backoff_until None record in
  let record := set_auth_retry_pending false record in
  let record := set_last_attempt (Some now) record in
  _ ← AccountRecord_validate record;
  Ok (mkUpdateIntent stored_account current (Some record) None None).

Definition complete (current : AccountRecord) (token : string) (now : Z)
    (outcome : result ProbeFailure QuotaSnapshot) (retry_after_seconds : option Z)
    : result QuotaError UpdateIntent :=
  _ ← AccountRecord_validate current;
  if is_none_or (last_attempt current) (λ t, now <? t)
     || is_none_or (claim current)
          (λ c, (QuotaState.token c != token) || (claim_deadline c <=? now))
  then Err Conflict else
  bumped ← ok_or (checked_add_u64 (revision current) 1) NumberOutOfRange;
  let next := set_claim None (set_revision bumped current) in
  next ← match outcome with
         | Ok snapshot =>
             _ ← QuotaSnapshot_validate snapshot;
             if (snap_account snapshot != account current) || (now <? observed snapshot)
                || is_some_and (last_attempt current) (λ at_, observed snapshot <? at_)
             then Err (Invalid "probe observation")
             else Ok (set_backoff_until None (set_last_error None (set_failures 0
                        (set_snapshot (Some (set_snap_revision bumped snapshot)) next))))
         | Err failure =>
             let next := if needs_login failure then set_auth_verified None next else next in
             let next := set_failures (saturating_add_u64 (failures next) 1) next in
             let next := if last_error current != Some FailureAccountMismatch
                         then set_last_error (Some failure) next else next in
             until ← add now (backoff failure (failures next) retry_after_seconds);
             Ok (set_backoff_until (Some until) next)
         end;
  _ ← AccountRecord_validate next;
  Ok (mkUpdateIntent (account current) (Some current) (Some next) None None).

(** ** Due times *)

Lemma next_due_Some policies record trigger power due :
  next_due policies record trigger power = Ok (Some due) →
  ∃ ttl, interval policies (adapter (account record)) trigger power = Some ttl ∧
    (∀ c, claim record = Some c → claim_deadline c ≤ due) ∧
    (event_auth_retry record trigger = false →
       (∀ b, backoff_until record = Some b → b ≤ due) ∧
       (∀ t, last_attempt record = Some t → last_error record ≠ Some Network → t + ttl ≤ due)).
Proof.
  unfold next_due. intros H.
  destruct (interval _ _ _ _) as [ttl|]; [|done]. exists ttl. split; [done|].
  apply result_bind_Ok in H as (d & Hd & [= <-]). split.
  - intros c ->. lia.
  - intros Hev. rewrite Hev in Hd |- *. simpl in *. split.
    + intros b ->. destruct (claim record); lia.
    + intros t Ht Hne. rewrite Ht, bool_decide_eq_false_2 in Hd by done. simpl in Hd.
      apply add_Ok in Hd as [-> _].
      destruct (backoff_until record), (claim record); lia.
Qed.

(** ** Reserving *)

Definition reserved (r : AccountRecord) (a : AccountScope) (now : Z) (tok : string) : AccountRecord :=
  mkAccountRecord (schema_version r) a (revision r + 1) (set_snap_account a <$> snapshot r)
    (Some (mkRefreshClaim tok (now + TICK_BUDGET_SECONDS))) (Some now) None (failures r)
    (last_error r) (auth_verified r) (credential_metadata r) false
    (set_ref_account a <$> refusals r) (set_cool_account a <$> capacity_cooldowns r).

Lemma set_snap_account_valid a s :
  scope_valid a → QuotaSnapshot_validate s = Ok tt →
  QuotaSnapshot_validate (set_snap_account a s) = Ok tt.
Proof. intros Ha. rewrite !snapshot_validate_Ok. simpl. naive_solver. Qed.

(** Adopting a label keeps everything scoped to the account valid. *)
Lemma reserved_valid r a now tok :
  record_valid r → scope_valid a → component tok = true →
  i64_min ≤ now + TICK_BUDGET_SECONDS ≤ i64_max → record_valid (reserved r a now tok).
Proof.
  intros Hr Ha Ht Hnow. constructor; simpl; eauto with rust.
  - intros c [= <-]. simpl. split; [done|]. exists now. split; [done|].
    unfold TICK_BUDGET_SECONDS, DEFAULT_WALL_BUDGET_SECONDS in *. lia.
  - intros b [=].
  - exact (rv_metadata r Hr).
  - destruct (rv_refusals r Hr) as [Hl Hx]. split; simpl.
    + unfold len in *. by rewrite length_fmap.
    + intros x (y & -> & Hy)%list_elem_of_fmap. specialize (Hx y Hy).
      unfold refusal_invalid in *. simpl. rewrite bool_decide_eq_true_2 by done.
      rewrite !orb_false_iff in *. tauto.
  - destruct (rv_cooldowns r Hr) as [Hl Hx]. split; simpl.
    + unfold len in *. by rewrite length_fmap.
    + intros x (y & -> & Hy)%list_elem_of_fmap. specialize (Hx y Hy).
      unfold cooldown_invalid in *. simpl. rewrite bool_decide_eq_true_2 by done.
      rewrite !orb_false_iff in *. tauto.
  - intros s (s' & Hs' & ->)%fmap_Some. destruct (rv_snapshot r Hr s' Hs') as (? & ? & ?).
    split_and!; simpl; [by apply set_snap_account_valid|done|lia].
Qed.

Lemma empty_valid a : scope_valid a → record_valid (AccountRecord_empty a).
Proof.
  intros Ha. constructor; simpl; try done.
  - split; [done|]. intros ? []%not_elem_of_nil.
  - split; [done|]. intros ? []%not_elem_of_nil.
  - split; [done|]. intros ? []%not_elem_of_nil.
Qed.

#[local] Opaque AccountScope_validate QuotaSnapshot_validate AccountRecord_validate.

Lemma reserve_Ok policies current a now tok trigger power intent :
  let record := current_or_empty current a in
  reserve policies current a now tok trigger power = Ok intent ↔
  scope_valid a ∧ component tok = true ∧ record_valid record ∧
  same_identity (account record) a ∧
  (∃ due, next_due policies record trigger power = Ok (Some due) ∧ due ≤ now) ∧
  0 ≤ revision record + 1 ≤ u64_max ∧ i64_min ≤ now + TICK_BUDGET_SECONDS ≤ i64_max ∧
  intent = mkUpdateIntent (account record) current (Some (reserved record a now tok)) None None.
Proof.
  intros record. unfold reserve. fold record.
  rewrite result_seq_Ok, result_guard_Ok, negb_false_iff, result_seq_Ok, validate_Ok.
  fold (scope_valid a).
  rewrite !result_guard_Ok, !negb_false_iff, !bool_decide_eq_true, result_bind_Ok.
  setoid_rewrite result_guard_Ok. setoid_rewrite is_none_or_false. setoid_rewrite result_bind_Ok.
  setoid_rewrite ok_or_Ok. setoid_rewrite checked_add_u64_Some. setoid_rewrite result_bind_Ok.
  setoid_rewrite add_Ok. setoid_rewrite result_seq_Ok. setoid_rewrite Z.ltb_ge.
  unfold same_identity. split.
  - intros (? & ? & ? & ? & ? & due & Hdue & (d & -> & ?) & b & [-> ?] & dl & (-> & ? & ?) & _ & [= <-]).
    simpl in *. split_and!; try done; [by exists d|lia..].
  - intros (Ha & Ht & Hr & [? ?] & (due & Hdue & ?) & ? & Hnow & ->).
    split_and!; try done. exists (Some due). split; [done|]. split; [by exists due|].
    eexists. split; [done|]. eexists. split; [split_and!; [done|by vm_compute|lia..]|].
    split; [|done]. apply validate_Ok. by refine (reserved_valid record a now tok _ _ _ _).
Qed.

(** [reserve] succeeds exactly when the account, the token and the stored
    record are valid, the record is of the same account and the account is
    due at [now] under this trigger (so neither a live claim nor a backoff
    holds it), and neither the revision nor the claim deadline overflows.  The
    intent then expects the record it was computed from and replaces it by the
    next revision with a fresh claim; the validation of the replacement never
    fails. *)
Theorem reserve_exact policies current a now tok trigger power intent :
  let record := current_or_empty current a in
  reserve policies current a now tok trigger power = Ok intent ↔
  scope_valid a ∧ component tok = true ∧ record_valid record ∧
  same_identity (account record) a ∧
  (∃ due, next_due policies record trigger power = Ok (Some due) ∧ due ≤ now) ∧
  0 ≤ revision record + 1 ≤ u64_max ∧ i64_min ≤ now + TICK_BUDGET_SECONDS ≤ i64_max ∧
  intent = mkUpdateIntent (account record) current (Some (reserved record a now tok)) None None.
Proof. apply reserve_Ok. Qed.

(** ** Completing *)

(** The probe of [tok] is the one in flight at [now]. *)
Definition live_claim (r : AccountRecord) (tok : string) (now : Z) : Prop :=
  ∃ c started, claim r = Some c ∧ last_attempt r = Some started ∧
    token c = tok ∧ started ≤ now < claim_deadline c.

Lemma live_claim_guard r tok now :
  (is_none_or (last_attempt r) (λ t, now <? t)
   || is_none_or (claim r) (λ c, (token c != tok) || (claim_deadline c <=? now))) = false ↔
  live_claim r tok now.
Proof.
  unfold live_claim. rewrite orb_false_iff, !is_none_or_false.
  setoid_rewrite orb_false_iff. setoid_rewrite negb_false_iff. setoid_rewrite bool_decide_eq_true.
  setoid_rewrite Z.leb_gt. setoid_rewrite Z.ltb_ge. naive_solver.
Qed.

Definition failed (r : AccountRecord) (now : Z) (f : ProbeFailure) (retry_after : option Z) : AccountRecord :=
  let n := saturating_add_u64 (failures r) 1 in
  mkAccountRecord (schema_version r) (account r) (revision r + 1) (snapshot r) None
    (last_attempt r) (Some (now + backoff f n retry_after)) n
    (if decide (last_error r = Some FailureAccountMismatch) then last_error r else Some f)
    (if needs_login f then None else auth_verified r) (credential_metadata r)
    (auth_retry_pending r) (refusals r) (capacity_cooldowns r).

Definition succeeded (r : AccountRecord) (s : QuotaSnapshot) : AccountRecord :=
  mkAccountRecord (schema_version r) (account r) (revision r + 1)
    (Some (set_snap_revision (revision r + 1) s)) None (last_attempt r) None 0 None
    (auth_verified r) (credential_metadata r) (auth_retry_pending r) (refusals r)
    (capacity_cooldowns r).

(** Records that differ in the probe's own fields only are valid together. *)
Lemma completed_valid r next :
  record_valid r → schema_version next = schema_version r → account next = account r →
  claim next = None → credential_metadata next = credential_metadata r →
  refusals next = refusals r → capacity_cooldowns next = capacity_cooldowns r →
  backoff_valid next → snapshot_valid next → record_valid next.
Proof.
  intros Hr H1 H2 H3 H4 H5 H6 Hb Hs. constructor; try done.
  - rewrite H2. eauto with rust.
  - rewrite H1. eauto with rust.
  - intros c Hc. congruence.
  - unfold metadata_valid. rewrite H4. exact (rv_metadata r Hr).
  - unfold refusals_valid. rewrite H2, H5. exact (rv_refusals r Hr).
  - unfold cooldowns_valid. rewrite H2, H6. exact (rv_cooldowns r Hr).
Qed.

(** The claim bounds the time of a completion, and the longest backoff is a
    day, so the recorded backoff is always one that [validate] accepts. *)
Lemma failed_valid r tok now f retry_after started :
  record_valid r → live_claim r tok now → last_attempt r = Some started →
  i64_min ≤ now → started + TICK_BUDGET_SECONDS + 86400 ≤ i64_max →
  record_valid (failed r now f retry_after).
Proof.
  intros Hr (c & t & Hc & Ht & _ & Hnow) Hst Hmin Hmax.
  rewrite Hst in Ht. injection Ht as <-.
  destruct (rv_claim r Hr c Hc) as (_ & t & Ht & ? & ?). rewrite Hst in Ht. injection Ht as <-.
  apply (completed_valid r); try done.
  - intros b Hb. simpl in Hb. injection Hb as <-. exists started. split; [done|].
    pose proof (backoff_range f (saturating_add_u64 (failures r) 1) retry_after).
    unfold TICK_BUDGET_SECONDS, DEFAULT_WALL_BUDGET_SECONDS in *. lia.
  - intros s Hs. destruct (rv_snapshot r Hr s Hs) as (? & ? & ?). simpl. split_and!; try done. lia.
Qed.

Lemma succeeded_valid r s :
  record_valid r → QuotaSnapshot_validate s = Ok tt → snap_account s = account r →
  record_valid (succeeded r s).
Proof.
  intros Hr Hs Ha. apply (completed_valid r); try done.
  intros s' [= <-]. split_and!; simpl; [|done..].
  rewrite snapshot_validate_Ok in Hs |- *. simpl. exact Hs.
Qed.

(** The record the failure branch builds, setter by setter. *)
Lemma failed_setters r now f retry_after (u : Z) :
  let next := set_claim None (set_revision (revision r + 1) r) in
  let next := if needs_login f then set_auth_verified None next else next in
  let next := set_failures (saturating_add_u64 (failures next) 1) next in
  let next := if last_error r != Some FailureAccountMismatch
              then set_last_error (Some f) next else next in
  backoff f (failures next) retry_after = backoff f (saturating_add_u64 (failures r) 1) retry_after ∧
  (u = now + backoff f (saturating_add_u64 (failures r) 1) retry_after →
   set_backoff_until (Some u) next = failed r now f retry_after).
Proof.
  unfold failed. destruct (needs_login f); case_bool_decide;
    rewrite ?decide_True, ?decide_False by done; simpl; split; try done; by intros ->.
Qed.

Lemma complete_failure_Ok current tok now retry_after intent f :
  i64_min ≤ now →
  complete current tok now (Err f) retry_after = Ok intent ↔
  record_valid current ∧ live_claim current tok now ∧ 0 ≤ revision current + 1 ≤ u64_max ∧
  (∃ started, last_attempt current = Some started ∧
     started + TICK_BUDGET_SECONDS + 86400 ≤ i64_max) ∧
  intent = mkUpdateIntent (account current) (Some current)
             (Some (failed current now f retry_after)) None None.
Proof.
  intros Hnow. unfold complete.
  rewrite result_seq_Ok, validate_Ok, result_guard_Ok, live_claim_guard, result_bind_Ok.
  setoid_rewrite ok_or_Ok. setoid_rewrite checked_add_u64_Some. split.
  - intros (Hr & Hl & b & [-> Hb] & H).
    apply result_bind_Ok in H as (next & H & Hv).
    apply result_bind_Ok in H as (u & Hu & [= <-]).
    destruct (failed_setters current now f retry_after u) as [Hbo Hset].
    rewrite Hbo in Hu. apply add_Ok in Hu as (Hu & _ & _). rewrite (Hset Hu) in Hv.
    apply result_seq_Ok in Hv as [Hv [= <-]]. apply validate_Ok in Hv.
    destruct (rv_backoff _ Hv _ eq_refl) as (t & Ht & _ & ? & _). split_and!; try done; [lia..|].
    exists t. split; [done|lia].
  - intros (Hr & Hl & Hb & (t & Ht & Hmax) & ->). split; [done|]. split; [done|].
    exists (revision current + 1). split; [done|].
    set (u := now + backoff f (saturating_add_u64 (failures current) 1) retry_after).
    destruct (failed_setters current now f retry_after u) as [Hbo Hset].
    rewrite Hbo.
    pose proof (failed_valid current tok now f retry_after t Hr Hl Ht Hnow Hmax) as Hv.
    destruct (rv_backoff _ Hv _ eq_refl) as (t' & Ht' & ? & ? & ?).
    pose proof (backoff_range f (saturating_add_u64 (failures current) 1) retry_after).
    rewrite (proj2 (add_Ok now (backoff f (saturating_add_u64 (failures current) 1) retry_after) u)).
    2:{ split; [done|]. unfold i64_max in *. lia. }
    simpl. fold u in Hset. rewrite (Hset eq_refl).
    apply validate_Ok in Hv. rewrite Hv. done.
Qed.

Lemma complete_success_Ok current tok now retry_after intent s :
  complete current tok now (Ok s) retry_after = Ok intent ↔
  record_valid current ∧ live_claim current tok now ∧ 0 ≤ revision current + 1 ≤ u64_max ∧
  QuotaSnapshot_validate s = Ok tt ∧ snap_account s = account current ∧
  (∃ started, last_attempt current = Some started ∧ started ≤ observed s ≤ now) ∧
  intent = mkUpdateIntent (account current) (Some current) (Some (succeeded current s)) None None.
Proof.
  unfold complete.
  rewrite result_seq_Ok, validate_Ok, result_guard_Ok, live_claim_guard, result_bind_Ok.
  setoid_rewrite ok_or_Ok. setoid_rewrite checked_add_u64_Some. split.
  - intros (Hr & Hl & b & [-> Hb] & H).
    apply result_bind_Ok in H as (next & H & Hv).
    rewrite result_seq_Ok, result_guard_Ok, !orb_false_iff, negb_false_iff, bool_decide_eq_true,
      Z.ltb_ge, is_some_and_false in H.
    destruct H as (? & ((? & ?) & Ho) & [= <-]). apply result_seq_Ok in Hv as [_ [= <-]].
    destruct (Hl) as (c & t & _ & Ht & _). specialize (Ho t Ht). apply Z.ltb_ge in Ho.
    split_and!; try done; [lia..|]. by exists t.
  - intros (Hr & Hl & Hb & Hs & Ha & (t & Ht & Ho) & ->). split; [done|]. split; [done|].
    exists (revision current + 1). split; [done|].
    rewrite Hs, Ht, Ha. simpl. rewrite bool_decide_eq_true_2 by done. simpl.
    destruct (Z.ltb_spec now (observed s)), (Z.ltb_spec (observed s) t); simpl; try lia.
    pose proof (succeeded_valid current s Hr Hs Ha) as Hv%validate_Ok.
    match goal with
    | |- context [AccountRecord_validate ?next] => change next with (succeeded current s)
    end.
    by rewrite Hv.
Qed.

(** [complete] is bound to the claim.  A failed probe is recorded exactly
    when the stored record is valid, the token is the one of the live claim
    and neither revision nor backoff deadline overflows; a snapshot is
    recorded exactly when it is also valid, of this account and observed
    between the reservation and now.  Either way the claim is gone, the
    revision is the next one, and the validation of the result never fails
    where the code's own checks passed; a failure never drops a recorded
    account mismatch, and a success clears it. *)
Theorem complete_exact current tok now retry_after intent (Hnow : i64_min ≤ now) :
  (∀ f, complete current tok now (Err f) retry_after = Ok intent ↔
     record_valid current ∧ live_claim current tok now ∧ 0 ≤ revision current + 1 ≤ u64_max ∧
     (∃ started, last_attempt current = Some started ∧
        started + TICK_BUDGET_SECONDS + 86400 ≤ i64_max) ∧
     intent = mkUpdateIntent (account current) (Some current)
                (Some (failed current now f retry_after)) None None) ∧
  (∀ s, complete current tok now (Ok s) retry_after = Ok intent ↔
     record_valid current ∧ live_claim current tok now ∧ 0 ≤ revision current + 1 ≤ u64_max ∧
     QuotaSnapshot_validate s = Ok tt ∧ snap_account s = account current ∧
     (∃ started, last_attempt current = Some started ∧ started ≤ observed s ≤ now) ∧
     intent = mkUpdateIntent (account current) (Some current)
                (Some (succeeded current s)) None None).
Proof.
  split; intros; [by apply complete_failure_Ok | by apply complete_success_Ok].
Qed.
End Schedule.

(** ** A probe of a concrete account *)

Definition ex_record : @AccountRecord json_example := AccountRecord_empty ex_account.
Definition ex_reserved : @AccountRecord json_example := reserved ex_record ex_account 1000 "tok".

Lemma complete_exact_witness :
  complete ex_reserved "tok" 1010 (Err Network) None =
  Ok (mkUpdateIntent ex_account (Some ex_reserved)
        (Some (failed ex_reserved 1010 Network None)) None None).
Proof.
  refine (proj2 (proj1 (complete_exact ex_reserved "tok" 1010 None _ _) Network) _).
  { by vm_compute. }
  split; [by apply validate_Ok|]. split.
  { exists (mkRefreshClaim "tok" 1055), 1000. split_and!; by vm_compute. }
  split; [by vm_compute|]. split; [|reflexivity].
  exists 1000. split; by vm_compute.
Defined.
