(* ===== verification/QuotaAdmission.v ===== *)
(** * QuotaAdmission: refusals, cooldowns and the admission check

    Models [crates/quota/src/admission.rs]: what a launch may use, given the
    persisted account records, and the two updates that record provider
    evidence. *)

From stdpp Require Import base option list strings gmap sets.
From S2P Require Import Prelude External Adapters Routes CoreTime QuotaState QuotaSettings QuotaSchedule.

Local Open Scope string_scope.
Local Open Scope list_scope.
Local Open Scope Z_scope.
Local Open Scope rust_scope.

Definition CLEAR_HEADROOM_BASIS_POINTS : Z := 9500.

Inductive AccountBlock := Mismatch | FreeTierRefusal | ScopedRefusal.
#[export] Instance AccountBlock_eq_dec : EqDecision AccountBlock.
Proof. solve_decision. Defined.

Definition exclusion_reason (b : AccountBlock) : RouteExclusionReason :=
  match b with
  | Mismatch => AccountMismatch
  | FreeTierRefusal => FreeTierRefused
  | ScopedRefusal => ProviderRefused
  end.
Definition repair (b : AccountBlock) : string := (diagnostic_parts (exclusion_reason b)).2.
Definition from_exclusion_reason (reason : RouteExclusionReason) : option AccountBlock :=
  List.find (λ block, exclusion_reason block == reason) [Mismatch; FreeTierRefusal; ScopedRefusal].

Inductive PartialHeadroom := Known | PartialUnknown | PartialExhausted.
#[export] Instance PartialHeadroom_eq_dec : EqDecision PartialHeadroom.
Proof. solve_decision. Defined.

(** The keyless free pool an adapter draws on, if it has one. *)
Definition free_pool (adapter : string) : option string :=
  get adapter ≫= Adapters.free_pool.

Definition matches_pool (adapter window pool : string) : bool :=
  (window == pool)
  || is_some_and (get adapter) (λ spec,
       grouped_quota_pools spec && window_serves_pool spec window (Some pool)).

(** [matches!(status, Available | CreditOnly | Exhausted)]. *)
Definition comparable_status (st : QuotaStatus) : bool :=
  match st with Available | CreditOnly | StatusExhausted => true | _ => false end.

Definition is_partial (d : option QuotaDetails) : bool :=
  is_some_and d (λ d, coverage d == Some "partial").

Definition calibrated (d : option QuotaDetails) (pool : string) (now : Z) : bool :=
  is_some_and d (λ d, calibration_active d pool now).

(** The windows that govern a model. *)
Definition relevant_window (adapter model : string) (pools : list string) (w : QuotaWindow) : bool :=
  let allowance_windows :=
    match get adapter with
    | Some spec =>
        if is_some_and (allowance_prefix spec) (starts_with model)
        then allowance_windows spec else []
    | None => []
    end in
  existsb (λ p, matches_pool adapter (pool w) p) pools
  || bool_decide (pool w ∈ allowance_windows).

Definition partial_headroom (snapshot : QuotaSnapshot) (adapter model : string)
    (pools : list string) (now : Z) : PartialHeadroom :=
  let relevant := relevant_window adapter model pools in
  let partial := is_partial (details snapshot) in
  if (comparable_status (status snapshot) || ((status snapshot == StatusUnknown) && partial))
     && existsb (λ w,
          (10000 <=? used_basis_points w)
          && (partial || is_none_or (resets w) (λ r, now <? r)
              || calibrated (details snapshot) (pool w) now))
        (List.filter relevant (windows snapshot))
  then PartialExhausted
  else if partial
          && existsb (λ w, negb (calibrated (details snapshot) (pool w) now))
               (List.filter relevant (windows snapshot))
  then PartialUnknown
  else Known.

Section Admission.
Context {J : Json}.

Record Admission := mkAdmission {
  policies : list QuotaPolicy;
  now_unix_seconds : Z;
  records : list AccountRecord;
  pools : list string;
}.

Definition fresh_snapshot (self : Admission) (adapter : string) (record : option AccountRecord)
    : option QuotaSnapshot :=
  s ← (record ≫= snapshot);
  if (observed s <=? now_unix_seconds self)
     && (saturating_sub_i64 (now_unix_seconds self) (observed s)
         <? u64_as_i64 (unwrap_or (interval (policies self) adapter Timer Ac) 0))
  then Some s else None.

(** A window of the refusal's pool that proves headroom. *)
Definition clears_window (now : Z) (s : QuotaSnapshot) (w : QuotaWindow) : bool :=
  (used_basis_points w <? CLEAR_HEADROOM_BASIS_POINTS)
  && is_none_or (details s) (λ d,
       (coverage d != Some "partial") || calibration_active d (pool w) now).

Definition comparable_newer (self : Admission) (adapter : string) (record : option AccountRecord)
    (refusal : Refusal) : bool :=
  is_some_and record (λ r, is_none (last_error r))
  && is_some_and (fresh_snapshot self adapter record) (λ s,
       (ref_observed refusal <? observed s) && comparable_status (status s)
       && is_some_and (ref_pool refusal) (λ p,
            let ws := List.filter (λ w, matches_pool adapter (pool w) p) (windows s) in
            negb (bool_decide (ws = []))
            && forallb (clears_window (now_unix_seconds self) s) ws)).

Definition refusal_holds (self : Admission) (adapter : string) (record : option AccountRecord)
    (refusal : Refusal) : result QuotaError bool :=
  expires ← ref_expires refusal;
  Ok ((now_unix_seconds self <? expires) && negb (comparable_newer self adapter record refusal)).

Definition find_record (l : list AccountRecord) (adapter account_key : string) : option AccountRecord :=
  List.find (λ r, (QuotaState.adapter (account r) == adapter)
                  && (QuotaState.account_key (account r) == account_key)) l.

(** [free.is_some() && pool == free]. *)
Definition in_free (free pool : option string) : bool := is_some free && (pool == free).

(** The loop over the refusals that may block [model]. *)
Fixpoint first_block (self : Admission) (adapter account_key model : string)
    (record : option AccountRecord) (l : list Refusal) : result QuotaError (option AccountBlock) :=
  match l with
  | [] => Ok None
  | r :: l' =>
      let free := free_pool adapter in
      if (QuotaState.adapter (ref_account r) == adapter)
         && (QuotaState.account_key (ref_account r) == account_key)
         && ((ref_model r == model)
             || (in_free free (ref_pool r) && existsb (λ pool, Some pool == free) (pools self)))
      then
        holds ← refusal_holds self adapter record r;
        if holds
           && ((in_free free (ref_pool r) && (ref_model r == model))
               || is_none_or (ref_pool r) (λ p, bool_decide (p ∈ pools self)))
        then Ok (Some (if in_free free (ref_pool r) then FreeTierRefusal else ScopedRefusal))
        else first_block self adapter account_key model record l'
      else first_block self adapter account_key model record l'
  end.

Definition account_block (self : Admission) (adapter account_key model : string)
    : result QuotaError (option AccountBlock) :=
  match find_record (records self) adapter account_key with
  | None => Ok None
  | Some r =>
      _ ← AccountRecord_validate r;
      if last_error r == Some FailureAccountMismatch then Ok (Some Mismatch)
      else first_block self adapter account_key model (Some r) (refusals r)
  end.

Definition check_with_partial_headroom (self : Admission) (route : ResolvedRoute)
    (allow_unknown : bool) : result QuotaError unit :=
  if negb (match readiness route with
           | Ready _ _ expires => now_unix_seconds self <? expires
           | _ => false
           end)
  then Err (Refused "provider readiness") else
  key ← ok_or (route_account_key route) (Refused "account identity unknown");
  block ← account_block self (route_adapter route) key (route_model route);
  match block with
  | Some block => Err (Refused (repair block))
  | None =>
      let record := find_record (records self) (route_adapter route) key in
      match fresh_snapshot self (route_adapter route) record with
      | None => Ok tt
      | Some snapshot =>
          if status snapshot == StatusAuthRequired
          then Err (Refused "authentication required; sign in to the selected account")
          else match partial_headroom snapshot (route_adapter route) (route_model route)
                       (pools self) (now_unix_seconds self) with
               | PartialExhausted => Err (Refused "allowance exhausted")
               | PartialUnknown =>
                   if negb allow_unknown then Err (Refused "uncalibrated partial coverage") else Ok tt
               | Known => Ok tt
               end
      end
  end.

Definition admission_check (self : Admission) (route : ResolvedRoute) : result QuotaError unit :=
  check_with_partial_headroom self route false.

(** ** Recording provider evidence *)

Definition record_capacity_cooldown (current : option AccountRecord) (account : AccountScope)
    (model : string) (now duration_seconds : Z) : result QuotaError (option UpdateIntent) :=
  if duration_seconds =? 0 then Ok None else
  _ ← AccountScope_validate account;
  model ← ok_or (strip_prefix (adapter account +:+ "/") model) (Invalid "capacity model");
  if str_is_empty model || (256 <? str_len model) || has_control model
  then Err (Invalid "capacity model") else
  if is_some_and current (λ r, QuotaState.account r != account) then Err Conflict else
  seconds ← ok_or (i64_try_from_u64 duration_seconds) TimeRange;
  expires ← ok_or (checked_add_i64 now seconds) TimeRange;
  if expires <=? now then Err (Invalid "capacity duration") else
  let record := current_or_empty current account in
  _ ← AccountRecord_validate record;
  bumped ← ok_or (checked_add_u64 (revision record) 1) NumberOutOfRange;
  let record := set_revision bumped record in
  let extra :=
    unwrap_or (cool_extra <$> List.find (λ c, cool_model c == model) (capacity_cooldowns record)) ∅ in
  let kept :=
    List.filter (λ c, (cool_model c != model) && (now <? cool_expires c)) (capacity_cooldowns record) in
  if MAX_WINDOWS <=? len kept then Err (Invalid "capacity bound") else
  let record :=
    set_capacity_cooldowns (kept ++ [mkCapacityCooldown extra account model now expires]) record in
  _ ← AccountRecord_validate record;
  Ok (Some (mkUpdateIntent account current (Some record) None None)).

Definition record_refusal (current : option AccountRecord) (account : AccountScope) (model : string)
    (pool : option string) (now : Z) (resets : option Z) : result QuotaError UpdateIntent :=
  _ ← AccountScope_validate account;
  let prefix := adapter account +:+ "/" in
  if negb (starts_with model prefix) || (512 <? str_len model) || has_control model
     || is_some_and pool (λ p, str_is_empty p || (256 <? str_len p) || has_control p)
     || is_some_and resets (λ r, r <=? now)
  then Err (Invalid "provider refusal") else
  model ← ok_or (strip_prefix prefix model) (Invalid "provider refusal model");
  if is_some_and current (λ r, QuotaState.account r != account) then Err Conflict else
  let record := current_or_empty current account in
  _ ← AccountRecord_validate record;
  bumped ← ok_or (checked_add_u64 (revision record) 1) NumberOutOfRange;
  let record := set_revision bumped record in
  let extra :=
    unwrap_or (ref_extra <$>
      List.find (λ r, (ref_model r == model) && (ref_pool r == pool)) (refusals record)) ∅ in
  let kept :=
    List.filter (λ r, (ref_model r != model) || (ref_pool r != pool)) (refusals record) in
  if MAX_WINDOWS <=? len kept then Err (Invalid "provider refusal bound") else
  let record := set_refusals (kept ++ [mkRefusal extra account model pool now resets]) record in
  _ ← AccountRecord_validate record;
  Ok (mkUpdateIntent account current (Some record) None None).

(** ** Blocks *)

#[local] Opaque AccountScope_validate QuotaSnapshot_validate AccountRecord_validate.

Lemma find_record_Some l ad key r :
  find_record l ad key = Some r → r ∈ l ∧ adapter (account r) = ad ∧ account_key (account r) = key.
Proof.
  intros [Hin H]%find_Some_elem. rewrite andb_true_iff, !bool_decide_eq_true in H. tauto.
Qed.

(** The scope of a refusal: its own model, when it names no pool, a verified
    pool or the free pool; and every model of the free pool. *)
Definition refusal_relevant (self : Admission) (adapter model : string) (r : Refusal) : Prop :=
  (ref_model r = model ∧
     (ref_pool r = None ∨ (∃ p, ref_pool r = Some p ∧ p ∈ pools self) ∨
      in_free (free_pool adapter) (ref_pool r) = true)) ∨
  (in_free (free_pool adapter) (ref_pool r) = true ∧
     ∃ p, free_pool adapter = Some p ∧ p ∈ pools self).

(** A refusal that has not expired and that no fresh reading of its pool
    clears. *)
Definition refusal_live (self : Admission) (adapter : string) (record : AccountRecord) (r : Refusal) : Prop :=
  ∃ e, ref_expires r = Ok e ∧ now_unix_seconds self < e ∧
       comparable_newer self adapter (Some record) r = false.

Definition expiry_known (r : Refusal) : Prop := ∃ e, ref_expires r = Ok e.

Lemma in_free_true free p : in_free free p = true ↔ ∃ f, free = Some f ∧ p = Some f.
Proof.
  unfold in_free. rewrite andb_true_iff, is_some_true, bool_decide_eq_true. naive_solver.
Qed.

(** The two conditions of the loop together. *)
Lemma relevant_guard self ad model r :
  refusal_relevant self ad model r ↔
  ((ref_model r == model)
   || (in_free (free_pool ad) (ref_pool r)
       && existsb (λ pool, Some pool == free_pool ad) (pools self))) = true ∧
  ((in_free (free_pool ad) (ref_pool r) && (ref_model r == model))
   || is_none_or (ref_pool r) (λ p, bool_decide (p ∈ pools self))) = true.
Proof.
  unfold refusal_relevant.
  rewrite !orb_true_iff, !andb_true_iff, !bool_decide_eq_true, existsb_elem, is_none_or_true.
  setoid_rewrite bool_decide_eq_true. split.
  - intros [[-> [->|[(p & -> & Hp)|Hf]]]|[Hf (p & Hfp & Hp)]].
    + split; [by left|]. by right.
    + split; [by left|]. right. by intros ? [= <-].
    + split; [by left|]. by left.
    + split; [right; split; [done|]; by exists p|].
      right. apply in_free_true in Hf as (f & Hf & ->). intros q [= <-]. congruence.
  - intros [[Hm|[Hf (p & Hp & Hfp)]] H2].
    + left. split; [done|]. destruct H2 as [[Hf _]|Hn]; [auto|].
      destruct (ref_pool r) as [q|]; [|by left]. right; left. exists q. auto.
    + right. split; [done|]. by exists p.
Qed.

Lemma refusal_holds_true self ad record r :
  refusal_holds self ad (Some record) r = Ok true ↔ refusal_live self ad record r.
Proof.
  unfold refusal_holds, refusal_live. rewrite result_bind_Ok. split.
  - intros (e & He & [= H]). rewrite andb_true_iff, negb_true_iff, Z.ltb_lt in H.
    exists e. tauto.
  - intros (e & He & Hn & Hc). exists e. split; [done|]. f_equal.
    rewrite Hc, andb_true_r. by apply Z.ltb_lt.
Qed.

(** The block a refusal of the list surfaces as. *)
Definition block_of (ad : string) (r : Refusal) : AccountBlock :=
  if in_free (free_pool ad) (ref_pool r) then FreeTierRefusal else ScopedRefusal.

Definition blocking (self : Admission) (ad model : string) (record : AccountRecord) (r : Refusal) : Prop :=
  refusal_relevant self ad model r ∧ refusal_live self ad record r.

(** One round of the loop. *)
Lemma first_block_cons self ad key model record r l :
  expiry_known r → adapter (ref_account r) = ad → account_key (ref_account r) = key →
  (blocking self ad model record r ∧
     first_block self ad key model (Some record) (r :: l) = Ok (Some (block_of ad r))) ∨
  (¬ blocking self ad model record r ∧
     first_block self ad key model (Some record) (r :: l) =
     first_block self ad key model (Some record) l).
Proof.
  intros [e He] Had Hkey. unfold blocking. rewrite relevant_guard, <-refusal_holds_true.
  simpl. rewrite (bool_decide_eq_true_2 _ Had), (bool_decide_eq_true_2 _ Hkey). simpl.
  unfold block_of.
  destruct ((ref_model r == model) || _) eqn:E1; simpl; [|right; split; [naive_solver|done]].
  unfold refusal_holds. rewrite He. simpl.
  destruct ((now_unix_seconds self <? e) && _) eqn:E2; simpl; [|right; split; [naive_solver|done]].
  destruct ((in_free _ _ && _) || _) eqn:E3; simpl;
    [left; split; [naive_solver|done] | right; split; [naive_solver|done]].
Qed.

(** The loop finds the first refusal that blocks. *)
Lemma first_block_spec self ad key model record l :
  (∀ r, r ∈ l → expiry_known r ∧ adapter (ref_account r) = ad ∧ account_key (ref_account r) = key) →
  (first_block self ad key model (Some record) l = Ok None ∧
     ∀ r, r ∈ l → ¬ blocking self ad model record r) ∨
  (∃ r, r ∈ l ∧ blocking self ad model record r ∧
     first_block self ad key model (Some record) l = Ok (Some (block_of ad r))).
Proof.
  induction l as [|r l IH]; intros Hl.
  { left. split; [done|]. intros r Hr. by apply not_elem_of_nil in Hr. }
  destruct (Hl r) as (He & Had & Hkey); [set_solver|].
  destruct (first_block_cons self ad key model record r l He Had Hkey) as [[Hb Heq]|[Hb Heq]].
  - right. exists r. split; [set_solver|done].
  - rewrite Heq. destruct IH as [[IH Hno]|(x & Hx & IH)]; [set_solver|left|right].
    + split; [done|]. intros x [->|Hx]%elem_of_cons; auto.
    + exists x. split; [set_solver|done].
Qed.

(** On the record of an account the block admission sees is exactly the
    evidence in it.  The account is free exactly when its sign-in matches and
    no live refusal covers the model; a mismatch wins over refusals; and a
    refusal that surfaces is one of the record, live and in scope, reported as
    a free-tier refusal exactly when it is of the adapter's free pool. *)
Theorem account_block_exact self ad key model r :
  find_record (records self) ad key = Some r → record_valid r →
  (∀ x, x ∈ refusals r → expiry_known x) →
  ∃ block, account_block self ad key model = Ok block ∧
    (block = None ↔ last_error r ≠ Some FailureAccountMismatch ∧
                    ∀ x, x ∈ refusals r → ¬ blocking self ad model r x) ∧
    (block = Some Mismatch ↔ last_error r = Some FailureAccountMismatch) ∧
    (∀ b, block = Some b → b ≠ Mismatch →
       ∃ x, x ∈ refusals r ∧ blocking self ad model r x ∧ b = block_of ad x).
Proof.
  intros Hf Hr He. destruct (find_record_Some _ _ _ _ Hf) as (_ & Had & Hkey).
  unfold account_block. rewrite Hf, (proj2 (validate_Ok r) Hr). simpl.
  case_bool_decide as Hm.
  { exists (Some Mismatch). split_and!; naive_solver. }
  destruct (first_block_spec self ad key model r (refusals r)) as [[-> Hno]|(x & Hx & Hb & ->)].
  - intros x Hx. destruct (rv_refusals r Hr) as [_ Hall]. specialize (Hall x Hx).
    unfold refusal_invalid in Hall.
    rewrite !orb_false_iff, negb_false_iff, bool_decide_eq_true in Hall.
    destruct Hall as (((-> & _) & _) & _). auto.
  - exists None. split_and!; naive_solver.
  - exists (Some (block_of ad x)).
    assert (block_of ad x ≠ Mismatch) by (unfold block_of; by case_match).
    split_and!; [done|naive_solver|naive_solver|]. intros b [= <-] _. eauto.
Qed.

(** ** Headroom *)

(** A relevant window that refuses the launch. *)
Definition exhausted_window (s : QuotaSnapshot) (now : Z) (w : QuotaWindow) : Prop :=
  (comparable_status (status s) = true ∨ (status s = StatusUnknown ∧ is_partial (details s) = true)) ∧
  10000 ≤ used_basis_points w ∧
  (is_partial (details s) = true ∨ (∀ t, resets w = Some t → now < t) ∨
   calibrated (details s) (pool w) now = true).

Lemma partial_headroom_exhausted s ad model ps now :
  partial_headroom s ad model ps now = PartialExhausted ↔
  ∃ w, w ∈ windows s ∧ relevant_window ad model ps w = true ∧ exhausted_window s now w.
Proof.
  unfold partial_headroom, exhausted_window.
  trans ((comparable_status (status s) || ((status s == StatusUnknown) && is_partial (details s)))
     && existsb (λ w,
          (10000 <=? used_basis_points w)
          && (is_partial (details s) || is_none_or (resets w) (λ r, now <? r)
              || calibrated (details s) (pool w) now))
        (List.filter (relevant_window ad model ps) (windows s)) = true).
  { destruct (_ && existsb _ _); [done|]. case_match; done. }
  rewrite andb_true_iff, orb_true_iff, andb_true_iff, bool_decide_eq_true, existsb_elem.
  setoid_rewrite bfilter_elem. setoid_rewrite andb_true_iff. setoid_rewrite orb_true_iff.
  setoid_rewrite orb_true_iff. setoid_rewrite is_none_or_true. setoid_rewrite Z.leb_le.
  setoid_rewrite Z.ltb_lt. naive_solver.
Qed.

Lemma partial_headroom_unknown s ad model ps now :
  partial_headroom s ad model ps now = PartialUnknown ↔
  partial_headroom s ad model ps now ≠ PartialExhausted ∧ is_partial (details s) = true ∧
  ∃ w, w ∈ windows s ∧ relevant_window ad model ps w = true ∧
       calibrated (details s) (pool w) now = false.
Proof.
  unfold partial_headroom. destruct (_ && existsb _ _); [naive_solver|].
  destruct (is_partial (details s)); simpl; [|naive_solver].
  destruct (existsb _ _) eqn:E.
  - apply existsb_elem in E as (w & [Hw Hr]%bfilter_elem & Hc%negb_true_iff). naive_solver.
  - rewrite existsb_false_elem in E. split; [done|]. intros (_ & _ & w & Hw & Hr & Hc).
    specialize (E w). rewrite bfilter_elem, Hc in E. naive_solver.
Qed.

(** What a fresh reading of the account must show for a launch. *)
Definition admissible (self : Admission) (ad model : string) (allow_unknown : bool)
    (s : QuotaSnapshot) : Prop :=
  status s ≠ StatusAuthRequired ∧
  (∀ w, w ∈ windows s → relevant_window ad model (pools self) w = true →
     ¬ exhausted_window s (now_unix_seconds self) w) ∧
  (allow_unknown = false → is_partial (details s) = true →
     ∀ w, w ∈ windows s → relevant_window ad model (pools self) w = true →
       calibrated (details s) (pool w) (now_unix_seconds self) = true).

Lemma headroom_admissible self ad model allow s :
  match partial_headroom s ad model (pools self) (now_unix_seconds self) with
  | PartialExhausted => Err (Refused "allowance exhausted")
  | PartialUnknown => if negb allow then Err (Refused "uncalibrated partial coverage") else Ok tt
  | Known => Ok tt
  end = Ok tt ∧ status s ≠ StatusAuthRequired ↔ admissible self ad model allow s.
Proof.
  pose proof (partial_headroom_exhausted s ad model (pools self) (now_unix_seconds self)) as He.
  pose proof (partial_headroom_unknown s ad model (pools self) (now_unix_seconds self)) as Hu.
  unfold admissible.
  destruct (partial_headroom _ _ _ _ _).
  - split; [|naive_solver]. intros [_ Ha]. split_and!; [done| |].
    + intros w Hw Hr Hx. assert (Known = PartialExhausted) by (apply He; eauto). done.
    + intros -> Hp w Hw Hr. destruct (calibrated _ _ _) eqn:Hc; [done|].
      assert (Known = PartialUnknown) by (apply Hu; eauto 10). done.
  - destruct Hu as [Hu _]. destruct (Hu eq_refl) as (_ & Hp & w & Hw & Hr & Hc).
    destruct allow; simpl.
    + split; [|naive_solver]. intros [_ Ha]. split_and!; [done| |done].
      intros w' Hw' Hr' Hx. assert (PartialUnknown = PartialExhausted) by (apply He; eauto). done.
    + split; [naive_solver|]. intros (_ & _ & H). specialize (H eq_refl Hp w Hw Hr). congruence.
  - destruct He as [He _]. destruct (He eq_refl) as (w & Hw & Hr & Hx). naive_solver.
Qed.

(** C27: admission fails closed.  A route passes exactly when its readiness is
    observed and unexpired, its account is known and free of blocks, and any
    fresh reading of the account neither asks for a login nor shows a
    governing window exhausted; windows of partial coverage must also be
    calibrated unless the caller allows unknown headroom, which never admits
    an exhausted window. *)
Theorem admission_exact self route allow_unknown :
  check_with_partial_headroom self route allow_unknown = Ok tt ↔
  (∃ extra ref expires, readiness route = Ready extra ref expires ∧ now_unix_seconds self < expires) ∧
  ∃ key, route_account_key route = Some key ∧
    account_block self (route_adapter route) key (route_model route) = Ok None ∧
    ∀ s, fresh_snapshot self (route_adapter route)
           (find_record (records self) (route_adapter route) key) = Some s →
         admissible self (route_adapter route) (route_model route) allow_unknown s.
Proof.
  unfold check_with_partial_headroom. rewrite result_guard_Ok, negb_false_iff, result_bind_Ok.
  assert (match readiness route with
          | Ready _ _ expires => now_unix_seconds self <? expires
          | Unavailable _ _ => false
          end = true ↔
          ∃ extra ref expires, readiness route = Ready extra ref expires ∧
            now_unix_seconds self < expires) as ->.
  { destruct (readiness route); [rewrite Z.ltb_lt|]; naive_solver. }
  apply and_iff_compat_l. setoid_rewrite ok_or_Ok. setoid_rewrite result_bind_Ok.
  split.
  - intros (key & Hk & [b|] & Hb & H); [done|]. exists key. split; [done|]. split; [done|].
    intros s Hs. rewrite Hs in H. rewrite result_guard_Ok, bool_decide_eq_false in H.
    apply headroom_admissible. tauto.
  - intros (key & Hk & Hb & Hs). exists key. split; [done|]. exists None. split; [done|].
    destruct (fresh_snapshot _ _ _) as [s|]; [|done].
    specialize (Hs s eq_refl). apply headroom_admissible in Hs.
    rewrite result_guard_Ok, bool_decide_eq_false. tauto.
Qed.

(** ** Recording a refusal *)

Definition with_refusal (r : AccountRecord) (a : AccountScope) (m : string) (p : option string)
    (now : Z) (resets : option Z) : AccountRecord :=
  let same (x : Refusal) := (ref_model x == m) && (ref_pool x == p) in
  set_refusals
    (List.filter (λ x, (ref_model x != m) || (ref_pool x != p)) (refusals r)
     ++ [mkRefusal (unwrap_or (ref_extra <$> List.find same (refusals r)) ∅) a m p now resets])
    (set_revision (revision r + 1) r).

(** A bumped revision and other evidence lists keep a record valid. *)
Lemma evidence_valid r rev refs cools :
  record_valid r → revision r ≤ rev →
  len refs ≤ MAX_WINDOWS → (∀ x, x ∈ refs → refusal_invalid (account r) x = false) →
  len cools ≤ MAX_WINDOWS → (∀ x, x ∈ cools → cooldown_invalid (account r) x = false) →
  record_valid (set_capacity_cooldowns cools (set_refusals refs (set_revision rev r))).
Proof.
  intros Hr Hrev ? ? ? ?. constructor; simpl; eauto with rust; [..|done|done|].
  - exact (rv_claim r Hr).
  - exact (rv_backoff r Hr).
  - exact (rv_metadata r Hr).
  - intros s Hs. destruct (rv_snapshot r Hr s Hs) as (? & ? & ?). simpl. split_and!; try done. lia.
Qed.

Lemma filter_keep_elem {A} (p : A → bool) l y x : x ∈ List.filter p l ++ [y] → x ∈ l ∨ x = y.
Proof. rewrite elem_of_app, bfilter_elem. set_solver. Qed.

Lemma length_snoc_bound {A} (l : list A) y : len (l ++ [y]) = len l + 1.
Proof. unfold len. rewrite length_app. simpl. lia. Qed.

Lemma current_account_guard current a :
  is_some_and current (λ r, account r != a) = false ↔ account (current_or_empty current a) = a.
Proof.
  rewrite is_some_and_false. setoid_rewrite negb_false_iff. setoid_rewrite bool_decide_eq_true.
  destruct current; naive_solver.
Qed.

(** The scope and time of a refusal the recorder accepts. *)
Record refusal_accepts (a : AccountScope) (model : string) (p : option string) (now : Z)
    (resets : option Z) (m : string) : Prop := {
  ra_scope : scope_valid a;
  ra_model : model = (adapter a +:+ "/") +:+ m;
  ra_length : str_len model ≤ 512;
  ra_control : has_control model = false;
  ra_pool : ∀ q, p = Some q → q ≠ EmptyString ∧ str_len q ≤ 256 ∧ has_control q = false;
  ra_resets : ∀ t, resets = Some t → now < t;
}.

Lemma refusal_accepts_guard a model p now resets :
  (negb (starts_with model (adapter a +:+ "/")) || (512 <? str_len model) || has_control model
   || is_some_and p (λ p, str_is_empty p || (256 <? str_len p) || has_control p)
   || is_some_and resets (λ r, r <=? now)) = false ∧ scope_valid a ↔
  ∃ m, refusal_accepts a model p now resets m.
Proof.
  rewrite !orb_false_iff, negb_false_iff, !is_some_and_false, Z.ltb_ge. unfold starts_with.
  rewrite is_some_true. setoid_rewrite strip_prefix_Some. setoid_rewrite orb_false_iff.
  setoid_rewrite orb_false_iff. setoid_rewrite str_is_empty_false. setoid_rewrite Z.ltb_ge.
  setoid_rewrite Z.leb_gt. split.
  - intros ((((((m & Hm) & ?) & ?) & ?) & ?) & ?). exists m. constructor; naive_solver.
  - intros (m & [? ? ? ? ? ?]). split_and!; try done; [by exists m|naive_solver].
Qed.

Lemma with_refusal_elem r a m p now resets :
  ∃ extra, mkRefusal extra a m p now resets ∈ refusals (with_refusal r a m p now resets).
Proof. eexists. apply elem_of_app. right. by apply list_elem_of_singleton. Qed.

(** With room left the new record is valid exactly when the new refusal is. *)
Lemma with_refusal_valid r a m p now resets :
  record_valid r → account r = a →
  len (List.filter (λ x, (ref_model x != m) || (ref_pool x != p)) (refusals r)) < MAX_WINDOWS →
  record_valid (with_refusal r a m p now resets) ↔
  m ≠ EmptyString ∧ str_len m ≤ 256 ∧ (∀ q, p = Some q → q ≠ EmptyString ∧ str_len q ≤ 256).
Proof.
  intros Hr Ha Hroom. unfold with_refusal.
  set (new := mkRefusal _ _ _ _ _ _).
  assert (refusal_invalid a new = false ↔
          m ≠ EmptyString ∧ str_len m ≤ 256 ∧ (∀ q, p = Some q → q ≠ EmptyString ∧ str_len q ≤ 256))
    as <-.
  { unfold refusal_invalid, new; simpl. rewrite bool_decide_eq_true_2 by done. simpl.
    rewrite !orb_false_iff, str_is_empty_false, Z.ltb_ge, is_some_and_false.
    setoid_rewrite orb_false_iff. setoid_rewrite str_is_empty_false. setoid_rewrite Z.ltb_ge. tauto. }
  destruct (rv_refusals r Hr) as [_ Hold], (rv_cooldowns r Hr) as [? ?]. split.
  - intros Hv. destruct (rv_refusals _ Hv) as [_ Hall]. simpl in Hall. rewrite <-Ha.
    apply Hall. apply elem_of_app. right. by apply list_elem_of_singleton.
  - intros Hnew.
    match goal with
    | |- record_valid (set_refusals ?l _) =>
        apply (evidence_valid r (revision r + 1) l (capacity_cooldowns r)); try done; [lia|..]
    end.
    + rewrite length_snoc_bound. lia.
    + intros x [Hx| ->]%filter_keep_elem; [auto|]. by rewrite Ha.
Qed.

Lemma record_refusal_Ok current a model p now resets intent :
  let record := current_or_empty current a in
  record_refusal current a model p now resets = Ok intent ↔
  ∃ m, refusal_accepts a model p now resets m ∧ m ≠ EmptyString ∧ str_len m ≤ 256 ∧
    account record = a ∧ record_valid record ∧ 0 ≤ revision record + 1 ≤ u64_max ∧
    len (List.filter (λ x, (ref_model x != m) || (ref_pool x != p)) (refusals record)) < MAX_WINDOWS ∧
    intent = mkUpdateIntent a current (Some (with_refusal record a m p now resets)) None None.
Proof.
  intros record. unfold record_refusal. fold record.
  pose proof (current_account_guard current a) as Hcur. fold record in Hcur.
  rewrite result_seq_Ok, result_guard_Ok. fold (scope_valid a). split.
  - intros (Ha & Hg & H). destruct (proj1 (refusal_accepts_guard a model p now resets) (conj Hg Ha))
      as [m Hm]. exists m. split; [done|].
    rewrite (proj2 (strip_prefix_Some _ _ m) (ra_model _ _ _ _ _ _ Hm)) in H. simpl in H.
    rewrite result_guard_Ok, Hcur, result_seq_Ok, validate_Ok, result_bind_Ok in H.
    destruct H as (Hc & Hr & rev & Hrev & H).
    apply ok_or_Ok, checked_add_u64_Some in Hrev as [-> Hrev].
    rewrite result_guard_Ok, Z.leb_gt, result_seq_Ok, validate_Ok in H.
    destruct H as (Hlen & Hv & [= <-]).
    apply (with_refusal_valid record a m p now resets Hr Hc Hlen) in Hv.
    split_and!; try tauto; lia.
  - intros (m & Hm & Hne & Hlen & Hc & Hr & Hrev & Hroom & ->).
    destruct (proj2 (refusal_accepts_guard a model p now resets) (ex_intro _ m Hm)) as [Hg Ha].
    split; [done|]. split; [done|].
    rewrite (proj2 (strip_prefix_Some _ _ m) (ra_model _ _ _ _ _ _ Hm)). simpl.
    rewrite result_guard_Ok, Hcur, result_seq_Ok, validate_Ok, result_bind_Ok.
    split; [done|]. split; [done|]. exists (revision record + 1).
    rewrite ok_or_Ok, checked_add_u64_Some, result_guard_Ok, Z.leb_gt, result_seq_Ok, validate_Ok.
    split; [done|]. split; [done|]. split; [|done].
    apply (with_refusal_valid record a m p now resets Hr Hc Hroom).
    split_and!; try done. intros q Hq. destruct (ra_pool _ _ _ _ _ _ Hm q Hq) as (? & ? & _). done.
Qed.

(** [record_refusal] succeeds exactly on well-formed evidence of this
    account with room left: the model is the adapter's and its name of 1 to
    256 bytes, the reset is in the future, and fewer than 64 refusals of other
    scopes are stored.  The intent then holds one refusal of that scope, the
    new one, keeps every other refusal and the extra fields of the one it
    replaces, and bumps the revision. *)
Theorem record_refusal_exact current a model p now resets intent :
  let record := current_or_empty current a in
  record_refusal current a model p now resets = Ok intent ↔
  ∃ m, refusal_accepts a model p now resets m ∧ m ≠ EmptyString ∧ str_len m ≤ 256 ∧
    account record = a ∧ record_valid record ∧ 0 ≤ revision record + 1 ≤ u64_max ∧
    len (List.filter (λ x, (ref_model x != m) || (ref_pool x != p)) (refusals record)) < MAX_WINDOWS ∧
    intent = mkUpdateIntent a current (Some (with_refusal record a m p now resets)) None None.
Proof. apply record_refusal_Ok. Qed.

(** The launches a refusal is about: all of the model's, or those that draw on
    the refused pool; a refusal of the free pool counts for its own model. *)
Definition refusal_reaches (self : Admission) (ad : string) (p : option string) : Prop :=
  in_free (free_pool ad) p = true ∨ ∀ q, p = Some q → q ∈ pools self.

(** Of the refusals of an account, one of the model that reaches the launch, has
    not expired and is not overtaken keeps the account from being free. *)
Lemma first_block_not_free self ad key model record x l :
  x ∈ l → (∀ r, r ∈ l → adapter (ref_account r) = ad ∧ account_key (ref_account r) = key) →
  ref_model x = model → refusal_reaches self ad (ref_pool x) →
  (∀ e, ref_expires x = Ok e → now_unix_seconds self < e) → comparable_newer self ad record x = false →
  first_block self ad key model record l ≠ Ok None.
Proof.
  intros Hin Hl Hm Hp He Hn. induction l as [|r l IH]; [by apply elem_of_nil in Hin|].
  destruct (Hl r) as [Had Hkey]; [set_solver|]. cbn [first_block].
  rewrite (bool_decide_eq_true_2 _ Had), (bool_decide_eq_true_2 _ Hkey). cbn [andb].
  apply elem_of_cons in Hin as [<-|Hin].
  - rewrite (bool_decide_eq_true_2 _ Hm). cbn [orb]. unfold refusal_holds. rewrite Hn.
    destruct (ref_expires x) as [e|]; [|done]. cbn [mbind result_bind].
    rewrite (proj2 (Z.ltb_lt _ _) (He e eq_refl)). cbn [mbind result_bind andb negb].
    destruct Hp as [->|Hp]; [done|].
    assert (is_none_or (ref_pool x) (λ p, bool_decide (p ∈ pools self)) = true) as ->; [|by rewrite orb_true_r].
    destruct (ref_pool x); [|done]. apply bool_decide_eq_true. by apply Hp.
  - specialize (IH Hin ltac:(set_solver)). destruct (_ || _); [|done].
    destruct (refusal_holds self ad record r) as [h|]; [|done]. cbn. by destruct (h && _).
Qed.

(** A recorded refusal takes effect at once: wherever admission finds the
    record the intent writes, the refused model is not free for the launches it
    is about before it expires, unless a newer reading of its pool is there. *)
Lemma recorded_refusal_held current a m p now resets intent next self :
  record_refusal current a ((adapter a +:+ "/") +:+ m) p now resets = Ok intent →
  replacement intent = Some next →
  find_record (records self) (adapter a) (account_key a) = Some next →
  refusal_reaches self (adapter a) p →
  (p ≠ None → ∀ s, snapshot next = Some s → observed s ≤ now) →
  now_unix_seconds self < unwrap_or resets (now + 3600) →
  account_block self (adapter a) (account_key a) m ≠ Ok None.
Proof.
  intros H Hn Hf Hp Hsnap Hnow. apply record_refusal_Ok in H as (m' & Ha & Hne & Hm & Hc & Hr & Hrev & Hroom & ->).
  assert (m' = m) as ->.
  { pose proof (ra_model _ _ _ _ _ _ Ha) as Heq.
    apply (proj2 (strip_prefix_Some _ _ _)) in Heq.
    rewrite (proj2 (strip_prefix_Some (adapter a +:+ "/") _ m) eq_refl) in Heq. congruence. }
  injection Hn as <-. set (r := current_or_empty current a) in *.
  set (next := with_refusal r a m p now resets) in *.
  assert (record_valid next) as Hv.
  { apply with_refusal_valid; try done. split_and!; [done..|]. intros q Hq.
    by destruct (ra_pool _ _ _ _ _ _ Ha q Hq) as (? & ? & _). }
  unfold account_block. rewrite Hf, (proj2 (validate_Ok next) Hv). cbn [mbind result_bind].
  case_bool_decide; [done|]. destruct (with_refusal_elem r a m p now resets) as [extra Hin].
  refine (first_block_not_free _ _ _ _ _ _ _ Hin _ eq_refl Hp _ _).
  - intros x Hx. destruct (rv_refusals next Hv) as [_ Hall].
    specialize (Hall x Hx). unfold refusal_invalid in Hall.
    rewrite !orb_false_iff, negb_false_iff, bool_decide_eq_true in Hall.
    destruct Hall as (((-> & _) & _) & _). simpl. by rewrite Hc.
  - intros e. unfold ref_expires. simpl. destruct resets as [t|]; simpl in *; [by intros [= <-]|].
    by intros [-> _]%ok_or_Ok%checked_add_i64_Some.
  - unfold comparable_newer. simpl. apply andb_false_iff. right. apply is_some_and_false. intros s Hs.
    destruct p as [q|]; [|by rewrite andb_false_r]. simpl.
    assert (observed s ≤ now) as Hle.
    { apply Hsnap; [done|]. unfold fresh_snapshot in Hs. simpl in Hs. apply bind_Some in Hs as (s' & Hs' & Hs).
      destruct (_ && _); [|done]. by injection Hs as <-. }
    by rewrite (proj2 (Z.ltb_ge _ _) Hle).
Qed.

(** C39: expired refusals are never dropped.  A record that holds 64 refusals
    refuses every refusal of a new scope with the bound error at every later
    time, also when all the stored refusals have long expired. *)
Theorem expired_refusals_fill_record current a model p now resets m :
  account current = a → record_valid current → revision current < u64_max → 0 ≤ revision current →
  refusal_accepts a model p now resets m →
  len (refusals current) = MAX_WINDOWS →
  (∀ x, x ∈ refusals current → ref_model x ≠ m ∨ ref_pool x ≠ p) →
  record_refusal (Some current) a model p now resets = Err (Invalid "provider refusal bound").
Proof.
  intros Ha Hr Hrev Hrev0 Hacc Hlen Hscope.
  destruct (proj2 (refusal_accepts_guard a model p now resets) (ex_intro _ m Hacc)) as [Hg Hsc].
  unfold record_refusal. rewrite Hsc. simpl. rewrite Hg.
  rewrite (proj2 (strip_prefix_Some _ _ m) (ra_model _ _ _ _ _ _ Hacc)). simpl.
  rewrite bool_decide_eq_true_2 by done. simpl. rewrite (proj2 (validate_Ok current) Hr). simpl.
  assert (checked_add_u64 (revision current) 1 = Some (revision current + 1)) as ->.
  { apply checked_add_u64_Some. split; [done|]. lia. }
  simpl. rewrite (bfilter_all (λ x, (ref_model x != m) || (ref_pool x != p))).
  - rewrite Hlen. done.
  - intros x Hx. rewrite orb_true_iff, !negb_true_iff, !bool_decide_eq_false. auto.
Qed.

(** ** Recording a capacity cooldown *)

Definition with_cooldown (r : AccountRecord) (a : AccountScope) (m : string) (now seconds : Z)
    : AccountRecord :=
  set_capacity_cooldowns
    (List.filter (λ c, (cool_model c != m) && (now <? cool_expires c)) (capacity_cooldowns r)
     ++ [mkCapacityCooldown
           (unwrap_or (cool_extra <$> List.find (λ c, cool_model c == m) (capacity_cooldowns r)) ∅)
           a m now (now + seconds)])
    (set_revision (revision r + 1) r).

Lemma with_cooldown_valid r a m now seconds :
  record_valid r → account r = a → 0 < seconds →
  m ≠ EmptyString → str_len m ≤ 256 → has_control m = false →
  len (List.filter (λ c, (cool_model c != m) && (now <? cool_expires c)) (capacity_cooldowns r))
    < MAX_WINDOWS →
  record_valid (with_cooldown r a m now seconds).
Proof.
  intros Hr Ha Hs Hm Hl Hctl Hroom.
  destruct (rv_refusals r Hr) as [? ?], (rv_cooldowns r Hr) as [_ Hold].
  unfold with_cooldown.
  match goal with
  | |- record_valid (set_capacity_cooldowns ?l _) =>
      apply (evidence_valid r (revision r + 1) (refusals r) l); try done; [lia|..]
  end.
  - rewrite length_snoc_bound. lia.
  - intros x [Hx| ->]%filter_keep_elem; [auto|]. unfold cooldown_invalid. simpl.
    rewrite Ha, bool_decide_eq_true_2 by done. simpl.
    rewrite Hctl, (proj2 (str_is_empty_false m) Hm). simpl.
    apply orb_false_iff. split; [by apply orb_false_iff; split; [apply Z.ltb_ge|]|].
    apply Z.leb_gt. lia.
Qed.

Lemma capacity_cooldown_Ok current a model now seconds intent
    (Hseconds : 0 ≤ seconds) :
  let record := current_or_empty current a in
  record_capacity_cooldown current a model now seconds = Ok intent ↔
  (seconds = 0 ∧ intent = None) ∨
  (0 < seconds ∧ ∃ m,
     scope_valid a ∧ model = (adapter a +:+ "/") +:+ m ∧
     m ≠ EmptyString ∧ str_len m ≤ 256 ∧ has_control m = false ∧
     account record = a ∧ seconds ≤ i64_max ∧ i64_min ≤ now + seconds ≤ i64_max ∧
     record_valid record ∧ 0 ≤ revision record + 1 ≤ u64_max ∧
     len (List.filter (λ c, (cool_model c != m) && (now <? cool_expires c))
            (capacity_cooldowns record)) < MAX_WINDOWS ∧
     intent = Some (mkUpdateIntent a current (Some (with_cooldown record a m now seconds)) None None)).
Proof.
  intros record. unfold record_capacity_cooldown. fold record.
  pose proof (current_account_guard current a) as Hcur. fold record in Hcur.
  destruct (Z.eqb_spec seconds 0) as [->|Hne].
  { split; [intros [= <-]; by left|]. intros [[_ ->]|[? _]]; [done|lia]. }
  rewrite result_seq_Ok, result_bind_Ok. setoid_rewrite ok_or_Ok. setoid_rewrite strip_prefix_Some.
  setoid_rewrite result_guard_Ok. setoid_rewrite orb_false_iff. setoid_rewrite orb_false_iff.
  setoid_rewrite str_is_empty_false. setoid_rewrite Z.ltb_ge. setoid_rewrite result_guard_Ok.
  setoid_rewrite Hcur. setoid_rewrite result_bind_Ok. setoid_rewrite ok_or_Ok.
  setoid_rewrite i64_try_from_u64_Some. setoid_rewrite result_bind_Ok. setoid_rewrite ok_or_Ok.
  setoid_rewrite checked_add_i64_Some. setoid_rewrite result_guard_Ok. setoid_rewrite result_seq_Ok.
  setoid_rewrite validate_Ok. setoid_rewrite result_bind_Ok. setoid_rewrite ok_or_Ok.
  setoid_rewrite checked_add_u64_Some. setoid_rewrite result_guard_Ok. setoid_rewrite Z.leb_gt.
  setoid_rewrite result_seq_Ok. setoid_rewrite validate_Ok. split.
  - intros (Ha & m & Hm & ((? & ?) & ?) & Hc & s & [-> ?] & e & [-> ?] & ? & Hr & rev & [-> ?] & ? & Hv & [= <-]).
    right. split; [lia|]. exists m. split_and!; try done; lia.
  - intros [[? _]|(Hs & m & Ha & -> & ? & ? & ? & Hc & ? & ? & Hr & ? & Hroom & ->)]; [lia|].
    split; [done|]. exists m. split; [done|]. split; [done|]. split; [done|].
    exists seconds. split; [done|]. exists (now + seconds). split; [done|]. split; [lia|].
    split; [done|]. eexists. split; [done|]. split; [done|]. split; [|done].
    by refine (with_cooldown_valid record a m now seconds _ _ _ _ _ _ _).
Qed.

(** [record_capacity_cooldown] writes nothing for a zero duration, and
    otherwise succeeds exactly for a well-formed model of the account's
    adapter, a representable expiry, and fewer than 64 other cooldowns that
    are still live: expired ones are dropped in the same update and never
    count against the bound.  The validation of the result never fails. *)
Theorem capacity_cooldown_exact current a model now seconds intent
    (Hseconds : 0 ≤ seconds) :
  let record := current_or_empty current a in
  record_capacity_cooldown current a model now seconds = Ok intent ↔
  (seconds = 0 ∧ intent = None) ∨
  (0 < seconds ∧ ∃ m,
     scope_valid a ∧ model = (adapter a +:+ "/") +:+ m ∧
     m ≠ EmptyString ∧ str_len m ≤ 256 ∧ has_control m = false ∧
     account record = a ∧ seconds ≤ i64_max ∧ i64_min ≤ now + seconds ≤ i64_max ∧
     record_valid record ∧ 0 ≤ revision record + 1 ≤ u64_max ∧
     len (List.filter (λ c, (cool_model c != m) && (now <? cool_expires c))
            (capacity_cooldowns record)) < MAX_WINDOWS ∧
     intent = Some (mkUpdateIntent a current (Some (with_cooldown record a m now seconds)) None None)).
Proof. apply capacity_cooldown_Ok; exact Hseconds. Qed.
End Admission.

(** ** Concrete accounts *)

Definition ex_now : Z := 2000.

(** An account whose model [gpt-5] was refused at 1990, and a launch on it. *)
Definition ex_refused : @AccountRecord json_example :=
  with_refusal ex_record ex_account "gpt-5" None 1990 None.
Definition ex_admission : @Admission json_example :=
  mkAdmission quota_policies ex_now [ex_refused] [].

Lemma ex_refused_valid : record_valid ex_refused.
Proof. by apply validate_Ok. Qed.

Lemma ex_refused_expiry : ∀ x, x ∈ refusals ex_refused → expiry_known x.
Proof.
  intros x Hx. vm_compute in Hx. apply list_elem_of_singleton in Hx as ->. by exists 5590.
Qed.

Lemma account_block_exact_witness :
  account_block ex_admission "codex" "key-1" "gpt-5" = Ok (Some ScopedRefusal) ∧
  last_error ex_refused ≠ Some FailureAccountMismatch.
Proof.
  split; [vm_compute; reflexivity|].
  destruct (account_block_exact ex_admission "codex" "key-1" "gpt-5" ex_refused
              ltac:(vm_compute; reflexivity) ex_refused_valid ex_refused_expiry)
    as (b & Hb & _ & Hm & _).
  intros He. apply Hm in He. subst b. vm_compute in Hb. discriminate Hb.
Defined.

(** 64 refusals that expired at time 4600. *)
Definition ex_full : @AccountRecord json_example :=
  set_refusals
    (map (λ n, @mkRefusal json_example ∅ ex_account (String (Ascii.ascii_of_nat (48 + n)) "m") None 1000 None)
       (seq 0 64)) ex_record.

Lemma expired_refusals_fill_record_witness :
  forallb (λ x, match ref_expires x with Ok e => e <=? 1000000 | Err _ => false end)
    (refusals ex_full) = true ∧
  record_refusal (Some ex_full) ex_account "codex/gpt-5" None 1000000 None =
  Err (Invalid "provider refusal bound").
Proof.
  split; [vm_compute; reflexivity|].
  refine (expired_refusals_fill_record ex_full ex_account "codex/gpt-5" None 1000000 None "gpt-5"
            eq_refl _ _ _ _ _ _).
  - by apply validate_Ok.
  - by vm_compute.
  - by vm_compute.
  - constructor; by vm_compute.
  - by vm_compute.
  - intros x Hx. left. intros Heq.
    assert (existsb (λ x, bool_decide (ref_model x = "gpt-5")) (refusals ex_full) = true) as Hb.
    { apply existsb_elem. exists x. split; [done|]. by apply bool_decide_eq_true. }
    by vm_compute in Hb.
Defined.

Lemma capacity_cooldown_exact_witness :
  record_capacity_cooldown (Some ex_refused) ex_account "codex/gpt-5" 2000 60 =
  Ok (Some (mkUpdateIntent ex_account (Some ex_refused)
              (Some (with_cooldown ex_refused ex_account "gpt-5" 2000 60)) None None)).
Proof.
  refine (proj2 (capacity_cooldown_exact (Some ex_refused) ex_account "codex/gpt-5" 2000 60 _ _) _);
    [by vm_compute|].
  right. split; [by vm_compute|]. exists "gpt-5".
  split_and!; try (by vm_compute). exact ex_refused_valid.
Defined.
