(* ===== verification/QuotaReadiness.v ===== *)
(** * QuotaReadiness: readiness observations and their freshness

    Models [crates/quota/src/readiness.rs] and the pure part of
    [sync_readiness] of [crates/cli/src/quota.rs]: the per-account readiness
    file, what a reader learns from it, and how the account record's refusals
    and probe results are published in it. *)

From stdpp Require Import base option list strings gmap sets.
From S2P Require Import Prelude External Adapters Routes CoreTime QuotaState QuotaSettings QuotaSchedule QuotaAdmission.

Local Open Scope string_scope.
Local Open Scope list_scope.
Local Open Scope Z_scope.
Local Open Scope rust_scope.

Record ReadinessScope := mkReadinessScope {
  host : string;
  scope_adapter : string;
  scope_account_key : string;
  route : string;
}.
#[export] Instance ReadinessScope_eq_dec : EqDecision ReadinessScope.
Proof. solve_decision. Defined.

Inductive ReadinessState := StateReady | StateUnavailable | StateUnknown.
#[export] Instance ReadinessState_eq_dec : EqDecision ReadinessState.
Proof. solve_decision. Defined.

(** [RouteReadiness] of [readiness.rs]: one observation. *)
Record Observation := mkObservation {
  obs_schema_version : Z;
  obs_scope : ReadinessScope;
  obs_state : ReadinessState;
  obs_reason : option ReadinessReason;
  obs_observed : Z;
  obs_expires : Z;
  obs_reset : option Z;
  obs_evidence_ref : option string;
}.
#[export] Instance Observation_eq_dec : EqDecision Observation.
Proof. solve_decision. Defined.

Definition LOCAL_HOST : string := "local".
Definition ACCOUNT_ROUTE : string := "*".
Definition MAX_READINESS_RECORDS : Z := MAX_WINDOWS.
Definition SCHEMA_VERSION : Z := 1.
Definition QUOTA_PROBE : string := "quota-probe".

Record LoginObservation := mkLoginObservation {
  login_scope : ReadinessScope;
  login_observed : Z;
  login_valid_until : Z;
  login_expires : option Z;
}.
#[export] Instance LoginObservation_eq_dec : EqDecision LoginObservation.
Proof. solve_decision. Defined.

Inductive LoginExpiryState := LoginUnknown | LoginFresh | LoginExpiring | LoginStateExpired.
#[export] Instance LoginExpiryState_eq_dec : EqDecision LoginExpiryState.
Proof. solve_decision. Defined.

Record ReadinessRead := mkReadinessRead {
  read_scope : option ReadinessScope;
  read_state : ReadinessState;
  read_reason : option ReadinessReason;
  read_observed : option Z;
  read_expires : option Z;
  read_reset : option Z;
  read_evidence_ref : option string;
}.

Definition ReadinessRead_unknown (reason : ReadinessReason) : ReadinessRead :=
  mkReadinessRead None StateUnknown (Some reason) None None None None.
Definition ReadinessRead_absent : ReadinessRead := ReadinessRead_unknown NotProbed.

Definition project {J : Json} (self : ReadinessRead) : RouteReadiness :=
  match read_state self with
  | StateReady =>
      match read_evidence_ref self, read_expires self with
      | Some availability_ref, Some expires => Ready ∅ availability_ref expires
      | _, _ => RouteReadiness_unknown
      end
  | StateUnavailable =>
      Unavailable ∅
        (match read_reason self with
         | Some ReasonMissingExecutable => MissingExecutable
         | Some SignedOut => AuthRequired
         | Some ReasonLoginExpired => LoginExpired
         | Some ReasonAccountMismatch => AccountMismatch
         | Some (ReasonExhausted | ProviderRefusal) => ProviderRefused
         | _ => UnknownAvailability
         end)
  | StateUnknown =>
      match read_reason self with
      | Some ReasonStale => RouteReadiness_stale
      | _ => RouteReadiness_unknown
      end
  end.

Record ReadinessFile := mkReadinessFile {
  file_schema_version : Z;
  file_records : list Observation;
  file_login : option LoginObservation;
}.
#[export] Instance ReadinessFile_eq_dec : EqDecision ReadinessFile.
Proof. solve_decision. Defined.

Definition ReadinessFile_default : ReadinessFile := mkReadinessFile SCHEMA_VERSION [] None.

Definition set_file_records (l : list Observation) (f : ReadinessFile) : ReadinessFile :=
  mkReadinessFile (file_schema_version f) l (file_login f).
Definition set_file_login (o : option LoginObservation) (f : ReadinessFile) : ReadinessFile :=
  mkReadinessFile (file_schema_version f) (file_records f) o.

(** The closure over the records with its [seen] set: some record is refused. *)
Fixpoint observations_invalid (adapter account_key : string) (seen : list ReadinessScope)
    (l : list Observation) : bool :=
  match l with
  | [] => false
  | r :: l' =>
      let s := obs_scope r in
      (scope_adapter s != adapter) || (scope_account_key s != account_key)
      || str_is_empty (host s) || (128 <? str_len (host s))
      || str_is_empty (route s) || (512 <? str_len (route s)) || has_control (route s)
      || bool_decide (s ∈ seen)
      || observations_invalid adapter account_key (s :: seen) l'
  end.

Definition login_invalid (adapter account_key : string) (l : LoginObservation) : bool :=
  (scope_adapter (login_scope l) != adapter) || (scope_account_key (login_scope l) != account_key)
  || str_is_empty (host (login_scope l)) || (128 <? str_len (host (login_scope l)))
  || (route (login_scope l) != ACCOUNT_ROUTE).

Definition ReadinessFile_validate (self : ReadinessFile) (adapter account_key : string)
    : result QuotaError unit :=
  if (file_schema_version self != SCHEMA_VERSION)
     || (MAX_READINESS_RECORDS <? len (file_records self))
     || is_some_and (file_login self) (login_invalid adapter account_key)
     || observations_invalid adapter account_key [] (file_records self)
  then Err (Invalid "readiness bounds") else Ok tt.

Definition check_bound (self : ReadinessFile) : result QuotaError ReadinessFile :=
  if MAX_READINESS_RECORDS <? len (file_records self) then Err (Invalid "readiness bounds")
  else Ok self.

Definition account_scope (host : string) (a : AccountScope) (route : string) : ReadinessScope :=
  mkReadinessScope host (adapter a) (account_key a) route.

Section Readiness.
Context {J : Json} {T : Jiff}.

(** [LoginObservation::state]. *)
Definition login_state (self : LoginObservation) (now warning_seconds : Z) : LoginExpiryState :=
  if (now <? login_observed self) || (login_valid_until self <=? login_observed self)
     || (login_valid_until self <=? now)
  then LoginUnknown
  else match login_expires self with
       | None => LoginUnknown
       | Some expiry =>
           if is_none (from_second expiry) then LoginUnknown
           else if expiry <=? now then LoginStateExpired
           else if (0 <? warning_seconds)
                   && (saturating_sub_i64 expiry now
                       <=? unwrap_or (i64_try_from_u64 warning_seconds) i64_max)
           then LoginExpiring else LoginFresh
       end.

(** The closure [read] of [ReadinessFile::get]. *)
Definition read_at (self : ReadinessFile) (now : Z) (scope : ReadinessScope) : ReadinessRead :=
  match List.find (λ r, obs_scope r == scope) (file_records self) with
  | None => ReadinessRead_absent
  | Some r =>
      if (file_schema_version self != SCHEMA_VERSION)
         || (obs_schema_version r != SCHEMA_VERSION)
         || (now <? obs_observed r) || (obs_expires r <=? obs_observed r)
         || is_some_and (obs_evidence_ref r) (λ e, negb (reference e))
      then ReadinessRead_unknown InvalidEvidence
      else if obs_expires r <=? now then
        mkReadinessRead (Some (obs_scope r)) StateUnknown (Some ReasonStale)
          (Some (obs_observed r)) (Some (obs_expires r)) None (obs_evidence_ref r)
      else if obs_state r == StateUnknown then
        mkReadinessRead (Some (obs_scope r)) StateUnknown
          (Some (unwrap_or (obs_reason r) NotProbed))
          (Some (obs_observed r)) (Some (obs_expires r)) None (obs_evidence_ref r)
      else
        mkReadinessRead (Some (obs_scope r)) (obs_state r) (obs_reason r)
          (Some (obs_observed r)) (Some (obs_expires r)) (obs_reset r) (obs_evidence_ref r)
  end.

Definition login_reason (r : option ReadinessReason) : bool :=
  match r with
  | Some (SignedOut | ReasonLoginExpired | ReasonAccountMismatch) => true
  | _ => false
  end.

(** [ReadinessFile::get]. *)
Definition readiness_get (self : ReadinessFile) (scope : ReadinessScope) (now : Z) : ReadinessRead :=
  let account :=
    read_at self now
      (mkReadinessScope (host scope) (scope_adapter scope) (scope_account_key scope) ACCOUNT_ROUTE) in
  if (route scope != ACCOUNT_ROUTE)
     && ((read_state account == StateUnavailable)
         || (is_some (read_scope account) && login_reason (read_reason account)))
  then account
  else
    let scoped := read_at self now scope in
    if read_state scoped == StateUnavailable then scoped
    else match file_login self with
         | Some login =>
             if (host (login_scope login) == host scope)
                && (scope_adapter (login_scope login) == scope_adapter scope)
                && (scope_account_key (login_scope login) == scope_account_key scope)
                && (login_state login now 0 == LoginStateExpired)
             then mkReadinessRead (Some (login_scope login)) StateUnavailable
                    (Some ReasonLoginExpired) (Some (login_observed login))
                    (Some (login_valid_until login)) None (Some "login-expiry")
             else scoped
         | None => scoped
         end.

(** [Option::max] on times: [None] is the least. *)
Definition option_max (a b : option Z) : option Z :=
  match a, b with
  | None, _ => b
  | _, None => a
  | Some x, Some y => Some (Z.max x y)
  end.

Definition refusal_route (account : AccountScope) (r : Refusal) : string :=
  match ref_pool r with
  | Some p => p
  | None => adapter account +:+ "/" +:+ ref_model r
  end.

(** One held refusal joins the published observation of its scope, or is
    published as a new one. *)
Definition publish_one (scope : ReadinessScope) (refusal : Refusal) (expires : Z)
    (published : list Observation) : list Observation :=
  match update_first (λ r, obs_scope r == scope)
          (λ held, mkObservation (obs_schema_version held) (obs_scope held) (obs_state held)
                     (obs_reason held)
                     (Z.max (obs_observed held) (ref_observed refusal))
                     (Z.max (obs_expires held) expires)
                     (option_max (obs_reset held) (ref_resets refusal))
                     (obs_evidence_ref held)) published with
  | Some published => published
  | None =>
      published ++ [mkObservation SCHEMA_VERSION scope StateUnavailable (Some ProviderRefusal)
                      (ref_observed refusal) expires (ref_resets refusal)
                      (Some "provider-refusal")]
  end.

(** The loop of [sync_refusals] over the record's refusals. *)
Fixpoint publish_refusals (host : string) (admission : Admission) (record : AccountRecord)
    (l : list Refusal) (published : list Observation) : result QuotaError (list Observation) :=
  match l with
  | [] => Ok published
  | refusal :: l' =>
      holds ← refusal_holds admission (adapter (account record)) (Some record) refusal;
      if negb holds then publish_refusals host admission record l' published
      else
        expires ← ref_expires refusal;
        let scope := account_scope host (account record) (refusal_route (account record) refusal) in
        publish_refusals host admission record l' (publish_one scope refusal expires published)
  end.

Definition is_host_refusal (host' : string) (r : Observation) : bool :=
  (host (obs_scope r) == host') && (obs_state r == StateUnavailable)
  && (obs_reason r == Some ProviderRefusal).

Definition sync_refusals (self : ReadinessFile) (record : AccountRecord) (host : string)
    (admission : Admission) : result QuotaError ReadinessFile :=
  let now := now_unix_seconds admission in
  let self :=
    set_file_records
      (List.filter (λ r, (now <? obs_expires r) && negb (is_host_refusal host r))
         (file_records self)) self in
  let account_read := readiness_get self (account_scope host (account record) ACCOUNT_ROUTE) now in
  if (read_state account_read == StateUnavailable)
     && (read_evidence_ref account_read == Some QUOTA_PROBE)
  then check_bound self
  else
    published ← publish_refusals host admission record (refusals record) [];
    check_bound
      (set_file_records
         (List.filter (λ r, negb (existsb (λ new, obs_scope new == obs_scope r) published))
            (file_records self) ++ published) self).

Definition sync_probe_result (self : ReadinessFile) (record : AccountRecord) (host' : string)
    (now interval_seconds : Z) (reason : option ReadinessReason) : result QuotaError ReadinessFile :=
  let kept :=
    List.filter (λ r,
      (now <? obs_expires r)
      && negb ((host (obs_scope r) == host')
               && (scope_adapter (obs_scope r) == adapter (account record))
               && (scope_account_key (obs_scope r) == account_key (account record))
               && (is_some reason
                   || ((route (obs_scope r) == ACCOUNT_ROUTE)
                       && (obs_evidence_ref r == Some QUOTA_PROBE)))))
      (file_records self) in
  let added :=
    match reason with
    | None => []
    | Some reason =>
        let interval := unwrap_or (i64_try_from_u64 interval_seconds) i64_max in
        [mkObservation SCHEMA_VERSION (account_scope host' (account record) ACCOUNT_ROUTE)
           StateUnavailable (Some reason) now (saturating_add_i64 now (Z.max interval 1)) None
           (Some QUOTA_PROBE)]
    end in
  check_bound (set_file_records (kept ++ added) self).

(** The file part of [sync_readiness]: the stored file (if it decodes), the
    intent and the time to the file to store, or [None] when it is unlinked.
    The policies are those of the registered sources. *)
Definition sync_readiness (current : option ReadinessFile) (intent : UpdateIntent) (now : Z)
    : result QuotaError (option ReadinessFile) :=
  let file := unwrap_or current ReadinessFile_default in
  let adapter := adapter (intent_account intent) in
  let key := account_key (intent_account intent) in
  file ← match replacement intent with
         | Some record =>
             let admission := mkAdmission quota_policies now [record] [] in
             file ← match readiness_probe_result intent with
                    | Some reason =>
                        let interval :=
                          match List.find (λ p, policy_adapter p == adapter) quota_policies with
                          | Some policy => timer_seconds policy
                          | None => 300
                          end in
                        sync_probe_result file record LOCAL_HOST now interval reason
                    | None => Ok file
                    end;
             let file :=
               match login_probe_expiry intent with
               | Some (expiry, interval) =>
                   set_file_login
                     (Some (mkLoginObservation
                              (mkReadinessScope LOCAL_HOST adapter key ACCOUNT_ROUTE) now
                              (saturating_add_i64 now
                                 (unwrap_or (i64_try_from_u64 (Z.max interval 1)) i64_max))
                              expiry)) file
               | None => file
               end in
             sync_refusals file record LOCAL_HOST admission
         | None => Ok (set_file_login None (set_file_records [] file))
         end;
  if bool_decide (file_records file = []) && is_none (file_login file) then Ok None
  else Ok (Some file).

(** ** Reading *)

Definition find_obs (f : ReadinessFile) (scope : ReadinessScope) : option Observation :=
  List.find (λ r, obs_scope r == scope) (file_records f).

(** An observation that counts at [now]. *)
Definition live (f : ReadinessFile) (now : Z) (r : Observation) : Prop :=
  file_schema_version f = SCHEMA_VERSION ∧ obs_schema_version r = SCHEMA_VERSION ∧
  obs_observed r ≤ now < obs_expires r ∧
  ∀ e, obs_evidence_ref r = Some e → reference e = true.

Lemma find_obs_Some f scope r :
  find_obs f scope = Some r → r ∈ file_records f ∧ obs_scope r = scope.
Proof. intros [? H%bool_decide_eq_true]%find_Some_elem. done. Qed.

(** A read that is not unknown reports a live observation as it stands. *)
Lemma read_at_known f now scope :
  read_state (read_at f now scope) ≠ StateUnknown →
  ∃ r, find_obs f scope = Some r ∧ live f now r ∧ obs_state r ≠ StateUnknown ∧
    read_at f now scope =
      mkReadinessRead (Some scope) (obs_state r) (obs_reason r) (Some (obs_observed r))
        (Some (obs_expires r)) (obs_reset r) (obs_evidence_ref r).
Proof.
  unfold read_at. fold (find_obs f scope).
  destruct (find_obs f scope) as [r|] eqn:Hf; [|done].
  apply find_obs_Some in Hf as [_ Hs].
  destruct (_ || is_some_and _ _) eqn:Hg; [done|].
  destruct (Z.leb_spec (obs_expires r) now); [done|].
  destruct (bool_decide_reflect (obs_state r = StateUnknown)); [done|].
  intros _. exists r.
  rewrite !orb_false_iff, !negb_false_iff, !bool_decide_eq_true, Z.ltb_ge, is_some_and_false in Hg.
  destruct Hg as ((((? & ?) & ?) & _) & He).
  split; [done|]. split; [|split; [done|by rewrite Hs]].
  split_and!; try done. intros e Hr. specialize (He e Hr). by apply negb_false_iff in He.
Qed.

Lemma live_read_at f now scope r :
  find_obs f scope = Some r → live f now r → obs_state r ≠ StateUnknown →
  read_at f now scope =
    mkReadinessRead (Some scope) (obs_state r) (obs_reason r) (Some (obs_observed r))
      (Some (obs_expires r)) (obs_reset r) (obs_evidence_ref r).
Proof.
  intros Hf (H1 & H2 & H3 & H4) Hst. unfold read_at. fold (find_obs f scope). rewrite Hf.
  apply find_obs_Some in Hf as [_ Hs]. rewrite H1, H2. simpl.
  destruct (Z.ltb_spec now (obs_observed r)); [lia|].
  destruct (Z.leb_spec (obs_expires r) (obs_observed r)); [lia|]. simpl.
  assert (is_some_and (obs_evidence_ref r) (λ e, negb (reference e)) = false) as ->.
  { apply is_some_and_false. intros e He. by rewrite (H4 e He). }
  destruct (Z.leb_spec (obs_expires r) now); [lia|].
  case_bool_decide; [done|]. by rewrite Hs.
Qed.

(** The account-wide scope that covers [scope]. *)
Definition wide (scope : ReadinessScope) : ReadinessScope :=
  mkReadinessScope (host scope) (scope_adapter scope) (scope_account_key scope) ACCOUNT_ROUTE.

(** The account's login was observed past its expiry. *)
Definition login_expired (f : ReadinessFile) (scope : ReadinessScope) (now : Z) : Prop :=
  ∃ l, file_login f = Some l ∧ wide (login_scope l) = wide scope ∧
       login_state l now 0 = LoginStateExpired.

Lemma project_read_at_ready f now s extra ref e :
  project (read_at f now s) = Ready extra ref e →
  read_state (read_at f now s) = StateReady ∧
  ∃ r, r ∈ file_records f ∧ obs_scope r = s ∧ live f now r ∧ obs_state r = StateReady ∧
    obs_reason r = read_reason (read_at f now s) ∧
    obs_evidence_ref r = Some ref ∧ reference ref = true ∧ e = obs_expires r.
Proof.
  intros H. destruct (read_at_known f now s) as (r & Hf & Hl & _ & Heq).
  { intros Hu. unfold project in H. rewrite Hu in H. by repeat case_match. }
  rewrite Heq in H |- *. unfold project in H. simpl in H.
  destruct (obs_state r) eqn:Hst; [|done|by repeat case_match].
  destruct (obs_evidence_ref r) as [ref'|] eqn:Hev; [|done]. injection H as _ -> <-.
  apply find_obs_Some in Hf as [Hin Hs]. split; [done|]. exists r. split_and!; try done.
  destruct Hl as (_ & _ & _ & Hl). auto.
Qed.

(** a receipt is ready only on live evidence.  The projected read of a
    route is ready only if the file holds a ready observation of that route
    (or an account-wide one that carries a login reason) made at or before
    [now] and not expired, whose expiry and evidence the receipt repeats; and
    then no account-wide observation makes the account unavailable and the
    account's login is not observed expired, unless the evidence itself is
    the account-wide one. *)
Theorem ready_needs_live_evidence f scope now extra ref e :
  project (readiness_get f scope now) = Ready extra ref e →
  ∃ r, r ∈ file_records f ∧ live f now r ∧ obs_state r = StateReady ∧
    obs_evidence_ref r = Some ref ∧ reference ref = true ∧ e = obs_expires r ∧
    ((obs_scope r = scope ∧ ¬ login_expired f scope now ∧
      (route scope ≠ ACCOUNT_ROUTE →
         read_state (read_at f now (wide scope)) ≠ StateUnavailable)) ∨
     (obs_scope r = wide scope ∧ login_reason (obs_reason r) = true)).
Proof.
  unfold readiness_get. fold (wide scope). destruct (_ && _) eqn:Hw.
  - intros H. apply project_read_at_ready in H as (Hst & r & ? & Hs & ? & ? & Hr & ? & ? & ?).
    exists r. split_and!; try done. right. split; [done|]. rewrite Hr.
    rewrite Hst in Hw. simpl in Hw. rewrite !andb_true_iff in Hw. tauto.
  - intros H.
    assert (project (read_at f now scope) = Ready extra ref e ∧ ¬ login_expired f scope now)
      as [Hp Hlog].
    { case_bool_decide as Hu; [unfold project in H; by rewrite Hu in H|].
      unfold login_expired. destruct (file_login f) as [l|]; [|split; [done|naive_solver]].
      destruct (_ && (login_state l now 0 == LoginStateExpired)) eqn:Hg; [done|]. split; [done|]. intros (l' & [= <-] & Hwd & Hexp).
      injection Hwd as Hh Ha Hk. rewrite Hh, Ha, Hk, Hexp in Hg.
      by rewrite !bool_decide_eq_true_2 in Hg. }
    apply project_read_at_ready in Hp as (Hst & r & ? & Hs & ? & ? & Hr & ? & ? & ?).
    exists r. split_and!; try done. left. split_and!; try done.
    intros Hroute Hu. by rewrite Hu, (bool_decide_eq_false_2 _ Hroute) in Hw.
Qed.

(** ** Publishing refusals *)

Definition pub_scope (h : string) (record : AccountRecord) (x : Refusal) : ReadinessScope :=
  account_scope h (account record) (refusal_route (account record) x).

(** An observation [sync_refusals] publishes. *)
Definition published_obs (h : string) (adm : Admission) (record : AccountRecord) (o : Observation) : Prop :=
  obs_schema_version o = SCHEMA_VERSION ∧ obs_state o = StateUnavailable ∧
  obs_reason o = Some ProviderRefusal ∧ obs_evidence_ref o = Some "provider-refusal" ∧
  now_unix_seconds adm < obs_expires o ∧
  ∃ x, x ∈ refusals record ∧ obs_scope o = pub_scope h record x.

Lemma published_host h adm record o : published_obs h adm record o → is_host_refusal h o = true.
Proof.
  intros (_ & Hs & Hr & _ & _ & x & _ & Hsc). unfold is_host_refusal.
  rewrite Hs, Hr, Hsc. simpl. by rewrite bool_decide_eq_true_2.
Qed.

Lemma publish_one_spec h adm record x e pub :
  x ∈ refusals record → now_unix_seconds adm < e →
  Forall (published_obs h adm record) pub → NoDup (obs_scope <$> pub) →
  let pub' := publish_one (pub_scope h record x) x e pub in
  Forall (published_obs h adm record) pub' ∧ NoDup (obs_scope <$> pub') ∧
  ∀ s, s ∈ obs_scope <$> pub' ↔ s ∈ obs_scope <$> pub ∨ s = pub_scope h record x.
Proof.
  intros Hx Hnow Hp Hnd. simpl. unfold publish_one.
  destruct (update_first _ _ pub) as [pub'|] eqn:Hup.
  - assert (obs_scope <$> pub' = obs_scope <$> pub) as Hsc
      by (eapply update_first_map; [|exact Hup]; done).
    rewrite Hsc. apply update_first_Some in Hup as (l1 & o & l2 & -> & -> & Ho & _).
    apply bool_decide_eq_true in Ho. split_and!; [|done|].
    + rewrite Forall_app, Forall_cons_iff in Hp |- *.
      destruct Hp as (? & (? & ? & ? & ? & ? & ?) & ?).
      split_and!; try done. split_and!; simpl; try done. lia.
    + intros s. split; [by left|]. intros [?| ->]; [done|].
      apply list_elem_of_fmap. exists o. split; [done|]. set_solver.
  - apply update_first_None in Hup. rewrite list.Forall_forall in Hup. split_and!.
    + rewrite Forall_app, Forall_cons_iff. split_and!; try done.
      split_and!; simpl; try done. by exists x.
    + rewrite fmap_app, NoDup_app. split_and!; [done| |repeat constructor; by intros ?%not_elem_of_nil].
      intros s (o & -> & Ho)%list_elem_of_fmap Hin%list_elem_of_singleton.
      specialize (Hup o Ho). by apply bool_decide_eq_false in Hup.
    + intros s. rewrite fmap_app, elem_of_app. simpl. by rewrite list_elem_of_singleton.
Qed.

Lemma publish_refusals_spec h adm record l pub out :
  (∀ x, x ∈ l → x ∈ refusals record) →
  publish_refusals h adm record l pub = Ok out →
  Forall (published_obs h adm record) pub → NoDup (obs_scope <$> pub) →
  Forall (published_obs h adm record) out ∧ NoDup (obs_scope <$> out) ∧
  ∀ s, s ∈ obs_scope <$> out ↔
    s ∈ obs_scope <$> pub ∨
    ∃ x, x ∈ l ∧ refusal_live adm (adapter (account record)) record x ∧ s = pub_scope h record x.
Proof.
  revert pub; induction l as [|x l IH]; intros pub Hl H Hp Hnd; cbn [publish_refusals] in H.
  { injection H as <-. split_and!; try done. intros s. split; [by left|].
    intros [?|(? & ?%not_elem_of_nil & _)]; done. }
  apply result_bind_Ok in H as (b & Hb & H).
  assert (∀ x, x ∈ l → x ∈ refusals record) as Hl' by set_solver.
  pose proof (refusal_holds_true adm (adapter (account record)) record x) as Hlive.
  destruct b; simpl in H.
  - apply Hlive in Hb. pose proof Hb as (e & He & Hnow & _).
    rewrite He in H. simpl in H. fold (pub_scope h record x) in H.
    destruct (publish_one_spec h adm record x e pub) as (Hp' & Hnd' & Hs'); [set_solver|done..|].
    destruct (IH _ Hl' H Hp' Hnd') as (? & ? & Hs). split_and!; try done.
    intros s. rewrite Hs, Hs'. split.
    + intros [[?| ->]|(y & Hy & ?)]; [by left|right; exists x; set_solver|right; exists y; set_solver].
    + intros [?|(y & [->|Hy]%elem_of_cons & ? & ->)]; [by left; left|by left; right|right; by exists y].
  - destruct (IH pub Hl' H Hp Hnd) as (? & ? & Hs). split_and!; try done.
    intros s. rewrite Hs. apply or_iff_compat_l. split.
    + intros (y & Hy & ?). exists y. set_solver.
    + intros (y & [->|Hy]%elem_of_cons & Hyl & ?); [|by exists y].
      apply Hlive in Hyl. congruence.
Qed.

Lemma check_bound_Ok f f' :
  check_bound f = Ok f' ↔ f' = f ∧ len (file_records f) ≤ MAX_READINESS_RECORDS.
Proof. unfold check_bound. rewrite result_guard_Ok, Z.ltb_ge. naive_solver. Qed.

(** The observations [sync_refusals] starts from: expired ones and this host's
    own refusals are gone. *)
Definition pruned (f : ReadinessFile) (h : string) (now : Z) : ReadinessFile :=
  set_file_records
    (List.filter (λ r, (now <? obs_expires r) && negb (is_host_refusal h r)) (file_records f)) f.

(** A failed probe of this account supersedes its per-route facts. *)
Definition superseded (f : ReadinessFile) (record : AccountRecord) (h : string) (now : Z) : bool :=
  let r := readiness_get (pruned f h now) (account_scope h (account record) ACCOUNT_ROUTE) now in
  (read_state r == StateUnavailable) && (read_evidence_ref r == Some QUOTA_PROBE).

Lemma sync_refusals_Ok f record h adm f' :
  sync_refusals f record h adm = Ok f' ↔
  len (file_records f') ≤ MAX_READINESS_RECORDS ∧
  if superseded f record h (now_unix_seconds adm)
  then f' = pruned f h (now_unix_seconds adm)
  else ∃ published, publish_refusals h adm record (refusals record) [] = Ok published ∧
    f' = set_file_records
           (List.filter (λ r, negb (existsb (λ new, obs_scope new == obs_scope r) published))
              (file_records (pruned f h (now_unix_seconds adm))) ++ published)
           (pruned f h (now_unix_seconds adm)).
Proof.
  unfold sync_refusals. fold (pruned f h (now_unix_seconds adm)). unfold superseded.
  destruct (_ && _); [rewrite check_bound_Ok; naive_solver|].
  rewrite result_bind_Ok. setoid_rewrite check_bound_Ok. naive_solver.
Qed.

(** After [sync_refusals] this host's refusal observations are exactly the
    refusals of the record that hold at [now], one observation per pool or
    model, unless a failed probe of the whole account supersedes them, and
    then there are none.  Every other unexpired observation stays, except one
    of a scope that is published anew. *)
Theorem sync_refusals_exact f record h adm f' :
  sync_refusals f record h adm = Ok f' →
  let held rt := ∃ x, x ∈ refusals record ∧
    refusal_live adm (adapter (account record)) record x ∧ refusal_route (account record) x = rt in
  let shown o := o ∈ file_records f' ∧ is_host_refusal h o = true in
  (superseded f record h (now_unix_seconds adm) = false →
     (∀ rt, held rt ↔ ∃ o, shown o ∧ obs_scope o = account_scope h (account record) rt) ∧
     (∀ o, shown o → ∃ rt, obs_scope o = account_scope h (account record) rt) ∧
     (∀ o o', shown o → shown o' → obs_scope o = obs_scope o' → o = o')) ∧
  (superseded f record h (now_unix_seconds adm) = true → ∀ o, ¬ shown o) ∧
  (∀ o, o ∈ file_records f → now_unix_seconds adm < obs_expires o → is_host_refusal h o = false →
     o ∈ file_records f' ∨ ∃ o', shown o' ∧ obs_scope o' = obs_scope o).
Proof.
  intros H held shown. apply sync_refusals_Ok in H as [_ H].
  assert (∀ o, o ∈ file_records (pruned f h (now_unix_seconds adm)) ↔
    o ∈ file_records f ∧ now_unix_seconds adm < obs_expires o ∧ is_host_refusal h o = false) as Hpr.
  { intros o. unfold pruned. simpl. rewrite bfilter_elem, andb_true_iff, negb_true_iff, Z.ltb_lt.
    tauto. }
  destruct (superseded _ _ _ _).
  { subst f'. split_and!; [done| |].
    - intros _ o [Ho Hh]. apply Hpr in Ho as (_ & _ & ?). congruence.
    - intros o ? ? ?. left. by apply Hpr. }
  destruct H as (pub & Hpub & ->).
  destruct (publish_refusals_spec h adm record (refusals record) [] pub) as (Hall & Hnd & Hs);
    [done|done|constructor|constructor|].
  rewrite list.Forall_forall in Hall.
  assert (∀ o, shown o ↔ o ∈ pub) as Hshown.
  { intros o. unfold shown. simpl. rewrite elem_of_app, bfilter_elem, Hpr. split.
    - intros [[[(_ & _ & ?) _]|?] ?]; [congruence|done].
    - intros Ho. split; [by right|]. eapply published_host, Hall, Ho. }
  setoid_rewrite Hshown. split_and!; [intros _|done|].
  - split_and!.
    + intros rt. trans (account_scope h (account record) rt ∈ obs_scope <$> pub).
      * rewrite Hs. split.
        -- intros (x & ? & ? & <-). right. by exists x.
        -- intros [?%not_elem_of_nil|(x & ? & ? & [= ->])]; [done|]. by exists x.
      * rewrite list_elem_of_fmap. split; intros (o & ? & ?); exists o; done.
    + intros o (_ & _ & _ & _ & _ & x & _ & ?)%Hall. eauto.
    + intros o o' Ho Ho' Heq. by eapply (NoDup_key_inj obs_scope).
  - intros o Ho Hexp Hh. simpl. rewrite elem_of_app, bfilter_elem, Hpr, negb_true_iff.
    destruct (existsb _ _) eqn:Hex; [|naive_solver].
    apply existsb_elem in Hex as (o' & ? & ?%bool_decide_eq_true). right. eauto.
Qed.

(** ** Validity of the stored file *)

Definition scope_ok (ad key : string) (s : ReadinessScope) : Prop :=
  scope_adapter s = ad ∧ scope_account_key s = key ∧
  host s ≠ EmptyString ∧ str_len (host s) ≤ 128 ∧
  route s ≠ EmptyString ∧ str_len (route s) ≤ 512 ∧ has_control (route s) = false.

Lemma observations_invalid_false ad key seen l :
  observations_invalid ad key seen l = false ↔
  Forall (λ o, scope_ok ad key (obs_scope o)) l ∧ NoDup (obs_scope <$> l) ∧
  Forall (λ o, obs_scope o ∉ seen) l.
Proof.
  revert seen; induction l as [|o l IH]; intros seen; simpl.
  { split; [|done]. intros _. split_and!; constructor. }
  rewrite !orb_false_iff, !negb_false_iff, !bool_decide_eq_true, !str_is_empty_false, !Z.ltb_ge,
    bool_decide_eq_false, IH, !Forall_cons_iff, list.NoDup_cons, list_elem_of_fmap.
  unfold scope_ok at 2. rewrite !list.Forall_forall. setoid_rewrite not_elem_of_cons. split.
  - intros ((((((((? & ?) & ?) & ?) & ?) & ?) & ?) & ?) & ? & ? & Hl).
    split_and!; try done; [|naive_solver].
    intros (y & Hy & Hin). destruct (Hl y Hin) as [Hne _]. by rewrite Hy in Hne.
  - intros (((? & ? & ? & ? & ? & ? & ?) & ?) & (Ho & ?) & ? & ?). split_and!; try done.
    intros y Hy. split; [|auto]. intros Heq. apply Ho. eauto.
Qed.

Lemma readiness_validate_Ok f ad key :
  ReadinessFile_validate f ad key = Ok tt ↔
  file_schema_version f = SCHEMA_VERSION ∧ len (file_records f) ≤ MAX_READINESS_RECORDS ∧
  is_some_and (file_login f) (login_invalid ad key) = false ∧
  Forall (λ o, scope_ok ad key (obs_scope o)) (file_records f) ∧ NoDup (obs_scope <$> file_records f).
Proof.
  unfold ReadinessFile_validate.
  rewrite result_guard_Ok, !orb_false_iff, negb_false_iff, bool_decide_eq_true, Z.ltb_ge,
    observations_invalid_false.
  assert (Forall (λ o, obs_scope o ∉ ([] : list ReadinessScope)) (file_records f)) by
    (apply list.Forall_forall; intros; apply not_elem_of_nil).
  tauto.
Qed.

Lemma filter_fmap_NoDup {A B} (g : A → B) (q : A → bool) l :
  NoDup (g <$> l) → NoDup (g <$> List.filter q l).
Proof.
  induction l as [|x l IH]; simpl; [done|].
  rewrite list.NoDup_cons. intros [Hx Hl]. destruct (q x); [|auto]. simpl.
  apply list.NoDup_cons. split; [|auto]. contradict Hx.
  apply list_elem_of_fmap in Hx as (y & -> & [Hy _]%bfilter_elem).
  apply list_elem_of_fmap. eauto.
Qed.

(** Dropping observations and adding fresh ones of other scopes. *)
Lemma replace_observations_valid f ad key q new :
  ReadinessFile_validate f ad key = Ok tt →
  let f' := set_file_records (List.filter q (file_records f) ++ new) f in
  len (file_records f') ≤ MAX_READINESS_RECORDS →
  Forall (λ o, scope_ok ad key (obs_scope o)) new → NoDup (obs_scope <$> new) →
  (∀ o o', o ∈ file_records f → q o = true → o' ∈ new → obs_scope o ≠ obs_scope o') →
  ReadinessFile_validate f' ad key = Ok tt.
Proof.
  intros (? & _ & ? & Hok & Hnd)%readiness_validate_Ok f' Hlen Hnew Hnn Hdisj.
  apply readiness_validate_Ok. split_and!; try done; simpl.
  - rewrite Forall_app. split; [|done]. rewrite list.Forall_forall in Hok |- *.
    intros o [Ho _]%bfilter_elem. auto.
  - rewrite fmap_app, NoDup_app. split_and!; [by apply filter_fmap_NoDup| |done].
    intros s (o & -> & [Ho Hq]%bfilter_elem)%list_elem_of_fmap (o' & Heq & Ho')%list_elem_of_fmap.
    by eapply Hdisj.
Qed.

Lemma drop_observations_valid f ad key q :
  ReadinessFile_validate f ad key = Ok tt →
  ReadinessFile_validate (set_file_records (List.filter q (file_records f)) f) ad key = Ok tt.
Proof.
  intros Hf. pose proof (replace_observations_valid f ad key q [] Hf) as H.
  rewrite app_nil_r in H.
  apply H; [|by apply list.Forall_nil|constructor|intros o o' _ _ Ho'; by apply not_elem_of_nil in Ho'].
  apply readiness_validate_Ok in Hf as (_ & Hl & _). simpl. unfold len in *.
  pose proof (bfilter_length q (file_records f)). lia.
Qed.

Lemma str_len_app a b : str_len (a +:+ b) = str_len a + str_len b.
Proof.
  unfold str_len. induction a as [|c a IH]; [done|].
  change (String c a +:+ b) with (String c (a +:+ b)). cbn [String.length]. lia.
Qed.

(** The route of a refusal of a valid record fits a stored scope. *)
Lemma refusal_route_ok record h x :
  record_valid record → x ∈ refusals record →
  has_control (refusal_route (account record) x) = false →
  h ≠ EmptyString → str_len h ≤ 128 →
  scope_ok (adapter (account record)) (account_key (account record)) (pub_scope h record x).
Proof.
  intros Hr Hx Hc Hh Hhl. destruct (rv_refusals record Hr) as [_ Hall]. specialize (Hall x Hx).
  pose proof (rv_scope record Hr) as Hsc. unfold scope_valid, AccountScope_validate in Hsc.
  unfold refusal_invalid in Hall.
  rewrite !orb_false_iff, !str_is_empty_false, Z.ltb_ge, is_some_and_false in Hall.
  rewrite result_guard_Ok, !orb_false_iff, !negb_false_iff in Hsc.
  assert (str_len (adapter (account record)) ≤ 128) as Had.
  { destruct Hsc as ((((((Ha & _) & _) & _) & _) & _) & _). unfold component in Ha.
    rewrite !andb_true_iff, Z.leb_le in Ha. tauto. }
  destruct Hall as (((_ & ?) & ?) & Hpool).
  split_and!; simpl; try done; unfold refusal_route in *; destruct (ref_pool x) as [p|].
  - specialize (Hpool p eq_refl). apply orb_false_iff in Hpool as [Hp _].
    by apply str_is_empty_false.
  - by destruct (adapter (account record)).
  - specialize (Hpool p eq_refl). apply orb_false_iff in Hpool as [_ Hp]. apply Z.ltb_ge in Hp. lia.
  - rewrite !str_len_app. change (str_len "/") with 1. lia.
Qed.

Lemma sync_refusals_valid f record h adm f' :
  let ad := adapter (account record) in
  let key := account_key (account record) in
  ReadinessFile_validate f ad key = Ok tt → record_valid record →
  h ≠ EmptyString → str_len h ≤ 128 →
  (∀ x, x ∈ refusals record → has_control (refusal_route (account record) x) = false) →
  sync_refusals f record h adm = Ok f' → ReadinessFile_validate f' ad key = Ok tt.
Proof.
  intros ad key Hf Hr Hh Hhl Hc H. apply sync_refusals_Ok in H as [Hlen H].
  assert (ReadinessFile_validate (pruned f h (now_unix_seconds adm)) ad key = Ok tt) as Hp
    by (by apply drop_observations_valid).
  destruct (superseded _ _ _ _); [by subst|]. destruct H as (pub & Hpub & ->).
  destruct (publish_refusals_spec h adm record (refusals record) [] pub) as (Hall & Hnd & _);
    [done|done|by apply list.Forall_nil|constructor|].
  apply replace_observations_valid; try done.
  - eapply Forall_impl; [exact Hall|]. intros o (_ & _ & _ & _ & _ & x & Hx & ->).
    apply refusal_route_ok; auto.
  - intros o o' _ Hq Ho' Heq. rewrite negb_true_iff, existsb_false_elem in Hq.
    specialize (Hq o' Ho'). by apply bool_decide_eq_false in Hq.
Qed.

Lemma sync_probe_result_valid f record h now interval reason f' :
  let ad := adapter (account record) in
  let key := account_key (account record) in
  ReadinessFile_validate f ad key = Ok tt → h ≠ EmptyString → str_len h ≤ 128 →
  sync_probe_result f record h now interval reason = Ok f' →
  ReadinessFile_validate f' ad key = Ok tt.
Proof.
  intros ad key Hf Hh Hhl H. apply check_bound_Ok in H as [-> Hlen].
  destruct reason as [reason|]; [|rewrite app_nil_r in *; by apply drop_observations_valid].
  apply replace_observations_valid; try done.
  - apply list.Forall_singleton. split_and!; try done; simpl; by vm_compute.
  - repeat constructor. by intros ?%not_elem_of_nil.
  - intros o o' _ Hq ->%list_elem_of_singleton Heq. rewrite Heq in Hq. simpl in Hq.
    rewrite !bool_decide_eq_true_2, andb_false_r in Hq by done. done.
Qed.

(** Publishing keeps the readiness file well formed.  From a valid stored
    file, or none, every update of a valid account record whose refusals have
    printable routes either fails on the record bound, drops the file, or
    stores one that decodes again: this account's scopes only, each once,
    within the bounds. *)
Theorem sync_readiness_valid current intent now f' :
  let ad := adapter (intent_account intent) in
  let key := account_key (intent_account intent) in
  (∀ f, current = Some f → ReadinessFile_validate f ad key = Ok tt) →
  (∀ record, replacement intent = Some record →
     record_valid record ∧ same_identity (account record) (intent_account intent) ∧
     ∀ x, x ∈ refusals record → has_control (refusal_route (account record) x) = false) →
  sync_readiness current intent now = Ok (Some f') →
  ReadinessFile_validate f' ad key = Ok tt.
Proof.
  intros ad key Hcur Hrec H. unfold sync_readiness in H. apply result_bind_Ok in H as (f & H & Hf).
  assert (f' = f) as -> by (destruct (_ && _); naive_solver). clear Hf.
  assert (ReadinessFile_validate (unwrap_or current ReadinessFile_default) ad key = Ok tt) as Hfile.
  { destruct current as [g|]; [by apply Hcur|]. apply readiness_validate_Ok.
    split_and!; try done. constructor. }
  destruct (replacement intent) as [record|].
  - destruct (Hrec record eq_refl) as (Hr & [Had Hkey] & Hc).
    apply result_bind_Ok in H as (g & Hg & H). subst ad key. rewrite <-Had, <-Hkey in Hfile |- *.
    assert (ReadinessFile_validate g (adapter (account record)) (account_key (account record)) = Ok tt)
      as Hgv.
    { destruct (readiness_probe_result intent); [|by injection Hg as <-].
      refine (sync_probe_result_valid _ record LOCAL_HOST _ _ _ g Hfile _ _ Hg); by vm_compute. }
    refine (sync_refusals_valid _ record LOCAL_HOST _ f _ Hr _ _ Hc H); [|by vm_compute|by vm_compute].
    destruct (login_probe_expiry intent) as [[e i]|]; [|done].
    rewrite readiness_validate_Ok in Hgv |- *. destruct Hgv as (? & ? & _ & ? & ?).
    split_and!; try done. simpl. unfold login_invalid. simpl.
    by rewrite !bool_decide_eq_true_2.
  - injection H as <-. rewrite readiness_validate_Ok in Hfile |- *.
    destruct Hfile as (? & _). split_and!; try done. constructor.
Qed.
End Readiness.

(** ** A concrete file *)

Definition ex_scope : ReadinessScope := mkReadinessScope "local" "codex" "key-1" "codex/gpt-5".

Definition ex_ready : ReadinessFile :=
  mkReadinessFile 1 [mkObservation 1 ex_scope StateReady None 1900 2500 None (Some "probe:1")] None.

Lemma ready_needs_live_evidence_witness :
  @project json_example (@readiness_get jiff_example ex_ready ex_scope 2000)
    = @Ready json_example ∅ "probe:1" 2500 ∧
  ∃ r, r ∈ file_records ex_ready ∧ 2500 = obs_expires r.
Proof.
  split; [vm_compute; reflexivity|].
  destruct (@ready_needs_live_evidence json_example jiff_example ex_ready ex_scope 2000 ∅ "probe:1" 2500)
    as (r & Hr & _ & _ & _ & _ & He & _); [vm_compute; reflexivity|].
  exists r. split; [exact Hr|exact He].
Defined.

(** The refusal of [ex_refused] is published over the ready observation. *)
Definition ex_synced : ReadinessFile :=
  mkReadinessFile 1
    [mkObservation 1 ex_scope StateUnavailable (Some ProviderRefusal) 1990 5590 None
       (Some "provider-refusal")] None.

Lemma sync_refusals_exact_witness :
  @sync_refusals json_example jiff_example ex_ready ex_refused LOCAL_HOST ex_admission = Ok ex_synced ∧
  ∃ o, o ∈ file_records ex_synced ∧ obs_scope o = ex_scope.
Proof.
  split; [vm_compute; reflexivity|].
  destruct (@sync_refusals_exact json_example jiff_example ex_ready ex_refused LOCAL_HOST ex_admission
              ex_synced) as [H _]; [vm_compute; reflexivity|].
  destruct H as (H & _ & _); [vm_compute; reflexivity|].
  destruct (proj1 (H "codex/gpt-5")) as (o & [Ho _] & Hs).
  - eexists. split; [apply list_elem_of_here|]. split; [|reflexivity].
    exists 5590. split; [reflexivity|]. split; [by vm_compute|vm_compute; reflexivity].
  - exists o. split; [exact Ho|exact Hs].
Defined.

Lemma sync_readiness_valid_witness :
  @sync_readiness json_example jiff_example (Some ex_ready)
    (mkUpdateIntent ex_account None (Some ex_refused) None None) 2000 = Ok (Some ex_synced) ∧
  ReadinessFile_validate ex_synced "codex" "key-1" = Ok tt.
Proof.
  split; [vm_compute; reflexivity|].
  refine (@sync_readiness_valid json_example jiff_example (Some ex_ready)
            (mkUpdateIntent ex_account None (Some ex_refused) None None) 2000 ex_synced _ _ _).
  - intros f [= <-]. vm_compute. reflexivity.
  - intros record [= <-]. split; [exact ex_refused_valid|]. split; [by split|].
    intros x Hx. vm_compute in Hx. apply list_elem_of_singleton in Hx as ->. vm_compute. reflexivity.
  - vm_compute. reflexivity.
Defined.
