(* ===== verification/QuotaStore.v ===== *)
(** * QuotaStore: the compare-and-swap store of account records

    Models what [write_intent] of [crates/cli/src/quota.rs] does to the records
    in memory, and the pure part of [persist_provider_success]: every writer
    takes the quota lock, re-reads the records, computes an intent from the
    current record of its account and writes it.  What the store relies on is the class [UpdateOp]; the
    operations of [QuotaSchedule] and [QuotaAdmission] are its instances. *)

From stdpp Require Import base option list strings gmap sets.
From S2P Require Import Prelude External Adapters Routes CoreTime QuotaState QuotaSettings QuotaSchedule QuotaAdmission.

Local Open Scope string_scope.
Local Open Scope list_scope.
Local Open Scope Z_scope.
Local Open Scope rust_scope.

(** The errors of [EdgeError] of [crates/cli/src/quota.rs] the store raises,
    with every failure of an operating-system call in one constructor. *)
Inductive EdgeError := EdgeQuota (e : QuotaError) | EdgeIo | EdgeEncode | EdgeTooLarge.

Section Store.
Context {J : Json}.

#[local] Opaque AccountScope_validate QuotaSnapshot_validate AccountRecord_validate.

Definition is_account (a : AccountScope) (r : AccountRecord) : bool :=
  (adapter (account r) == adapter a) && (account_key (account r) == account_key a).

(** The records in memory after [write_intent] has made its durable write.  The
    size of the encoded record and the outcome of the file operations come from
    outside; the files themselves are in [QuotaEdge]. *)
Definition commit_intent (encoded_len : AccountRecord → Z) (io_ok : bool) (intent : UpdateIntent)
    (records : list AccountRecord) : result EdgeError (list AccountRecord) :=
  let pos := position (is_account (intent_account intent)) records in
  match check intent (pos ≫= λ p, records !! p) with
  | Err e => Err (EdgeQuota e)
  | Ok _ =>
      match replacement intent with
      | Some record =>
          if MAX_RECORD_BYTES <? encoded_len record
          then Err (EdgeQuota (Invalid "record bound"))
          else if negb io_ok then Err EdgeIo
          else Ok (match pos with
                   | Some p => <[p := record]> records
                   | None => records ++ [record]
                   end)
      | None =>
          if negb io_ok then Err EdgeIo
          else Ok (match pos with Some p => delete p records | None => records end)
      end
  end.

(** [persist_provider_success]: the intent, or [None] when nothing is written. *)
Definition provider_success (current : option AccountRecord) (adapter key : string)
    (account_label : option string) (now : Z) : result QuotaError (option UpdateIntent) :=
  next ← match current with
         | Some record => Ok (Some record)
         | None =>
             match account_label with
             | None => Ok None
             | Some label =>
                 let account := mkAccountScope adapter key label in
                 _ ← AccountScope_validate account;
                 Ok (Some (AccountRecord_empty account))
             end
         end;
  match next with
  | None => Ok None
  | Some next =>
      if last_error next == Some FailureAccountMismatch then Ok None
      else
        let next := set_auth_verified (Some now) next in
        let next := set_auth_retry_pending false next in
        let next := set_claim None next in
        let next :=
          if is_some_and (last_error next) needs_login
          then set_last_attempt None (set_backoff_until None (set_failures 0 (set_last_error None next)))
          else next in
        let next :=
          if is_some_and (snapshot next) (λ s, status s == StatusAuthRequired)
          then set_snapshot None next else next in
        bumped ← ok_or (checked_add_u64 (revision next) 1) NumberOutOfRange;
        let next := set_revision bumped next in
        Ok (Some (mkUpdateIntent (account next) current (Some next) None None))
  end.

(** ** The store *)

Definition key_of (r : AccountRecord) : string * string :=
  (adapter (account r), account_key (account r)).

(** What the store keeps: valid records, one per account. *)
Definition store_ok (l : list AccountRecord) : Prop :=
  Forall record_valid l ∧ NoDup (key_of <$> l).

Definition current (l : list AccountRecord) (a : AccountScope) : option AccountRecord :=
  find_record l (adapter a) (account_key a).

Lemma is_account_true a r : is_account a r = true ↔ same_identity (account r) a.
Proof. unfold is_account, same_identity. by rewrite andb_true_iff, !bool_decide_eq_true. Qed.

Lemma position_find {A} (p : A → bool) (l : list A) :
  (position p l ≫= λ i, l !! i) = List.find p l.
Proof.
  induction l as [|x l IH]; simpl; [done|]. destruct (p x); [done|].
  rewrite <-IH. by destruct (position p l).
Qed.

Lemma position_current l a :
  (position (is_account a) l ≫= λ p, l !! p) = current l a.
Proof. apply position_find. Qed.

Lemma commit_intent_Ok enc io i l l' :
  commit_intent enc io i l = Ok l' →
  intent_valid i (current l (intent_account i)) ∧ io = true ∧
  match replacement i with
  | Some r => enc r ≤ MAX_RECORD_BYTES ∧
      match position (is_account (intent_account i)) l with
      | Some p => l' = <[p := r]> l
      | None => l' = l ++ [r]
      end
  | None =>
      match position (is_account (intent_account i)) l with
      | Some p => l' = delete p l
      | None => l' = l
      end
  end.
Proof.
  unfold commit_intent. rewrite position_current.
  destruct (check i _) as [[]|] eqn:Hc; [|done]. apply check_Ok in Hc. intros H. split; [done|].
  destruct (replacement i) as [r|]; [destruct (Z.ltb_spec MAX_RECORD_BYTES (enc r)); [done|]|];
    destruct io; simpl in H; try done; injection H as <-; split; try done; [split; [lia|]|];
    by destruct (position _ l).
Qed.

(** In a store an account has at most one record, and [current] finds it. *)
Lemma current_Some l a r :
  store_ok l → current l a = Some r ↔ r ∈ l ∧ same_identity (account r) a.
Proof.
  intros [_ Hnd]. split.
  - intros (? & ? & ?)%find_record_Some. done.
  - intros [Hin Ha]. unfold current. destruct (find_record l _ _) as [r'|] eqn:E.
    + apply find_record_Some in E as (Hin' & ? & ?). f_equal.
      eapply (NoDup_key_inj key_of); try done. unfold key_of. destruct Ha. congruence.
    + unfold find_record in E. rewrite find_None_elem in E. specialize (E r Hin).
      apply is_account_true in Ha. unfold is_account in Ha. congruence.
Qed.

Lemma current_None l a :
  store_ok l → current l a = None ↔ ∀ r, r ∈ l → ¬ same_identity (account r) a.
Proof.
  intros Hl. rewrite eq_None_not_Some. unfold is_Some. setoid_rewrite (current_Some l a _ Hl).
  naive_solver.
Qed.

Lemma same_identity_key r a : same_identity (account r) a ↔ key_of r = (adapter a, account_key a).
Proof. unfold same_identity, key_of. split; [by intros [-> ->]|by intros [= -> ->]]. Qed.

(** A write swaps the record of one account and leaves the others, up to the
    order of the list. *)
Lemma commit_intent_swap enc io i l l' :
  store_ok l → commit_intent enc io i l = Ok l' →
  ∃ rest, l ≡ₚ option_list (current l (intent_account i)) ++ rest ∧
          l' ≡ₚ option_list (replacement i) ++ rest ∧
          ∀ x, x ∈ rest → ¬ same_identity (account x) (intent_account i).
Proof.
  intros Hl H. apply commit_intent_Ok in H as (Hi & _ & H).
  destruct (position _ l) as [p|] eqn:Hp.
  - apply position_split in Hp as (l1 & y & l2 & -> & -> & Hy & Hl1). exists (l1 ++ l2).
    apply is_account_true in Hy.
    assert (current (l1 ++ y :: l2) (intent_account i) = Some y) as ->
      by (apply current_Some; [done|set_solver]).
    split_and!.
    + simpl. by rewrite Permutation_middle.
    + destruct (replacement i) as [r|]; simpl.
      * destruct H as [_ ->]. by rewrite insert_middle, Permutation_middle.
      * by rewrite H, delete_middle.
    + intros x Hx Hxa. destruct Hl as [_ Hnd].
      rewrite fmap_app, fmap_cons, NoDup_app, list.NoDup_cons in Hnd.
      destruct Hnd as (_ & Hd & Hy2 & _). rewrite same_identity_key in Hy, Hxa.
      apply elem_of_app in Hx as [Hx|Hx].
      * rewrite list.Forall_forall in Hl1. specialize (Hl1 x Hx).
        apply not_true_iff_false in Hl1. by rewrite is_account_true, same_identity_key in Hl1.
      * apply Hy2. apply list_elem_of_fmap. exists x. split; [congruence|done].
  - apply position_None in Hp. rewrite list.Forall_forall in Hp.
    assert (∀ x, x ∈ l → ¬ same_identity (account x) (intent_account i)) as Hno.
    { intros x Hx. specialize (Hp x Hx). by rewrite <-is_account_true, Hp. }
    exists l. rewrite (proj2 (current_None l _ Hl) Hno). split_and!; [done| |done].
    destruct (replacement i) as [r|]; simpl; [|by rewrite H].
    destruct H as [_ ->]. by rewrite <-Permutation_cons_append.
Qed.

Lemma commit_intent_effect enc io i l l' :
  store_ok l → commit_intent enc io i l = Ok l' →
  store_ok l' ∧
  current l' (intent_account i) = replacement i ∧
  (∀ next, replacement i = Some next →
     revision next = from_option revision 0 (current l (intent_account i)) + 1) ∧
  (∀ a, ¬ same_identity a (intent_account i) → current l' a = current l a).
Proof.
  intros Hl H. pose proof H as (Hi & _ & _)%commit_intent_Ok.
  destruct (commit_intent_swap _ _ _ _ _ Hl H) as (rest & Hperm & Hperm' & Hrest).
  assert (∀ next, replacement i = Some next →
    record_valid next ∧ same_identity (account next) (intent_account i)) as Hnext.
  { intros next Hn. destruct (iv_next _ _ Hi next Hn) as (? & ? & _). done. }
  assert (store_ok l') as Hl'.
  { destruct Hl as [Hv Hnd]. unfold store_ok. rewrite Hperm in Hv, Hnd. rewrite Hperm'.
    rewrite fmap_app in Hnd. rewrite Forall_app in Hv. destruct Hv as [_ Hv].
    apply NoDup_app in Hnd as (_ & _ & Hnd).
    destruct (replacement i) as [r|]; [|done]. destruct (Hnext r eq_refl) as [Hr Ha].
    split; [by constructor|]. simpl. apply list.NoDup_cons. split; [|done].
    intros (x & Hx & Hin)%list_elem_of_fmap. apply (Hrest x Hin).
    rewrite same_identity_key in Ha |- *. congruence. }
  split; [done|]. split; [|split].
  - destruct (replacement i) as [r|].
    + apply current_Some; [done|]. rewrite Hperm'. split; [set_solver|]. by apply Hnext.
    + apply current_None; [done|]. intros r. rewrite Hperm'. simpl. auto.
  - intros next Hn. destruct (iv_next _ _ Hi next Hn) as (_ & _ & -> & _).
    unfold expected_revision. by rewrite (iv_current _ _ Hi).
  - intros a Ha. apply option_eq. intros r.
    rewrite (current_Some l' a r Hl'), (current_Some l a r Hl), Hperm, Hperm', !elem_of_app.
    assert (∀ o, (∀ x, o = Some x → same_identity (account x) (intent_account i)) →
      r ∈ option_list o → ¬ same_identity (account r) a) as Hskip.
    { intros [x|] Ho Hr; [|by apply not_elem_of_nil in Hr].
      apply list_elem_of_singleton in Hr as ->. intros Hra. apply Ha.
      destruct (Ho x eq_refl), Hra. split; congruence. }
    pose proof (Hskip (replacement i) (λ x Hx, proj2 (Hnext x Hx))).
    pose proof (Hskip (current l (intent_account i))
                  (λ x Hx, proj2 (proj1 (current_Some l _ x Hl) Hx))).
    tauto.
Qed.

(** ** What the store relies on

    An operation computes an intent from the current record of the account
    [a]; [None] writes nothing.  The interface promises that the intent of a
    valid record is one the store accepts, and that it is of this account. *)

Abbreviation operation := (option AccountRecord → result QuotaError (option UpdateIntent)).

Class UpdateOp (a : AccountScope) (op : operation) : Prop := {
  op_valid : ∀ cur i, (∀ r, cur = Some r → record_valid r) →
    op cur = Ok (Some i) → intent_valid i cur;
  op_identity : ∀ cur i, (∀ r, cur = Some r → same_identity (account r) a) →
    op cur = Ok (Some i) → same_identity (intent_account i) a;
  op_replaces : ∀ cur i, op cur = Ok (Some i) → is_Some (replacement i);
}.

Definition lift (r : result QuotaError UpdateIntent) : result QuotaError (option UpdateIntent) :=
  i ← r; Ok (Some i).

Lemma lift_Ok r i : lift r = Ok (Some i) ↔ r = Ok i.
Proof. unfold lift. rewrite result_bind_Ok. naive_solver. Qed.

Definition reserve_op (policies : list QuotaPolicy) (a : AccountScope) (now : Z) (tok : string)
    (trigger : Trigger) (power : Power) : operation :=
  λ cur, lift (reserve policies cur a now tok trigger power).

(** A completion finds its record gone when the account was dropped. *)
Definition complete_op (tok : string) (now : Z) (outcome : result ProbeFailure QuotaSnapshot)
    (retry_after : option Z) : operation :=
  λ cur, match cur with
         | Some r => lift (complete r tok now outcome retry_after)
         | None => Err Conflict
         end.

Definition refusal_op (a : AccountScope) (model : string) (pool : option string) (now : Z)
    (resets : option Z) : operation :=
  λ cur, lift (record_refusal cur a model pool now resets).

Definition cooldown_op (a : AccountScope) (model : string) (now seconds : Z) : operation :=
  λ cur, record_capacity_cooldown cur a model now seconds.

Definition success_op (a : AccountScope) (label : option string) (now : Z) : operation :=
  λ cur, provider_success cur (adapter a) (account_key a) label now.

Lemma same_identity_refl a : same_identity a a.
Proof. by split. Qed.

(** The account an operation of [QuotaSchedule] and [QuotaAdmission] works on. *)
Lemma current_or_empty_account cur (a : AccountScope) :
  (∀ r, cur = Some r → same_identity (account r) a) →
  same_identity (account (current_or_empty cur a)) a.
Proof. destruct cur; simpl; auto using same_identity_refl. Qed.

(** An intent whose replacement is the next revision of the record it expects. *)
Lemma next_intent_valid cur a a' next :
  (∀ r, cur = Some r → account r = a') →
  scope_valid a' → same_identity (account next) a' → record_valid next →
  revision next = revision (current_or_empty cur a) + 1 →
  0 ≤ revision next ≤ u64_max →
  intent_valid (mkUpdateIntent a' cur (Some next) None None) cur.
Proof.
  intros Hc Ha Hid Hv Hrev Hb. constructor; simpl; try done.
  intros n [= <-]. unfold expected_revision. simpl.
  destruct cur as [r|]; simpl in *; split_and!; try done; lia.
Qed.

#[export] Instance reserve_UpdateOp policies a now tok trigger power :
  UpdateOp a (reserve_op policies a now tok trigger power).
Proof.
  constructor; unfold reserve_op; intros cur i; setoid_rewrite lift_Ok.
  - intros Hv (Ha & Ht & Hr & Hid & _ & Hrev & Hnow & ->)%reserve_Ok.
    apply (next_intent_valid _ a); simpl; try done.
    + by intros r ->.
    + exact (rv_scope _ Hr).
    + by destruct Hid; split.
    + by apply reserved_valid.
  - intros Hid (_ & _ & _ & H & _ & _ & _ & ->)%reserve_Ok. done.
  - intros (_ & _ & _ & _ & _ & _ & _ & ->)%reserve_Ok. by eexists.
Qed.

(** The two ends of a completion in one form. *)
Lemma complete_Ok r tok now outcome retry_after i :
  i64_min ≤ now → complete r tok now outcome retry_after = Ok i →
  record_valid r ∧ live_claim r tok now ∧
  ∃ next, i = mkUpdateIntent (account r) (Some r) (Some next) None None ∧ record_valid next ∧
    account next = account r ∧ revision next = revision r + 1 ∧ 0 ≤ revision next ≤ u64_max ∧
    claim next = None.
Proof.
  intros Hnow. destruct outcome as [s|f].
  - intros (Hr & Hl & Hrev & Hs & Ha & _ & ->)%complete_success_Ok.
    split_and!; try done. exists (succeeded r s). split_and!; simpl; try done; try lia.
    by apply succeeded_valid.
  - intros (Hr & Hl & Hrev & (t & Ht & Hmax) & ->)%complete_failure_Ok; [|done].
    split_and!; try done. exists (failed r now f retry_after). split_and!; simpl; try done; try lia.
    by eapply failed_valid.
Qed.

Lemma complete_UpdateOp a tok now outcome retry_after :
  i64_min ≤ now → UpdateOp a (complete_op tok now outcome retry_after).
Proof.
  intros Hnow. constructor; unfold complete_op; intros [r|] i; try done; rewrite ?lift_Ok.
  - intros Hv (Hr & _ & next & -> & ? & Hacc & ? & ? & _)%complete_Ok; [|done].
    apply (next_intent_valid _ a); try done; [by intros ? [= <-]|exact (rv_scope _ Hr)|].
    rewrite Hacc. apply same_identity_refl.
  - intros Hid (_ & _ & next & -> & _)%complete_Ok; [|done]. simpl. by apply Hid.
  - intros (_ & _ & next & -> & _)%complete_Ok; [|done]. by eexists.
Qed.

#[export] Instance refusal_UpdateOp a model pool now resets :
  UpdateOp a (refusal_op a model pool now resets).
Proof.
  constructor; unfold refusal_op; intros cur i; setoid_rewrite lift_Ok.
  - intros Hv (m & Hacc & Hne & Hlen & Hc & Hr & Hrev & Hroom & ->)%record_refusal_Ok.
    apply (next_intent_valid _ a); simpl; try done.
    + intros r ->. done.
    + exact (ra_scope _ _ _ _ _ _ Hacc).
    + by rewrite Hc.
    + apply with_refusal_valid; try done. split_and!; try done.
      intros q Hq. destruct (ra_pool _ _ _ _ _ _ Hacc q Hq) as (? & ? & _). done.
  - intros Hid (m & _ & _ & _ & _ & _ & _ & _ & ->)%record_refusal_Ok. apply same_identity_refl.
  - intros (m & _ & _ & _ & _ & _ & _ & _ & ->)%record_refusal_Ok. by eexists.
Qed.

Lemma cooldown_UpdateOp a model now seconds :
  0 ≤ seconds → UpdateOp a (cooldown_op a model now seconds).
Proof.
  intros Hs. constructor; unfold cooldown_op; intros cur i.
  - intros Hv H. apply capacity_cooldown_Ok in H as [[_ ?]|H]; [done| |done].
    destruct H as (? & m & ? & -> & ? & ? & ? & Hc & ? & ? & Hr & Hrev & Hroom & [= ->]).
    apply (next_intent_valid _ a); simpl; try done.
    + intros r ->. done.
    + by rewrite Hc.
    + by apply with_cooldown_valid.
  - intros Hid H. apply capacity_cooldown_Ok in H as [[_ ?]|H]; [done| |done].
    destruct H as (? & m & ? & -> & ? & ? & ? & Hc & ? & ? & Hr & Hrev & Hroom & [= ->]).
    apply same_identity_refl.
  - intros H. apply capacity_cooldown_Ok in H as [[_ ?]|H]; [done| |done].
    destruct H as (? & m & ? & -> & ? & ? & ? & Hc & ? & ? & Hr & Hrev & Hroom & [= ->]).
    by eexists.
Qed.

(** The record a successful lane leaves: verified, without claim, without a
    login failure or a snapshot that asks for a login. *)
Definition verified (r : AccountRecord) (now : Z) : AccountRecord :=
  let login := is_some_and (last_error r) needs_login in
  mkAccountRecord (schema_version r) (account r) (revision r + 1)
    (if is_some_and (snapshot r) (λ s, status s == StatusAuthRequired) then None else snapshot r)
    None (if login then None else last_attempt r) (if login then None else backoff_until r)
    (if login then 0 else failures r) (if login then None else last_error r) (Some now)
    (credential_metadata r) false (refusals r) (capacity_cooldowns r).

Lemma verified_valid r now : record_valid r → record_valid (verified r now).
Proof.
  intros Hr. apply (completed_valid r); try done.
  - intros b Hb. unfold verified in *. simpl in *.
    destruct (is_some_and (last_error r) needs_login); [done|]. exact (rv_backoff r Hr b Hb).
  - intros s Hs. unfold verified in *. simpl in *.
    destruct (is_some_and (snapshot r) _); [done|].
    destruct (rv_snapshot r Hr s Hs) as (? & ? & ?). split_and!; try done. lia.
Qed.

Lemma provider_success_Ok cur ad key label now i :
  provider_success cur ad key label now = Ok (Some i) →
  ∃ r, (cur = Some r ∨
        cur = None ∧ ∃ l, scope_valid (mkAccountScope ad key l) ∧
                          r = AccountRecord_empty (mkAccountScope ad key l)) ∧
    last_error r ≠ Some FailureAccountMismatch ∧ 0 ≤ revision r + 1 ≤ u64_max ∧
    i = mkUpdateIntent (account r) cur (Some (verified r now)) None None.
Proof.
  unfold provider_success. intros (o & Ho & H)%result_bind_Ok.
  destruct o as [r|]; [|done]. exists r. split.
  { destruct cur as [r'|]; [left; naive_solver|right; split; [done|]].
    destruct label as [l|]; [|done]. apply result_seq_Ok in Ho as [Ha [= <-]]. by exists l. }
  case_bool_decide; [done|]. split; [done|].
  apply result_bind_Ok in H as (b & Hb%ok_or_Ok%checked_add_u64_Some & [= <-]).
  unfold verified. simpl in Hb. simpl.
  destruct (is_some_and (last_error r) needs_login); simpl in *;
    destruct (is_some_and (snapshot r) _); simpl in *; destruct Hb as [-> ?]; split; done.
Qed.

#[export] Instance success_UpdateOp a label now : UpdateOp a (success_op a label now).
Proof.
  constructor; unfold success_op; intros cur i.
  - intros Hv (r & Hr & _ & Hrev & ->)%provider_success_Ok.
    assert (record_valid r) as Hrv.
    { destruct Hr as [->|(-> & l & ? & ->)]; [by apply Hv|by apply empty_valid]. }
    apply (next_intent_valid _ (account r)); simpl; try done.
    + destruct Hr as [->|(-> & _)]; [by intros ? [= <-]|done].
    + exact (rv_scope r Hrv).
    + by apply verified_valid.
    + by destruct Hr as [->|(-> & l & ? & ->)].
  - intros Hid (r & Hr & _ & _ & ->)%provider_success_Ok. simpl.
    destruct Hr as [->|(-> & l & ? & ->)]; [by apply Hid|by split].
  - intros (r & _ & _ & _ & ->)%provider_success_Ok. by eexists.
Qed.

(** under the lock an operation never conflicts.  Every operation of the
    interface computed from the record the store holds commits unless the
    write itself fails or the record is too large to store: the store then
    holds the operation's replacement for that account and is well formed. *)
Theorem locked_update_commits enc a op l i :
  UpdateOp a op → store_ok l → op (current l a) = Ok (Some i) →
  (∀ r, replacement i = Some r → enc r ≤ MAX_RECORD_BYTES) →
  ∃ next l', replacement i = Some next ∧ commit_intent enc true i l = Ok l' ∧
    current l' a = Some next ∧ store_ok l'.
Proof.
  intros Hop Hl Hi Henc.
  assert (∀ r, current l a = Some r → record_valid r ∧ same_identity (account r) a) as Hcur.
  { intros r Hr. apply (current_Some l a r Hl) in Hr as [Hin ?]. split; [|done].
    destruct Hl as [Hv _]. rewrite list.Forall_forall in Hv. auto. }
  pose proof (op_valid (current l a) i (λ r Hr, proj1 (Hcur r Hr)) Hi) as Hiv.
  pose proof (op_identity (current l a) i (λ r Hr, proj2 (Hcur r Hr)) Hi) as Hid.
  destruct (op_replaces (current l a) i Hi) as [next Hn].
  assert (current l (intent_account i) = current l a) as Hsame.
  { destruct Hid as [H1 H2]. unfold current. by rewrite H1, H2. }
  destruct (commit_intent enc true i l) as [l'|e] eqn:Hw.
  - exists next, l'. destruct (commit_intent_effect _ _ _ _ _ Hl Hw) as (Hl' & Hc' & _). split_and!; try done.
    destruct Hid as [H1 H2]. unfold current in *. by rewrite <-H1, <-H2, <-Hn.
  - exfalso. unfold commit_intent in Hw. rewrite position_current, Hsame in Hw.
    rewrite (proj2 (check_Ok i (current l a)) Hiv), Hn in Hw. simpl in Hw.
    destruct (Z.ltb_spec MAX_RECORD_BYTES (enc next)) as [Hlt|]; [|done].
    specialize (Henc next Hn). lia.
Qed.

(** No lost update.  An intent computed from another record than the one
    the store now holds writes nothing and reports a conflict; in particular
    an intent that replaced a record commits at most once. *)
Theorem stale_intent_conflicts enc io i l l' :
  scope_valid (intent_account i) → store_ok l →
  (current l (intent_account i) ≠ expected i → commit_intent enc io i l = Err (EdgeQuota Conflict)) ∧
  (is_Some (replacement i) → commit_intent enc io i l = Ok l' →
     commit_intent enc io i l' = Err (EdgeQuota Conflict)).
Proof.
  intros Ha Hl.
  assert (∀ l, current l (intent_account i) ≠ expected i →
    commit_intent enc io i l = Err (EdgeQuota Conflict)) as Hstale.
  { intros k Hne. unfold commit_intent. rewrite position_current. unfold check. rewrite Ha. simpl.
    by rewrite bool_decide_eq_false_2. }
  split; [apply Hstale|]. intros [next Hn] Hw. apply Hstale.
  destruct (commit_intent_effect _ _ _ _ _ Hl Hw) as (_ & Hc & Hrev & _).
  apply commit_intent_Ok in Hw as (Hi & _ & _).
  rewrite Hc, <-(iv_current _ _ Hi). rewrite Hn. intros Heq.
  specialize (Hrev next Hn). rewrite <-Heq in Hrev. simpl in Hrev. lia.
Qed.

(** ** The probe protocol of one account

    Every operation runs under the lock on the record the store holds, so the
    history of an account is a sequence of events, each of which commits or
    leaves the record alone. *)

Inductive Event :=
| EReserve (policies : list QuotaPolicy) (a : AccountScope) (now : Z) (tok : string)
    (trigger : Trigger) (power : Power)
| EComplete (tok : string) (now : Z) (outcome : result ProbeFailure QuotaSnapshot)
    (retry_after : option Z)
| ERefusal (a : AccountScope) (model : string) (pool : option string) (now : Z) (resets : option Z)
| ECooldown (a : AccountScope) (model : string) (now seconds : Z)
| ESuccess (a : AccountScope) (label : option string) (now : Z).

Definition event_op (e : Event) : operation :=
  match e with
  | EReserve policies a now tok trigger power => reserve_op policies a now tok trigger power
  | EComplete tok now outcome retry_after => complete_op tok now outcome retry_after
  | ERefusal a model pool now resets => refusal_op a model pool now resets
  | ECooldown a model now seconds => cooldown_op a model now seconds
  | ESuccess a label now => success_op a label now
  end.

(** The committed intent of an event, if it commits. *)
Definition commit (cur : option AccountRecord) (e : Event) : option UpdateIntent :=
  match event_op e cur with Ok (Some i) => Some i | _ => None end.

Definition after (cur : option AccountRecord) (e : Event) : option AccountRecord :=
  match commit cur e with Some i => replacement i | None => cur end.

(** The widths of the machine integers in an event. *)
Definition event_typed (e : Event) : Prop :=
  match e with
  | EComplete _ now _ _ => i64_min ≤ now
  | ECooldown _ _ _ seconds => 0 ≤ seconds
  | _ => True
  end.

Definition claim_of (cur : option AccountRecord) : option RefreshClaim := cur ≫= claim.

(** What each event does to the claim. *)
Lemma commit_claim cur e i :
  event_typed e → commit cur e = Some i →
  match e with
  | EReserve _ _ now tok _ _ =>
      claim_of (after cur e) = Some (mkRefreshClaim tok (now + TICK_BUDGET_SECONDS)) ∧
      (∀ c, claim_of cur = Some c → claim_deadline c ≤ now)
  | EComplete tok now _ _ =>
      claim_of (after cur e) = None ∧
      (∃ c, claim_of cur = Some c ∧ token c = tok ∧ now < claim_deadline c)
  | ERefusal _ _ _ _ _ | ECooldown _ _ _ _ => claim_of (after cur e) = claim_of cur
  | ESuccess _ _ _ => claim_of (after cur e) = None
  end.
Proof.
  intros Ht Hc. unfold after. rewrite Hc. unfold commit in Hc.
  destruct (event_op e cur) as [[i'|]|] eqn:He; try done. injection Hc as ->.
  destruct e as [policies a now tok trigger power|tok now outcome ra|a model p now resets|a model now secs|a label now];
    simpl in He, Ht.
  - apply lift_Ok, reserve_Ok in He as (_ & _ & _ & _ & (due & Hdue & ?) & _ & _ & ->).
    split; [done|]. intros c Hc. destruct cur as [r|]; [|done].
    apply next_due_Some in Hdue as (ttl & _ & Hcl & _). specialize (Hcl c Hc). lia.
  - destruct cur as [r|]; [|done].
    apply lift_Ok, complete_Ok in He as (_ & (c & t & Hcl & _ & ? & ?) & next & -> & _ & _ & _ & _ & Hn); [|done].
    split; [exact Hn|]. exists c. split_and!; try done. lia.
  - apply lift_Ok, record_refusal_Ok in He as (m & _ & _ & _ & _ & _ & _ & _ & ->).
    by destruct cur.
  - apply capacity_cooldown_Ok in He as [[_ ?]|He]; [done| |done].
    destruct He as (? & m & ? & -> & ? & ? & ? & ? & ? & ? & ? & ? & ? & [= ->]). by destruct cur.
  - apply provider_success_Ok in He as (r & _ & _ & _ & ->). done.
Qed.

Definition holds (tok : string) (cur : option AccountRecord) : nat :=
  if is_some_and (claim_of cur) (λ c, token c == tok) then 1%nat else 0%nat.

Definition commits (p : Event → bool) (cur : option AccountRecord) (e : Event) : nat :=
  if p e && is_some (commit cur e) then 1%nat else 0%nat.
Definition is_complete (tok : string) (e : Event) : bool :=
  match e with EComplete t _ _ _ => t == tok | _ => false end.
Definition is_reserve (tok : string) (e : Event) : bool :=
  match e with EReserve _ _ _ t _ _ => t == tok | _ => false end.

Fixpoint total (p : Event → bool) (cur : option AccountRecord) (es : list Event) : nat :=
  match es with
  | [] => 0%nat
  | e :: es' => (commits p cur e + total p (after cur e) es')%nat
  end.

Lemma commits_balance tok cur e :
  event_typed e →
  (commits (is_complete tok) cur e + holds tok (after cur e)
   ≤ commits (is_reserve tok) cur e + holds tok cur)%nat.
Proof.
  intros Ht. unfold commits. destruct (commit cur e) as [i|] eqn:Hc.
  2:{ unfold after. rewrite Hc. simpl. rewrite !andb_false_r. lia. }
  pose proof (commit_claim cur e i Ht Hc) as H. simpl. rewrite !andb_true_r.
  unfold holds. destruct e as [policies a now tk trigger power|tk now outcome ra|a model p now resets|a model now secs|a label now];
    simpl.
  - destruct H as [-> _]. simpl. destruct (tk == tok), (is_some_and (claim_of cur) _); lia.
  - destruct H as (-> & c & -> & <- & _). simpl. destruct (token c == tok); lia.
  - rewrite H. lia.
  - rewrite H. lia.
  - rewrite H. simpl. lia.
Qed.

(** a claim is completed at most once.  Over any history of an account
    the completions with a token never outnumber the reservations that took
    it (and the claim that was held at the start): a second answer of the same
    probe, an answer after a newer reservation or after a lane's own evidence
    changes nothing. *)
Theorem completions_bounded tok cur es :
  Forall event_typed es →
  (total (is_complete tok) cur es ≤ total (is_reserve tok) cur es + holds tok cur)%nat.
Proof.
  revert cur; induction es as [|e es IH]; intros cur Ht; simpl; [lia|].
  apply Forall_cons_iff in Ht as [He Ht].
  pose proof (commits_balance tok cur e He). pose proof (IH (after cur e) Ht). lia.
Qed.

(** An event that ends the claim in flight before its deadline. *)
Definition ends_claim (e : Event) : bool :=
  match e with EComplete _ _ _ _ | ESuccess _ _ _ => true | _ => false end.

Lemma claim_persists cur es d :
  Forall event_typed es → total ends_claim cur es = 0%nat →
  (∃ c, claim_of cur = Some c ∧ d ≤ claim_deadline c) →
  ∃ c, claim_of (foldl after cur es) = Some c ∧ d ≤ claim_deadline c.
Proof.
  revert cur; induction es as [|e es IH]; intros cur Ht Hz Hc; simpl in *; [done|].
  apply Forall_cons_iff in Ht as [He Ht]. apply IH; [done|lia|].
  unfold commits in Hz. destruct (commit cur e) as [i|] eqn:Hcm; [|unfold after; by rewrite Hcm].
  pose proof (commit_claim cur e i He Hcm) as H. simpl in Hz. rewrite andb_true_r in Hz.
  destruct e; simpl in Hz; try lia; [|by rewrite H|by rewrite H].
  destruct H as [-> H], Hc as (c & Hc & Hd). eexists. split; [done|]. simpl.
  specialize (H c Hc). unfold TICK_BUDGET_SECONDS, DEFAULT_WALL_BUDGET_SECONDS. lia.
Qed.

(** C26: probes of one account never overlap.  After a reservation at [t1] the
    next one commits no earlier than the claim's deadline, unless the probe
    was completed or a lane's success ended the claim in between; no trigger,
    power state, pending login retry or recorded evidence shortens that. *)
Theorem probes_never_overlap cur es p1 a1 t1 tok1 tr1 pw1 p2 a2 t2 tok2 tr2 pw2 i1 i2 :
  commit cur (EReserve p1 a1 t1 tok1 tr1 pw1) = Some i1 →
  Forall event_typed es →
  total ends_claim (replacement i1) es = 0%nat →
  commit (foldl after (replacement i1) es) (EReserve p2 a2 t2 tok2 tr2 pw2) = Some i2 →
  t1 + TICK_BUDGET_SECONDS ≤ t2.
Proof.
  intros H1 Hes Hz H2.
  destruct (commit_claim cur (EReserve p1 a1 t1 tok1 tr1 pw1) i1 I H1) as [Hc _]. unfold after in Hc. rewrite H1 in Hc.
  destruct (claim_persists (replacement i1) es (t1 + TICK_BUDGET_SECONDS) Hes Hz) as (c & Hcl & Hd).
  { by eexists. }
  destruct (commit_claim _ (EReserve p2 a2 t2 tok2 tr2 pw2) i2 I H2) as [_ H]. specialize (H c Hcl). lia.
Qed.

(** A failed probe backs off.  On the record it leaves no reservation
    commits before the backoff of that failure ends, unless the user's own
    login retry asks for it; for every failure but a network one the polling
    interval since the attempt must have passed as well.  The backoff is at
    least 15 seconds and at most a day, and grows with the failure count up to
    its cap. *)
Theorem failed_probe_backs_off r tok now f retry_after i next policies a t tok2 trigger power i2 :
  i64_min ≤ now →
  complete r tok now (Err f) retry_after = Ok i → replacement i = Some next →
  event_auth_retry next trigger = false →
  reserve policies (Some next) a t tok2 trigger power = Ok i2 →
  now + backoff f (failures next) retry_after ≤ t ∧
  15 ≤ backoff f (failures next) retry_after ≤ 86400 ∧
  backoff_base f (failures next) ≤ backoff f (failures next) retry_after ∧
  (last_error next ≠ Some Network → ∃ ttl started,
     interval policies (adapter (account next)) trigger power = Some ttl ∧
     last_attempt next = Some started ∧ started + ttl ≤ t).
Proof.
  intros Hnow H Hn Hev Hres.
  apply complete_failure_Ok in H as (_ & _ & _ & (started & Hst & _) & ->); [|done].
  injection Hn as <-. apply reserve_Ok in Hres as (_ & _ & _ & _ & (due & Hdue & ?) & _).
  apply next_due_Some in Hdue as (ttl & Httl & _ & Hd). destruct (Hd Hev) as [Hb Ha].
  specialize (Hb _ eq_refl). simpl in Hb. split_and!.
  - simpl. lia.
  - apply backoff_range.
  - apply backoff_range.
  - rewrite backoff_eq. lia.
  - intros Hne. exists ttl, started. split_and!; try done. specialize (Ha started Hst Hne). lia.
Qed.
End Store.

(** ** A concrete history *)

Definition ex_event_reserve (t : Z) (tok : string) : Event :=
  EReserve quota_policies ex_account t tok Timer Ac.
Definition ex_history : list Event :=
  [ERefusal ex_account "codex/gpt-5" None 1010 None; ECooldown ex_account "codex/gpt-5" 1020 60].

Definition ex_enc (_ : @AccountRecord json_example) : Z := 1000.

Lemma ex_store_ok : store_ok [ex_record].
Proof.
  split; [apply list.Forall_singleton; by apply empty_valid|].
  apply list.NoDup_singleton.
Qed.

Definition ex_reserve_intent : @UpdateIntent json_example :=
  mkUpdateIntent ex_account (Some ex_record) (Some ex_reserved) None None.

Lemma locked_update_commits_witness :
  ∃ next l', commit_intent ex_enc true ex_reserve_intent [ex_record] = Ok l' ∧
    current l' ex_account = Some next.
Proof.
  destruct (locked_update_commits ex_enc ex_account
              (reserve_op quota_policies ex_account 1000 "tok" Timer Ac) [ex_record] ex_reserve_intent
              (reserve_UpdateOp _ _ _ _ _ _) ex_store_ok ltac:(vm_compute; reflexivity))
    as (next & l' & _ & Hw & Hc & _).
  { intros r _. by vm_compute. }
  exists next, l'. split; [exact Hw|exact Hc].
Defined.

Lemma stale_intent_conflicts_witness :
  commit_intent ex_enc true ex_reserve_intent [ex_reserved] = Err (EdgeQuota Conflict).
Proof.
  refine (proj2 (stale_intent_conflicts ex_enc true ex_reserve_intent [ex_record] [ex_reserved]
                   _ ex_store_ok) _ _).
  - vm_compute. reflexivity.
  - by eexists.
  - vm_compute. reflexivity.
Defined.

Lemma completions_bounded_witness :
  (@total json_example (is_complete "tok") None
     [ex_event_reserve 1000 "tok"; EComplete "tok" 1010 (Err Network) None;
      EComplete "tok" 1011 (Err Network) None] ≤ 1)%nat.
Proof.
  refine (@completions_bounded json_example "tok" None
            [ex_event_reserve 1000 "tok"; EComplete "tok" 1010 (Err Network) None;
             EComplete "tok" 1011 (Err Network) None] _).
  repeat constructor; by vm_compute.
Defined.

Definition ex_intent_1000 : @UpdateIntent json_example :=
  mkUpdateIntent ex_account None (Some (reserved (AccountRecord_empty ex_account) ex_account 1000 "tok"))
    None None.
Definition ex_state_1020 : option (@AccountRecord json_example) :=
  Eval vm_compute in foldl after (replacement ex_intent_1000) ex_history.

Lemma probes_never_overlap_witness :
  is_some (commit ex_state_1020 (ex_event_reserve 1900 "tok2")) = true ∧
  1000 + TICK_BUDGET_SECONDS ≤ 1900.
Proof.
  split; [vm_compute; reflexivity|].
  destruct (commit ex_state_1020 (ex_event_reserve 1900 "tok2")) as [i2|] eqn:H2.
  - refine (@probes_never_overlap json_example None ex_history quota_policies ex_account 1000 "tok" Timer Ac
              quota_policies ex_account 1900 "tok2" Timer Ac ex_intent_1000 i2 _ _ _ _).
    + vm_compute. reflexivity.
    + repeat constructor; by vm_compute.
    + vm_compute. reflexivity.
    + exact H2.
  - vm_compute in H2. discriminate H2.
Defined.

Lemma failed_probe_backs_off_witness :
  1010 + backoff Network 1 None ≤ 1025 ∧
  is_ok (reserve quota_policies (Some (failed ex_reserved 1010 Network None)) ex_account 1025 "tok2"
           Timer Ac) = true.
Proof.
  split; [|vm_compute; reflexivity].
  destruct (reserve quota_policies (Some (failed ex_reserved 1010 Network None)) ex_account 1025 "tok2"
              Timer Ac) as [i2|] eqn:H2; [|vm_compute in H2; discriminate H2].
  refine (proj1 (failed_probe_backs_off ex_reserved "tok" 1010 Network None
            (mkUpdateIntent ex_account (Some ex_reserved)
               (Some (failed ex_reserved 1010 Network None)) None None)
            (failed ex_reserved 1010 Network None) quota_policies ex_account 1025 "tok2" Timer Ac i2
            _ _ eq_refl _ H2)); vm_compute; try reflexivity. discriminate.
Defined.
