(* ===== verification/QuotaPlan.v ===== *)
(** * QuotaPlan: one scheduler tick

    Models the second half of [crates/quota/src/schedule.rs]: the checks on
    stored records and detected accounts, and the plan of a tick (which
    records to drop, which accounts to probe and in which batches). *)

From stdpp Require Import base option list strings gmap sets.
From S2P Require Import Prelude External Adapters Routes CoreTime QuotaState QuotaSettings QuotaSchedule QuotaAdmission.

Local Open Scope string_scope.
Local Open Scope list_scope.
Local Open Scope Z_scope.
Local Open Scope rust_scope.

Record QuotaQuery := mkQuotaQuery { query_adapter : option string }.
Record QuotaTick := mkQuotaTick {
  tick_adapter : option string;
  tick_trigger : Trigger;
  tick_power : Power;
}.

(** [None] is unknown detection, never an authoritative empty account list. *)
Record Detection := mkDetection {
  det_adapter : string;
  det_accounts : option (list AccountScope);
  det_status : QuotaStatus;
}.

Definition selected (filter : option string) (id : string) : bool := is_none_or filter (λ s, s == id).

Definition same_account (a b : AccountScope) : bool :=
  (adapter a == adapter b) && (account_key a == account_key b).

Definition detected (d : Detection) (a : AccountScope) : bool :=
  is_some_and (det_accounts d) (λ accounts, existsb (λ x, same_account x a) accounts).

(** ** Validating detections *)

Definition scope_key (a : AccountScope) : string * string := (adapter a, account_key a).

(** The accounts of one detection, with the accounts seen so far; their number
    is the number of accounts counted. *)
Fixpoint validate_accounts (det : string) (seen : list (string * string)) (l : list AccountScope)
    : result QuotaError (list (string * string)) :=
  match l with
  | [] => Ok seen
  | a :: l' =>
      _ ← AccountScope_validate a;
      if (MAX_ACCOUNTS <? len seen + 1) || (adapter a != det) || bool_decide (scope_key a ∈ seen)
      then Err (Invalid "detected account")
      else validate_accounts det (scope_key a :: seen) l'
  end.

Definition failed_detection (st : QuotaStatus) : bool :=
  match st with StatusUnknown | StatusUnsupported | Stale => true | _ => false end.

Fixpoint validate_detections (seen : list (string * string)) (adapters : list string)
    (l : list Detection) : result QuotaError unit :=
  match l with
  | [] => Ok tt
  | d :: l' =>
      if is_some (det_accounts d) && failed_detection (det_status d)
      then Err (Invalid "failed detection cannot assert accounts") else
      if negb (component (det_adapter d)) || bool_decide (det_adapter d ∈ adapters)
      then Err (Invalid "duplicate adapter") else
      seen ← validate_accounts (det_adapter d) seen (unwrap_or (det_accounts d) []);
      validate_detections seen (det_adapter d :: adapters) l'
  end.

Section Plan.
Context {J : Json} {T : Jiff}.

#[local] Opaque AccountScope_validate QuotaSnapshot_validate AccountRecord_validate.

Fixpoint validate_records (seen : list (string * string)) (l : list AccountRecord)
    : result QuotaError unit :=
  match l with
  | [] => Ok tt
  | r :: l' =>
      _ ← AccountRecord_validate r;
      if bool_decide (scope_key (account r) ∈ seen) then Err (Invalid "duplicate account")
      else validate_records (scope_key (account r) :: seen) l'
  end.

Definition validate_inputs (records : list AccountRecord) (detections : list Detection)
    : result QuotaError unit :=
  if (MAX_ACCOUNTS <? len records) || (MAX_ACCOUNTS <? len detections)
  then Err (Invalid "account bound") else
  _ ← validate_records [] records;
  validate_detections [] [] detections.

(** ** Drops *)

Definition retaining (adapter : string) : bool :=
  is_some_and (get adapter) retain_quota_accounts.

Definition absent_from_detection (detections : list Detection) (a : AccountScope) : bool :=
  existsb (λ d,
    (det_adapter d == adapter a)
    && match det_accounts d with
       | Some accounts => negb (existsb (λ x, same_account x a) accounts)
       | None => det_status d == StatusUnsupported
       end) detections.

Definition drops (tick : QuotaTick) (detections : list Detection) (records : list AccountRecord)
    : list UpdateIntent :=
  map (λ r, mkUpdateIntent (account r) (Some r) None None None)
    (List.filter (λ r,
       selected (tick_adapter tick) (adapter (account r))
       && negb (retaining (adapter (account r)))
       && absent_from_detection detections (account r)) records).

(** ** Probes *)

(** An ambient sign-out of the only account, with no recorded failure or lane
    evidence to weigh it against, needs no probe. *)
Definition ambient_signed_out (records : list AccountRecord) (d : Detection) : bool :=
  (det_status d == StatusAuthRequired)
  && is_some_and (det_accounts d) (λ a, len a =? 1)
  && negb (existsb (λ r,
       (auth_retry_pending r || is_some_and (last_error r) needs_login || is_some (auth_verified r))
       && detected d (account r)) records).

Definition probe_candidates (tick : QuotaTick) (records : list AccountRecord)
    (detections : list Detection) : list AccountScope :=
  flat_map (λ d, unwrap_or (det_accounts d) [])
    (List.filter (λ d, selected (tick_adapter tick) (det_adapter d)
                       && negb (ambient_signed_out records d)) detections).

Definition missing_readiness_of (missing : list (string * string)) (a : AccountScope) : bool :=
  existsb (λ '(ad, key), (ad == adapter a) && (key == account_key a)) missing.

(** The trigger under which the tick considers an account. *)
Definition probe_trigger (policies : list QuotaPolicy) (records : list AccountRecord)
    (tick : QuotaTick) (missing : list (string * string)) (a : AccountScope)
    : result QuotaError Trigger :=
  trigger_for_readiness policies (find_record records (adapter a) (account_key a))
    (tick_trigger tick) (tick_power tick) (missing_readiness_of missing a).

Definition account_due (policies : list QuotaPolicy) (records : list AccountRecord)
    (tick : QuotaTick) (missing : list (string * string)) (now : Z) (a : AccountScope)
    : result QuotaError bool :=
  trigger ← probe_trigger policies records tick missing a;
  due ← match find_record records (adapter a) (account_key a) with
        | Some record => next_due policies record trigger (tick_power tick)
        | None => Ok ((λ _ : Z, i64_min) <$> interval policies (adapter a) trigger (tick_power tick))
        end;
  Ok (is_some_and due (λ due, due <=? now)).

Fixpoint due_accounts (policies : list QuotaPolicy) (records : list AccountRecord)
    (tick : QuotaTick) (missing : list (string * string)) (now : Z) (l : list AccountScope)
    : result QuotaError (list AccountScope) :=
  match l with
  | [] => Ok []
  | a :: l' =>
      due ← account_due policies records tick missing now a;
      rest ← due_accounts policies records tick missing now l';
      Ok (if (due : bool) then a :: rest else rest)
  end.

Definition is_solo (policies : list QuotaPolicy) (a : AccountScope) : bool :=
  existsb (λ p, (policy_adapter p == adapter a) && solo p) policies.

Record TickPlan := mkTickPlan {
  plan_drops : list UpdateIntent;
  batches : list (list AccountScope);
  plan_deadline : Z;
}.

Definition plan_tick_with_settings (policies : list QuotaPolicy) (records : list AccountRecord)
    (detections : list Detection) (tick : QuotaTick) (now : Z) (settings : Settings)
    (missing : list (string * string)) : result QuotaError TickPlan :=
  if negb (bool_decide (len (Settings_validate settings) = 0))
  then Err (Invalid "scheduling settings") else
  _ ← validate_inputs records detections;
  due ← due_accounts policies records tick missing now (probe_candidates tick records detections);
  let cheap := List.filter (λ a, negb (is_solo policies a)) due in
  let solo := map (λ a, [a]) (List.filter (is_solo policies) due) in
  deadline ← add now (wall_budget_seconds settings);
  Ok (mkTickPlan (drops tick detections records)
        (chunks (Z.to_nat (max_parallel settings)) cheap ++ solo) deadline).

Definition plan_tick (policies : list QuotaPolicy) (records : list AccountRecord)
    (detections : list Detection) (tick : QuotaTick) (now : Z) : result QuotaError TickPlan :=
  plan_tick_with_settings policies records detections tick now Settings_default [].

(** ** What validated inputs are *)

Lemma validate_records_Ok seen l :
  validate_records seen l = Ok tt ↔
  Forall record_valid l ∧ NoDup (scope_key ∘ account <$> l) ∧
  Forall (λ r, scope_key (account r) ∉ seen) l.
Proof.
  revert seen; induction l as [|r l IH]; intros seen; simpl.
  { split; [|done]. intros _. split_and!; constructor. }
  rewrite result_seq_Ok, result_guard_Ok, validate_Ok, bool_decide_eq_false, IH,
    !Forall_cons_iff, list.NoDup_cons, list_elem_of_fmap, !list.Forall_forall.
  setoid_rewrite not_elem_of_cons. split.
  - intros (? & ? & ? & ? & Hl). split_and!; try done; [|naive_solver].
    intros (y & Hy & Hin). destruct (Hl y Hin) as [Hne _]. by apply Hne.
  - intros ((? & ?) & (Hr & ?) & ? & ?). split_and!; try done.
    intros y Hy. split; [|auto]. intros Heq. apply Hr. by exists y.
Qed.

Lemma validate_accounts_Ok det seen l seen' :
  validate_accounts det seen l = Ok seen' →
  Forall (λ a, scope_valid a ∧ adapter a = det) l ∧ NoDup (scope_key <$> l) ∧
  (∀ a, a ∈ l → scope_key a ∉ seen) ∧ (∀ k, k ∈ seen' ↔ k ∈ seen ∨ k ∈ scope_key <$> l).
Proof.
  revert seen; induction l as [|a l IH]; intros seen H; simpl in H.
  { injection H as ->. split_and!; try constructor; set_solver. }
  rewrite result_seq_Ok, result_guard_Ok, !orb_false_iff, negb_false_iff, bool_decide_eq_true,
    bool_decide_eq_false in H.
  destruct H as (Ha & ((_ & Hd) & Hn) & (Hall & Hnd & Hs & Hk)%IH). split_and!.
  - by constructor.
  - simpl. apply list.NoDup_cons. split; [|done].
    intros (b & Heq & Hb)%list_elem_of_fmap. apply (Hs b Hb). rewrite Heq. set_solver.
  - intros b [->|Hb]%elem_of_cons; [done|]. specialize (Hs b Hb). set_solver.
  - intros k. rewrite Hk. simpl. set_solver.
Qed.

(** No account is detected twice, whatever the adapters. *)
Lemma validate_detections_Ok seen adapters l :
  validate_detections seen adapters l = Ok tt →
  NoDup (scope_key <$> flat_map (λ d, unwrap_or (det_accounts d) []) l) ∧
  (∀ a, a ∈ flat_map (λ d, unwrap_or (det_accounts d) []) l → scope_valid a ∧ scope_key a ∉ seen).
Proof.
  revert seen adapters; induction l as [|d l IH]; intros seen adapters H; simpl in H |- *.
  { split; [constructor|]. intros a Ha. by apply not_elem_of_nil in Ha. }
  rewrite !result_guard_Ok, result_bind_Ok in H.
  destruct H as (_ & _ & seen' & (Hall & Hnd & Hs & Hk)%validate_accounts_Ok & [Hnd' Hin]%IH).
  rewrite list.Forall_forall in Hall. split.
  - rewrite fmap_app, NoDup_app. split_and!; try done.
    intros k Hk1 (b & -> & Hb)%list_elem_of_fmap. apply (proj2 (Hin b Hb)). apply Hk. by right.
  - intros a [Ha|Ha]%elem_of_app.
    + split; [by apply Hall|by apply Hs].
    + destruct (Hin a Ha) as [? Hn]. split; [done|]. contradict Hn. apply Hk. by left.
Qed.


Lemma probe_candidates_NoDup tick records detections :
  validate_inputs records detections = Ok tt →
  NoDup (scope_key <$> probe_candidates tick records detections) ∧
  (∀ a, a ∈ probe_candidates tick records detections → scope_valid a) ∧ Forall record_valid records ∧
  NoDup (scope_key ∘ account <$> records).
Proof.
  unfold validate_inputs. rewrite result_guard_Ok, result_seq_Ok.
  intros (_ & (? & ? & _)%validate_records_Ok & [Hnd Hin]%validate_detections_Ok).
  pose proof (flat_map_filter_sublist (λ d, selected (tick_adapter tick) (det_adapter d)
    && negb (ambient_signed_out records d)) (λ d, unwrap_or (det_accounts d) []) detections) as Hsub.
  split_and!; try done.
  - eapply sublist_NoDup; [exact Hnd|]. by apply fmap_sublist.
  - intros a Ha. apply Hin. eapply elem_of_sublist; [exact Ha|exact Hsub].
Qed.

Lemma due_accounts_Ok policies records tick missing now l due :
  due_accounts policies records tick missing now l = Ok due →
  due `sublist_of` l ∧
  ∀ a, a ∈ due ↔ a ∈ l ∧ account_due policies records tick missing now a = Ok true.
Proof.
  revert due; induction l as [|a l IH]; intros due H; simpl in H.
  { injection H as <-. split; [done|]. set_solver. }
  apply result_bind_Ok in H as (b & Hb & H). apply result_bind_Ok in H as (rest & Hr & [= <-]).
  destruct (IH rest Hr) as [Hsub Hin]. destruct b; (split; [by constructor|]); intros x;
    rewrite ?elem_of_cons, Hin; [naive_solver|].
  split; [naive_solver|]. intros [[->|?] ?]; [congruence|done].
Qed.

Lemma concat_singletons {A} (l : list A) : concat (map (λ a, [a]) l) = l.
Proof. induction l as [|x l IH]; simpl; [done|]. by rewrite IH. Qed.

Lemma filter_split {A} (q : A → bool) l :
  List.filter (λ x, negb (q x)) l ++ List.filter q l ≡ₚ l.
Proof.
  induction l as [|x l IH]; simpl; [done|]. destruct (q x); simpl; [|by rewrite IH].
  by rewrite <-Permutation_middle, IH.
Qed.

Lemma plan_tick_Ok policies records detections tick now settings missing plan :
  plan_tick_with_settings policies records detections tick now settings missing = Ok plan →
  settings_valid settings ∧ validate_inputs records detections = Ok tt ∧
  ∃ due, due_accounts policies records tick missing now
           (probe_candidates tick records detections) = Ok due ∧
    plan_drops plan = drops tick detections records ∧
    plan_deadline plan = now + wall_budget_seconds settings ∧
    batches plan = chunks (Z.to_nat (max_parallel settings))
                     (List.filter (λ a, negb (is_solo policies a)) due)
                   ++ map (λ a, [a]) (List.filter (is_solo policies) due).
Proof.
  unfold plan_tick_with_settings. intros H.
  rewrite result_guard_Ok, negb_false_iff, bool_decide_eq_true, result_seq_Ok in H.
  destruct H as (Hs & Hin & H).
  assert (settings_valid settings).
  { apply settings_validate_nil. unfold len in Hs. by destruct (Settings_validate settings). }
  apply result_bind_Ok in H as (due & Hdue & H).
  apply result_bind_Ok in H as (d & [-> _]%add_Ok & [= <-]). split_and!; try done. by exists due.
Qed.

(** The probes of a tick are exactly the accounts that are due.  The
    batches hold the detected, selected accounts whose due time has come, each
    account once; no batch is empty or larger than the configured parallelism,
    and an account of a solo adapter is alone in its batch. *)
Theorem plan_probes_exact policies records detections tick now settings missing plan :
  plan_tick_with_settings policies records detections tick now settings missing = Ok plan →
  (∀ a, a ∈ concat (batches plan) ↔
     a ∈ probe_candidates tick records detections ∧
     account_due policies records tick missing now a = Ok true) ∧
  NoDup (scope_key <$> concat (batches plan)) ∧
  (∀ b, b ∈ batches plan → 1 ≤ len b ≤ max_parallel settings) ∧
  (∀ b a, b ∈ batches plan → a ∈ b → is_solo policies a = true → b = [a]) ∧
  plan_deadline plan = now + wall_budget_seconds settings.
Proof.
  intros (Hs & Hin & due & [Hsub Hdue]%due_accounts_Ok & _ & Hdl & Hb)%plan_tick_Ok.
  destruct (sv_parallel _ Hs) as [Hp _].
  assert (0 < Z.to_nat (max_parallel settings))%nat as Hpos by lia.
  assert (concat (batches plan) ≡ₚ due) as Hperm.
  { rewrite Hb, concat_app, chunks_concat, concat_singletons by done. apply filter_split. }
  destruct (probe_candidates_NoDup tick records detections Hin) as (Hnd & _ & _).
  split_and!; try done.
  - intros a. rewrite Hperm. apply Hdue.
  - rewrite Hperm. eapply sublist_NoDup; [exact Hnd|]. by apply fmap_sublist.
  - intros b. rewrite Hb, elem_of_app. intros [Hc|(a & <- & _)%list_elem_of_In%in_map_iff].
    + pose proof (chunks_bound (Z.to_nat (max_parallel settings))
        (List.filter (λ a, negb (is_solo policies a)) due)) as H1.
      pose proof (chunks_nonempty (Z.to_nat (max_parallel settings))
        (List.filter (λ a, negb (is_solo policies a)) due) Hpos) as H2.
      rewrite list.Forall_forall in H1, H2. specialize (H1 b Hc). specialize (H2 b Hc).
      unfold len. destruct b; simpl in *; [done|lia].
    + unfold len. simpl. lia.
  - intros b a. rewrite Hb, elem_of_app. intros [Hc|(x & <- & _)%list_elem_of_In%in_map_iff] Ha Hsolo.
    + assert (a ∈ concat (chunks (Z.to_nat (max_parallel settings))
        (List.filter (λ a, negb (is_solo policies a)) due))) as Hc'.
      { apply list_elem_of_In, in_concat. exists b. by rewrite <-!list_elem_of_In. }
      rewrite chunks_concat, bfilter_elem, negb_true_iff in Hc' by done. destruct Hc'. congruence.
    + by apply list_elem_of_singleton in Ha as ->.
Qed.

(** Every planned probe can be reserved.  An account the plan batches is
    due under the trigger the plan used for it, so reserving it at once with a
    well-formed token succeeds on the records the plan was made from, short of
    an overflow of the revision or the clock. *)
Theorem planned_probe_reserves policies records detections tick now settings missing plan a tok :
  plan_tick_with_settings policies records detections tick now settings missing = Ok plan →
  a ∈ concat (batches plan) → component tok = true → i64_min ≤ now →
  i64_min ≤ now + TICK_BUDGET_SECONDS ≤ i64_max →
  (∀ r, find_record records (adapter a) (account_key a) = Some r → 0 ≤ revision r < u64_max) →
  ∃ trigger intent, probe_trigger policies records tick missing a = Ok trigger ∧
    reserve policies (find_record records (adapter a) (account_key a)) a now tok trigger
      (tick_power tick) = Ok intent.
Proof.
  intros (Hs & Hin & due & [Hsub Hdue]%due_accounts_Ok & _ & _ & Hb)%plan_tick_Ok Ha Htok Hmin Hnow Hrev.
  destruct (sv_parallel _ Hs) as [Hp _].
  assert (concat (batches plan) ≡ₚ due) as Hperm.
  { rewrite Hb, concat_app, chunks_concat, concat_singletons by lia. apply filter_split. }
  rewrite Hperm, Hdue in Ha. destruct Ha as [Hc Hd].
  destruct (probe_candidates_NoDup tick records detections Hin) as (_ & Hsc & Hv & _).
  apply result_bind_Ok in Hd as (trigger & Htr & Hd).
  apply result_bind_Ok in Hd as (d & Hd & [= Hle]).
  apply is_some_and_true in Hle as (t & -> & Hle%Z.leb_le). exists trigger.
  destruct (find_record records _ _) as [r|] eqn:Hf; eexists; (split; [done|]); apply reserve_Ok; simpl.
  - specialize (Hrev r eq_refl). apply find_record_Some in Hf as (Hr & ? & ?).
    rewrite list.Forall_forall in Hv. split; [by apply Hsc|]. split; [done|]. split; [by apply Hv|].
    split; [by split|]. split; [by exists t|]. split; [lia|]. by split.
  - injection Hd as Hd. apply fmap_Some in Hd as (n & Hn & ->).
    split; [by apply Hsc|]. split; [done|]. split; [by apply empty_valid, Hsc|].
    split; [by split|]. split; [|by split].
    exists i64_min. split; [|done]. unfold next_due. simpl. by rewrite Hn.
Qed.

(** ** Drops *)

(** Detections are one per adapter and list accounts of that adapter only. *)
Lemma validate_detections_adapters seen adapters l :
  validate_detections seen adapters l = Ok tt →
  NoDup (det_adapter <$> l) ∧ (∀ d, d ∈ l → det_adapter d ∉ adapters) ∧
  (∀ d accounts a, d ∈ l → det_accounts d = Some accounts → a ∈ accounts → adapter a = det_adapter d).
Proof.
  revert seen adapters; induction l as [|d l IH]; intros seen adapters H; simpl in H |- *.
  { split_and!; [constructor| |]; intros d; set_solver. }
  rewrite !result_guard_Ok, result_bind_Ok, orb_false_iff, bool_decide_eq_false in H.
  destruct H as (_ & [_ Hd] & seen' & (Hall & _)%validate_accounts_Ok & (Hnd & Hn & Hacc)%IH).
  split_and!.
  - apply list.NoDup_cons. split; [|done]. intros (d' & Heq & Hd')%list_elem_of_fmap.
    specialize (Hn d' Hd'). rewrite Heq in Hn. set_solver.
  - intros d' [->|Hd']%elem_of_cons; [done|]. specialize (Hn d' Hd'). set_solver.
  - intros d' accounts a [->|Hd']%elem_of_cons Ha Hin; [|by eauto].
    rewrite Ha in Hall. rewrite list.Forall_forall in Hall. by apply Hall.
Qed.

Lemma same_account_true a b : same_account a b = true ↔ same_identity a b.
Proof. unfold same_account, same_identity. by rewrite andb_true_iff, !bool_decide_eq_true. Qed.

(** The detection that shows an account gone. *)
Definition shows_gone (d : Detection) (a : AccountScope) : Prop :=
  det_adapter d = adapter a ∧
  ((∃ accounts, det_accounts d = Some accounts ∧ ∀ x, x ∈ accounts → ¬ same_identity x a) ∨
   (det_accounts d = None ∧ det_status d = StatusUnsupported)).

Lemma absent_from_detection_true detections a :
  absent_from_detection detections a = true ↔ ∃ d, d ∈ detections ∧ shows_gone d a.
Proof.
  unfold absent_from_detection, shows_gone. rewrite existsb_elem.
  setoid_rewrite andb_true_iff. setoid_rewrite bool_decide_eq_true.
  split; intros (d & Hd & Ha & H); exists d; (split; [done|]); (split; [done|]).
  - destruct (det_accounts d) as [l|]; [left|right; split; [done|by apply bool_decide_eq_true in H]].
    exists l. split; [done|]. rewrite negb_true_iff, existsb_false_elem in H.
    intros x Hx. specialize (H x Hx). by rewrite <-same_account_true, H.
  - destruct H as [(l & -> & H)|[-> ->]]; [|done].
    rewrite negb_true_iff, existsb_false_elem. intros x Hx. specialize (H x Hx).
    apply not_true_iff_false. by rewrite same_account_true.
Qed.

(** A tick drops a record only on evidence that the account is gone.  The
    drops are exactly the stored records of the selected adapters that do not
    retain accounts and whose adapter's detection either lists accounts
    without this one or finds the adapter unsupported: an unknown detection
    drops nothing.  No account is dropped and probed in the same tick. *)
Theorem plan_drops_exact policies records detections tick now settings missing plan :
  plan_tick_with_settings policies records detections tick now settings missing = Ok plan →
  (∀ i, i ∈ plan_drops plan ↔ ∃ r, r ∈ records ∧
     i = mkUpdateIntent (account r) (Some r) None None None ∧
     selected (tick_adapter tick) (adapter (account r)) = true ∧
     retaining (adapter (account r)) = false ∧
     ∃ d, d ∈ detections ∧ shows_gone d (account r)) ∧
  (∀ i a, i ∈ plan_drops plan → a ∈ concat (batches plan) → ¬ same_identity a (intent_account i)).
Proof.
  intros (Hs & Hin & due & [Hsub Hdue]%due_accounts_Ok & Hdrops & _ & Hb)%plan_tick_Ok.
  assert (∀ i, i ∈ plan_drops plan ↔ ∃ r, r ∈ records ∧
     i = mkUpdateIntent (account r) (Some r) None None None ∧
     selected (tick_adapter tick) (adapter (account r)) = true ∧
     retaining (adapter (account r)) = false ∧
     ∃ d, d ∈ detections ∧ shows_gone d (account r)) as Hex.
  { intros i. rewrite Hdrops. unfold drops. rewrite list_elem_of_In, in_map_iff.
    setoid_rewrite <-list_elem_of_In. setoid_rewrite bfilter_elem.
    setoid_rewrite andb_true_iff. setoid_rewrite andb_true_iff. setoid_rewrite negb_true_iff.
    setoid_rewrite absent_from_detection_true. naive_solver. }
  split; [done|]. intros i a (r & _ & -> & _ & _ & d & Hd & Had & Hgone)%Hex Ha Hid. simpl in Hid.
  assert (a ∈ probe_candidates tick records detections) as Hc.
  { apply Hdue. rewrite <-(filter_split (is_solo policies) due).
    rewrite Hb, concat_app, concat_singletons in Ha. destruct (sv_parallel _ Hs).
    by rewrite chunks_concat in Ha by lia. }
  apply list_elem_of_In, in_flat_map in Hc as (d' & [Hd' _]%filter_In & Hacc).
  rewrite <-list_elem_of_In in Hd'. rewrite <-list_elem_of_In in Hacc.
  destruct (det_accounts d') as [l|] eqn:Hl; [|by apply not_elem_of_nil in Hacc]. simpl in Hacc.
  unfold validate_inputs in Hin. rewrite result_guard_Ok, result_seq_Ok in Hin.
  destruct Hin as (_ & _ & (Hnd & _ & Hadp)%validate_detections_adapters).
  assert (d' = d) as ->.
  { eapply (NoDup_key_inj det_adapter); try done. rewrite <-(Hadp d' l a Hd' Hl Hacc), Had.
    by destruct Hid. }
  destruct Hgone as [(l' & Hl' & Hno)|[Hl' _]]; [|congruence].
  rewrite Hl in Hl'. injection Hl' as <-. by apply (Hno a).
Qed.
End Plan.

(** ** A concrete tick *)

Definition ex_solo : AccountScope := mkAccountScope "agy" "agy-1" "Agy".
Definition ex_gone : AccountScope := mkAccountScope "codex" "old" "Old".
Definition ex_detections : list Detection :=
  [mkDetection "codex" (Some [ex_account]) Available; mkDetection "agy" (Some [ex_solo]) Available].
Definition ex_tick : QuotaTick := mkQuotaTick None Timer Ac.
Definition ex_records : list (@AccountRecord json_example) :=
  [ex_record; AccountRecord_empty ex_gone].

Definition ex_plan : @TickPlan json_example :=
  mkTickPlan [mkUpdateIntent ex_gone (Some (AccountRecord_empty ex_gone)) None None None]
    [[ex_account]; [ex_solo]] 2055.

Lemma ex_plan_eq :
  @plan_tick_with_settings json_example jiff_example quota_policies ex_records ex_detections ex_tick
    2000 Settings_default [] = Ok ex_plan.
Proof. vm_compute. reflexivity. Qed.

Lemma plan_probes_exact_witness :
  NoDup (scope_key <$> concat (batches ex_plan)) ∧ plan_deadline ex_plan = 2000 + 55.
Proof.
  destruct (@plan_probes_exact json_example jiff_example quota_policies ex_records ex_detections ex_tick
              2000 Settings_default [] ex_plan ex_plan_eq) as (_ & Hnd & _ & _ & Hd).
  split; [exact Hnd|exact Hd].
Defined.

Lemma planned_probe_reserves_witness :
  ∃ trigger intent,
    probe_trigger quota_policies ex_records ex_tick [] ex_account = Ok trigger ∧
    reserve quota_policies (find_record ex_records "codex" "key-1") ex_account 2000 "tok" trigger Ac
      = Ok intent.
Proof.
  refine (@planned_probe_reserves json_example jiff_example quota_policies ex_records ex_detections
            ex_tick 2000 Settings_default [] ex_plan ex_account "tok" ex_plan_eq _ _ _ _ _).
  - apply list_elem_of_here.
  - vm_compute. reflexivity.
  - by vm_compute.
  - by vm_compute.
  - intros r Hr. vm_compute in Hr. injection Hr as <-. by vm_compute.
Defined.

Lemma plan_drops_exact_witness :
  ∃ r, r ∈ ex_records ∧ account r = ex_gone.
Proof.
  destruct (proj1 (proj1 (@plan_drops_exact json_example jiff_example quota_policies ex_records
              ex_detections ex_tick 2000 Settings_default [] ex_plan ex_plan_eq)
              (mkUpdateIntent ex_gone (Some (AccountRecord_empty ex_gone)) None None None)))
    as (r & Hr & Heq & _).
  - apply list_elem_of_here.
  - exists r. split; [exact Hr|]. injection Heq as H _. symmetry. exact H.
Defined.
