(* ===== verification/QuotaReport.v ===== *)
(** * QuotaReport: what the report shows of an account

    Models [report] of [crates/quota/src/schedule.rs] and its row types of
    [state.rs].  Times are printed and parsed back through [jiff]. *)

From stdpp Require Import base option list strings gmap sets.
From S2P Require Import Prelude External Adapters Routes CoreTime QuotaState QuotaSettings QuotaSchedule QuotaAdmission QuotaReadiness QuotaPlan.

Local Open Scope string_scope.
Local Open Scope list_scope.
Local Open Scope Z_scope.
Local Open Scope rust_scope.

Record RefusalRow := mkRefusalRow {
  row_model : string;
  row_pool : option string;
  row_resets_at : option string;
}.

Record CapacityCooldownRow := mkCapacityCooldownRow {
  cooldown_model : string;
  cooldown_observed : Z;
  cooldown_expires : Z;
  remaining_seconds : Z;
}.

Record LoginExpiryView := mkLoginExpiryView {
  view_state : LoginExpiryState;
  view_expires : option Z;
  view_observed : option Z;
}.

Record RowDisplay := mkRowDisplay {
  row_id : string;
  row_name : option string;
  hidden : bool;
  order : option Z;
  row_headline : option Headline;
}.

Record AccountRow := mkAccountRow {
  row_account : AccountScope;
  row_readiness : option ReadinessRead;
  row_login_expiry : option LoginExpiryView;
  row_snapshot : option QuotaSnapshot;
  row_status : QuotaStatus;
  row_free_resets_at : option string;
  row_refusals : list RefusalRow;
  free_pool_refusal : bool;
  age_seconds : option Z;
  row_next_due : option Z;
  refreshing : bool;
  row_error : option ProbeFailure;
  row_repair : option string;
  row_cooldowns : list CapacityCooldownRow;
  row_display : option RowDisplay;
}.

Record SourceRow := mkSourceRow {
  source_adapter : string;
  source_status : QuotaStatus;
  source_error : option ProbeFailure;
  source_next_due : option Z;
}.

Record Coverage := mkCoverage { total : Z; known : Z }.

Record QuotaReport := mkQuotaReport {
  report_schema_version : Z;
  generated : Z;
  accounts : list AccountRow;
  sources : list SourceRow;
  report_coverage : Coverage;
  refreshing_ids : list string;
  report_next_due : option Z;
  report_path : string;
  report_display : Display;
  display_icon_warning : option string;
}.

(** [iter().min()] and [iter().max()] with the order of the elements. *)
Definition list_min (l : list Z) : option Z :=
  match l with [] => None | x :: l' => Some (fold_left Z.min l' x) end.

Section Report.
Context {J : Json} {T : Jiff}.

#[local] Opaque AccountScope_validate QuotaSnapshot_validate AccountRecord_validate.

Definition timestamp_max (l : list Timestamp) : option Timestamp :=
  match l with
  | [] => None
  | x :: l' => Some (fold_left (λ a b, if Timestamp_leb a b then b else a) l' x)
  end.

(** [collect::<Option<Vec<_>>>]. *)
Fixpoint sequence {A} (l : list (option A)) : option (list A) :=
  match l with
  | [] => Some []
  | Some x :: l' => cons x <$> sequence l'
  | None :: _ => None
  end.

(** A record is left out when detections were made and none lists it. *)
Definition is_shown (detections : list Detection) (a : AccountScope) : bool :=
  bool_decide (len detections = 0)
  || existsb (λ d, (det_adapter d == adapter a) && detected d a) detections.

Definition snapshot_age (now : Z) (s : QuotaSnapshot) : Z :=
  unwrap_or (u64_try_from_i64 (Z.max (saturating_sub_i64 now (observed s)) 0)) u64_max.

Definition auth_required (detections : list Detection) (r : AccountRecord) (now : Z) : bool :=
  is_some_and (last_error r) needs_login
  || (negb (is_some_and (auth_verified r) (λ at_, (at_ <=? now) && (saturating_sub_i64 now at_ <? 900)))
      && existsb (λ d, (det_adapter d == adapter (account r)) && (det_status d == StatusAuthRequired)
                       && is_some_and (det_accounts d) (λ a, len a =? 1)) detections).

Definition snapshot_fresh (policies : list QuotaPolicy) (detections : list Detection)
    (r : AccountRecord) (now : Z) : bool :=
  is_some_and (snapshot r) (λ s,
    (observed s <=? now) && is_none (last_error r) && negb (auth_required detections r now)
    && (snapshot_age now s
        <? unwrap_or (interval policies (adapter (account r)) Timer Ac) 0)).

Definition refusal_active (now : Z) (r : Refusal) : bool :=
  (ref_observed r <=? now)
  && match ref_expires r with Ok expires => now <? expires | Err _ => false end.

Definition refusal_row (now : Z) (r : Refusal) : RefusalRow :=
  mkRefusalRow (ref_model r) (ref_pool r)
    (reset ← ref_resets r;
     if now <? reset then Timestamp_to_string <$> from_second reset else None).

Definition refusal_rows (r : AccountRecord) (now : Z) : list RefusalRow :=
  map (refusal_row now) (List.filter (refusal_active now) (refusals r)).

(** The free pool of the account, when it is the adapter's free account. *)
Definition free_pool_of (a : AccountScope) : option (option string) :=
  spec ← get (adapter a);
  key ← fst <$> free_account spec;
  if account_key a == key then Some (Adapters.free_pool spec) else None.

Definition active_free_refusals (r : AccountRecord) (now : Z) : list RefusalRow :=
  match free_pool_of (account r) with
  | Some pool => List.filter (λ x, row_pool x == pool) (refusal_rows r now)
  | None => []
  end.

Definition status_of (policies : list QuotaPolicy) (detections : list Detection)
    (r : AccountRecord) (now : Z) : QuotaStatus :=
  if last_error r == Some IsolatedKeychainUnavailable then KeychainUnavailable
  else if negb (bool_decide (len (active_free_refusals r now) = 0)) then StatusExhausted
  else if auth_required detections r now then StatusAuthRequired
  else match snapshot r with
       | Some s => if snapshot_fresh policies detections r now then status s else Stale
       | None => if last_error r == Some FailureDisabled then StatusUnsupported else StatusUnknown
       end.

(** The latest reset of the active free refusals, when each names one. *)
Definition free_resets_at (r : AccountRecord) (now : Z) : option string :=
  let active := active_free_refusals r now in
  if bool_decide (len active = 0) then None
  else
    resets ← sequence (map row_resets_at active);
    latest ← timestamp_max (omap Timestamp_parse resets);
    Some (Timestamp_to_string latest).

Definition cooldown_row (now : Z) (c : CapacityCooldown) : CapacityCooldownRow :=
  mkCapacityCooldownRow (cool_model c) (cool_observed c) (cool_expires c)
    (unwrap_or (u64_try_from_i64 (saturating_sub_i64 (cool_expires c) now)) u64_max).

Definition account_row (policies : list QuotaPolicy) (detections : list Detection)
    (r : AccountRecord) (now : Z) : result QuotaError AccountRow :=
  due ← next_due policies r Timer Ac;
  Ok (mkAccountRow (account r) None None (snapshot r) (status_of policies detections r now)
        (free_resets_at r now) (refusal_rows r now)
        (negb (bool_decide (len (active_free_refusals r now) = 0)))
        (snapshot_age now <$> snapshot r) ((λ d, Z.max d now) <$> due)
        (is_some_and (claim r) (λ c, now <? claim_deadline c)) (last_error r) None
        (map (cooldown_row now)
           (List.filter (λ c, (cool_observed c <=? now) && (now <? cool_expires c))
              (capacity_cooldowns r)))
        None).

Fixpoint account_rows (policies : list QuotaPolicy) (detections : list Detection) (now : Z)
    (l : list AccountRecord) : result QuotaError (list AccountRow) :=
  match l with
  | [] => Ok []
  | r :: l' =>
      row ← account_row policies detections r now;
      rows ← account_rows policies detections now l';
      Ok (row :: rows)
  end.

Definition is_known (row : AccountRow) : bool := comparable_status (row_status row).

Definition report (policies : list QuotaPolicy) (records : list AccountRecord)
    (detections : list Detection) (query : QuotaQuery) (now : Z) (path : string)
    : result QuotaError QuotaReport :=
  _ ← validate_inputs records detections;
  rows ← account_rows policies detections now
           (List.filter (λ r, is_shown detections (account r))
              (List.filter (λ r, selected (query_adapter query) (adapter (account r))) records));
  let sources :=
    map (λ d, mkSourceRow (det_adapter d) (det_status d)
                (if det_status d == StatusUnsupported then Some FailureDisabled else None) None)
      (List.filter (λ d, selected (query_adapter query) (det_adapter d)
                         && is_none_or (det_accounts d) (λ a, bool_decide (len a = 0))) detections) in
  Ok (mkQuotaReport 1 now rows sources
        (mkCoverage (len rows) (len (List.filter is_known rows)))
        (map (λ r, account_key (row_account r) +:+ "/" +:+ adapter (row_account r))
           (List.filter refreshing rows))
        (list_min (omap row_next_due rows)) path Display_default None).

(** ** Rows *)

Lemma account_rows_Ok policies detections now l rows :
  account_rows policies detections now l = Ok rows →
  Forall2 (λ r row, account_row policies detections r now = Ok row) l rows.
Proof.
  revert rows; induction l as [|r l IH]; intros rows H; simpl in H.
  { injection H as <-. constructor. }
  apply result_bind_Ok in H as (row & Hrow & H). apply result_bind_Ok in H as (rest & Hr & [= <-]).
  constructor; auto.
Qed.

(** The records a report shows, in order. *)
Definition shown_records (records : list AccountRecord) (detections : list Detection)
    (query : QuotaQuery) : list AccountRecord :=
  List.filter (λ r, is_shown detections (account r))
    (List.filter (λ r, selected (query_adapter query) (adapter (account r))) records).

Lemma report_Ok policies records detections query now path rep :
  report policies records detections query now path = Ok rep →
  Forall2 (λ r row, account_row policies detections r now = Ok row)
    (shown_records records detections query) (accounts rep) ∧
  report_coverage rep = mkCoverage (len (accounts rep)) (len (List.filter is_known (accounts rep))) ∧
  report_next_due rep = list_min (omap row_next_due (accounts rep)) ∧
  refreshing_ids rep =
    map (λ r, account_key (row_account r) +:+ "/" +:+ adapter (row_account r))
      (List.filter refreshing (accounts rep)).
Proof.
  unfold report. rewrite result_seq_Ok. intros [_ H].
  apply result_bind_Ok in H as (rows & Hrows & [= <-]). simpl.
  split_and!; try done. by apply account_rows_Ok.
Qed.

Lemma snapshot_age_bound now s n :
  snapshot_age now s < n → n ≤ i64_max → now - observed s < n.
Proof.
  unfold snapshot_age, u64_try_from_i64, saturating_sub_i64, clamp.
  destruct (Z.leb_spec 0 (Z.max (Z.max i64_min (Z.min i64_max (now - observed s))) 0)); simpl;
    unfold i64_min, i64_max, u64_max; lia.
Qed.

(** The report never shows usable allowance on old or refused evidence.  A
    row with allowance or credit repeats the status of a stored snapshot that
    was observed at or before now and within the polling interval, on a record
    without a recorded failure, without a login requirement and without an
    active refusal of its free pool. *)
Theorem report_usable_is_fresh policies records detections query now path rep row :
  Forall policy_bounded policies →
  report policies records detections query now path = Ok rep → row ∈ accounts rep →
  row_status row = Available ∨ row_status row = CreditOnly →
  ∃ r s ttl, r ∈ records ∧ row_account row = account r ∧ snapshot r = Some s ∧
    status s = row_status row ∧ last_error r = None ∧ auth_required detections r now = false ∧
    active_free_refusals r now = [] ∧
    interval policies (adapter (account r)) Timer Ac = Some ttl ∧
    observed s ≤ now ∧ now - observed s < ttl.
Proof.
  intros Hpol (Hrows & _)%report_Ok Hin Hst.
  apply list_elem_of_lookup in Hin as [i Hi].
  destruct (Forall2_lookup_r _ _ _ _ _ Hrows Hi) as (r & Hr & Hrow).
  apply list_elem_of_lookup_2 in Hr. unfold shown_records in Hr.
  rewrite !bfilter_elem in Hr. destruct Hr as [[Hr _] _].
  apply result_bind_Ok in Hrow as (due & _ & [= <-]). simpl in *. unfold status_of in *.
  destruct (last_error r == Some IsolatedKeychainUnavailable) eqn:E1; [naive_solver|].
  destruct (bool_decide_reflect (len (active_free_refusals r now) = 0)) as [E2|E2]; simpl in *;
    [|naive_solver].
  destruct (auth_required detections r now) eqn:E3; [naive_solver|].
  destruct (snapshot r) as [s|] eqn:Hs; [|case_match; naive_solver].
  destruct (snapshot_fresh policies detections r now) eqn:E4; [|naive_solver].
  unfold snapshot_fresh in E4. rewrite Hs in E4. simpl in E4. unfold is_none in E4.
  rewrite !andb_true_iff, Z.leb_le, Z.ltb_lt, negb_true_iff, is_some_false in E4.
  destruct E4 as (((? & ?) & _) & Hage).
  destruct (interval policies (adapter (account r)) Timer Ac) as [ttl|] eqn:Hi'.
  - destruct (interval_Some _ _ _ _ _ Hpol Hi') as (_ & _ & _ & _ & _ & ?).
    exists r, s, ttl. split_and!; try done.
    + unfold len in E2. by destruct (active_free_refusals r now).
    + by eapply snapshot_age_bound.
  - simpl in Hage. unfold snapshot_age, u64_try_from_i64 in Hage.
    destruct (Z.leb_spec 0 (Z.max (saturating_sub_i64 now (observed s)) 0)); simpl in Hage;
      unfold u64_max in Hage; lia.
Qed.

Lemma fold_min_bound l x : fold_left Z.min l x ≤ x ∧ (∀ y, y ∈ l → fold_left Z.min l x ≤ y).
Proof.
  revert x; induction l as [|y l IH]; intros x; simpl; [set_solver by lia|].
  destruct (IH (Z.min x y)) as [H1 H2]. split; [lia|].
  intros z [->|Hz]%elem_of_cons; [lia|auto].
Qed.

Lemma fold_min_elem l x : fold_left Z.min l x = x ∨ fold_left Z.min l x ∈ l.
Proof.
  revert x; induction l as [|y l IH]; intros x; simpl; [by left|].
  destruct (IH (Z.min x y)) as [->|Hin]; [|right; set_solver].
  destruct (Z.min_spec x y) as [[_ ->]|[_ ->]]; [by left|right; set_solver].
Qed.

(** The totals of a report are those of its rows: one row per selected
    and detected record in store order, the known count within the total, the
    next due time never in the past and the earliest over the rows, and the
    accounts named as refreshing exactly those whose claim is live. *)
Theorem report_totals policies records detections query now path rep :
  report policies records detections query now path = Ok rep →
  map row_account (accounts rep) = map account (shown_records records detections query) ∧
  0 ≤ known (report_coverage rep) ≤ total (report_coverage rep) ∧
  total (report_coverage rep) = len (shown_records records detections query) ∧
  (∀ d, report_next_due rep = Some d → now ≤ d ∧
     (∃ row, row ∈ accounts rep ∧ row_next_due row = Some d) ∧
     ∀ row d', row ∈ accounts rep → row_next_due row = Some d' → d ≤ d') ∧
  (∀ id, id ∈ refreshing_ids rep ↔
     ∃ r c, r ∈ shown_records records detections query ∧ claim r = Some c ∧ now < claim_deadline c ∧
       id = account_key (account r) +:+ "/" +:+ adapter (account r)).
Proof.
  intros (Hrows & Hcov & Hdue & Hids)%report_Ok.
  assert (∀ row, row ∈ accounts rep → ∀ d, row_next_due row = Some d → now ≤ d) as Hnow.
  { intros row [i Hi]%list_elem_of_lookup d Hd.
    destruct (Forall2_lookup_r _ _ _ _ _ Hrows Hi) as (r & _ & Hrow).
    apply result_bind_Ok in Hrow as (due & _ & [= <-]). simpl in Hd.
    apply fmap_Some in Hd as (d0 & _ & ->). lia. }
  split_and!.
  - clear -Hrows. induction Hrows as [|r row l rows Hrow _ IH]; [done|]. simpl. rewrite IH.
    by apply result_bind_Ok in Hrow as (due & _ & [= <-]).
  - rewrite Hcov. simpl. unfold len. lia.
  - rewrite Hcov. simpl. unfold len. pose proof (bfilter_length is_known (accounts rep)). lia.
  - rewrite Hcov. simpl. unfold len. by rewrite (Forall2_length _ _ _ Hrows).
  - intros d Hd. rewrite Hdue in Hd. unfold list_min in Hd.
    destruct (omap row_next_due (accounts rep)) as [|x l] eqn:Ho; [done|]. injection Hd as <-.
    assert (∀ y, y ∈ x :: l ↔ ∃ row, row ∈ accounts rep ∧ row_next_due row = Some y) as Hel.
    { intros y. by rewrite <-Ho, list_elem_of_omap. }
    assert (fold_left Z.min l x ∈ x :: l) as Hin.
    { destruct (fold_min_elem l x) as [->|?]; set_solver. }
    apply Hel in Hin as (row & Hrow & Hrd). split_and!.
    + by apply (Hnow row).
    + by exists row.
    + intros row' d' Hr' Hd'. destruct (fold_min_bound l x) as [H1 H2].
      assert (d' ∈ x :: l) as [->|?]%elem_of_cons by (apply Hel; eauto); auto.
  - intros id. rewrite Hids, list_elem_of_In, in_map_iff. setoid_rewrite <-list_elem_of_In. split.
    + intros (row & <- & [[i Hi]%list_elem_of_lookup Href]%bfilter_elem).
      destruct (Forall2_lookup_r _ _ _ _ _ Hrows Hi) as (r & Hr & Hrow).
      apply result_bind_Ok in Hrow as (due & _ & [= <-]). simpl in *.
      apply is_some_and_true in Href as (c & Hc & ?%Z.ltb_lt).
      exists r, c. split; [exact (list_elem_of_lookup_2 _ _ _ Hr)|]. split; [exact Hc|]. done.
    + intros (r & c & [i Hi]%list_elem_of_lookup & Hc & Hlt & ->).
      destruct (Forall2_lookup_l _ _ _ _ _ Hrows Hi) as (row & Hrow & Heq).
      exists row. apply result_bind_Ok in Heq as (due & _ & [= Heq]).
      split; [by rewrite <-Heq|]. apply bfilter_elem.
      split; [exact (list_elem_of_lookup_2 _ _ _ Hrow)|].
      rewrite <-Heq. simpl. rewrite Hc. by apply Z.ltb_lt.
Qed.

(** ** The reset of a free-pool refusal *)

Lemma sequence_Some {A B} (g : A → option B) l out :
  sequence (map g l) = Some out ↔ Forall2 (λ x y, g x = Some y) l out.
Proof.
  revert out; induction l as [|x l IH]; intros out; simpl.
  { split; [by intros [= <-]|]. by inversion 1. }
  destruct (g x) as [y|] eqn:Hg; simpl.
  - rewrite fmap_Some. setoid_rewrite IH. split.
    + intros (o & Ho & ->). by constructor.
    + inversion 1 as [|? y' ? out' Hy' Ho]; subst. exists out'. split; [done|]. congruence.
  - split; [done|]. inversion 1; congruence.
Qed.

(** The latest of some timestamps made from whole seconds. *)
Lemma timestamp_max_seconds `{!JiffLaws} x l sx sl :
  from_second sx = Some x → Forall2 (λ s t, from_second s = Some t) sl l →
  from_second (fold_left Z.max sl sx) =
  Some (fold_left (λ a b, if Timestamp_leb a b then b else a) l x).
Proof.
  intros Hx Hl. revert x sx Hx. induction Hl as [|s t sl l Ht _ IH]; intros x sx Hx; simpl; [done|].
  apply IH. rewrite (Timestamp_leb_seconds sx x s t Hx Ht).
  destruct (Z.leb_spec sx s); [by rewrite Z.max_r by lia|by rewrite Z.max_l by lia].
Qed.

(** The reset the report shows for a refused free pool is the latest one:
    when every active refusal of the pool names a representable reset, the
    printed time is the instant of the largest of them, and without an active
    refusal nothing is shown. *)
Theorem free_reset_is_latest `{!JiffLaws} r now (seconds : list Z) :
  map (λ s, Timestamp_to_string <$> from_second s) seconds
    = map row_resets_at (active_free_refusals r now) →
  (∀ s, s ∈ seconds → from_second s ≠ None) →
  match seconds with
  | [] => free_resets_at r now = None
  | s :: rest =>
      ∃ t, from_second (fold_left Z.max rest s) = Some t ∧
           free_resets_at r now = Some (Timestamp_to_string t)
  end.
Proof.
  intros Hmap Hrep. unfold free_resets_at.
  destruct seconds as [|s rest]; destruct (active_free_refusals r now) as [|x l] eqn:Hact;
    try done.
  assert (∃ ts, Forall2 (λ s t, from_second s = Some t) (s :: rest) ts) as [ts Hts].
  { clear Hmap. revert Hrep. generalize (s :: rest) as ss. induction ss as [|y ss IH]; intros Hrep.
    - by exists [].
    - destruct (from_second y) as [t|] eqn:Ht; [|by destruct (Hrep y); [set_solver|]].
      destruct IH as [ts Hts]; [set_solver|]. exists (t :: ts). by constructor. }
  assert (sequence (map row_resets_at (x :: l)) = Some (Timestamp_to_string <$> ts)) as Hseq.
  { rewrite <-Hmap. apply sequence_Some. clear -Hts. induction Hts; simpl; constructor; [|done].
    by rewrite H. }
  assert (omap Timestamp_parse (Timestamp_to_string <$> ts) = ts) as Hparse.
  { clear Hseq Hts. induction ts as [|t ts IH]; [done|]. csimpl. by rewrite Timestamp_parse_to_string, IH. }
  unfold len. simpl length. rewrite bool_decide_eq_false_2 by lia.
  rewrite Hseq. simpl. rewrite Hparse. inversion Hts as [|? t ? ts' Ht Hts']; subst.
  exists (fold_left (λ a b, if Timestamp_leb a b then b else a) ts' t).
  split; [by apply timestamp_max_seconds|done].
Qed.
End Report.

(** ** A concrete report *)

Definition ex_snapshot : QuotaSnapshot :=
  mkQuotaSnapshot 1 ex_account 1 Available 1500 "codex:probe" None
    [mkQuotaWindow "five_hour" (Some 18000) 4200 (Some 9000)] None.
Definition ex_known : @AccountRecord json_example :=
  set_last_attempt (Some 1500) (set_revision 1 (set_snapshot (Some ex_snapshot) ex_record)).
Definition ex_report : result QuotaError QuotaReport :=
  @report json_example jiff_example quota_policies [ex_known] [] (mkQuotaQuery None) 2000 "report.json".
Definition ex_rep : QuotaReport :=
  Eval vm_compute in
    match ex_report with
    | Ok r => r
    | Err _ => mkQuotaReport 0 0 [] [] (mkCoverage 0 0) [] None EmptyString Display_default None
    end.

Lemma ex_report_eq : ex_report = Ok ex_rep.
Proof. vm_compute. reflexivity. Qed.

Lemma report_usable_is_fresh_witness :
  ∃ r s ttl, r ∈ [ex_known] ∧ snapshot r = Some s ∧ 2000 - observed s < ttl.
Proof.
  destruct (accounts ex_rep) as [|row rows] eqn:Hacc; [vm_compute in Hacc; discriminate Hacc|].
  destruct (@report_usable_is_fresh json_example jiff_example quota_policies [ex_known] []
              (mkQuotaQuery None) 2000 "report.json" ex_rep row quota_policies_bounded ex_report_eq)
    as (r & s & ttl & Hr & _ & Hs & _ & _ & _ & _ & _ & _ & Hlt).
  - rewrite Hacc. apply list_elem_of_here.
  - vm_compute in Hacc. injection Hacc as <- _. left. vm_compute. reflexivity.
  - exists r, s, ttl. split; [exact Hr|]. split; [exact Hs|exact Hlt].
Defined.

Lemma report_totals_witness :
  report_next_due ex_rep = Some 2400 ∧ known (report_coverage ex_rep) ≤ total (report_coverage ex_rep).
Proof.
  split; [vm_compute; reflexivity|].
  exact (proj2 (proj1 (proj2 (@report_totals json_example jiff_example quota_policies [ex_known] []
                                (mkQuotaQuery None) 2000 "report.json" ex_rep ex_report_eq)))).
Defined.

(** Two refusals of the keyless free pool with different resets. *)
Definition ex_free_refusal (m : string) (reset : Z) : @Refusal json_example :=
  @mkRefusal json_example ∅ (mkAccountScope "opencode" "zen" "Zen") m (Some "opencode-free") 1000
    (Some reset).
Definition ex_free : @AccountRecord json_example :=
  set_refusals [ex_free_refusal "a" 9000; ex_free_refusal "b" 7000]
    (AccountRecord_empty (mkAccountScope "opencode" "zen" "Zen")).

Lemma free_reset_is_latest_witness :
  ∃ t, jiff_from_second 9000 = Some t ∧
    @free_resets_at json_example jiff_example ex_free 2000 = Some (@Timestamp_to_string jiff_example t).
Proof.
  refine (@free_reset_is_latest json_example jiff_example jiff_example_laws ex_free 2000 [9000; 7000] _ _).
  - vm_compute. reflexivity.
  - intros s Hs. rewrite !elem_of_cons, elem_of_nil in Hs.
    destruct Hs as [-> | [-> | []]]; vm_compute; discriminate.
Defined.
