(* ===== verification/QuotaCalibration.v ===== *)
(** * QuotaCalibration: dashboard floors and chair placement

    Models [crates/quota/src/calibration.rs], which lifts the usage of a local
    ledger to configured floors on a copy of the records, and
    [crates/quota/src/chair.rs], which moves an interactive session to another
    account on cached evidence. *)

From stdpp Require Import base option list strings gmap sets.
From S2P Require Import Prelude External Adapters Routes CoreTime QuotaState QuotaSettings QuotaSchedule QuotaAdmission.

Local Open Scope string_scope.
Local Open Scope list_scope.
Local Open Scope Z_scope.
Local Open Scope rust_scope.

(** ** Floors *)

Definition is_local_ledger (adapter : string) : bool :=
  is_some_and (get adapter) (λ spec, quota_probe spec == LocalLedger).

(** The details every ledger snapshot carries, before any floor. *)
Definition ledger_details (d : option QuotaDetails) : QuotaDetails :=
  let d := unwrap_or d QuotaDetails_default in
  mkQuotaDetails (Some "local-ledger") (Some "partial") None [] (plan d) (tier d) (billing_anchor d)
    (details_fingerprint d) (priority d) (credit_balance d) (reset_credits d) (reset_expiries d)
    (note d).

Definition set_calibration_expires (e : option Z) (d : QuotaDetails) : QuotaDetails :=
  mkQuotaDetails (source d) (coverage d) e (calibrated_windows d) (plan d) (tier d)
    (billing_anchor d) (details_fingerprint d) (priority d) (credit_balance d) (reset_credits d)
    (reset_expiries d) (note d).
Definition set_calibrated_windows (l : list string) (d : QuotaDetails) : QuotaDetails :=
  mkQuotaDetails (source d) (coverage d) (calibration_expires d) l (plan d) (tier d)
    (billing_anchor d) (details_fingerprint d) (priority d) (credit_balance d) (reset_credits d)
    (reset_expiries d) (note d).

Definition set_used (n : Z) (w : QuotaWindow) : QuotaWindow :=
  mkQuotaWindow (pool w) (window_seconds w) n (resets w).

(** One round of the loop over the three windows. *)
Definition apply_floor (p : string) (percent : option Z) (seconds : Z)
    (st : list string * list QuotaWindow) : list string * list QuotaWindow :=
  match percent with
  | None => st
  | Some percent =>
      let '(calibrated, ws) := st in
      (calibrated ++ [p],
       match update_first (λ w, pool w == p)
               (λ w, set_used (Z.max (used_basis_points w) (wrapping_mul_u64 percent 100)) w) ws with
       | Some ws => ws
       | None => ws ++ [mkQuotaWindow p (Some seconds) (wrapping_mul_u64 percent 100) None]
       end)
  end.

Section Calibration.
Context {J : Json} {T : Jiff}.

Definition apply_floors (c : Calibration) (ws : list QuotaWindow) : list string * list QuotaWindow :=
  apply_floor "thirty_day" (thirty_day c) 2592000
    (apply_floor "seven_day" (seven_day c) 604800
      (apply_floor "five_hour" (five_hour c) 18000 ([], ws))).

(** [labels.get(label) == Some(&1)]: the label names one ledger account. *)
Definition label_count (records : list AccountRecord) (l : string) : nat :=
  length (List.filter (λ r, is_local_ledger (adapter (account r)) && (label (account r) == l)) records).
Definition is_ledger_key (records : list AccountRecord) (k : string) : bool :=
  existsb (λ r, is_local_ledger (adapter (account r)) && (account_key (account r) == k)) records.

Definition calibration_for (s : Settings) (records : list AccountRecord) (a : AccountScope)
    : option Calibration :=
  match btree_get (calibration s) (account_key a) with
  | Some c => Some c
  | None =>
      if bool_decide (label_count records (label a) = 1%nat) && negb (is_ledger_key records (label a))
      then btree_get (calibration s) (label a) else None
  end.

(** The body of the loop over the records. *)
Definition calibrate_snapshot (c : option Calibration) (now : Z) (s : QuotaSnapshot) : QuotaSnapshot :=
  let d := ledger_details (details s) in
  match c with
  | None => set_snap_details (Some d) s
  | Some c =>
      if (expiry c <=? now) || negb (Calibration_valid c) then set_snap_details (Some d) s
      else
        let '(calibrated, ws) := apply_floors c (windows s) in
        let d := set_calibrated_windows calibrated (set_calibration_expires (Some (expiry c)) d) in
        let s := set_snap_windows ws (set_snap_details (Some d) s) in
        if ((status s == Available) || (status s == StatusUnknown))
           && existsb (λ w, 10000 <=? used_basis_points w) (windows s)
        then set_snap_status StatusExhausted s else s
  end.

Definition calibrate_record (s : Settings) (all : list AccountRecord) (now : Z) (r : AccountRecord)
    : AccountRecord :=
  if negb (is_local_ledger (adapter (account r))) || (account_key (account r) == "zen") then r
  else set_snapshot (calibrate_snapshot (calibration_for s all (account r)) now <$> snapshot r) r.

Definition apply_calibration (s : Settings) (records : list AccountRecord) (now : Z)
    : list AccountRecord :=
  map (calibrate_record s records now) records.

(** ** What the floors do *)

(** The configured floor of a pool, in basis points. *)
Definition floor_of (c : Calibration) (p : string) : option Z :=
  percent ← (if p == "five_hour" then five_hour c
             else if p == "seven_day" then seven_day c
             else if p == "thirty_day" then thirty_day c else None);
  Some (percent * 100).

Definition usage (ws : list QuotaWindow) (p : string) : option Z :=
  used_basis_points <$> List.find (λ w, pool w == p) ws.

Definition floor_or (a b : option Z) : option Z :=
  match a, b with
  | Some x, Some y => Some (Z.max x y)
  | Some x, None => Some x
  | None, y => y
  end.

Lemma usage_update p f ws ws' q :
  (∀ w, pool (f w) = pool w) →
  update_first (λ w, pool w == p) f ws = Some ws' →
  usage ws' q = if decide (q = p) then used_basis_points ∘ f <$> List.find (λ w, pool w == p) ws
                else usage ws q.
Proof.
  intros Hf. unfold usage. revert ws'. induction ws as [|w ws IH]; intros ws' H; simpl in H; [done|].
  destruct (bool_decide_reflect (pool w = p)) as [Hp|Hp].
  - injection H as <-. simpl. rewrite Hf. case_decide as Hq.
    + subst q. by rewrite (bool_decide_eq_true_2 _ Hp).
    + by rewrite bool_decide_eq_false_2 by congruence.
  - destruct (update_first _ f ws) as [ws''|]; [|done]. injection H as <-. simpl.
    specialize (IH ws'' eq_refl). rewrite (bool_decide_eq_false_2 _ Hp).
    case_bool_decide as Hq; [|exact IH]. by rewrite decide_False by congruence.
Qed.

Lemma usage_None ws p :
  usage ws p = None ↔ Forall (λ w, (pool w == p) = false) ws.
Proof.
  unfold usage. rewrite fmap_None, find_None_elem, list.Forall_forall. done.
Qed.

Lemma usage_snoc ws w q :
  usage (ws ++ [w]) q =
  match usage ws q with
  | Some n => Some n
  | None => if decide (q = pool w) then Some (used_basis_points w) else None
  end.
Proof.
  unfold usage. induction ws as [|x ws IH]; simpl; [|case_bool_decide; [done|exact IH]].
  case_bool_decide; case_decide; naive_solver.
Qed.

Lemma apply_floor_usage p percent secs cal ws q :
  (∀ n, percent = Some n → 0 ≤ n ≤ 100) →
  usage (apply_floor p percent secs (cal, ws)).2 q =
  if decide (q = p) then floor_or (usage ws q) ((λ n, n * 100) <$> percent) else usage ws q.
Proof.
  intros Hb. unfold apply_floor. destruct percent as [n|]; simpl.
  2:{ case_decide; [|done]. by destruct (usage ws q). }
  rewrite wrapping_mul_u64_small by (specialize (Hb n eq_refl); unfold u64_max; lia).
  destruct (update_first _ _ ws) as [ws'|] eqn:Hup; simpl.
  - rewrite (λ Hf, usage_update _ _ _ _ q Hf Hup) by done. case_decide; [|done]. subst q.
    unfold usage. destruct (List.find _ ws) as [w|] eqn:Hf; simpl; [done|].
    exfalso. apply update_first_Some in Hup as (l1 & x & l2 & -> & _ & Hx & _).
    rewrite find_None_elem in Hf. specialize (Hf x). rewrite Hf in Hx by set_solver. done.
  - apply update_first_None, usage_None in Hup. rewrite usage_snoc. simpl.
    case_decide; subst; [by rewrite Hup|]. by destruct (usage ws q).
Qed.

(** The percentages are [u64]. *)
Definition calibration_unsigned (c : Calibration) : Prop :=
  ∀ n, Some n ∈ [five_hour c; seven_day c; thirty_day c] → 0 ≤ n.

Lemma calibration_percent c n :
  Calibration_valid c = true → calibration_unsigned c →
  Some n ∈ [five_hour c; seven_day c; thirty_day c] → 0 ≤ n ≤ 100.
Proof.
  unfold Calibration_valid. intros [_ Hall]%andb_true_iff Hu Hn. split; [by apply Hu|].
  rewrite forallb_elem in Hall. specialize (Hall (Some n) Hn). by apply Z.leb_le.
Qed.

Lemma apply_floors_usage c ws q :
  Calibration_valid c = true → calibration_unsigned c →
  usage (apply_floors c ws).2 q = floor_or (usage ws q) (floor_of c q).
Proof.
  intros Hv Hu. pose proof (calibration_percent c) as Hp.
  unfold apply_floors, floor_of.
  destruct (apply_floor "five_hour" _ _ _) as [c1 w1] eqn:E1.
  destruct (apply_floor "seven_day" _ _ _) as [c2 w2] eqn:E2.
  rewrite apply_floor_usage by (intros n Hn; apply Hp; set_solver).
  replace w2 with (apply_floor "seven_day" (seven_day c) 604800 (c1, w1)).2 by (by rewrite E2).
  rewrite apply_floor_usage by (intros n Hn; apply Hp; set_solver).
  replace w1 with (apply_floor "five_hour" (five_hour c) 18000 ([], ws)).2 by (by rewrite E1).
  rewrite apply_floor_usage by (intros n Hn; apply Hp; set_solver).
  repeat case_bool_decide; repeat case_decide; subst; try done;
    destruct (usage ws _); by (destruct (five_hour c), (seven_day c), (thirty_day c)).
Qed.

Definition usages_ge (ws ws' : list QuotaWindow) : Prop :=
  ∀ p n, usage ws p = Some n → ∃ n', usage ws' p = Some n' ∧ n ≤ n'.

(** A calibration is a floor.  While it is valid and unexpired the usage
    of each of its windows becomes the maximum of the ledger's own reading and
    the configured percentage, a missing window appears at the floor, every
    other window and every other record keeps its usage, and a snapshot that
    showed allowance while a window stands at or above 100% reads exhausted.
    At its expiry, or without a calibration, windows and status are the
    ledger's own. *)
Theorem calibration_is_floor c now s :
  (∀ x, c = Some x → calibration_unsigned x) →
  let s' := calibrate_snapshot c now s in
  (∀ x, c = Some x → Calibration_valid x = true → now < expiry x →
     (∀ p, usage (windows s') p = floor_or (usage (windows s) p) (floor_of x p)) ∧
     (status s' = status s ∨ status s' = StatusExhausted) ∧
     (status s' = StatusExhausted ↔ status s = StatusExhausted ∨
        (status s = Available ∨ status s = StatusUnknown) ∧
        ∃ w, w ∈ windows s' ∧ 10000 ≤ used_basis_points w)) ∧
  ((∀ x, c = Some x → expiry x ≤ now ∨ Calibration_valid x = false) →
     windows s' = windows s ∧ status s' = status s) ∧
  usages_ge (windows s) (windows s').
Proof.
  intros Hu s'. subst s'.
  assert (∀ x, c = Some x → Calibration_valid x = true → now < expiry x →
    windows (calibrate_snapshot c now s) = (apply_floors x (windows s)).2 ∧
    status (calibrate_snapshot c now s) =
      (if ((status s == Available) || (status s == StatusUnknown))
          && existsb (λ w, 10000 <=? used_basis_points w) (apply_floors x (windows s)).2
       then StatusExhausted else status s)) as Hact.
  { intros x -> Hv Hlt. unfold calibrate_snapshot. rewrite Hv.
    destruct (Z.leb_spec (expiry x) now); [lia|]. simpl.
    destruct (apply_floors x (windows s)) as [cal ws]. simpl.
    by destruct (_ && existsb _ ws). }
  assert ((∀ x, c = Some x → expiry x ≤ now ∨ Calibration_valid x = false) →
    windows (calibrate_snapshot c now s) = windows s ∧ status (calibrate_snapshot c now s) = status s)
    as Hexp.
  { intros H. unfold calibrate_snapshot. destruct c as [x|]; [|done].
    destruct (H x eq_refl) as [Hle|Hb]; [by rewrite (proj2 (Z.leb_le _ _) Hle)|].
    rewrite Hb, orb_true_r. done. }
  split; [|split; [done|]].
  - intros x -> Hv Hlt. destruct (Hact x eq_refl Hv Hlt) as [-> ->]. split.
    { intros p. by apply apply_floors_usage; [|apply Hu]. }
    assert (((status s == Available) || (status s == StatusUnknown))
      && existsb (λ w, 10000 <=? used_basis_points w) (apply_floors x (windows s)).2 = true ↔
      (status s = Available ∨ status s = StatusUnknown) ∧
        ∃ w, w ∈ (apply_floors x (windows s)).2 ∧ 10000 ≤ used_basis_points w) as Hc.
    { rewrite andb_true_iff, orb_true_iff, !bool_decide_eq_true, existsb_elem.
      by setoid_rewrite Z.leb_le. }
    destruct (_ && existsb _ _); [split; [by right|naive_solver]|split; [by left|]].
    split; [by left|]. intros [?|?]; [done|]. apply Hc in H as [=].
  - intros p n Hn.
    destruct c as [x|]; [|destruct Hexp as [-> _]; [done|]; by exists n].
    destruct (Calibration_valid x) eqn:Hv;
      [|destruct Hexp as [-> _]; [naive_solver|]; by exists n].
    destruct (Z_lt_le_dec now (expiry x)) as [Hlt|Hle];
      [|destruct Hexp as [-> _]; [naive_solver|]; by exists n].
    destruct (Hact x eq_refl Hv Hlt) as [-> _].
    rewrite apply_floors_usage, Hn by auto. destruct (floor_of x p); simpl; eexists; split; try done; lia.
Qed.

(** ** Validity of the adjusted records *)

Definition floor_pools : list string := ["five_hour"; "seven_day"; "thirty_day"].

(** What the loop maintains: valid, distinct windows, one more per round at
    most. *)
Definition windows_ok (n : Z) (ws : list QuotaWindow) : Prop :=
  Forall window_valid ws ∧ NoDup (pool <$> ws) ∧ len ws ≤ n.

Lemma apply_floor_ok p percent secs st n :
  p ∈ floor_pools → (∀ x, percent = Some x → 0 ≤ x ≤ 100) →
  windows_ok n st.2 → windows_ok (n + 1) (apply_floor p percent secs st).2.
Proof.
  intros Hp Hb (Hv & Hnd & Hl). destruct st as [cal ws]. simpl in *.
  unfold apply_floor. destruct percent as [x|]; simpl; [|split_and!; try done; lia].
  specialize (Hb x eq_refl). rewrite wrapping_mul_u64_small by (unfold u64_max; lia).
  destruct (update_first _ _ ws) as [ws'|] eqn:Hup; simpl.
  - assert (pool <$> ws' = pool <$> ws) as Hpool by (eapply update_first_map; [|exact Hup]; done).
    split_and!; [|by rewrite Hpool|].
    + apply update_first_Some in Hup as (l1 & w & l2 & -> & -> & _).
      rewrite Forall_app, Forall_cons_iff in Hv |- *. destruct Hv as (? & (? & ? & ?) & ?).
      split_and!; try done. split_and!; simpl; try done. lia.
    + unfold len in *. rewrite <-(length_fmap pool ws'), Hpool, length_fmap. lia.
  - apply update_first_None in Hup. rewrite list.Forall_forall in Hup. split_and!.
    + rewrite Forall_app. split; [done|]. apply list.Forall_singleton.
      unfold floor_pools in Hp. rewrite !elem_of_cons, elem_of_nil in Hp.
      destruct Hp as [->|[->|[->|[]]]]; split_and!; simpl; try done; try lia; by vm_compute.
    + rewrite fmap_app, NoDup_app. split_and!; [done| |apply list.NoDup_singleton].
      intros q (w & -> & Hw)%list_elem_of_fmap Hq%list_elem_of_singleton.
      specialize (Hup w Hw). by apply bool_decide_eq_false in Hup.
    + unfold len in *. rewrite length_app. simpl. lia.
Qed.

Lemma apply_floors_ok c ws n :
  Calibration_valid c = true → calibration_unsigned c →
  windows_ok n ws → windows_ok (n + 3) (apply_floors c ws).2.
Proof.
  intros Hv Hu Hw. pose proof (calibration_percent c) as Hp. unfold apply_floors.
  replace (n + 3) with (n + 1 + 1 + 1) by lia.
  repeat (apply apply_floor_ok; [unfold floor_pools; set_solver|intros x Hx; apply Hp; set_solver|]).
  done.
Qed.

Lemma apply_floors_pools c ws p :
  p ∈ (apply_floors c ws).1 → p ∈ floor_pools ∧ (length (apply_floors c ws).1 ≤ 3)%nat.
Proof.
  unfold apply_floors, apply_floor, floor_pools.
  destruct (five_hour c), (seven_day c), (thirty_day c); simpl; intros Hp; split; try lia; set_solver.
Qed.

Lemma ledger_details_invalid d :
  is_some_and d details_invalid = false → details_invalid (ledger_details d) = false.
Proof.
  intros Hd. unfold ledger_details. destruct d as [d|]; [|done]. simpl in *.
  unfold details_invalid in *. simpl. rewrite !orb_false_iff in *. tauto.
Qed.

Lemma calibrated_details_invalid d e l :
  details_invalid d = false → (∀ p, p ∈ l → p ∈ floor_pools) → len l ≤ MAX_WINDOWS →
  details_invalid (set_calibrated_windows l (set_calibration_expires e d)) = false.
Proof.
  unfold details_invalid. simpl. rewrite !orb_false_iff. intros Hd Hl Hlen.
  assert (existsb (λ s, negb (detail_text s 128)) l = false).
  { rewrite existsb_false_elem. intros p Hp. apply Hl in Hp. unfold floor_pools in Hp.
    rewrite !elem_of_cons, elem_of_nil in Hp. by destruct Hp as [->|[->|[->|[]]]]. }
  assert ((MAX_WINDOWS <? len l) = false) by (by apply Z.ltb_ge). tauto.
Qed.

Lemma calibrate_snapshot_valid c now s :
  (∀ x, c = Some x → calibration_unsigned x) →
  QuotaSnapshot_validate s = Ok tt → len (windows s) + 3 ≤ MAX_WINDOWS →
  QuotaSnapshot_validate (calibrate_snapshot c now s) = Ok tt ∧
  snap_account (calibrate_snapshot c now s) = snap_account s ∧
  snap_revision (calibrate_snapshot c now s) = snap_revision s.
Proof.
  intros Hu Hs Hlen. rewrite snapshot_validate_Ok in Hs.
  destruct Hs as (? & ? & ? & ? & ? & Hd & Hw & Hnd).
  pose proof (ledger_details_invalid _ Hd) as Hld.
  assert (QuotaSnapshot_validate (set_snap_details (Some (ledger_details (details s))) s) = Ok tt) as Hplain
    by (apply snapshot_validate_Ok; simpl; split_and!; done).
  unfold calibrate_snapshot. destruct c as [c|]; [|done].
  destruct (_ || negb _) eqn:Hg; [done|].
  rewrite orb_false_iff, negb_false_iff in Hg. destruct Hg as [_ Hv].
  pose proof (apply_floors_ok c (windows s) (len (windows s)) Hv (Hu c eq_refl)) as Hok.
  pose proof (apply_floors_pools c (windows s)) as Hpools.
  destruct (apply_floors c (windows s)) as [cal ws]. simpl in *.
  destruct Hok as (Hw' & Hnd' & Hl'); [split_and!; [done|done|lia]|].
  assert (len cal ≤ MAX_WINDOWS) as Hcal.
  { unfold len, MAX_WINDOWS in *. destruct cal as [|p cal]; simpl; [lia|].
    destruct (Hpools p) as [_ Hle]; [set_solver|]. simpl in Hle. lia. }
  assert (details_invalid (set_calibrated_windows cal
    (set_calibration_expires (Some (expiry c)) (ledger_details (details s)))) = false) as Hcd
    by (apply calibrated_details_invalid; naive_solver).
  destruct (_ && existsb _ ws); (split; [|done]); apply snapshot_validate_Ok; simpl;
    split_and!; try done; lia.
Qed.

(** Applying calibrations changes nothing but ledger snapshots.  Records
    keep their order, account, revision, claim, failures and refusals; records
    of other adapters and the keyless account are untouched; and a valid
    record whose snapshot has room for the three floor windows stays valid. *)
Theorem calibration_keeps_records s records now i r' :
  (∀ a c, (a, c) ∈ calibration s → calibration_unsigned c) →
  apply_calibration s records now !! i = Some r' →
  ∃ r, records !! i = Some r ∧ set_snapshot (snapshot r) r' = r ∧
    (is_local_ledger (adapter (account r)) = false ∨ account_key (account r) = "zen" → r' = r) ∧
    (record_valid r → (∀ x, snapshot r = Some x → len (windows x) + 3 ≤ MAX_WINDOWS) →
     record_valid r').
Proof.
  intros Hu H. unfold apply_calibration in H. rewrite list_lookup_fmap in H.
  apply fmap_Some in H as (r & Hr & ->). exists r. split; [done|].
  unfold calibrate_record. set (c := calibration_for s records (account r)).
  assert (∀ x, c = Some x → calibration_unsigned x) as Hc.
  { intros x Hx. unfold c, calibration_for in Hx.
    destruct (btree_get (calibration s) (account_key (account r))) as [y|] eqn:E.
    - apply btree_get_elem in E. injection Hx as ->. by apply (Hu _ x E).
    - destruct (_ && _); [|done]. apply btree_get_elem in Hx. by apply (Hu _ x Hx). }
  destruct (_ || _) eqn:Hg.
  - split; [by destruct r|]. done.
  - rewrite orb_false_iff, negb_false_iff, bool_decide_eq_false in Hg.
    destruct Hg as [Hg1 Hg2]. split; [by destruct r|]. split; [intros [?|?]; congruence|].
    intros Hv Hroom. constructor; try apply Hv.
    intros x Hx. simpl in Hx. apply fmap_Some in Hx as (x0 & Hx0 & ->).
    destruct (rv_snapshot r Hv x0 Hx0) as (Hxv & Hxa & Hxr).
    destruct (calibrate_snapshot_valid c now x0 Hc Hxv (Hroom x0 Hx0)) as (? & -> & ->). done.
Qed.
End Calibration.

(** A ledger account at 40% with a configured floor of 100% for the week. *)
Definition ex_ledger_snapshot : QuotaSnapshot :=
  mkQuotaSnapshot 1 (mkAccountScope "opencode" "go" "Go") 0 Available 1900 "opencode:ledger" None
    [mkQuotaWindow "five_hour" (Some 18000) 4000 None] None.
Definition ex_ledger : @AccountRecord json_example :=
  set_snapshot (Some ex_ledger_snapshot) (AccountRecord_empty (mkAccountScope "opencode" "go" "Go")).
Definition ex_calibration : @Calibration jiff_example :=
  @mkCalibration jiff_example None (Some 100) None 3000.
Definition ex_calibrated : @Settings jiff_example :=
  @mkSettings jiff_example 3 55 [] Display_default [("go", ex_calibration)] DEFAULT_HISTORY_MAX_BYTES 3600.

Lemma ex_calibration_unsigned : calibration_unsigned ex_calibration.
Proof.
  intros n Hn. simpl in Hn. rewrite !elem_of_cons, elem_of_nil in Hn.
  destruct Hn as [Hn|[Hn|[Hn|[]]]]; try discriminate Hn. injection Hn as ->. by vm_compute.
Qed.

Lemma calibration_is_floor_witness :
  usage (windows (calibrate_snapshot (Some ex_calibration) 2000 ex_ledger_snapshot)) "seven_day"
    = Some 10000 ∧
  status (calibrate_snapshot (Some ex_calibration) 3000 ex_ledger_snapshot) = Available.
Proof.
  assert (∀ x, Some ex_calibration = Some x → calibration_unsigned x) as Hu.
  { intros x [= <-]. exact ex_calibration_unsigned. }
  split.
  - exact (proj1 (proj1 (calibration_is_floor (Some ex_calibration) 2000 ex_ledger_snapshot Hu)
                    ex_calibration eq_refl eq_refl ltac:(by vm_compute)) "seven_day").
  - refine (proj2 (proj1 (proj2 (calibration_is_floor (Some ex_calibration) 3000 ex_ledger_snapshot Hu)) _)).
    intros x [= <-]. left. by vm_compute.
Defined.

Lemma calibration_keeps_records_witness :
  ∃ r', apply_calibration ex_calibrated [ex_ledger] 2000 !! 0%nat = Some r' ∧
        set_snapshot (snapshot ex_ledger) r' = ex_ledger.
Proof.
  eexists. split; [reflexivity|].
  destruct (calibration_keeps_records ex_calibrated [ex_ledger] 2000 0
              (calibrate_record ex_calibrated [ex_ledger] 2000 ex_ledger)) as (r & Hr & Heq & _).
  - intros a c Hin. apply list_elem_of_singleton in Hin. injection Hin as -> ->.
    exact ex_calibration_unsigned.
  - reflexivity.
  - injection Hr as <-. exact Heq.
Defined.

(** ** Chair placement, [chair.rs] *)

Inductive SwitchDecision := Stay | Switch (label : string) | Refuse (why : string).

Definition chair_relevant (pool : string) : bool := (pool == "five_hour") || (pool == "seven_day").

Definition chair_fresh (s : QuotaSnapshot) (now : Z) : bool :=
  is_ok (QuotaSnapshot_validate s)
  && is_some_and (get (adapter (snap_account s))) chair_switch
  && ((status s == Available) || (status s == StatusExhausted))
  && (let age := saturating_sub_i64 now (observed s) in (0 <=? age) && (age <=? 900)).

(** A target the session may move to. *)
Definition target_ok (threshold now : Z) (s : QuotaSnapshot) : bool :=
  chair_fresh s now && (status s == Available)
  && forallb (λ p, existsb (λ w,
       (pool w == p) && (used_basis_points w <? threshold)
       && is_some_and (resets w) (λ reset, now <? reset)) (windows s))
     ["five_hour"; "seven_day"].

Definition over_threshold (threshold now : Z) (s : QuotaSnapshot) : bool :=
  existsb (λ w, chair_relevant (pool w) && (threshold <=? used_basis_points w)
                && is_some_and (resets w) (λ reset, now <? reset)) (windows s).

Definition pick_target (threshold now : Z) (targets : list (string * option QuotaSnapshot)) : SwitchDecision :=
  match List.find (λ '(_, s), is_some_and s (target_ok threshold now)) targets with
  | Some (label, _) => Switch label
  | None =>
      Refuse "no allowed registered Claude account has fresh quota below the threshold on both windows"
  end.

Definition decide_switch (current : option QuotaSnapshot) (targets : list (string * option QuotaSnapshot))
    (threshold_percent now : Z) (automatic : bool) : SwitchDecision :=
  if negb ((1 <=? threshold_percent) && (threshold_percent <=? 100))
  then Refuse "switch threshold must be between 1 and 100 percent"
  else
    let threshold := wrapping_mul_u64 threshold_percent 100 in
    if automatic
    then match current with
         | Some s =>
             if chair_fresh s now
             then if over_threshold threshold now s then pick_target threshold now targets else Stay
             else Stay
         | None => Stay
         end
    else pick_target threshold now targets.

(** A window of [s] below the threshold whose reset is ahead. *)
Definition live_below (now threshold : Z) (s : QuotaSnapshot) (p : string) : Prop :=
  ∃ w reset, w ∈ windows s ∧ pool w = p ∧ used_basis_points w < threshold ∧
             resets w = Some reset ∧ now < reset.

Lemma chair_fresh_true s now :
  i64_min ≤ now ≤ i64_max → i64_min ≤ observed s ≤ i64_max →
  chair_fresh s now = true →
  QuotaSnapshot_validate s = Ok tt ∧ 0 ≤ now - observed s ≤ 900 ∧
  (status s = Available ∨ status s = StatusExhausted) ∧
  ∃ spec, get (adapter (snap_account s)) = Some spec ∧ chair_switch spec = true.
Proof.
  unfold chair_fresh. intros Hn Ho H.
  rewrite !andb_true_iff, is_ok_true, is_some_and_true, orb_true_iff, !bool_decide_eq_true,
    !Z.leb_le in H.
  destruct H as ((([[] Hv] & Hspec) & Hst) & Hage).
  split_and!; try done; unfold saturating_sub_i64, clamp, i64_min, i64_max in *; lia.
Qed.

Lemma target_ok_true threshold now s :
  target_ok threshold now s = true ↔
  chair_fresh s now = true ∧ status s = Available ∧
  live_below now threshold s "five_hour" ∧ live_below now threshold s "seven_day".
Proof.
  assert (∀ p, existsb (λ w, (pool w == p) && (used_basis_points w <? threshold)
            && is_some_and (resets w) (λ reset, now <? reset)) (windows s) = true ↔
          live_below now threshold s p) as Hw.
  { intros p. unfold live_below. rewrite existsb_elem. split.
    - intros (w & Hw & H). rewrite !andb_true_iff, bool_decide_eq_true, Z.ltb_lt, is_some_and_true in H.
      destruct H as ((? & ?) & reset & ? & ?%Z.ltb_lt). by exists w, reset.
    - intros (w & reset & ? & ? & ? & Hr & ?). exists w. split; [done|].
      rewrite !andb_true_iff, bool_decide_eq_true, Z.ltb_lt, Hr. simpl. by rewrite Z.ltb_lt. }
  unfold target_ok. cbn [forallb]. rewrite !andb_true_iff, bool_decide_eq_true, !Hw. tauto.
Qed.

Lemma pick_target_Switch threshold now targets label :
  pick_target threshold now targets = Switch label →
  ∃ before s after, targets = before ++ (label, Some s) :: after ∧ target_ok threshold now s = true ∧
    ∀ l s', (l, Some s') ∈ before → target_ok threshold now s' = false.
Proof.
  unfold pick_target. destruct (List.find _ _) as [[l o]|] eqn:E; [|done]. intros [= ->].
  apply find_Some_split in E as (l1 & l2 & -> & Ho & Hl1).
  apply is_some_and_true in Ho as (s & -> & Hs). exists l1, s, l2. split_and!; try done.
  intros l s' Hin. rewrite list.Forall_forall in Hl1. exact (Hl1 (l, Some s') Hin).
Qed.

(** The chair moves only on live evidence.  A switch, automatic or asked
    for, goes to the first target of the user's list whose snapshot is valid,
    at most 15 minutes old, of an adapter that supports switching, available,
    and below the threshold on both windows with resets ahead; every earlier
    target fails that test.  An automatic decision leaves the session alone
    unless a fresh snapshot of the current account has a governing window at
    or above the threshold whose reset is ahead. *)
Theorem decide_switch_exact current targets percent now automatic label :
  i64_min ≤ now ≤ i64_max →
  (∀ l s, (l, Some s) ∈ targets → i64_min ≤ observed s ≤ i64_max) →
  decide_switch current targets percent now automatic = Switch label →
  1 ≤ percent ≤ 100 ∧
  (∃ before s after,
     targets = before ++ (label, Some s) :: after ∧
     (∀ l s', (l, Some s') ∈ before → target_ok (percent * 100) now s' = false) ∧
     QuotaSnapshot_validate s = Ok tt ∧ 0 ≤ now - observed s ≤ 900 ∧ status s = Available ∧
     (∃ spec, get (adapter (snap_account s)) = Some spec ∧ chair_switch spec = true) ∧
     live_below now (percent * 100) s "five_hour" ∧ live_below now (percent * 100) s "seven_day") ∧
  (automatic = true → ∃ c w reset, current = Some c ∧ chair_fresh c now = true ∧ w ∈ windows c ∧
     (pool w = "five_hour" ∨ pool w = "seven_day") ∧ percent * 100 ≤ used_basis_points w ∧
     resets w = Some reset ∧ now < reset).
Proof.
  intros Hnow Hobs H. unfold decide_switch in H.
  destruct ((1 <=? percent) && (percent <=? 100)) eqn:Hp; [|done]. simpl in H.
  rewrite andb_true_iff, !Z.leb_le in Hp. split; [done|].
  rewrite wrapping_mul_u64_small in H by (unfold u64_max; lia).
  assert (pick_target (percent * 100) now targets = Switch label) as Hpick.
  { destruct automatic; [|done]. destruct current as [c|]; [|done].
    destruct (chair_fresh c now); [|done]. by destruct (over_threshold _ _ _). }
  split.
  - apply pick_target_Switch in Hpick as (l1 & s & l2 & -> & Hs & Hl1).
    exists l1, s, l2. split; [done|]. split; [done|].
    apply target_ok_true in Hs as (Hf & Hst & H5 & H7).
    apply chair_fresh_true in Hf as (? & ? & _ & ?); [|done|apply (Hobs label); set_solver].
    done.
  - intros ->. destruct current as [c|]; [|done].
    destruct (chair_fresh c now) eqn:Hf; [|done].
    destruct (over_threshold _ _ _) eqn:Ho; [|done].
    apply existsb_elem in Ho as (w & Hw & Ho). unfold chair_relevant in Ho.
    rewrite !andb_true_iff, orb_true_iff, !bool_decide_eq_true, Z.leb_le, is_some_and_true in Ho.
    destruct Ho as ((? & ?) & reset & ? & ?%Z.ltb_lt). exists c, w, reset. done.
Qed.

Definition ex_chair (key : string) (used : Z) : QuotaSnapshot :=
  mkQuotaSnapshot 1 (mkAccountScope "claude" key "C") 1 Available 1800 "claude:probe" None
    [mkQuotaWindow "five_hour" (Some 18000) used (Some 9000);
     mkQuotaWindow "seven_day" (Some 604800) 100 (Some 90000)] None.

Lemma decide_switch_exact_witness :
  decide_switch (Some (ex_chair "a" 9500)) [("a", Some (ex_chair "a" 9500)); ("b", Some (ex_chair "b" 10))]
    90 2000 true = Switch "b" ∧ 1 ≤ 90 ≤ 100.
Proof.
  split; [vm_compute; reflexivity|].
  refine (proj1 (decide_switch_exact (Some (ex_chair "a" 9500))
            [("a", Some (ex_chair "a" 9500)); ("b", Some (ex_chair "b" 10))] 90 2000 true "b" _ _ _)).
  - by vm_compute.
  - intros l s Hin. rewrite !elem_of_cons, elem_of_nil in Hin.
    destruct Hin as [Hin|[Hin|[]]]; injection Hin as -> ->; by vm_compute.
  - vm_compute. reflexivity.
Defined.
