(* ===== verification/QuotaEdge.v ===== *)
(** * QuotaEdge: the quota state on disk and the operations that change it

    Models the quota store of [crates/cli/src/quota.rs] with its files: one
    account record per file [quota/<key>/<adapter>.json], one readiness file
    per account in [readiness/<key>/<adapter>.json] and the published report.
    [write_intent] commits an account record and then publishes the readiness
    derived from it, which may fail without undoing the commit.  The
    [persist_*] handlers take the lock, re-read the records, compute an intent
    and write it.

    The operating system is an argument: what opening and locking the
    directories gives ([Open]) and how far each durable write gets ([Io]).  The
    JSON codec is the class [Codec]. *)

From stdpp Require Import base option list strings gmap sets sorting.
From S2P Require Import Prelude External Adapters Routes CoreTime QuotaState QuotaSettings QuotaSchedule QuotaAdmission QuotaReadiness QuotaStore QuotaReport.

Local Open Scope string_scope.
Local Open Scope list_scope.
Local Open Scope Z_scope.
Local Open Scope rust_scope.

(** ** Files

    [serde_json::to_vec] and [from_slice], and [decode_v1], which also bounds
    the size, depth and member count of the document ([within_limits] is what
    it accepts besides the size). *)

Class Codec `{J : Json} := {
  file : Type;
  file_len : file → Z;
  encode_record : AccountRecord → file;
  decode_v1 : file → result QuotaError AccountRecord;
  within_limits : AccountRecord → bool;
  encode_readiness : ReadinessFile → file;
  readiness_from_slice : file → option ReadinessFile;
  encode_report : QuotaReport → file;
  report_from_slice : file → option QuotaReport;
}.

(** A written record reads back as itself or not at all, and what is within the
    limits reads back. *)
Class CodecLaws `{C : Codec} := {
  decode_v1_sound : ∀ r r', decode_v1 (encode_record r) = Ok r' → r' = r;
  decode_v1_encode : ∀ r, record_valid r → within_limits r = true →
    file_len (encode_record r) ≤ MAX_RECORD_BYTES → decode_v1 (encode_record r) = Ok r;
  readiness_from_slice_encode : ∀ f, readiness_from_slice (encode_readiness f) = Some f;
}.

(** How far a durable write gets: done; failed with nothing published; or
    published but not known to be durable, which is reported as a failure. *)
Inductive Io := IoDone | IoNotWritten | IoNotDurable.

(** Opening the quota directory and taking its lock within the wait budget. *)
Inductive Open := Opened | OpenMissing | OpenFailed.

(** What a handler meets: the directories, its writes and the clock that
    [write_intent] reads for the readiness it publishes. *)
Record Env := mkEnv {
  env_open : Open;
  env_record : Io;
  env_readiness : Io;
  env_report : Io;
  env_clock : Z;
}.

(** The file of an account, by the adapter in its name and its directory. *)
Definition path_of (a : AccountScope) : string * string := (adapter a, account_key a).

Section Routes.
Context {J : Json}.

(** [RouteRecord] of [crates/records/src/run.rs]. *)
Record RouteRecord := mkRouteRecord {
  rr_extra : ExtraFields;
  rr_provider : option string;
  rr_model : option string;
  rr_effort : option string;
  rr_account_label : option string;
  rr_account_key : option string;
  rr_source : option string;
  rr_pool_selection : option RouteSelectionReceipt;
}.

Definition from_resolved (route : ResolvedRoute) (account_label : option string)
    (source : string) : RouteRecord :=
  mkRouteRecord ∅ (Some (route_adapter route))
    (Some ((route_adapter route +:+ "/") +:+ route_model route)) (route_effort route) account_label
    (route_account_key route) (Some source) (pool_selection route).

(** The order of [read_records]: by adapter, then by account key. *)
Definition record_compare (a b : AccountRecord) : comparison :=
  match String.compare (adapter (account a)) (adapter (account b)) with
  | Eq => String.compare (account_key (account a)) (account_key (account b))
  | c => c
  end.
Definition record_le (a b : AccountRecord) : Prop := record_compare a b ≠ Gt.
#[export] Instance record_le_dec : RelDecision record_le.
Proof. intros a b. unfold record_le. destruct (record_compare a b); [left|left|right]; congruence. Defined.

End Routes.

Section Edge.
Context {J : Json} {T : Jiff} {C : Codec}.

#[local] Opaque AccountScope_validate QuotaSnapshot_validate AccountRecord_validate.

(** The state directory.  [signals] counts the quota generations published. *)
Record Edge := mkEdge {
  quota_files : gmap (string * string) file;
  readiness_files : gmap (string * string) file;
  report_file : option file;
  signals : Z;
}.

Definition set_quota_files (m : gmap (string * string) file) (st : Edge) : Edge :=
  mkEdge m (readiness_files st) (report_file st) (signals st).
Definition set_readiness_files (m : gmap (string * string) file) (st : Edge) : Edge :=
  mkEdge (quota_files st) m (report_file st) (signals st).
Definition set_report_file (f : option file) (st : Edge) : Edge :=
  mkEdge (quota_files st) (readiness_files st) f (signals st).

(** [signal_quota]. *)
Definition signal_quota (st : Edge) : Edge :=
  mkEdge (quota_files st) (readiness_files st) (report_file st) (signals st + 1).

(** One durable write: the state after it, and whether it succeeded. *)
Definition durable (io : Io) (publish : Edge → Edge) (st : Edge) : Edge * result EdgeError unit :=
  match io with
  | IoDone => (publish st, Ok tt)
  | IoNotWritten => (st, Err EdgeIo)
  | IoNotDurable => (publish st, Err EdgeIo)
  end.

(** ** Reading *)

(** [AccountRecord::decode]. *)
Definition AccountRecord_decode (bytes : file) : result QuotaError AccountRecord :=
  value ← decode_v1 bytes;
  _ ← AccountRecord_validate value;
  Ok value.

(** The loop of [read_records] over the directory entries. *)
Fixpoint read_entries (acc : list AccountRecord) (l : list ((string * string) * file))
    : result QuotaError (list AccountRecord) :=
  match l with
  | [] => Ok acc
  | (name, key, bytes) :: l' =>
      if negb (component key) then Err (Invalid "account directory") else
      if negb (component name) then Err (Invalid "snapshot path") else
      record ← AccountRecord_decode bytes;
      if (adapter (account record) != name) || (account_key (account record) != key)
      then Err (Invalid "snapshot path identity") else
      let acc := acc ++ [record] in
      if MAX_ACCOUNTS <? len acc then Err (Invalid "account bound") else
      read_entries acc l'
  end.

Definition read_records (st : Edge) : result QuotaError (list AccountRecord) :=
  records ← read_entries [] (map_to_list (quota_files st));
  Ok (merge_sort record_le records).

(** [ReadinessFile::decode] and [read_readiness_file]. *)
Definition ReadinessFile_decode (bytes : file) (adapter account_key : string)
    : result QuotaError ReadinessFile :=
  file ← ok_or (readiness_from_slice bytes) (Invalid "readiness record");
  _ ← ReadinessFile_validate file adapter account_key;
  Ok file.

Definition read_readiness_file (st : Edge) (adapter key : string)
    : result QuotaError (option ReadinessFile) :=
  match readiness_files st !! (adapter, key) with
  | None => Ok None
  | Some bytes =>
      if MAX_RECORD_BYTES <? file_len bytes then Err (Invalid "readiness bound") else
      file ← ReadinessFile_decode bytes adapter key;
      Ok (Some file)
  end.

Definition recorded_readiness_file (st : Edge) (adapter key : string)
    : result QuotaError (option ReadinessFile) :=
  if negb (component adapter) || negb (component key) then Err (Invalid "readiness scope")
  else read_readiness_file st adapter key.

Inductive LoginEvidence := Verified (at_ : Z) | Unverified (at_ : Z).
Definition observed_at (e : LoginEvidence) : Z :=
  match e with Verified t => t | Unverified t => t end.
Definition is_verified (e : LoginEvidence) : bool :=
  match e with Verified _ => true | Unverified _ => false end.

(** What a fresh login probe outdates in a readiness file. *)
Definition reprobed_observation (scope : ReadinessScope) (reprobe : LoginEvidence) (r : Observation)
    : bool :=
  (host (obs_scope r) == host scope) && (scope_adapter (obs_scope r) == scope_adapter scope)
  && (scope_account_key (obs_scope r) == scope_account_key scope)
  && (obs_observed r <=? observed_at reprobe)
  && ((obs_reason r == Some SignedOut) || (obs_reason r == Some ReasonLoginExpired)
      || (is_verified reprobe && (obs_reason r == Some ReasonAccountMismatch))).

Definition reprobed_login (scope : ReadinessScope) (reprobe : LoginEvidence) (l : LoginObservation)
    : bool :=
  (host (login_scope l) == host scope) && (scope_adapter (login_scope l) == scope_adapter scope)
  && (scope_account_key (login_scope l) == scope_account_key scope)
  && (login_observed l <=? observed_at reprobe).

Definition apply_reprobe (scope : ReadinessScope) (reprobe : LoginEvidence) (f : ReadinessFile)
    : ReadinessFile :=
  let f := set_file_records
             (List.filter (λ r, negb (reprobed_observation scope reprobe r)) (file_records f)) f in
  if is_some_and (file_login f) (reprobed_login scope reprobe) then set_file_login None f else f.

Definition read_readiness_after_probe (st : Edge) (scope : ReadinessScope) (now : Z)
    (reprobe : option LoginEvidence) : ReadinessRead :=
  if negb (component (scope_adapter scope)) || negb (component (scope_account_key scope))
  then ReadinessRead_unknown InvalidEvidence
  else
    match recorded_readiness_file st (scope_adapter scope) (scope_account_key scope) with
    | Ok (Some f) =>
        let f := match reprobe with Some e => apply_reprobe scope e f | None => f end in
        readiness_get f scope now
    | Ok None => ReadinessRead_absent
    | Err _ => ReadinessRead_unknown InvalidEvidence
    end.

Definition read_readiness (st : Edge) (scope : ReadinessScope) (now : Z) : ReadinessRead :=
  read_readiness_after_probe st scope now None.

(** ** Writing *)

(** [sync_readiness]: a stored file that does not decode is rebuilt from the
    account record, an empty one is unlinked, an unchanged one is not written
    again.  [IoNotWritten] also stands for a stored file that cannot be read. *)
Definition publish_readiness (io : Io) (intent : UpdateIntent) (now : Z) (st : Edge)
    : Edge * result EdgeError unit :=
  match io with
  | IoNotWritten => (st, Err EdgeIo)
  | _ =>
      let a := intent_account intent in
      let current := match read_readiness_file st (adapter a) (account_key a) with
                     | Ok file => file
                     | Err _ => None
                     end in
      match sync_readiness current intent now with
      | Err e => (st, Err (EdgeQuota e))
      | Ok None =>
          if is_none (readiness_files st !! path_of a) then (st, Ok tt)
          else durable io (λ st, set_readiness_files (delete (path_of a) (readiness_files st)) st) st
      | Ok (Some f) =>
          if current == Some f then (st, Ok tt)
          else
            let bytes := encode_readiness f in
            if MAX_RECORD_BYTES <? file_len bytes
            then (st, Err (EdgeQuota (Invalid "readiness bound")))
            else durable io (λ st, set_readiness_files
                                     (<[path_of a := bytes]> (readiness_files st)) st) st
      end
  end.

(** The file operation of [write_intent]; unlinking a missing file fails. *)
Definition write_record (io : Io) (intent : UpdateIntent) (st : Edge) : Edge * result EdgeError unit :=
  let a := intent_account intent in
  match replacement intent with
  | Some record =>
      durable io (λ st, set_quota_files (<[path_of a := encode_record record]> (quota_files st)) st) st
  | None =>
      if is_none (quota_files st !! path_of a) then (st, Err EdgeIo)
      else durable io (λ st, set_quota_files (delete (path_of a) (quota_files st)) st) st
  end.

(** [write_intent]: the check and the size bound, the durable write, the
    records in memory, then the derived readiness, whose failure is only a
    warning, and the signal. *)
Definition write_intent (env : Env) (intent : UpdateIntent) (records : list AccountRecord) (st : Edge)
    : Edge * result EdgeError (list AccountRecord) :=
  match commit_intent (λ r, file_len (encode_record r)) true intent records with
  | Err e => (st, Err e)
  | Ok records' =>
      match write_record (env_record env) intent st with
      | (st, Err e) => (st, Err e)
      | (st, Ok _) =>
          let '(st, _) := publish_readiness (env_readiness env) intent (env_clock env) st in
          (signal_quota st, Ok records')
      end
  end.

(** ** The handlers *)

(** Under the lock: a missing state directory is created. *)
Definition locked {A} (env : Env) (st : Edge)
    (k : list AccountRecord → Edge * result EdgeError A) : Edge * result EdgeError A :=
  match env_open env with
  | OpenFailed => (st, Err EdgeIo)
  | _ => match read_records st with
         | Err e => (st, Err (EdgeQuota e))
         | Ok records => k records
         end
  end.

Definition write_and_finish (env : Env) (intent : UpdateIntent) (records : list AccountRecord)
    (st : Edge) : Edge * result EdgeError unit :=
  match write_intent env intent records st with
  | (st, Ok _) => (st, Ok tt)
  | (st, Err e) => (st, Err e)
  end.

(** The model and account a launched route names. *)
Definition route_scope (what : string) (route : RouteRecord) : result QuotaError (string * AccountScope) :=
  adapter ← ok_or (rr_provider route) (Invalid (what +:+ " route"));
  model ← ok_or (rr_model route) (Invalid (what +:+ " route"));
  key ← ok_or (rr_account_key route) (Invalid (what +:+ " account"));
  label ← ok_or (rr_account_label route) (Invalid (what +:+ " account label"));
  let account := mkAccountScope adapter key label in
  _ ← AccountScope_validate account;
  Ok (model, account).

(** The account as the store has it: a stored label wins over the route's. *)
Definition stored_account (current : option AccountRecord) (account' : AccountScope) : AccountScope :=
  from_option account account' current.

(** A stored refusal at least as new as a replayed one. *)
Definition already_recorded (current : option AccountRecord) (adapter model : string)
    (pool : option string) (now : Z) : bool :=
  is_some_and current (λ record,
    existsb (λ refusal,
      (ref_model refusal == unwrap_or (strip_prefix (adapter +:+ "/") model) model)
      && (ref_pool refusal == pool) && (now <=? ref_observed refusal)) (refusals record)).

Definition persist_provider_refusal_once (env : Env) (route : RouteRecord) (pool : option string)
    (now : Z) (resets : option Z) (replay : bool) (st : Edge) : Edge * result EdgeError unit :=
  match route_scope "provider refusal" route with
  | Err e => (st, Err (EdgeQuota e))
  | Ok (model, account) =>
      locked env st (λ records,
        let current := find_record records (adapter account) (account_key account) in
        if replay && already_recorded current (adapter account) model pool now then (st, Ok tt)
        else
          match record_refusal current (stored_account current account) model pool now resets with
          | Err e => (st, Err (EdgeQuota e))
          | Ok intent => write_and_finish env intent records st
          end)
  end.

Definition persist_provider_refusal (env : Env) (route : RouteRecord) (pool : option string)
    (now : Z) (resets : option Z) (st : Edge) : Edge * result EdgeError unit :=
  persist_provider_refusal_once env route pool now resets false st.

Definition persist_capacity_cooldown (env : Env) (route : RouteRecord) (now duration : Z) (st : Edge)
    : Edge * result EdgeError unit :=
  if duration =? 0 then (st, Ok tt) else
  match route_scope "capacity cooldown" route with
  | Err e => (st, Err (EdgeQuota e))
  | Ok (model, account) =>
      locked env st (λ records,
        let current := find_record records (adapter account) (account_key account) in
        match record_capacity_cooldown current (stored_account current account) model now duration with
        | Err e => (st, Err (EdgeQuota e))
        | Ok None => (st, Ok tt)
        | Ok (Some intent) => write_and_finish env intent records st
        end)
  end.

(** The row of an account whose lane just succeeded, in the published report:
    no longer waiting for a login, and due now. *)
Definition lane_row (now : Z) (row : AccountRow) : AccountRow :=
  let login := is_some_and (row_snapshot row) (λ s, status s == StatusAuthRequired) in
  mkAccountRow (row_account row) (row_readiness row) (row_login_expiry row)
    (if login then None else row_snapshot row)
    (if login then StatusUnknown
     else if is_some (row_snapshot row) then Stale else StatusUnknown)
    (row_free_resets_at row) (row_refusals row) (free_pool_refusal row)
    (if login then None else age_seconds row) (Some now) false None (row_repair row)
    (row_cooldowns row) (row_display row).

Definition older_row (elapsed : Z) (row : AccountRow) : AccountRow :=
  mkAccountRow (row_account row) (row_readiness row) (row_login_expiry row) (row_snapshot row)
    (row_status row) (row_free_resets_at row) (row_refusals row) (free_pool_refusal row)
    ((λ age, saturating_add_u64 age elapsed) <$> age_seconds row) (row_next_due row)
    (refreshing row) (row_error row) (row_repair row) (row_cooldowns row) (row_display row).

(** The report [persist_provider_success] publishes, or [None] when it leaves
    the report alone: only a row that waits for a login changes. *)
Definition patch_report (report : QuotaReport) (adapter' key : string) (now : Z) : option QuotaReport :=
  let same row := (adapter (row_account row) == adapter') && (account_key (row_account row) == key) in
  if now <? generated report then None
  else if is_some_and (List.find same (accounts report)) (λ row, row_status row == StatusAuthRequired)
  then
    rows ← update_first same (lane_row now) (accounts report);
    let elapsed := unwrap_or (u64_try_from_i64 (saturating_sub_i64 now (generated report))) u64_max in
    Some (mkQuotaReport (report_schema_version report) now (older_row elapsed <$> rows)
            (sources report) (report_coverage report)
            (List.filter (λ id, id != ((key +:+ "/") +:+ adapter')) (refreshing_ids report))
            (list_min (omap row_next_due rows)) (report_path report) (report_display report)
            (display_icon_warning report))
  else None.

Definition publish_report (io : Io) (adapter key : string) (now : Z) (st : Edge)
    : Edge * result EdgeError unit :=
  match report_file st with
  | None => (st, Ok tt)
  | Some bytes =>
      if MAX_RECORD_BYTES <? file_len bytes then (st, Err EdgeTooLarge) else
      match report_from_slice bytes with
      | None => (st, Err EdgeEncode)
      | Some report =>
          match patch_report report adapter key now with
          | None => (st, Ok tt)
          | Some report =>
              match durable io (set_report_file (Some (encode_report report))) st with
              | (st, Ok _) => (signal_quota st, Ok tt)
              | (st, Err e) => (st, Err e)
              end
          end
      end
  end.

Definition persist_provider_success (env : Env) (route : RouteRecord) (now : Z) (st : Edge)
    : Edge * result EdgeError unit :=
  match rr_provider route, rr_account_key route with
  | Some adapter, Some key =>
      if match env_open env with OpenMissing => true | _ => false end then (st, Ok tt) else
      locked env st (λ records,
        let current := find_record records adapter key in
        match provider_success current adapter key (rr_account_label route) now with
        | Err e => (st, Err (EdgeQuota e))
        | Ok None => (st, Ok tt)
        | Ok (Some intent) =>
            match write_intent env intent records st with
            | (st, Err e) => (st, Err e)
            | (st, Ok _) => publish_report (env_report env) adapter key now st
            end
        end)
  | _, _ => (st, Ok tt)
  end.

(** ** What the files hold *)

Context {CL : CodecLaws}.

(** An entry of the quota directory and the record it decodes to. *)
Definition entry_ok (e : (string * string) * file) (r : AccountRecord) : Prop :=
  AccountRecord_decode e.2 = Ok r ∧ path_of (account r) = e.1.

Lemma decode_Ok b r : AccountRecord_decode b = Ok r ↔ decode_v1 b = Ok r ∧ record_valid r.
Proof.
  unfold AccountRecord_decode. rewrite result_bind_Ok. setoid_rewrite result_seq_Ok.
  setoid_rewrite validate_Ok. naive_solver.
Qed.

Lemma scope_components a :
  scope_valid a → component (adapter a) = true ∧ component (account_key a) = true.
Proof.
  unfold scope_valid. with_strategy transparent [AccountScope_validate] unfold AccountScope_validate.
  rewrite result_guard_Ok, !orb_false_iff, !negb_false_iff.
  tauto.
Qed.

Lemma read_entries_Ok acc l res :
  len acc ≤ MAX_ACCOUNTS →
  read_entries acc l = Ok res ↔
  ∃ rs, res = acc ++ rs ∧ Forall2 entry_ok l rs ∧ len res ≤ MAX_ACCOUNTS.
Proof.
  revert acc. induction l as [|[[name key] b] l IH]; intros acc Hacc; simpl.
  - split; [intros [= <-]; exists []; by rewrite app_nil_r|].
    intros (rs & -> & Hf & _). apply Forall2_nil_inv_l in Hf as ->. by rewrite app_nil_r.
  - rewrite !result_guard_Ok, !negb_false_iff, result_bind_Ok. split.
    + intros (_ & _ & r & Hr & H). rewrite !result_guard_Ok, orb_false_iff, !negb_false_iff,
        !bool_decide_eq_true, Z.ltb_ge in H. destruct H as ([<- <-] & Hb & H).
      apply IH in H as (rs & -> & Hf & Hlen); [|done]. exists (r :: rs).
      split; [by rewrite <-app_assoc|]. split; [by constructor|done].
    + intros (rs & -> & Hf & Hlen). apply Forall2_cons_inv_l in Hf as (r & rs' & [Hr Hp] & Hf & ->).
      simpl in Hr, Hp. injection Hp as <- <-. pose proof (proj2 (proj1 (decode_Ok _ _) Hr)) as Hv.
      destruct (scope_components _ (rv_scope r Hv)) as [H1 H2]. split; [done|]. split; [done|].
      exists r. split; [done|].
      rewrite !result_guard_Ok, orb_false_iff, !negb_false_iff, !bool_decide_eq_true, Z.ltb_ge.
      assert (len (acc ++ [r]) ≤ MAX_ACCOUNTS).
      { unfold len in *. rewrite !length_app in *. simpl in *. lia. }
      split; [done|]. split; [done|]. apply IH; [done|]. exists rs'.
      rewrite <-app_assoc. done.
Qed.

(** The files of a store: one per record, under its path, which decodes to it. *)
Record stored (st : Edge) (l : list AccountRecord) : Prop := {
  stored_file : ∀ r, r ∈ l → ∃ b, quota_files st !! path_of (account r) = Some b ∧
                                   AccountRecord_decode b = Ok r;
  stored_all : ∀ p b, quota_files st !! p = Some b → ∃ r, r ∈ l ∧ path_of (account r) = p;
  stored_ok : store_ok l;
}.

Lemma entries_stored st rs :
  Forall2 entry_ok (map_to_list (quota_files st)) rs → stored st rs.
Proof.
  intros Hf.
  assert (key_of <$> rs = (map_to_list (quota_files st)).*1) as Hk.
  { clear -Hf. induction Hf as [|e r l rs [_ Hp] _ IH]; [done|].
    rewrite !fmap_cons, IH, <-Hp. done. }
  constructor.
  - intros r Hr. apply list_elem_of_lookup in Hr as [i Hi].
    destruct (Forall2_lookup_r _ _ _ _ _ Hf Hi) as ([p b] & He & [Hd Hp]). simpl in *. subst p.
    exists b. split; [|done]. apply elem_of_map_to_list. by eapply list_elem_of_lookup_2.
  - intros p b Hp. apply elem_of_map_to_list, list_elem_of_lookup in Hp as [i Hi].
    destruct (Forall2_lookup_l _ _ _ _ _ Hf Hi) as (r & Hr & [_ ?]). exists r.
    split; [by eapply list_elem_of_lookup_2|done].
  - split.
    + apply list.Forall_forall. intros r Hr. apply list_elem_of_lookup in Hr as [i Hi].
      destruct (Forall2_lookup_r _ _ _ _ _ Hf Hi) as (e & _ & [Hd _]).
      by apply decode_Ok in Hd as [_ ?].
    + rewrite Hk. apply NoDup_fst_map_to_list.
Qed.

Lemma store_ok_perm l l' : l ≡ₚ l' → store_ok l → store_ok l'.
Proof. intros Hp [? ?]. unfold store_ok. by rewrite <-Hp. Qed.

Lemma stored_perm st l l' : l ≡ₚ l' → stored st l → stored st l'.
Proof.
  intros Hp [H1 H2 H3]. constructor; [|setoid_rewrite <-Hp; done|by eapply store_ok_perm].
  intros r. rewrite <-Hp. apply H1.
Qed.

(** [read_records] reads exactly the stored records, when they are within the
    account bound. *)
Lemma read_records_stored st l :
  read_records st = Ok l → stored st l ∧ len l ≤ MAX_ACCOUNTS.
Proof.
  unfold read_records. intros (rs & Hrs & [= <-])%result_bind_Ok.
  apply read_entries_Ok in Hrs as (k & Hk & Hf & Hlen); [|done]. simpl in Hk. subst rs.
  pose proof (merge_sort_Permutation record_le k) as Hp. split.
  - eapply stored_perm; [symmetry; apply Hp|]. by apply entries_stored.
  - unfold len in *. by rewrite (Permutation_length Hp).
Qed.

Lemma stored_same st l l' : stored st l → stored st l' → l ≡ₚ l'.
Proof.
  assert (∀ l l', stored st l → stored st l' → ∀ r, r ∈ l → r ∈ l') as H.
  { intros k k' Hk Hk' r Hr. destruct (stored_file _ _ Hk r Hr) as (b & Hb & Hd).
    destruct (stored_all _ _ Hk' _ _ Hb) as (r' & Hr' & Hp).
    destruct (stored_file _ _ Hk' r' Hr') as (b' & Hb' & Hd'). rewrite Hp in Hb'.
    assert (b' = b) as -> by congruence. assert (r' = r) as -> by congruence. done. }
  intros Hl Hl'. apply NoDup_Permutation.
  - apply (NoDup_fmap_1 key_of). apply (stored_ok _ _ Hl).
  - apply (NoDup_fmap_1 key_of). apply (stored_ok _ _ Hl').
  - intros r. split; by apply H.
Qed.

Lemma stored_read st l :
  stored st l → len l ≤ MAX_ACCOUNTS → ∃ l', read_records st = Ok l' ∧ l' ≡ₚ l.
Proof.
  intros Hl Hlen.
  assert (∃ rs, Forall2 entry_ok (map_to_list (quota_files st)) rs) as [rs Hf].
  { assert (∀ e, e ∈ map_to_list (quota_files st) → ∃ r, entry_ok e r) as He.
    { intros [p b] Hb%elem_of_map_to_list. destruct (stored_all _ _ Hl _ _ Hb) as (r & Hr & <-).
      destruct (stored_file _ _ Hl r Hr) as (b' & Hb' & Hd). exists r. split; [|done].
      simpl. assert (b = b') as -> by congruence. done. }
    induction (map_to_list (quota_files st)) as [|e k IH]; [by exists []|].
    destruct (He e) as [r Hr]; [set_solver|]. destruct IH as [rs Hrs]; [set_solver|].
    exists (r :: rs). by constructor. }
  pose proof (stored_same _ _ _ (entries_stored _ _ Hf) Hl) as Hp.
  exists (merge_sort record_le rs). split; [|by rewrite merge_sort_Permutation].
  unfold read_records. apply result_bind_Ok. exists rs. split; [|done].
  apply read_entries_Ok; [done|]. exists rs. split; [done|]. split; [done|].
  unfold len in *. by rewrite (Permutation_length Hp).
Qed.

(** ** What a write does to the files *)

Definition published (i : UpdateIntent) (files : gmap (string * string) file)
    : gmap (string * string) file :=
  match replacement i with
  | Some r => <[path_of (intent_account i) := encode_record r]> files
  | None => delete (path_of (intent_account i)) files
  end.

Lemma path_identity a b : path_of a = path_of b ↔ same_identity a b.
Proof. unfold path_of, same_identity. split; [by intros [= -> ->]|by intros [-> ->]]. Qed.

Lemma published_stored st st' i l l' :
  stored st l → quota_files st' = published i (quota_files st) →
  commit_intent (λ r, file_len (encode_record r)) true i l = Ok l' →
  (∀ r, replacement i = Some r → AccountRecord_decode (encode_record r) = Ok r) →
  stored st' l'.
Proof.
  intros Hl Hst Hc Hdec. pose proof (stored_ok _ _ Hl) as Hok.
  destruct (commit_intent_effect _ _ _ _ _ Hok Hc) as (Hok' & _).
  destruct (commit_intent_swap _ _ _ _ _ Hok Hc) as (rest & Hp & Hp' & Hrest).
  apply commit_intent_Ok in Hc as (Hi & _ & _).
  assert (∀ r, replacement i = Some r → path_of (account r) = path_of (intent_account i)) as Hnext.
  { intros r Hr. apply path_identity. by destruct (iv_next _ _ Hi r Hr) as (_ & ? & _). }
  assert (∀ r, r ∈ rest → path_of (intent_account i) ≠ path_of (account r)) as Hne.
  { intros r Hr Heq. apply (Hrest r Hr). by apply path_identity. }
  apply (stored_perm _ (option_list (replacement i) ++ rest)); [done|].
  constructor; [| |eapply store_ok_perm; [exact Hp'|exact Hok']].
  - intros r [Hr|Hr]%elem_of_app; rewrite Hst; unfold published.
    + destruct (replacement i) as [next|]; [|by apply not_elem_of_nil in Hr].
      apply list_elem_of_singleton in Hr as ->. exists (encode_record next).
      rewrite (Hnext next eq_refl), lookup_insert_eq. auto.
    + destruct (stored_file _ _ Hl r) as (b & Hb & Hd); [rewrite Hp; set_solver|].
      exists b. split; [|done]. specialize (Hne r Hr).
      destruct (replacement i); [by rewrite lookup_insert_ne|by rewrite lookup_delete_ne].
  - intros p b. rewrite Hst. unfold published. intros Hb.
    destruct (decide (path_of (intent_account i) = p)) as [<-|Hpne].
    + destruct (replacement i) as [next|]; [|by rewrite lookup_delete_eq in Hb].
      exists next. split; [set_solver|]. by apply Hnext.
    + assert (quota_files st !! p = Some b) as Hb'.
      { by destruct (replacement i); rewrite ?lookup_insert_ne, ?lookup_delete_ne in Hb by done. }
      destruct (stored_all _ _ Hl p b Hb') as (r & Hr & <-). exists r. split; [|done].
      rewrite Hp, elem_of_app in Hr. apply elem_of_app. right. destruct Hr as [Hr|Hr]; [|done].
      destruct (current l (intent_account i)) as [c|] eqn:Hcur; [|by apply not_elem_of_nil in Hr].
      apply list_elem_of_singleton in Hr as ->. apply current_Some in Hcur as [_ Hid]; [|done].
      destruct Hpne. symmetry. by apply path_identity.
Qed.

Lemma readiness_keeps_quota io i now st :
  quota_files (publish_readiness io i now st).1 = quota_files st.
Proof.
  unfold publish_readiness. destruct io; [|done|];
    (destruct (sync_readiness _ _ _) as [[f|]|]; simpl; [..|done];
     [case_bool_decide; [done|]; by destruct (_ <? _)|by destruct (is_none _)]).
Qed.

(** The three ways a write ends. *)
Lemma write_record_cases io i st st' res :
  write_record io i st = (st', res) →
  (res = Ok tt ∧ quota_files st' = published i (quota_files st)) ∨
  (∃ e, res = Err e ∧ st' = st) ∨
  (res = Err EdgeIo ∧ io = IoNotDurable ∧ quota_files st' = published i (quota_files st)).
Proof.
  unfold write_record, published. intros H.
  destruct (replacement i); [|destruct (is_none _); [injection H as <- <-; eauto|]];
    destruct io; injection H as <- <-; eauto 10.
Qed.

Lemma write_intent_cases env i l st st' res :
  write_intent env i l st = (st', res) →
  let commit := commit_intent (λ r, file_len (encode_record r)) true i l in
  (∃ l', res = Ok l' ∧ commit = Ok l' ∧ quota_files st' = published i (quota_files st)) ∨
  (∃ e, res = Err e ∧ st' = st) ∨
  (∃ l', res = Err EdgeIo ∧ env_record env = IoNotDurable ∧ commit = Ok l' ∧
     quota_files st' = published i (quota_files st)).
Proof.
  unfold write_intent. intros H. cbv zeta.
  destruct (commit_intent _ _ _ _) as [l'|e]; [|injection H as <- <-; eauto].
  destruct (write_record _ i st) as [st1 r1] eqn:Hw.
  apply write_record_cases in Hw as [[-> Hq]|[(e & -> & ->)|(-> & Hio & Hq)]].
  - pose proof (readiness_keeps_quota (env_readiness env) i (env_clock env) st1) as Hk.
    destruct (publish_readiness _ _ _ _) as [st2 ?]. injection H as <- <-. left. exists l'.
    simpl in *. by rewrite Hk.
  - injection H as <- <-. eauto.
  - injection H as <- <-. eauto 10.
Qed.

(** What a later reader reads after a write of the records it was computed from. *)
Lemma write_intent_read env i l st st' l' :
  read_records st = Ok l → write_intent env i l st = (st', Ok l') →
  ∀ l'', read_records st' = Ok l'' → l'' ≡ₚ l'.
Proof.
  intros Hl Hw l'' Hl''. apply read_records_stored in Hl as [Hl _].
  apply read_records_stored in Hl'' as [Hl'' _].
  apply write_intent_cases in Hw as [(k & [= <-] & Hc & Hq)|[(? & [=] & _)|(? & [=] & _)]].
  apply (stored_same st'); [done|]. apply (published_stored st _ i l); [done..|].
  intros r Hr. apply commit_intent_Ok in Hc as (Hi & _ & _).
  destruct (iv_next _ _ Hi r Hr) as (Hv & _ & _).
  assert (quota_files st' !! path_of (intent_account i) = Some (encode_record r)) as Hb.
  { rewrite Hq. unfold published. rewrite Hr. apply lookup_insert_eq. }
  destruct (stored_all _ _ Hl'' _ _ Hb) as (r' & Hr' & Hp).
  destruct (stored_file _ _ Hl'' r' Hr') as (b' & Hb' & Hd).
  assert (b' = encode_record r) as -> by congruence.
  rewrite Hd. f_equal. apply decode_Ok in Hd as [Hd _]. by apply decode_v1_sound in Hd.
Qed.

(** Whether the records of a write stay within the account bound: a write that
    adds an account needs room for it. *)
Definition write_fits (i : UpdateIntent) (l : list AccountRecord) : Prop :=
  replacement i = None ∨ current l (intent_account i) ≠ None ∨ len l < MAX_ACCOUNTS.

Lemma commit_fits size strict i l l' :
  store_ok l → len l ≤ MAX_ACCOUNTS → commit_intent size strict i l = Ok l' →
  len l' ≤ MAX_ACCOUNTS ↔ write_fits i l.
Proof.
  intros Hok Hlen Hc. destruct (commit_intent_swap _ _ _ _ _ Hok Hc) as (rest & Hp & Hp' & _).
  unfold write_fits, len in *. rewrite (Permutation_length Hp) in *. rewrite (Permutation_length Hp').
  rewrite !length_app in *. destruct (replacement i), (current l (intent_account i)); simpl in *; naive_solver lia.
Qed.

(** C4: the records in memory refine the files.  When the files read back as
    the records an intent is written from, a write that succeeds leaves valid
    records, one per account: the written account holds exactly the
    replacement, at the next revision of what it replaced, and no other account
    changes.  With a replacement within the limits of the codec, the files read
    back as exactly these records if and only if the write does not add an
    account to a store that is full; the bound is not checked by the write.
    A write that fails has changed no file, except that a publication whose
    durability is not known may have reached the disk, in which case the files
    read back as the committed records under the same condition.  The readiness
    published on the side never changes an account record. *)
Theorem write_intent_refines env i l st st' res :
  read_records st = Ok l →
  write_intent env i l st = (st', res) →
  (∀ r, replacement i = Some r → within_limits r = true) →
  let reads_back l' := (∃ l'', read_records st' = Ok l'' ∧ l'' ≡ₚ l') ↔ write_fits i l in
  match res with
  | Ok l' => store_ok l' ∧ current l' (intent_account i) = replacement i ∧
      (∀ next, replacement i = Some next →
         revision next = from_option revision 0 (current l (intent_account i)) + 1) ∧
      (∀ a, ¬ same_identity a (intent_account i) → current l' a = current l a) ∧ reads_back l'
  | Err e => st' = st ∨
      e = EdgeIo ∧ env_record env = IoNotDurable ∧
      ∃ l', commit_intent (λ r, file_len (encode_record r)) true i l = Ok l' ∧ reads_back l'
  end.
Proof.
  intros Hl Hw Hlim reads_back. apply read_records_stored in Hl as [Hl Hlen].
  assert (∀ l', commit_intent (λ r, file_len (encode_record r)) true i l = Ok l' →
            quota_files st' = published i (quota_files st) → reads_back l') as Hback.
  { intros l' Hc Hq. unfold reads_back. rewrite <-(commit_fits _ _ _ _ _ (stored_ok _ _ Hl) Hlen Hc). split.
    - intros (l'' & [_ Hb]%read_records_stored & Hp). unfold len in *. by rewrite <-(Permutation_length Hp).
    - intros Hfits. apply stored_read; [|done]. apply (published_stored st _ i l); [done..|].
      intros r Hr. apply commit_intent_Ok in Hc as (Hi & _ & Hc). rewrite Hr in Hc.
      destruct (iv_next _ _ Hi r Hr) as (Hv & _ & _). apply decode_Ok. split; [|done].
      destruct Hc. apply decode_v1_encode; auto. }
  apply write_intent_cases in Hw as [(l' & -> & Hc & Hq)|[(e & -> & ->)|(l' & -> & Hio & Hc & Hq)]];
    [|by left|right; eauto 10].
  destruct (commit_intent_effect _ _ _ _ _ (stored_ok _ _ Hl) Hc) as (? & ? & ? & ?).
  do 4 (split; [done|]). by apply Hback.
Qed.

(** ** What the handlers leave *)

Lemma locked_Ok {A} env st k (st' : Edge) (a : A) :
  locked env st k = (st', Ok a) → ∃ l, read_records st = Ok l ∧ k l = (st', Ok a).
Proof.
  unfold locked. destruct (env_open env); [..|done]; destruct (read_records st); naive_solver.
Qed.

Lemma finish_Ok env i l st st' :
  write_and_finish env i l st = (st', Ok tt) → ∃ l', write_intent env i l st = (st', Ok l').
Proof.
  unfold write_and_finish. destruct (write_intent env i l st) as [st1 [l'|e]]; [|done].
  intros [= <-]. eauto.
Qed.

(** A refusal that was persisted was recorded already, or is the last one of
    the record the store now holds. *)
Lemma persist_refusal_Ok env route pool now resets replay st st' :
  persist_provider_refusal_once env route pool now resets replay st = (st', Ok tt) →
  ∃ model a l, route_scope "provider refusal" route = Ok (model, a) ∧ read_records st = Ok l ∧
    let cur := find_record l (adapter a) (account_key a) in
    (replay && already_recorded cur (adapter a) model pool now = true ∧ st' = st ∨
     ∃ intent l', record_refusal cur (stored_account cur a) model pool now resets = Ok intent ∧
                  write_intent env intent l st = (st', Ok l')).
Proof.
  unfold persist_provider_refusal_once. destruct (route_scope _ _) as [[model a]|]; [|done].
  intros (l & Hl & H)%locked_Ok. exists model, a, l. split; [done|]. split; [done|]. cbv zeta.
  destruct (replay && _); [left; naive_solver|right].
  destruct (record_refusal _ _ _ _ _ _) as [intent|]; [|done].
  apply finish_Ok in H as [l' H]. eauto.
Qed.

Lemma stored_account_identity l a :
  same_identity (stored_account (find_record l (adapter a) (account_key a)) a) a.
Proof.
  unfold stored_account. destruct (find_record l _ _) as [r|] eqn:E; simpl;
    [|by apply same_identity_refl].
  apply find_record_Some in E as (_ & ? & ?). done.
Qed.

(** The record a later reader finds after a persisted refusal. *)
Lemma persisted_refusal_found env intent model pool now resets a l l' l'' st st' :
  let cur := find_record l (adapter a) (account_key a) in
  read_records st = Ok l →
  record_refusal cur (stored_account cur a) model pool now resets = Ok intent →
  write_intent env intent l st = (st', Ok l') → read_records st' = Ok l'' →
  ∃ next, replacement intent = Some next ∧
          find_record l'' (adapter a) (account_key a) = Some next.
Proof.
  intros cur Hl Hr Hw Hl''. pose proof (write_intent_read _ _ _ _ _ _ Hl Hw _ Hl'') as Hp.
  destruct (stored_account_identity l a) as [Ha Hk]. fold cur in Ha, Hk.
  apply record_refusal_Ok in Hr as (m & _ & _ & _ & _ & _ & _ & _ & ->).
  eexists. split; [done|]. apply read_records_stored in Hl as [Hl _].
  apply write_intent_cases in Hw as [(k & [= <-] & Hc & _)|[(? & [=] & _)|(? & [=] & _)]].
  destruct (commit_intent_effect _ _ _ _ _ (stored_ok _ _ Hl) Hc) as (Hok & Hcur & _).
  simpl in Hcur. apply current_Some in Hcur as [Hin Hid]; [|done].
  apply (current_Some l'' a); [by eapply store_ok_perm|]. rewrite Hp. split; [done|].
  destruct Hid as [H1 H2]. split; [exact (eq_trans H1 Ha)|exact (eq_trans H2 Hk)].
Qed.

Lemma from_resolved_scope route label src model a :
  route_scope "provider refusal" (from_resolved route label src) = Ok (model, a) →
  model = (adapter a +:+ "/") +:+ route_model route ∧ adapter a = route_adapter route ∧
  route_account_key route = Some (account_key a).
Proof.
  unfold route_scope, from_resolved. simpl. intros (key & Hk%ok_or_Ok & H)%result_bind_Ok.
  apply result_bind_Ok in H as (lab & _ & H). apply result_seq_Ok in H as [_ [= <- <-]]. done.
Qed.

(** The account's file after a persisted refusal holds its record, and any state
    with this file reads as one whose account has it. *)
Lemma persisted_refusal_kept env intent model pool now resets a l l' st st' st'' l'' :
  let cur := find_record l (adapter a) (account_key a) in
  read_records st = Ok l →
  record_refusal cur (stored_account cur a) model pool now resets = Ok intent →
  write_intent env intent l st = (st', Ok l') →
  quota_files st'' !! path_of a = quota_files st' !! path_of a → read_records st'' = Ok l'' →
  ∃ next, replacement intent = Some next ∧ find_record l'' (adapter a) (account_key a) = Some next.
Proof.
  intros cur Hl Hr Hw Hsame [Hl'' _]%read_records_stored.
  destruct (stored_account_identity l a) as [Ha Hk]. fold cur in Ha, Hk.
  apply record_refusal_Ok in Hr as (m & _ & _ & _ & Hacc & _ & _ & _ & ->).
  set (next := with_refusal _ _ _ _ _ _) in Hw |- *. exists next. split; [done|].
  apply write_intent_cases in Hw as [(k & [= <-] & _ & Hq)|[(? & [=] & _)|(? & [=] & _)]].
  assert (path_of (stored_account cur a) = path_of a) as Hpath by (by apply path_identity).
  rewrite Hq in Hsame. unfold published in Hsame. cbn [replacement intent_account] in Hsame.
  rewrite Hpath, lookup_insert_eq in Hsame.
  destruct (stored_all _ _ Hl'' _ _ Hsame) as (r & Hin & Hp).
  destruct (stored_file _ _ Hl'' r Hin) as (b & Hb & Hd). rewrite Hp, Hsame in Hb. injection Hb as <-.
  apply decode_Ok in Hd as [->%decode_v1_sound _].
  apply (current_Some l'' a); [by apply (stored_ok _ _ Hl'')|]. split; [done|]. by apply path_identity.
Qed.

(** C7: a persisted refusal holds.  After a lane's refusal is persisted, every
    admission that reads the account's file as that write left it (whatever was
    written for other accounts) refuses the same route until the refusal
    expires, under any polling policies and also when unknown headroom is
    allowed.  A refusal of a pool holds for the launches that draw on that pool,
    or on the model itself for the free pool, provided that the record has no
    reading newer than the refusal: such a reading may clear it. *)
Theorem persisted_refusal_blocks env route label src pool now resets st st' st'' self key :
  persist_provider_refusal env (from_resolved route label src) pool now resets st = (st', Ok tt) →
  route_account_key route = Some key →
  quota_files st'' !! (route_adapter route, key) = quota_files st' !! (route_adapter route, key) →
  read_records st'' = Ok (records self) →
  refusal_reaches self (route_adapter route) pool →
  (pool ≠ None → ∀ r s, find_record (records self) (route_adapter route) key = Some r → snapshot r = Some s →
     observed s ≤ now) →
  now_unix_seconds self < unwrap_or resets (now + 3600) →
  ∀ allow_unknown, check_with_partial_headroom self route allow_unknown ≠ Ok tt.
Proof.
  intros H Hrk Hsame Hread Hreach Hsnap Hnow allow Hok.
  apply persist_refusal_Ok in H as (model & a & l & Hs & Hl & [[[=] _]|(intent & l' & Hr & Hw)]).
  apply from_resolved_scope in Hs as (-> & Had & Hkey). rewrite Hrk in Hkey. injection Hkey as ->.
  rewrite <-Had in *.
  destruct (persisted_refusal_kept _ _ _ _ _ _ _ _ _ _ _ _ _ Hl Hr Hw Hsame Hread) as (next & Hn & Hf).
  destruct (stored_account_identity l a) as [Ha Hk].
  set (cur := find_record l _ _) in *. set (a' := stored_account cur a) in *.
  unfold check_with_partial_headroom in Hok. rewrite result_guard_Ok, Hrk in Hok. simpl in Hok.
  rewrite <-Had in Hok. destruct Hok as [_ Hok].
  apply result_bind_Ok in Hok as ([b|] & Hb & Hok); [done|]. revert Hb.
  rewrite <-Ha, <-Hk in Hf |- *. rewrite <-Ha in Hr, Hreach.
  refine (recorded_refusal_held _ _ _ _ _ _ _ _ _ Hr Hn Hf Hreach _ Hnow).
  intros Hp s Hs. apply (Hsnap Hp next s); [|done]. by rewrite <-Ha, <-Hk.
Qed.

(** Replaying a refusal changes nothing.  Once a refusal is persisted, a
    replay of the same or an older observation of it finds it in the files
    and leaves every file as it is. *)
Theorem replay_is_idempotent env env' route pool now now' resets resets' replay st st' l' :
  persist_provider_refusal_once env route pool now resets replay st = (st', Ok tt) →
  read_records st' = Ok l' → env_open env' ≠ OpenFailed → now' ≤ now →
  persist_provider_refusal_once env' route pool now' resets' true st' = (st', Ok tt).
Proof.
  intros H Hread Hopen Hnow. apply persist_refusal_Ok in H as (model & a & l & Hs & Hl & H).
  unfold persist_provider_refusal_once, locked. rewrite Hs, Hread.
  assert (already_recorded (find_record l' (adapter a) (account_key a)) (adapter a) model pool now'
          = true) as Hrec.
  { destruct H as [[Hrec ->]|(intent & k & Hr & Hw)].
    - rewrite Hl in Hread. injection Hread as <-. apply andb_true_iff in Hrec as [_ Hrec].
      unfold already_recorded in *. apply is_some_and_true in Hrec as (r & -> & Hx). simpl.
      apply existsb_elem in Hx as (x & Hx & Hp). apply existsb_elem. exists x. split; [done|].
      rewrite !andb_true_iff, Z.leb_le in *. split; [tauto|lia].
    - destruct (persisted_refusal_found _ _ _ _ _ _ _ _ _ _ _ _ Hl Hr Hw Hread) as (next & Hn & ->).
      destruct (stored_account_identity l a) as [Ha _].
      apply record_refusal_Ok in Hr as (m & Hacc & _ & _ & _ & _ & _ & _ & ->).
      injection Hn as <-. simpl. pose proof (ra_model _ _ _ _ _ _ Hacc) as Hm. rewrite Ha in Hm.
      rewrite (proj2 (strip_prefix_Some _ _ _) Hm). simpl.
      destruct (with_refusal_elem (current_or_empty (find_record l (adapter a) (account_key a))
                  (stored_account (find_record l (adapter a) (account_key a)) a))
                  (stored_account (find_record l (adapter a) (account_key a)) a) m pool now resets)
        as [extra Hin].
      apply existsb_elem. eexists. split; [exact Hin|]. simpl.
      rewrite !bool_decide_eq_true_2 by done. simpl. by apply Z.leb_le. }
  rewrite Hrec. by destruct (env_open env').
Qed.

(** C40: the account bound is checked when records are read and not when they
    are written.  In a full store a refusal of one more account is persisted
    successfully, and from then on the files cannot be read, so that every
    operation that takes the lock fails. *)
Theorem full_store_becomes_unreadable env route model a pool now resets l st st' :
  read_records st = Ok l → len l = MAX_ACCOUNTS →
  route_scope "provider refusal" route = Ok (model, a) →
  find_record l (adapter a) (account_key a) = None →
  persist_provider_refusal env route pool now resets st = (st', Ok tt) →
  ∃ e, read_records st' = Err e.
Proof.
  intros Hl Hlen Hs Hnone H.
  destruct (read_records st') as [l''|e] eqn:Hread; [exfalso|by exists e].
  apply persist_refusal_Ok in H as (model' & a' & k & Hs' & Hk & [[[=] _]|(intent & l' & Hr & Hw)]).
  rewrite Hs in Hs'. injection Hs' as <- <-. rewrite Hl in Hk. injection Hk as <-.
  pose proof (write_intent_read _ _ _ _ _ _ Hl Hw _ Hread) as Hp.
  apply read_records_stored in Hread as [_ Hbound].
  apply write_intent_cases in Hw as [(k & [= <-] & Hc & _)|[(? & [=] & _)|(? & [=] & _)]].
  rewrite Hnone in Hr. simpl in Hr.
  apply record_refusal_Ok in Hr as (m & _ & _ & _ & _ & _ & _ & _ & ->).
  apply commit_intent_Ok in Hc as (_ & _ & Hc). simpl in Hc. destruct Hc as [_ Hc].
  assert (position (is_account a) l = None) as Hpos.
  { destruct (position (is_account a) l) as [n|] eqn:E; [|done].
    pose proof (position_current l a) as Hcur. unfold current in Hcur. rewrite Hnone, E in Hcur.
    apply position_split in E as (l1 & y & l2 & -> & -> & _). simpl in Hcur.
    by rewrite list_lookup_middle in Hcur. }
  rewrite Hpos in Hc. subst l'. unfold len in *.
  rewrite (Permutation_length Hp), length_app in Hbound. simpl in Hbound. lia.
Qed.

(** ** Reading after a login probe *)

Lemma find_filter_kept {A} (p q : A → bool) l x :
  List.find p l = Some x → q x = true → List.find p (List.filter q l) = Some x.
Proof.
  intros H Hq. induction l as [|y l IH]; simpl in *; [done|].
  destruct (p y) eqn:Hp.
  - injection H as ->. rewrite Hq. simpl. by rewrite Hp.
  - destruct (q y); simpl; [rewrite Hp|]; auto.
Qed.

Lemma find_filter_None {A} (p q : A → bool) l :
  (∀ x, x ∈ l → p x = true → q x = false) → List.find p (List.filter q l) = None.
Proof.
  intros H. apply find_None_elem. intros x Hx. apply bfilter_elem in Hx as [Hx Hq].
  destruct (p x) eqn:Hp; [|done]. specialize (H x Hx Hp). congruence.
Qed.

(** Evidence that a login probe leaves alone. *)
Definition outlives (e : LoginEvidence) (reason : option ReadinessReason) : Prop :=
  reason ≠ Some SignedOut ∧ reason ≠ Some ReasonLoginExpired ∧
  (reason = Some ReasonAccountMismatch → is_verified e = false).

Lemma outlives_kept scope e r : outlives e (obs_reason r) → reprobed_observation scope e r = false.
Proof.
  intros (H1 & H2 & H3). unfold reprobed_observation.
  rewrite (bool_decide_eq_false_2 (_ = Some SignedOut)),
    (bool_decide_eq_false_2 (_ = Some ReasonLoginExpired)) by done.
  destruct (decide (obs_reason r = Some ReasonAccountMismatch)).
  - by rewrite H3, andb_false_r.
  - by rewrite (bool_decide_eq_false_2 (_ = Some ReasonAccountMismatch)), !andb_false_r.
Qed.

(** Reading one scope of a reprobed file: the same, or nothing is left. *)
Lemma read_at_reprobe f scope s e now :
  NoDup (obs_scope <$> file_records f) →
  read_at (apply_reprobe scope e f) now s = read_at f now s ∨
  read_at (apply_reprobe scope e f) now s = ReadinessRead_absent ∧
  ∃ r, List.find (λ r, obs_scope r == s) (file_records f) = Some r ∧
       reprobed_observation scope e r = true.
Proof.
  intros Hnd.
  set (f' := set_file_records
     (List.filter (λ r, negb (reprobed_observation scope e r)) (file_records f)) f).
  assert (read_at (apply_reprobe scope e f) now s = read_at f' now s) as ->.
  { unfold apply_reprobe. fold f'. by destruct (is_some_and _ _). }
  destruct (List.find (λ r, obs_scope r == s) (file_records f)) as [r|] eqn:Hr.
  - destruct (reprobed_observation scope e r) eqn:Hk.
    + right. split; [|eauto]. unfold read_at. simpl. rewrite find_filter_None; [done|].
      intros x Hx Hs. apply negb_false_iff. rewrite <-Hk. f_equal.
      apply find_Some_elem in Hr as [Hr Hrs]. apply bool_decide_eq_true in Hs, Hrs.
      eapply (NoDup_key_inj obs_scope); [done..|]. congruence.
    + left. unfold read_at. simpl.
      rewrite Hr, (find_filter_kept _ _ _ r Hr); [done|by rewrite Hk].
  - left. unfold read_at. simpl. rewrite Hr, find_filter_None; [done|].
    intros x Hx Hs. rewrite find_None_elem in Hr. specialize (Hr x Hx). congruence.
Qed.

Lemma read_at_reason f now s r :
  List.find (λ r, obs_scope r == s) (file_records f) = Some r →
  read_state (read_at f now s) = StateUnavailable → read_reason (read_at f now s) = obs_reason r.
Proof.
  intros Hr. unfold read_at. rewrite Hr. destruct (_ || _); [done|]. destruct (_ <=? _); [done|].
  by case_bool_decide.
Qed.

(** A block that outlives the probe is read again as it was. *)
Lemma read_at_outlives f scope s e now :
  NoDup (obs_scope <$> file_records f) →
  read_state (read_at f now s) = StateUnavailable → outlives e (read_reason (read_at f now s)) →
  read_at (apply_reprobe scope e f) now s = read_at f now s.
Proof.
  intros Hnd Hst Hout. destruct (read_at_reprobe f scope s e now Hnd) as [|(_ & r & Hr & Hk)]; [done|].
  rewrite (read_at_reason f now s r Hr Hst) in Hout.
  rewrite (outlives_kept scope e r Hout) in Hk. done.
Qed.

Definition blocks_account (r : ReadinessRead) : bool :=
  (read_state r == StateUnavailable) || (is_some (read_scope r) && login_reason (read_reason r)).

Lemma reprobe_get f scope e now :
  NoDup (obs_scope <$> file_records f) →
  read_state (readiness_get f scope now) = StateUnavailable →
  outlives e (read_reason (readiness_get f scope now)) →
  readiness_get (apply_reprobe scope e f) scope now = readiness_get f scope now.
Proof.
  intros Hnd. unfold readiness_get.
  set (wide := mkReadinessScope _ _ _ ACCOUNT_ROUTE). fold (blocks_account (read_at f now wide)).
  fold (blocks_account (read_at (apply_reprobe scope e f) now wide)).
  set (specific := (route scope != ACCOUNT_ROUTE)).
  destruct (specific && blocks_account (read_at f now wide)) eqn:Hb.
  - intros Hst Hout. by rewrite (read_at_outlives f scope wide e now Hnd Hst Hout), Hb.
  - assert (specific && blocks_account (read_at (apply_reprobe scope e f) now wide) = false) as ->.
    { destruct (read_at_reprobe f scope wide e now Hnd) as [->|[-> _]]; [done|apply andb_false_r]. }
    case_bool_decide as Hs.
    + intros _ Hout. rewrite (read_at_outlives f scope scope e now Hnd Hs Hout).
      by rewrite bool_decide_eq_true_2.
    + destruct (file_login f) as [login|]; [|by intros].
      destruct (_ && (login_state login now 0 == LoginStateExpired)); [|by intros].
      intros _ (_ & Hno & _). done.
Qed.

(** A login probe outdates login evidence and nothing else.  A route that
    reads as unavailable for another reason, such as a provider refusal or a
    failed command, reads the same whatever a fresh login probe found; and
    only a probe that verified the identity sets an account mismatch aside. *)
Theorem login_probe_keeps_blocks st scope now e :
  let r := read_readiness st scope now in
  read_state r = StateUnavailable → outlives e (read_reason r) →
  read_readiness_after_probe st scope now (Some e) = r.
Proof.
  intros r. subst r. unfold read_readiness, read_readiness_after_probe.
  destruct (_ || _); [done|]. destruct (recorded_readiness_file _ _ _) as [[f|]|] eqn:Hf; [|done..].
  apply reprobe_get. unfold recorded_readiness_file, read_readiness_file in Hf.
  apply result_guard_Ok in Hf as [_ Hf]. destruct (readiness_files st !! _) as [b|]; [|done].
  apply result_guard_Ok in Hf as [_ Hf]. apply result_bind_Ok in Hf as (f' & Hd & [= ->]).
  unfold ReadinessFile_decode in Hd. apply result_bind_Ok in Hd as (f' & _ & Hd).
  apply result_seq_Ok in Hd as [Hv [= ->]].
  apply readiness_validate_Ok in Hv as (_ & _ & _ & _ & Hnd). done.
Qed.

(** ** The published report after a lane succeeded *)

(** A lane's success invents no quota.  The published report changes only
    when the account's row waits for a login and the report is not from the
    future; then exactly that row changes, to a state that shows no usable
    allowance and keeps no reading that asks for a login, and is due now;
    every other row only ages; and the number of rows with known quota is the
    one the report's coverage states. *)
Theorem lane_success_invents_nothing report ad key now report' :
  patch_report report ad key now = Some report' →
  generated report ≤ now ∧ generated report' = now ∧
  report_coverage report' = report_coverage report ∧
  length (List.filter is_known (accounts report')) = length (List.filter is_known (accounts report)) ∧
  ∃ l1 row l2 elapsed, accounts report = l1 ++ row :: l2 ∧
    path_of (row_account row) = (ad, key) ∧ row_status row = StatusAuthRequired ∧
    let row' := lane_row now row in
    accounts report' = older_row elapsed <$> (l1 ++ row' :: l2) ∧
    row_account row' = row_account row ∧ is_known row' = false ∧ row_next_due row' = Some now ∧
    ∀ s, row_snapshot row' = Some s → row_snapshot row = Some s ∧ status s ≠ StatusAuthRequired.
Proof.
  unfold patch_report. set (same := λ row, _). set (elapsed := unwrap_or _ u64_max).
  destruct (Z.ltb_spec now (generated report)); [done|].
  destruct (is_some_and _ _) eqn:Hauth; [|done].
  intros (rows & Hrows & [= <-])%bind_Some. simpl.
  apply is_some_and_true in Hauth as (row & Hrow & Hst%bool_decide_eq_true).
  apply find_Some_split in Hrow as (l1 & l2 & Hacc & Hs & Hl1).
  assert (rows = l1 ++ lane_row now row :: l2) as ->.
  { rewrite Hacc in Hrows. clear -Hrows Hs Hl1. revert rows Hrows.
    induction l1 as [|y l1 IH]; intros rows; simpl.
    - rewrite Hs. by intros [= <-].
    - rewrite list.Forall_cons in Hl1. destruct Hl1 as [-> Hl1].
      destruct (update_first same _ _) as [rows'|]; [|done]. intros [= <-]. simpl. f_equal. auto. }
  assert (is_known (lane_row now row) = false) as Hk.
  { unfold is_known, lane_row. simpl. destruct (is_some_and _ _); [done|]. by destruct (is_some _). }
  split_and!; [lia|done|done| |].
  - rewrite Hacc. rewrite !fmap_app, fmap_cons, !List.filter_app. simpl.
    assert (is_known (older_row elapsed (lane_row now row)) = false) as -> by exact Hk.
    assert (is_known row = false) as -> by (unfold is_known; by rewrite Hst).
    assert (∀ l, length (List.filter is_known (older_row elapsed <$> l))
                 = length (List.filter is_known l)) as Hold.
    { intros l. induction l as [|y l IH]; [done|]. rewrite fmap_cons. simpl.
      assert (is_known (older_row elapsed y) = is_known y) as -> by done.
      destruct (is_known y); simpl; by rewrite IH. }
    rewrite !length_app, !Hold. done.
  - exists l1, row, l2, elapsed. subst same. apply andb_true_iff in Hs as [H1 H2].
    apply bool_decide_eq_true in H1, H2. split_and!; try done; [by unfold path_of; rewrite H1, H2|].
    intros s. unfold lane_row. simpl. destruct (is_some_and (row_snapshot row) _) eqn:E; [done|].
    intros Hsnap. split; [done|]. rewrite is_some_and_false in E. specialize (E s Hsnap).
    by apply bool_decide_eq_false in E.
Qed.
End Edge.

(** ** A concrete state directory *)

(** A codec whose files are the values themselves, 1000 bytes each. *)
Inductive ex_file :=
| FileRecord (r : @AccountRecord json_example)
| FileReadiness (f : ReadinessFile)
| FileReport (r : QuotaReport).

Definition codec_example : @Codec json_example := {|
  file := ex_file;
  file_len _ := 1000;
  encode_record := FileRecord;
  decode_v1 f := match f with FileRecord r => Ok r | _ => Err (Invalid "record") end;
  within_limits _ := true;
  encode_readiness := FileReadiness;
  readiness_from_slice f := match f with FileReadiness r => Some r | _ => None end;
  encode_report := FileReport;
  report_from_slice f := match f with FileReport r => Some r | _ => None end;
|}.

#[export] Instance codec_example_laws : @CodecLaws json_example codec_example.
Proof. split; simpl; naive_solver. Qed.

Abbreviation ex_edge := (@Edge json_example codec_example).
Abbreviation ex_read := (@read_records json_example codec_example).
Abbreviation ex_persist := (@persist_provider_refusal_once json_example jiff_example codec_example).

Definition ex_env : Env := mkEnv Opened IoDone IoDone IoDone 1990.
Definition ex_empty : ex_edge := mkEdge ∅ ∅ None 0.

Definition ex_launch : @ResolvedRoute json_example :=
  @mkResolvedRoute json_example ∅ "codex" "gpt-5" None "1" (Some "key-1") "local"
    (@mkRouteAlternatives json_example []) [] Eligible
    (@Ready json_example ∅ "ref" 9000) (@mkRouteConfidentiality json_example ∅ "policy") None.
Definition ex_launched : @RouteRecord json_example := from_resolved ex_launch (Some "Work") "cli".

(** The directory after the refusal of [ex_launch] at 1990. *)
Definition ex_after : ex_edge :=
  Eval vm_compute in (ex_persist ex_env ex_launched None 1990 None false ex_empty).1.

Lemma ex_after_read : ex_read ex_after = Ok [ex_refused].
Proof. vm_compute. reflexivity. Qed.

Lemma write_intent_refines_witness :
  ∃ st' l', @write_intent json_example jiff_example codec_example ex_env
              (mkUpdateIntent ex_account None (Some ex_refused) None None) [] ex_empty = (st', Ok l') ∧
    ∃ l'', ex_read st' = Ok l'' ∧ l'' ≡ₚ l'.
Proof.
  destruct (@write_intent json_example jiff_example codec_example ex_env
              (mkUpdateIntent ex_account None (Some ex_refused) None None) [] ex_empty)
    as [st' [l'|e]] eqn:Hw; [|vm_compute in Hw; discriminate Hw].
  exists st', l'. split; [reflexivity|].
  refine (proj2 (proj2 (proj2 (proj2 (proj2 (@write_intent_refines json_example jiff_example codec_example _ ex_env
            (mkUpdateIntent ex_account None (Some ex_refused) None None) [] ex_empty st' (Ok l')
            eq_refl Hw (λ _ _, eq_refl)))))) _).
  right. right. reflexivity.
Defined.

Lemma persisted_refusal_blocks_witness :
  check_with_partial_headroom ex_admission ex_launch true ≠ Ok tt.
Proof.
  refine (@persisted_refusal_blocks json_example jiff_example codec_example _ ex_env ex_launch
            (Some "Work") "cli" None 1990 None ex_empty ex_after ex_after ex_admission "key-1" _ eq_refl eq_refl
            ex_after_read _ _ _ true).
  - vm_compute. reflexivity.
  - right. intros q. discriminate.
  - intros Hp. by destruct Hp.
  - by vm_compute.
Defined.

Lemma replay_is_idempotent_witness :
  ex_persist ex_env ex_launched None 1990 None true ex_after = (ex_after, Ok tt).
Proof.
  refine (@replay_is_idempotent json_example jiff_example codec_example _ ex_env ex_env ex_launched None
            1990 1990 None None false ex_empty ex_after [ex_refused] _ ex_after_read _ _).
  - vm_compute. reflexivity.
  - discriminate.
  - by vm_compute.
Defined.

(** 128 accounts, and a refusal on one more. *)
Definition ex_key (n : nat) : string :=
  String (Ascii.ascii_of_nat (97 + n / 16)) (String (Ascii.ascii_of_nat (97 + n `mod` 16)) EmptyString).
Definition ex_full_store : ex_edge :=
  mkEdge (list_to_map ((λ n, (("codex", ex_key n),
     FileRecord (@AccountRecord_empty json_example (mkAccountScope "codex" (ex_key n) "Work")))) <$> seq 0 128))
    ∅ None 0.

Definition ex_full_result : ex_edge * result EdgeError unit :=
  ex_persist ex_env ex_launched None 1990 None false ex_full_store.

Lemma ex_full_result_ok : is_ok ex_full_result.2 = true.
Proof. vm_compute. reflexivity. Qed.

Lemma ex_full_store_read :
  match ex_read ex_full_store with
  | Ok l => (len l =? MAX_ACCOUNTS) && is_none (find_record l "codex" "key-1")
  | Err _ => false
  end = true.
Proof. vm_compute. reflexivity. Qed.

Lemma full_store_becomes_unreadable_witness :
  ∃ st' e, ex_full_result = (st', Ok tt) ∧ ex_read st' = Err e.
Proof.
  pose proof ex_full_result_ok as Hok. pose proof ex_full_store_read as Hfull.
  destruct ex_full_result as [st' [[]|e]] eqn:Hp; [|discriminate Hok].
  exists st'. destruct (ex_read ex_full_store) as [l|] eqn:Hl; [|discriminate Hfull].
  apply andb_true_iff in Hfull as [Hlen%Z.eqb_eq Hnone].
  destruct (@full_store_becomes_unreadable json_example jiff_example codec_example _ ex_env ex_launched
              "codex/gpt-5" ex_account None 1990 None l ex_full_store st' Hl Hlen) as [e He].
  - vm_compute. reflexivity.
  - apply is_some_false. exact (proj1 (negb_true_iff _) Hnone).
  - exact Hp.
  - exists e. split; [reflexivity|exact He].
Defined.

Lemma login_probe_keeps_blocks_witness :
  read_state (@read_readiness json_example jiff_example codec_example ex_after ex_scope 2000)
    = StateUnavailable ∧
  @read_readiness_after_probe json_example jiff_example codec_example ex_after ex_scope 2000
    (Some (Verified 1999))
  = @read_readiness json_example jiff_example codec_example ex_after ex_scope 2000.
Proof.
  split; [vm_compute; reflexivity|].
  refine (@login_probe_keeps_blocks json_example jiff_example codec_example ex_after ex_scope 2000
            (Verified 1999) _ _); [vm_compute; reflexivity|].
  vm_compute. split; [discriminate|]. split; [discriminate|]. intros [=].
Defined.

(** A report whose only row waits for a login. *)
Definition ex_waiting : QuotaReport :=
  mkQuotaReport 1 1900
    [mkAccountRow ex_account None None (Some ex_snapshot) StatusAuthRequired None [] false (Some 400)
       (Some 2400) true (Some Auth) None [] None]
    [] (mkCoverage 1 0) ["key-1/codex"] (Some 2400) "report.json" Display_default None.

Lemma lane_success_invents_nothing_witness :
  ∃ report', patch_report ex_waiting "codex" "key-1" 2000 = Some report' ∧
    length (List.filter is_known (accounts report')) = 0%nat.
Proof.
  destruct (patch_report ex_waiting "codex" "key-1" 2000) as [report'|] eqn:Hp;
    [|vm_compute in Hp; discriminate Hp].
  exists report'. split; [reflexivity|].
  exact (proj1 (proj2 (proj2 (proj2 (lane_success_invents_nothing ex_waiting "codex" "key-1" 2000
                                       report' Hp))))).
Defined.
