(* ===== verification/Reconciler.v ===== *)
(** * Reconciler: durable review and landing work of a pull request

    Models [crates/workflow/src/reconciler.rs].  The store is the pair of
    tables the code creates: [pr_work], one row per key whose columns
    [repository], [pr] and [head] are those of the key, and [pr_work_ids], the
    identifiers a key has used.  A transaction that returns an error is rolled
    back, so an operation is a function from a store to a store or an error.
    Rows are kept decoded: the JSON text of a row is written and read by the
    same derived codec.  Failures of the database itself are outside.

    [run] is every interleaving of successful operations of any number of
    writers; the immediate transactions serialise them. *)

From stdpp Require Import base option list strings gmap sets countable.
From S2P Require Import Prelude.

Local Open Scope string_scope.
Local Open Scope list_scope.
Local Open Scope Z_scope.
Local Open Scope rust_scope.

(** ** Data *)

Record Key := mkKey {
  repository : string;
  pr : Z;
  head : string;
  policy_digest : string;
  lens : string;
  base_digest : string;
}.
#[export] Instance Key_eq_dec : EqDecision Key.
Proof. solve_decision. Defined.
#[export] Program Instance Key_countable : Countable Key :=
  inj_countable'
    (λ k, (repository k, pr k, head k, policy_digest k, lens k, base_digest k))
    (λ '(a, b, c, d, e, f), mkKey a b c d e f) _.
Next Obligation. by intros []. Qed.

Inductive State :=
| NeedsReview | Reviewing | Verdict | AwaitingChecks | Landable | Landing | Landed | Failed.
#[export] Instance State_eq_dec : EqDecision State.
Proof. solve_decision. Defined.

Inductive Effect := EffectVerdict | EffectMerge.
#[export] Instance Effect_eq_dec : EqDecision Effect.
Proof. solve_decision. Defined.

Record Intent := mkIntent {
  id : string;
  effect : Effect;
  receipt : option string;
  retryable : bool;
  generation : Z;
}.
#[export] Instance Intent_eq_dec : EqDecision Intent.
Proof. solve_decision. Defined.

Record Attempt := mkAttempt {
  attempt_id : string;
  lease_owner : string;
  lease_until : Z;
}.

Record History := mkHistory {
  h_state : State;
  h_attempt : option Attempt;
  h_verdict : option string;
  h_intents : list Intent;
}.

(** [Record] of the source. *)
Record WorkRecord := mkRecord {
  schema_version : Z;
  key : Key;
  state : State;
  cancelled : bool;
  attempt : option Attempt;
  verdict : option string;
  intents : list Intent;
  history : list History;
}.

Inductive Error := Version | Missing | Invalid | Lease | Uncertain.
#[export] Instance Error_eq_dec : EqDecision Error.
Proof. solve_decision. Defined.

Inductive Observation := Unknown | Absent | Found (receipt : string).
#[export] Instance Observation_eq_dec : EqDecision Observation.
Proof. solve_decision. Defined.

(** The two tables. *)
Record Store := mkStore {
  pr_work : gmap Key WorkRecord;
  pr_work_ids : gset (Key * string * string);
}.

Definition set_state (s : State) (r : WorkRecord) : WorkRecord :=
  mkRecord (schema_version r) (key r) s (cancelled r) (attempt r) (verdict r) (intents r) (history r).
Definition set_cancelled (c : bool) (r : WorkRecord) : WorkRecord :=
  mkRecord (schema_version r) (key r) (state r) c (attempt r) (verdict r) (intents r) (history r).
Definition set_attempt (a : option Attempt) (r : WorkRecord) : WorkRecord :=
  mkRecord (schema_version r) (key r) (state r) (cancelled r) a (verdict r) (intents r) (history r).
Definition set_verdict (v : option string) (r : WorkRecord) : WorkRecord :=
  mkRecord (schema_version r) (key r) (state r) (cancelled r) (attempt r) v (intents r) (history r).
Definition set_intents (l : list Intent) (r : WorkRecord) : WorkRecord :=
  mkRecord (schema_version r) (key r) (state r) (cancelled r) (attempt r) (verdict r) l (history r).
Definition set_history (hs : list History) (r : WorkRecord) : WorkRecord :=
  mkRecord (schema_version r) (key r) (state r) (cancelled r) (attempt r) (verdict r) (intents r) hs.

(** ** Rows *)

Definition open : Store := mkStore ∅ ∅.

(** The decoded body of a row, after its version check. *)
Definition body (r : WorkRecord) : result Error WorkRecord :=
  if schema_version r != 1 then Err Version else Ok r.

Definition get_from (db : Store) (k : Key) : result Error WorkRecord :=
  r ← ok_or (pr_work db !! k) Missing;
  body r.

(** [UPDATE pr_work SET body WHERE key]: nothing without such a row. *)
Definition save (db : Store) (r : WorkRecord) : Store :=
  mkStore (alter (λ _, r) (key r) (pr_work db)) (pr_work_ids db).

(** The rows of a pull request. *)
Definition select_pr (db : Store) (repo : string) (n : Z) : list WorkRecord :=
  snd <$> List.filter (λ row, (repository row.1 == repo) && (pr row.1 == n))
            (map_to_list (pr_work db)).

(** The rows of a pull request under another head. *)
Definition select_other_heads (db : Store) (k : Key) : list WorkRecord :=
  snd <$> List.filter (λ row, (repository row.1 == repository k) && (pr row.1 == pr k)
                              && (head row.1 != head k))
            (map_to_list (pr_work db)).

Fixpoint bodies (rows : list WorkRecord) : result Error (list WorkRecord) :=
  match rows with
  | [] => Ok []
  | r :: rows' => r' ← body r; rs ← bodies rows'; Ok (r' :: rs)
  end.

Definition for_pull_request (db : Store) (repo : string) (n : Z) : result Error (list WorkRecord) :=
  bodies (select_pr db repo n).

(** The identifiers of one archived attempt. *)
Definition history_ids (k : Key) (h : History) : list (Key * string * string) :=
  match h_attempt h with Some a => [(k, "attempt", attempt_id a)] | None => [] end
  ++ ((λ i, (k, "intent", id i)) <$> h_intents h).

Definition remember_ids (db : Store) (r : WorkRecord) : Store :=
  mkStore (pr_work db)
    (pr_work_ids db ∪ list_to_set (flat_map (history_ids (key r)) (history r))).

Definition used_id (db : Store) (k : Key) (kind i : string) : bool :=
  bool_decide ((k, kind, i) ∈ pr_work_ids db).

(** ** Observing the current head *)

Fixpoint cancel_all (db : Store) (rows : list WorkRecord) : result Error Store :=
  match rows with
  | [] => Ok db
  | r :: rows' =>
      old ← body r;
      cancel_all (if cancelled old then db else save db (set_cancelled true old)) rows'
  end.

Definition fresh_record (k : Key) : WorkRecord :=
  mkRecord 1 k NeedsReview false None None [] [].

(** [INSERT OR IGNORE]. *)
Definition insert_or_ignore (db : Store) (k : Key) (r : WorkRecord) : Store :=
  match pr_work db !! k with
  | Some _ => db
  | None => mkStore (<[k := r]> (pr_work db)) (pr_work_ids db)
  end.

Definition archive (r : WorkRecord) : WorkRecord :=
  mkRecord (schema_version r) (key r) (state r) (cancelled r) None None []
    (history r ++ [mkHistory (state r) (attempt r) (verdict r) (intents r)]).

(** An archived attempt is kept while one of its effects has no receipt. *)
Definition unreceipted (h : History) : bool :=
  existsb (λ i, negb (is_some (receipt i))) (h_intents h).

Definition reopened (r : WorkRecord) : WorkRecord :=
  set_cancelled false (set_state NeedsReview
    (set_history (List.filter unreceipted (history r)) r)).

Definition observe_head (db : Store) (k : Key) : result Error (Store * WorkRecord) :=
  db ← cancel_all db (select_other_heads db k);
  let db := insert_or_ignore db k (fresh_record k) in
  r ← get_from db k;
  if cancelled r then
    let r := archive r in
    let db := remember_ids db r in
    let r := reopened r in
    Ok (save db r, r)
  else Ok (db, r).

(** ** Updates of one record *)

Definition update (db : Store) (k : Key) (f : WorkRecord → result Error WorkRecord) :
    result Error Store :=
  r ← get_from db k;
  r' ← f r;
  Ok (save db r').

(** [intents.iter().chain(history.iter().flat_map(intents))]. *)
Definition all_intents (r : WorkRecord) : list Intent :=
  intents r ++ flat_map h_intents (history r).

Definition unsettled (i : Intent) : bool := negb (is_some (receipt i)) && negb (retryable i).

Fixpoint check_settled (rows : list WorkRecord) : result Error unit :=
  match rows with
  | [] => Ok tt
  | r :: rows' =>
      old ← body r;
      if existsb unsettled (all_intents old) then Err Uncertain else check_settled rows'
  end.

Definition start (db : Store) (k : Key) (a : Attempt) (now : Z) : result Error Store :=
  _ ← check_settled (select_pr db (repository k) (pr k));
  r ← get_from db k;
  if used_id db k "attempt" (attempt_id a) then Err Invalid
  else if cancelled r || (state r != NeedsReview) || is_some (attempt r)
       || existsb (λ h, is_some_and (h_attempt h) (λ b, attempt_id b == attempt_id a)) (history r)
  then Err Invalid
  else if (lease_until a <=? now) || str_is_empty (attempt_id a) || str_is_empty (lease_owner a)
  then Err Lease
  else Ok (save db (set_state Reviewing (set_attempt (Some a) r))).

Definition renew_record (aid owner : string) (now until : Z) (r : WorkRecord) :
    result Error WorkRecord :=
  if cancelled r then Err Invalid
  else
    a ← ok_or (attempt r) Missing;
    if (attempt_id a != aid) || str_is_empty owner || (until <=? now)
       || ((now <? lease_until a) && (lease_owner a != owner))
    then Err Lease
    else Ok (set_attempt (Some (mkAttempt (attempt_id a) owner until)) r).
Definition renew (db : Store) (k : Key) (aid owner : string) (now until : Z) :
    result Error Store :=
  update db k (renew_record aid owner now until).

Definition leased (r : WorkRecord) (aid owner : string) (now : Z) : result Error unit :=
  if cancelled r then Err Invalid
  else match attempt r with
       | Some a => if (attempt_id a == aid) && (lease_owner a == owner) && (now <? lease_until a)
                   then Ok tt else Err Lease
       | None => Err Lease
       end.

Definition verdict_record (aid owner : string) (now : Z) (v : string) (r : WorkRecord) :
    result Error WorkRecord :=
  _ ← leased r aid owner now;
  if (state r != Reviewing) || is_some (verdict r) || str_is_empty v then Err Invalid
  else Ok (set_state Verdict (set_verdict (Some v) r)).
Definition record_verdict (db : Store) (k : Key) (aid owner : string) (now : Z) (v : string) :
    result Error Store :=
  update db k (verdict_record aid owner now v).

Definition allowed_transition (s next : State) : bool :=
  match s, next with
  | Verdict, AwaitingChecks => true
  | AwaitingChecks, Landable => true
  | (Reviewing | Verdict | AwaitingChecks | Landable), Failed => true
  | _, _ => false
  end.

Definition transition_record (aid owner : string) (now : Z) (next : State) (r : WorkRecord) :
    result Error WorkRecord :=
  _ ← leased r aid owner now;
  if negb (allowed_transition (state r) next) then Err Invalid
  else if (next == AwaitingChecks)
          && negb (existsb (λ i, (effect i == EffectVerdict) && is_some (receipt i)) (intents r))
  then Err Uncertain
  else Ok (set_state next r).
Definition transition (db : Store) (k : Key) (aid owner : string) (now : Z) (next : State) :
    result Error Store :=
  update db k (transition_record aid owner now next).

Definition intent_allowed (e : Effect) (s : State) : bool :=
  match e with
  | EffectVerdict => s == Verdict
  | EffectMerge => s == Landable
  end.

Definition intent (db : Store) (k : Key) (aid owner : string) (now : Z) (i : string) (e : Effect) :
    result Error Store :=
  if used_id db k "intent" i then Err Invalid
  else
    r ← get_from db k;
    _ ← leased r aid owner now;
    if negb (intent_allowed e (state r)) || str_is_empty i
       || existsb (λ j, (effect j == e) || (id j == i)) (intents r)
       || existsb (λ j, id j == i) (flat_map h_intents (history r))
    then Err Invalid
    else
      let r := set_intents (intents r ++ [mkIntent i e None false 0]) r in
      Ok (save db (if e == EffectMerge then set_state Landing r else r)).

(** [iter_mut().chain(...).find(id)] followed by an assignment: the first
    intent with the identifier, the current ones before the archived. *)
Definition replace_intent (i : string) (f : Intent → Intent) (r : WorkRecord) : WorkRecord :=
  match update_first (λ j, id j == i) f (intents r) with
  | Some l => set_intents l r
  | None =>
      match update_first (λ h, existsb (λ j, id j == i) (h_intents h))
              (λ h, mkHistory (h_state h) (h_attempt h) (h_verdict h)
                      (unwrap_or (update_first (λ j, id j == i) f (h_intents h)) (h_intents h)))
              (history r) with
      | Some hs => set_history hs r
      | None => r
      end
  end.

Definition with_retryable (b : bool) (i : Intent) : Intent :=
  mkIntent (id i) (effect i) (receipt i) b (generation i).
Definition with_receipt (rc : string) (i : Intent) : Intent :=
  mkIntent (id i) (effect i) (Some rc) false (generation i).

Definition reconcile_record (i : string) (g : Z) (o : Observation) (r : WorkRecord) :
    result Error WorkRecord :=
  let current := existsb (λ j, id j == i) (intents r) in
  j ← ok_or (List.find (λ j, id j == i) (all_intents r)) Missing;
  if generation j != g then Err Uncertain
  else if is_some (receipt j) then Ok r
  else match o with
       | Unknown => Ok (replace_intent i (with_retryable false) r)
       | Absent => Ok (replace_intent i (with_retryable true) r)
       | Found rc =>
           if str_is_empty rc then Err Invalid
           else
             let r' := replace_intent i (with_receipt rc) r in
             Ok (if current && (effect j == EffectMerge) then set_state Landed r' else r')
       end.
Definition reconcile (db : Store) (k : Key) (i : string) (g : Z) (o : Observation) :
    result Error Store :=
  update db k (reconcile_record i g o).

(** [Remote::observe] is an argument, as is what other writers do to the store
    while the remote is queried: the read and the update are two
    transactions. *)
Definition reconcile_remote (db : Store) (k : Key) (i : string)
    (observe : Key → Intent → Observation) (meanwhile : Store → Store) : result Error Store :=
  r ← get_from db k;
  pending ← ok_or (List.find (λ j, id j == i) (all_intents r)) Missing;
  if is_some (receipt pending) then Ok (meanwhile db)
  else reconcile (meanwhile db) k i (generation pending) (observe k pending).

Definition retry_record (aid owner : string) (now : Z) (i : string) (r : WorkRecord) :
    result Error WorkRecord :=
  _ ← leased r aid owner now;
  if (state r == Failed) || (state r == Landed) then Err Invalid
  else
    j ← ok_or (List.find (λ j, id j == i) (intents r)) Missing;
    if negb (retryable j) || is_some (receipt j) then Err Uncertain
    else
      g ← ok_or (checked_add_u64 (generation j) 1) Invalid;
      Ok (set_intents
            (unwrap_or (update_first (λ j, id j == i)
                          (λ j, mkIntent (id j) (effect j) (receipt j) false g) (intents r))
               (intents r)) r).
Definition retry (db : Store) (k : Key) (aid owner : string) (now : Z) (i : string) :
    result Error Store :=
  update db k (retry_record aid owner now i).

(** ** Runs *)

Inductive op :=
| OpObserve (k : Key)
| OpStart (k : Key) (a : Attempt) (now : Z)
| OpRenew (k : Key) (aid owner : string) (now until : Z)
| OpVerdict (k : Key) (aid owner : string) (now : Z) (v : string)
| OpTransition (k : Key) (aid owner : string) (now : Z) (next : State)
| OpIntent (k : Key) (aid owner : string) (now : Z) (i : string) (e : Effect)
| OpReconcile (k : Key) (i : string) (g : Z) (o : Observation)
| OpRetry (k : Key) (aid owner : string) (now : Z) (i : string).

Definition apply (db : Store) (o : op) : result Error Store :=
  match o with
  | OpObserve k => p ← observe_head db k; Ok p.1
  | OpStart k a now => start db k a now
  | OpRenew k aid owner now until => renew db k aid owner now until
  | OpVerdict k aid owner now v => record_verdict db k aid owner now v
  | OpTransition k aid owner now next => transition db k aid owner now next
  | OpIntent k aid owner now i e => intent db k aid owner now i e
  | OpReconcile k i g o => reconcile db k i g o
  | OpRetry k aid owner now i => retry db k aid owner now i
  end.

(** Every sequence of successful operations, newest first. *)
Inductive run : list op → Store → Prop :=
| run_open : run [] open
| run_step os db o db' : run os db → apply db o = Ok db' → run (o :: os) db'.

(** ** One row through one operation *)

Definition superseded_by (k k' : Key) : Prop :=
  repository k = repository k' ∧ pr k = pr k' ∧ head k ≠ head k'.
#[export] Instance superseded_by_dec k k' : Decision (superseded_by k k').
Proof. unfold superseded_by. apply _. Defined.

Definition op_key (o : op) : Key :=
  match o with
  | OpObserve k | OpStart k _ _ | OpRenew k _ _ _ _ | OpVerdict k _ _ _ _
  | OpTransition k _ _ _ _ | OpIntent k _ _ _ _ _ | OpReconcile k _ _ _ | OpRetry k _ _ _ _ => k
  end.

(** What an operation other than [observe_head] does to the record it names. *)
Definition record_step (used : gset (Key * string * string)) (o : op) (r : WorkRecord) :
    result Error WorkRecord :=
  match o with
  | OpObserve _ => Err Invalid
  | OpStart k a now =>
      if bool_decide ((k, "attempt", attempt_id a) ∈ used) then Err Invalid
      else if cancelled r || (state r != NeedsReview) || is_some (attempt r)
           || existsb (λ h, is_some_and (h_attempt h) (λ b, attempt_id b == attempt_id a)) (history r)
      then Err Invalid
      else if (lease_until a <=? now) || str_is_empty (attempt_id a) || str_is_empty (lease_owner a)
      then Err Lease
      else Ok (set_state Reviewing (set_attempt (Some a) r))
  | OpRenew k aid owner now until => renew_record aid owner now until r
  | OpVerdict k aid owner now v => verdict_record aid owner now v r
  | OpTransition k aid owner now next => transition_record aid owner now next r
  | OpIntent k aid owner now i e =>
      if bool_decide ((k, "intent", i) ∈ used) then Err Invalid
      else
        _ ← leased r aid owner now;
        if negb (intent_allowed e (state r)) || str_is_empty i
           || existsb (λ j, (effect j == e) || (id j == i)) (intents r)
           || existsb (λ j, id j == i) (flat_map h_intents (history r))
        then Err Invalid
        else
          let r := set_intents (intents r ++ [mkIntent i e None false 0]) r in
          Ok (if e == EffectMerge then set_state Landing r else r)
  | OpReconcile k i g o => reconcile_record i g o r
  | OpRetry k aid owner now i => retry_record aid owner now i r
  end.

Inductive row_step (db : Store) (o : op) (k : Key) : WorkRecord → Prop :=
| row_kept r : op_key o ≠ k → (∀ k', o = OpObserve k' → ¬ superseded_by k k') →
    pr_work db !! k = Some r → row_step db o k r
| row_observed r : o = OpObserve k → pr_work db !! k = Some r → cancelled r = false →
    row_step db o k r
| row_cancelled k' r : o = OpObserve k' → superseded_by k k' → pr_work db !! k = Some r →
    row_step db o k (set_cancelled true r)
| row_created : o = OpObserve k → pr_work db !! k = None → row_step db o k (fresh_record k)
| row_reopened r : o = OpObserve k → pr_work db !! k = Some r → cancelled r = true →
    row_step db o k (reopened (archive r))
| row_changed r r' : op_key o = k → pr_work db !! k = Some r →
    record_step (pr_work_ids db) o r = Ok r' → row_step db o k r'.

(** Rows carry their own key and the one version there is. *)
Definition rows_ok (db : Store) : Prop :=
  ∀ k r, pr_work db !! k = Some r → key r = k ∧ schema_version r = 1.

Lemma body_ok db k r : rows_ok db → pr_work db !! k = Some r → body r = Ok r.
Proof. intros Hok [_ Hv]%Hok. unfold body. by rewrite Hv. Qed.

Lemma get_from_Ok db k r : rows_ok db → get_from db k = Ok r ↔ pr_work db !! k = Some r.
Proof.
  intros Hok. unfold get_from. rewrite result_bind_Ok. setoid_rewrite ok_or_Ok. split.
  - intros (r' & Hr & Hb). by rewrite (body_ok db k r') in Hb; [simplify_eq|..].
  - intros Hr. exists r. by rewrite (body_ok db k r).
Qed.

Lemma select_pr_elem db repo n r :
  r ∈ select_pr db repo n ↔
  ∃ k, pr_work db !! k = Some r ∧ repository k = repo ∧ pr k = n.
Proof.
  unfold select_pr. rewrite list_elem_of_fmap. split.
  - intros ([k r'] & -> & Hin). rewrite bfilter_elem, elem_of_map_to_list in Hin.
    bool_prop. naive_solver.
  - intros (k & Hk & Hr & Hn). exists (k, r). rewrite bfilter_elem, elem_of_map_to_list.
    bool_prop. naive_solver.
Qed.

Lemma select_other_heads_elem db k r :
  r ∈ select_other_heads db k ↔ ∃ k', pr_work db !! k' = Some r ∧ superseded_by k' k.
Proof.
  unfold select_other_heads, superseded_by. rewrite list_elem_of_fmap. split.
  - intros ([k' r'] & -> & Hin). rewrite bfilter_elem, elem_of_map_to_list in Hin.
    bool_prop. exists k'. naive_solver.
  - intros (k' & Hk & Hr & Hn & Hh). exists (k', r). rewrite bfilter_elem, elem_of_map_to_list.
    bool_prop. naive_solver.
Qed.

Lemma select_other_heads_keys db k : rows_ok db → NoDup (key <$> select_other_heads db k).
Proof.
  intros Hok. unfold select_other_heads. rewrite <-list_fmap_compose.
  assert (∀ p (l : list (Key * WorkRecord)), (∀ x, x ∈ l → key x.2 = x.1) → NoDup l.*1 →
            NoDup ((key ∘ snd) <$> List.filter p l)) as Hgen.
  { intros p l. induction l as [|x l IH]; intros Hx Hnd; simpl; [constructor|].
    rewrite fmap_cons, list.NoDup_cons in Hnd. destruct Hnd as [Hni Hnd].
    assert (NoDup ((key ∘ snd) <$> List.filter p l)) as Hl by (apply IH; set_solver).
    destruct (p x); [|done]. rewrite fmap_cons, list.NoDup_cons. split; [|done].
    rewrite list_elem_of_fmap. intros (y & Hxy & [Hy _]%bfilter_elem). simpl in Hxy.
    rewrite (Hx x), (Hx y) in Hxy by set_solver. apply Hni, list_elem_of_fmap. by exists y. }
  apply Hgen; [|apply NoDup_fst_map_to_list].
  intros [k' r] Hin%elem_of_map_to_list. by apply Hok.
Qed.

Lemma set_cancelled_same r : cancelled r = true → set_cancelled true r = r.
Proof. destruct r; simpl. by intros ->. Qed.

Lemma save_present db r r0 : pr_work db !! key r = Some r0 →
  pr_work (save db r) = <[key r := r]> (pr_work db).
Proof.
  intros H. apply map_eq. intros k. unfold save; simpl. destruct (decide (k = key r)) as [->|Hne].
  - by rewrite lookup_alter_eq, H, lookup_insert_eq.
  - by rewrite lookup_alter_ne, lookup_insert_ne.
Qed.

Lemma cancel_all_lookup db rows db' :
  NoDup (key <$> rows) → (∀ r, r ∈ rows → pr_work db !! key r = Some r) →
  cancel_all db rows = Ok db' →
  pr_work_ids db' = pr_work_ids db ∧
  ∀ k, pr_work db' !! k =
       if bool_decide (k ∈ key <$> rows) then set_cancelled true <$> pr_work db !! k
       else pr_work db !! k.
Proof.
  revert db; induction rows as [|r rows IH]; intros db Hnd Hrows H; simpl in H.
  { injection H as ->. split; [done|]. intros k. by rewrite bool_decide_eq_false_2 by set_solver. }
  rewrite fmap_cons, list.NoDup_cons in Hnd. destruct Hnd as [Hni Hnd].
  apply result_bind_Ok in H as (old & Hb & H). 
  apply result_guard_Ok in Hb as [_ [= <-]]. assert (pr_work db !! key r = Some r) as Hr by set_solver.
  set (db1 := if cancelled r then db else _) in H.
  assert (pr_work db1 = <[key r := set_cancelled true r]> (pr_work db)) as Hdb1.
  { unfold db1. destruct (cancelled r) eqn:Hc.
    - by rewrite set_cancelled_same, insert_id.
    - by erewrite save_present by exact Hr. }
  assert (pr_work_ids db1 = pr_work_ids db) as Hids by (by unfold db1; destruct (cancelled r)).
  apply IH in H as [-> Hk]; [|done|].
  - split; [done|]. intros k. rewrite Hk, Hdb1, fmap_cons.
    destruct (decide (k = key r)) as [->|Hne].
    + rewrite lookup_insert_eq, Hr. rewrite (bool_decide_eq_true_2 (key r ∈ _ :: _)) by set_solver.
      by rewrite bool_decide_eq_false_2.
    + rewrite lookup_insert_ne by done. destruct (decide (k ∈ key <$> rows)).
      * by rewrite !bool_decide_eq_true_2 by set_solver.
      * by rewrite !bool_decide_eq_false_2 by set_solver.
  - intros x Hx. rewrite Hdb1, lookup_insert_ne; [set_solver|]. intros Heq. apply Hni. rewrite Heq.
    apply list_elem_of_fmap. by exists x.
Qed.

(** What [observe_head] does to every row. *)
Lemma observe_head_lookup db k db' r0 :
  rows_ok db → observe_head db k = Ok (db', r0) →
  pr_work db' !! k = Some r0 ∧
  r0 = match pr_work db !! k with
       | None => fresh_record k
       | Some r => if cancelled r then reopened (archive r) else r
       end ∧
  (∀ k', k' ≠ k → pr_work db' !! k' =
     if decide (superseded_by k' k) then set_cancelled true <$> pr_work db !! k'
     else pr_work db !! k') ∧
  pr_work_ids db' =
    match pr_work db !! k with
    | Some r => if cancelled r
                then pr_work_ids db ∪ list_to_set (flat_map (history_ids k) (history (archive r)))
                else pr_work_ids db
    | None => pr_work_ids db
    end.
Proof.
  intros Hok H. unfold observe_head in H. apply result_bind_Ok in H as (db1 & Hc & H).
  apply cancel_all_lookup in Hc as [Hids Hlk]; [|by apply select_other_heads_keys|].
  2: { intros r (k' & Hr & _)%select_other_heads_elem. by destruct (Hok _ _ Hr) as [-> _]. }
  assert (∀ k', pr_work db1 !! k' = if decide (superseded_by k' k)
             then set_cancelled true <$> pr_work db !! k' else pr_work db !! k') as Hdb1.
  { intros k'. rewrite Hlk. destruct (decide (superseded_by k' k)) as [Hs|Hs].
    - destruct (pr_work db !! k') as [r|] eqn:Hr; [|by case_bool_decide].
      rewrite bool_decide_eq_true_2; [done|]. apply list_elem_of_fmap. exists r.
      rewrite select_other_heads_elem. destruct (Hok _ _ Hr). eauto.
    - rewrite bool_decide_eq_false_2; [done|]. rewrite list_elem_of_fmap.
      intros (r & -> & (k'' & Hr & Hs')%select_other_heads_elem).
      destruct (Hok _ _ Hr) as [Heq _]. congruence. }
  assert (¬ superseded_by k k) as Hself by (unfold superseded_by; tauto).
  assert (pr_work db1 !! k = pr_work db !! k) as Hk by (rewrite Hdb1; by case_decide).
  set (db2 := insert_or_ignore _ _ _) in H.
  assert (pr_work db2 = <[k := default (fresh_record k) (pr_work db !! k)]> (pr_work db1)
          ∧ pr_work_ids db2 = pr_work_ids db) as [Hdb2 Hids2].
  { unfold db2, insert_or_ignore. rewrite Hk. destruct (pr_work db !! k) as [r|] eqn:Hr; simpl.
    - rewrite insert_id; [done|]. by rewrite Hk.
    - done. }
  apply result_bind_Ok in H as (r & Hg & H). unfold get_from in Hg.
  rewrite Hdb2, lookup_insert_eq in Hg. simpl in Hg. 
  apply result_guard_Ok in Hg as [_ [= <-]].
  assert (∀ r, default (fresh_record k) (pr_work db !! k) = r → key r = k) as Hkey.
  { intros r <-. destruct (pr_work db !! k) as [r|] eqn:Hr; [|done]. by destruct (Hok _ _ Hr). }
  destruct (cancelled _) eqn:Hcan in H; injection H as <- <-.
  - assert (∃ r, pr_work db !! k = Some r ∧ cancelled r = true ∧ key r = k) as (r & Hr & Hcr & Hkr).
    { destruct (pr_work db !! k) as [r|] eqn:Hr; [|done]. exists r. by destruct (Hok _ _ Hr). }
    rewrite Hr in *. simpl in *. rewrite Hcr. rewrite Hkr, lookup_alter_eq, Hdb2, lookup_insert_eq.
    split_and!; try done.
    + intros k' Hne. by rewrite lookup_alter_ne, lookup_insert_ne, Hdb1.
    + by rewrite Hids2.
  - assert (default (fresh_record k) (pr_work db !! k) =
            match pr_work db !! k with Some r => if cancelled r then reopened (archive r) else r
                                     | None => fresh_record k end) as Heq.
    { destruct (pr_work db !! k); simpl in *; [by rewrite Hcan|done]. }
    rewrite Hdb2, lookup_insert_eq. split_and!; [done|done| |].
    + intros k' Hne. by rewrite lookup_insert_ne, Hdb1.
    + rewrite Hids2. destruct (pr_work db !! k); simpl in *; [by rewrite Hcan|done].
Qed.

Lemma observe_row db k db' r0 k' r' :
  rows_ok db → observe_head db k = Ok (db', r0) → pr_work db' !! k' = Some r' →
  row_step db (OpObserve k) k' r'.
Proof.
  intros Hok (Hk & -> & Hne & _)%observe_head_lookup Hr'; [|done].
  destruct (decide (k' = k)) as [->|Hk'].
  - rewrite Hk in Hr'. injection Hr' as <-. destruct (pr_work db !! k) as [r|] eqn:Hr.
    + destruct (cancelled r) eqn:Hc; [by eapply row_reopened|by eapply row_observed].
    + by apply row_created.
  - rewrite Hne in Hr' by done. case_decide.
    + apply fmap_Some in Hr' as (r & Hr & ->). by eapply row_cancelled.
    + apply row_kept; [done| |done]. by intros k1 [= <-].
Qed.

Lemma replace_intent_frame i f r :
  key (replace_intent i f r) = key r ∧ schema_version (replace_intent i f r) = schema_version r ∧
  state (replace_intent i f r) = state r ∧ cancelled (replace_intent i f r) = cancelled r ∧
  attempt (replace_intent i f r) = attempt r ∧ verdict (replace_intent i f r) = verdict r.
Proof. unfold replace_intent. repeat case_match; done. Qed.

Lemma record_step_frame used o r r' :
  record_step used o r = Ok r' →
  key r' = key r ∧ schema_version r' = schema_version r ∧ cancelled r' = cancelled r.
Proof.
  pose proof (λ i f, replace_intent_frame i f r) as Hf.
  intros H. destruct o; simpl in H; unfold renew_record, verdict_record, transition_record,
    reconcile_record, retry_record in H; ok_inv; try done.
  - by case_match.
  - destruct (is_some (receipt x)); [ok_inv; done|].
    destruct o; ok_inv; try (split_and!; apply Hf).
    destruct (_ && _); simpl; split_and!; apply Hf.
Qed.

(** Every other operation rewrites the one row it names. *)
Lemma apply_changed db o db' :
  rows_ok db → (∀ k, o ≠ OpObserve k) → apply db o = Ok db' →
  ∃ r r', pr_work db !! op_key o = Some r ∧ record_step (pr_work_ids db) o r = Ok r' ∧
          pr_work db' = <[op_key o := r']> (pr_work db) ∧ pr_work_ids db' = pr_work_ids db.
Proof.
  intros Hok Hno H.
  assert (∃ r r', pr_work db !! op_key o = Some r ∧ record_step (pr_work_ids db) o r = Ok r' ∧
                  db' = save db r') as (r & r' & Hr & Hs & ->).
  { destruct o as [k| | | | | | |]; simpl in *; [by destruct (Hno k)|..];
      unfold renew, record_verdict, transition, reconcile, retry, update in H.
    - unfold start in H. ok_inv. apply get_from_Ok in H1; [|done].
      eexists _, _. split; [done|]. fold (used_id db k "attempt" (attempt_id a)).
      by rewrite Hguard, Hguard0, ?Hguard1.
    - ok_inv. apply get_from_Ok in H0; eauto.
    - ok_inv. apply get_from_Ok in H0; eauto.
    - ok_inv. apply get_from_Ok in H0; eauto.
    - unfold intent in H. ok_inv. apply get_from_Ok in H0; [|done].
      eexists _, _. split; [done|]. fold (used_id db k "intent" i).
      rewrite Hguard, H1. simpl. by rewrite Hguard0.
    - ok_inv. apply get_from_Ok in H0; eauto.
    - ok_inv. apply get_from_Ok in H0; eauto. }
  exists r, r'. split_and!; try done.
  destruct (record_step_frame _ _ _ _ Hs) as (Hk & _). destruct (Hok _ _ Hr) as [Hkr _].
  rewrite Hkr in Hk. rewrite <-Hk in *. by eapply save_present.
Qed.

Lemma apply_row db o db' k r' :
  rows_ok db → apply db o = Ok db' → pr_work db' !! k = Some r' → row_step db o k r'.
Proof.
  intros Hok H Hr'.
  assert ((∃ k, o = OpObserve k) ∨ ∀ k, o ≠ OpObserve k) as [[k0 ->]|Hno]
    by (destruct o; naive_solver).
  - simpl in H. apply result_bind_Ok in H as ([db1 r0] & Ho & [= <-]). by eapply observe_row.
  - apply apply_changed in H as (r & r1 & Hr & Hs & Hdb & _); [|done..]. rewrite Hdb in Hr'.
    destruct (decide (op_key o = k)) as [<-|Hne].
    + rewrite lookup_insert_eq in Hr'. injection Hr' as <-. by eapply row_changed.
    + rewrite lookup_insert_ne in Hr' by done. apply row_kept; [done| |done].
      intros k' ->. by destruct (Hno k').
Qed.

Lemma apply_ids db o db' x :
  rows_ok db → apply db o = Ok db' →
  x ∈ pr_work_ids db' ↔
  x ∈ pr_work_ids db ∨
  ∃ r, o = OpObserve (x.1.1) ∧ pr_work db !! x.1.1 = Some r ∧ cancelled r = true ∧
       ∃ h, h ∈ history (archive r) ∧ x ∈ history_ids x.1.1 h.
Proof.
  intros Hok H.
  assert ((∃ k, o = OpObserve k) ∨ ∀ k, o ≠ OpObserve k) as [[k0 ->]|Hno]
    by (destruct o; naive_solver).
  - simpl in H. apply result_bind_Ok in H as ([db1 r0] & Ho & [= <-]).
    apply observe_head_lookup in Ho as (_ & _ & _ & ->); [|done].
    assert (∀ k h, x ∈ history_ids k h → x.1.1 = k) as Hx.
    { intros k h. unfold history_ids. rewrite elem_of_app, list_elem_of_fmap. case_match; set_solver. }
    destruct (pr_work db !! k0) as [r|] eqn:Hr.
    2: { split; [by left|]. intros [?|(r & [= ->] & Hr' & _)]; congruence. }
    destruct (cancelled r) eqn:Hc.
    2: { split; [by left|]. intros [?|(r' & [= ->] & Hr' & Hc' & _)]; congruence. }
    rewrite elem_of_union, elem_of_list_to_set, list_elem_of_In, in_flat_map.
    setoid_rewrite <-list_elem_of_In. split.
    + intros [|(h & Hh & Hxh)]; [by left|right]. pose proof (Hx _ _ Hxh) as <-. eauto 10.
    + intros [|(r' & [= ->] & Hr' & _ & h & Hh & Hxh)]; [by left|right].
      rewrite Hr in Hr'. injection Hr' as <-. eauto.
  - apply apply_changed in H as (r & r1 & Hr & Hs & Hdb & ->); [|done..].
    split; [by left|]. intros [?|(r' & Ho & _)]; [done|]. by destruct (Hno _ Ho).
Qed.

Lemma rows_ok_step db o db' : rows_ok db → apply db o = Ok db' → rows_ok db'.
Proof.
  intros Hok H k r' Hr'. apply (apply_row db o db' k r') in Hr'; [|done..].
  destruct Hr' as [r' _ _ Hr|r' _ Hr _|k' r _ _ Hr| |r _ Hr _|r r' _ Hr Hs];
    try (by apply Hok in Hr as [??]); [done|].
  apply record_step_frame in Hs as (-> & -> & _). by apply Hok.
Qed.

Lemma run_rows_ok os db : run os db → rows_ok db.
Proof.
  induction 1 as [|os db o db' _ IH H]; [|by eapply rows_ok_step].
  intros k r. simpl. by rewrite lookup_empty.
Qed.

(** ** Well-formed records *)

Definition reviewed (s : State) : bool :=
  match s with Verdict | AwaitingChecks | Landable | Landing | Landed => true | _ => false end.
Definition checked (s : State) : bool :=
  match s with AwaitingChecks | Landable | Landing | Landed => true | _ => false end.

Record intent_wf (i : Intent) : Prop := {
  iwf_id : id i ≠ EmptyString;
  iwf_receipt : ∀ rc, receipt i = Some rc → rc ≠ EmptyString ∧ retryable i = false;
  iwf_generation : 0 ≤ generation i ≤ u64_max;
}.

Record record_wf (used : gset (Key * string * string)) (k : Key) (r : WorkRecord) : Prop := {
  rwf_attempt : attempt r = None ↔ state r = NeedsReview;
  rwf_lease : ∀ a, attempt r = Some a → attempt_id a ≠ EmptyString ∧ lease_owner a ≠ EmptyString;
  rwf_verdict : ∀ v, verdict r = Some v → v ≠ EmptyString;
  rwf_unreviewed : state r = NeedsReview ∨ state r = Reviewing → verdict r = None ∧ intents r = [];
  rwf_reviewed : reviewed (state r) = true → is_Some (verdict r);
  rwf_effects : NoDup (effect <$> intents r);
  rwf_checked : checked (state r) = true →
    ∃ i, i ∈ intents r ∧ effect i = EffectVerdict ∧ is_Some (receipt i);
  rwf_merge : ∀ i, i ∈ intents r → effect i = EffectMerge →
    (state r = Landing ∧ receipt i = None) ∨ (state r = Landed ∧ is_Some (receipt i));
  rwf_landing : state r = Landing ∨ state r = Landed →
    ∃ i, i ∈ intents r ∧ effect i = EffectMerge;
  rwf_intents : Forall intent_wf (all_intents r);
  rwf_ids : NoDup (id <$> all_intents r);
  rwf_current : ∀ i, i ∈ intents r → (k, "intent", id i) ∉ used;
  rwf_archived : ∀ h i, h ∈ history r → i ∈ h_intents h → (k, "intent", id i) ∈ used;
  rwf_current_attempt : ∀ a, attempt r = Some a → (k, "attempt", attempt_id a) ∉ used;
  rwf_archived_attempt : ∀ h a, h ∈ history r → h_attempt h = Some a →
    (k, "attempt", attempt_id a) ∈ used;
}.

Definition store_wf (db : Store) : Prop :=
  ∀ k r, pr_work db !! k = Some r → record_wf (pr_work_ids db) k r.

(** Only the identifiers of the key itself matter. *)
Lemma record_wf_ids used used' k r :
  (∀ kind i, (k, kind, i) ∈ used ↔ (k, kind, i) ∈ used') →
  record_wf used k r → record_wf used' k r.
Proof. intros Hu []. constructor; try done; intros; rewrite <-Hu; eauto. Qed.

(** *** Updating one intent

    With distinct identifiers the update of the first match is a map. *)

Definition on_intent (i : string) (f : Intent → Intent) (j : Intent) : Intent :=
  if id j == i then f j else j.
Definition map_intents (g : Intent → Intent) (r : WorkRecord) : WorkRecord :=
  set_history ((λ h, mkHistory (h_state h) (h_attempt h) (h_verdict h) (g <$> h_intents h)) <$> history r)
    (set_intents (g <$> intents r) r).

Lemma on_intent_fresh i f (l : list Intent) : (∀ j, j ∈ l → id j ≠ i) → on_intent i f <$> l = l.
Proof.
  intros H. induction l as [|j l IH]; [done|]. rewrite fmap_cons, IH by set_solver.
  unfold on_intent. rewrite bool_decide_eq_false_2; [done|]. apply H. set_solver.
Qed.

Lemma update_first_on_intent i f (l l' : list Intent) :
  NoDup (id <$> l) → update_first (λ j, id j == i) f l = Some l' →
  l' = on_intent i f <$> l ∧ i ∈ id <$> l.
Proof.
  intros Hnd H. apply update_first_Some in H as (l1 & x & l2 & -> & -> & Hx & Hl1).
  bool_prop. subst i. rewrite fmap_app, fmap_cons in Hnd.
  apply list.NoDup_app in Hnd as (_ & Hd & [Hx2 _]%list.NoDup_cons). split; [|set_solver].
  rewrite fmap_app, fmap_cons. f_equal; [symmetry; apply on_intent_fresh|f_equal].
  - intros j Hj Heq. apply (Hd (id j)); [by apply list_elem_of_fmap; eauto|]. rewrite Heq. set_solver.
  - unfold on_intent. by rewrite bool_decide_eq_true_2.
  - symmetry. apply on_intent_fresh. intros j Hj Heq. apply Hx2. rewrite <-Heq.
    apply list_elem_of_fmap. eauto.
Qed.

Lemma map_history_fresh i f (hs : list History) :
  (∀ h j, h ∈ hs → j ∈ h_intents h → id j ≠ i) →
  (λ h, mkHistory (h_state h) (h_attempt h) (h_verdict h) (on_intent i f <$> h_intents h)) <$> hs = hs.
Proof.
  intros H. induction hs as [|[s a v is'] hs IH]; [done|]. rewrite fmap_cons, IH by set_solver.
  simpl. rewrite on_intent_fresh; [done|]. intros j Hj. by apply (H _ j (list_elem_of_here _ _)).
Qed.

Lemma archived_elem i hs :
  i ∈ flat_map h_intents hs ↔ ∃ h, h ∈ hs ∧ i ∈ h_intents h.
Proof. rewrite list_elem_of_In, in_flat_map. by setoid_rewrite <-list_elem_of_In. Qed.

Lemma archived_fresh hs1 h hs2 :
  NoDup (id <$> flat_map h_intents (hs1 ++ h :: hs2)) →
  NoDup (id <$> h_intents h) ∧
  ∀ h' j j', h' ∈ hs1 ++ hs2 → j ∈ h_intents h → j' ∈ h_intents h' → id j' ≠ id j.
Proof.
  rewrite flat_map_app. simpl. rewrite !fmap_app.
  intros (_ & Hd1 & (Hh & Hd2 & _)%list.NoDup_app)%list.NoDup_app. split; [done|].
  intros h' j j' Hh' Hj Hj' Heq.
  assert (id j ∈ id <$> h_intents h) as Hij by (apply list_elem_of_fmap; eauto).
  assert (∀ hs, h' ∈ hs → id j ∈ id <$> flat_map h_intents hs) as Hm.
  { intros hs Hhs. apply list_elem_of_fmap. exists j'. split; [done|]. apply archived_elem. eauto. }
  apply elem_of_app in Hh' as [H|H]; apply Hm in H; [eapply Hd1|eapply Hd2]; eauto; set_solver.
Qed.

Lemma set_id r : set_history (history r) (set_intents (intents r) r) = r.
Proof. by destruct r. Qed.

Lemma replace_intent_map i f r :
  NoDup (id <$> all_intents r) → replace_intent i f r = map_intents (on_intent i f) r.
Proof.
  unfold all_intents. rewrite fmap_app. intros (Hc & Hd & Ha)%list.NoDup_app.
  unfold replace_intent, map_intents.
  destruct (update_first _ f (intents r)) as [l|] eqn:E.
  - apply update_first_on_intent in E as [-> Hi]; [|done]. rewrite map_history_fresh; [by destruct r|].
    intros h j Hh Hj Heq. apply (Hd i); [done|]. apply list_elem_of_fmap. exists j.
    split; [done|]. apply archived_elem. eauto.
  - rewrite update_first_None, list.Forall_forall in E. rewrite (on_intent_fresh i f (intents r)).
    2: { intros j Hj Heq. specialize (E j Hj). bool_prop. done. }
    destruct (update_first _ _ (history r)) as [hs|] eqn:Eh.
    + apply update_first_Some in Eh as (hs1 & h & hs2 & Hhs & -> & Hx & Hhs1). bool_prop.
      destruct Hx as (j & Hj & Hji). bool_prop. rewrite Hhs in Ha |- *.
      apply archived_fresh in Ha as [Hh Hother]. rewrite fmap_app, fmap_cons.
      rewrite !map_history_fresh.
      2,3: intros h' j' Hh' Hj'; rewrite <-?Hji; apply (Hother h' j j'); set_solver.
      destruct (update_first _ f (h_intents h)) as [l|] eqn:E2.
      * apply update_first_on_intent in E2 as [-> _]; [|done]. simpl. by destruct r.
      * rewrite update_first_None, list.Forall_forall in E2. specialize (E2 j Hj). bool_prop. done.
    + rewrite update_first_None, list.Forall_forall in Eh. rewrite map_history_fresh; [by destruct r|].
      intros h j Hh Hj Heq. specialize (Eh h Hh). bool_prop. specialize (Eh j Hj). bool_prop. done.
Qed.

Lemma map_intents_all g r : all_intents (map_intents g r) = g <$> all_intents r.
Proof.
  unfold all_intents. simpl. rewrite fmap_app. f_equal.
  induction (history r) as [|h hs IH]; [done|].
  rewrite fmap_cons. cbn [flat_map]. rewrite IH. by rewrite fmap_app.
Qed.

Lemma fmap_kept {A B} (p : A → B) (g : A → A) (l : list A) :
  (∀ x, x ∈ l → p (g x) = p x) → p <$> (g <$> l) = p <$> l.
Proof.
  intros Hp. rewrite <-list_fmap_compose. apply list_fmap_ext. intros n x Hx. simpl.
  apply Hp. by eapply list_elem_of_lookup_2.
Qed.

(** A change of intents that keeps who they are and never drops a receipt keeps
    a record well formed; [s] is the state afterwards. *)
Lemma map_intents_wf used k g r s :
  record_wf used k r →
  (∀ i, i ∈ all_intents r → id (g i) = id i ∧ effect (g i) = effect i ∧ intent_wf (g i)) →
  (∀ i rc, i ∈ all_intents r → receipt i = Some rc → receipt (g i) = Some rc) →
  (∀ i, i ∈ intents r → effect i = EffectMerge →
     (s = Landing ∧ receipt (g i) = None) ∨ (s = Landed ∧ is_Some (receipt (g i)))) →
  s = state r ∨ (s = Landed ∧ state r = Landing) →
  record_wf used k (set_state s (map_intents g r)).
Proof.
  intros [] Hg Hrc Hm Hs.
  assert (∀ i, i ∈ intents r → i ∈ all_intents r) as Hcur by (unfold all_intents; set_solver).
  assert (∀ h i, h ∈ history r → i ∈ h_intents h → i ∈ all_intents r) as Harc.
  { intros h i Hh Hi. unfold all_intents. rewrite elem_of_app, archived_elem. eauto. }
  constructor; simpl; try done.
  - destruct Hs as [->|[-> Hl]]; [done|]. rewrite rwf_attempt0, Hl. done.
  - intros Hu. destruct Hs as [->|[-> Hl]]; [|naive_solver].
    destruct (rwf_unreviewed0 Hu) as [? Hnil]. by rewrite Hnil.
  - intros Hu. apply rwf_reviewed0. destruct Hs as [->|[-> Hl]]; [done|]. by rewrite Hl.
  - rewrite (fmap_kept effect); [done|]. intros i Hi. by apply Hg, Hcur.
  - intros Hu. destruct rwf_checked0 as (i & Hi & He & rc & Hr).
    { destruct Hs as [->|[-> Hl]]; [done|]. by rewrite Hl. }
    exists (g i). split_and!; [by apply list_elem_of_fmap; eauto| |eauto].
    destruct (Hg i) as (_ & -> & _); auto.
  - intros i (j & -> & Hj)%list_elem_of_fmap He. apply Hm; [done|].
    by destruct (Hg j) as (_ & <- & _); [auto|].
  - intros Hu. destruct rwf_landing0 as (i & Hi & He); [destruct Hs as [->|[_ ->]]; auto|].
    exists (g i). split; [by apply list_elem_of_fmap; eauto|]. destruct (Hg i) as (_ & -> & _); auto.
  - change (Forall intent_wf (all_intents (map_intents g r))). rewrite map_intents_all.
    rewrite list.Forall_forall. intros i (j & -> & Hj)%list_elem_of_fmap. by apply Hg.
  - change (NoDup (id <$> all_intents (map_intents g r))). rewrite map_intents_all.
    rewrite (fmap_kept id); [done|]. intros i Hi. by apply Hg.
  - intros i (j & -> & Hj)%list_elem_of_fmap. destruct (Hg j) as (-> & _); auto.
  - intros h i (h' & -> & Hh')%list_elem_of_fmap. simpl. intros (j & -> & Hj)%list_elem_of_fmap.
    destruct (Hg j) as (-> & _); eauto.
  - intros h a (h' & -> & Hh')%list_elem_of_fmap. simpl. eauto.
Qed.


Lemma leased_Ok r aid owner now :
  leased r aid owner now = Ok tt ↔
  cancelled r = false ∧ ∃ a, attempt r = Some a ∧ attempt_id a = aid ∧ lease_owner a = owner ∧
    now < lease_until a.
Proof.
  unfold leased. destruct (cancelled r); [naive_solver|].
  destruct (attempt r) as [a|]; [|naive_solver].
  destruct (_ && _) eqn:E; bool_prop; [naive_solver|].
  split; [done|]. intros (_ & a' & [= <-] & H1 & H2 & H3). destruct E as [[E|E]|E]; congruence || lia.
Qed.

Lemma fresh_record_wf used k : record_wf used k (fresh_record k).
Proof. constructor; simpl; naive_solver (constructor || set_solver). Qed.

Lemma set_cancelled_wf used k b r : record_wf used k r → record_wf used k (set_cancelled b r).
Proof. intros []. by constructor. Qed.


(** Archiving: what was current joins the used identifiers. *)
Lemma reopened_wf used used' k r :
  record_wf used k r →
  (∀ x, x ∈ used → x ∈ used') →
  (∀ h x, h ∈ history (archive r) → x ∈ history_ids k h → x ∈ used') →
  record_wf used' k (reopened (archive r)).
Proof.
  intros Hwf Hu Hh. destruct Hwf.
  assert (∀ h, h ∈ List.filter unreceipted (history (archive r)) → h ∈ history (archive r)) as Hf
    by (intros h; rewrite bfilter_elem; tauto).
  constructor; simpl; try done; try (by constructor); try (by intros i ?%elem_of_nil).
  - by intros [|].
  - unfold all_intents. simpl. rewrite list.Forall_forall in *. intros i (h & Hin%Hf & Hi)%archived_elem.
    apply rwf_intents0. simpl in Hin. unfold all_intents. rewrite elem_of_app, archived_elem.
    apply elem_of_app in Hin as [|Hin%list_elem_of_singleton]; [eauto|]. subst h. auto.
  - unfold all_intents in *. simpl. rewrite List.filter_app, flat_map_app. simpl.
    destruct (unreceipted _); simpl; rewrite ?app_nil_r.
    + rewrite fmap_app in *. apply list.NoDup_app in rwf_ids0 as (Hc & Hd & Ha).
      apply list.NoDup_app. split_and!.
      * eapply sublist_NoDup; [exact Ha|]. apply fmap_sublist, flat_map_filter_sublist.
      * intros x (i & -> & (h & [Hin _]%bfilter_elem & Hi)%archived_elem)%list_elem_of_fmap Hx.
        apply (Hd (id i)); [done|]. apply list_elem_of_fmap. exists i. rewrite archived_elem. eauto.
      * done.
    + rewrite fmap_app in rwf_ids0. apply list.NoDup_app in rwf_ids0 as (_ & _ & Ha).
      eapply sublist_NoDup; [exact Ha|]. apply fmap_sublist, flat_map_filter_sublist.
  - intros h i Hin%Hf Hi. apply (Hh h); [done|]. unfold history_ids.
    apply elem_of_app. right. apply list_elem_of_fmap. eauto.
  - intros h a Hin%Hf Ha. apply (Hh h); [done|]. unfold history_ids. rewrite Ha. set_solver.
Qed.

(** Recording an observation on an unreceipted intent. *)
Definition observed_intent (o : Observation) (i : Intent) : Intent :=
  match o with
  | Unknown => with_retryable false i
  | Absent => with_retryable true i
  | Found rc => with_receipt rc i
  end.

(** A successful [reconcile]: what it found, and what it leaves. *)
Lemma reconcile_record_Ok i g o r r' :
  NoDup (id <$> all_intents r) → reconcile_record i g o r = Ok r' →
  ∃ j, j ∈ all_intents r ∧ id j = i ∧ generation j = g ∧
    ((is_Some (receipt j) ∧ r' = r) ∨
     (receipt j = None ∧ o ≠ Found EmptyString ∧
      ∃ s, r' = set_state s (map_intents (on_intent i (observed_intent o)) r) ∧
        s = match o with
            | Found _ => if bool_decide (j ∈ intents r) && (effect j == EffectMerge) then Landed else state r
            | _ => state r
            end)).
Proof.
  intros Hnd H. unfold reconcile_record in H. apply result_bind_Ok in H as (j & Hf & H).
  apply ok_or_Ok, find_Some_elem in Hf as [Hj Hid]. bool_prop. exists j.
  apply result_guard_Ok in H as [Hg H]. bool_prop. split_and!; try done.
  destruct (receipt j) as [rc|] eqn:Hrc; simpl in H; [left; split; [done|congruence]|right].
  split; [done|].
  destruct o as [| |rc]; simpl in H.
  - injection H as <-. split; [done|]. exists (state r). rewrite replace_intent_map by done. by destruct r.
  - injection H as <-. split; [done|]. exists (state r). rewrite replace_intent_map by done. by destruct r.
  - apply result_guard_Ok in H as [He%str_is_empty_false [= <-]]. split; [congruence|].
    rewrite replace_intent_map by done.
    assert (existsb (λ j0, id j0 == i) (intents r) = bool_decide (j ∈ intents r)) as ->.
    { apply eq_bool_prop_intro; split; intros H%Is_true_true; apply Is_true_true; bool_prop.
      - destruct H as (j0 & Hj0 & Hid0). bool_prop. replace j with j0; [done|].
        eapply (NoDup_key_inj id); [exact Hnd|unfold all_intents; set_solver|done|congruence].
      - exists j. bool_prop. auto. }
    destruct (_ && _); eexists; (split; [|done]); by destruct r.
Qed.

(** A successful [retry] consumes the permission and opens a generation. *)
Lemma retry_record_Ok aid owner now i r r' :
  NoDup (id <$> all_intents r) → retry_record aid owner now i r = Ok r' →
  leased r aid owner now = Ok tt ∧ state r ≠ Landed ∧ state r ≠ Failed ∧
  ∃ j, j ∈ intents r ∧ id j = i ∧ retryable j = true ∧ receipt j = None ∧
    0 ≤ generation j + 1 ≤ u64_max ∧
    r' = map_intents (on_intent i (λ j, mkIntent (id j) (effect j) (receipt j) false (generation j + 1))) r.
Proof.
  intros Hnd H. unfold retry_record in H. apply result_seq_Ok in H as [Hl H].
  apply result_guard_Ok in H as [Hs H]. apply result_bind_Ok in H as (j & Hf & H).
  apply ok_or_Ok, find_Some_elem in Hf as [Hj Hid]. apply result_guard_Ok in H as [Hg H].
  apply result_bind_Ok in H as (g & Hgen & H). apply ok_or_Ok, checked_add_u64_Some in Hgen as [-> Hb].
  injection H as <-. bool_prop. destruct Hs as [HsF HsL]. split_and!; try done.
  exists j. destruct Hg as [Hg1 Hg2]. split_and!; try done; [lia..|].
  pose proof Hnd as Hnd'. unfold all_intents in Hnd'. rewrite fmap_app in Hnd'.
  apply list.NoDup_app in Hnd' as (Hc & Hd & _).
  destruct (update_first _ _ (intents r)) as [l|] eqn:E.
  - apply update_first_on_intent in E as [-> _]; [|done]. simpl. unfold map_intents.
    rewrite map_history_fresh.
    + replace (on_intent i _ <$> intents r) with
        (on_intent i (λ j0, mkIntent (id j0) (effect j0) (receipt j0) false (generation j0 + 1)) <$> intents r);
        [by destruct r|].
      apply list_fmap_ext. intros n x Hx. unfold on_intent.
      destruct (decide (id x = i)) as [Hxi|]; [|by rewrite !bool_decide_eq_false_2].
      rewrite !bool_decide_eq_true_2 by done. replace x with j; [done|].
      apply (NoDup_key_inj id (intents r)); [done|done|by eapply list_elem_of_lookup_2|congruence].
    + intros h j' Hh Hj' Heq. apply (Hd i); [apply list_elem_of_fmap; exists j; auto|].
      apply list_elem_of_fmap. exists j'. split; [done|]. apply archived_elem. eauto.
  - rewrite update_first_None, list.Forall_forall in E. specialize (E j Hj). bool_prop. done.
Qed.

Lemma reconcile_wf used k i g o r r' :
  record_wf used k r → reconcile_record i g o r = Ok r' → record_wf used k r'.
Proof.
  intros Hwf H. pose proof Hwf as []. apply reconcile_record_Ok in H as (j & Hj & Hid & Hg & H); [|done].
  destruct H as [[_ ->]|(Hrc & Ho & s & -> & Hs)]; [done|].
  assert (∀ j', j' ∈ all_intents r → id j' = i → j' = j) as Hone.
  { intros j' Hj' Hid'. apply (NoDup_key_inj id (all_intents r)); congruence. }
  rewrite list.Forall_forall in rwf_intents0.
  assert (j ∈ intents r → effect j = EffectMerge → state r = Landing) as Hland.
  { intros Hc He. destruct (rwf_merge0 j Hc He) as [[]|[_ [? ?]]]; congruence. }
  assert (∀ j', j' ∈ all_intents r → on_intent i (observed_intent o) j' =
            if decide (j' = j) then observed_intent o j else j') as Hon.
  { intros j' Hj'. unfold on_intent. destruct (decide (j' = j)) as [->|Hne].
    - by rewrite bool_decide_eq_true_2.
    - rewrite bool_decide_eq_false_2; [done|]. intros ?. by apply Hne, Hone. }
  apply map_intents_wf.
  - done.
  - intros j' Hj'. rewrite Hon by done. destruct (decide (j' = j)) as [Heq|Heq];
      [|by split_and!; auto].
    destruct (rwf_intents0 j Hj) as [Hi1 Hi2 Hi3]. subst j'.
    split_and!; [by destruct o..|]. destruct o as [| |rc]; constructor; simpl; try done.
    + intros rc. by rewrite Hrc.
    + intros rc. by rewrite Hrc.
    + intros rc' [= <-]. split; [|done]. congruence.
  - intros j' rc Hj' Hrc'. rewrite Hon by done. destruct (decide (j' = j)); congruence.
  - intros j' Hj' He. rewrite Hon by (unfold all_intents; set_solver).
    destruct (decide (j' = j)) as [Heq|Heq].
    + subst j'. rewrite Hland in Hs by done. subst s.
      rewrite !bool_decide_eq_true_2 by done.
      destruct o as [| |rc]; simpl; [left; auto..|right]. eauto.
    + replace s with (state r); [by auto|]. rewrite Hs. destruct o as [| |rc]; try done.
      destruct (_ && _) eqn:E; [|done]. bool_prop. destruct E as [Hjc Hje].
      exfalso. apply Heq. eapply (NoDup_key_inj effect); [exact rwf_effects0|done|done|congruence].
  - rewrite Hs. destruct o as [| |rc]; auto. destruct (_ && _) eqn:E; [|auto].
    bool_prop. destruct E. right. split; [done|]. by apply Hland.
Qed.

Lemma retry_wf used k aid owner now i r r' :
  record_wf used k r → retry_record aid owner now i r = Ok r' → record_wf used k r'.
Proof.
  intros Hwf H. pose proof Hwf as [].
  apply retry_record_Ok in H as (_ & Hs1 & Hs2 & j & Hj & Hid & Hr & Hrc & Hb & ->); [|done].
  rewrite list.Forall_forall in rwf_intents0.
  match goal with |- record_wf _ _ ?m => replace m with (set_state (state r) m) by (by destruct r) end.
  apply map_intents_wf; [done|..].
  - intros j' Hj'. unfold on_intent. destruct (decide (id j' = i)) as [Heq|Heq].
    + assert (j' = j) as ->.
      { apply (NoDup_key_inj id (all_intents r)); [done|done|unfold all_intents; set_solver|congruence]. }
      rewrite bool_decide_eq_true_2 by done. split_and!; [done..|].
      destruct (rwf_intents0 j Hj') as [Hi1 Hi2 Hi3]. constructor; simpl; [done| |done].
      intros rc. by rewrite Hrc.
    + rewrite bool_decide_eq_false_2 by done. auto.
  - intros j' rc Hj' Hrc'. unfold on_intent. by destruct (_ == _).
  - intros j' Hj' He. destruct (rwf_merge0 j' Hj' He) as [[? ?]|[? ?]]; [left|congruence].
    split; [done|]. unfold on_intent. by destruct (_ == _).
  - by left.
Qed.

(** A change of state, attempt or verdict that keeps the intents. *)
Lemma advance_wf used k r s a v :
  record_wf used k r → s ≠ NeedsReview →
  attempt_id a ≠ EmptyString ∧ lease_owner a ≠ EmptyString ∧ (k, "attempt", attempt_id a) ∉ used →
  v ≠ Some EmptyString →
  (s = Reviewing → v = None ∧ intents r = []) →
  (reviewed s = true → is_Some v) →
  (checked s = true → ∃ i, i ∈ intents r ∧ effect i = EffectVerdict ∧ is_Some (receipt i)) →
  (s = state r ∨ (s ≠ Landing ∧ s ≠ Landed ∧ ∀ i, i ∈ intents r → effect i ≠ EffectMerge)) →
  record_wf used k
    (mkRecord (schema_version r) (key r) s (cancelled r) (Some a) v (intents r) (history r)).
Proof.
  intros [] Hs (Ha1 & Ha2 & Ha3) Hv Hrev Hrd Hch Hm. constructor; simpl; try done.
  - by intros a' [= <-].
  - intros v' -> ->. done.
  - intros [?|?]; [done|auto].
  - intros i Hi He. destruct Hm as [->|(_ & _ & Hm)]; [auto|]. by destruct (Hm i).
  - intros Hl. destruct Hm as [->|(? & ? & _)]; [auto|]. by destruct Hl.
  - by intros a' [= <-].
Qed.

(** Before [Landing] there is no merge intent. *)
Lemma no_merge_yet used k r i :
  record_wf used k r → state r ≠ Landing → state r ≠ Landed → i ∈ intents r → effect i ≠ EffectMerge.
Proof. intros [] ? ? Hi He. destruct (rwf_merge0 i Hi He) as [[? _]|[? _]]; done. Qed.

Lemma start_wf used k a now r r' :
  record_wf used k r → record_step used (OpStart k a now) r = Ok r' → record_wf used k r'.
Proof.
  intros Hwf H. simpl in H. ok_inv. bool_prop.
  destruct Hguard0 as [[[Hc Hs] Ha] Hh]. destruct Hguard1 as [[Hl Hi] Ho].
  apply str_is_empty_false in Hi, Ho.
  destruct (rwf_unreviewed _ _ _ Hwf) as [Hv Hin]; [by left|].
  apply (advance_wf used k r Reviewing a (verdict r)); try done; rewrite ?Hv, ?Hin; try done.
  right. split_and!; try done. by intros i ?%elem_of_nil.
Qed.

Lemma renew_wf used k aid owner now until r r' :
  record_wf used k r → renew_record aid owner now until r = Ok r' → record_wf used k r'.
Proof.
  intros Hwf H. unfold renew_record in H. ok_inv. bool_prop. destruct Hguard0 as [[[Hi Ho] Hu] Hl].
  apply str_is_empty_false in Ho. pose proof Hwf as [].
  apply (advance_wf used k r (state r) (mkAttempt (attempt_id x) owner until) (verdict r)); simpl; auto.
  - rewrite <-rwf_attempt0. congruence.
  - split_and!; [by eapply rwf_lease0|done|by eapply rwf_current_attempt0].
  - intros Hv. by apply rwf_verdict0 in Hv.
Qed.

(** What a lease says of a well-formed record. *)
Lemma leased_attempt used k r aid owner now :
  record_wf used k r → leased r aid owner now = Ok tt →
  ∃ a, attempt r = Some a ∧ attempt_id a ≠ EmptyString ∧ lease_owner a ≠ EmptyString ∧
       (k, "attempt", attempt_id a) ∉ used.
Proof.
  intros [] (_ & a & Ha & _)%leased_Ok. exists a. destruct (rwf_lease0 a Ha). eauto.
Qed.

Lemma verdict_wf used k aid owner now v r r' :
  record_wf used k r → verdict_record aid owner now v r = Ok r' → record_wf used k r'.
Proof.
  intros Hwf H. unfold verdict_record in H. apply result_seq_Ok in H as [Hl H]. ok_inv. bool_prop.
  destruct Hguard as [[Hs Hv] He]. apply str_is_empty_false in He.
  destruct (rwf_unreviewed _ _ _ Hwf) as [_ Hin]; [by right|].
  destruct (leased_attempt _ _ _ _ _ _ Hwf Hl) as (a & Ha & Ha1).
  unfold set_state, set_verdict; simpl. rewrite Ha.
  apply (advance_wf used k r Verdict a (Some v)); rewrite ?Hin; try done; [congruence|].
  right. split_and!; try done. by intros i ?%elem_of_nil.
Qed.

Lemma transition_wf used k aid owner now next r r' :
  record_wf used k r → transition_record aid owner now next r = Ok r' → record_wf used k r'.
Proof.
  intros Hwf H. unfold transition_record in H. apply result_seq_Ok in H as [Hl H].
  apply result_guard_Ok in H as [Ht H]. apply result_guard_Ok in H as [Hc H]. injection H as <-.
  destruct (leased_attempt _ _ _ _ _ _ Hwf Hl) as (a & Ha & Ha1).
  unfold set_state. rewrite Ha. bool_prop. pose proof Hwf as [].
  apply (advance_wf used k r next a (verdict r)); try done.
  - destruct (state r), next; done.
  - intros Hv. by apply rwf_verdict0 in Hv.
  - destruct (state r), next; done.
  - intros Hn. apply rwf_reviewed0. by destruct (state r), next.
  - intros Hn. destruct Hc as [Hc|Hc].
    + apply rwf_checked0. by destruct (state r), next.
    + destruct Hc as (i & Hi & Hie). bool_prop. exists i. naive_solver.
  - right. assert (state r ≠ Landing ∧ state r ≠ Landed ∧ next ≠ Landing ∧ next ≠ Landed) as (H1 & H2 & H3 & H4)
      by (by destruct (state r), next).
    split_and!; try done. intros i. by apply (no_merge_yet used k r).
Qed.

(** A successful [intent]. *)
Lemma intent_record_Ok used k aid owner now i e r r' :
  record_step used (OpIntent k aid owner now i e) r = Ok r' ↔
  ((k, "intent", i) ∉ used) ∧ leased r aid owner now = Ok tt ∧
  state r = (if e == EffectMerge then Landable else Verdict) ∧ i ≠ EmptyString ∧
  (∀ j, j ∈ intents r → effect j ≠ e) ∧ (∀ j, j ∈ all_intents r → id j ≠ i) ∧
  r' = set_state (if e == EffectMerge then Landing else Verdict)
         (set_intents (intents r ++ [mkIntent i e None false 0]) r).
Proof.
  simpl. rewrite result_guard_Ok, bool_decide_eq_false, result_seq_Ok, result_guard_Ok.
  assert (negb (intent_allowed e (state r)) || str_is_empty i
       || existsb (λ j, (effect j == e) || (id j == i)) (intents r)
       || existsb (λ j, id j == i) (flat_map h_intents (history r)) = false ↔
     state r = (if e == EffectMerge then Landable else Verdict) ∧ i ≠ EmptyString ∧
     (∀ j, j ∈ intents r → effect j ≠ e) ∧ (∀ j, j ∈ all_intents r → id j ≠ i)) as ->.
  { rewrite !orb_false_iff, negb_false_iff, str_is_empty_false, !existsb_false_elem.
    setoid_rewrite orb_false_iff. setoid_rewrite bool_decide_eq_false.
    unfold all_intents. setoid_rewrite elem_of_app.
    unfold intent_allowed. destruct e; rewrite bool_decide_eq_true; simpl;
      (split; [intros [[[? ?] Hc] Ha]|intros (? & ? & Hc & Ha)]; split_and!; try done).
    1,5: by intros j Hj; apply Hc.
    1,4: by intros j [Hj|Hj]; [apply Hc|apply Ha].
    all: intros j Hj; split_and?; auto. }
  split.
  - intros (? & ? & (Hs & ? & ? & ?) & [= <-]). split_and!; try done.
    unfold set_intents, set_state; simpl. destruct e; simpl in *; by rewrite ?Hs.
  - intros (? & ? & Hs & ? & ? & ? & ->). split_and!; try done.
    unfold set_intents, set_state; simpl. destruct e; simpl in *; by rewrite ?Hs.
Qed.

Lemma intent_step_wf used k aid owner now i e r r' :
  record_wf used k r → record_step used (OpIntent k aid owner now i e) r = Ok r' →
  record_wf used k r'.
Proof.
  intros Hwf (Hu & Hl & Hs & Hi & He & Hid & ->)%intent_record_Ok. pose proof Hwf as [].
  destruct (leased_attempt _ _ _ _ _ _ Hwf Hl) as (a & Ha & Ha1).
  assert (∀ j, j ∈ intents r ++ [mkIntent i e None false 0] ↔ j ∈ intents r ∨ j = mkIntent i e None false 0)
    as Hnew by (intros j; rewrite elem_of_app, list_elem_of_singleton; done).
  constructor; simpl; try done.
  - split; [congruence|]. by destruct e.
  - by destruct e; intros [].
  - intros _. apply rwf_reviewed0. by rewrite Hs; destruct e.
  - rewrite fmap_app. apply list.NoDup_app. split_and!; [done| |apply NoDup_singleton].
    intros x (j & -> & Hj)%list_elem_of_fmap Hx%list_elem_of_singleton. by destruct (He j Hj).
  - intros Hc. destruct e; [done|]. destruct rwf_checked0 as (j & Hj & ?); [by rewrite Hs|].
    exists j. rewrite Hnew. auto.
  - intros j Hj Hje. rewrite Hnew in Hj. destruct Hj as [Hj| ->].
    + exfalso. eapply (no_merge_yet used k r j); try done; rewrite Hs; by destruct e.
    + simpl in Hje. subst e. by left.
  - intros Hn. exists (mkIntent i e None false 0). rewrite Hnew. destruct e; [by destruct Hn|auto].
  - unfold all_intents in *; simpl. rewrite !Forall_app in *. destruct rwf_intents0. split_and!; try done.
    constructor; [|constructor]. by constructor.
  - unfold all_intents in *; simpl. rewrite <-app_assoc, fmap_app, fmap_app in *. simpl.
    apply list.NoDup_app in rwf_ids0 as (Hc & Hd & Hx). apply list.NoDup_app. split_and!; [done| |].
    + intros x Hx' [->|Hx'']%elem_of_cons; [|by apply (Hd x)].
      apply list_elem_of_fmap in Hx' as (j & -> & Hj). apply (Hid j); [set_solver|done].
    + apply list.NoDup_cons. split; [|done]. intros (j & -> & Hj)%list_elem_of_fmap.
      apply (Hid j); [set_solver|done].
  - intros j [Hj| ->]%Hnew; [auto|done].
Qed.

Lemma record_step_wf used o r r' :
  record_wf used (op_key o) r → record_step used o r = Ok r' → record_wf used (op_key o) r'.
Proof.
  destruct o; [done|..]; simpl op_key.
  - apply start_wf.
  - apply renew_wf.
  - apply verdict_wf.
  - apply transition_wf.
  - apply intent_step_wf.
  - apply reconcile_wf.
  - apply retry_wf.
Qed.

Lemma store_wf_step db o db' :
  rows_ok db → store_wf db → apply db o = Ok db' → store_wf db'.
Proof.
  intros Hok Hwf H k r' Hr'. pose proof (λ x, apply_ids db o db' x Hok H) as Hids.
  apply (apply_row db o db' k r') in Hr'; [|done..].
  assert ((∀ r, o = OpObserve k → pr_work db !! k = Some r → cancelled r = false) →
          ∀ kind i, (k, kind, i) ∈ pr_work_ids db ↔ (k, kind, i) ∈ pr_work_ids db') as Hsame.
  { intros Hno kind i. rewrite Hids. split; [by left|].
    intros [?|(r & Ho & Hr & Hc & _)]; [done|]. rewrite (Hno r) in Hc; done. }
  destruct Hr' as [r' Hne Hns Hr|r' -> Hr Hc|k' r -> Hs Hr| -> Hr|r -> Hr Hc|r r' Hk Hr Hs].
  - apply (record_wf_ids (pr_work_ids db)); [apply Hsame; intros ? ->; done|by apply Hwf].
  - apply (record_wf_ids (pr_work_ids db)); [apply Hsame; intros; congruence|by apply Hwf].
  - apply (record_wf_ids (pr_work_ids db)); [|by apply set_cancelled_wf, Hwf].
    apply Hsame. intros r0 [= ->]. by destruct Hs as (_ & _ & []).
  - apply fresh_record_wf.
  - apply (reopened_wf (pr_work_ids db)); [by apply Hwf|intros x Hx; apply Hids; auto|].
    intros h x Hh Hx. apply Hids. right. exists r.
    assert (x.1.1 = k) as ->.
    { unfold history_ids in Hx. rewrite elem_of_app, list_elem_of_fmap in Hx.
      destruct (h_attempt h); set_solver. }
    split_and!; eauto.
  - apply (record_wf_ids (pr_work_ids db)).
    + apply Hsame. intros r0 ->. done.
    + subst k. eapply record_step_wf; [|exact Hs]. by apply Hwf.
Qed.

Lemma run_wf os db : run os db → store_wf db.
Proof.
  induction 1 as [|os db o db' Hrun IH H]; [|by eapply store_wf_step; eauto using run_rows_ok].
  intros k r. simpl. by rewrite lookup_empty.
Qed.
