(* ===== verification/ReconcilerRuns.v ===== *)
(** * ReconcilerRuns: what holds over every run of the reconciler

    The theorems about [Reconciler]: every interleaving of its operations
    keeps the store well formed, issues no identifier twice, retries an effect
    only after it was observed absent, lands only through the whole pipeline,
    and lets no superseded head act. *)

From stdpp Require Import base option list strings gmap sets.
From S2P Require Import Prelude Reconciler.

Local Open Scope string_scope.
Local Open Scope list_scope.
Local Open Scope Z_scope.
Local Open Scope rust_scope.

(** ** Facts about every row of every run *)

Lemma run_row_ind (P : list op → Key → WorkRecord → Prop) :
  (∀ os db o db' k r', run os db → store_wf db → apply db o = Ok db' →
     (∀ r, pr_work db !! k = Some r → P os k r) → row_step db o k r' → P (o :: os) k r') →
  ∀ os db k r, run os db → pr_work db !! k = Some r → P os k r.
Proof.
  intros HP os db k r Hrun. revert r. induction Hrun as [|os db o db' Hrun IH H]; intros r Hr.
  { simpl in Hr. by rewrite lookup_empty in Hr. }
  eapply HP; eauto using run_wf, apply_row, run_rows_ok.
Qed.

Lemma rows_persist db o db' k :
  rows_ok db → apply db o = Ok db' → is_Some (pr_work db !! k) → is_Some (pr_work db' !! k).
Proof.
  intros Hok H [r Hr].
  assert ((∃ k, o = OpObserve k) ∨ ∀ k, o ≠ OpObserve k) as [[k0 ->]|Hno]
    by (destruct o; naive_solver).
  - simpl in H. apply result_bind_Ok in H as ([db1 r0] & Ho & [= <-]).
    apply observe_head_lookup in Ho as (Hk & _ & Hne & _); [|done].
    destruct (decide (k = k0)) as [->|Hkk]; [eauto|]. simpl. rewrite Hne, Hr by done.
    case_decide; simpl; eauto.
  - apply apply_changed in H as (r1 & r2 & _ & _ & -> & _); [|done..].
    apply lookup_insert_is_Some'. eauto.
Qed.

(** Operations keep the identifiers of the current intents and attempt. *)
Lemma record_step_intents used o r r' i :
  record_wf used (op_key o) r → record_step used o r = Ok r' →
  i ∈ id <$> intents r' ↔
  i ∈ id <$> intents r ∨ ∃ aid owner now e, o = OpIntent (op_key o) aid owner now i e.
Proof.
  intros Hwf H.
  assert (∀ g, (∀ j, id (g j) = id j) → id <$> intents (map_intents g r) = id <$> intents r) as Hmap.
  { intros g Hg. simpl. by apply fmap_kept. }
  assert ((∀ k aid owner now i e, o ≠ OpIntent k aid owner now i e) →
          id <$> intents r' = id <$> intents r →
          i ∈ id <$> intents r' ↔
          i ∈ id <$> intents r ∨ ∃ aid owner now e, o = OpIntent (op_key o) aid owner now i e) as Hsame.
  { intros Hne ->. split; [by left|]. intros [?|(? & ? & ? & ? & Ho)]; [done|]. by destruct (Hne _ _ _ _ _ _ Ho). }
  destruct o as [k|k a now|k aid owner now until|k aid owner now v
    |k aid owner now next|k aid owner now i' e|k i' g o|k aid owner now i']; try (apply Hsame; [done|]).
  - done.
  - simpl in H. by ok_inv.
  - unfold record_step, renew_record in H. by ok_inv.
  - unfold record_step, verdict_record in H. by ok_inv.
  - unfold record_step, transition_record in H. by ok_inv.
  - apply intent_record_Ok in H as (_ & _ & _ & _ & _ & _ & ->). simpl.
    rewrite fmap_app, elem_of_app, (list_elem_of_singleton i i' : i ∈ id <$> [mkIntent i' e None false 0] ↔ i = i'). split.
    + intros [?| ->]; [by left|right; eauto 10].
    + intros [?|(? & ? & ? & ? & [= <- <- <- <- <-])]; auto.
  - apply reconcile_record_Ok in H as (j & _ & _ & _ & [[_ ->]|(_ & _ & s & -> & _)]); [done| |by destruct Hwf].
    apply Hmap. intros j'. unfold on_intent. destruct (_ == _), o; done.
  - apply retry_record_Ok in H as (_ & _ & _ & j & _ & _ & _ & _ & _ & ->); [|by destruct Hwf].
    apply Hmap. intros j'. unfold on_intent. by destruct (_ == _).
Qed.

Lemma record_step_attempt used o r r' i :
  record_wf used (op_key o) r → record_step used o r = Ok r' →
  (∃ a, attempt r' = Some a ∧ attempt_id a = i) ↔
  (∃ a, attempt r = Some a ∧ attempt_id a = i) ∨
  (∃ a now, o = OpStart (op_key o) a now ∧ attempt_id a = i).
Proof.
  intros Hwf H.
  assert ((∀ k a now, o ≠ OpStart k a now) → attempt_id <$> attempt r' = attempt_id <$> attempt r →
     (∃ a, attempt r' = Some a ∧ attempt_id a = i) ↔
     (∃ a, attempt r = Some a ∧ attempt_id a = i) ∨
     (∃ a now, o = OpStart (op_key o) a now ∧ attempt_id a = i)) as Hsame.
  { intros Hne Heq. assert (∀ r0, (∃ a, attempt r0 = Some a ∧ attempt_id a = i) ↔
       attempt_id <$> attempt r0 = Some i) as Hf by (intros r0; destruct (attempt r0); naive_solver).
    rewrite !Hf, Heq. split; [by left|]. intros [?|(? & ? & Ho & _)]; [done|]. by destruct (Hne _ _ _ Ho). }
  destruct o as [k|k a now|k aid owner now until|k aid owner now v
    |k aid owner now next|k aid owner now i' e|k i' g o|k aid owner now i']; try (apply Hsame; [done|]).
  - done.
  - simpl in H. ok_inv. bool_prop. destruct Hguard0 as [[[_ _] Ha] _]. rewrite Ha. simpl. split.
    + intros (a' & [= <-] & <-). right; eauto.
    + intros [(? & ? & _)|(? & ? & [= <- <-] & <-)]; [done|eauto].
  - unfold record_step, renew_record in H. ok_inv. by rewrite H0.
  - unfold record_step, verdict_record in H. by ok_inv.
  - unfold record_step, transition_record in H. by ok_inv.
  - by apply intent_record_Ok in H as (_ & _ & _ & _ & _ & _ & ->).
  - by apply reconcile_record_Ok in H as (j & _ & _ & _ & [[_ ->]|(_ & _ & s & -> & _)]); [..|by destruct Hwf].
  - by apply retry_record_Ok in H as (_ & _ & _ & j & _ & _ & _ & _ & _ & ->); [|by destruct Hwf].
Qed.

(** ** Identifiers are never reused *)

(** An identifier the store still knows of: current, or used before. *)
Definition intent_known (db : Store) (k : Key) (i : string) : Prop :=
  (k, "intent", i) ∈ pr_work_ids db ∨
  ∃ r, pr_work db !! k = Some r ∧ i ∈ id <$> intents r.
Definition attempt_known (db : Store) (k : Key) (i : string) : Prop :=
  (k, "attempt", i) ∈ pr_work_ids db ∨
  ∃ r a, pr_work db !! k = Some r ∧ attempt r = Some a ∧ attempt_id a = i.

(** What was current in a row either stays current or is archived. *)
Lemma row_forward db o db' k r :
  rows_ok db → apply db o = Ok db' → pr_work db !! k = Some r →
  ∃ r', pr_work db' !! k = Some r' ∧
    ((intents r' = intents r ∧ attempt r' = attempt r) ∨
     (op_key o = k ∧ record_step (pr_work_ids db) o r = Ok r') ∨
     (∀ x, x ∈ history_ids k (mkHistory (state r) (attempt r) (verdict r) (intents r)) →
           x ∈ pr_work_ids db')).
Proof.
  intros Hok H Hr. destruct (rows_persist db o db' k Hok H) as [r' Hr']; [eauto|].
  exists r'. split; [done|]. pose proof (apply_row _ _ _ _ _ Hok H Hr') as Hs.
  destruct Hs as [r' Hne Hns Hr0|r' -> Hr0 Hc|k' r0 -> Hs Hr0| -> Hr0|r0 -> Hr0 Hc|r0 r' Hk Hr0 Hs];
    rewrite Hr in Hr0; [| | |discriminate| |]; injection Hr0 as <-; try (by left); [|by right; left].
  right; right. intros x Hx. eapply apply_ids; [done..|]. right. exists r.
  assert (x.1.1 = k) as ->.
  { unfold history_ids in Hx. rewrite elem_of_app, list_elem_of_fmap in Hx. simpl in Hx.
    destruct (attempt r); set_solver. }
  split_and!; try done. eexists. split; [|exact Hx]. simpl. set_solver.
Qed.

Lemma intent_known_step db o db' k i :
  rows_ok db → store_wf db → apply db o = Ok db' → intent_known db k i → intent_known db' k i.
Proof.
  intros Hok Hwf H [Hu|(r & Hr & Hi)]; [left; eapply apply_ids; eauto|].
  destruct (row_forward db o db' k r Hok H Hr) as (r' & Hr' & [[Heq _]|[[Hk Hs]|Ha]]).
  - right. exists r'. by rewrite Heq.
  - right. exists r'. split; [done|]. subst k.
    apply (record_step_intents (pr_work_ids db) o r r'); [by apply Hwf|done|by left].
  - left. apply Ha. unfold history_ids. apply elem_of_app; right; simpl.
    apply list_elem_of_fmap in Hi as (j & -> & Hj). apply list_elem_of_fmap. eauto.
Qed.

Lemma attempt_known_step db o db' k i :
  rows_ok db → store_wf db → apply db o = Ok db' → attempt_known db k i → attempt_known db' k i.
Proof.
  intros Hok Hwf H [Hu|(r & a & Hr & Ha & Hi)]; [left; eapply apply_ids; eauto|].
  destruct (row_forward db o db' k r Hok H Hr) as (r' & Hr' & [[_ Heq]|[[Hk Hs]|Hx]]).
  - right. exists r', a. by rewrite Heq.
  - right. subst k. destruct (record_step_attempt _ o r r' i (Hwf _ _ Hr) Hs) as [_ Hback].
    destruct Hback as (a' & ? & ?); eauto 10.
  - left. apply Hx. unfold history_ids. simpl. rewrite Ha. subst i. set_solver.
Qed.

(** The identifiers the operations of a run introduced for a key. *)
Fixpoint issued_intents (k : Key) (os : list op) : list string :=
  match os with
  | [] => []
  | OpIntent k' _ _ _ i _ :: os' => if decide (k' = k) then i :: issued_intents k os' else issued_intents k os'
  | _ :: os' => issued_intents k os'
  end.
Fixpoint issued_attempts (k : Key) (os : list op) : list string :=
  match os with
  | [] => []
  | OpStart k' a _ :: os' => if decide (k' = k) then attempt_id a :: issued_attempts k os' else issued_attempts k os'
  | _ :: os' => issued_attempts k os'
  end.

(** The operations that name an intent. *)
Definition names_intent (k : Key) (i : string) (o : op) : Prop :=
  match o with
  | OpIntent k' _ _ _ i' _ | OpReconcile k' i' _ _ | OpRetry k' _ _ _ i' => k' = k ∧ i' = i
  | _ => False
  end.

Lemma known_archived db k r i :
  store_wf db → pr_work db !! k = Some r → i ∈ id <$> all_intents r → intent_known db k i.
Proof.
  intros Hwf Hr (j & -> & Hj)%list_elem_of_fmap. unfold all_intents in Hj.
  apply elem_of_app in Hj as [Hj|(h & Hh & Hj)%archived_elem].
  - right. exists r. split; [done|]. apply list_elem_of_fmap. eauto.
  - left. by eapply rwf_archived; [apply Hwf|..].
Qed.

Lemma named_known_step db o db' k i :
  rows_ok db → store_wf db → apply db o = Ok db' → names_intent k i o → intent_known db' k i.
Proof.
  intros Hok Hwf H Hn.
  destruct (apply_changed db o db' Hok) as (r & r' & Hr & Hs & Hdb & Hids); [by destruct o|done|].
  assert (pr_work db' !! op_key o = Some r') as Hr' by (by rewrite Hdb, lookup_insert_eq).
  assert (names_intent k i o → (∀ k aid owner now i e, o ≠ OpIntent k aid owner now i e) →
          i ∈ id <$> all_intents r → intent_known db' k i) as Hold.
  { intros _ _ Hi. eapply intent_known_step; try done. destruct o; simpl in *; try done;
      destruct Hn as [-> ->]; by eapply known_archived. }
  pose proof (Hwf _ _ Hr) as Hrw. pose proof (rwf_ids _ _ _ Hrw) as Hnd.
  destruct o as [| | | | |k' aid owner now i' e|k' i' g o|k' aid owner now i']; try done;
    destruct Hn as [-> ->]; simpl op_key in *.
  - right. exists r'. split; [done|]. apply (record_step_intents (pr_work_ids db) (OpIntent k aid owner now i e) r r' i Hrw Hs). right. eauto 10.
  - apply Hold; try done. apply reconcile_record_Ok in Hs as (j & Hj & <- & _); [|done].
    apply list_elem_of_fmap. eauto.
  - apply Hold; try done. apply retry_record_Ok in Hs as (_ & _ & _ & j & Hj & <- & _); [|done].
    apply list_elem_of_fmap. exists j. unfold all_intents. set_solver.
Qed.

Lemma named_known os db k i o :
  run os db → o ∈ os → names_intent k i o → intent_known db k i.
Proof.
  intros Hrun. induction Hrun as [|os db o' db' Hrun IH H]; [by intros ?%elem_of_nil|].
  intros [->|Ho]%elem_of_cons Hn.
  - eapply named_known_step; eauto using run_rows_ok, run_wf.
  - eapply intent_known_step; eauto using run_rows_ok, run_wf.
Qed.

(** An intent is only issued under an identifier the store does not know. *)
Lemma intent_is_new db k aid owner now i e db' :
  rows_ok db → store_wf db → apply db (OpIntent k aid owner now i e) = Ok db' → ¬ intent_known db k i.
Proof.
  intros Hok Hwf H. apply apply_changed in H as (r & r' & Hr & Hs & _); [|done..].
  apply intent_record_Ok in Hs as (Hu & _ & _ & _ & _ & Hid & _). simpl in *.
  intros [?|(r0 & Hr0 & (j & -> & Hj)%list_elem_of_fmap)]; [done|].
  rewrite Hr in Hr0. injection Hr0 as <-. apply (Hid j); [unfold all_intents; set_solver|done].
Qed.
Lemma attempt_is_new db k a now db' :
  rows_ok db → store_wf db → apply db (OpStart k a now) = Ok db' → ¬ attempt_known db k (attempt_id a).
Proof.
  intros Hok Hwf H. apply apply_changed in H as (r & r' & Hr & Hs & _); [|done..].
  simpl in *. ok_inv. bool_prop. destruct Hguard0 as [[_ Ha] _].
  intros [?|(r0 & a0 & Hr0 & Ha0 & _)]; [done|]. congruence.
Qed.

Lemma issued_intents_elem k os i :
  i ∈ issued_intents k os → ∃ o, o ∈ os ∧ names_intent k i o.
Proof.
  induction os as [|o os IH]; [by intros ?%elem_of_nil|]. intros Hi.
  assert (i ∈ issued_intents k os → ∃ o', o' ∈ o :: os ∧ names_intent k i o') as Hlater.
  { intros (o' & Ho' & Hn)%IH. exists o'. split; [set_solver|done]. }
  destruct o; simpl in Hi; auto. case_decide as Heq; [|auto].
  apply elem_of_cons in Hi as [->|Hi]; [|auto]. eexists. split; [apply list_elem_of_here|]. done.
Qed.

Lemma issued_attempts_known os db k i :
  run os db → i ∈ issued_attempts k os → attempt_known db k i.
Proof.
  intros Hrun. induction Hrun as [|os db o db' Hrun IH H]; [by intros ?%elem_of_nil|]. intros Hi.
  pose proof (run_rows_ok _ _ Hrun) as Hok. pose proof (run_wf _ _ Hrun) as Hwf.
  assert (i ∈ issued_attempts k os → attempt_known db' k i) as Hlater
    by (intros; eapply attempt_known_step; eauto).
  destruct o; simpl in Hi; auto. case_decide as Heq; [|auto].
  apply elem_of_cons in Hi as [->|Hi]; [|auto]. subst.
  destruct (apply_changed db (OpStart k a now) db' Hok) as (r & r' & Hr & Hs & Hdb & _); [done|done|].
  right. destruct (record_step_attempt _ _ _ _ (attempt_id a) (Hwf _ _ Hr) Hs) as [_ (a' & Ha' & Hid)].
  { right. eauto. }
  exists r', a'. rewrite Hdb. simpl. by rewrite lookup_insert_eq.
Qed.

(** C11: every store the reconciler can reach is well formed, for any number of
    writers and any order of their operations: a record has a leased attempt
    exactly once it has left [NeedsReview], a verdict exactly from the verdict
    on, at most one intent per effect, a verdict receipt from
    [AwaitingChecks] on, a merge intent only while landing and a merge receipt
    exactly when landed; intents have distinct identifiers, a receipt ends
    their retry permission, and every archived identifier is remembered. *)
Theorem reconciler_wf os db : run os db → store_wf db.
Proof. apply run_wf. Qed.

(** no identifier is used twice for a key, over any run: neither an intent
    identifier, on which the remote deduplicates effects, nor an attempt
    identifier, although archived attempts are pruned from the record. *)
Theorem ids_never_reused os db k :
  run os db → NoDup (issued_intents k os) ∧ NoDup (issued_attempts k os).
Proof.
  intros Hrun. induction Hrun as [|os db o db' Hrun [IHi IHa] H]; [split; constructor|].
  pose proof (run_rows_ok _ _ Hrun) as Hok. pose proof (run_wf _ _ Hrun) as Hwf.
  split; destruct o; try done; simpl; case_decide as Heq; try done; subst; apply list.NoDup_cons;
    (split; [|done]).
  - intros Hi%issued_intents_elem. destruct Hi as (o & Ho & Hn).
    eapply intent_is_new; eauto using named_known.
  - intros Hi. eapply attempt_is_new; eauto using issued_attempts_known.
Qed.

(** ** Retries *)

Definition is_retry (k : Key) (i : string) (o : op) : bool :=
  match o with OpRetry k' _ _ _ i' => (k' == k) && (i' == i) | _ => false end.
Definition is_found (k : Key) (i : string) (o : op) : bool :=
  match o with OpReconcile k' i' _ (Found _) => (k' == k) && (i' == i) | _ => false end.

(** How often an intent was retried. *)
Definition retries (k : Key) (i : string) (os : list op) : Z := len (List.filter (is_retry k i) os).

(** The last operation on the intent observed it absent, at the generation of
    its last retry. *)
Definition absent_last (k : Key) (i : string) (os : list op) : Prop :=
  ∃ os1 os2, os = os1 ++ OpReconcile k i (retries k i os2) Absent :: os2 ∧
             Forall (λ o, ¬ names_intent k i o) os1.

Definition intent_trace (os : list op) (k : Key) (r : WorkRecord) : Prop :=
  ∀ i, i ∈ all_intents r →
    generation i = retries k (id i) os ∧
    (retryable i = true → absent_last k (id i) os) ∧
    (existsb (is_found k (id i)) os = true → is_Some (receipt i)).

Lemma unnamed_later k i o os :
  ¬ names_intent k i o →
  retries k i (o :: os) = retries k i os ∧ (absent_last k i os → absent_last k i (o :: os)) ∧
  existsb (is_found k i) (o :: os) = existsb (is_found k i) os.
Proof.
  intros Hn. split_and!.
  - unfold retries. simpl. destruct o as [| | | | | | |k' aid owner now i']; try done. simpl in *.
    destruct (_ && _) eqn:E; [|done]. bool_prop. by destruct Hn.
  - intros (os1 & os2 & -> & Hos1). exists (o :: os1), os2. split; [done|]. by constructor.
  - simpl. destruct o as [| | | | | |k' i' g [| |rc]|]; try done. simpl in *.
    destruct (_ && _) eqn:E; [|done]. bool_prop. by destruct Hn.
Qed.

Lemma unnamed_none k i os :
  (∀ o, o ∈ os → ¬ names_intent k i o) → retries k i os = 0 ∧ existsb (is_found k i) os = false.
Proof.
  induction os as [|o os IH]; intros Hn; [done|].
  destruct (unnamed_later k i o os) as (-> & _ & ->); [apply Hn; set_solver|].
  apply IH. intros o' Ho'. apply Hn. set_solver.
Qed.

Lemma names_intent_key k i o : names_intent k i o → op_key o = k.
Proof. destruct o; simpl; naive_solver. Qed.

(** Intents an operation does not name keep their trace. *)
Lemma intent_trace_unnamed os o k r r' :
  intent_trace os k r →
  (∀ i, i ∈ all_intents r' → i ∈ all_intents r ∧ ¬ names_intent k (id i) o) →
  intent_trace (o :: os) k r'.
Proof.
  intros Ht Hsub i Hi. destruct (Hsub i Hi) as [Hi0 Hn]. destruct (Ht i Hi0) as (Hg & Hr & Hf).
  destruct (unnamed_later k (id i) o os Hn) as (-> & Habs & ->). auto.
Qed.

Lemma reopened_intents r i : i ∈ all_intents (reopened (archive r)) → i ∈ all_intents r.
Proof.
  unfold all_intents. simpl. intros (h & [Hh _]%bfilter_elem & Hi)%archived_elem.
  rewrite elem_of_app, archived_elem.
  apply elem_of_app in Hh as [Hh| ->%list_elem_of_singleton]; [eauto|by left].
Qed.

Lemma retries_reconcile k i g o os : retries k i (OpReconcile k i g o :: os) = retries k i os.
Proof. done. Qed.
Lemma retries_retry k aid owner now i os :
  retries k i (OpRetry k aid owner now i :: os) = retries k i os + 1.
Proof. unfold retries, len. simpl. rewrite !bool_decide_eq_true_2 by done. simpl. lia. Qed.

Lemma intent_trace_reconcile os k i g o r r' :
  NoDup (id <$> all_intents r) → Forall intent_wf (all_intents r) → intent_trace os k r →
  reconcile_record i g o r = Ok r' → intent_trace (OpReconcile k i g o :: os) k r'.
Proof.
  intros Hnd Hwf Ht H. pose proof H as (j & Hj & Hid & Hg & Hcase)%reconcile_record_Ok; [|done].
  destruct (Ht j Hj) as (Hgj & Hrj & Hfj).
  assert (∀ j', j' ∈ all_intents r → id j' = i → j' = j) as Hone.
  { intros j' Hj' Hid'. apply (NoDup_key_inj id (all_intents r)); congruence. }
  assert (∀ j', j' ∈ all_intents r → id j' ≠ i → ¬ names_intent k (id j') (OpReconcile k i g o)) as Hun
    by (intros j' _ Hne [_ ?]; congruence).
  destruct Hcase as [[Hrc ->]|(Hrc & Ho & s & -> & _)].
  - intros j' Hj'. destruct (decide (id j' = i)) as [Hji|Hji].
    + rewrite (Hone j' Hj' Hji), Hid. rewrite retries_reconcile. split_and!; [by rewrite <-Hid| |auto].
      rewrite list.Forall_forall in Hwf. destruct Hrc as [rc Hrc].
      destruct (iwf_receipt _ (Hwf j Hj) rc Hrc) as [_ ->]. done.
    + destruct (unnamed_later k (id j') _ os (Hun j' Hj' Hji)) as (-> & Habs & ->).
      destruct (Ht j' Hj') as (? & ? & ?). auto.
  - intros j' Hj'. change (j' ∈ all_intents (map_intents (on_intent i (observed_intent o)) r)) in Hj'.
    rewrite map_intents_all in Hj'. apply list_elem_of_fmap in Hj' as (j0 & -> & Hj0).
    unfold on_intent. destruct (decide (id j0 = i)) as [Hji|Hji].
    + rewrite bool_decide_eq_true_2 by done. rewrite (Hone j0 Hj0 Hji).
      assert (id (observed_intent o j) = i) as -> by (by destruct o).
      assert (generation (observed_intent o j) = g) as -> by (by destruct o).
      rewrite retries_reconcile. rewrite <-Hid. rewrite <-Hg, Hgj. split_and!; [done| |].
      * destruct o; simpl; try done. intros _. exists [], os. by split.
      * destruct o as [| |rc]; simpl; [..|eauto]; intros [? ?]%Hfj; congruence.
    + rewrite bool_decide_eq_false_2 by done.
      destruct (unnamed_later k (id j0) _ os (Hun j0 Hj0 Hji)) as (-> & Habs & ->).
      destruct (Ht j0 Hj0) as (? & ? & ?). auto.
Qed.

Lemma intent_trace_retry os k aid owner now i r r' :
  NoDup (id <$> all_intents r) → intent_trace os k r →
  retry_record aid owner now i r = Ok r' → intent_trace (OpRetry k aid owner now i :: os) k r'.
Proof.
  intros Hnd Ht (_ & _ & _ & j & Hj & Hid & _ & Hrc & _ & ->)%retry_record_Ok; [|done].
  intros j' Hj'. rewrite map_intents_all in Hj'. apply list_elem_of_fmap in Hj' as (j0 & -> & Hj0).
  destruct (Ht j0 Hj0) as (Hg & Hr & Hf).
  unfold on_intent. destruct (decide (id j0 = i)) as [Hji|Hji].
  - rewrite bool_decide_eq_true_2 by done. simpl id. simpl generation. rewrite Hji in *.
    rewrite retries_retry. split_and!; [lia|done|]. simpl. auto.
  - rewrite bool_decide_eq_false_2 by done.
    assert (¬ names_intent k (id j0) (OpRetry k aid owner now i)) as Hn by (intros [_ ?]; congruence).
    destruct (unnamed_later k (id j0) _ os Hn) as (-> & Habs & ->). auto.
Qed.

(** Steps that keep the intents of the record. *)
Lemma record_step_keeps used o r r' :
  record_step used o r = Ok r' →
  match o with
  | OpIntent _ _ _ _ _ _ | OpReconcile _ _ _ _ | OpRetry _ _ _ _ _ => True
  | _ => intents r' = intents r ∧ history r' = history r
  end.
Proof.
  destruct o; simpl; try done; unfold renew_record, verdict_record, transition_record;
    intros H; by ok_inv.
Qed.

Lemma run_intent_trace os db k r :
  run os db → pr_work db !! k = Some r → intent_trace os k r.
Proof.
  revert os db k r. apply run_row_ind. intros os db o db' k r' Hrun Hwf H IH Hs.
  destruct Hs as [r' Hne Hns Hr|r' -> Hr Hc|k' r -> Hs Hr| -> Hr|r -> Hr Hc|r r' Hk Hr Hs].
  - apply (intent_trace_unnamed os o k r'); [auto|]. intros i Hi. split; [done|].
    by intros Hn%names_intent_key.
  - apply (intent_trace_unnamed os _ k r'); auto.
  - apply (intent_trace_unnamed os _ k r); auto.
  - by intros i ?%elem_of_nil.
  - apply (intent_trace_unnamed os _ k r); [auto|]. intros i Hi%reopened_intents. auto.
  - pose proof (Hwf _ _ Hr) as Hrw. specialize (IH r Hr).
    destruct o as [| | | | |k' aid owner now i e|k' i g ob|k' aid owner now i];
      pose proof (record_step_keeps _ _ _ _ Hs) as Hkeep;
      try (apply (intent_trace_unnamed os _ k r); [done|]; unfold all_intents;
           rewrite (proj1 Hkeep), (proj2 Hkeep); by auto);
      simpl in Hk; subst k'.
    + pose proof (intent_is_new db k aid owner now i e db' (run_rows_ok _ _ Hrun) Hwf H) as Hnew.
      apply intent_record_Ok in Hs as (_ & _ & _ & _ & _ & Hid & ->). intros j Hj.
      change (j ∈ (intents r ++ [mkIntent i e None false 0]) ++ flat_map h_intents (history r)) in Hj.
      assert (j ∈ all_intents r ∨ j = mkIntent i e None false 0) as [Hj0| ->].
      { unfold all_intents. rewrite !elem_of_app, list_elem_of_singleton in *. tauto. }
      * destruct (IH j Hj0) as (? & ? & ?).
        destruct (unnamed_later k (id j) (OpIntent k aid owner now i e) os) as (-> & Habs & ->); [|by auto].
        intros [_ Heq]. by apply (Hid j).
      * destruct (unnamed_none k i os) as [Hz Hf].
        { intros o Ho Hn. apply Hnew. by eapply named_known. }
        simpl. split_and!; [done|done|]. by rewrite Hf.
    + by eapply intent_trace_reconcile; destruct Hrw.
    + by eapply intent_trace_retry; destruct Hrw.
Qed.

(** C13: a permission to issue an effect again is never given blindly.  When a
    retry of an intent is granted, the last operation on that intent was an
    observation that found the effect absent, made at the generation of the
    intent's last retry; since then there was no retry and no other
    observation of it, and no observation has ever found the effect. *)
Theorem retry_needs_absence os db k aid owner now i :
  run (OpRetry k aid owner now i :: os) db →
  absent_last k i os ∧ existsb (is_found k i) os = false.
Proof.
  intros H. inversion H as [|os' db0 o db' Hrun Ha]; subst.
  apply apply_changed in Ha as (r & r' & Hr & Hs & _); [|by eapply run_rows_ok|done].
  pose proof (run_wf _ _ Hrun _ _ Hr) as Hwf. simpl in Hr, Hwf.
  apply retry_record_Ok in Hs as (_ & _ & _ & j & Hj & <- & Hrt & Hrc & _); [|by destruct Hwf].
  destruct (run_intent_trace _ _ _ _ Hrun Hr j) as (_ & Habs & Hf); [unfold all_intents; set_solver|].
  split; [auto|]. apply not_true_is_false. intros [? ?]%Hf. congruence.
Qed.

(** ** The way to a landing *)

Inductive milestone :=
| MStarted | MVerdict | MIntent (i : string) | MPublished | MChecks | MLandable
| MMerge (i : string) | MLanded.

(** [passed k aid m os]: attempt [aid] of [k] went through the operations that
    lead to [m], in this order, among the operations [os] (newest first). *)
Inductive passed (k : Key) (aid : string) : milestone → list op → Prop :=
| passed_start a now os : attempt_id a = aid → passed k aid MStarted (OpStart k a now :: os)
| passed_verdict owner now v os : passed k aid MStarted os →
    passed k aid MVerdict (OpVerdict k aid owner now v :: os)
| passed_intent owner now i os : passed k aid MVerdict os →
    passed k aid (MIntent i) (OpIntent k aid owner now i EffectVerdict :: os)
| passed_published i g rc os : passed k aid (MIntent i) os →
    passed k aid MPublished (OpReconcile k i g (Found rc) :: os)
| passed_checks owner now os : passed k aid MPublished os →
    passed k aid MChecks (OpTransition k aid owner now AwaitingChecks :: os)
| passed_landable owner now os : passed k aid MChecks os →
    passed k aid MLandable (OpTransition k aid owner now Landable :: os)
| passed_merge owner now i os : passed k aid MLandable os →
    passed k aid (MMerge i) (OpIntent k aid owner now i EffectMerge :: os)
| passed_landed i g rc os : passed k aid (MMerge i) os →
    passed k aid MLanded (OpReconcile k i g (Found rc) :: os)
| passed_later m o os : passed k aid m os → passed k aid m (o :: os).

Definition landable (s : State) : bool :=
  match s with Landable | Landing | Landed => true | _ => false end.

Definition intent_passed (k : Key) (aid : string) (os : list op) (i : Intent) : Prop :=
  match effect i with
  | EffectVerdict => passed k aid (MIntent (id i)) os ∧ (is_Some (receipt i) → passed k aid MPublished os)
  | EffectMerge => passed k aid (MMerge (id i)) os ∧ (is_Some (receipt i) → passed k aid MLanded os)
  end.

Record record_passed (os : list op) (k : Key) (r : WorkRecord) (aid : string) : Prop := {
  rp_started : passed k aid MStarted os;
  rp_verdict : reviewed (state r) = true → passed k aid MVerdict os;
  rp_checks : checked (state r) = true → passed k aid MChecks os;
  rp_landable : landable (state r) = true → passed k aid MLandable os;
  rp_intents : ∀ i, i ∈ intents r → intent_passed k aid os i;
}.
Definition attempt_passed (os : list op) (k : Key) (r : WorkRecord) : Prop :=
  ∀ a, attempt r = Some a → record_passed os k r (attempt_id a).

Lemma intent_passed_later k aid o os i : intent_passed k aid os i → intent_passed k aid (o :: os) i.
Proof. unfold intent_passed. destruct (effect i); intros [? ?]; split; auto using passed. Qed.

Lemma record_passed_later os o k r aid : record_passed os k r aid → record_passed (o :: os) k r aid.
Proof. intros []. constructor; auto using passed, intent_passed_later. Qed.

(** A step within an attempt: the state may change, the intents are those
    given. *)
Lemma record_passed_step os o k r aid r' :
  record_passed os k r aid →
  (state r' = state r ∨
   (reviewed (state r') = true → passed k aid MVerdict (o :: os)) ∧
   (checked (state r') = true → passed k aid MChecks (o :: os)) ∧
   (landable (state r') = true → passed k aid MLandable (o :: os))) →
  (∀ i, i ∈ intents r' → intent_passed k aid (o :: os) i) →
  record_passed (o :: os) k r' aid.
Proof.
  intros [] Hs Hi. constructor; auto using passed; destruct Hs as [->|(? & ? & ?)]; auto using passed.
Qed.

Lemma reconcile_passed os k i g o r r' used aid :
  record_wf used k r → record_passed os k r aid → reconcile_record i g o r = Ok r' →
  record_passed (OpReconcile k i g o :: os) k r' aid.
Proof.
  intros Hwf Hp H. apply reconcile_record_Ok in H as (j & Hj & Hid & Hg & Hcase); [|by destruct Hwf].
  destruct Hcase as [[_ ->]|(Hrc & Ho & s & -> & Hs)]; [by apply record_passed_later|].
  pose proof Hp as []. apply (record_passed_step os _ k r); [done| |].
  - simpl. destruct o as [| |rc]; [by left..|]. destruct (_ && _) eqn:E; [|by left].
    bool_prop. destruct E as [Hc He]. right. destruct (rwf_merge _ _ _ Hwf j Hc He) as [[Hst _]|[_ [? ?]]];
      [|congruence]. rewrite Hst in *. split_and!; intros _; apply passed_later; auto.
  - simpl. intros i' (j0 & -> & Hj0)%list_elem_of_fmap. unfold on_intent.
    destruct (decide (id j0 = i)) as [Hji|Hji].
    2: { rewrite bool_decide_eq_false_2 by done. by apply intent_passed_later, rp_intents0. }
    rewrite bool_decide_eq_true_2 by done. specialize (rp_intents0 j0 Hj0).
    destruct o as [| |rc]; [by apply (intent_passed_later k aid _ os j0)..|].
    unfold intent_passed in *. simpl. destruct (effect j0); destruct rp_intents0 as [Hi _];
      (split; [by apply passed_later|intros _]).
    + rewrite Hji in Hi. by apply (passed_published k aid i).
    + rewrite Hji in Hi. by apply (passed_landed k aid i).
Qed.

Lemma leased_id r aid owner now a :
  leased r aid owner now = Ok tt → attempt r = Some a → attempt_id a = aid.
Proof. intros (_ & a' & -> & Hid & _)%leased_Ok [= <-]. done. Qed.

Lemma transition_passed os k aid owner now next used r r' :
  record_wf used k r → record_passed os k r aid → transition_record aid owner now next r = Ok r' →
  record_passed (OpTransition k aid owner now next :: os) k r' aid.
Proof.
  intros Hwf Hp H. unfold transition_record in H. apply result_seq_Ok in H as [_ H].
  apply result_guard_Ok in H as [Ht H]. apply result_guard_Ok in H as [Hc H]. injection H as <-.
  bool_prop. pose proof Hp as []. apply (record_passed_step os _ k r); [done| |].
  2: { simpl. intros i Hi. by apply intent_passed_later, rp_intents0. }
  right. simpl. destruct (state r) eqn:Hst, next; try done; simpl in *;
    split_and!; intros ?; try done; try (by apply passed_later; auto).
  - destruct Hc as [?|(i & Hi & Hie)]; [done|]. bool_prop. destruct Hie as [He [rc Hr]].
    specialize (rp_intents0 i Hi). unfold intent_passed in rp_intents0. rewrite He in rp_intents0.
    apply passed_checks, rp_intents0. eauto.
  - apply passed_landable. auto.
Qed.

Lemma intent_op_passed os k aid owner now i e used r r' :
  record_passed os k r aid → record_step used (OpIntent k aid owner now i e) r = Ok r' →
  record_passed (OpIntent k aid owner now i e :: os) k r' aid.
Proof.
  intros Hp (_ & _ & Hs & _ & _ & _ & ->)%intent_record_Ok. pose proof Hp as [].
  apply (record_passed_step os _ k r); [done|right|].
  - rewrite Hs in *. simpl. destruct e; simpl in *; split_and!; intros; try done; apply passed_later; auto.
  - simpl. intros j [Hj|Hj]%elem_of_app; [by apply intent_passed_later, rp_intents0|].
    apply list_elem_of_singleton in Hj as ->. unfold intent_passed. simpl. rewrite Hs in *.
    destruct e; simpl in *; (split; [|by intros [? ?]]).
    + apply passed_intent; auto.
    + apply passed_merge; auto.
Qed.

Lemma retry_passed os k aid owner now i used r r' aid' :
  record_wf used k r → record_passed os k r aid' → retry_record aid owner now i r = Ok r' →
  record_passed (OpRetry k aid owner now i :: os) k r' aid'.
Proof.
  intros Hwf Hp H. apply retry_record_Ok in H as (_ & _ & _ & j & _ & _ & _ & _ & _ & ->); [|by destruct Hwf].
  apply (record_passed_step os _ k r); [done|by left|].
  simpl. intros j' (j0 & -> & Hj0)%list_elem_of_fmap. apply intent_passed_later.
  pose proof (rp_intents _ _ _ _ Hp j0 Hj0). unfold on_intent. by destruct (_ == _).
Qed.

Lemma record_step_passed os o used r r' :
  record_wf used (op_key o) r → attempt_passed os (op_key o) r → record_step used o r = Ok r' →
  attempt_passed (o :: os) (op_key o) r'.
Proof.
  intros Hwf Hp H a Ha.
  destruct o as [k|k a0 now|k aid owner now until|k aid owner now v
    |k aid owner now next|k aid owner now i e|k i g o|k aid owner now i]; [done|..]; simpl op_key in *.
  - simpl in H. ok_inv. bool_prop. destruct Hguard0 as [[[_ Hs] _] _].
    destruct (rwf_unreviewed _ _ _ Hwf) as [_ Hin]; [by left|]. injection Ha as <-.
    constructor; simpl; try done; [by apply passed_start|]. rewrite Hin. by intros i ?%elem_of_nil.
  - simpl in H. unfold renew_record in H. ok_inv. pose proof (Hp _ H0) as Hx. injection Ha as <-. simpl.
    apply (record_passed_step os _ k r); [done|by left|]. simpl. intros i Hi.
    by apply intent_passed_later, Hx.
  - simpl in H. unfold verdict_record in H. apply result_seq_Ok in H as [Hl H]. ok_inv. bool_prop.
    destruct Hguard as [[Hs _] _]. pose proof (leased_id _ _ _ _ _ Hl Ha) as <-.
    pose proof (Hp _ Ha) as Hx. apply (record_passed_step os _ k r); [done|right|].
    + simpl. split_and!; intros; try done. by apply passed_verdict, Hx.
    + simpl. intros i Hi. by apply intent_passed_later, Hx.
  - simpl in H. pose proof H as H'. unfold transition_record in H'. apply result_seq_Ok in H' as [Hl H'].
    ok_inv. pose proof (leased_id _ _ _ _ _ Hl Ha) as <-. eapply transition_passed; eauto.
  - pose proof H as (_ & Hl & _ & _ & _ & _ & ->)%intent_record_Ok. simpl in Ha.
    pose proof (leased_id _ _ _ _ _ Hl Ha) as <-. eapply intent_op_passed; eauto.
  - assert (attempt r = Some a) as Ha0.
    { pose proof H as (j & _ & _ & _ & [[_ ->]|(_ & _ & s & -> & _)])%reconcile_record_Ok; [done..|].
      by destruct Hwf. }
    eapply reconcile_passed; eauto.
  - assert (attempt r = Some a) as Ha0.
    { pose proof H as (_ & _ & _ & j & _ & _ & _ & _ & _ & ->)%retry_record_Ok; [done|]. by destruct Hwf. }
    eapply retry_passed; eauto.
Qed.

Lemma run_attempt_passed os db k r :
  run os db → pr_work db !! k = Some r → attempt_passed os k r.
Proof.
  revert os db k r. apply run_row_ind. intros os db o db' k r' Hrun Hwf H IH Hs.
  destruct Hs as [r' Hne Hns Hr|r' -> Hr Hc|k' r -> Hs Hr| -> Hr|r -> Hr Hc|r r' Hk Hr Hs].
  - intros a Ha. by apply record_passed_later, IH.
  - intros a Ha. by apply record_passed_later, IH.
  - intros a Ha. destruct (IH r Hr a Ha). constructor; simpl; auto using passed, intent_passed_later.
  - done.
  - done.
  - subst k. eapply record_step_passed; eauto.
Qed.

(** C35: work lands only through the whole pipeline.  A record that reads as
    landed has an attempt whose operations are, in this order: the start, the
    verdict, the intent to publish it, an observation that found the published
    verdict, the transitions to the checks and to landable, the merge intent,
    and an observation that found the merge; all under the attempt's own
    identifier and the intents' own identifiers. *)
Theorem landed_through_pipeline os db k r :
  run os db → pr_work db !! k = Some r → state r = Landed →
  ∃ a, attempt r = Some a ∧ passed k (attempt_id a) MLanded os.
Proof.
  intros Hrun Hr Hs. pose proof (run_wf _ _ Hrun _ _ Hr) as Hwf.
  destruct (attempt r) as [a|] eqn:Ha; [|apply (rwf_attempt _ _ _ Hwf) in Ha; congruence].
  exists a. split; [done|]. destruct (rwf_landing _ _ _ Hwf (or_intror Hs)) as (i & Hi & He).
  pose proof (rp_intents _ _ _ _ (run_attempt_passed _ _ _ _ Hrun Hr a Ha) i Hi) as Hp.
  unfold intent_passed in Hp. rewrite He in Hp. apply Hp.
  destruct (rwf_merge _ _ _ Hwf i Hi He) as [[? _]|[_ ?]]; [congruence|done].
Qed.

(** ** Superseded heads *)

(** The operations that act for an attempt. *)
Definition acts_on (k : Key) (o : op) : Prop :=
  match o with
  | OpStart k' _ _ | OpRenew k' _ _ _ _ | OpVerdict k' _ _ _ _ | OpTransition k' _ _ _ _
  | OpIntent k' _ _ _ _ _ | OpRetry k' _ _ _ _ => k' = k
  | OpObserve _ | OpReconcile _ _ _ _ => False
  end.

(** The last observed head of the pull request of [k], as far as it concerns
    [k], is the head of [k]. *)
Definition observed_last (k : Key) (os : list op) : Prop :=
  ∃ os1 os2, os = os1 ++ OpObserve k :: os2 ∧
             Forall (λ o, ∀ k', o = OpObserve k' → ¬ superseded_by k k') os1.

Lemma observed_last_later k o os :
  (∀ k', o = OpObserve k' → ¬ superseded_by k k') → observed_last k os → observed_last k (o :: os).
Proof. intros Ho (os1 & os2 & -> & Hos1). exists (o :: os1), os2. split; [done|]. by constructor. Qed.

Lemma run_observed_last os db k r :
  run os db → pr_work db !! k = Some r → cancelled r = false → observed_last k os.
Proof.
  intros Hrun Hr. revert os db k r Hrun Hr.
  apply (run_row_ind (λ os k r, cancelled r = false → observed_last k os)).
  intros os db o db' k r' Hrun Hwf H IH Hs Hc'.
  destruct Hs as [r' Hne Hns Hr|r' -> Hr Hc|k' r -> Hs Hr| -> Hr|r -> Hr Hc|r r' Hk Hr Hs];
    try (by exists [], os); try done.
  - apply observed_last_later; [done|]. by apply (IH r').
  - apply observed_last_later; [by intros k' ->|]. apply (IH r Hr).
    by apply record_step_frame in Hs as (_ & _ & <-).
Qed.

(** The operations that act refuse a cancelled record. *)
Lemma acts_uncancelled used o r r' :
  acts_on (op_key o) o → record_step used o r = Ok r' → cancelled r = false.
Proof.
  destruct o; simpl; try done; intros _ H.
  - ok_inv. bool_prop. naive_solver.
  - unfold renew_record in H. by ok_inv.
  - unfold verdict_record in H. apply result_seq_Ok in H as [[? _]%leased_Ok _]. done.
  - unfold transition_record in H. apply result_seq_Ok in H as [[? _]%leased_Ok _]. done.
  - apply result_guard_Ok in H as [_ H]. apply result_seq_Ok in H as [[? _]%leased_Ok _]. done.
  - unfold retry_record in H. apply result_seq_Ok in H as [[? _]%leased_Ok _]. done.
Qed.

(** a superseded head cannot act.  Whenever a start, renewal, verdict,
    transition, intent or retry succeeds for a key, the key's own head was
    observed before, and no other head of the same pull request has been
    observed since. *)
Theorem superseded_head_cannot_act os db o k :
  run (o :: os) db → acts_on k o → observed_last k os.
Proof.
  intros H Hact. inversion H as [|os' db0 o' db' Hrun Ha]; subst.
  assert (op_key o = k) as <- by (by destruct o).
  apply apply_changed in Ha as (r & r' & Hr & Hs & _); [|by eapply run_rows_ok|by destruct o].
  eapply run_observed_last; eauto using acts_uncancelled.
Qed.

(** ** Observations of the remote *)

(** A retry in between makes an observation stale. *)
Lemma stale_generation db k r i g o j :
  rows_ok db → pr_work db !! k = Some r → List.find (λ j, id j == i) (all_intents r) = Some j →
  generation j ≠ g → reconcile db k i g o = Err Uncertain.
Proof.
  intros Hok Hr Hf Hg. unfold reconcile, update. rewrite (proj2 (get_from_Ok db k r Hok) Hr). simpl.
  unfold reconcile_record. rewrite Hf. simpl. by rewrite bool_decide_eq_false_2.
Qed.

Lemma find_intent r i j :
  NoDup (id <$> all_intents r) → j ∈ all_intents r → id j = i →
  List.find (λ j, id j == i) (all_intents r) = Some j.
Proof.
  intros Hnd Hj Hid. destruct (List.find _ _) as [j'|] eqn:E.
  - apply find_Some_elem in E as [Hj' Hid']. bool_prop. f_equal.
    apply (NoDup_key_inj id (all_intents r)); congruence.
  - rewrite find_None_elem in E. specialize (E j Hj). bool_prop. done.
Qed.

Lemma retries_app k i later os : retries k i (later ++ os) = retries k i later + retries k i os.
Proof. unfold retries, len. rewrite List.filter_app, length_app. lia. Qed.

Lemma retries_pos k i os : existsb (is_retry k i) os = true → 0 < retries k i os.
Proof.
  unfold retries, len. induction os as [|o os IH]; simpl; [done|].
  destruct (is_retry k i o); simpl; [lia|]. auto.
Qed.

(** an observation is fenced by the generation it was started at.  The
    remote is queried between two transactions; if other writers have retried
    the intent in between, the observation is refused (as uncertain, or as
    missing when the intent was settled and pruned) and the store stays as the
    other writers left it, whatever the remote answered. *)
Theorem stale_observation_refused os db later db' k i observe r j :
  run os db → run (later ++ os) db' →
  pr_work db !! k = Some r → j ∈ all_intents r → id j = i → receipt j = None →
  existsb (is_retry k i) later = true →
  reconcile_remote db k i observe (λ _, db') = Err Uncertain ∨
  reconcile_remote db k i observe (λ _, db') = Err Missing.
Proof.
  intros Hrun Hrun' Hr Hj Hid Hrc Hlater%retries_pos.
  pose proof (rwf_ids _ _ _ (run_wf _ _ Hrun _ _ Hr)) as Hnd.
  destruct (run_intent_trace _ _ _ _ Hrun Hr j Hj) as (Hg & _).
  unfold reconcile_remote.
  rewrite (proj2 (get_from_Ok db k r (run_rows_ok _ _ Hrun)) Hr). simpl.
  rewrite (find_intent r i j) by done. simpl. rewrite Hrc. simpl.
  pose proof (run_rows_ok _ _ Hrun') as Hok'.
  destruct (pr_work db' !! k) as [r'|] eqn:Hr'.
  2: { right. unfold reconcile, update, get_from. by rewrite Hr'. }
  destruct (List.find (λ j, id j == i) (all_intents r')) as [j'|] eqn:Hf.
  - left. eapply stale_generation; [done|exact Hr'|exact Hf|].
    apply find_Some_elem in Hf as [Hj' Hid']. bool_prop.
    destruct (run_intent_trace _ _ _ _ Hrun' Hr' j' Hj') as (Hg' & _).
    rewrite Hg', Hg, Hid', Hid, retries_app. lia.
  - right. unfold reconcile, update. rewrite (proj2 (get_from_Ok db' k r' Hok') Hr'). simpl.
    unfold reconcile_record. by rewrite Hf.
Qed.

(** ** A concrete run

    One head is reviewed, its verdict published after a lost answer and a
    retry, and merged. *)

(** Runs the operations, oldest last; a refused one changes nothing. *)
Fixpoint exec (os : list op) : Store :=
  match os with
  | [] => open
  | o :: os' => match apply (exec os') o with Ok db => db | Err _ => exec os' end
  end.
Fixpoint exec_ok (os : list op) : bool :=
  match os with
  | [] => true
  | o :: os' => is_ok (apply (exec os') o) && exec_ok os'
  end.
Lemma exec_run os : exec_ok os = true → run os (exec os).
Proof.
  induction os as [|o os IH]; simpl; [constructor|]. intros [Ho Hos]%andb_true_iff.
  apply is_ok_true in Ho as [db Hdb]. rewrite Hdb. econstructor; eauto.
Qed.

Definition ex_key : Key := mkKey "mblauberg/provenant" 7 "c0ffee" "p1" "default" "b1".
Definition ex_next : Key := mkKey "mblauberg/provenant" 7 "decade" "p1" "default" "b1".
Definition ex_published : list op :=
  [ OpRetry ex_key "a1" "alice" 14 "i1";
    OpReconcile ex_key "i1" 0 Absent;
    OpReconcile ex_key "i1" 0 Unknown;
    OpIntent ex_key "a1" "alice" 12 "i1" EffectVerdict;
    OpVerdict ex_key "a1" "alice" 11 "approve";
    OpStart ex_key (mkAttempt "a1" "alice" 100) 10;
    OpObserve ex_key ].
Definition ex_landed : list op :=
  [ OpReconcile ex_key "i2" 0 (Found "merge-9");
    OpIntent ex_key "a1" "alice" 18 "i2" EffectMerge;
    OpTransition ex_key "a1" "alice" 17 Landable;
    OpTransition ex_key "a1" "alice" 16 AwaitingChecks;
    OpReconcile ex_key "i1" 1 (Found "review-4") ] ++ ex_published.

Lemma ex_landed_run : run ex_landed (exec ex_landed).
Proof. apply exec_run. vm_compute. reflexivity. Qed.
Lemma ex_published_run : run ex_published (exec ex_published).
Proof. apply exec_run. vm_compute. reflexivity. Qed.

Lemma reconciler_wf_witness : run ex_landed (exec ex_landed) ∧ store_wf (exec ex_landed).
Proof. split; [exact ex_landed_run|exact (reconciler_wf _ _ ex_landed_run)]. Defined.

Lemma ids_never_reused_witness :
  issued_intents ex_key ex_landed = ["i2"; "i1"] ∧ NoDup (issued_intents ex_key ex_landed).
Proof. split; [reflexivity|]. exact (proj1 (ids_never_reused _ _ ex_key ex_landed_run)). Defined.

Lemma retry_needs_absence_witness : absent_last ex_key "i1" (tail ex_published).
Proof. exact (proj1 (retry_needs_absence _ _ _ _ _ _ _ ex_published_run)). Defined.

Lemma landed_through_pipeline_witness : passed ex_key "a1" MLanded ex_landed.
Proof.
  destruct (pr_work (exec ex_landed) !! ex_key) as [r|] eqn:Hr; [|vm_compute in Hr; discriminate].
  assert (state r = Landed ∧ attempt_id <$> attempt r = Some "a1") as [Hs Hid].
  { vm_compute in Hr. injection Hr as <-. split; reflexivity. }
  destruct (landed_through_pipeline _ _ _ _ ex_landed_run Hr Hs) as (a & Ha & Hp).
  rewrite Ha in Hid. injection Hid as <-. exact Hp.
Defined.

Lemma superseded_head_cannot_act_witness :
  observed_last ex_key (tail ex_published) ∧
  apply (exec (OpObserve ex_next :: ex_published)) (OpRenew ex_key "a1" "alice" 15 200) = Err Invalid.
Proof.
  split; [|vm_compute; reflexivity].
  exact (superseded_head_cannot_act _ _ _ ex_key ex_published_run eq_refl).
Defined.

Lemma stale_observation_refused_witness :
  reconcile_remote (exec (tail ex_published)) ex_key "i1" (λ _ _, Found "review-4")
    (λ _, exec ex_published) = Err Uncertain.
Proof.
  assert (run (tail ex_published) (exec (tail ex_published))) as Hrun
    by (apply exec_run; vm_compute; reflexivity).
  assert (∃ r j, pr_work (exec (tail ex_published)) !! ex_key = Some r ∧ j ∈ all_intents r ∧
                 id j = "i1" ∧ receipt j = None) as (r & j & Hr & Hj & Hid & Hrc).
  { destruct (pr_work (exec (tail ex_published)) !! ex_key) as [r|] eqn:Hr;
      [|vm_compute in Hr; discriminate].
    vm_compute in Hr. injection Hr as <-. eexists _, _. split; [reflexivity|].
    split; [apply list_elem_of_here|done]. }
  destruct (stale_observation_refused _ _ [OpRetry ex_key "a1" "alice" 14 "i1"] _ ex_key "i1"
              (λ _ _, Found "review-4") r j Hrun ex_published_run Hr Hj Hid Hrc eq_refl) as [H|H];
    [exact H|]. exfalso. vm_compute in H. discriminate.
Defined.
