(* ===== verification/JsonDocument.v ===== *)
(** * JsonDocument: the validator every stored record passes before it is decoded

    Models [crates/records/src/json.rs]: bounded reading, the hand-written
    validator (syntax, duplicate members, number range, nesting and member
    bounds), the rewriting of negative zeroes and the two decoders.

    The validator's [input] and [limits] are fixed, so they are section
    variables; its other fields are the record [JsonValidator].  Loops over the
    input are structural on what is left of it; the recursion of values,
    objects and arrays runs on fuel, and [Err None] means that the fuel ran
    out, [Err (Some e)] that the code returned [e].  [validate_terminates]
    shows the fuel of [validate_document] is always enough.

    The decoding of one JSON string token and the typed decoding belong to
    [serde_json] and are arguments. *)

From Stdlib Require Import Ascii.
From stdpp Require Import base option list strings.
From S2P Require Import Prelude.

Local Open Scope string_scope.
Local Open Scope list_scope.
Local Open Scope Z_scope.
Local Open Scope rust_scope.

Abbreviation ascii := Ascii.ascii.

(** ** Limits and errors *)

Definition ABSOLUTE_MAX_DEPTH : nat := 64.
Definition usize_max : Z := u64_max.

Record Limits := mkLimits {
  max_bytes : Z;
  max_depth : nat;
  max_members : Z;
}.
Definition Limits_CONFIG : Limits := mkLimits 1048576 64 100000.
Definition Limits_YAML : Limits := mkLimits 262144 32 10000.
Definition Limits_default : Limits := mkLimits 8388608 64 100000.

Inductive DecodeError :=
| Read
| TooLarge (limit : Z)
| InvalidUtf8 (line column : Z)
| Syntax (line column : Z)
| DuplicateMember (line column : Z)
| IntegerOutOfRange (line column : Z)
| NonFinite (line column : Z)
| TrailingInput (line column : Z)
| DepthExceeded (line column : Z) (limit : nat)
| MembersExceeded (line column : Z) (limit : Z)
| MissingVersion (line column : Z)
| InvalidVersion (line column : Z)
| UnsupportedVersion (found line column : Z)
| Typed (line column : Z).

(** Line and column of an offset, counted from one. *)
Definition saturating_add_usize (a b : Z) : Z := clamp 0 usize_max (a + b).
Fixpoint location_loop (line column : Z) (bytes : list ascii) : Z * Z :=
  match bytes with
  | [] => (line, column)
  | byte :: bytes' =>
      if byte == "010"%char then location_loop (saturating_add_usize line 1) 1 bytes'
      else location_loop line (saturating_add_usize column 1) bytes'
  end.
Definition location (input : list ascii) (offset : nat) : Z * Z :=
  location_loop 1 1 (take (Nat.min offset (length input)) input).

(** ** The standard library the validator uses *)

(** The length of a longest prefix. *)
Fixpoint prefix_len (p : ascii → bool) (l : list ascii) : nat :=
  match l with
  | c :: l' => if p c then S (prefix_len p l') else O
  | [] => O
  end.

(** [slice::get(a..b)]. *)
Definition get_range (input : list ascii) (a b : nat) : option (list ascii) :=
  if Nat.leb a b && Nat.leb b (length input) then Some (take (b - a) (drop a input)) else None.

(** [str::from_utf8]: the bytes of the first character, if they are well formed
    (no overlong form, no surrogate, at most U+10FFFF). *)
Definition in_bytes (lo hi : Z) (c : ascii) : bool := (lo <=? byte_of c) && (byte_of c <=? hi).
Definition utf8_char (l : list ascii) : option nat :=
  let tail := in_bytes 128 191 in
  match l with
  | [] => None
  | a :: l1 =>
      if in_bytes 0 127 a then Some 1%nat
      else match l1 with
           | [] => None
           | b :: l2 =>
               if in_bytes 194 223 a && tail b then Some 2%nat
               else match l2 with
                    | [] => None
                    | c :: l3 =>
                        if ((in_bytes 224 224 a && in_bytes 160 191 b)
                            || (in_bytes 225 236 a && tail b)
                            || (in_bytes 237 237 a && in_bytes 128 159 b)
                            || (in_bytes 238 239 a && tail b)) && tail c
                        then Some 3%nat
                        else match l3 with
                             | [] => None
                             | d :: _ =>
                                 if ((in_bytes 240 240 a && in_bytes 144 191 b)
                                     || (in_bytes 241 243 a && tail b)
                                     || (in_bytes 244 244 a && in_bytes 128 143 b))
                                    && tail c && tail d
                                 then Some 4%nat else None
                             end
                    end
           end
  end.
(** [Utf8Error::valid_up_to], or [None] for valid text; a character has at
    least one byte, so the length of the text is fuel enough. *)
Fixpoint utf8_error (fuel : nat) (l : list ascii) (offset : nat) : option nat :=
  match fuel, l with
  | _, [] => None
  | O, _ => None
  | S fuel', _ => match utf8_char l with
                  | Some n => utf8_error fuel' (drop n l) (offset + n)
                  | None => Some offset
                  end
  end.
Definition from_utf8 (l : list ascii) : option nat := utf8_error (length l) l 0.

(** The value of a run of decimal digits. *)
Definition digit_value (c : ascii) : Z := byte_of c - 48.
Definition decimal (l : list ascii) : Z := fold_left (λ n c, 10 * n + digit_value c) l 0.

(** [parse::<i64>] of a minus sign and digits, [parse::<u64>] of digits. *)
Definition parse_i64_ok (digits : list ascii) : bool := in_i64 (- decimal digits).
Definition parse_u64_ok (digits : list ascii) : bool := in_u64 (decimal digits).

(** [parse::<f64>] rounds to nearest, ties to even: the result is finite
    exactly below the midpoint between the largest finite number and 2^1024. *)
Definition f64_overflow : Z := 2 ^ 1024 - 2 ^ 970.
Definition f64_finite (mantissa exponent : Z) : bool :=
  if 0 <=? exponent then mantissa * 10 ^ exponent <? f64_overflow
  else mantissa <? f64_overflow * 10 ^ (- exponent).
Definition split_while (p : ascii → bool) (l : list ascii) : list ascii * list ascii :=
  (take (prefix_len p l) l, drop (prefix_len p l) l).
Definition parse_f64_finite (token : list ascii) : bool :=
  let token := match token with c :: l => if c == "-"%char then l else token | [] => token end in
  let '(int, token) := split_while is_ascii_digit token in
  let '(frac, token) :=
    match token with
    | c :: l => if c == "."%char then split_while is_ascii_digit l else ([], token)
    | [] => ([], token)
    end in
  let exponent :=
    match token with
    | _ :: c :: l => if c == "-"%char then - decimal l
                     else if c == "+"%char then decimal l else decimal (c :: l)
    | _ => 0
    end in
  f64_finite (decimal (int ++ frac)) (exponent - len frac).

(** ** The validator *)

Definition is_space (c : ascii) : bool :=
  (c == " "%char) || (c == "009"%char) || (c == "013"%char) || (c == "010"%char).

(** An error of the code, or [None] for fuel that ran out. *)
Abbreviation outcome := (result (option DecodeError)).

Record JsonValidator := mkValidator {
  offset : nat;
  members : Z;
  negative_zeroes : list nat;
  schema_version_offset : option nat;
}.

Section Validator.
  (** [serde_json::from_slice::<String>] on one string token. *)
  Context (decode_string : list ascii → option string).
  Context (input : list ascii) (limits : Limits).

Definition advance (n : nat) (v : JsonValidator) : JsonValidator :=
  mkValidator (offset v + n) (members v) (negative_zeroes v) (schema_version_offset v).
Definition rest (v : JsonValidator) : list ascii := drop (offset v) input.

Definition peek (v : JsonValidator) : option ascii := input !! offset v.

Definition space (v : JsonValidator) : JsonValidator := advance (prefix_len is_space (rest v)) v.

Definition consume (byte : ascii) (v : JsonValidator) : bool * JsonValidator :=
  if peek v == Some byte then (true, advance 1 v) else (false, v).

Definition at_offset (o : nat) (e : Z → Z → DecodeError) : DecodeError :=
  let '(line, column) := location input o in e line column.
Definition syntax_error {A} (v : JsonValidator) : outcome A := Err (Some (at_offset (offset v) Syntax)).
Definition depth_error {A} (v : JsonValidator) : outcome A :=
  Err (Some (at_offset (offset v) (λ l c, DepthExceeded l c (max_depth limits)))).

Definition member (v : JsonValidator) : outcome JsonValidator :=
  let v := mkValidator (offset v) (saturating_add_usize (members v) 1) (negative_zeroes v)
             (schema_version_offset v) in
  if max_members limits <? members v then
    Err (Some (at_offset (offset v) (λ l c, MembersExceeded l c (max_members limits))))
  else Ok v.

Definition literal (lit : list ascii) (v : JsonValidator) : outcome JsonValidator :=
  if get_range input (offset v) (offset v + length lit) == Some lit then Ok (advance (length lit) v)
  else syntax_error v.

(** The scan of a string after its opening quote: the bytes up to and with the
    closing quote, or [None] at the end of the input. *)
Fixpoint scan_string (l : list ascii) : option nat :=
  match l with
  | [] => None
  | c :: l' =>
      if c == "034"%char then Some 1%nat
      else if c == "\"%char then
        match l' with
        | [] => None
        | _ :: l'' => S ∘ S <$> scan_string l''
        end
      else S <$> scan_string l'
  end.

Definition string_ (v : JsonValidator) : outcome (string * JsonValidator) :=
  let start := offset v in
  let v := advance 1 v in
  match scan_string (rest v) with
  | None => syntax_error (advance (length (rest v)) v)
  | Some n =>
      let v := advance n v in
      encoded ← ok_or (get_range input start (offset v)) (Some (at_offset (offset v) Syntax));
      key ← ok_or (decode_string encoded) (Some (at_offset start Syntax));
      Ok (key, v)
  end.

Definition peek_is (p : ascii → bool) (v : JsonValidator) : bool := is_some_and (peek v) p.
Definition digits (v : JsonValidator) : JsonValidator :=
  advance (prefix_len is_ascii_digit (rest v)) v.
(** [while] digits, at least one of them. *)
Definition digits1 (v : JsonValidator) : outcome JsonValidator :=
  if negb (peek_is is_ascii_digit v) then syntax_error v else Ok (digits v).

Definition is_exponent (c : ascii) : bool := (c == "e"%char) || (c == "E"%char).
Definition is_sign (c : ascii) : bool := (c == "+"%char) || (c == "-"%char).

Definition in_range (is_float : bool) (token : list ascii) : bool :=
  if is_float then parse_f64_finite token
  else match token with
       | c :: ds => if c == "-"%char then parse_i64_ok ds else parse_u64_ok token
       | [] => parse_u64_ok token
       end.

Definition push_zero (start : nat) (v : JsonValidator) : JsonValidator :=
  mkValidator (offset v) (members v) (negative_zeroes v ++ [start]) (schema_version_offset v).

(** The digits before the point, the fraction and the exponent. *)
Definition number_int (v : JsonValidator) : outcome JsonValidator :=
  if peek v == Some "0"%char then
    let v := advance 1 v in
    if peek_is is_ascii_digit v then syntax_error v else Ok v
  else if peek_is is_ascii_digit v then Ok (digits (advance 1 v))
  else syntax_error v.
Definition number_frac (v : JsonValidator) : outcome (bool * JsonValidator) :=
  let '(dot, v) := consume "."%char v in
  if dot : bool then v ← digits1 v; Ok (true, v) else Ok (false, v).
Definition number_exp (v : JsonValidator) : outcome (bool * JsonValidator) :=
  if peek_is is_exponent v then
    let v := advance 1 v in
    let v := if peek_is is_sign v then advance 1 v else v in
    v ← digits1 v;
    Ok (true, v)
  else Ok (false, v).

Definition number (v : JsonValidator) : outcome JsonValidator :=
  let start := offset v in
  let '(minus, v) := consume "-"%char v in
  if minus && negb (peek_is is_ascii_digit v) then syntax_error v
  else
    v ← number_int v;
    p ← number_frac v;
    let '(dot, v) := p in
    p ← number_exp v;
    let '(exp, v) := p in
    let is_float := dot || exp in
    token ← ok_or (get_range input start (offset v)) (Some (at_offset (offset v) Syntax));
    let v := if token == ["-"; "0"]%char then push_zero start v else v in
    if negb (in_range is_float token) then
      Err (Some (at_offset start (if is_float then NonFinite else IntegerOutOfRange)))
    else Ok v.

Definition set_version_offset (o : nat) (v : JsonValidator) : JsonValidator :=
  mkValidator (offset v) (members v) (negative_zeroes v) (Some o).

(** The member of an object up to its colon. *)
Definition member_key (depth : nat) (keys : list string) (v : JsonValidator) :
    outcome (string * JsonValidator) :=
  let v := space v in
  if peek v != Some "034"%char then syntax_error v
  else
    let key_offset := offset v in
    p ← string_ v;
    let '(key, v) := p in
    let v := if Nat.eqb depth 0 && (key == "schema_version") then set_version_offset key_offset v else v in
    if bool_decide (key ∈ keys) then Err (Some (at_offset key_offset DuplicateMember))
    else
      v ← member v;
      let v := space v in
      let '(colon, v) := consume ":"%char v in
      if negb colon then syntax_error v else Ok (key, v).

(** The first byte decides what a value is; [object], [array] and their loops
    call each other with less fuel. *)
Fixpoint value (fuel : nat) (depth : nat) (v : JsonValidator) : outcome JsonValidator :=
  match fuel with
  | O => Err None
  | S fuel' =>
      let v := space v in
      if Nat.ltb (max_depth limits) depth then depth_error v
      else match peek v with
           | Some c =>
               if c == "{"%char then
                 let v := space (advance 1 v) in
                 let '(closed, v) := consume "}"%char v in
                 if closed : bool then Ok v else object_loop fuel' depth [] v
               else if c == "["%char then
                 let v := space (advance 1 v) in
                 let '(closed, v) := consume "]"%char v in
                 if closed : bool then Ok v else array_loop fuel' depth v
               else if c == "034"%char then p ← string_ v; Ok (snd p)
               else if c == "t"%char then literal ["t"; "r"; "u"; "e"]%char v
               else if c == "f"%char then literal ["f"; "a"; "l"; "s"; "e"]%char v
               else if c == "n"%char then literal ["n"; "u"; "l"; "l"]%char v
               else if (c == "-"%char) || is_ascii_digit c then number v
               else syntax_error v
           | None => syntax_error v
           end
  end
with object_loop (fuel : nat) (depth : nat) (keys : list string) (v : JsonValidator) :
    outcome JsonValidator :=
  match fuel with
  | O => Err None
  | S fuel' =>
      p ← member_key depth keys v;
      let '(key, v) := p in
      v ← value fuel' (S depth) v;
      let v := space v in
      let '(closed, v) := consume "}"%char v in
      if closed : bool then Ok v
      else
        let '(comma, v) := consume ","%char v in
        if negb comma then syntax_error v else object_loop fuel' depth (key :: keys) v
  end
with array_loop (fuel : nat) (depth : nat) (v : JsonValidator) : outcome JsonValidator :=
  match fuel with
  | O => Err None
  | S fuel' =>
      v ← member v;
      v ← value fuel' (S depth) v;
      let v := space v in
      let '(closed, v) := consume "]"%char v in
      if closed : bool then Ok v
      else
        let '(comma, v) := consume ","%char v in
        if negb comma then syntax_error v else array_loop fuel' depth v
  end.

End Validator.

Record ValidationFacts := mkFacts {
  facts_negative_zeroes : list nat;
  facts_schema_version_offset : option nat;
}.

Definition capped (limits : Limits) : Limits :=
  mkLimits (max_bytes limits) (Nat.min (max_depth limits) ABSOLUTE_MAX_DEPTH) (max_members limits).

(** Every round of the mutual recursion but the last consumes a byte. *)
Definition document_fuel (input : list ascii) : nat := 2 * length input + 2.

Definition validate_document (decode_string : list ascii → option string) (input : list ascii)
    (limits : Limits) : outcome ValidationFacts :=
  match from_utf8 input with
  | Some o => Err (Some (at_offset input o InvalidUtf8))
  | None =>
      let v := space input (mkValidator 0 0 [] None) in
      v ← value decode_string input (capped limits) (document_fuel input) 0 v;
      let v := space input v in
      if negb (Nat.eqb (offset v) (length input)) then
        Err (Some (at_offset input (offset v) TrailingInput))
      else Ok (mkFacts (negative_zeroes v) (schema_version_offset v))
  end.

(** ** Negative zeroes *)

(** One position: [-0] becomes [0] and a blank; nothing outside the input. *)
Definition normalise_at (input : list ascii) (position : nat) : list ascii :=
  if Nat.leb (position + 2) (length input) then
    let input := if input !! position == Some "-"%char then <[position := "0"%char]> input else input in
    if input !! S position == Some "0"%char then <[S position := " "%char]> input else input
  else input.
Definition normalise_negative_zeroes (input : list ascii) (positions : list nat) : list ascii :=
  fold_left normalise_at positions input.

(** ** Reading and decoding *)

(** A reader yields its bytes and then ends, or fails if read past them. *)
Record Reader := mkReader {
  stream : list ascii;
  fails_after : bool;
}.

Definition read_bounded (reader : Reader) (limit : Z) : result DecodeError (list ascii) :=
  let allowed := saturating_add_u64 limit 1 in
  if (len (stream reader) <? allowed) && fails_after reader then Err Read
  else
    let bytes := take (Z.to_nat allowed) (stream reader) in
    if limit <? len bytes then Err (TooLarge limit) else Ok bytes.

(** What [serde_json] finds as the top-level version of a document. *)
Inductive VersionField := NotObject | NoVersion | NotU64 | AsU64 (version : Z).

Section Decode.
  Context (decode_string : list ascii → option string).
  (** [serde_json::from_slice] for a value and for the record type, with the
      line and column of its error. *)
  Context (header_value : list ascii → result (Z * Z) VersionField).
  Context {T : Type} (from_slice : list ascii → result (Z * Z) T).

Definition typed {A} (r : result (Z * Z) A) : result DecodeError A :=
  match r with Ok a => Ok a | Err (line, column) => Err (Typed line column) end.

(** The validator's outcome; its fuel never runs out. *)
Definition validated (input : list ascii) (limits : Limits) : result DecodeError ValidationFacts :=
  match validate_document decode_string input limits with
  | Ok facts => Ok facts
  | Err (Some e) => Err e
  | Err None => Err Read
  end.

Definition decode (reader : Reader) (limits : Limits) : result DecodeError T :=
  bytes ← read_bounded reader (max_bytes limits);
  facts ← validated bytes limits;
  typed (from_slice (normalise_negative_zeroes bytes (facts_negative_zeroes facts))).

Definition version_error (bytes : list ascii) (facts : ValidationFacts) (e : Z → Z → DecodeError) :
    DecodeError :=
  match facts_schema_version_offset facts with
  | Some o => at_offset bytes o e
  | None => e 1 1
  end.

Definition decode_v1 (reader : Reader) (limits : Limits) : result DecodeError T :=
  bytes ← read_bounded reader (max_bytes limits);
  facts ← validated bytes limits;
  let bytes := normalise_negative_zeroes bytes (facts_negative_zeroes facts) in
  version ← typed (header_value bytes);
  match version with
  | NotObject | NoVersion => Err (MissingVersion 1 1)
  | NotU64 => Err (version_error bytes facts InvalidVersion)
  | AsU64 n =>
      if n != 1 then Err (version_error bytes facts (UnsupportedVersion n))
      else typed (from_slice bytes)
  end.

End Decode.
