(* ===== verification/JsonGrammar.v ===== *)
(** * JsonGrammar: the validator accepts exactly the bounded JSON documents

    The grammar of [JsonDocument] as an inductive relation, with the nesting a
    value may still use and the number of its members as indices, and the
    theorems that relate the validator to it: it always terminates, what it
    accepts is in the grammar within the limits, and everything in the grammar
    within the limits is accepted. *)

From Stdlib Require Import Ascii.
From stdpp Require Import base option list strings sets.
From S2P Require Import Prelude JsonDocument.

Local Open Scope string_scope.
Local Open Scope list_scope.
Local Open Scope rust_scope.

(** ** Grammar *)

Definition ws (l : list ascii) : Prop := Forall (λ c, is_space c = true) l.
Definition all_digits (l : list ascii) : Prop := Forall (λ c, is_ascii_digit c = true) l.

Inductive int_part : list ascii → Prop :=
| int_zero : int_part ["0"%char]
| int_digits d ds : is_ascii_digit d = true → d ≠ "0"%char → all_digits ds → int_part (d :: ds).

Inductive frac_part : bool → list ascii → Prop :=
| frac_none : frac_part false []
| frac_digits d ds : is_ascii_digit d = true → all_digits ds → frac_part true ("."%char :: d :: ds).

Inductive exp_part : bool → list ascii → Prop :=
| exp_none : exp_part false []
| exp_digits e sign d ds :
    is_exponent e = true → sign = [] ∨ (∃ c, sign = [c] ∧ is_sign c = true) →
    is_ascii_digit d = true → all_digits ds → exp_part true (e :: sign ++ d :: ds).

(** [number_token fl s]: a number; [fl] when it has a fraction or an exponent. *)
Inductive number_token : bool → list ascii → Prop :=
| number_parts minus int dot frac exp ex :
    minus = [] ∨ minus = ["-"%char] → int_part int → frac_part dot frac → exp_part exp ex →
    number_token (dot || exp) (minus ++ int ++ frac ++ ex).

Inductive string_body : list ascii → Prop :=
| body_end : string_body ["034"%char]
| body_escape c l : string_body l → string_body ("\"%char :: c :: l)
| body_char c l : c ≠ "034"%char → c ≠ "\"%char → string_body l → string_body (c :: l).
Definition string_token (s : list ascii) : Prop := ∃ l, s = "034"%char :: l ∧ string_body l.

Section Grammar.
  Context (decode_string : list ascii → option string).

(** [json d s n]: [s] is a value that nests at most [d] deep and has [n]
    members and elements in all. *)
Inductive json : nat → list ascii → nat → Prop :=
| json_literal d s :
    s ∈ [["t"; "r"; "u"; "e"]; ["f"; "a"; "l"; "s"; "e"]; ["n"; "u"; "l"; "l"]]%char → json d s 0
| json_string d s key : string_token s → decode_string s = Some key → json d s 0
| json_number d fl s : number_token fl s → in_range fl s = true → json d s 0
| json_array_empty d w : ws w → json d ("["%char :: w ++ ["]"%char]) 0
| json_array d s n : elements d s n → json (S d) ("["%char :: s ++ ["]"%char]) n
| json_object_empty d w : ws w → json d ("{"%char :: w ++ ["}"%char]) 0
| json_object d s n keys : object_members d s n keys → NoDup keys →
    json (S d) ("{"%char :: s ++ ["}"%char]) n
with elements : nat → list ascii → nat → Prop :=
| elements_last d w1 s w2 n : ws w1 → json d s n → ws w2 → elements d (w1 ++ s ++ w2) (S n)
| elements_cons d w1 s w2 r n m : ws w1 → json d s n → ws w2 → elements d r m →
    elements d (w1 ++ s ++ w2 ++ ","%char :: r) (S n + m)
with object_members : nat → list ascii → nat → list string → Prop :=
| members_last d w1 k key w2 w3 s w4 n :
    ws w1 → string_token k → decode_string k = Some key → ws w2 → ws w3 → json d s n → ws w4 →
    object_members d (w1 ++ k ++ w2 ++ ":"%char :: w3 ++ s ++ w4) (S n) [key]
| members_cons d w1 k key w2 w3 s w4 n r m keys :
    ws w1 → string_token k → decode_string k = Some key → ws w2 → ws w3 → json d s n → ws w4 →
    object_members d r m keys →
    object_members d (w1 ++ k ++ w2 ++ ":"%char :: w3 ++ s ++ w4 ++ ","%char :: r) (S n + m) (key :: keys).

(** A document: a value between blanks. *)
Definition document (d : nat) (s : list ascii) (n : nat) : Prop :=
  ∃ w1 s' w2, s = w1 ++ s' ++ w2 ∧ ws w1 ∧ json d s' n ∧ ws w2.

End Grammar.

(** ** Lexing *)

(** What may follow a number. *)
Definition no_head (p : ascii → bool) (l : list ascii) : Prop :=
  is_none_or (head l) (λ c, negb (p c)) = true.
Definition is_number_char (c : ascii) : bool := is_ascii_digit c || (c == "."%char) || is_exponent c.
Abbreviation ends_number := (no_head is_number_char).

Lemma no_head_impl (p q : ascii → bool) l :
  (∀ c, q c = true → p c = true) → no_head p l → no_head q l.
Proof.
  intros Hpq. unfold no_head. destruct l as [|c l]; simpl; [done|]. bool_prop. intros Hp.
  apply not_true_is_false. intros Hq%Hpq. congruence.
Qed.

Lemma exp_part_ends exp ex r p :
  exp_part exp ex → ends_number r → (∀ c, p c = true → is_number_char c = true) →
  (∀ c, is_exponent c = true → p c = false) → no_head p (ex ++ r).
Proof.
  intros Hex Hr Hp1 Hp2. destruct Hex as [|e sign d ds He _ _ _]; simpl.
  - by eapply no_head_impl.
  - unfold no_head. simpl. by rewrite (Hp2 e He).
Qed.

Lemma exponent_not_digit c : is_exponent c = true → is_ascii_digit c = false.
Proof. unfold is_exponent. bool_prop. by intros [->| ->]. Qed.
Lemma exponent_not_dot c : is_exponent c = true → (c == "."%char) = false.
Proof. unfold is_exponent. bool_prop. by intros [->| ->]. Qed.

Lemma prefix_len_split p (l : list ascii) :
  ∃ a b, l = a ++ b ∧ length a = prefix_len p l ∧ Forall (λ c, p c = true) a ∧
         is_none_or (head b) (λ c, negb (p c)) = true.
Proof.
  induction l as [|c l IH]; simpl; [by exists [], []; repeat constructor|].
  destruct (p c) eqn:E.
  - destruct IH as (a & b & -> & Ha & Hp & Hb). exists (c :: a), b. simpl. split_and!; auto.
  - exists [], (c :: l). simpl. rewrite E. split_and!; auto.
Qed.

Lemma prefix_len_app p (a b : list ascii) :
  Forall (λ c, p c = true) a → is_none_or (head b) (λ c, negb (p c)) = true →
  prefix_len p (a ++ b) = length a.
Proof.
  intros Ha Hb. induction Ha as [|c a Hc Ha IH]; simpl; [|by rewrite Hc, IH].
  destruct b as [|c b]; simpl in *; [done|]. bool_prop. by rewrite Hb.
Qed.

Section Lexer.
  Context (input : list ascii).

  Local Abbreviation rest := (rest input).
  Local Abbreviation peek := (peek input).

Definition inside (v : JsonValidator) : Prop := (offset v ≤ length input)%nat.

(** [moved v a n v']: from [v], [a] was consumed and [n] members counted. *)
Definition moved (v : JsonValidator) (a : list ascii) (n : Z) (v' : JsonValidator) : Prop :=
  rest v = a ++ rest v' ∧ offset v' = (offset v + length a)%nat ∧ members v' = (members v + n)%Z ∧ inside v'.

Lemma moved_refl v : inside v → moved v [] 0 v.
Proof. intros. unfold moved. simpl. split_and!; auto with lia. Qed.

Lemma moved_trans v a n v' b m v'' :
  moved v a n v' → moved v' b m v'' → moved v (a ++ b) (n + m) v''.
Proof.
  intros (H1 & H2 & H3 & _) (H4 & H5 & H6 & H7). unfold moved.
  rewrite H1, H4, H5, H6, H2, H3, length_app, app_assoc. split_and!; auto with lia.
Qed.

Lemma rest_length v : inside v → (length (rest v) + offset v)%nat = length input.
Proof. unfold inside, JsonDocument.rest. rewrite length_drop. lia. Qed.

Lemma moved_advance v a b : inside v → rest v = a ++ b → moved v a 0 (advance (length a) v) ∧
  rest (advance (length a) v) = b.
Proof.
  intros Hin Hr. assert (rest (advance (length a) v) = b) as Hb.
  { unfold JsonDocument.rest in *. simpl. rewrite <-drop_drop, Hr, drop_app_length. done. }
  split; [|done]. unfold moved. rewrite Hb. simpl. split_and!; auto with lia.
  unfold inside. simpl. pose proof (rest_length v Hin) as Hl. rewrite Hr, length_app in Hl. lia.
Qed.

Lemma peek_rest v : peek v = head (rest v).
Proof.
  unfold JsonDocument.peek, JsonDocument.rest.
  destruct (decide (offset v < length input)%nat) as [Hlt|Hge].
  - destruct (lookup_lt_is_Some_2 input (offset v) Hlt) as [c Hc].
    by rewrite Hc, (drop_S input c) by done.
  - by rewrite lookup_ge_None_2, drop_ge by lia.
Qed.

Lemma space_moved v : inside v →
  ∃ w, ws w ∧ moved v w 0 (space input v) ∧
       is_none_or (head (rest (space input v))) (λ c, negb (is_space c)) = true.
Proof.
  intros Hin. destruct (prefix_len_split is_space (rest v)) as (w & r & Hr & Hl & Hw & Hd).
  exists w. unfold space. rewrite <-Hl. destruct (moved_advance v w r Hin Hr) as [Hm ->]. auto.
Qed.

Lemma space_skips v w r : inside v → rest v = w ++ r → ws w →
  is_none_or (head r) (λ c, negb (is_space c)) = true →
  moved v w 0 (space input v) ∧ rest (space input v) = r.
Proof.
  intros Hin Hr Hw Hd. unfold space. rewrite Hr, prefix_len_app by done. by apply moved_advance.
Qed.

Lemma consume_true c v v' : inside v → consume input c v = (true, v') → moved v [c] 0 v' ∧ v' = advance 1 v.
Proof.
  unfold consume. intros Hin. rewrite peek_rest. case_bool_decide as Hp; [|done]. intros [= <-].
  split; [|done]. destruct (rest v) as [|c' l] eqn:Hr; [done|]. injection Hp as ->.
  by apply (moved_advance v [c] l).
Qed.
Lemma consume_false c v v' : consume input c v = (false, v') → v' = v ∧ head (rest v) ≠ Some c.
Proof.
  unfold consume. rewrite peek_rest. case_bool_decide as Hp; [done|]. by intros [= <-].
Qed.
Lemma consume_hit c l v : rest v = c :: l → consume input c v = (true, advance 1 v).
Proof. unfold consume. rewrite peek_rest. intros ->. simpl. by rewrite bool_decide_eq_true_2. Qed.
Lemma consume_miss c v : head (rest v) ≠ Some c → consume input c v = (false, v).
Proof. unfold consume. rewrite peek_rest. intros. by rewrite bool_decide_eq_false_2. Qed.

Lemma peek_is_true p v : peek_is input p v = true ↔ ∃ c l, rest v = c :: l ∧ p c = true.
Proof.
  unfold peek_is. rewrite peek_rest, is_some_and_true. destruct (rest v); simpl; naive_solver.
Qed.
Lemma peek_is_false p v : peek_is input p v = false ↔ is_none_or (head (rest v)) (λ c, negb (p c)) = true.
Proof.
  unfold peek_is. rewrite peek_rest, is_some_and_false, is_none_or_true.
  setoid_rewrite negb_true_iff. done.
Qed.

Lemma slice_moved v a n v' : inside v → moved v a n v' → get_range input (offset v) (offset v') = Some a.
Proof.
  intros Hin (Hr & Ho & _ & Hin'). unfold get_range. rewrite Ho.
  assert (length a ≤ length (rest v))%nat by (rewrite Hr, length_app; lia).
  unfold inside, JsonDocument.rest in *. rewrite length_drop in *.
  rewrite (proj2 (Nat.leb_le _ _)), (proj2 (Nat.leb_le _ _)) by lia. simpl.
  rewrite Nat.add_comm, Nat.add_sub. f_equal. rewrite Hr. by rewrite take_app_length.
Qed.

(** *** Digits *)

Lemma digits_moved v : inside v →
  ∃ ds, all_digits ds ∧ moved v ds 0 (digits input v) ∧
        is_none_or (head (rest (digits input v))) (λ c, negb (is_ascii_digit c)) = true.
Proof.
  intros Hin. destruct (prefix_len_split is_ascii_digit (rest v)) as (w & r & Hr & Hl & Hw & Hd).
  exists w. unfold digits. rewrite <-Hl. destruct (moved_advance v w r Hin Hr) as [Hm ->]. auto.
Qed.
Lemma digits_skips v ds r : inside v → rest v = ds ++ r → all_digits ds →
  is_none_or (head r) (λ c, negb (is_ascii_digit c)) = true →
  moved v ds 0 (digits input v) ∧ rest (digits input v) = r.
Proof.
  intros Hin Hr Hw Hd. unfold digits. rewrite Hr, prefix_len_app by done. by apply moved_advance.
Qed.

Lemma digits1_Ok v v' : inside v → digits1 input v = Ok v' →
  ∃ d ds, is_ascii_digit d = true ∧ all_digits ds ∧ moved v (d :: ds) 0 v' ∧
          is_none_or (head (rest v')) (λ c, negb (is_ascii_digit c)) = true.
Proof.
  intros Hin H. unfold digits1 in H. apply result_guard_Ok in H as [Hp [= <-]].
  apply negb_false_iff, peek_is_true in Hp as (c & l & Hr & Hc).
  destruct (digits_moved v Hin) as (ds & Hds & Hm & Hh). destruct ds as [|d ds].
  - exfalso. destruct Hm as (Hr' & _). rewrite Hr in Hr'. simpl in Hr'. rewrite <-Hr' in Hh.
    simpl in Hh. bool_prop. congruence.
  - apply Forall_cons_1 in Hds as [Hd Hds]. exists d, ds. auto.
Qed.
Lemma digits1_skips v d ds r : inside v → rest v = d :: ds ++ r → is_ascii_digit d = true → all_digits ds →
  is_none_or (head r) (λ c, negb (is_ascii_digit c)) = true →
  ∃ v', digits1 input v = Ok v' ∧ moved v (d :: ds) 0 v' ∧ rest v' = r.
Proof.
  intros Hin Hr Hd Hds Hh. exists (digits input v).
  destruct (digits_skips v (d :: ds) r) as [Hm Hr']; [done|done|by constructor|done|].
  split_and!; try done. unfold digits1.
  rewrite (proj2 (peek_is_true is_ascii_digit v)); [done|]. eauto.
Qed.
(** *** Numbers *)

Lemma number_int_Ok v v' : inside v → number_int input v = Ok v' →
  ∃ s, int_part s ∧ moved v s 0 v'.
Proof.
  intros Hin H. unfold number_int in H. rewrite peek_rest in H.
  destruct (rest v) as [|c l] eqn:Hr; cbn [head] in H.
  { rewrite bool_decide_eq_false_2 in H by done. unfold peek_is in H. rewrite peek_rest, Hr in H. done. }
  destruct (moved_advance v [c] l Hin Hr) as [Hm Hr1].
  destruct (decide (c = "0"%char)) as [->|Hc].
  - rewrite bool_decide_eq_true_2 in H by done. apply result_guard_Ok in H as [_ [= <-]].
    exists ["0"%char]. by split; [constructor|].
  - rewrite bool_decide_eq_false_2 in H by congruence.
    destruct (peek_is input is_ascii_digit v) eqn:Hd; [|done]. injection H as <-.
    apply peek_is_true in Hd as (c' & l' & Hr' & Hd). rewrite Hr in Hr'. injection Hr' as <- <-.
    destruct (digits_moved (advance 1 v)) as (ds & Hds & Hm2 & _); [apply Hm|].
    exists (c :: ds). split; [by constructor|]. apply (moved_trans _ [c] 0 _ ds 0 _ Hm Hm2).
Qed.

Lemma number_frac_Ok v dot v' : inside v → number_frac input v = Ok (dot, v') →
  ∃ s, frac_part dot s ∧ moved v s 0 v'.
Proof.
  intros Hin H. unfold number_frac in H. destruct (consume input "."%char v) as [d v1] eqn:E.
  destruct d.
  - apply consume_true in E as [Hm _]; [|done]. apply result_bind_Ok in H as (v2 & Hd & [= <- <-]).
    apply digits1_Ok in Hd as (d & ds & Hd & Hds & Hm2 & _); [|apply Hm].
    eexists. split; [by apply (frac_digits d ds)|]. apply (moved_trans _ ["."%char] 0 _ _ 0 _ Hm Hm2).
  - apply consume_false in E as [-> _]. injection H as <- <-. exists [].
    split; [constructor|by apply moved_refl].
Qed.

Lemma number_exp_Ok v exp v' : inside v → number_exp input v = Ok (exp, v') →
  ∃ s, exp_part exp s ∧ moved v s 0 v'.
Proof.
  intros Hin H. unfold number_exp in H. destruct (peek_is input is_exponent v) eqn:E.
  - apply peek_is_true in E as (e & l & Hr & He).
    destruct (moved_advance v [e] l Hin Hr) as [Hm Hr1]. change (advance (length [e]) v) with (advance 1 v) in *.
    apply result_bind_Ok in H as (v2 & Hd & [= <- <-]).
    set (v1 := if peek_is input is_sign (advance 1 v) then _ else _) in Hd.
    assert (∃ sign, (sign = [] ∨ ∃ c, sign = [c] ∧ is_sign c = true) ∧ moved (advance 1 v) sign 0 v1)
      as (sign & Hsign & Hm1).
    { unfold v1. destruct (peek_is input is_sign (advance 1 v)) eqn:Es.
      - apply peek_is_true in Es as (c & l' & Hr' & Hc). exists [c].
        split; [right; eauto|]. by apply (moved_advance _ [c] l'); [apply Hm|].
      - exists []. split; [by left|]. apply moved_refl, Hm. }
    apply digits1_Ok in Hd as (d & ds & Hd & Hds & Hm2 & _); [|apply Hm1].
    exists (e :: sign ++ d :: ds). split; [by apply exp_digits|].
    apply (moved_trans _ [e] 0 _ _ 0 _ Hm). by apply (moved_trans _ sign 0 _ _ 0 _ Hm1).
  - injection H as <- <-. exists []. split; [constructor|by apply moved_refl].
Qed.

Lemma moved_offset v a n v' w : moved v a n v' → offset w = offset v' → members w = members v' →
  moved v a n w.
Proof. intros (H1 & H2 & H3 & H4) Ho Hm. unfold moved, inside, JsonDocument.rest in *. rewrite Ho, Hm. done. Qed.

Lemma number_sound v v' : inside v → number input v = Ok v' →
  ∃ fl s, number_token fl s ∧ in_range fl s = true ∧ moved v s 0 v'.
Proof.
  intros Hin H. unfold number in H. destruct (consume input "-"%char v) as [minus v1] eqn:E1.
  assert (∃ m, (m = [] ∨ m = ["-"%char]) ∧ moved v m 0 v1) as (m & Hm & Hv1).
  { destruct minus.
    - apply consume_true in E1 as [? _]; eauto.
    - apply consume_false in E1 as [-> _]. exists []. split; [auto|by apply moved_refl]. }
  clear E1. apply result_guard_Ok in H as [_ H]. apply result_bind_Ok in H as (v2 & Hi & H).
  apply number_int_Ok in Hi as (int & Hint & Hv2); [|apply Hv1].
  apply result_bind_Ok in H as ([dot v3] & Hf & H).
  apply number_frac_Ok in Hf as (frac & Hfrac & Hv3); [|apply Hv2].
  apply result_bind_Ok in H as ([exp v4] & He & H).
  apply number_exp_Ok in He as (ex & Hex & Hv4); [|apply Hv3].
  pose proof (moved_trans _ _ _ _ _ _ _ Hv1 (moved_trans _ _ _ _ _ _ _ Hv2
    (moved_trans _ _ _ _ _ _ _ Hv3 Hv4))) as Hall. simpl in Hall.
  rewrite (slice_moved _ _ _ _ Hin Hall) in H. simpl in H. apply result_guard_Ok in H as [Hr [= <-]].
  apply negb_false_iff in Hr. exists (dot || exp), (m ++ int ++ frac ++ ex).
  split_and!; [by constructor|done|]. eapply moved_offset; [exact Hall|by case_bool_decide..].
Qed.
Lemma peek_hit p c l v : rest v = c :: l → p c = true → peek_is input p v = true.
Proof. intros. apply peek_is_true. eauto. Qed.

Lemma number_int_skips v s r : inside v → rest v = s ++ r → int_part s → no_head is_ascii_digit r →
  ∃ v', number_int input v = Ok v' ∧ moved v s 0 v' ∧ rest v' = r.
Proof.
  intros Hin Hr Hs Hh. unfold number_int. rewrite peek_rest, Hr.
  destruct Hs as [|d ds Hd Hd0 Hds]; cbn [head app].
  - destruct (moved_advance v ["0"%char] r Hin Hr) as [Hm Hr1].
    change (advance (length ["0"%char]) v) with (advance 1 v) in *. rewrite bool_decide_eq_true_2 by done.
    exists (advance 1 v). rewrite (proj2 (peek_is_false is_ascii_digit (advance 1 v))); [done|].
    by rewrite Hr1.
  - rewrite bool_decide_eq_false_2 by congruence. rewrite (peek_hit _ _ _ _ Hr Hd).
    destruct (moved_advance v [d] (ds ++ r) Hin Hr) as [Hm Hr1].
    change (advance (length [d]) v) with (advance 1 v) in *.
    destruct (digits_skips (advance 1 v) ds r) as [Hm2 Hr2]; [apply Hm|done|done|done|].
    exists (digits input (advance 1 v)). split_and!; try done.
    apply (moved_trans _ [d] 0 _ ds 0 _ Hm Hm2).
Qed.

Lemma number_frac_skips v dot s r : inside v → rest v = s ++ r → frac_part dot s →
  no_head is_ascii_digit r → no_head (λ c, c == "."%char) r →
  ∃ v', number_frac input v = Ok (dot, v') ∧ moved v s 0 v' ∧ rest v' = r.
Proof.
  intros Hin Hr Hs Hh Hdot. unfold number_frac. destruct Hs as [|d ds Hd Hds]; simpl in Hr.
  - rewrite consume_miss.
    + exists v. split_and!; [done|by apply moved_refl|done].
    + rewrite Hr. unfold no_head in Hdot. rewrite is_none_or_true in Hdot. intros Hx%Hdot.
      bool_prop. done.
  - rewrite (consume_hit _ _ _ Hr). destruct (moved_advance v ["."%char] _ Hin Hr) as [Hm Hr1].
    change (advance (length ["."%char]) v) with (advance 1 v) in *.
    destruct (digits1_skips (advance 1 v) d ds r) as (v' & Hv' & Hm2 & Hr2); [apply Hm|done..|].
    exists v'. rewrite Hv'. simpl. split_and!; try done.
    apply (moved_trans _ ["."%char] 0 _ _ 0 _ Hm Hm2).
Qed.

Lemma sign_not_digit c : is_sign c = true → is_ascii_digit c = false.
Proof. unfold is_sign. bool_prop. by intros [->| ->]. Qed.

Lemma number_exp_skips v exp s r : inside v → rest v = s ++ r → exp_part exp s →
  no_head is_ascii_digit r → no_head is_exponent r →
  ∃ v', number_exp input v = Ok (exp, v') ∧ moved v s 0 v' ∧ rest v' = r.
Proof.
  intros Hin Hr Hs Hh He0. unfold number_exp. destruct Hs as [|e sign d ds He Hsign Hd Hds]; simpl in Hr.
  - rewrite (proj2 (peek_is_false is_exponent v)); [|by rewrite Hr].
    exists v. split_and!; [done|by apply moved_refl|done].
  - rewrite (peek_hit _ _ _ _ Hr He). destruct (moved_advance v [e] _ Hin Hr) as [Hm Hr1].
    change (advance (length [e]) v) with (advance 1 v) in *.
    set (v1 := if peek_is input is_sign (advance 1 v) then _ else _).
    assert (moved (advance 1 v) sign 0 v1 ∧ rest v1 = d :: ds ++ r) as [Hm1 Hr2].
    { unfold v1. rewrite <-app_assoc in Hr1. destruct Hsign as [->|(c & -> & Hc)]; simpl in Hr1.
      - rewrite (proj2 (peek_is_false is_sign (advance 1 v))); [split; [apply moved_refl, Hm|done]|].
        rewrite Hr1. simpl. apply negb_true_iff, not_true_is_false. intros Hs%sign_not_digit. congruence.
      - rewrite (peek_hit _ _ _ _ Hr1 Hc). by apply (moved_advance _ [c]); [apply Hm|]. }
    destruct (digits1_skips v1 d ds r) as (v' & Hv' & Hm2 & Hr3); [apply Hm1|done..|].
    exists v'. rewrite Hv'. simpl. split_and!; try done.
    apply (moved_trans _ [e] 0 _ _ 0 _ Hm). by apply (moved_trans _ sign 0 _ _ 0 _ Hm1).
Qed.

Lemma number_complete v fl s r :
  inside v → rest v = s ++ r → number_token fl s → in_range fl s = true → ends_number r →
  ∃ v', number input v = Ok v' ∧ moved v s 0 v' ∧ rest v' = r.
Proof.
  intros Hin Hr Htok Hrange Hend.
  destruct Htok as [minus int dot frac exp ex Hminus Hint Hfrac Hexp].
  assert (∀ c, is_ascii_digit c = true → is_number_char c = true) as Hi1
    by (unfold is_number_char; intros c ->; done).
  assert (∀ c, (c == "."%char) = true → is_number_char c = true) as Hi2
    by (unfold is_number_char; intros c ->; bool_prop; auto).
  assert (∀ c, is_exponent c = true → is_number_char c = true) as Hi3
    by (unfold is_number_char; intros c ->; bool_prop; auto).
  assert (no_head is_ascii_digit (ex ++ r)) as He1
    by (eapply exp_part_ends; eauto using exponent_not_digit).
  assert (no_head (λ c, c == "."%char) (ex ++ r)) as He2
    by (eapply exp_part_ends; eauto using exponent_not_dot).
  assert (no_head is_ascii_digit (frac ++ ex ++ r)) as Hf1 by (by destruct Hfrac).
  rewrite <-!app_assoc in Hr. unfold number.
  assert (∃ v1 b, consume input "-"%char v = (b, v1) ∧ moved v minus 0 v1 ∧
            rest v1 = int ++ frac ++ ex ++ r) as (v1 & b & -> & Hm1 & Hr1).
  { destruct Hminus as [->| ->]; simpl in Hr.
    - exists v, false. split_and!; [|by apply moved_refl|done]. apply consume_miss. rewrite Hr.
      destruct Hint as [|d ds Hd _ _]; simpl; [done|]. intros [= ->]. done.
    - exists (advance 1 v), true. destruct (moved_advance v ["-"%char] _ Hin Hr). 
      split_and!; try done. by eapply consume_hit. }
  assert (peek_is input is_ascii_digit v1 = true) as ->.
  { destruct Hint as [|d ds Hd _ _]; by eapply peek_hit. }
  rewrite andb_false_r.
  destruct (number_int_skips v1 int (frac ++ ex ++ r)) as (v2 & -> & Hm2 & Hr2); [apply Hm1|done..|].
  simpl. destruct (number_frac_skips v2 dot frac (ex ++ r)) as (v3 & -> & Hm3 & Hr3); [apply Hm2|done..|].
  simpl. destruct (number_exp_skips v3 exp ex r) as (v4 & -> & Hm4 & Hr4);
    [apply Hm3|done|done|by eapply no_head_impl; eauto..|].
  simpl. pose proof (moved_trans _ _ _ _ _ _ _ Hm1 (moved_trans _ _ _ _ _ _ _ Hm2
    (moved_trans _ _ _ _ _ _ _ Hm3 Hm4))) as Hall. simpl in Hall.
  rewrite (slice_moved _ _ _ _ Hin Hall). simpl. rewrite Hrange. simpl. eexists. split; [done|].
  split.
  - eapply moved_offset; [exact Hall|by case_bool_decide..].
  - unfold JsonDocument.rest in *. by case_bool_decide.
Qed.
(** *** Literals and strings *)

Lemma literal_Ok lit v v' : inside v →
  literal input lit v = Ok v' ↔ ∃ r, rest v = lit ++ r ∧ v' = advance (length lit) v.
Proof.
  intros Hin. unfold literal. split.
  - case_bool_decide as Hg; [|done]. intros [= <-]. unfold get_range in Hg.
    destruct (_ && _); [|done]. injection Hg as Hg. exists (drop (length lit) (rest v)).
    split; [|done]. rewrite <-(take_drop (length lit) (rest v)) at 1. f_equal.
    unfold JsonDocument.rest. by rewrite <-Hg at 2; rewrite Nat.add_comm, Nat.add_sub.
  - intros (r & Hr & ->). destruct (moved_advance v lit r Hin Hr) as [Hm _].
    rewrite bool_decide_eq_true_2; [done|]. exact (slice_moved v lit 0 (advance (length lit) v) Hin Hm).
Qed.
Lemma scan_string_sound l n : scan_string l = Some n →
  ∃ b r, l = b ++ r ∧ length b = n ∧ string_body b.
Proof.
  remember (length l) as m eqn:Hm. revert l n Hm.
  induction (Nat.lt_wf_0 m) as [m _ IH]; intros l n Hm H. destruct l as [|c l]; simpl in H; [done|].
  case_bool_decide as Hq.
  { injection H as <-. subst c. exists ["034"%char], l. split_and!; try done. constructor. }
  case_bool_decide as Hb.
  - destruct l as [|c' l]; [done|]. destruct (scan_string l) as [k|] eqn:Hk; [|done].
    injection H as <-. simpl in Hm.
    destruct (IH (length l) ltac:(lia) l k eq_refl Hk) as (b & r & -> & <- & Hbody).
    exists (c :: c' :: b), r. subst c. split_and!; try done. by constructor.
  - destruct (scan_string l) as [k|] eqn:Hk; [|done].
    injection H as <-. simpl in Hm.
    destruct (IH (length l) ltac:(lia) l k eq_refl Hk) as (b & r & -> & <- & Hbody).
    exists (c :: b), r. split_and!; try done. by constructor.
Qed.

Lemma scan_string_complete b r : string_body b → scan_string (b ++ r) = Some (length b).
Proof.
  induction 1 as [|c l _ IH|c l Hq Hb _ IH]; simpl; [done| |].
  - by rewrite IH.
  - rewrite !bool_decide_eq_false_2 by done. by rewrite IH.
Qed.

  Context (decode_string : list ascii → option string).

Lemma string_sound v key v' l : inside v → rest v = "034"%char :: l →
  string_ decode_string input v = Ok (key, v') →
  ∃ s, string_token s ∧ decode_string s = Some key ∧ moved v s 0 v'.
Proof.
  intros Hin Hr H. unfold string_ in H. destruct (moved_advance v ["034"%char] l Hin Hr) as [Hm Hr1].
  change (advance (length ["034"%char]) v) with (advance 1 v) in *. rewrite Hr1 in H.
  destruct (scan_string l) as [n|] eqn:Hs; [|done].
  apply scan_string_sound in Hs as (b & r & -> & <- & Hb).
  destruct (moved_advance (advance 1 v) b r) as [Hm2 _]; [apply Hm|done|].
  pose proof (moved_trans _ _ _ _ _ _ _ Hm Hm2) as Hall. simpl in Hall.
  rewrite (slice_moved _ _ _ _ Hin Hall) in H. simpl in H.
  destruct (decode_string _) as [k|] eqn:Hd; [|done]. simpl in H. injection H as -> <-.
  eexists. split; [by exists b|]. split; [exact Hd|done].
Qed.

Lemma string_complete v s r key : inside v → rest v = s ++ r → string_token s →
  decode_string s = Some key →
  ∃ v', string_ decode_string input v = Ok (key, v') ∧ moved v s 0 v' ∧ rest v' = r.
Proof.
  intros Hin Hr (b & -> & Hb) Hd. unfold string_.
  destruct (moved_advance v ["034"%char] (b ++ r) Hin Hr) as [Hm Hr1].
  change (advance (length ["034"%char]) v) with (advance 1 v) in *. rewrite Hr1.
  rewrite scan_string_complete by done.
  destruct (moved_advance (advance 1 v) b r) as [Hm2 Hr2]; [apply Hm|done|].
  pose proof (moved_trans _ _ _ _ _ _ _ Hm Hm2) as Hall. simpl in Hall.
  rewrite (slice_moved _ _ _ _ Hin Hall). simpl. rewrite Hd. simpl. eauto.
Qed.

End Lexer.

(** ** Values *)

Lemma bind_fuel {A B} (m : outcome A) (f : A → outcome B) :
  (m ≫= f) = Err None ↔ m = Err None ∨ ∃ a, m = Ok a ∧ f a = Err None.
Proof. destruct m; simpl; naive_solver. Qed.

Section Values.
  Context (decode_string : list ascii → option string).
  Context (input : list ascii) (limits : Limits).
  (** A slice is shorter than [usize::MAX]. *)
  Context (Hroom : (len input < usize_max)%Z).

  Local Abbreviation rest := (rest input).
  Local Abbreviation inside := (inside input).
  Local Abbreviation moved := (moved input).
  Local Abbreviation json := (json decode_string).
  Local Abbreviation elements := (elements decode_string).
  Local Abbreviation object_members := (object_members decode_string).
  Local Abbreviation D := (max_depth limits).
  Local Abbreviation M := (max_members limits).

(** Counted members never outnumber the bytes read. *)
Definition counted (v : JsonValidator) : Prop := (0 ≤ members v ≤ Z.of_nat (offset v))%Z.

Lemma member_sound v v' : inside v → (0 ≤ members v < Z.of_nat (offset v))%Z →
  member input limits v = Ok v' → moved v [] 1 v' ∧ (members v' ≤ M)%Z.
Proof.
  intros Hin Hc H. unfold member in H. apply result_guard_Ok in H as [Hm [= <-]]. simpl in *.
  unfold saturating_add_usize, clamp, JsonGrammar.inside, len in *.
  assert (Z.max 0 (Z.min usize_max (members v + 1)) = members v + 1)%Z as Heq by lia.
  rewrite Heq in *. split; [|lia]. unfold JsonGrammar.moved, JsonGrammar.inside; simpl.
  split_and!; auto with lia.
Qed.
Lemma member_complete v : inside v → (0 ≤ members v < Z.of_nat (offset v))%Z → (members v + 1 ≤ M)%Z →
  ∃ v', member input limits v = Ok v' ∧ moved v [] 1 v' ∧ rest v' = rest v.
Proof.
  intros Hin Hc Hm. unfold member. simpl.
  unfold saturating_add_usize, clamp, JsonGrammar.inside, len in *.
  assert (Z.max 0 (Z.min usize_max (members v + 1)) = members v + 1)%Z as -> by lia.
  rewrite (proj2 (Z.ltb_ge _ _)) by lia. eexists. split_and!; [done|..|done].
  unfold JsonGrammar.moved, JsonGrammar.inside; simpl. split_and!; auto with lia.
Qed.

Lemma moved_counted v a n v' : moved v a n v' → counted v → (0 ≤ n ≤ len a)%Z → counted v'.
Proof. intros (_ & Ho & Hm & _) Hc Hn. unfold counted, len in *. lia. Qed.
Lemma moved_counted_lt v a n v' : moved v a n v' → counted v → (0 ≤ n < len a)%Z →
  (0 ≤ members v' < Z.of_nat (offset v'))%Z.
Proof. intros (_ & Ho & Hm & _) Hc Hn. unfold counted, len in *. lia. Qed.

(** The key of a member, up to its colon. *)
Lemma member_key_sound depth keys v key v' :
  inside v → (0 ≤ members v < Z.of_nat (offset v))%Z →
  member_key decode_string input limits depth keys v = Ok (key, v') →
  ∃ w1 k w2, ws w1 ∧ string_token k ∧ decode_string k = Some key ∧ ws w2 ∧
    moved v (w1 ++ k ++ w2 ++ [":"%char]) 1 v' ∧ (key ∉ keys) ∧ (members v' ≤ M)%Z.
Proof.
  intros Hin Hc H. unfold member_key in H.
  destruct (space_moved input v Hin) as (w1 & Hw1 & Hm1 & _).
  apply result_guard_Ok in H as [Hp H]. apply negb_false_iff, bool_decide_eq_true in Hp.
  rewrite peek_rest in Hp. destruct (rest (space input v)) as [|c l] eqn:Hr; [done|]. injection Hp as ->.
  apply result_bind_Ok in H as ([key' v2] & Hs & H).
  apply (string_sound input decode_string _ _ _ l) in Hs as (k & Hk & Hd & Hm2); [|apply Hm1|done].
  set (v3 := if _ && _ then set_version_offset _ v2 else v2) in H.
  assert (moved (space input v) k 0 v3) as Hm3
    by (eapply moved_offset; [exact Hm2|unfold v3; by destruct (_ && _)..]).
  destruct (bool_decide (key' ∈ keys)) eqn:Hkeys; [done|]. apply bool_decide_eq_false in Hkeys.
  pose proof (moved_trans _ _ _ _ _ _ _ _ Hm1 Hm3) as Hm13.
  apply result_bind_Ok in H as (v4 & Hmem & H).
  apply member_sound in Hmem as [Hm4 Hle]; [|apply Hm3|].
  2: { destruct Hm13 as (_ & Ho & Hmm & _). rewrite Ho, Hmm. lia. }
  destruct (space_moved input v4) as (w2 & Hw2 & Hm5 & _); [apply Hm4|].
  destruct (consume input ":"%char (space input v4)) as [colon v5] eqn:Hcol.
  destruct colon; [|done]. simpl in H. injection H as -> ->.
  apply consume_true in Hcol as [Hm6 _]; [|apply Hm5].
  exists w1, k, w2. split_and!; try done.
  - pose proof (moved_trans _ _ _ _ _ _ _ _ Hm13 (moved_trans _ _ _ _ _ _ _ _ Hm4
      (moved_trans _ _ _ _ _ _ _ _ Hm5 Hm6))) as Hall. simpl in Hall. by rewrite <-app_assoc in Hall.
  - destruct Hm5 as (_ & _ & Hx & _), Hm6 as (_ & _ & Hy & _). lia.
Qed.
Lemma moved_eq v a b n m v' : moved v a n v' → a = b → n = m → moved v b m v'.
Proof. by intros ? -> ->. Qed.

(** What a successful call leaves, for the three functions. *)
Definition value_ok (depth : nat) (v v' : JsonValidator) : Prop :=
  ∃ w s n, ws w ∧ json (D - depth) s n ∧ (depth ≤ D)%nat ∧ (n < length s)%nat ∧
    moved v (w ++ s) (Z.of_nat n) v' ∧ (members v ≤ M → members v' ≤ M)%Z.
Definition array_ok (depth : nat) (v v' : JsonValidator) : Prop :=
  ∃ s n, elements (D - S depth) s n ∧ (S depth ≤ D)%nat ∧ (n ≤ length s)%nat ∧
    moved v (s ++ ["]"%char]) (Z.of_nat n) v' ∧ (members v' ≤ M)%Z.
Definition object_ok (depth : nat) (keys : list string) (v v' : JsonValidator) : Prop :=
  ∃ s n ks, object_members (D - S depth) s n ks ∧ NoDup ks ∧ (∀ k, k ∈ ks → k ∉ keys) ∧
    (S depth ≤ D)%nat ∧ (n ≤ length s)%nat ∧
    moved v (s ++ ["}"%char]) (Z.of_nat n) v' ∧ (members v' ≤ M)%Z.

Lemma array_step fuel depth v v' :
  (∀ depth v v', inside v → counted v → value decode_string input limits fuel depth v = Ok v' → value_ok depth v v') →
  (∀ depth v v', inside v → (0 ≤ members v < Z.of_nat (offset v))%Z →
     array_loop decode_string input limits fuel depth v = Ok v' → array_ok depth v v') →
  inside v → (0 ≤ members v < Z.of_nat (offset v))%Z →
  array_loop decode_string input limits (S fuel) depth v = Ok v' → array_ok depth v v'.
Proof.
  intros IHv IHa Hin Hc H. cbn [array_loop] in H.
  apply result_bind_Ok in H as (v1 & Hmem & H). apply member_sound in Hmem as [Hm1 Hle1]; [|done..].
  apply result_bind_Ok in H as (v2 & Hval & H).
  apply IHv in Hval as (w & s & n & Hw & Hs & Hd & Hn & Hm2 & Hle2); [|apply Hm1|].
  2: { destruct Hm1 as (_ & Ho & Hmm & _). simpl in Ho. unfold counted. lia. }
  specialize (Hle2 Hle1).
  destruct (space_moved input v2) as (w2 & Hw2 & Hm3 & _); [apply Hm2|].
  pose proof (moved_trans _ _ _ _ _ _ _ _ Hm1 (moved_trans _ _ _ _ _ _ _ _ Hm2 Hm3)) as Hm13.
  simpl in Hm13. rewrite Z.add_0_r, <-app_assoc in Hm13.
  destruct (consume input "]"%char (space input v2)) as [closed v4] eqn:Hcl. destruct closed.
  - injection H as <-. apply consume_true in Hcl as [Hm4 _]; [|apply Hm3].
    pose proof (moved_trans _ _ _ _ _ _ _ _ Hm13 Hm4) as Hall.
    exists (w ++ s ++ w2), (S n). split_and!; [by constructor|done|rewrite !length_app; lia| |].
    + eapply moved_eq; [exact Hall| |lia]. by repeat (rewrite <-!app_assoc; simpl).
    + destruct Hm3 as (_ & _ & Hx & _), Hm4 as (_ & _ & Hy & _). lia.
  - apply consume_false in Hcl as [-> _].
    destruct (consume input ","%char (space input v2)) as [comma v5] eqn:Hcm. destruct comma; [|done].
    simpl in H. apply consume_true in Hcm as [Hm5 _]; [|apply Hm3].
    pose proof (moved_trans _ _ _ _ _ _ _ _ Hm13 Hm5) as Hm15.
    apply IHa in H as (r & m & Hr & _ & Hmr & Hm6 & Hle6); [|apply Hm5|].
    2: { destruct Hm15 as (_ & Ho & Hmm & _). rewrite !length_app in Ho. simpl in Ho. lia. }
    pose proof (moved_trans _ _ _ _ _ _ _ _ Hm15 Hm6) as Hall. rewrite <-!app_assoc in Hall.
    exists (w ++ s ++ w2 ++ ","%char :: r), (S n + m)%nat.
    split_and!; [by constructor|done|rewrite !length_app; simpl; lia| |done].
    eapply moved_eq; [exact Hall| |lia]. by repeat (rewrite <-!app_assoc; simpl).
Qed.

Lemma object_step fuel depth keys v v' :
  (∀ depth v v', inside v → counted v → value decode_string input limits fuel depth v = Ok v' → value_ok depth v v') →
  (∀ depth keys v v', inside v → (0 ≤ members v < Z.of_nat (offset v))%Z →
     object_loop decode_string input limits fuel depth keys v = Ok v' → object_ok depth keys v v') →
  inside v → (0 ≤ members v < Z.of_nat (offset v))%Z →
  object_loop decode_string input limits (S fuel) depth keys v = Ok v' → object_ok depth keys v v'.
Proof.
  intros IHv IHo Hin Hc H. cbn [object_loop] in H.
  apply result_bind_Ok in H as ([key v1] & Hkey & H).
  apply member_key_sound in Hkey as (w1 & k & w1' & Hw1 & Hk & Hdk & Hw1' & Hm1 & Hnk & Hle1); [|done..].
  apply result_bind_Ok in H as (v2 & Hval & H).
  apply IHv in Hval as (w & s & n & Hw & Hs & Hd & Hn & Hm2 & Hle2); [|apply Hm1|].
  2: { destruct Hm1 as (_ & Ho & Hmm & _). rewrite !length_app in Ho. simpl in Ho. unfold counted. lia. }
  specialize (Hle2 Hle1).
  destruct (space_moved input v2) as (w2 & Hw2 & Hm3 & _); [apply Hm2|].
  pose proof (moved_trans _ _ _ _ _ _ _ _ Hm1 (moved_trans _ _ _ _ _ _ _ _ Hm2 Hm3)) as Hm13.
  rewrite Z.add_0_r, <-!app_assoc in Hm13. simpl in Hm13.
  destruct (consume input "}"%char (space input v2)) as [closed v4] eqn:Hcl. destruct closed.
  - injection H as <-. apply consume_true in Hcl as [Hm4 _]; [|apply Hm3].
    pose proof (moved_trans _ _ _ _ _ _ _ _ Hm13 Hm4) as Hall.
    eexists _, (S n), [key]. split_and!; [by apply (members_last _ _ w1 k key w1' w s w2 n)|apply NoDup_singleton| |done|..].
    + intros k' ->%list_elem_of_singleton. done.
    + rewrite !length_app. simpl. rewrite !length_app. lia.
    + eapply moved_eq; [exact Hall| |lia]. by repeat (rewrite <-!app_assoc; simpl).
    + destruct Hm3 as (_ & _ & Hx & _), Hm4 as (_ & _ & Hy & _). lia.
  - apply consume_false in Hcl as [-> _].
    destruct (consume input ","%char (space input v2)) as [comma v5] eqn:Hcm. destruct comma; [|done].
    simpl in H. apply consume_true in Hcm as [Hm5 _]; [|apply Hm3].
    pose proof (moved_trans _ _ _ _ _ _ _ _ Hm13 Hm5) as Hm15.
    apply IHo in H as (r & m & ks & Hr & Hnd & Hks & _ & Hmr & Hm6 & Hle6); [|apply Hm5|].
    2: { destruct Hm15 as (_ & Ho & Hmm & _). rewrite !length_app in Ho. simpl in Ho.
         rewrite !length_app in Ho. lia. }
    pose proof (moved_trans _ _ _ _ _ _ _ _ Hm15 Hm6) as Hall.
    repeat (rewrite <-!app_assoc in Hall; simpl in Hall).
    eexists _, (S n + m)%nat, (key :: ks).
    split_and!; [by apply (members_cons _ _ w1 k key w1' w s w2 n r m ks)|..]; try done.
    + apply list.NoDup_cons. split; [|done]. intros Hin'. by apply Hks in Hin'; set_solver.
    + intros k' [->|Hk']%elem_of_cons; [done|]. apply Hks in Hk'. set_solver.
    + rewrite !length_app. simpl. rewrite !length_app. simpl. lia.
    + eapply moved_eq; [exact Hall| |lia]. by repeat (rewrite <-!app_assoc; simpl).
Qed.

Lemma value_scalar depth v w s v' :
  (depth ≤ D)%nat → moved v w 0 (space input v) → ws w → json (D - depth) s 0 → (0 < length s)%nat →
  moved (space input v) s 0 v' → value_ok depth v v'.
Proof.
  intros Hd Hm1 Hw Hs Hl Hm2. exists w, s, 0%nat.
  pose proof (moved_trans _ _ _ _ _ _ _ _ Hm1 Hm2) as Hall. split_and!; try done.
  destruct Hall as (_ & _ & -> & _). lia.
Qed.

Lemma literal_sound depth lit v w v' :
  (depth ≤ D)%nat → moved v w 0 (space input v) → ws w →
  lit ∈ [["t"; "r"; "u"; "e"]; ["f"; "a"; "l"; "s"; "e"]; ["n"; "u"; "l"; "l"]]%char →
  literal input lit (space input v) = Ok v' → value_ok depth v v'.
Proof.
  intros Hd Hm1 Hw Hlit H. apply literal_Ok in H as (r & Hr & ->); [|apply Hm1].
  eapply value_scalar; [done|done|done|by apply json_literal| |].
  - rewrite !elem_of_cons, elem_of_nil in Hlit. destruct Hlit as [->|[->|[->|[]]]]; simpl; lia.
  - by apply (moved_advance input _ lit r); [apply Hm1|].
Qed.

Lemma number_token_length fl s : number_token fl s → (0 < length s)%nat.
Proof.
  intros [minus int dot frac exp ex _ Hint _ _]. rewrite !length_app.
  destruct Hint; simpl; lia.
Qed.
Lemma string_token_length s : string_token s → (0 < length s)%nat.
Proof. intros (l & -> & _). simpl. lia. Qed.

(** A collection after its opening byte: closed at once, or its loop. *)
Lemma open_sound depth (o c : ascii) l v w v' (loop : JsonValidator → outcome JsonValidator) :
  (depth ≤ D)%nat → moved v w 0 (space input v) → ws w → rest (space input v) = o :: l →
  counted v →
  (∀ u, ws u → json (D - depth) (o :: u ++ [c]) 0) →
  (∀ v1 u, ws u → inside v1 → moved (space input v) (o :: u) 0 v1 → (0 ≤ members v1 < Z.of_nat (offset v1))%Z →
     loop v1 = Ok v' →
     ∃ s n, json (D - depth) (o :: u ++ s ++ [c]) n ∧ (n ≤ length s)%nat ∧
            moved v1 (s ++ [c]) (Z.of_nat n) v' ∧ (members v' ≤ M)%Z) →
  (let v1 := space input (advance 1 (space input v)) in
   let '(closed, v2) := consume input c v1 in
   if closed : bool then Ok v2 else loop v2) = Ok v' →
  value_ok depth v v'.
Proof.
  intros Hd Hm1 Hw Hr Hc Hempty Hloop H. cbv zeta in H.
  destruct (moved_advance input (space input v) [o] l) as [Hm2 _]; [apply Hm1|done|].
  change (advance (length [o]) (space input v)) with (advance 1 (space input v)) in Hm2.
  destruct (space_moved input (advance 1 (space input v))) as (u & Hu & Hm3 & _); [apply Hm2|].
  set (v1 := space input (advance 1 (space input v))) in *. clearbody v1.
  pose proof (moved_trans _ _ _ _ _ _ _ _ Hm2 Hm3) as Hm23. simpl in Hm23.
  destruct (consume input c v1) as [closed v2] eqn:Hcl. destruct closed.
  - injection H as <-. apply consume_true in Hcl as [Hm4 _]; [|apply Hm3].
    pose proof (moved_trans _ _ _ _ _ _ _ _ Hm23 Hm4) as Hall. simpl in Hall.
    eapply value_scalar; [done|done|done|by apply (Hempty u)|simpl; lia|done].
  - apply consume_false in Hcl as [-> _].
    pose proof (moved_trans _ _ _ _ _ _ _ _ Hm1 Hm23) as Hm13.
    destruct (Hloop v1 u Hu (proj2 (proj2 (proj2 Hm3))) Hm23) as (s & n & Hs & Hn & Hm5 & Hle); [|done|].
    { destruct Hm13 as (_ & Ho & Hmm & _). rewrite length_app in Ho. simpl in Ho. unfold counted in Hc. lia. }
    exists w, (o :: u ++ s ++ [c]), n.
    split_and!; [done|done|done|simpl; rewrite !length_app; simpl; lia| |done].
    eapply moved_eq; [exact (moved_trans _ _ _ _ _ _ _ _ Hm13 Hm5)| |lia].
    by rewrite <-!app_assoc.
Qed.

Lemma elements_ws d u s n : ws u → elements d s n → elements d (u ++ s) n.
Proof.
  intros Hu [d' w1 s' w2 n' ? ? ?|d' w1 s' w2 r n' m ? ? ? ?]; rewrite (app_assoc u).
  - apply elements_last; try done. by apply Forall_app.
  - apply elements_cons; try done. by apply Forall_app.
Qed.
Lemma members_ws d u s n ks : ws u → object_members d s n ks → object_members d (u ++ s) n ks.
Proof.
  intros Hu [d' w1 k key w2 w3 s' w4 n' ? ? ? ? ? ? ?|d' w1 k key w2 w3 s' w4 n' r m ks' ? ? ? ? ? ? ? ?];
    rewrite (app_assoc u).
  - apply members_last; try done. by apply Forall_app.
  - apply members_cons; try done. by apply Forall_app.
Qed.

Lemma sound fuel :
  (∀ depth v v', inside v → counted v → value decode_string input limits fuel depth v = Ok v' → value_ok depth v v') ∧
  (∀ depth v v', inside v → (0 ≤ members v < Z.of_nat (offset v))%Z →
     array_loop decode_string input limits fuel depth v = Ok v' → array_ok depth v v') ∧
  (∀ depth keys v v', inside v → (0 ≤ members v < Z.of_nat (offset v))%Z →
     object_loop decode_string input limits fuel depth keys v = Ok v' → object_ok depth keys v v').
Proof.
  induction fuel as [|fuel (IHv & IHa & IHo)]; [done|].
  split_and!; [|by intros; eapply array_step|by intros; eapply object_step].
  intros depth v v' Hin Hc H. cbn [value] in H.
  destruct (space_moved input v Hin) as (w & Hw & Hm1 & _).
  destruct (Nat.ltb_spec D depth) as [|Hd]; [done|]. rewrite peek_rest in H.
  destruct (rest (space input v)) as [|c l] eqn:Hr; [done|]. cbn [head] in H.
  assert (inside (space input v)) as Hin1 by apply Hm1.
  case_bool_decide as H1.
  { subst c. revert H. apply (open_sound depth "{"%char "}"%char l v w v'); try done.
    - intros u Hu. by apply json_object_empty.
    - intros v1 u Hu Hin2 Hm2 Hc2 H. apply IHo in H as (s & n & ks & Hs & Hnd & _ & Hd2 & Hn & Hm3 & Hle); [|done..].
      exists s, n. split_and!; try done. rewrite app_assoc.
      replace (D - depth)%nat with (S (D - S depth)) by lia.
      eapply json_object; [by apply members_ws|done]. }
  case_bool_decide as H2.
  { subst c. revert H. apply (open_sound depth "["%char "]"%char l v w v'); try done.
    - intros u Hu. by apply json_array_empty.
    - intros v1 u Hu Hin2 Hm2 Hc2 H. apply IHa in H as (s & n & Hs & Hd2 & Hn & Hm3 & Hle); [|done..].
      exists s, n. split_and!; try done. rewrite app_assoc.
      replace (D - depth)%nat with (S (D - S depth)) by lia. apply json_array. by apply elements_ws. }
  case_bool_decide as H3.
  { subst c. apply result_bind_Ok in H as ([key v2] & Hs & [= <-]).
    apply (string_sound input decode_string _ _ _ l) in Hs as (s & Hs & Hdec & Hm2); [|done..].
    eapply value_scalar; eauto using json_string, string_token_length. }
  case_bool_decide as H4; [refine (literal_sound depth _ v w v' Hd Hm1 Hw _ H); set_solver|].
  case_bool_decide as H5; [refine (literal_sound depth _ v w v' Hd Hm1 Hw _ H); set_solver|].
  case_bool_decide as H6; [refine (literal_sound depth _ v w v' Hd Hm1 Hw _ H); set_solver|].
  destruct (_ || _); [|done]. apply number_sound in H as (fl & s & Hs & Hrange & Hm2); [|done].
  eapply value_scalar; eauto using json_number, number_token_length.
Qed.

(** *** Termination *)

Lemma syntax_error_fuel {A} v : @syntax_error input A v ≠ Err None.
Proof. done. Qed.
Lemma ok_or_fuel {A} (o : option A) e : ok_or o (Some e) ≠ @Err (option DecodeError) A None.
Proof. by destruct o. Qed.
Lemma member_fuel v : member input limits v ≠ Err None.
Proof. unfold member. by case_match. Qed.
Lemma literal_fuel lit v : literal input lit v ≠ Err None.
Proof. unfold literal. by case_match. Qed.
Lemma string_fuel v : string_ decode_string input v ≠ Err None.
Proof.
  unfold string_. destruct (scan_string _); [|done]. rewrite bind_fuel.
  intros [H|(e & _ & [H|(k & _ & H)]%bind_fuel)]; try done; by eapply ok_or_fuel.
Qed.
Lemma digits1_fuel v : digits1 input v ≠ Err None.
Proof. unfold digits1. by destruct (negb _). Qed.
Lemma number_int_fuel v : number_int input v ≠ Err None.
Proof. unfold number_int. by repeat case_match. Qed.
Lemma number_frac_fuel v : number_frac input v ≠ Err None.
Proof.
  unfold number_frac. destruct (consume _ _ _) as [[] v1]; [|done]. rewrite bind_fuel.
  intros [H|(? & _ & H)]; [by eapply digits1_fuel|done].
Qed.
Lemma number_exp_fuel v : number_exp input v ≠ Err None.
Proof.
  unfold number_exp. destruct (peek_is _ _ v); [|done]. rewrite bind_fuel.
  intros [H|(? & _ & H)]; [by eapply digits1_fuel|done].
Qed.
Lemma number_fuel v : number input v ≠ Err None.
Proof.
  unfold number. destruct (consume _ _ v) as [minus v1]. destruct (_ && _); [done|].
  intros [H|(v2 & _ & H)]%bind_fuel; [by eapply number_int_fuel|].
  apply bind_fuel in H as [H|([dot v3] & _ & H)]; [by eapply number_frac_fuel|].
  apply bind_fuel in H as [H|([exp v4] & _ & H)]; [by eapply number_exp_fuel|].
  apply bind_fuel in H as [H|(tok & _ & H)]; [by eapply ok_or_fuel|]. by destruct (negb _).
Qed.
Lemma member_key_fuel depth keys v : member_key decode_string input limits depth keys v ≠ Err None.
Proof.
  unfold member_key. destruct (negb _); [done|].
  intros [H|([key v2] & _ & H)]%bind_fuel; [by eapply string_fuel|].
  destruct (bool_decide (key ∈ keys)); [done|].
  apply bind_fuel in H as [H|(v3 & _ & H)]; [by eapply member_fuel|].
  destruct (consume _ _ _) as [[] v4]; done.
Qed.

Lemma moved_rest v a n v' : moved v a n v' → length (rest v) = (length a + length (rest v'))%nat.
Proof. intros (-> & _). by rewrite length_app. Qed.

(** What follows a value in a collection: the closing byte, or a comma and the
    loop again on at least two bytes less. *)
Lemma after_value_fuel fuel depth (c : ascii) v v' (loop : JsonValidator → outcome JsonValidator) :
  inside v → counted v → value decode_string input limits fuel depth v = Ok v' →
  (∀ v4, inside v4 → (0 ≤ members v4 < Z.of_nat (offset v4))%Z →
     (length (rest v4) + 2 ≤ length (rest v))%nat → loop v4 ≠ Err None) →
  (let v := space input v' in
   let '(closed, v) := consume input c v in
   if closed : bool then Ok v
   else let '(comma, v) := consume input ","%char v in
        if negb comma then syntax_error input v else loop v) ≠ Err None.
Proof.
  intros Hin Hc Hval Hloop H. cbv zeta in H.
  apply (proj1 (sound fuel)) in Hval as (w & s & n & _ & _ & _ & Hn & Hm2 & _); [|done..].
  destruct (space_moved input v') as (w2 & _ & Hm3 & _); [apply Hm2|].
  destruct (consume input c (space input v')) as [[] v3] eqn:Hcl; [done|].
  apply consume_false in Hcl as [-> _].
  destruct (consume input ","%char (space input v')) as [[] v4] eqn:Hcm; [|done]. simpl in H.
  apply consume_true in Hcm as [Hm4 _]; [|apply Hm3].
  pose proof (moved_trans _ _ _ _ _ _ _ _ Hm2 (moved_trans _ _ _ _ _ _ _ _ Hm3 Hm4)) as Hm24.
  pose proof (moved_rest _ _ _ _ Hm24) as Hl. rewrite !length_app in Hl. simpl in Hl.
  revert H. apply Hloop; [apply Hm4| |lia].
  apply (moved_counted_lt _ _ _ _ Hm24 Hc). unfold len. rewrite !length_app. simpl. lia.
Qed.

Definition enough_value (fuel : nat) : Prop :=
  ∀ depth v, inside v → counted v → (2 * length (rest v) + 1 ≤ fuel)%nat →
    value decode_string input limits fuel depth v ≠ Err None.
Definition enough_array (fuel : nat) : Prop :=
  ∀ depth v, inside v → (0 ≤ members v < Z.of_nat (offset v))%Z → (2 * length (rest v) + 2 ≤ fuel)%nat →
    array_loop decode_string input limits fuel depth v ≠ Err None.
Definition enough_object (fuel : nat) : Prop :=
  ∀ depth keys v, inside v → (0 ≤ members v < Z.of_nat (offset v))%Z → (2 * length (rest v) + 2 ≤ fuel)%nat →
    object_loop decode_string input limits fuel depth keys v ≠ Err None.

Lemma enough_value_step fuel : enough_array fuel → enough_object fuel → enough_value (S fuel).
Proof.
  intros IHa IHo depth v Hin Hc Hf H. cbn [value] in H.
  destruct (space_moved input v Hin) as (w & Hw & Hm1 & _).
  destruct (Nat.ltb_spec D depth) as [|Hd]; [done|]. rewrite peek_rest in H.
  destruct (rest (space input v)) as [|c l] eqn:Hr; [done|]. cbn [head] in H.
  destruct (moved_advance input (space input v) [c] l) as [Hm2 _]; [apply Hm1|done|].
  change (advance (length [c]) (space input v)) with (advance 1 (space input v)) in Hm2.
  destruct (space_moved input (advance 1 (space input v))) as (u & Hu & Hm3 & _); [apply Hm2|].
  pose proof (moved_trans _ _ _ _ _ _ _ _ Hm1 (moved_trans _ _ _ _ _ _ _ _ Hm2 Hm3)) as Hm13.
  pose proof (moved_rest _ _ _ _ Hm13) as Hl. rewrite !length_app in Hl. simpl in Hl.
  set (v1 := space input (advance 1 (space input v))) in *. clearbody v1.
  assert (0 ≤ members v1 < Z.of_nat (offset v1))%Z as Hlt.
  { apply (moved_counted_lt _ _ _ _ Hm13 Hc). unfold len. rewrite !length_app. simpl. lia. }
  assert (inside v1) as Hin3 by apply Hm3.
  case_bool_decide.
  { destruct (consume input "}"%char v1) as [[] v2] eqn:Hcl; [done|].
    apply consume_false in Hcl as [-> _]. revert H. by apply IHo; [..|lia]. }
  case_bool_decide.
  { destruct (consume input "]"%char v1) as [[] v2] eqn:Hcl; [done|].
    apply consume_false in Hcl as [-> _]. revert H. by apply IHa; [..|lia]. }
  case_bool_decide.
  { apply bind_fuel in H as [H|(? & _ & H)]; [by eapply string_fuel|done]. }
  repeat (case_bool_decide; [by eapply literal_fuel|]).
  destruct (_ || _); [by eapply number_fuel|done].
Qed.

Lemma enough_array_step fuel : enough_value fuel → enough_array fuel → enough_array (S fuel).
Proof.
  intros IHv IHa depth v Hin Hc Hf H. cbn [array_loop] in H.
  apply bind_fuel in H as [H|(v1 & Hmem & H)]; [by eapply member_fuel|].
  apply member_sound in Hmem as [Hm1 _]; [|done..]. pose proof (moved_rest _ _ _ _ Hm1) as Hl1. simpl in Hl1.
  assert (counted v1) as Hc1.
  { destruct Hm1 as (_ & Ho & Hmm & _). simpl in Ho. unfold counted. lia. }
  apply bind_fuel in H as [H|(v2 & Hval & H)]; [revert H; apply IHv; [apply Hm1|done|lia]|].
  revert H. eapply (after_value_fuel fuel); [apply Hm1|done|exact Hval|].
  intros v4 ? ? ?. apply IHa; [done..|lia].
Qed.

Lemma enough_object_step fuel : enough_value fuel → enough_object fuel → enough_object (S fuel).
Proof.
  intros IHv IHo depth keys v Hin Hc Hf H. cbn [object_loop] in H.
  apply bind_fuel in H as [H|([key v1] & Hkey & H)]; [by eapply member_key_fuel|].
  apply member_key_sound in Hkey as (w1 & k & w1' & _ & Hk & _ & _ & Hm1 & _); [|done..].
  pose proof (moved_rest _ _ _ _ Hm1) as Hl1. rewrite !length_app in Hl1. simpl in Hl1.
  assert (counted v1) as Hc1.
  { destruct Hm1 as (_ & Ho & Hmm & _). rewrite !length_app in Ho. simpl in Ho. unfold counted. lia. }
  apply bind_fuel in H as [H|(v2 & Hval & H)]; [revert H; apply IHv; [apply Hm1|done|lia]|].
  revert H. eapply (after_value_fuel fuel); [apply Hm1|done|exact Hval|].
  intros v4 ? ? ?. apply IHo; [done..|lia].
Qed.

Lemma enough fuel : enough_value fuel ∧ enough_array fuel ∧ enough_object fuel.
Proof.
  induction fuel as [|fuel (IHv & IHa & IHo)].
  - split_and!; intros ?; intros; lia.
  - auto using enough_value_step, enough_array_step, enough_object_step.
Qed.

(** *** Completeness *)

Lemma array_loop_S fuel depth v :
  array_loop decode_string input limits (S fuel) depth v =
  (v ← member input limits v;
   v ← value decode_string input limits fuel (S depth) v;
   let v := space input v in
   let '(closed, v) := consume input "]"%char v in
   if closed : bool then Ok v
   else
     let '(comma, v) := consume input ","%char v in
     if negb comma then syntax_error input v
     else array_loop decode_string input limits fuel depth v).
Proof. done. Qed.
Lemma object_loop_S fuel depth keys v :
  object_loop decode_string input limits (S fuel) depth keys v =
  (p ← member_key decode_string input limits depth keys v;
   let '(key, v) := p in
   v ← value decode_string input limits fuel (S depth) v;
   let v := space input v in
   let '(closed, v) := consume input "}"%char v in
   if closed : bool then Ok v
   else
     let '(comma, v) := consume input ","%char v in
     if negb comma then syntax_error input v
     else object_loop decode_string input limits fuel depth (key :: keys) v).
Proof. done. Qed.
(** The dispatch on the first byte. *)
Lemma value_S fuel depth v c l :
  (depth ≤ D)%nat → rest (space input v) = c :: l →
  value decode_string input limits (S fuel) depth v =
  (let v := space input v in
   if c == "{"%char then
     let v := space input (advance 1 v) in
     let '(closed, v) := consume input "}"%char v in
     if closed : bool then Ok v else object_loop decode_string input limits fuel depth [] v
   else if c == "["%char then
     let v := space input (advance 1 v) in
     let '(closed, v) := consume input "]"%char v in
     if closed : bool then Ok v else array_loop decode_string input limits fuel depth v
   else if c == "034"%char then p ← string_ decode_string input v; Ok (snd p)
   else if c == "t"%char then literal input ["t"; "r"; "u"; "e"]%char v
   else if c == "f"%char then literal input ["f"; "a"; "l"; "s"; "e"]%char v
   else if c == "n"%char then literal input ["n"; "u"; "l"; "l"]%char v
   else if (c == "-"%char) || is_ascii_digit c then number input v
   else syntax_error input v).
Proof.
  intros Hd Hr. cbn [value]. rewrite (proj2 (Nat.ltb_ge _ _)) by done. by rewrite peek_rest, Hr.
Qed.

(** The first byte of a value. *)
Definition opens_value (c : ascii) : bool :=
  (c == "{"%char) || (c == "["%char) || (c == "034"%char) || (c == "t"%char) || (c == "f"%char)
  || (c == "n"%char) || (c == "-"%char) || is_ascii_digit c.

Lemma number_head fl s : number_token fl s →
  ∃ c l, s = c :: l ∧ ((c == "-"%char) || is_ascii_digit c = true).
Proof.
  intros [minus int dot frac exp ex Hm Hint _ _]. destruct Hm as [->| ->]; simpl.
  - destruct Hint as [|d ds Hd _ _]; simpl; eexists _, _; split; try done. rewrite Hd. by destruct (_ == _).
  - eexists _, _. by split.
Qed.

Lemma json_head d s n : json d s n → ∃ c l, s = c :: l ∧ opens_value c = true.
Proof.
  unfold opens_value.
  intros [d' s' H|d' s' key (l & -> & _) _|d' fl s' H _|d' w _|d' s' n' _|d' w _|d' s' n' ks _ _];
    try (eexists _, _; split; [reflexivity|reflexivity]).
  - rewrite !elem_of_cons, elem_of_nil in H. destruct H as [->|[->|[->|[]]]];
      (eexists _, _; split; reflexivity).
  - apply number_head in H as (c & l & -> & Hc). exists c, l. split; [done|].
    apply orb_true_iff in Hc as [->| ->]; rewrite ?orb_true_r; done.
Qed.

Lemma opens_value_inv c : opens_value c = true →
  is_space c = false ∧ c ≠ "]"%char ∧ c ≠ "}"%char ∧ c ≠ ","%char.
Proof.
  unfold opens_value. rewrite !orb_true_iff, !bool_decide_eq_true.
  intros [[[[[[[->| ->]| ->]| ->]| ->]| ->]| ->]|Hd]; try done.
  split_and!; try (intros ->; done). unfold is_space. rewrite !orb_false_iff, !bool_decide_eq_false.
  split_and!; intros ->; done.
Qed.

Lemma elements_strip d s n : elements d s n →
  ∃ u s', s = u ++ s' ∧ ws u ∧ elements d s' n ∧ ∃ c l, s' = c :: l ∧ opens_value c = true.
Proof.
  intros [d' w1 s' w2 n' ? Hs ?|d' w1 s' w2 r n' m ? Hs ? ?];
    destruct (json_head _ _ _ Hs) as (c & l & Hcl & Hc).
  - exists w1, (s' ++ w2). split_and!; try done; [by apply (elements_last _ _ [] s' w2 n'); [constructor|..]|].
    exists c, (l ++ w2). by rewrite Hcl.
  - exists w1, (s' ++ w2 ++ ","%char :: r). split_and!; try done; [by apply (elements_cons _ _ [] s' w2 r n' m); [constructor|..]|].
    exists c, (l ++ w2 ++ ","%char :: r). by rewrite Hcl.
Qed.

Lemma members_strip d s n ks : object_members d s n ks →
  ∃ u s', s = u ++ s' ∧ ws u ∧ object_members d s' n ks ∧ ∃ l, s' = "034"%char :: l.
Proof.
  intros [d' w1 k key w2 w3 s' w4 n' ? Hk ? ? ? ? ?|d' w1 k key w2 w3 s' w4 n' r m ks' ? Hk ? ? ? ? ? ?].
  - exists w1, (k ++ w2 ++ ":"%char :: w3 ++ s' ++ w4).
    split_and!; try done; [by apply (members_last _ _ [] k key w2 w3 s' w4 n'); [constructor|..]|].
    destruct Hk as (b & -> & _). by eexists.
  - exists w1, (k ++ w2 ++ ":"%char :: w3 ++ s' ++ w4 ++ ","%char :: r).
    split_and!; try done; [by apply (members_cons _ _ [] k key w2 w3 s' w4 n' r m ks'); [constructor|..]|].
    destruct Hk as (b & -> & _). by eexists.
Qed.

Lemma ws_ends w c l : ws w → is_number_char c = false → ends_number (w ++ c :: l).
Proof.
  intros Hw Hc. unfold no_head. destruct Hw as [|c' w Hc' _]; simpl; [by rewrite Hc|].
  apply negb_true_iff, not_true_is_false. unfold is_space in Hc'.
  rewrite !orb_true_iff, !bool_decide_eq_true in Hc'. by destruct Hc' as [[[->| ->]| ->]| ->].
Qed.
Lemma ws_only_ends w : ws w → ends_number w.
Proof.
  intros Hw. destruct Hw as [|c w Hc Hw]; [done|]. unfold no_head. simpl.
  apply negb_true_iff, not_true_is_false. unfold is_space in Hc.
  rewrite !orb_true_iff, !bool_decide_eq_true in Hc. by destruct Hc as [[[->| ->]| ->]| ->].
Qed.

Definition complete_value (fuel : nat) : Prop :=
  ∀ depth v w s n r, inside v → counted v → rest v = w ++ s ++ r → ws w → json (D - depth) s n →
    (depth ≤ D)%nat → ends_number r → (members v + Z.of_nat n ≤ M)%Z → (2 * length (rest v) + 1 ≤ fuel)%nat →
    ∃ v', value decode_string input limits fuel depth v = Ok v' ∧ moved v (w ++ s) (Z.of_nat n) v' ∧ rest v' = r.
Definition complete_array (fuel : nat) : Prop :=
  ∀ depth v s n r, inside v → (0 ≤ members v < Z.of_nat (offset v))%Z → rest v = s ++ "]"%char :: r →
    elements (D - S depth) s n → (S depth ≤ D)%nat → (members v + Z.of_nat n ≤ M)%Z →
    (2 * length (rest v) + 2 ≤ fuel)%nat →
    ∃ v', array_loop decode_string input limits fuel depth v = Ok v' ∧
          moved v (s ++ ["]"%char]) (Z.of_nat n) v' ∧ rest v' = r.
Definition complete_object (fuel : nat) : Prop :=
  ∀ depth keys v s n ks r, inside v → (0 ≤ members v < Z.of_nat (offset v))%Z → rest v = s ++ "}"%char :: r →
    object_members (D - S depth) s n ks → NoDup ks → (∀ k, k ∈ ks → k ∉ keys) → (S depth ≤ D)%nat →
    (members v + Z.of_nat n ≤ M)%Z → (2 * length (rest v) + 2 ≤ fuel)%nat →
    ∃ v', object_loop decode_string input limits fuel depth keys v = Ok v' ∧
          moved v (s ++ ["}"%char]) (Z.of_nat n) v' ∧ rest v' = r.

(** A value of the grammar counts fewer members than it has bytes. *)
Lemma complete_small fuel depth v v' a n :
  inside v → counted v → value decode_string input limits fuel depth v = Ok v' → moved v a n v' →
  (0 ≤ n < len a)%Z.
Proof.
  intros Hin Hc Hval (_ & Ho & Hmm & _).
  apply (proj1 (sound fuel)) in Hval as (w & s & k & _ & _ & _ & Hk & (_ & Ho' & Hmm' & _) & _); [|done..].
  rewrite length_app in Ho'. unfold len. lia.
Qed.

(** The bytes after a value in a collection: blanks and the closing byte. *)
Lemma after_value_close (c : ascii) v w r (loop : JsonValidator → outcome JsonValidator) :
  is_space c = false → inside v → rest v = w ++ c :: r → ws w →
  ∃ v', (let v := space input v in
         let '(closed, v) := consume input c v in
         if closed : bool then Ok v
         else let '(comma, v) := consume input ","%char v in
              if negb comma then syntax_error input v else loop v) = Ok v' ∧
        moved v (w ++ [c]) 0 v' ∧ rest v' = r.
Proof.
  intros Hc Hin Hr Hw. destruct (space_skips input v w (c :: r)) as [Hm Hr']; [done|done|done| |].
  { simpl. by rewrite Hc. }
  cbv zeta. rewrite (consume_hit _ _ _ _ Hr').
  destruct (moved_advance input (space input v) [c] r) as [Hm2 Hr2]; [apply Hm|done|].
  change (advance (length [c]) (space input v)) with (advance 1 (space input v)) in *.
  exists (advance 1 (space input v)). split_and!; try done.
  exact (moved_trans _ _ _ _ _ _ _ _ Hm Hm2).
Qed.

(** ... or blanks, a comma and the loop. *)
Lemma after_value_comma (c : ascii) v w r (loop : JsonValidator → outcome JsonValidator) :
  c ≠ ","%char → inside v → rest v = w ++ ","%char :: r → ws w →
  ∃ v', (let v := space input v in
         let '(closed, v) := consume input c v in
         if closed : bool then Ok v
         else let '(comma, v) := consume input ","%char v in
              if negb comma then syntax_error input v else loop v) = loop v' ∧
        moved v (w ++ [","%char]) 0 v' ∧ rest v' = r.
Proof.
  intros Hc Hin Hr Hw. destruct (space_skips input v w (","%char :: r)) as [Hm Hr']; [done..|].
  cbv zeta. rewrite consume_miss by (rewrite Hr'; simpl; congruence).
  rewrite (consume_hit _ _ _ _ Hr'). simpl.
  destruct (moved_advance input (space input v) [","%char] r) as [Hm2 Hr2]; [apply Hm|done|].
  change (advance (length [","%char]) (space input v)) with (advance 1 (space input v)) in *.
  exists (advance 1 (space input v)). split_and!; try done.
  exact (moved_trans _ _ _ _ _ _ _ _ Hm Hm2).
Qed.

Lemma member_key_complete depth keys v w1 k key w2 r :
  inside v → (0 ≤ members v < Z.of_nat (offset v))%Z → (members v + 1 ≤ M)%Z →
  rest v = w1 ++ k ++ w2 ++ ":"%char :: r → ws w1 → string_token k → decode_string k = Some key → ws w2 →
  key ∉ keys →
  ∃ v', member_key decode_string input limits depth keys v = Ok (key, v') ∧
        moved v (w1 ++ k ++ w2 ++ [":"%char]) 1 v' ∧ rest v' = r.
Proof.
  intros Hin Hc HM Hr Hw1 Hk Hd Hw2 Hkeys. unfold member_key.
  assert (∃ l, k = "034"%char :: l) as [l Hl] by (destruct Hk as (b & -> & _); eauto).
  destruct (space_skips input v w1 (k ++ w2 ++ ":"%char :: r)) as [Hm1 Hr1]; [done|done|done| |].
  { by rewrite Hl. }
  rewrite bool_decide_eq_true_2 by (rewrite peek_rest, Hr1, Hl; done). cbn [negb].
  destruct (string_complete input decode_string (space input v) k (w2 ++ ":"%char :: r) key)
    as (v2 & -> & Hm2 & Hr2); [apply Hm1|done..|]. cbn [mbind result_bind].
  set (v3 := if _ && _ then set_version_offset _ v2 else v2).
  assert (moved (space input v) k 0 v3) as Hm3
    by (eapply moved_offset; [exact Hm2|unfold v3; by destruct (_ && _)..]).
  assert (rest v3 = w2 ++ ":"%char :: r) as Hr3 by (unfold v3; by destruct (_ && _)).
  clearbody v3. rewrite bool_decide_eq_false_2 by done.
  pose proof (moved_trans _ _ _ _ _ _ _ _ Hm1 Hm3) as Hm13.
  destruct (member_complete v3) as (v4 & -> & Hm4 & Hr4); [apply Hm3|..].
  { destruct Hm13 as (_ & Ho & Hmm & _). rewrite Ho, Hmm. lia. }
  { destruct Hm13 as (_ & Ho & Hmm & _). rewrite Hmm. lia. }
  cbn [mbind result_bind]. rewrite Hr3 in Hr4.
  destruct (space_skips input v4 w2 (":"%char :: r)) as [Hm5 Hr5]; [apply Hm4|done..|].
  rewrite (consume_hit _ _ _ _ Hr5). cbn [negb].
  destruct (moved_advance input (space input v4) [":"%char] r) as [Hm6 Hr6]; [apply Hm5|done|].
  change (advance (length [":"%char]) (space input v4)) with (advance 1 (space input v4)) in *.
  eexists. split_and!; [done| |done].
  pose proof (moved_trans _ _ _ _ _ _ _ _ Hm13 (moved_trans _ _ _ _ _ _ _ _ Hm4
    (moved_trans _ _ _ _ _ _ _ _ Hm5 Hm6))) as Hall.
  eapply moved_eq; [exact Hall| |lia]. simpl. by rewrite <-app_assoc.
Qed.

(** The first element of a list of elements before [tl], and what follows it. *)
Lemma elements_inv d s n tl : elements d s n →
  ∃ w1 s1 w2 n1 t, ws w1 ∧ json d s1 n1 ∧ ws w2 ∧ s ++ tl = w1 ++ s1 ++ w2 ++ t ∧
    ((s = w1 ++ s1 ++ w2 ∧ t = tl ∧ n = S n1) ∨
     ∃ s2 m, elements d s2 m ∧ s = w1 ++ s1 ++ w2 ++ ","%char :: s2 ∧
       t = ","%char :: s2 ++ tl ∧ n = (S n1 + m)%nat).
Proof.
  intros [d' w1 s1 w2 n1 ? ? ?|d' w1 s1 w2 r' n1 m ? ? ? ?].
  - exists w1, s1, w2, n1, tl. rewrite <-!app_assoc. split_and!; auto.
  - exists w1, s1, w2, n1, (","%char :: r' ++ tl). repeat (rewrite <-!app_assoc; simpl).
    split_and!; auto. right. exists r', m. auto.
Qed.

Lemma members_inv d s n ks tl : object_members d s n ks →
  ∃ w1 k key w2 w3 s1 w4 n1 t, ws w1 ∧ string_token k ∧ decode_string k = Some key ∧ ws w2 ∧
    ws w3 ∧ json d s1 n1 ∧ ws w4 ∧ s ++ tl = w1 ++ k ++ w2 ++ ":"%char :: w3 ++ s1 ++ w4 ++ t ∧
    ((s = w1 ++ k ++ w2 ++ ":"%char :: w3 ++ s1 ++ w4 ∧ t = tl ∧ n = S n1 ∧ ks = [key]) ∨
     ∃ s2 m ks2, object_members d s2 m ks2 ∧
       s = w1 ++ k ++ w2 ++ ":"%char :: w3 ++ s1 ++ w4 ++ ","%char :: s2 ∧
       t = ","%char :: s2 ++ tl ∧ n = (S n1 + m)%nat ∧ ks = key :: ks2).
Proof.
  intros [d' w1 k key w2 w3 s1 w4 n1 ? ? ? ? ? ? ?|d' w1 k key w2 w3 s1 w4 n1 r m ks' ? ? ? ? ? ? ? ?].
  - exists w1, k, key, w2, w3, s1, w4, n1, tl. repeat (rewrite <-!app_assoc; simpl).
    split_and!; auto 10.
  - exists w1, k, key, w2, w3, s1, w4, n1, (","%char :: r ++ tl). repeat (rewrite <-!app_assoc; simpl).
    split_and!; auto. right. exists r, m, ks'. auto 10.
Qed.

(** A value of a collection followed by [t], with blanks around it. *)
Lemma complete_item fuel depth v1 w1 s1 n1 w2 t :
  complete_value fuel → inside v1 → counted v1 → rest v1 = w1 ++ s1 ++ w2 ++ t → ws w1 →
  json (D - S depth) s1 n1 → ws w2 → (S depth ≤ D)%nat → (members v1 + Z.of_nat n1 ≤ M)%Z →
  (2 * length (rest v1) + 1 ≤ fuel)%nat → (∃ c l, t = c :: l ∧ is_number_char c = false) →
  ∃ v2, value decode_string input limits fuel (S depth) v1 = Ok v2 ∧
    moved v1 (w1 ++ s1) (Z.of_nat n1) v2 ∧ rest v2 = w2 ++ t ∧ (Z.of_nat n1 < len (w1 ++ s1))%Z.
Proof.
  intros IHv Hin Hc Hr Hw1 Hs1 Hw2 Hd HM Hf (c & l & -> & Hcn).
  destruct (IHv (S depth) v1 w1 s1 n1 (w2 ++ c :: l)) as (v2 & Hval & Hm2 & Hr2); try done; [by apply ws_ends|].
  exists v2. split_and!; try done. by apply (complete_small fuel (S depth) v1 v2 _ (Z.of_nat n1)).
Qed.

Lemma complete_array_step fuel : complete_value fuel → complete_array fuel → complete_array (S fuel).
Proof.
  intros IHv IHa depth v s n r Hin Hc Hr Hs Hd HM Hf. rewrite array_loop_S.
  destruct (elements_inv _ _ _ ("]"%char :: r) Hs)
    as (w1 & s1 & w2 & n1 & t & Hw1 & Hs1 & Hw2 & Hrv & Hcase). rewrite Hrv in Hr.
  assert (n1 < n)%nat as Hnn by (destruct Hcase as [(_ & _ & ->)|(? & ? & _ & _ & _ & ->)]; lia).
  destruct (member_complete v) as (v1 & -> & Hm1 & Hr1); [done|done|lia|]. cbn [mbind result_bind].
  assert (counted v1 ∧ members v1 = members v + 1)%Z as [Hc1 Hmm1].
  { destruct Hm1 as (_ & Ho & Hmm & _). simpl in Ho. unfold counted. lia. }
  destruct (complete_item fuel depth v1 w1 s1 n1 w2 t) as (v2 & -> & Hm2 & Hr2 & Hsmall);
    try done; [apply Hm1|by rewrite Hr1|lia|rewrite Hr1; lia| |].
  { destruct Hcase as [(_ & -> & _)|(? & ? & _ & _ & -> & _)]; eauto. }
  cbn [mbind result_bind]. pose proof (moved_trans _ _ _ _ _ _ _ _ Hm1 Hm2) as Hm12. simpl in Hm12.
  destruct Hcase as [(-> & -> & ->)|(s2 & m & Hs2 & -> & -> & ->)].
  - destruct (after_value_close "]"%char v2 w2 r (array_loop decode_string input limits fuel depth))
      as (v3 & Hv3 & Hm3 & Hr3); [done|apply Hm2|done|done|]. cbv zeta in Hv3. rewrite Hv3.
    exists v3. split_and!; [done| |done].
    eapply moved_eq; [exact (moved_trans _ _ _ _ _ _ _ _ Hm12 Hm3)| |lia]. by rewrite <-!app_assoc.
  - destruct (after_value_comma "]"%char v2 w2 (s2 ++ "]"%char :: r) (array_loop decode_string input limits fuel depth))
      as (v3 & Hv3 & Hm3 & Hr3); [done|apply Hm2|done|done|]. cbv zeta in Hv3. rewrite Hv3.
    pose proof (moved_trans _ _ _ _ _ _ _ _ Hm2 Hm3) as Hm23.
    pose proof (moved_rest _ _ _ _ Hm23) as Hl. rewrite Hr1, !length_app in Hl. simpl in Hl.
    unfold len in Hsmall. rewrite length_app in Hsmall.
    destruct (IHa depth v3 s2 m r) as (v4 & -> & Hm4 & Hr4); [apply Hm3| |done|done|done| |lia|].
    { apply (moved_counted_lt _ _ _ _ Hm23 Hc1). unfold len. rewrite !length_app. simpl. lia. }
    { destruct Hm23 as (_ & _ & -> & _). lia. }
    exists v4. split_and!; [done| |done].
    eapply moved_eq; [exact (moved_trans _ _ _ _ _ _ _ _ Hm12 (moved_trans _ _ _ _ _ _ _ _ Hm3 Hm4))| |lia].
    by repeat (rewrite <-!app_assoc; simpl).
Qed.

Lemma complete_object_step fuel : complete_value fuel → complete_object fuel → complete_object (S fuel).
Proof.
  intros IHv IHo depth keys v s n ks r Hin Hc Hr Hs Hnd Hks Hd HM Hf. rewrite object_loop_S.
  destruct (members_inv _ _ _ _ ("}"%char :: r) Hs) as (w1 & k & key & w1' & w & s1 & w2 & n1 & t & Hw1 & Hk &
    Hdk & Hw1' & Hw & Hs1 & Hw2 & Hrv & Hcase). rewrite Hrv in Hr.
  assert (n1 < n ∧ key ∈ ks)%nat as [Hnn Hkey]
    by (destruct Hcase as [(_ & _ & -> & ->)|(? & ? & ? & _ & _ & _ & -> & ->)]; split; [lia|set_solver|lia|set_solver]).
  destruct (member_key_complete depth keys v w1 k key w1' (w ++ s1 ++ w2 ++ t)) as (v1 & -> & Hm1 & Hr1);
    try done; [lia|by apply Hks|]. cbn [mbind result_bind].
  pose proof (moved_rest _ _ _ _ Hm1) as Hl1. rewrite !length_app in Hl1. simpl in Hl1.
  assert (counted v1 ∧ members v1 = members v + 1)%Z as [Hc1 Hmm1].
  { destruct Hm1 as (_ & Ho & Hmm & _). rewrite !length_app in Ho. simpl in Ho. unfold counted. lia. }
  destruct (complete_item fuel depth v1 w s1 n1 w2 t) as (v2 & -> & Hm2 & Hr2 & Hsmall);
    try done; [apply Hm1|lia|lia| |].
  { destruct Hcase as [(_ & -> & _)|(? & ? & ? & _ & _ & -> & _)]; eauto. }
  cbn [mbind result_bind]. pose proof (moved_trans _ _ _ _ _ _ _ _ Hm1 Hm2) as Hm12.
  destruct Hcase as [(-> & -> & -> & ->)|(s2 & m & ks2 & Hs2 & -> & -> & -> & ->)].
  - destruct (after_value_close "}"%char v2 w2 r (object_loop decode_string input limits fuel depth (key :: keys)))
      as (v3 & Hv3 & Hm3 & Hr3); [done|apply Hm2|done|done|]. cbv zeta in Hv3. rewrite Hv3.
    exists v3. split_and!; [done| |done].
    eapply moved_eq; [exact (moved_trans _ _ _ _ _ _ _ _ Hm12 Hm3)| |lia].
    by repeat (rewrite <-!app_assoc; simpl).
  - destruct (after_value_comma "}"%char v2 w2 (s2 ++ "}"%char :: r)
      (object_loop decode_string input limits fuel depth (key :: keys)))
      as (v3 & Hv3 & Hm3 & Hr3); [done|apply Hm2|done|done|]. cbv zeta in Hv3. rewrite Hv3.
    pose proof (moved_trans _ _ _ _ _ _ _ _ Hm2 Hm3) as Hm23.
    pose proof (moved_rest _ _ _ _ Hm23) as Hl. rewrite !length_app in Hl. simpl in Hl.
    unfold len in Hsmall. rewrite length_app in Hsmall. apply list.NoDup_cons in Hnd as [Hk2 Hnd].
    destruct (IHo depth (key :: keys) v3 s2 m ks2 r) as (v4 & -> & Hm4 & Hr4);
      [apply Hm3| |done|done|done| |done| |lia|].
    { apply (moved_counted_lt _ _ _ _ Hm23 Hc1). unfold len. rewrite !length_app. simpl. lia. }
    { intros k' Hk'. apply not_elem_of_cons. split; [set_solver|]. apply Hks. set_solver. }
    { destruct Hm23 as (_ & _ & -> & _). lia. }
    exists v4. split_and!; [done| |done].
    eapply moved_eq; [exact (moved_trans _ _ _ _ _ _ _ _ Hm12 (moved_trans _ _ _ _ _ _ _ _ Hm3 Hm4))| |lia].
    by repeat (rewrite <-!app_assoc; simpl).
Qed.

Ltac no_case := rewrite bool_decide_eq_false_2 by (first [done | intros ->; done | congruence]).
Ltac yes_case := rewrite bool_decide_eq_true_2 by done.

(** A collection: closed at once, or its loop after the blanks. *)
Lemma open_empty (o c : ascii) v u r (loop : JsonValidator → outcome JsonValidator) :
  inside v → rest v = o :: u ++ c :: r → ws u → is_space c = false →
  ∃ v', (let v1 := space input (advance 1 v) in
         let '(closed, v2) := consume input c v1 in
         if closed : bool then Ok v2 else loop v2) = Ok v' ∧
        moved v (o :: u ++ [c]) 0 v' ∧ rest v' = r.
Proof.
  intros Hin Hr Hu Hc. destruct (moved_advance input v [o] (u ++ c :: r) Hin Hr) as [Hm1 Hr1].
  change (advance (length [o]) v) with (advance 1 v) in *. cbv zeta.
  destruct (space_skips input (advance 1 v) u (c :: r)) as [Hm2 Hr2]; [apply Hm1|done|done|simpl; by rewrite Hc|].
  rewrite (consume_hit _ _ _ _ Hr2).
  destruct (moved_advance input (space input (advance 1 v)) [c] r) as [Hm3 Hr3]; [apply Hm2|done|].
  exists (advance 1 (space input (advance 1 v))). split_and!; try done.
  exact (moved_trans _ _ _ _ _ _ _ _ Hm1 (moved_trans _ _ _ _ _ _ _ _ Hm2 Hm3)).
Qed.

Lemma open_loop (o c : ascii) v u b l (loop : JsonValidator → outcome JsonValidator) :
  inside v → rest v = o :: u ++ b :: l → ws u → is_space b = false → b ≠ c →
  ∃ v', (let v1 := space input (advance 1 v) in
         let '(closed, v2) := consume input c v1 in
         if closed : bool then Ok v2 else loop v2) = loop v' ∧
        moved v (o :: u) 0 v' ∧ rest v' = b :: l.
Proof.
  intros Hin Hr Hu Hb Hbc. destruct (moved_advance input v [o] (u ++ b :: l) Hin Hr) as [Hm1 Hr1].
  change (advance (length [o]) v) with (advance 1 v) in *. cbv zeta.
  destruct (space_skips input (advance 1 v) u (b :: l)) as [Hm2 Hr2]; [apply Hm1|done|done|simpl; by rewrite Hb|].
  rewrite consume_miss by (rewrite Hr2; simpl; congruence).
  exists (space input (advance 1 v)). split_and!; try done.
  exact (moved_trans _ _ _ _ _ _ _ _ Hm1 Hm2).
Qed.

Lemma complete_array_value fuel depth v es n r :
  complete_array fuel → inside v → counted v → rest v = "["%char :: es ++ "]"%char :: r →
  elements (D - S depth) es n → (S depth ≤ D)%nat → (members v + Z.of_nat n ≤ M)%Z →
  (2 * length (rest v) ≤ fuel)%nat →
  ∃ v', (let v1 := space input (advance 1 v) in
         let '(closed, v2) := consume input "]"%char v1 in
         if closed : bool then Ok v2 else array_loop decode_string input limits fuel depth v2) = Ok v' ∧
        moved v ("["%char :: es ++ ["]"%char]) (Z.of_nat n) v' ∧ rest v' = r.
Proof.
  intros IHa Hin Hc Hr Hes Hd HM Hf.
  destruct (elements_strip _ _ _ Hes) as (u & es' & -> & Hu & Hes' & b & l & -> & Hb).
  apply opens_value_inv in Hb as (Hb & Hb1 & _). rewrite <-app_assoc in Hr. simpl in Hr.
  destruct (open_loop "["%char "]"%char v u b (l ++ "]"%char :: r)
    (array_loop decode_string input limits fuel depth)) as (v1 & -> & Hm1 & Hr1); try done.
  destruct (IHa depth v1 (b :: l) n r) as (v2 & -> & Hm2 & Hr2); try done; [apply Hm1|..].
  { destruct Hm1 as (_ & Ho & Hmm & _). simpl in Ho. unfold counted in Hc. lia. }
  { destruct Hm1 as (_ & _ & -> & _). lia. }
  { apply moved_rest in Hm1. simpl in Hm1. lia. }
  exists v2. split_and!; try done.
  eapply moved_eq; [exact (moved_trans _ _ _ _ _ _ _ _ Hm1 Hm2)| |lia]. simpl. by rewrite <-app_assoc.
Qed.

Lemma complete_object_value fuel depth v es n ks r :
  complete_object fuel → inside v → counted v → rest v = "{"%char :: es ++ "}"%char :: r →
  object_members (D - S depth) es n ks → NoDup ks → (S depth ≤ D)%nat → (members v + Z.of_nat n ≤ M)%Z →
  (2 * length (rest v) ≤ fuel)%nat →
  ∃ v', (let v1 := space input (advance 1 v) in
         let '(closed, v2) := consume input "}"%char v1 in
         if closed : bool then Ok v2 else object_loop decode_string input limits fuel depth [] v2) = Ok v' ∧
        moved v ("{"%char :: es ++ ["}"%char]) (Z.of_nat n) v' ∧ rest v' = r.
Proof.
  intros IHo Hin Hc Hr Hes Hnd Hd HM Hf.
  destruct (members_strip _ _ _ _ Hes) as (u & es' & -> & Hu & Hes' & l & ->).
  rewrite <-app_assoc in Hr. simpl in Hr.
  destruct (open_loop "{"%char "}"%char v u "034"%char (l ++ "}"%char :: r)
    (object_loop decode_string input limits fuel depth [])) as (v1 & -> & Hm1 & Hr1); try done.
  destruct (IHo depth [] v1 ("034"%char :: l) n ks r) as (v2 & -> & Hm2 & Hr2); try done; [apply Hm1|..].
  { destruct Hm1 as (_ & Ho & Hmm & _). simpl in Ho. unfold counted in Hc. lia. }
  { intros k _. apply not_elem_of_nil. }
  { destruct Hm1 as (_ & _ & -> & _). lia. }
  { apply moved_rest in Hm1. simpl in Hm1. lia. }
  exists v2. split_and!; try done.
  eapply moved_eq; [exact (moved_trans _ _ _ _ _ _ _ _ Hm1 Hm2)| |lia]. simpl. by rewrite <-app_assoc.
Qed.

Lemma complete_value_step fuel : complete_array fuel → complete_object fuel → complete_value (S fuel).
Proof.
  intros IHa IHo depth v w s n r Hin Hc Hr Hw Hs Hd Hends HM Hf.
  destruct (json_head _ _ _ Hs) as (c & l & Hcl & Hopen).
  apply opens_value_inv in Hopen as (Hsp & _).
  destruct (space_skips input v w (s ++ r)) as [Hm1 Hr1]; [done|done|done|subst s; simpl; by rewrite Hsp|].
  assert (∀ v', moved (space input v) s (Z.of_nat n) v' → moved v (w ++ s) (Z.of_nat n) v') as Hglue.
  { intros v' Hm2. by eapply moved_eq; [exact (moved_trans _ _ _ _ _ _ _ _ Hm1 Hm2)| |lia]. }
  assert (counted (space input v)) as Hc1
    by (apply (moved_counted _ _ _ _ Hm1 Hc); unfold len; lia).
  assert (inside (space input v)) as Hin1 by apply Hm1.
  assert (members (space input v) = members v)%Z as Hmm by (destruct Hm1 as (_ & _ & -> & _); lia).
  assert (length (rest (space input v)) ≤ length (rest v))%nat as Hl by (apply moved_rest in Hm1; lia).
  rewrite (value_S fuel depth v c (l ++ r)) by (try done; by rewrite Hr1, Hcl). cbv zeta.
  set (v0 := space input v) in *. clearbody v0.
  assert (∀ m : outcome JsonValidator, (∃ v', m = Ok v' ∧ moved v0 s (Z.of_nat n) v' ∧ rest v' = r) →
            ∃ v', m = Ok v' ∧ moved v (w ++ s) (Z.of_nat n) v' ∧ rest v' = r) as Hfin by naive_solver.
  apply Hfin. clear Hfin Hglue Hm1 Hw Hr.
  inversion Hs as [d' s' Hlit|d' s' key Hst Hdec|d' fl s' Hnum Hran|d' u Hu|d' es n' Hes Hdd|d' u Hu
    |d' es n' ks Hes Hnd Hdd]; subst.
  - assert (∀ lit, lit = c :: l → rest v0 = lit ++ r →
       ∃ v', literal input lit v0 = Ok v' ∧ moved v0 (c :: l) (Z.of_nat 0) v' ∧ rest v' = r) as Hl'.
    { intros lit -> Hr'. destruct (moved_advance input v0 (c :: l) r Hin1 Hr') as [Hm2 Hr2].
      eexists. split_and!; [apply literal_Ok; eauto|exact Hm2|exact Hr2]. }
    rewrite !elem_of_cons, elem_of_nil in Hlit. destruct Hlit as [Heq|[Heq|[Heq|[]]]]; injection Heq as -> ->;
      repeat no_case; yes_case; by apply Hl'.
  - pose proof Hst as (b & Hb & _). injection Hb as -> ->. repeat no_case. yes_case.
    destruct (string_complete input decode_string v0 ("034"%char :: b) r key) as (v' & -> & Hm2 & Hr2);
      [done..|]. eexists. split_and!; [done|exact Hm2|done].
  - apply number_head in Hnum as Hh. destruct Hh as (c' & l' & [= <- <-] & Hcn). rewrite Hcn.
    assert (c = "-"%char ∨ is_ascii_digit c = true) as Hcn'
      by (apply orb_true_iff in Hcn as [?%bool_decide_eq_true|?]; auto).
    repeat (rewrite bool_decide_eq_false_2 by (intros ->; by destruct Hcn')).
    by apply (number_complete input v0 fl).
  - match goal with H : _ :: _ = c :: l |- _ => injection H as <- <- end. repeat no_case. yes_case. simpl in Hr1. rewrite <-app_assoc in Hr1.
    by apply open_empty.
  - match goal with H : _ :: _ = c :: l |- _ => injection H as <- <- end. repeat no_case. yes_case. simpl in Hr1. rewrite <-app_assoc in Hr1.
    destruct (D - depth)%nat as [|d] eqn:HD; [done|]. injection Hdd as ->.
    replace d with (D - S depth)%nat in Hes by lia.
    eapply complete_array_value; eauto; lia.
  - match goal with H : _ :: _ = c :: l |- _ => injection H as <- <- end. yes_case. simpl in Hr1. rewrite <-app_assoc in Hr1. by apply open_empty.
  - match goal with H : _ :: _ = c :: l |- _ => injection H as <- <- end. yes_case. simpl in Hr1. rewrite <-app_assoc in Hr1.
    destruct (D - depth)%nat as [|d] eqn:HD; [done|]. injection Hdd as ->.
    replace d with (D - S depth)%nat in Hes by lia.
    eapply complete_object_value; eauto; lia.
Qed.

Lemma complete fuel : complete_value fuel ∧ complete_array fuel ∧ complete_object fuel.
Proof.
  induction fuel as [|fuel (IHv & IHa & IHo)].
  - split_and!; intros ?; intros; lia.
  - auto using complete_value_step, complete_array_step, complete_object_step.
Qed.

End Values.

(** ** Documents *)

Lemma initial_inside input : inside input (mkValidator 0 0 [] None).
Proof. unfold inside. simpl. lia. Qed.

Lemma initial_space input :
  inside input (space input (mkValidator 0 0 [] None)) ∧ counted (space input (mkValidator 0 0 [] None)) ∧
  (length (rest input (space input (mkValidator 0 0 [] None))) ≤ length input)%nat.
Proof.
  destruct (space_moved input (mkValidator 0 0 [] None) (initial_inside input)) as (w & _ & Hm & _).
  split_and!; [apply Hm| |].
  - destruct Hm as (_ & Ho & Hmm & _). unfold counted. simpl in *. lia.
  - unfold rest. rewrite length_drop. lia.
Qed.

(** C33: validating a document always terminates: whatever the bytes and the
    limits, the fuel the validator is given, two rounds per byte, is enough, so
    it returns facts or one of the errors of the code. *)
Theorem validate_terminates decode_string input limits :
  (len input < usize_max)%Z → validate_document decode_string input limits ≠ Err None.
Proof.
  intros Hroom H. unfold validate_document in H. destruct (from_utf8 input); [done|].
  destruct (initial_space input) as (Hin & Hc & Hl).
  apply bind_fuel in H as [H|(v & _ & H)]; [|by destruct (negb _)].
  revert H. apply enough; [done..|]. unfold document_fuel. lia.
Qed.

Lemma moved_end input v a n v' : moved input v a n v' → offset v' = length input ↔ rest input v' = [].
Proof.
  intros (_ & _ & _ & Hin). pose proof (rest_length input v' Hin) as Hl. split.
  - intros Ho. apply nil_length_inv. lia.
  - intros Hr. rewrite Hr in Hl. simpl in Hl. lia.
Qed.

Lemma document_accepted decode_string input limits :
  (len input < usize_max)%Z → (0 ≤ max_members limits)%Z →
  is_ok (validate_document decode_string input limits) = true ↔
  from_utf8 input = None ∧
  ∃ n, document decode_string (Nat.min (max_depth limits) ABSOLUTE_MAX_DEPTH) input n ∧
       (Z.of_nat n ≤ max_members limits)%Z.
Proof.
  intros Hroom HM. rewrite is_ok_true. unfold validate_document.
  destruct (from_utf8 input) as [o|]; [naive_solver|].
  destruct (initial_space input) as (Hin & Hc & Hl). set (v0 := space input _) in *.
  assert (members v0 = 0)%Z as Hm0 by done. split.
  - intros (facts & H). split; [done|]. apply result_bind_Ok in H as (v1 & Hval & H).
    apply result_guard_Ok in H as [Hend _]. apply negb_false_iff, Nat.eqb_eq in Hend.
    apply (sound decode_string input (capped limits) Hroom) in Hval
      as (w & s & n & Hw & Hs & _ & _ & Hm1 & Hle); [|done..].
    destruct (space_moved input v1) as (w2 & Hw2 & Hm2 & _); [apply Hm1|].
    apply (moved_end _ _ _ _ _ Hm2) in Hend. pose proof Hm2 as (Hr2 & _).
    rewrite Hend, app_nil_r in Hr2.
    destruct (space_moved input (mkValidator 0 0 [] None) (initial_inside input)) as (w0 & Hw0 & (Hr0 & _) & _).
    exists n. split.
    + exists (w0 ++ w), s, w2. split_and!; [|by apply Forall_app|by rewrite Nat.sub_0_r in Hs|done].
      destruct Hm1 as (Hr1 & _). rewrite <-Hr2, <-!app_assoc. rewrite <-app_assoc in Hr1. rewrite <-Hr1. exact Hr0.
    + destruct Hm1 as (_ & _ & Hmm & _). rewrite Hm0 in *. simpl in Hle. lia.
  - intros (_ & n & (w1 & s & w2 & Hi & Hw1 & Hs & Hw2) & Hn).
    destruct (json_head _ _ _ _ Hs) as (c & l & Hcl & Hopen). apply opens_value_inv in Hopen as (Hsp & _).
    destruct (space_skips input (mkValidator 0 0 [] None) w1 (s ++ w2)) as [Hmv Hr0];
      [apply initial_inside|done|done|subst s; simpl; by rewrite Hsp|]. fold v0 in Hmv, Hr0.
    destruct (proj1 (complete decode_string input (capped limits) Hroom (document_fuel input))
      0%nat v0 [] s n w2) as (v1 & -> & Hm1 & Hr1); try done;
      [constructor|by rewrite Nat.sub_0_r|simpl; lia|by apply ws_only_ends|unfold document_fuel; lia|].
    cbn [mbind result_bind].
    destruct (space_skips input v1 w2 []) as [Hm2 Hr2]; [apply Hm1|by rewrite app_nil_r|done|done|].
    rewrite (proj2 (moved_end _ _ _ _ _ Hm2) Hr2), Nat.eqb_refl. simpl. eauto.
Qed.

(** C20: the validator accepts exactly the bounded JSON documents: a document
    passes if and only if it is UTF-8 and, between blanks, one value of the
    JSON grammar (with an object's member names distinct after decoding, every
    integer in the range of [i64] or [u64] and every other number finite) that
    nests no deeper than the limit and the absolute limit, and whose members
    and elements together are within the member limit. *)
Theorem validate_exact decode_string input limits :
  (len input < usize_max)%Z → (0 ≤ max_members limits)%Z →
  is_ok (validate_document decode_string input limits) = true ↔
  from_utf8 input = None ∧
  ∃ n, document decode_string (Nat.min (max_depth limits) ABSOLUTE_MAX_DEPTH) input n ∧
       (Z.of_nat n ≤ max_members limits)%Z.
Proof. apply document_accepted. Qed.

(** ** Decoding *)

Lemma read_bounded_Ok reader limit bytes :
  (len (stream reader) < usize_max)%Z → (0 ≤ limit ≤ u64_max)%Z →
  read_bounded reader limit = Ok bytes ↔
  bytes = stream reader ∧ (len (stream reader) ≤ limit)%Z ∧ fails_after reader = false.
Proof.
  intros Hlen Hl. unfold read_bounded, saturating_add_u64, clamp, usize_max, len in *.
  set (allowed := Z.max 0 (Z.min u64_max (limit + 1))).
  assert (limit ≤ allowed ≤ limit + 1 ∧ (limit < u64_max → allowed = limit + 1))%Z as [Hal Hal']
    by (unfold allowed; lia).
  rewrite !result_guard_Ok, andb_false_iff, Z.ltb_ge, length_take. split.
  - intros (Hf & Hb & [= <-]). apply Z.ltb_ge in Hb.
    destruct (decide (Z.of_nat (length (stream reader)) < allowed)%Z) as [Hlt|Hge].
    + rewrite take_ge by lia. split_and!; [done|lia|]. by destruct Hf; [lia|].
    + exfalso. destruct (decide (limit < u64_max)%Z) as [Hx%Hal'|]; lia.
  - intros (-> & Hb & Hf). rewrite (take_ge (stream reader)) by lia.
    split_and!; [by right|apply Z.ltb_ge; lia|done].
Qed.

(** A version-one record is only ever decoded from a complete reading of a
    bounded document: when [decode_v1] returns a record, the reader ended
    within the byte limit without an error, the bytes are UTF-8 and a JSON
    document within the limits, [serde_json] reads version 1 in them, and the
    record is what it decodes from the same bytes, with their negative zeroes
    rewritten. *)
Theorem decode_v1_checked decode_string header_value {T} (from_slice : list ascii → result (Z * Z) T)
    reader limits record :
  (len (stream reader) < usize_max)%Z → (0 ≤ max_bytes limits ≤ u64_max)%Z → (0 ≤ max_members limits)%Z →
  decode_v1 decode_string header_value from_slice reader limits = Ok record →
  (len (stream reader) ≤ max_bytes limits)%Z ∧ fails_after reader = false ∧
  from_utf8 (stream reader) = None ∧
  (∃ n, document decode_string (Nat.min (max_depth limits) ABSOLUTE_MAX_DEPTH) (stream reader) n ∧
        (Z.of_nat n ≤ max_members limits)%Z) ∧
  ∃ facts, validate_document decode_string (stream reader) limits = Ok facts ∧
    let bytes := normalise_negative_zeroes (stream reader) (facts_negative_zeroes facts) in
    header_value bytes = Ok (AsU64 1) ∧ from_slice bytes = Ok record.
Proof.
  intros Hroom Hb HM H. unfold decode_v1 in H. apply result_bind_Ok in H as (bytes & Hread & H).
  apply read_bounded_Ok in Hread as (-> & Hle & Hf); [|done..].
  apply result_bind_Ok in H as (facts & Hv & H).
  assert (validate_document decode_string (stream reader) limits = Ok facts) as Hvd.
  { unfold validated in Hv. by destruct (validate_document _ _ _) as [|[|]]; simplify_eq. }
  assert (from_utf8 (stream reader) = None ∧
    ∃ n, document decode_string (Nat.min (max_depth limits) ABSOLUTE_MAX_DEPTH) (stream reader) n ∧
         (Z.of_nat n ≤ max_members limits)%Z) as [Hutf Hdoc].
  { apply document_accepted; [done..|]. by rewrite Hvd. }
  split_and!; try done. exists facts. split; [done|]. cbv zeta.
  set (bs := normalise_negative_zeroes _ _) in *.
  apply result_bind_Ok in H as (version & Hver & H).
  assert (∀ A (r : result (Z * Z) A) a, typed r = Ok a → r = Ok a) as Htyped
    by (intros A [a|[l c]] a'; simpl; congruence).
  apply Htyped in Hver. destruct version as [| | |n]; try done.
  apply result_guard_Ok in H as [Hn H]. apply negb_false_iff, bool_decide_eq_true in Hn as ->. eauto.
Qed.

(** ** A concrete document *)

Definition quote_decode (l : list ascii) : option string := Some (String.string_of_list_ascii l).
Definition ex_document : list ascii :=
  ["{"; "034"; "v"; "034"; ":"; "["; "1"; ","; " "; "-"; "0"; "]"; "}"; "010"]%char.

Lemma validate_terminates_witness :
  validate_document quote_decode ex_document Limits_default = Ok (mkFacts [9%nat] None) ∧
  validate_document quote_decode ex_document Limits_default ≠ Err None.
Proof.
  split; [vm_compute; reflexivity|]. apply (validate_terminates quote_decode ex_document). by vm_compute.
Defined.

Lemma validate_exact_witness :
  ∃ n, document quote_decode 64 ex_document n ∧ (Z.of_nat n ≤ 100000)%Z.
Proof.
  apply (validate_exact quote_decode ex_document Limits_default); [by vm_compute|by vm_compute|].
  vm_compute. reflexivity.
Defined.

Lemma decode_v1_checked_witness :
  from_utf8 ex_document = None ∧
  decode_v1 quote_decode (λ _, Ok (AsU64 1)) (λ bytes, Ok (len bytes)) (mkReader ex_document false)
    Limits_default = Ok 14%Z.
Proof.
  assert (decode_v1 quote_decode (λ _, Ok (AsU64 1)) (λ bytes, Ok (len bytes))
            (mkReader ex_document false) Limits_default = Ok 14%Z) as H by (vm_compute; reflexivity).
  split; [|exact H].
  refine (proj1 (proj2 (proj2 (decode_v1_checked _ _ _ (mkReader ex_document false) Limits_default 14%Z
    _ _ _ H)))); vm_compute; [reflexivity|split; discriminate|discriminate].
Defined.
