(* ===== verification/ReviewPaths.v ===== *)
(** * ReviewPaths: matching repository paths against review globs

    Models the path matcher of [crates/routing/src/review.rs]: a recursive
    matcher over byte slices with a dense memo table, behind a shortcut for the
    literal prefix of the pattern.  Indexing the table is the only step that can
    panic; [Err Panic] is that outcome and [Err Fuel] a recursion that outlives
    its fuel.  [path_matches_exact] shows neither happens and that the matcher
    decides the glob relation. *)

From Stdlib Require Import Ascii.
From stdpp Require Import base option list strings.
From S2P Require Import Prelude.

Local Open Scope string_scope.
Local Open Scope list_scope.
Local Open Scope rust_scope.

Local Abbreviation ascii := Ascii.ascii.

Inductive Failure := Panic | Fuel.

(** ** The matcher *)

Section Matcher.
  (** Lengths of the pattern and of the path the table was made for. *)
  Context (plen slen : nat).

Definition memo_key (p s : list ascii) : nat :=
  (plen - length p) * (slen + 1) + slen - length s.

(** [a || b] and [c && a] on fallible code with a memo table. *)
Definition or_else (a : result Failure (bool * list (option bool)))
    (b : list (option bool) → result Failure (bool * list (option bool))) :
    result Failure (bool * list (option bool)) :=
  r ← a;
  let '(found, memo) := r in
  if found : bool then Ok (true, memo) else b memo.
Definition and_then (c : bool) (a : result Failure (bool * list (option bool)))
    (memo : list (option bool)) : result Failure (bool * list (option bool)) :=
  if c then a else Ok (false, memo).

Fixpoint go (fuel : nat) (p s : list ascii) (memo : list (option bool)) :
    result Failure (bool * list (option bool)) :=
  match fuel with
  | O => Err Fuel
  | S fuel' =>
      match memo !! memo_key p s with
      | None => Err Panic
      | Some (Some found) => Ok (found, memo)
      | Some None =>
          r ← match p with
              | [] => Ok (match s with [] => true | _ => false end, memo)
              | c :: p1 =>
                  if c == "*"%char then
                    let double := head p1 == Some "*"%char in
                    let rest := if double then tail p1 else p1 in
                    or_else (or_else (go fuel' rest s memo)
                      (λ memo, and_then (double && (head rest == Some "/"%char))
                                 (go fuel' (tail rest) s memo) memo))
                      (λ memo, match s with
                               | [] => Ok (false, memo)
                               | b :: s1 => and_then (double || (b != "/"%char)) (go fuel' p s1 memo) memo
                               end)
                  else if c == "?"%char then
                    match s with
                    | [] => Ok (false, memo)
                    | b :: s1 => and_then (b != "/"%char) (go fuel' p1 s1 memo) memo
                    end
                  else
                    match s with
                    | [] => Ok (false, memo)
                    | b :: s1 => and_then (b == c) (go fuel' p1 s1 memo) memo
                    end
              end;
          let '(found, memo) := r in
          Ok (found, <[memo_key p s := Some found]> memo)
      end
  end.
End Matcher.

Definition is_wildcard (c : ascii) : bool := (c == "*"%char) || (c == "?"%char).

(** [pattern.find(['*', '?']).unwrap_or(pattern.len())]. *)
Fixpoint literal_prefix (pattern : list ascii) : nat :=
  match pattern with
  | [] => O
  | c :: p => if is_wildcard c then O else S (literal_prefix p)
  end.

Fixpoint strip_bytes (prefix s : list ascii) : option (list ascii) :=
  match prefix, s with
  | [], _ => Some s
  | a :: prefix', b :: s' => if a == b then strip_bytes prefix' s' else None
  | _ :: _, [] => None
  end.

(** A call of [go] shortens the pattern or the path. *)
Definition go_fuel (pattern path : list ascii) : nat := length pattern + length path + 1.

Definition path_matches (pattern path : list ascii) : result Failure bool :=
  let prefix := literal_prefix pattern in
  match strip_bytes (take prefix pattern) path with
  | None => Ok false
  | Some path =>
      let pattern := drop prefix pattern in
      match pattern with
      | [] => Ok (match path with [] => true | _ => false end)
      | _ =>
          let memo := replicate ((length pattern + 1) * (length path + 1)) None in
          r ← go (length pattern) (length path) (go_fuel pattern path) pattern path memo;
          Ok (fst r)
      end
  end.

(** The matcher as the total function [path_matches_exact] shows it to be. *)
Definition matches (pattern path : list ascii) : bool :=
  match path_matches pattern path with Ok found => found | Err _ => false end.

Record ReviewPathExclusions := mkExclusions { patterns : list (list ascii) }.
Definition excludes (e : ReviewPathExclusions) (path : list ascii) : bool :=
  existsb (λ pattern, matches pattern path) (patterns e).

(** More literal bytes first, then fewer wildcards. *)
Definition wildcards (pattern : list ascii) : nat := length (List.filter is_wildcard pattern).
Definition path_specificity (pattern : list ascii) : nat * nat :=
  (length pattern - wildcards pattern, wildcards pattern)%nat.
(** [a < b] on specificities; the second component is reversed. *)
Definition less_specific (a b : nat * nat) : bool :=
  (Nat.ltb a.1 b.1) || ((Nat.eqb a.1 b.1) && (Nat.ltb b.2 a.2)).

(** ** The glob relation

    [*] and [?] stay within one path component; [**] also matches slashes, and
    [**/] may match nothing. *)

Definition within_component (w : list ascii) : Prop := Forall (λ c, c ≠ "/"%char) w.

Inductive glob : list ascii → list ascii → Prop :=
| glob_nil : glob [] []
| glob_char c p s : is_wildcard c = false → glob p s → glob (c :: p) (c :: s)
| glob_any p c s : c ≠ "/"%char → glob p s → glob ("?"%char :: p) (c :: s)
| glob_star p w s : head p ≠ Some "*"%char → within_component w → glob p s →
    glob ("*"%char :: p) (w ++ s)
| glob_double p w s : glob p s → glob ("*"%char :: "*"%char :: p) (w ++ s)
| glob_dirs p w s : glob p s → glob ("*"%char :: "*"%char :: "/"%char :: p) (w ++ s).

(** The relation unfolds the way the matcher recurses. *)
Lemma glob_star_unfold p s :
  head p ≠ Some "*"%char →
  glob ("*"%char :: p) s ↔
  glob p s ∨ ∃ c s', s = c :: s' ∧ c ≠ "/"%char ∧ glob ("*"%char :: p) s'.
Proof.
  intros Hp. split.
  - intros H. inversion H as [|? ? ? Hc|? ? ? ?|p' w s' Hh Hw Hg|p' w s' Hg|p' w s' Hg]; subst; try done.
    destruct Hw as [|c w Hc Hw]; [by left|right]. exists c, (w ++ s'). split_and!; [done..|]. by constructor.
  - intros [H|(c & s' & -> & Hc & H)]; [by apply (glob_star p []); [|constructor|]|].
    inversion H as [|? ? ? Hc'|? ? ? ?|p' w s'' Hh Hw Hg|p' w s'' Hg|p' w s'' Hg]; subst; try done.
    apply (glob_star p (c :: w)); [done| |done]. by constructor.
Qed.

Lemma glob_double_unfold p s :
  glob ("*"%char :: "*"%char :: p) s ↔
  glob p s ∨ (∃ p', p = "/"%char :: p' ∧ glob p' s) ∨
  ∃ c s', s = c :: s' ∧ glob ("*"%char :: "*"%char :: p) s'.
Proof.
  split.
  - intros H. inversion H as [|? ? ? Hc|? ? ? ?|p' w s' Hh Hw Hg|p' w s' Hg|p' w s' Hg]; subst; try done.
    + destruct w as [|c w]; [by left|right; right]. exists c, (w ++ s'). split; [done|]. by constructor.
    + destruct w as [|c w]; [right; left; eauto|right; right]. exists c, (w ++ s'). split; [done|].
      by apply glob_dirs.
  - intros [H|[(p' & -> & H)|(c & s' & -> & H)]].
    + by apply (glob_double p []).
    + by apply (glob_dirs p' []).
    + inversion H as [|? ? ? Hc|? ? ? ?|p' w s'' Hh Hw Hg|p' w s'' Hg|p' w s'' Hg]; subst; try done.
      * by apply (glob_double p (c :: w)).
      * by apply (glob_dirs p' (c :: w)).
Qed.

Lemma glob_any_unfold p s :
  glob ("?"%char :: p) s ↔ ∃ c s', s = c :: s' ∧ c ≠ "/"%char ∧ glob p s'.
Proof.
  split; [|intros (c & s' & -> & ? & ?); by constructor].
  intros H. inversion H; subst; try done. eauto.
Qed.

Lemma glob_char_unfold c p s : is_wildcard c = false →
  glob (c :: p) s ↔ ∃ s', s = c :: s' ∧ glob p s'.
Proof.
  intros Hc. split; [|intros (s' & -> & ?); by constructor].
  intros H. inversion H; subst; try done. eauto.
Qed.

Lemma glob_nil_unfold s : glob [] s ↔ s = [].
Proof. split; [by inversion 1|intros ->; constructor]. Qed.

(** ** The memo table *)

Section Memo.
  Context (P S : list ascii).
  Local Abbreviation plen := (length P).
  Local Abbreviation slen := (length S).

Lemma suffix_unique {A} (l a b : list A) :
  a `suffix_of` l → b `suffix_of` l → length a = length b → a = b.
Proof. intros [a' ->] [b' Hb] Hl. by apply (app_inj_2 a' b' a b). Qed.

Lemma suffix_tail {A} (c : A) l k : c :: l `suffix_of` k → l `suffix_of` k.
Proof. intros [a ->]. exists (a ++ [c]). by rewrite <-app_assoc. Qed.

Lemma memo_key_split p s : p `suffix_of` P → s `suffix_of` S →
  memo_key plen slen p s = ((plen - length p) * (slen + 1) + (slen - length s))%nat ∧
  (length p ≤ plen ∧ length s ≤ slen)%nat.
Proof.
  intros Hp%suffix_length Hs%suffix_length. unfold memo_key.
  generalize ((plen - length p) * (slen + 1))%nat as x. lia.
Qed.

Lemma row_major_inj n i j i' j' :
  (j < n → j' < n → i * n + j = i' * n + j' → i = i' ∧ j = j')%nat.
Proof. intros Hj Hj' Heq. destruct (Nat.lt_trichotomy i i') as [|[|]]; [nia| |nia]. subst. lia. Qed.

Lemma memo_key_inj p s p' s' :
  p `suffix_of` P → s `suffix_of` S → p' `suffix_of` P → s' `suffix_of` S →
  memo_key plen slen p s = memo_key plen slen p' s' → p = p' ∧ s = s'.
Proof.
  intros Hp Hs Hp' Hs' Heq.
  destruct (memo_key_split p s Hp Hs) as [E1 [L1 L2]], (memo_key_split p' s' Hp' Hs') as [E2 [L3 L4]].
  rewrite E1, E2 in Heq.
  assert (plen - length p = plen - length p' ∧ slen - length s = slen - length s')%nat as [Ha Hb].
  { apply (row_major_inj (slen + 1)); [lia..|done]. }
  split; eapply suffix_unique; eauto; lia.
Qed.

Lemma memo_key_bound p s : p `suffix_of` P → s `suffix_of` S →
  (memo_key plen slen p s < (plen + 1) * (slen + 1))%nat.
Proof. intros Hp Hs. destruct (memo_key_split p s Hp Hs) as [-> [? ?]]. nia. Qed.

(** Every entry of the table answers its question. *)
Definition memo_ok (memo : list (option bool)) : Prop :=
  length memo = ((plen + 1) * (slen + 1))%nat ∧
  ∀ p s found, p `suffix_of` P → s `suffix_of` S →
    memo !! memo_key plen slen p s = Some (Some found) → found = true ↔ glob p s.

Lemma memo_ok_insert memo p s found :
  memo_ok memo → p `suffix_of` P → s `suffix_of` S → (found = true ↔ glob p s) →
  memo_ok (<[memo_key plen slen p s := Some found]> memo).
Proof.
  intros [Hl Hm] Hp Hs Hf. split; [by rewrite length_insert|]. intros p' s' f' Hp' Hs' Hlk.
  destruct (decide (memo_key plen slen p s = memo_key plen slen p' s')) as [Heq|Hne].
  - destruct (memo_key_inj p s p' s') as [<- <-]; try done.
    rewrite list_lookup_insert_eq in Hlk; [by injection Hlk as <-|].
    rewrite Hl. by apply memo_key_bound.
  - rewrite list_lookup_insert_ne in Hlk by done. by eapply Hm.
Qed.

(** Fallible code that answers [Q] and keeps the table right. *)
Definition computes (m : result Failure (bool * list (option bool))) (Q : Prop) : Prop :=
  ∃ found memo, m = Ok (found, memo) ∧ memo_ok memo ∧ (found = true ↔ Q).

Lemma computes_iff m Q Q' : (Q ↔ Q') → computes m Q → computes m Q'.
Proof. intros HQ (f & memo & -> & Hm & Hf). exists f, memo. by rewrite <-HQ. Qed.
Lemma computes_or a b Q1 Q2 :
  computes a Q1 → (∀ memo, memo_ok memo → computes (b memo) Q2) → computes (or_else a b) (Q1 ∨ Q2).
Proof.
  intros (f & memo & -> & Hm & Hf) Hb. unfold or_else. simpl. destruct f.
  - exists true, memo. tauto.
  - eapply computes_iff; [|by apply Hb]. assert (¬ Q1) by (by rewrite <-Hf). tauto.
Qed.
Lemma computes_and c a memo Q :
  memo_ok memo → (c = true → computes a Q) → computes (and_then c a memo) (c = true ∧ Q).
Proof.
  intros Hm Ha. unfold and_then. destruct c.
  - eapply computes_iff; [|by apply Ha]. tauto.
  - exists false, memo. naive_solver.
Qed.
Lemma computes_const f memo (Q : Prop) : memo_ok memo → (f = true ↔ Q) → computes (Ok (f, memo)) Q.
Proof. intros. by exists f, memo. Qed.

(** The star case, with the rest of the pattern after one or two stars. *)
Lemma star_computes fuel p p1 s memo :
  (∀ p s memo, p `suffix_of` P → s `suffix_of` S → memo_ok memo → (length p + length s < fuel)%nat →
     computes (go plen slen fuel p s memo) (glob p s)) →
  p = "*"%char :: p1 → p `suffix_of` P → s `suffix_of` S → memo_ok memo →
  (length p + length s < Datatypes.S fuel)%nat →
  let double := head p1 == Some "*"%char in
  let rest := if double then tail p1 else p1 in
  computes
    (or_else (or_else (go plen slen fuel rest s memo)
       (λ memo, and_then (double && (head rest == Some "/"%char)) (go plen slen fuel (tail rest) s memo) memo))
       (λ memo, match s with
                | [] => Ok (false, memo)
                | b :: s1 => and_then (double || (b != "/"%char)) (go plen slen fuel p s1 memo) memo
                end))
    (glob p s).
Proof.
  intros IH -> Hp Hs Hm Hf double rest. simpl in Hf. pose proof (suffix_tail _ _ _ Hp) as Hp1.
  assert (rest `suffix_of` P ∧ length rest ≤ length p1)%nat as [Hrest Hrl].
  { unfold rest. destruct double; [|done]. destruct p1 as [|c p2]; [done|].
    split; [by eapply suffix_tail|simpl; lia]. }
  eapply computes_iff.
  2: { apply computes_or; [apply computes_or|].
    - apply IH; [done..|lia].
    - intros memo1 Hm1. apply (computes_and _ _ _ (glob (tail rest) s)); [done|]. intros _.
      assert (tail rest `suffix_of` P ∧ length (tail rest) ≤ length rest)%nat as [? ?].
      { destruct rest as [|c r]; [done|]. split; [by eapply suffix_tail|simpl; lia]. }
      apply IH; [done..|lia].
    - intros memo1 Hm1. instantiate (1 := ∃ b s1, s = b :: s1 ∧ (double || (b != "/"%char) = true) ∧ glob ("*"%char :: p1) s1).
      destruct s as [|b s1]; [apply computes_const; [done|]; split; [done|by intros (? & ? & ? & _)]|].
      eapply computes_iff; [|apply (computes_and _ _ _ (glob ("*"%char :: p1) s1)); [done|]].
      + naive_solver.
      + intros _. apply IH; [done|by eapply suffix_tail|done|simpl in *; lia]. }
  unfold rest, double. destruct (decide (head p1 = Some "*"%char)) as [Hd|Hd].
  - rewrite !bool_decide_eq_true_2 by done. destruct p1 as [|c p2]; [done|]. injection Hd as ->. simpl.
    rewrite glob_double_unfold. destruct p2 as [|c p3]; simpl.
    + naive_solver.
    + destruct (decide (c = "/"%char)) as [->|Hc].
      * rewrite bool_decide_eq_true_2 by done. naive_solver.
      * rewrite bool_decide_eq_false_2 by congruence. naive_solver.
  - rewrite !bool_decide_eq_false_2 by done. simpl. rewrite glob_star_unfold by done.
    setoid_rewrite negb_true_iff. setoid_rewrite bool_decide_eq_false. naive_solver.
Qed.

Lemma go_computes fuel p s memo :
  p `suffix_of` P → s `suffix_of` S → memo_ok memo → (length p + length s < fuel)%nat →
  computes (go plen slen fuel p s memo) (glob p s).
Proof.
  revert p s memo. induction fuel as [|fuel IH]; intros p s memo Hp Hs Hm Hf; [lia|].
  cbn [go]. destruct (memo !! memo_key plen slen p s) as [[found|]|] eqn:Hlk.
  - exists found, memo. split_and!; try done. by apply Hm.
  - match goal with |- computes (mbind ?k ?m) _ =>
      assert (computes m (glob p s)) as (f & memo1 & -> & Hm1 & Hf1) end.
    2: { simpl. exists f, (<[memo_key plen slen p s := Some f]> memo1).
         split_and!; [done|by apply memo_ok_insert|done..]. }
    clear Hlk. destruct p as [|c p1].
    { apply computes_const; [done|]. rewrite glob_nil_unfold. by destruct s. }
    case_bool_decide as Hstar; [subst c; by eapply star_computes|].
    pose proof (suffix_tail _ _ _ Hp) as Hp1. simpl in Hf.
    assert (∀ b s1, s = b :: s1 → ∀ memo1, memo_ok memo1 → computes (go plen slen fuel p1 s1 memo1) (glob p1 s1)) as Hnext.
    { intros b s1 -> memo1 Hm1. apply IH; [done|by eapply suffix_tail|done|simpl in *; lia]. }
    case_bool_decide as Hany.
    + subst c. destruct s as [|b s1]; [apply computes_const; [done|]; split; [done|by inversion 1]|].
      eapply computes_iff; [|apply computes_and; [done|intros _; by eapply Hnext]].
      rewrite glob_any_unfold, negb_true_iff, bool_decide_eq_false. naive_solver.
    + assert (is_wildcard c = false) as Hw by (unfold is_wildcard; by rewrite !bool_decide_eq_false_2).
      destruct s as [|b s1]; [apply computes_const; [done|]; split; [done|by inversion 1; subst]|].
      eapply computes_iff; [|apply computes_and; [done|intros _; by eapply Hnext]].
      rewrite glob_char_unfold, bool_decide_eq_true by done. naive_solver.
  - apply lookup_ge_None_1 in Hlk. pose proof (memo_key_bound p s Hp Hs). destruct Hm as [Hl _]. lia.
Qed.
End Memo.

(** ** The whole matcher *)

Lemma literal_prefix_split pattern :
  Forall (λ c, is_wildcard c = false) (take (literal_prefix pattern) pattern).
Proof.
  induction pattern as [|c p IH]; simpl; [constructor|].
  destruct (is_wildcard c) eqn:Hc; simpl; [constructor|]. by constructor.
Qed.

Lemma strip_bytes_Some a s r : strip_bytes a s = Some r ↔ s = a ++ r.
Proof.
  revert s. induction a as [|c a IH]; intros s; simpl; [naive_solver|].
  destruct s as [|b s]; [done|]. case_bool_decide as Hcb.
  - subst b. rewrite IH. naive_solver.
  - naive_solver.
Qed.

Lemma glob_literal a p s : Forall (λ c, is_wildcard c = false) a →
  glob (a ++ p) s ↔ ∃ r, s = a ++ r ∧ glob p r.
Proof.
  intros Ha. revert s. induction Ha as [|c a Hc Ha IH]; intros s; simpl; [naive_solver|].
  rewrite glob_char_unfold by done. setoid_rewrite IH. naive_solver.
Qed.

Lemma path_matches_glob pattern path :
  ∃ found, path_matches pattern path = Ok found ∧ (found = true ↔ glob pattern path).
Proof.
  unfold path_matches. set (n := literal_prefix pattern).
  assert (glob pattern path ↔ ∃ r, path = take n pattern ++ r ∧ glob (drop n pattern) r) as Hsplit.
  { rewrite <-(take_drop n pattern) at 1. apply glob_literal, literal_prefix_split. }
  destruct (strip_bytes (take n pattern) path) as [r|] eqn:Hs.
  - apply strip_bytes_Some in Hs. assert (glob pattern path ↔ glob (drop n pattern) r) as Hr.
    { rewrite Hsplit. split; [|eauto]. intros (r' & Hr' & Hg). rewrite Hs in Hr'.
      by apply app_inj_1 in Hr' as [_ ->]. }
    setoid_rewrite Hr. destruct (drop n pattern) as [|c q] eqn:Hd.
    { eexists. split; [done|]. rewrite glob_nil_unfold. by destruct r. }
    destruct (go_computes (c :: q) r (go_fuel (c :: q) r) (c :: q) r
      (replicate ((length (c :: q) + 1) * (length r + 1)) None)) as (f & memo & -> & _ & Hf); try done.
    + split; [by rewrite length_replicate|]. intros p s f _ _ Hlk.
      apply lookup_replicate in Hlk as [? _]. done.
    + unfold go_fuel. lia.
    + simpl. eauto.
  - exists false. split; [done|]. split; [done|]. intros (r & Hr & _)%Hsplit.
    apply strip_bytes_Some in Hr. congruence.
Qed.

(** C36: the memoised matcher decides the glob relation: for every pattern and
    path it returns (no index of its memo table is out of range and its
    recursion ends), and it answers yes exactly when the pattern, read as a glob
    with [*] and [?] within a path component and [**] across components,
    matches the path. *)
Theorem path_matches_exact pattern path :
  ∃ found, path_matches pattern path = Ok found ∧ (found = true ↔ glob pattern path).
Proof. apply path_matches_glob. Qed.

Lemma matches_glob pattern path : matches pattern path = true ↔ glob pattern path.
Proof. unfold matches. destruct (path_matches_glob pattern path) as (f & -> & Hf). done. Qed.

Lemma excludes_glob e path : excludes e path = true ↔ ∃ p, p ∈ patterns e ∧ glob p path.
Proof. unfold excludes. rewrite existsb_elem. by setoid_rewrite matches_glob. Qed.

(** A pattern [**/p] is not anchored at a component: it matches every path with
    a suffix that [p] matches, so [**/setup.py] matches [notsetup.py]. *)
Lemma double_star_unanchored p w s :
  glob p s → matches ("*"%char :: "*"%char :: "/"%char :: p) (w ++ s) = true.
Proof. intros H. apply matches_glob. by apply glob_dirs. Qed.

(** [less_specific] is a strict order; two patterns that neither precedes have
    the same specificity. *)
Lemma less_specific_total a b :
  less_specific a b = false → less_specific b a = false → a = b.
Proof.
  unfold less_specific. destruct a as [a1 a2], b as [b1 b2]; cbn [fst snd].
  rewrite !orb_false_iff, !andb_false_iff, !Nat.ltb_ge, !Nat.eqb_neq. intros. f_equal; lia.
Qed.
Lemma less_specific_trans a b c :
  less_specific a b = true → less_specific b c = true → less_specific a c = true.
Proof.
  unfold less_specific. rewrite !orb_true_iff, !andb_true_iff, !Nat.ltb_lt, !Nat.eqb_eq. lia.
Qed.
