(* ===== verification/ReviewPolicy.v ===== *)
(** * ReviewPolicy: how much review a change gets

    Models the selection half of [crates/routing/src/review.rs]: the selector
    shared by review shapes and presets, path floors (with the conservative
    stand-in for an unreadable path list), lens plans, shape selection and the
    resolution of a review panel.

    A [BTreeMap] is the list of its entries in key order.  The contents of a
    JSON route table are a type parameter: only whether it is empty is read. *)

From Stdlib Require Import Ascii.
From stdpp Require Import base option list strings sets pretty.
From S2P Require Import Prelude ReviewPaths.

Local Open Scope string_scope.
Local Open Scope list_scope.
Local Open Scope rust_scope.

(** ** Maps *)

Fixpoint get {A} (key : string) (m : list (string * A)) : option A :=
  match m with
  | [] => None
  | (k, a) :: m' => if k == key then Some a else get key m'
  end.
Definition contains_key {A} (key : string) (m : list (string * A)) : bool := is_some (get key m).
Definition remove {A} (key : string) (m : list (string * A)) : list (string * A) :=
  List.filter (λ '(k, _), k != key) m.
Fixpoint insert_key {A} (key : string) (a : A) (m : list (string * A)) : list (string * A) :=
  match m with
  | [] => [(key, a)]
  | (k, b) :: m' =>
      if k == key then (key, a) :: m'
      else if String.ltb key k then (key, a) :: (k, b) :: m'
      else (k, b) :: insert_key key a m'
  end.

(** [str::contains] of a vector and [push] unless present. *)
Definition contains (l : list string) (x : string) : bool := bool_decide (x ∈ l).
Definition push_new (l : list string) (x : string) : list string := if contains l x then l else l ++ [x].

Definition str_matches (pattern path : string) : bool :=
  matches (String.list_ascii_of_string pattern) (String.list_ascii_of_string path).

(** ** Configuration *)

Record ReviewFloor := mkFloor {
  floor_paths : list string;
  floor_tier : string;
  floor_lenses : list string;
}.
Record AppliedFloors := mkApplied {
  classes : list string;
  applied_tier : option string;
  applied_lenses : list string;
}.
Record KindLenses := mkKindLenses { kind_order : list string; kind_add : list string }.
Record PathLenses := mkPathLenses { path_add : list string }.
Record ReviewLenses := mkLenses {
  lens_order : list string;
  lenses_by_kind : list (string * KindLenses);
  lenses_by_paths : list (string * PathLenses);
}.
Inductive ReviewSynthesis := Model | Reduce.
#[export] Instance ReviewSynthesis_eq_dec : EqDecision ReviewSynthesis.
Proof. solve_decision. Defined.
Record ReviewReviewer := mkReviewer {
  pool : string;
  count : nat;
  reviewer_lenses : list string;
  reviewer_distinct : bool;
}.
Record ReviewShape := mkShape {
  reviewers : list ReviewReviewer;
  frame : bool;
  verifiers : nat;
  synthesis : ReviewSynthesis;
}.
Record Select (T : Type) := mkSelect {
  default_value : T;
  by_risk : list (string * T);
  by_kind : list (string * T);
  by_paths : list (string * T);
  by_size : list (string * T);
  by_readiness : list (string * T);
}.
Arguments mkSelect {T}.
Arguments default_value {T}.
Arguments by_risk {T}.
Arguments by_kind {T}.
Arguments by_paths {T}.
Arguments by_size {T}.
Arguments by_readiness {T}.

Record ReviewSize := mkSize {
  small_lines : Z; small_files : Z; small_crates : Z;
  medium_lines : Z; medium_files : Z; medium_crates : Z;
}.
Definition ReviewSize_default : ReviewSize := mkSize 150 3 1 1000 15 3.
Definition classify (z : ReviewSize) (lines files crates : Z) : string :=
  if (lines <=? small_lines z)%Z && (files <=? small_files z)%Z && (crates <=? small_crates z)%Z then "small"
  else if (lines <=? medium_lines z)%Z && (files <=? medium_files z)%Z && (crates <=? medium_crates z)%Z
  then "medium"
  else "large".

Record ReviewConfig := mkConfig {
  shapes : list (string * ReviewShape);
  select_rules : Select string;
  size : ReviewSize;
  lenses : ReviewLenses;
  floors : list (string * ReviewFloor);
}.

(** ** The selector *)

Record Selection (T : Type) := mkSelection {
  sel_value : T;
  sel_source : string;
  sel_matched : option string;
}.
Arguments mkSelection {T}.
Arguments sel_value {T}.
Arguments sel_source {T}.
Arguments sel_matched {T}.

(** [path_specificity(a).cmp(path_specificity(b)).then_with(b.cmp(a))] is less. *)
Definition specificity (pattern : string) : nat * nat :=
  path_specificity (String.list_ascii_of_string pattern).
Definition pattern_less (a b : string) : bool :=
  less_specific (specificity a) (specificity b)
  || ((specificity a == specificity b) && String.ltb b a).
(** [Iterator::max_by]: the last of the greatest. *)
Definition max_by {A} (less : A → A → bool) (l : list A) : option A :=
  fold_left (λ best x, match best with
                       | None => Some x
                       | Some b => if less x b then Some b else Some x
                       end) l None.

Definition any_path_matches (pattern : string) (paths : list string) : bool :=
  existsb (str_matches pattern) paths.

Definition get_key_value {A} (key : option string) (m : list (string * A)) : option (string * A) :=
  k ← key;
  a ← get k m;
  Some (k, a).

Definition readiness_key (ready : bool) : string := if ready then "ready" else "underspecified".

Definition select {T} (s : Select T) (override : option T) (risk kind : option string)
    (paths : list string) (size : option string) (ready : option bool) : Selection T :=
  match override with
  | Some value => mkSelection value "override" None
  | None =>
  match (r ← ready; v ← get (readiness_key r) (by_readiness s); Some (r, v)) with
  | Some (r, value) => mkSelection value "readiness" (Some ("readiness:" +:+ readiness_key r))
  | None =>
  match max_by (λ a b, pattern_less a.1 b.1)
          (List.filter (λ '(pattern, _), any_path_matches pattern paths) (by_paths s)) with
  | Some (pattern, value) => mkSelection value "by_paths" (Some ("by_paths:" +:+ pattern))
  | None =>
  match get_key_value risk (by_risk s) with
  | Some (key, value) => mkSelection value "by_risk" (Some ("by_risk:" +:+ key))
  | None =>
  match get_key_value kind (by_kind s) with
  | Some (key, value) => mkSelection value "by_kind" (Some ("by_kind:" +:+ key))
  | None =>
  match get_key_value size (by_size s) with
  | Some (key, value) => mkSelection value "by_size" (Some ("by_size:" +:+ key))
  | None => mkSelection (default_value s) "default" None
  end end end end end end.

(** ** Path floors *)

Definition rank (tier : string) : nat :=
  if tier == "substantial" then 1
  else if tier == "crucial" then 2
  else if tier == "terminal" then 3
  else 0.

Definition apply_floor (name : string) (floor : ReviewFloor) (r : AppliedFloors) : AppliedFloors :=
  mkApplied (push_new (classes r) name)
    (if Nat.ltb 0 (rank (floor_tier floor))
        && is_none_or (applied_tier r) (λ tier, Nat.ltb (rank tier) (rank (floor_tier floor)))
     then Some (floor_tier floor) else applied_tier r)
    (fold_left push_new (floor_lenses floor) (applied_lenses r)).

Definition floor_matches (floor : ReviewFloor) (path : string) : bool :=
  existsb (λ pattern, str_matches pattern path) (floor_paths floor).

Definition path_floor (fs : list (string * ReviewFloor)) (r : AppliedFloors) (path : string) : AppliedFloors :=
  let protected :=
    existsb (λ '(name, floor), (name != "routine") && (name != "unknown") && floor_matches floor path) fs in
  let '(matched, r) :=
    fold_left (λ '(matched, r) '(name, floor),
                 if (name == "unknown") || negb (floor_matches floor path)
                    || (protected && (name == "routine"))
                 then (matched, r)
                 else (true, apply_floor name floor r)) fs (false, r) in
  match get "unknown" fs with
  | Some floor => if negb matched then apply_floor "unknown" floor r else r
  | None => r
  end.

Definition AppliedFloors_default : AppliedFloors := mkApplied [] None [].
Definition path_floors (review : ReviewConfig) (paths : list string) : AppliedFloors :=
  fold_left (path_floor (floors review)) paths AppliedFloors_default.

(** *** An unreadable path list *)

(** [while contains_key(name) { name.push('x') }]; a map cannot hold more
    names than it has entries. *)
Fixpoint free_name {A} (fuel : nat) (name : string) (m : list (string * A)) : option string :=
  match fuel with
  | O => None
  | S fuel' => if contains_key name m then free_name fuel' (name +:+ "x") m else Some name
  end.

(** Renames the floor [special]; [None] when no free name was found. *)
Definition rename_floor (special : string) (fs : list (string * ReviewFloor)) :
    option (list (string * ReviewFloor)) :=
  match get special fs with
  | None => Some fs
  | Some floor =>
      let fs := remove special fs in
      name ← free_name (S (length fs)) ("unreadable-" +:+ special) fs;
      Some (insert_key name floor fs)
  end.

Definition unreadable_path : string := "__provenant_unreadable_paths__".
Definition add_path (floor : ReviewFloor) : ReviewFloor :=
  mkFloor (floor_paths floor ++ [unreadable_path]) (floor_tier floor) (floor_lenses floor).

Definition clear_by_paths {T} (s : Select T) : Select T :=
  mkSelect (default_value s) (by_risk s) (by_kind s) [] (by_size s) (by_readiness s).

Definition unreadable_paths (review : ReviewConfig) : option (ReviewConfig * list string) :=
  fs ← rename_floor "unknown" (floors review);
  fs ← rename_floor "routine" fs;
  Some (mkConfig (shapes review) (clear_by_paths (select_rules review)) (size review)
          (mkLenses (lens_order (lenses review)) (lenses_by_kind (lenses review)) [])
          (prod_map id add_path <$> fs),
        [unreadable_path]).

(** ** Lens plans *)

Record LensPlan := mkPlan {
  plan_order : list string;
  exclusive : bool;
  plan_add : list string;
  change_add : list string;
  matched_paths : list string;
  test_marker : bool;
}.

Definition lens_plan (review : ReviewConfig) (kind : option string) (paths : list string) (marker : bool) :
    LensPlan :=
  let entry := k ← kind; get k (lenses_by_kind (lenses review)) in
  let own := e ← entry; match kind_order e with [] => None | _ => Some e end in
  let matched :=
    fst <$> List.filter (λ '(pattern, _), any_path_matches pattern paths) (lenses_by_paths (lenses review)) in
  let change_add :=
    flat_map (λ pattern, match get pattern (lenses_by_paths (lenses review)) with
                         | Some rule => path_add rule
                         | None => []
                         end) matched
    ++ (if marker then ["tests"] else []) in
  let change_add := fold_left push_new change_add [] in
  let add := fold_left push_new change_add (match entry with Some e => kind_add e | None => [] end) in
  mkPlan (match own with Some e => kind_order e | None => lens_order (lenses review) end)
    (is_some own) add change_add matched marker.

Definition RISK_TAG_LENSES : list (string * string) :=
  [("security", "security-privacy"); ("concurrency", "concurrency-data-errors"); ("terminal", "adversarial")].
Definition risk_lenses (tags : list string) (risk : option string) : list string :=
  snd <$> List.filter (λ '(tag, _), contains tags tag || ((tag == "terminal") && (risk == Some "terminal")))
            RISK_TAG_LENSES.

(** ** Shapes *)

Record ReviewSelection := mkReviewSelection {
  selection_name : string;
  selection_source : string;
  selection_shape : ReviewShape;
}.

Definition select_review_rule (review : ReviewConfig) (override : option string)
    (risk kind : option string) (paths : list string) (size : option string) : Selection string :=
  match override, get "ready" (by_readiness (select_rules review)) with
  | None, Some value => mkSelection value "readiness" (Some "readiness:ready")
  | _, _ => select (select_rules review) override risk kind paths size None
  end.

(** Reviewers, frame, verifiers and model synthesis, compared in this order. *)
Definition Coverage : Type := nat * bool * nat * bool.
Definition coverage (review : ReviewConfig) (name : string) : Coverage :=
  match get name (shapes review) with
  | None => (0, false, 0, false)
  | Some shape => (fold_left (λ n r, n + count r) (reviewers shape) 0, frame shape, verifiers shape,
                   synthesis shape == Model)
  end.
Definition bool_lt (a b : bool) : bool := negb a && b.
Definition coverage_lt (a b : Coverage) : bool :=
  let '(a1, a2, a3, a4) := a in
  let '(b1, b2, b3, b4) := b in
  Nat.ltb a1 b1
  || (Nat.eqb a1 b1 && (bool_lt a2 b2
      || ((a2 == b2) && (Nat.ltb a3 b3
          || (Nat.eqb a3 b3 && bool_lt a4 b4))))).

(** The risk tier raised to the floor of the changed paths. *)
Definition effective_risk (risk : option string) (floor : option string) : option string :=
  match risk, floor with
  | Some requested, Some minimum => if Nat.ltb (rank requested) (rank minimum) then Some minimum else risk
  | None, Some minimum => Some minimum
  | _, None => risk
  end.

Definition contains_opt {A} (key : option string) (m : list (string * A)) : bool :=
  is_some_and key (λ k, contains_key k m).

Definition candidates (review : ReviewConfig) (override : option string) (by_paths : bool)
    (risk kind size : option string) : list (option (Selection string)) :=
  let rules := select_rules review in
  [ if is_none override && negb by_paths
       && (contains_opt kind (by_kind rules) || contains_opt size (by_size rules))
    then Some (select_review_rule review None None kind [] size) else None;
    if is_none override && negb by_paths && (kind != Some "docs") && contains_opt size (by_size rules)
    then Some (select_review_rule review None None None [] size) else None;
    if contains_opt risk (by_risk rules)
    then Some (select_review_rule review None risk None [] None) else None ].

Definition raise_coverage (review : ReviewConfig) (selected : Selection string)
    (candidate : option (Selection string)) : Selection string :=
  match candidate with
  | Some c => if coverage_lt (coverage review (sel_value selected)) (coverage review (sel_value c))
              then c else selected
  | None => selected
  end.

Definition select_shape (review : ReviewConfig) (override : option string) (risk kind : option string)
    (paths : list string) (size : option string) : result string ReviewSelection :=
  if is_some_and override (λ name, negb (contains_key name (shapes review)))
  then Err ("unknown review shape '" +:+ unwrap_or override EmptyString +:+ "'")
  else
    let floor := path_floors review paths in
    let risk := effective_risk risk (applied_tier floor) in
    let integration := if kind == Some "integration" then get "integration" (by_kind (select_rules review)) else None in
    let selected := select_review_rule review
                      (match integration with Some v => Some v | None => override end) risk kind paths size in
    let selected := if is_some integration
                    then mkSelection (sel_value selected) "by_kind" (sel_matched selected) else selected in
    let by_paths := sel_source selected == "by_paths" in
    let selected := fold_left (raise_coverage review) (candidates review override by_paths risk kind size) selected in
    match get (sel_value selected) (shapes review) with
    | None => Err ("unknown review shape '" +:+ sel_value selected +:+ "'")
    | Some shape => Ok (mkReviewSelection (sel_value selected) (sel_source selected) shape)
    end.

(** ** Panels *)

Section Panel.
  (** What a route table or a route array holds. *)
  Context {J : Type}.

(** [serde_json::Value]. *)
Inductive Value :=
| Null | Bool (b : bool) | Number (n : Z) | Text (s : string) | Table (entries : list (string * J)) | Array (l : list J).

Definition tier_is_set (tier : Value) : bool :=
  match tier with
  | Text s => negb (str_is_empty s)
  | Table [] | Array [] => false
  | Table _ | Array _ => true
  | _ => false
  end.

Record ReviewLens := mkLens { lens_name : string; lens_when : option string; lens_tier : Value }.
Record ReviewRequest := mkRequest {
  req_shape : option string;
  req_risk_tier : option string;
  req_kind : option string;
  req_size : option string;
  risk_tags : list string;
  req_lenses : list ReviewLens;
}.
Record ResolvedSlot := mkSlot {
  slot_lens : string;
  slot_tier : Value;
  slot_group : nat;
  slot_distinct : bool;
}.
Record OmittedLens := mkOmitted { omitted_lens : string; omitted_reason : string }.
Record PanelResolution := mkPanel {
  panel_shape : string;
  panel_source : string;
  panel_frame : bool;
  panel_verifiers : nat;
  panel_synthesis : ReviewSynthesis;
  slots : list ResolvedSlot;
  omitted : list OmittedLens;
}.
Record Seat := mkSeat { seat_pool : string; seat_group : nat; seat_distinct : bool }.

Definition text (value : option string) : option string :=
  v ← value; if str_is_empty v then None else Some v.

Definition group_seat (index : nat) (group : ReviewReviewer) : Seat :=
  mkSeat (pool group) index (reviewer_distinct group).
Definition seats_of (groups : list ReviewReviewer) : list Seat :=
  flat_map (λ '(index, group), replicate (count group) (group_seat index group)) (imap pair groups).
Definition named_of (groups : list ReviewReviewer) : list (string * Seat) :=
  flat_map (λ '(index, group), (λ lens, (lens, group_seat index group)) <$> reviewer_lenses group)
    (imap pair groups).

(** Floor lenses join both additions of the plan. *)
Definition plan_with_floors (plan : LensPlan) (floor_lenses : list string) : LensPlan :=
  mkPlan (plan_order plan) (exclusive plan) (fold_left push_new floor_lenses (plan_add plan))
    (fold_left push_new floor_lenses (change_add plan)) (matched_paths plan) (test_marker plan).

Definition plain_lens (name : string) : ReviewLens := mkLens name None Null.
Definition tagged_lens (name when_ : string) : ReviewLens :=
  mkLens name (if str_is_empty when_ then None else Some when_) Null.
Definition has_lens (items : list ReviewLens) (name : string) : bool :=
  existsb (λ item, lens_name item == name) items.
Definition push_lens (items : list ReviewLens) (item : ReviewLens) : list ReviewLens :=
  if has_lens items (lens_name item) then items else items ++ [item].

(** [sort_by_key], which is stable. *)
Fixpoint insert_by {A} (key : A → nat) (x : A) (l : list A) : list A :=
  match l with
  | [] => [x]
  | y :: l' => if Nat.leb (key x) (key y) then x :: l else y :: insert_by key x l'
  end.
Definition sort_by_key {A} (key : A → nat) (l : list A) : list A := foldr (insert_by key) [] l.

Definition position_or (p : string → bool) (l : list string) : nat :=
  unwrap_or (position p l) (length l).

Definition names_lens (item : ReviewLens) (lens : string) : bool :=
  (lens_name item == lens) || starts_with (lens_name item) (lens +:+ "-").

(** The candidates of a panel, in the order they take seats. *)
Definition base_list (review : ReviewConfig) (request : ReviewRequest) : list ReviewLens :=
  match req_lenses request with
  | [] => fold_left (λ items '(tag, name), push_lens items (tagged_lens name tag)) RISK_TAG_LENSES
            (plain_lens <$> lens_order (lenses review))
  | given => given
  end.

Definition caller_supplied (request : ReviewRequest) : bool :=
  match req_lenses request with [] => false | _ => true end.

Definition ordered_list (plan : LensPlan) (supplied : bool) (items : list ReviewLens) : list ReviewLens :=
  if negb supplied && negb (match plan_order plan with [] => true | _ => false end) then
    let items := if exclusive plan
                then List.filter (λ item, is_some_and (lens_when item) (λ w, negb (str_is_empty w))
                                          || contains (plan_order plan) (lens_name item)
                                          || contains (plan_add plan) (lens_name item)) items
                else items in
    sort_by_key (λ item, position_or (λ name, name == lens_name item) (plan_order plan)) items
  else items.

(** A lens the shape names runs whatever its tag. *)
Definition name_lens (items : list ReviewLens) (name : string) : list ReviewLens :=
  match update_first (λ item, lens_name item == name) (λ item, mkLens (lens_name item) None (lens_tier item)) items with
  | Some items => items
  | None => items ++ [plain_lens name]
  end.
Definition named_list (named : list (string * Seat)) (supplied : bool) (items : list ReviewLens) :
    list ReviewLens :=
  match negb supplied, named with
  | true, _ :: _ =>
      let items := fold_left name_lens (fst <$> named) items in
      sort_by_key (λ item, position_or (names_lens item) (fst <$> named)) items
  | _, _ => items
  end.

Definition lens_list (review : ReviewConfig) (request : ReviewRequest) (plan : LensPlan)
    (floor_tier : option string) (named : list (string * Seat)) : list ReviewLens :=
  let supplied := caller_supplied request in
  let items := base_list review request in
  let additions := if supplied then change_add plan else plan_add plan in
  let items := fold_left push_lens (plain_lens <$> additions) items in
  let items := if supplied && is_some floor_tier
              then fold_left push_lens (plain_lens <$> lens_order (lenses review)) items else items in
  named_list named supplied (ordered_list plan supplied items).

(** Seats taken, slots and omissions so far. *)
Record Filling := mkFilling { governed : nat; filled : list ResolvedSlot; left_out : list OmittedLens }.

Definition seat_lens (groups : list ReviewReviewer) (seats : list Seat) (named : list (string * Seat))
    (plan : LensPlan) (tags : list string) (st : Filling) (item : ReviewLens) : Filling :=
  let limit := Nat.max (length seats) 1 in
  let when_ := unwrap_or (lens_when item) EmptyString in
  let triggered := contains (change_add plan) (lens_name item) in
  let last_group := length groups - 1 in
  if negb (str_is_empty when_) && negb (contains tags when_) && negb triggered then
    mkFilling (governed st) (filled st)
      (left_out st ++ [mkOmitted (lens_name item) ("requires risk tag " +:+ when_)])
  else if tier_is_set (lens_tier item) then
    let group := match lens_tier item with
                 | Text pool_name => unwrap_or (position (λ g, pool g == pool_name) groups) last_group
                 | _ => last_group
                 end in
    mkFilling (governed st) (filled st ++ [mkSlot (lens_name item) (lens_tier item) group false]) (left_out st)
  else
    let slot_taken := str_is_empty when_ && Nat.ltb (governed st) limit in
    if str_is_empty when_ && negb slot_taken && negb (contains (plan_add plan) (lens_name item)) then
      mkFilling (governed st) (filled st)
        (left_out st ++ [mkOmitted (lens_name item) ("review shape has " +:+ pretty limit +:+ " slots")])
    else
      let governed' := if slot_taken then S (governed st) else governed st in
      let named_seat := snd <$> List.find (λ '(lens, _), names_lens item lens) named in
      let seat := match named_seat with
                  | Some seat => Some seat
                  | None => match seats !! (governed' - 1)%nat with
                            | Some seat => Some seat
                            | None => last seats
                            end
                  end in
      let slot := match seat with
                  | Some seat => mkSlot (lens_name item) (Text (seat_pool seat)) (seat_group seat)
                                   (seat_distinct seat && (slot_taken || is_some named_seat))
                  | None => mkSlot (lens_name item) (Text "senior") 0 false
                  end in
      mkFilling governed' (filled st ++ [slot]) (left_out st).

Definition SIZES : list string := ["small"; "medium"; "large"].

Definition resolve_panel (review : ReviewConfig) (request : ReviewRequest) (measured_size : option string)
    (paths : list string) (marker : bool) : result string PanelResolution :=
  let size := text (req_size request) in
  if is_some_and size (λ z, negb (contains SIZES z))
  then Err ("unknown review size '" +:+ unwrap_or size EmptyString +:+ "'")
  else
    let size := match size with Some z => Some z | None => measured_size end in
    let risk := text (req_risk_tier request) in
    let kind := text (req_kind request) in
    selected ← select_shape review (text (req_shape request)) risk kind paths size;
    let groups := reviewers (selection_shape selected) in
    let seats := seats_of groups in
    let named := named_of groups in
    let tags := risk_tags request ++ (if risk == Some "terminal" then ["terminal"] else []) in
    let applied := path_floors review paths in
    let plan := plan_with_floors (lens_plan review kind paths marker) (applied_lenses applied) in
    let items := lens_list review request plan (applied_tier applied) named in
    let st := fold_left (seat_lens groups seats named plan tags) items (mkFilling 0 [] []) in
    Ok (mkPanel (selection_name selected) (selection_source selected) (frame (selection_shape selected))
          (verifiers (selection_shape selected)) (synthesis (selection_shape selected))
          (filled st) (left_out st)).

End Panel.

(** ** Floors: what applies *)

Definition rank_opt (tier : option string) : nat := match tier with Some t => rank t | None => 0 end.

(** The floors of one path: every matching class, with [routine] only when no
    protected class matches, and [unknown] only when nothing else does. *)
Definition floor_applies (fs : list (string * ReviewFloor)) (path : string) (entry : string * ReviewFloor) : bool :=
  let protected :=
    existsb (λ '(name, floor), (name != "routine") && (name != "unknown") && floor_matches floor path) fs in
  (entry.1 != "unknown") && floor_matches entry.2 path && negb (protected && (entry.1 == "routine")).
Definition applied_to (fs : list (string * ReviewFloor)) (path : string) : list (string * ReviewFloor) :=
  match List.filter (floor_applies fs path) fs with
  | [] => match get "unknown" fs with Some floor => [("unknown", floor)] | None => [] end
  | found => found
  end.

Definition apply_entry (r : AppliedFloors) (entry : string * ReviewFloor) : AppliedFloors :=
  apply_floor entry.1 entry.2 r.

Lemma path_floor_loop path (l : list (string * ReviewFloor)) matched r protected :
  fold_left (λ '(matched, r) '(name, floor),
               if (name == "unknown") || negb (floor_matches floor path) || (protected && (name == "routine"))
               then (matched, r) else (true, apply_floor name floor r)) l (matched, r) =
  let found := List.filter (λ e : string * ReviewFloor, (e.1 != "unknown") && floor_matches e.2 path
                 && negb (protected && (e.1 == "routine"))) l in
  (matched || negb (match found with [] => true | _ => false end), fold_left apply_entry found r).
Proof.
  revert matched r. induction l as [|[name floor] l IH]; intros matched r; simpl; [by rewrite orb_false_r|].
  destruct (name == "unknown"), (floor_matches floor path), (protected && (name == "routine"));
    simpl; rewrite IH; try done; by destruct matched.
Qed.

Lemma path_floor_applied fs r path : path_floor fs r path = fold_left apply_entry (applied_to fs path) r.
Proof.
  unfold path_floor. rewrite path_floor_loop. cbv zeta. unfold applied_to, floor_applies.
  set (found := List.filter _ fs). clearbody found. destruct found as [|e found]; simpl.
  - by destruct (get "unknown" fs).
  - by destruct (get "unknown" fs).
Qed.

Lemma path_floors_applied review paths :
  path_floors review paths =
  fold_left apply_entry (flat_map (applied_to (floors review)) paths) AppliedFloors_default.
Proof.
  unfold path_floors. generalize AppliedFloors_default as r. induction paths as [|p paths IH]; intros r; simpl; [done|].
  by rewrite IH, path_floor_applied, fold_left_app.
Qed.

Lemma push_new_elem l x y : y ∈ push_new l x ↔ y ∈ l ∨ y = x.
Proof. unfold push_new, contains. case_bool_decide; set_solver. Qed.
Lemma push_all_elem xs l y : y ∈ fold_left push_new xs l ↔ y ∈ l ∨ y ∈ xs.
Proof.
  revert l. induction xs as [|x xs IH]; intros l; simpl; [set_solver|].
  rewrite IH, push_new_elem. set_solver.
Qed.

Lemma apply_floor_rank name floor r :
  rank_opt (applied_tier (apply_floor name floor r)) =
  Nat.max (rank_opt (applied_tier r)) (rank (floor_tier floor)).
Proof.
  simpl. destruct (applied_tier r) as [t|]; simpl.
  - destruct (Nat.ltb_spec 0 (rank (floor_tier floor))), (Nat.ltb_spec (rank t) (rank (floor_tier floor)));
      simpl; lia.
  - destruct (Nat.ltb_spec 0 (rank (floor_tier floor))); simpl; lia.
Qed.

(** What applying a list of floors leaves. *)
Lemma apply_entries_rank l r :
  rank_opt (applied_tier (fold_left apply_entry l r)) =
  Nat.max (rank_opt (applied_tier r)) (max_list_with (λ e, rank (floor_tier e.2)) l).
Proof.
  revert r. induction l as [|e l IH]; intros r; simpl; [lia|]. rewrite IH.
  unfold apply_entry at 1. rewrite apply_floor_rank. lia.
Qed.
Lemma apply_entries_lenses l r x :
  x ∈ applied_lenses (fold_left apply_entry l r) ↔
  x ∈ applied_lenses r ∨ ∃ e, e ∈ l ∧ x ∈ floor_lenses e.2.
Proof.
  revert r. induction l as [|e l IH]; intros r; simpl; [set_solver|].
  rewrite IH. simpl. rewrite push_all_elem. set_solver.
Qed.
Lemma apply_entries_classes l r x :
  x ∈ classes (fold_left apply_entry l r) ↔ x ∈ classes r ∨ x ∈ fst <$> l.
Proof.
  revert r. induction l as [|e l IH]; intros r; simpl; [set_solver|].
  rewrite IH. simpl. rewrite push_new_elem. set_solver.
Qed.

Lemma applied_elem review paths e :
  e ∈ flat_map (applied_to (floors review)) paths ↔ ∃ path, path ∈ paths ∧ e ∈ applied_to (floors review) path.
Proof. rewrite list_elem_of_In, in_flat_map. by setoid_rewrite <-list_elem_of_In. Qed.

Lemma max_list_with_le {A} (f : A → nat) l n : (max_list_with f l ≤ n)%nat ↔ ∀ x, x ∈ l → (f x ≤ n)%nat.
Proof.
  induction l as [|x l IH]; simpl; [split; [by intros _ ? ?%elem_of_nil|lia]|].
  rewrite Nat.max_lub_iff, IH. set_solver.
Qed.

(** the floor of a change is exactly what its paths demand: the tier has
    the highest rank among the floors that apply to some changed path (no tier
    when none ranks above routine), and the lenses and classes are those of the
    applying floors.  A class applies to a path it matches, [routine] only when
    no protected class matches too, and [unknown] only when nothing else does. *)
Theorem path_floors_exact review paths :
  rank_opt (applied_tier (path_floors review paths)) =
    max_list_with (λ e, rank (floor_tier e.2)) (flat_map (applied_to (floors review)) paths) ∧
  (∀ lens, lens ∈ applied_lenses (path_floors review paths) ↔
     ∃ path e, path ∈ paths ∧ e ∈ applied_to (floors review) path ∧ lens ∈ floor_lenses e.2) ∧
  (∀ class, class ∈ classes (path_floors review paths) ↔
     ∃ path e, path ∈ paths ∧ e ∈ applied_to (floors review) path ∧ class = e.1).
Proof.
  rewrite path_floors_applied. split_and!.
  - by rewrite apply_entries_rank.
  - intros lens. rewrite apply_entries_lenses. setoid_rewrite applied_elem. simpl. set_solver.
  - intros class. rewrite apply_entries_classes, list_elem_of_fmap. setoid_rewrite applied_elem. simpl. set_solver.
Qed.

(** *** Unreadable path lists *)

Lemma get_elem {A} key (m : list (string * A)) a : get key m = Some a → (key, a) ∈ m.
Proof.
  induction m as [|[k b] m IH]; simpl; [done|]. case_bool_decide as Hk; [|set_solver].
  intros [= ->]. subst. set_solver.
Qed.
Lemma get_None {A} key (m : list (string * A)) : get key m = None ↔ key ∉ fst <$> m.
Proof.
  induction m as [|[k b] m IH]; simpl; [set_solver|]. case_bool_decide as Hk; set_solver.
Qed.
Lemma contains_key_elem {A} key (m : list (string * A)) : contains_key key m = true ↔ key ∈ fst <$> m.
Proof.
  unfold contains_key. destruct (get key m) eqn:E; simpl.
  - apply get_elem in E. split; [|done]. intros _. apply list_elem_of_fmap. by exists (key, a).
  - apply get_None in E. done.
Qed.

Lemma insert_key_elem {A} key (a : A) m e :
  key ∉ fst <$> m → e ∈ insert_key key a m ↔ e = (key, a) ∨ e ∈ m.
Proof.
  induction m as [|[k b] m IH]; intros Hk; simpl; [set_solver|]. rewrite fmap_cons in Hk.
  rewrite bool_decide_eq_false_2 by set_solver. case_match; [set_solver|].
  rewrite !elem_of_cons, IH by set_solver. tauto.
Qed.

Fixpoint tried (fuel : nat) (name : string) : list string :=
  match fuel with O => [] | S fuel' => name :: tried fuel' (name +:+ "x") end.

Lemma app_length_string (a b : string) : String.length (a +:+ b) = (String.length a + String.length b)%nat.
Proof. induction a as [|c a IH]; simpl; [done|]. by rewrite IH. Qed.
Lemma tried_length fuel name n : n ∈ tried fuel name → (String.length name ≤ String.length n)%nat.
Proof.
  revert name. induction fuel as [|fuel IH]; intros name; simpl; [by intros ?%elem_of_nil|].
  intros [->|Hn%IH]%elem_of_cons; [done|]. rewrite app_length_string in Hn. lia.
Qed.
Lemma tried_NoDup fuel name : NoDup (tried fuel name).
Proof.
  revert name. induction fuel as [|fuel IH]; intros name; simpl; [constructor|].
  apply list.NoDup_cons. split; [|done]. intros Hn%tried_length. rewrite app_length_string in Hn. simpl in Hn. lia.
Qed.
Lemma tried_count fuel name : length (tried fuel name) = fuel.
Proof. revert name. induction fuel as [|fuel IH]; intros name; simpl; [done|]. by rewrite IH. Qed.

Lemma free_name_spec {A} fuel name (m : list (string * A)) :
  match free_name fuel name m with
  | Some n => n ∈ tried fuel name ∧ n ∉ fst <$> m
  | None => ∀ n, n ∈ tried fuel name → n ∈ fst <$> m
  end.
Proof.
  revert name. induction fuel as [|fuel IH]; intros name; simpl; [by intros ? ?%elem_of_nil|].
  destruct (contains_key name m) eqn:Hc.
  - apply contains_key_elem in Hc. specialize (IH (name +:+ "x")). destruct (free_name _ _ _); set_solver.
  - rewrite <-not_true_iff_false, contains_key_elem in Hc. set_solver.
Qed.

Lemma free_name_total {A} name (m : list (string * A)) :
  ∃ n, free_name (S (length m)) name m = Some n ∧ n ∈ tried (S (length m)) name ∧ n ∉ fst <$> m.
Proof.
  pose proof (free_name_spec (S (length m)) name m) as H.
  destruct (free_name _ _ _) as [n|]; [naive_solver|]. exfalso.
  assert (length (tried (S (length m)) name) ≤ length (fst <$> m))%nat as Hl.
  { apply NoDup_incl_length; [apply NoDup_ListNoDup, tried_NoDup|]. intros n Hn.
    apply list_elem_of_In, H. by apply list_elem_of_In. }
  rewrite tried_count, length_fmap in Hl. lia.
Qed.

Lemma remove_elem {A} key (m : list (string * A)) e : e ∈ remove key m ↔ e ∈ m ∧ e.1 ≠ key.
Proof. unfold remove. rewrite bfilter_elem. destruct e as [k a]. simpl. bool_prop. tauto. Qed.

Lemma remove_NoDup {A} key (m : list (string * A)) : NoDup (fst <$> m) → NoDup (fst <$> remove key m).
Proof.
  unfold remove. induction m as [|[k a] m IH]; [done|]. rewrite fmap_cons, list.NoDup_cons. intros [Hk Hm].
  simpl. case_match; [|by apply IH]. rewrite fmap_cons, list.NoDup_cons. split; [|by apply IH].
  simpl in *. intros (e & Heq & [He _]%bfilter_elem)%list_elem_of_fmap. apply Hk, list_elem_of_fmap. eauto.
Qed.

Lemma insert_key_NoDup {A} key (a : A) m :
  key ∉ fst <$> m → NoDup (fst <$> m) → NoDup (fst <$> insert_key key a m).
Proof.
  induction m as [|[k b] m IH]; intros Hk Hnd; simpl.
  { apply NoDup_singleton. }
  rewrite fmap_cons in Hk, Hnd. rewrite bool_decide_eq_false_2 by set_solver.
  apply list.NoDup_cons in Hnd as [Hkm Hnd]. simpl in *. case_match; rewrite ?fmap_cons.
  - apply list.NoDup_cons. split; [set_solver|]. by apply list.NoDup_cons.
  - apply list.NoDup_cons. split; [|apply IH; set_solver]. simpl.
    intros ([k' b'] & -> & He)%list_elem_of_fmap. rewrite insert_key_elem in He by set_solver.
    destruct He as [[= -> ->]|He]; [set_solver|]. apply Hkm, list_elem_of_fmap. by exists (k', b').
Qed.

(** Renaming a special floor keeps every floor; the new name is longer than any
    special one. *)
Lemma rename_floor_keeps special fs :
  NoDup (fst <$> fs) →
  ∃ fs', rename_floor special fs = Some fs' ∧ NoDup (fst <$> fs') ∧
    (∀ n f, (n, f) ∈ fs → ∃ n', (n', f) ∈ fs') ∧
    (∀ n, n ∈ fst <$> fs' → (n ∈ fst <$> fs ∧ n ≠ special) ∨ (11 + String.length special ≤ String.length n)%nat).
Proof.
  intros Hnd. unfold rename_floor. destruct (get special fs) as [f0|] eqn:Hg.
  - destruct (free_name_total ("unreadable-" +:+ special) (remove special fs)) as (n & -> & Hn & Hfree).
    exists (insert_key n f0 (remove special fs)). split_and!; [done| | |].
    + by apply insert_key_NoDup; [|apply remove_NoDup].
    + intros k f Hin. destruct (decide (k = special)) as [->|Hk].
      * exists n. rewrite insert_key_elem by done. left. f_equal.
        apply get_elem in Hg.
        by injection (NoDup_key_inj fst fs (special, f) (special, f0) Hnd Hin Hg eq_refl).
      * exists k. rewrite insert_key_elem by done. right. by apply remove_elem.
    + intros k ([k' f] & -> & He)%list_elem_of_fmap. rewrite insert_key_elem in He by done.
      destruct He as [[= -> ->]|[He Hk]%remove_elem].
      * right. apply tried_length in Hn. rewrite app_length_string in Hn. simpl in *. lia.
      * left. split; [|done]. apply list_elem_of_fmap. by exists (k', f).
  - exists fs. apply get_None in Hg. split_and!; [done|done|eauto|]. intros n Hn. left. split; [done|congruence].
Qed.

Lemma unreadable_matches floor : floor_matches (add_path floor) unreadable_path = true.
Proof.
  unfold floor_matches. simpl. rewrite existsb_app. apply orb_true_iff. right. vm_compute. reflexivity.
Qed.

(** Without special names every matching floor applies. *)
Lemma applied_to_all fs path :
  (∀ e, e ∈ fs → e.1 ≠ "unknown" ∧ e.1 ≠ "routine" ∧ floor_matches e.2 path = true) → fs ≠ [] →
  applied_to fs path = fs.
Proof.
  intros H Hne. unfold applied_to. rewrite bfilter_all; [by destruct fs|].
  intros e He. destruct (H e He) as (H1 & H2 & H3). unfold floor_applies.
  by rewrite H3, (bool_decide_eq_false_2 (e.1 = "unknown")), (bool_decide_eq_false_2 (e.1 = "routine")), andb_false_r.
Qed.

Lemma applied_to_subset fs path e : e ∈ applied_to fs path → ∃ n, (n, e.2) ∈ fs.
Proof.
  unfold applied_to. destruct (List.filter _ fs) as [|x l] eqn:Hf.
  - destruct (get "unknown" fs) as [f|] eqn:Hg; [|by intros ?%elem_of_nil].
    intros ->%list_elem_of_singleton. exists "unknown". by apply get_elem.
  - rewrite <-Hf, bfilter_elem. intros [He _]. exists e.1. by destruct e.
Qed.

(** an unreadable path list is reviewed as if it touched everything: the
    stand-in configuration always exists, and its floor for the stand-in path
    is at least the floor of any list of paths under the real configuration,
    in the rank of the tier and in the lenses. *)
Theorem unreadable_paths_cover review paths :
  NoDup (fst <$> floors review) →
  ∃ review' paths', unreadable_paths review = Some (review', paths') ∧
    (rank_opt (applied_tier (path_floors review paths)) ≤ rank_opt (applied_tier (path_floors review' paths')))%nat ∧
    ∀ lens, lens ∈ applied_lenses (path_floors review paths) → lens ∈ applied_lenses (path_floors review' paths').
Proof.
  intros Hnd. destruct (rename_floor_keeps "unknown" _ Hnd) as (fs1 & Hr1 & Hnd1 & Hk1 & Hn1).
  destruct (rename_floor_keeps "routine" _ Hnd1) as (fs2 & Hr2 & Hnd2 & Hk2 & Hn2).
  unfold unreadable_paths. rewrite Hr1. simpl. rewrite Hr2. simpl. eexists _, _. split; [done|].
  set (fs3 := prod_map id add_path <$> fs2).
  assert (∀ n f, (n, f) ∈ floors review → fs3 ≠ [] ∧ applied_to fs3 unreadable_path = fs3 ∧
            ∃ n', (n', add_path f) ∈ fs3) as Hall.
  { intros n f (n1 & H1)%Hk1. destruct (Hk2 _ _ H1) as (n2 & H2).
    assert ((n2, add_path f) ∈ fs3) as H3 by (apply list_elem_of_fmap; by exists (n2, f)).
    assert (fs3 ≠ []) as Hne by (intros Heq; rewrite Heq in H3; by apply elem_of_nil in H3).
    split_and!; [done| |eauto]. apply applied_to_all; [|done].
    intros e ([k f'] & -> & He)%list_elem_of_fmap. simpl. split_and!; [..|apply unreadable_matches].
    - intros ->. destruct (Hn2 "unknown") as [[Hin _]|Hl]; [apply list_elem_of_fmap; by exists ("unknown", f')| |simpl in Hl; lia].
      destruct (Hn1 _ Hin) as [[_ ?]|Hl]; [done|simpl in Hl; lia].
    - intros ->. destruct (Hn2 "routine") as [[_ ?]|Hl]; [apply list_elem_of_fmap; by exists ("routine", f')|done|simpl in Hl; lia]. }
  rewrite !path_floors_applied, !apply_entries_rank. simpl. rewrite app_nil_r. split.
  - apply max_list_with_le. intros e (path & _ & (n & He)%applied_to_subset)%applied_elem.
    destruct (Hall _ _ He) as (_ & -> & n' & Hn').
    exact (proj1 (max_list_with_le (λ e : string * ReviewFloor, rank (floor_tier e.2)) fs3 _)
             (Nat.le_refl _) _ Hn').
  - intros lens. rewrite !apply_entries_lenses. simpl.
    intros [?%elem_of_nil|(e & (path & _ & (n & He)%applied_to_subset)%applied_elem & Hl)]; [done|].
    destruct (Hall _ _ He) as (_ & -> & n' & Hn'). right. by exists (n', add_path e.2).
Qed.

(** ** Shapes keep the floor *)

Lemma coverage_lt_trans a b c : coverage_lt a b = false → coverage_lt b c = false → coverage_lt a c = false.
Proof.
  destruct a as [[[a1 a2] a3] a4], b as [[[b1 b2] b3] b4], c as [[[c1 c2] c3] c4]. unfold coverage_lt, bool_lt.
  destruct (Nat.ltb_spec a1 b1), (Nat.ltb_spec b1 c1), (Nat.ltb_spec a1 c1),
    (Nat.eqb_spec a1 b1), (Nat.eqb_spec b1 c1), (Nat.eqb_spec a1 c1); try lia;
  destruct (Nat.ltb_spec a3 b3), (Nat.ltb_spec b3 c3), (Nat.ltb_spec a3 c3),
    (Nat.eqb_spec a3 b3), (Nat.eqb_spec b3 c3), (Nat.eqb_spec a3 c3); try lia;
  destruct a2, b2, c2, a4, b4, c4; simpl; done.
Qed.
Lemma coverage_lt_irrefl a : coverage_lt a a = false.
Proof.
  destruct a as [[[a1 a2] a3] a4]. unfold coverage_lt, bool_lt. rewrite !Nat.ltb_irrefl, !Nat.eqb_refl.
  by destruct a2, a4.
Qed.
Lemma coverage_lt_asym a b : coverage_lt a b = true → coverage_lt b a = false.
Proof.
  intros H. apply not_true_is_false. intros H'.
  destruct a as [[[a1 a2] a3] a4], b as [[[b1 b2] b3] b4]. unfold coverage_lt, bool_lt in *.
  destruct (Nat.ltb_spec a1 b1), (Nat.ltb_spec b1 a1), (Nat.eqb_spec a1 b1), (Nat.eqb_spec b1 a1); try lia;
  destruct (Nat.ltb_spec a3 b3), (Nat.ltb_spec b3 a3), (Nat.eqb_spec a3 b3), (Nat.eqb_spec b3 a3); try lia;
  destruct a2, b2, a4, b4; simpl in *; done.
Qed.

(** Raising over candidates ends at least as high as every one of them. *)
Lemma raise_coverage_ge review cs selected :
  let final := fold_left (raise_coverage review) cs selected in
  coverage_lt (coverage review (sel_value final)) (coverage review (sel_value selected)) = false ∧
  ∀ c, Some c ∈ cs → coverage_lt (coverage review (sel_value final)) (coverage review (sel_value c)) = false.
Proof.
  cbv zeta. revert selected. induction cs as [|o cs IH]; intros selected; simpl.
  { split; [apply coverage_lt_irrefl|by intros ? ?%elem_of_nil]. }
  destruct (IH (raise_coverage review selected o)) as [Hs Hc].
  assert (coverage_lt (coverage review (sel_value (raise_coverage review selected o)))
            (coverage review (sel_value selected)) = false) as H1.
  { unfold raise_coverage. destruct o as [c|]; [|apply coverage_lt_irrefl].
    destruct (coverage_lt (coverage review (sel_value selected)) (coverage review (sel_value c))) eqn:E;
      [by apply coverage_lt_asym|apply coverage_lt_irrefl]. }
  split; [by eapply coverage_lt_trans|].
  intros c [<-|Hin]%elem_of_cons; [|auto]. eapply coverage_lt_trans; [exact Hs|].
  unfold raise_coverage.
  destruct (coverage_lt (coverage review (sel_value selected)) (coverage review (sel_value c))) eqn:E;
    [apply coverage_lt_irrefl|done].
Qed.

Lemma effective_risk_ge risk floor tier :
  effective_risk risk floor = Some tier → (rank_opt floor ≤ rank tier ∧ rank_opt risk ≤ rank tier)%nat.
Proof.
  unfold effective_risk. destruct risk as [q|], floor as [m|]; simpl.
  - destruct (Nat.ltb_spec (rank q) (rank m)); intros [= <-]; lia.
  - intros [= <-]. lia.
  - intros [= <-]. lia.
  - done.
Qed.

(** The shape of the risk tier is always a candidate. *)
Lemma candidates_risk review override paths tier kind size shape :
  get "ready" (by_readiness (select_rules review)) = None →
  get tier (by_risk (select_rules review)) = Some shape →
  Some (mkSelection shape "by_risk" (Some ("by_risk:" +:+ tier)))
    ∈ candidates review override paths (Some tier) kind size.
Proof.
  intros Hready Hshape. unfold candidates.
  assert (contains_opt (Some tier) (by_risk (select_rules review)) = true) as ->.
  { unfold contains_opt, contains_key. simpl. by rewrite Hshape. }
  assert (select_review_rule review None (Some tier) None [] None
          = mkSelection shape "by_risk" (Some ("by_risk:" +:+ tier))) as ->.
  { unfold select_review_rule, select. rewrite Hready. simpl.
    replace (List.filter _ (by_paths (select_rules review))) with (@nil (string * string)); simpl.
    { by rewrite Hshape. }
    by induction (by_paths (select_rules review)) as [|[k v] l IH]. }
  rewrite !elem_of_cons. auto.
Qed.

(** C30: a review never runs below the floor of its paths.  The shape chosen for
    a change has at least the coverage (reviewers, frame, verifiers, model
    synthesis, in this order) of the shape configured for a risk tier that ranks
    at least as high as the requested one and as every floor that applies to a
    changed path, whatever override, kind, path rule or size selected it. *)
Theorem select_shape_keeps_floor review override risk kind paths size selection :
  select_shape review override risk kind paths size = Ok selection →
  get "ready" (by_readiness (select_rules review)) = None →
  ∀ tier, effective_risk risk (applied_tier (path_floors review paths)) = Some tier →
    (∀ e, e ∈ flat_map (applied_to (floors review)) paths → rank (floor_tier e.2) ≤ rank tier)%nat ∧
    (rank_opt risk ≤ rank tier)%nat ∧
    ∀ shape, get tier (by_risk (select_rules review)) = Some shape →
      coverage_lt (coverage review (selection_name selection)) (coverage review shape) = false.
Proof.
  intros H Hready tier Htier. destruct (effective_risk_ge _ _ _ Htier) as [Hfloor Hrisk].
  split_and!; [|done|].
  - apply max_list_with_le. etransitivity; [|exact Hfloor].
    rewrite path_floors_applied, apply_entries_rank. done.
  - intros shape Hshape. unfold select_shape in H. rewrite Htier in H.
    apply result_guard_Ok in H as [_ H]. cbv zeta in H.
    set (selected := if is_some _ then _ else _) in H.
    set (final := fold_left _ _ _) in H. destruct (get (sel_value final) (shapes review)); [|done].
    injection H as <-. simpl.
    destruct (raise_coverage_ge review (candidates review override (sel_source selected == "by_paths")
      (Some tier) kind size) selected) as [_ Hc].
    specialize (Hc (mkSelection shape "by_risk" (Some ("by_risk:" +:+ tier)))). apply Hc.
    by apply candidates_risk.
Qed.

(** A configuration with two shapes: a deep one for crucial changes, demanded
    by the floor of [auth/**], and a light one for the rest. *)
Definition example_review : ReviewConfig :=
  mkConfig
    [("deep", mkShape [mkReviewer "senior" 2 [] true] true 1 Model);
     ("light", mkShape [mkReviewer "worker" 1 [] false] false 0 Reduce)]
    (mkSelect "light" [("crucial", "deep")] [("docs", "light")] [("docs/**", "light")] [] [])
    ReviewSize_default
    (mkLenses ["correctness"; "tests"] [("docs", mkKindLenses ["prose"] [])] [])
    [("protected", mkFloor ["auth/**"] "crucial" ["security-privacy"]);
     ("unknown", mkFloor [] "substantial" ["adversarial"])].

Lemma select_shape_keeps_floor_witness :
  coverage_lt (coverage example_review "deep") (coverage example_review "deep") = false.
Proof.
  refine (proj2 (proj2 (select_shape_keeps_floor example_review (Some "light") (Some "routine") (Some "docs")
    ["docs/a.md"; "auth/token.rs"] None
    (mkReviewSelection "deep" "by_risk" (mkShape [mkReviewer "senior" 2 [] true] true 1 Model))
    _ _ "crucial" _)) "deep" _); vm_compute; reflexivity.
Defined.

Lemma unreadable_paths_cover_witness :
  ∃ review' paths', unreadable_paths example_review = Some (review', paths') ∧
    (rank_opt (applied_tier (path_floors example_review ["auth/token.rs"])) ≤
     rank_opt (applied_tier (path_floors review' paths')))%nat ∧
    ∀ lens, lens ∈ applied_lenses (path_floors example_review ["auth/token.rs"]) →
      lens ∈ applied_lenses (path_floors review' paths').
Proof.
  apply (unreadable_paths_cover example_review ["auth/token.rs"]).
  apply (bool_decide_unpack _). vm_compute. exact I.
Defined.

(** ** Floor lenses are seated *)

Section FloorLenses.
  Context {J : Type}.
  Implicit Types items : list (@ReviewLens J).

Definition lens_names items : list string := lens_name <$> items.

Lemma push_lens_names items new name :
  name ∈ lens_names (fold_left push_lens new items) ↔ name ∈ lens_names items ∨ name ∈ lens_names new.
Proof.
  unfold lens_names. revert items. induction new as [|item new IH]; intros items; simpl; [set_solver|].
  rewrite IH. unfold push_lens, has_lens. destruct (existsb _ items) eqn:He.
  - apply existsb_exists in He as (y & Hy%list_elem_of_In & Heq). bool_prop.
    split; [set_solver|]. intros [?|[->|?]%elem_of_cons]; [set_solver| |set_solver].
    left. apply list_elem_of_fmap. eauto.
  - rewrite fmap_app. set_solver.
Qed.

Lemma insert_by_perm {A} (key : A → nat) x l : insert_by key x l ≡ₚ x :: l.
Proof.
  induction l as [|y l IH]; simpl; [done|]. case_match; [done|]. rewrite IH. constructor.
Qed.
Lemma sort_by_key_perm {A} (key : A → nat) l : sort_by_key key l ≡ₚ l.
Proof. induction l as [|x l IH]; simpl; [done|]. by rewrite insert_by_perm, IH. Qed.

Lemma ordered_list_keeps plan supplied items name :
  name ∈ plan_add plan → name ∈ lens_names items → name ∈ lens_names (ordered_list plan supplied items).
Proof.
  intros Hadd (item & -> & Hin)%list_elem_of_fmap. apply list_elem_of_fmap. exists item. split; [done|].
  unfold ordered_list. destruct (_ && _); [|done]. rewrite sort_by_key_perm.
  destruct (exclusive plan); [|done]. apply bfilter_elem. split; [done|].
  unfold contains. by rewrite (bool_decide_eq_true_2 _ Hadd), orb_true_r.
Qed.

Lemma name_lens_keeps items n name : name ∈ lens_names items → name ∈ lens_names (name_lens items n).
Proof.
  unfold name_lens, lens_names. destruct (update_first _ _ items) as [items'|] eqn:Hu.
  - apply (update_first_map _ _ lens_name) in Hu; [|done]. by rewrite Hu.
  - rewrite fmap_app. set_solver.
Qed.

Lemma named_list_keeps named supplied items name :
  name ∈ lens_names items → name ∈ lens_names (named_list named supplied items).
Proof.
  intros Hin. unfold named_list. destruct (negb supplied), named as [|n named]; try done.
  cbv zeta. unfold lens_names. rewrite sort_by_key_perm. fold (lens_names (fold_left name_lens (fst <$> n :: named) items)).
  generalize (fst <$> n :: named) as ns. intros ns. revert items Hin.
  induction ns as [|m ns IH]; intros items Hin; simpl; [done|]. by apply IH, name_lens_keeps.
Qed.

(** Every addition of the plan is on the list. *)
Lemma lens_list_additions review request plan tier named name :
  name ∈ plan_add plan → name ∈ change_add plan →
  name ∈ lens_names (lens_list (J:=J) review request plan tier named).
Proof.
  intros Hadd Hchange. unfold lens_list. apply named_list_keeps, ordered_list_keeps; [done|].
  assert (name ∈ lens_names (fold_left push_lens (plain_lens <$> (if caller_supplied request
            then change_add plan else plan_add plan)) (base_list review request))) as H.
  { apply push_lens_names. right. unfold lens_names. rewrite <-list_fmap_compose.
    apply list_elem_of_fmap. exists name. split; [done|]. by destruct (caller_supplied request). }
  destruct (_ && _); [|done]. apply push_lens_names. by left.
Qed.

Definition slot_names (st : @Filling J) : list string := slot_lens <$> filled st.

Lemma seat_lens_grows groups seats named plan tags st item name :
  name ∈ slot_names st → name ∈ slot_names (seat_lens groups seats named plan tags st item).
Proof.
  intros Hin. unfold seat_lens, slot_names in *. cbv zeta.
  repeat match goal with |- context [if ?b then _ else _] => destruct b end;
    simpl; rewrite ?fmap_app; set_solver.
Qed.

Lemma seat_lens_seats groups seats named plan tags st item :
  lens_name item ∈ plan_add plan → lens_name item ∈ change_add plan →
  lens_name item ∈ slot_names (seat_lens groups seats named plan tags st item).
Proof.
  intros Hadd Hchange. unfold seat_lens, slot_names, contains. cbv zeta.
  rewrite (bool_decide_eq_true_2 _ Hadd), (bool_decide_eq_true_2 _ Hchange), !andb_false_r.
  destruct (tier_is_set (lens_tier item)); simpl; rewrite fmap_app; [set_solver|].
  destruct (match snd <$> _ with Some _ => _ | None => _ end); set_solver.
Qed.

Lemma seat_lenses_seat groups seats named plan tags items st name :
  name ∈ plan_add plan → name ∈ change_add plan → name ∈ slot_names st ∨ name ∈ lens_names items →
  name ∈ slot_names (fold_left (seat_lens groups seats named plan tags) items st).
Proof.
  intros Hadd Hchange. revert st. induction items as [|item items IH]; intros st; simpl; [set_solver|].
  intros H. apply IH. destruct H as [H|[->|H]%elem_of_cons]; [|left|by right].
  - left. by apply seat_lens_grows.
  - by apply seat_lens_seats.
Qed.

(** a lens a path floor demands always has a slot.  Whatever shape, caller
    list, kind order and risk tags select, and however few seats the shape has,
    a resolved panel runs every lens of every floor that applies to a changed
    path. *)
Theorem floor_lenses_always_seated review request size paths marker (panel : @PanelResolution J) :
  resolve_panel review request size paths marker = Ok panel →
  ∀ path e lens, path ∈ paths → e ∈ applied_to (floors review) path → lens ∈ floor_lenses e.2 →
    ∃ slot, slot ∈ slots panel ∧ slot_lens slot = lens.
Proof.
  intros H path e lens Hpath He Hlens.
  assert (lens ∈ applied_lenses (path_floors review paths)) as Hfloor.
  { rewrite path_floors_applied, apply_entries_lenses. right. exists e. split; [|done]. apply applied_elem. eauto. }
  unfold resolve_panel in H. apply result_guard_Ok in H as [_ H]. cbv zeta in H.
  apply result_bind_Ok in H as (selected & _ & H). injection H as <-. simpl.
  set (plan := plan_with_floors _ _). set (items := lens_list _ _ _ _ _).
  assert (lens ∈ plan_add plan) as Hadd by (apply push_all_elem; by right).
  assert (lens ∈ change_add plan) as Hchange by (apply push_all_elem; by right).
  assert (lens ∈ lens_names items) as Hitem by by apply lens_list_additions.
  pose proof (seat_lenses_seat (reviewers (selection_shape selected)) (seats_of (reviewers (selection_shape selected)))
    (named_of (reviewers (selection_shape selected))) plan
    (risk_tags request ++ (if text (req_risk_tier request) == Some "terminal" then ["terminal"] else []))
    items (mkFilling 0 [] []) lens Hadd Hchange (or_intror Hitem)) as (slot & -> & Hslot)%list_elem_of_fmap.
  eauto.
Qed.

End FloorLenses.


Definition example_request : @ReviewRequest unit :=
  mkRequest (Some "light") (Some "routine") (Some "docs") None [] [].

Lemma floor_lenses_always_seated_witness :
  ∃ panel, resolve_panel example_review example_request None ["auth/token.rs"] false = Ok panel ∧
    ∃ slot, slot ∈ slots panel ∧ slot_lens slot = "security-privacy".
Proof.
  eexists. split; [vm_compute; reflexivity|].
  eapply (floor_lenses_always_seated example_review example_request None ["auth/token.rs"] false _ _
    "auth/token.rs" ("protected", mkFloor ["auth/**"] "crucial" ["security-privacy"]) "security-privacy").
  - by left.
  - vm_compute. left.
  - by left.
  Unshelve. vm_compute. reflexivity.
Defined.
