(* ===== verification/ReviewCheck.v ===== *)
(** * ReviewCheck: validated review policy and measured change size

    Models [ReviewConfig::validate] and [ReviewSize::classify_numstat] of
    [crates/routing/src/review.rs], with [identifier] of
    [crates/routing/src/request.rs], and shows what a validated policy
    guarantees to the shape selection of [ReviewPolicy]. *)

From Stdlib Require Import Ascii.
From stdpp Require Import base option list strings sets pretty.
From S2P Require Import Prelude ReviewPaths ReviewPolicy.

Local Open Scope string_scope.
Local Open Scope list_scope.
Local Open Scope Z_scope.
Local Open Scope rust_scope.

(** ** Validation *)

Definition identifier (text : string) : bool :=
  negb (str_is_empty text) && (str_len text <=? 64)
  && all_bytes (λ c, is_ascii_alphanumeric c || Ascii.eqb c "-" || Ascii.eqb c "_" || Ascii.eqb c ".") text.

(** [SectionError] without its detail, which [validate] leaves empty. *)
Record SectionError := mkError { field : string; code : string }.

Definition error_if (guard : bool) (field code : string) : list SectionError :=
  if guard then [mkError field code] else [].

Definition vec_len {A} (l : list A) : Z := Z.of_nat (length l).
Definition vec_is_empty {A} (l : list A) : bool := match l with [] => true | _ => false end.

(** [fold(0_usize, |total, row| total.saturating_add(row.count))]. *)
Definition total_count (rows : list ReviewReviewer) : Z :=
  fold_left (λ total row, saturating_add_u64 total (Z.of_nat (count row))) rows 0.

(** The pools of the routing configuration and of the catalogue, if any. *)
Record Pools := mkPools { config_pools : list string; catalogue_pools : option (list string) }.
Definition pool_known (pools : Pools) (name : string) : bool :=
  contains (config_pools pools) name || is_some_and (catalogue_pools pools) (λ c, contains c name).

Definition check_reviewer (pools : Pools) (shape : string) (index : nat) (r : ReviewReviewer) :
    list SectionError :=
  let prefix := shape +:+ ".reviewers[" +:+ pretty index +:+ "]" in
  error_if (negb (pool_known pools (pool r))) (prefix +:+ ".pool") "unknown_pool"
  ++ error_if (Nat.eqb (count r) 0 || (32 <? Z.of_nat (count r))) (prefix +:+ ".count") "range"
  ++ error_if ((negb (vec_is_empty (reviewer_lenses r)) && negb (Nat.eqb (length (reviewer_lenses r)) (count r)))
               || existsb (λ lens, negb (identifier lens)) (reviewer_lenses r))
       (prefix +:+ ".lenses") "invalid_lenses".

Definition check_shape (pools : Pools) (entry : string * ReviewShape) : list SectionError :=
  let '(name, shape) := entry in
  let prefix := "review.shapes." +:+ name in
  error_if (negb (identifier name)) prefix "selector"
  ++ error_if (vec_is_empty (reviewers shape) || (32 <? vec_len (reviewers shape))) (prefix +:+ ".reviewers") "limit"
  ++ error_if (32 <? Z.of_nat (verifiers shape)) (prefix +:+ ".verifiers") "range"
  ++ error_if (64 <? total_count (reviewers shape)) (prefix +:+ ".reviewers") "limit"
  ++ List.concat (imap (check_reviewer pools prefix) (reviewers shape)).

Definition TIERS : list string := ["routine"; "substantial"; "crucial"; "terminal"].

Definition check_floor (entry : string * ReviewFloor) : list SectionError :=
  let '(name, floor) := entry in
  let prefix := "review.floors." +:+ name in
  error_if (negb (identifier name)) prefix "selector"
  ++ error_if (negb (contains TIERS (floor_tier floor))) (prefix +:+ ".tier") "selector"
  ++ error_if ((128 <? vec_len (floor_paths floor))
               || existsb (λ path, str_is_empty path || (512 <? str_len path)) (floor_paths floor))
       (prefix +:+ ".paths") "selector"
  ++ error_if ((64 <? vec_len (floor_lenses floor)) || existsb (λ lens, negb (identifier lens)) (floor_lenses floor))
       (prefix +:+ ".lenses") "invalid_lenses".

Definition check_size (z : ReviewSize) : list SectionError :=
  flat_map (λ '(name, small, medium), error_if (medium <? small) ("review.size.small_" +:+ name) "range")
    [("lines", small_lines z, medium_lines z); ("files", small_files z, medium_files z);
     ("crates", small_crates z, medium_crates z)].

Definition check_kind (entry : string * KindLenses) : list SectionError :=
  let '(kind, e) := entry in
  let prefix := "review.lenses.by_kind." +:+ kind in
  error_if (negb (identifier kind)) prefix "selector"
  ++ error_if ((64 <? vec_len (kind_order e)) || (64 <? vec_len (kind_add e))) prefix "limit".

(** Every configured list of lenses with its field. *)
Definition lens_fields (l : ReviewLenses) : list (string * list string) :=
  ("review.lenses.order", lens_order l)
  :: flat_map (λ '(kind, e), [("review.lenses.by_kind." +:+ kind +:+ ".order", kind_order e);
                              ("review.lenses.by_kind." +:+ kind +:+ ".add", kind_add e)]) (lenses_by_kind l)
  ++ ((λ '(pattern, e), ("review.lenses.by_paths." +:+ pattern +:+ ".add", path_add e)) <$> lenses_by_paths l).

Definition check_selector (review : ReviewConfig) (name : string) (entry : string * string) : list SectionError :=
  let '(key, shape) := entry in
  error_if (((name != "by_paths") && negb (identifier key))
            || ((name == "by_paths") && (str_is_empty key || (512 <? str_len key))))
    ("review.select." +:+ name +:+ "." +:+ key) "selector"
  ++ error_if (negb (contains_key shape (shapes review)))
       ("review.select." +:+ name +:+ "." +:+ key) "unknown_shape".

Definition selectors (s : Select string) : list (string * list (string * string)) :=
  [("by_risk", by_risk s); ("by_kind", by_kind s); ("by_paths", by_paths s); ("by_size", by_size s)].

Definition check_path_lenses (entry : string * PathLenses) : list SectionError :=
  let '(pattern, rule) := entry in
  error_if (str_is_empty pattern || (512 <? str_len pattern)) ("review.lenses.by_paths." +:+ pattern) "selector"
  ++ error_if (64 <? vec_len (path_add rule)) ("review.lenses.by_paths." +:+ pattern +:+ ".add") "limit".

(** The errors pushed, in order. *)
Definition validate (review : ReviewConfig) (pools : Pools) : list SectionError :=
  error_if (128 <? vec_len (shapes review)) "review.shapes" "limit"
  ++ flat_map (check_shape pools) (shapes review)
  ++ error_if (128 <? vec_len (floors review)) "review.floors" "limit"
  ++ flat_map check_floor (floors review)
  ++ check_size (size review)
  ++ error_if (vec_is_empty (lens_order (lenses review)) || (64 <? vec_len (lens_order (lenses review))))
       "review.lenses.order" "limit"
  ++ flat_map check_kind (lenses_by_kind (lenses review))
  ++ flat_map (λ '(field, lens), error_if (existsb (λ name, negb (identifier name)) lens) field "invalid_lenses")
       (lens_fields (lenses review))
  ++ error_if (negb (contains_key (default_value (select_rules review)) (shapes review)))
       "review.select.default" "unknown_shape"
  ++ flat_map (λ '(name, m), flat_map (check_selector review name) m) (selectors (select_rules review))
  ++ flat_map check_path_lenses (lenses_by_paths (lenses review)).

(** ** Measuring a change *)

Definition NUL : ascii := "000"%char.
Definition TAB : ascii := "009"%char.

Definition parse_usize (s : string) : option Z := parse_uint u64_max s.

Definition crate_root (path : string) : option string :=
  if path == "Cargo.toml" then Some EmptyString else strip_suffix "/Cargo.toml" path.
Definition crate_roots (tree : string) : list string := omap crate_root (split_all NUL tree).

Definition owns (path root : string) : bool :=
  str_is_empty root || is_some_and (strip_prefix root path) (λ suffix, starts_with suffix "/").
(** [max_by_key(|root| root.len())]: the last of the longest. *)
Definition owner (roots : list string) (path : string) : option string :=
  max_by (λ a b, (str_len a <? str_len b)) (List.filter (owns path) roots).

(** One row: its added and removed lines and its path. *)
Definition numstat_row (row : string) : option (Z * Z * string) :=
  '(added, rest) ← split_once TAB row;
  '(removed, path) ← split_once TAB rest;
  added ← parse_usize added;
  removed ← parse_usize removed;
  Some (added, removed, path).

Record Tally := mkTally { lines : Z; files : Z; crates : list string }.
Definition tally_row (roots : list string) (t : Tally) (row : Z * Z * string) : Tally :=
  let '(added, removed, path) := row in
  mkTally (saturating_add_u64 (saturating_add_u64 (lines t) added) removed) (files t + 1)
    (match owner roots path with Some root => push_new (crates t) root | None => crates t end).

(** The loop; [None] is its early [return "large"]. *)
Fixpoint tally (roots : list string) (t : Tally) (rows : list string) : option Tally :=
  match rows with
  | [] => Some t
  | row :: rows' =>
      r ← numstat_row row;
      tally roots (tally_row roots t r) rows'
  end.

Definition classify_numstat (z : ReviewSize) (numstat tree : string) : string :=
  let rows := List.filter (λ row, negb (str_is_empty row)) (split_all NUL numstat) in
  match tally (crate_roots tree) (mkTally 0 0 []) rows with
  | None => "large"
  | Some t => classify z (lines t) (files t) (vec_len (crates t))
  end.

(** ** A validated policy always selects *)

Lemma error_if_nil guard field code : error_if guard field code = [] ↔ guard = false.
Proof. by destruct guard. Qed.


(** The names a policy may select exist. *)
Definition names_known (review : ReviewConfig) (s : Select string) : Prop :=
  contains_key (default_value s) (shapes review) = true ∧
  ∀ m key shape, m ∈ [by_risk s; by_kind s; by_paths s; by_size s] → (key, shape) ∈ m →
    contains_key shape (shapes review) = true.

Lemma validate_names_known review pools : validate review pools = [] → names_known review (select_rules review).
Proof.
  unfold validate. rewrite !app_nil. intros (_ & _ & _ & _ & _ & _ & _ & _ & Hd & Hs & _).
  apply error_if_nil, negb_false_iff in Hd. split; [done|].
  intros m key shape Hm Hin. rewrite flat_map_nil in Hs.
  assert (∃ name, (name, m) ∈ selectors (select_rules review)) as [name Hn].
  { unfold selectors. repeat setoid_rewrite elem_of_cons. repeat setoid_rewrite elem_of_cons in Hm.
    rewrite elem_of_nil in Hm. naive_solver. }
  specialize (Hs _ Hn). simpl in Hs. rewrite flat_map_nil in Hs. specialize (Hs _ Hin). simpl in Hs.
  apply app_nil in Hs as [_ Hs]. by apply error_if_nil, negb_false_iff in Hs.
Qed.

Lemma get_key_value_elem {A} key (m : list (string * A)) k a :
  get_key_value key m = Some (k, a) → (k, a) ∈ m.
Proof.
  unfold get_key_value. destruct key as [k'|]; [|done]. simpl. destruct (get k' m) eqn:E; [|done].
  intros [= <- <-]. by apply get_elem.
Qed.

Lemma max_by_elem {A} (less : A → A → bool) l x : max_by less l = Some x → x ∈ l.
Proof.
  unfold max_by. enough (∀ best, fold_left (λ best x, match best with
      | None => Some x | Some b => if less x b then Some b else Some x end) l best = Some x →
      best = Some x ∨ x ∈ l) as H by (intros [?|?]%H; done).
  induction l as [|y l IH]; intros best; simpl; [auto|].
  intros [H|H]%IH; [|set_solver]. destruct best as [b|]; [|naive_solver set_solver].
  destruct (less y b); naive_solver set_solver.
Qed.

Lemma select_known review s override risk kind paths size :
  names_known review s → (∀ name, override = Some name → contains_key name (shapes review) = true) →
  contains_key (sel_value (select s override risk kind paths size None)) (shapes review) = true.
Proof.
  intros [Hd Hm] Ho. unfold select. destruct override as [name|]; simpl; [by apply Ho|].
  destruct (max_by _ _) as [[p v]|] eqn:Hp; simpl.
  { apply max_by_elem in Hp. apply bfilter_elem in Hp as [Hp _]. eapply Hm; [|exact Hp]. set_solver. }
  destruct (get_key_value risk _) as [[k v]|] eqn:Hr; simpl.
  { apply get_key_value_elem in Hr. eapply Hm; [|exact Hr]. set_solver. }
  destruct (get_key_value kind _) as [[k v]|] eqn:Hk; simpl.
  { apply get_key_value_elem in Hk. eapply Hm; [|exact Hk]. set_solver. }
  destruct (get_key_value size _) as [[k v]|] eqn:Hz; simpl; [|done].
  apply get_key_value_elem in Hz. eapply Hm; [|exact Hz]. set_solver.
Qed.

Lemma select_review_rule_known review override risk kind paths size :
  names_known review (select_rules review) → get "ready" (by_readiness (select_rules review)) = None →
  (∀ name, override = Some name → contains_key name (shapes review) = true) →
  contains_key (sel_value (select_review_rule review override risk kind paths size)) (shapes review) = true.
Proof.
  intros Hk Hready Ho. unfold select_review_rule. rewrite Hready. destruct override; by apply select_known.
Qed.

Lemma raise_coverage_known review cs selected :
  contains_key (sel_value selected) (shapes review) = true →
  (∀ c, Some c ∈ cs → contains_key (sel_value c) (shapes review) = true) →
  contains_key (sel_value (fold_left (raise_coverage review) cs selected)) (shapes review) = true.
Proof.
  revert selected. induction cs as [|o cs IH]; intros selected Hs Hc; simpl; [done|].
  apply IH; [|intros c Hin; apply Hc; by right]. unfold raise_coverage. destruct o as [c|]; [|done].
  destruct (coverage_lt (coverage review (sel_value selected)) (coverage review (sel_value c))); [|done].
  apply Hc. by left.
Qed.

Lemma candidates_known review override by_paths risk kind size c :
  names_known review (select_rules review) → get "ready" (by_readiness (select_rules review)) = None →
  Some c ∈ candidates review override by_paths risk kind size →
  contains_key (sel_value c) (shapes review) = true.
Proof.
  intros Hk Hready. unfold candidates. cbv zeta. rewrite !elem_of_cons, elem_of_nil.
  intros [Hc|[Hc|[Hc|[]]]]; revert Hc; (case_match; [|done]); intros ->%(inj Some);
    by apply select_review_rule_known.
Qed.

(** a validated review policy always selects.  When validation reports no
    error and no readiness rule is configured, a review with no explicit shape,
    or with a configured one, resolves to a configured shape for every risk,
    kind, path list and size: selection never fails at the point of use. *)
Theorem validated_policy_selects review pools override risk kind paths size :
  validate review pools = [] →
  get "ready" (by_readiness (select_rules review)) = None →
  (∀ name, override = Some name → contains_key name (shapes review) = true) →
  ∃ selection, select_shape review override risk kind paths size = Ok selection ∧
    get (selection_name selection) (shapes review) = Some (selection_shape selection).
Proof.
  intros Hk%validate_names_known Hready Ho. unfold select_shape.
  assert (is_some_and override (λ name, negb (contains_key name (shapes review))) = false) as ->.
  { apply is_some_and_false. intros name ->. by rewrite Ho. }
  cbv zeta. set (risk' := effective_risk _ _). set (integration := if kind == _ then _ else _).
  set (first := select_review_rule review _ risk' kind paths size).
  assert (contains_key (sel_value first) (shapes review) = true) as Hfirst.
  { apply select_review_rule_known; [done..|]. intros name. subst integration.
    destruct (kind == Some "integration"); [|apply Ho].
    destruct (get "integration" (by_kind (select_rules review))) as [v|] eqn:Hi; [|apply Ho].
    intros [= <-]. apply get_elem in Hi. destruct Hk as [_ Hk]. eapply Hk; [|exact Hi]. set_solver. }
  set (selected := if is_some integration then _ else first).
  assert (contains_key (sel_value selected) (shapes review) = true) as Hsel.
  { subst selected. by destruct (is_some integration). }
  clearbody selected.
  set (final := fold_left _ _ _).
  assert (contains_key (sel_value final) (shapes review) = true) as Hfinal.
  { apply raise_coverage_known; [done|]. intros c. by apply candidates_known. }
  unfold contains_key in Hfinal. apply is_some_true in Hfinal as [shape Hshape]. rewrite Hshape. eauto.
Qed.

Definition example_pools : Pools := mkPools ["senior"; "worker"] None.

Lemma validated_policy_selects_witness :
  ∃ selection, select_shape example_review None (Some "crucial") None ["README.md"] (Some "small") = Ok selection ∧
    get (selection_name selection) (shapes example_review) = Some (selection_shape selection).
Proof.
  apply (validated_policy_selects example_review example_pools None (Some "crucial") None ["README.md"] (Some "small"));
    [vm_compute; reflexivity|reflexivity|done].
Defined.

(** A readiness rule is not validated, and hides the risk floor of an explicit
    shape: here [auth/**] demands the deep shape and the light one runs. *)
Definition ready_review (shape : string) : ReviewConfig :=
  mkConfig (shapes example_review)
    (mkSelect "light" (by_risk (select_rules example_review)) [] [] [] [("ready", shape)])
    (size example_review) (lenses example_review) (floors example_review).
Example ready_rule_hides_floor :
  validate (ready_review "light") example_pools = [] ∧
  applied_tier (path_floors (ready_review "light") ["auth/token.rs"]) = Some "crucial" ∧
  (∃ s, select_shape (ready_review "light") None (Some "crucial") None ["auth/token.rs"] None = Ok s ∧
     selection_name s = "light") ∧
  (∃ s, select_shape example_review (Some "light") (Some "crucial") None ["auth/token.rs"] None = Ok s ∧
     selection_name s = "deep").
Proof. split_and!; [reflexivity|reflexivity|eexists; split; reflexivity..]. Qed.
Example ready_rule_unvalidated :
  validate (ready_review "missing") example_pools = [] ∧
  select_shape (ready_review "missing") None None None [] None = Err "unknown review shape 'missing'".
Proof. vm_compute. done. Qed.

(** ** A larger change is never measured smaller *)

Definition size_rank (s : string) : nat :=
  if s == "small" then 0 else if s == "medium" then 1 else 2.

Definition size_ordered (z : ReviewSize) : Prop :=
  small_lines z ≤ medium_lines z ∧ small_files z ≤ medium_files z ∧ small_crates z ≤ medium_crates z.

Lemma validate_size_ordered review pools : validate review pools = [] → size_ordered (size review).
Proof.
  unfold validate. rewrite !app_nil. intros (_ & _ & _ & _ & Hz & _). unfold check_size in Hz. simpl in Hz.
  rewrite !app_nil, !error_if_nil in Hz. unfold size_ordered. lia.
Qed.

Lemma classify_mono z l f c l' f' c' :
  size_ordered z → l ≤ l' → f ≤ f' → c ≤ c' →
  (size_rank (classify z l f c) ≤ size_rank (classify z l' f' c'))%nat.
Proof.
  unfold size_ordered, classify. intros.
  repeat (case_match; try (bool_prop; lia)); vm_compute; lia.
Qed.

(** A tally only grows. *)
Definition tally_le (t t' : Tally) : Prop :=
  0 ≤ lines t ≤ lines t' ∧ files t ≤ files t' ∧ ∃ more, crates t' = crates t ++ more.

Lemma numstat_row_nonneg row a r p : numstat_row row = Some (a, r, p) → 0 ≤ a ∧ 0 ≤ r.
Proof.
  assert (∀ s n, parse_usize s = Some n → 0 ≤ n) as Hp by (intros s n H; apply parse_uint_range in H; lia).
  unfold numstat_row. destruct (split_once TAB row) as [[x rest]|]; [|done]. simpl.
  destruct (split_once TAB rest) as [[y path]|]; [|done]. simpl.
  destruct (parse_usize x) eqn:Hx; [|done]. simpl. destruct (parse_usize y) eqn:Hy; [|done]. simpl.
  intros [= <- <- <-]. eauto.
Qed.

Lemma tally_grows roots rows t t' :
  0 ≤ lines t ≤ u64_max → tally roots t rows = Some t' → tally_le t t' ∧ lines t' ≤ u64_max.
Proof.
  revert t. induction rows as [|row rows IH]; intros t Ht; simpl.
  { intros [= <-]. unfold tally_le. split_and!; try lia. exists []. by rewrite app_nil_r. }
  destruct (numstat_row row) as [[[a r] p]|] eqn:Hr; [|done]. apply numstat_row_nonneg in Hr as [Ha Hr]. simpl.
  intros (Hle & Hmax)%IH; [|unfold saturating_add_u64, clamp, u64_max in *; simpl; lia].
  split; [|done]. destruct Hle as (Hl & Hf & more & Hc). simpl in *. unfold tally_le.
  split_and!; try (unfold saturating_add_u64, clamp, u64_max in *; lia).
  rewrite Hc. destruct (owner roots p) as [root|]; [|eauto]. unfold push_new. case_match; [eauto|].
  exists (root :: more). by rewrite <-app_assoc.
Qed.

Lemma tally_app roots rows more t :
  tally roots t (rows ++ more) = t' ← tally roots t rows; tally roots t' more.
Proof.
  revert t. induction rows as [|row rows IH]; intros t; simpl; [done|].
  destruct (numstat_row row); simpl; [apply IH|done].
Qed.

(** A change that grows is never measured smaller.  Under a validated
    policy, appending rows to a diff keeps or raises its size class, unreadable
    rows and counts beyond 64 bits included: both are measured as large. *)
Theorem larger_change_not_smaller review pools numstat more tree :
  validate review pools = [] →
  (size_rank (classify_numstat (size review) numstat tree) ≤
   size_rank (classify_numstat (size review) (numstat +:+ String NUL more) tree))%nat.
Proof.
  intros Hz%validate_size_ordered. unfold classify_numstat. cbv zeta.
  rewrite split_all_app, List.filter_app, tally_app.
  set (rows := List.filter _ (split_all NUL numstat)). set (rows' := List.filter _ (split_all NUL more)).
  destruct (tally (crate_roots tree) (mkTally 0 0 []) rows) as [t|] eqn:Ht; simpl; [|done].
  apply tally_grows in Ht as [Ht Hmax]; [|simpl; unfold u64_max; lia]. destruct Ht as (Hl & _ & _).
  destruct (tally (crate_roots tree) t rows') as [t'|] eqn:Ht'.
  - apply tally_grows in Ht' as [(? & ? & extra & Hc) _]; [|simpl in *; lia].
    apply classify_mono; [done|lia|done|]. unfold vec_len. rewrite Hc, length_app. lia.
  - unfold classify. repeat case_match; vm_compute; lia.
Qed.

Lemma larger_change_not_smaller_witness :
  (size_rank (classify_numstat ReviewSize_default "10	2	a/x.rs" "a/Cargo.toml") ≤
   size_rank (classify_numstat ReviewSize_default ("10	2	a/x.rs" +:+ String NUL "900	0	b/y.rs") "a/Cargo.toml"))%nat.
Proof.
  apply (larger_change_not_smaller example_review example_pools "10	2	a/x.rs" "900	0	b/y.rs" "a/Cargo.toml").
  vm_compute. reflexivity.
Defined.

Example numstat_sizes :
  classify_numstat ReviewSize_default ("10	2	a/x.rs" +:+ String NUL "") "" = "small" ∧
  classify_numstat ReviewSize_default ("10	2	a/x.rs" +:+ String NUL "900	0	b/y.rs") "" = "medium" ∧
  classify_numstat ReviewSize_default "-	-	logo.png" "" = "large".
Proof. vm_compute. done. Qed.
