(* ===== verification/FabricClaims.v ===== *)
(** * FabricClaims: advisory work claims over the coordination store

    Models [crates/fabric-store/src/claims.rs] and the parts of [lib.rs],
    [events.rs] and [db.rs] it runs on.  A table is a map from its primary key;
    a unique constraint that is not the primary key is a check that answers
    with an SQLite error.  A stored record is its value, identifiers are their
    text, and a transaction is a function from the database to a result, so an
    error leaves the database as it was. *)

From Stdlib Require Import Ascii.
From stdpp Require Import base option list strings sets gmap.
From S2P Require Import Prelude CoreIds.

Local Open Scope string_scope.
Local Open Scope list_scope.
Local Open Scope Z_scope.
Local Open Scope rust_scope.

(** ** Identifiers and times *)

Abbreviation ProjectId := string (only parsing).
Abbreviation ActorId := string (only parsing).
Abbreviation ClaimId := string (only parsing).
Abbreviation OpId := string (only parsing).
(** Microseconds since the Unix epoch. *)
Abbreviation WallTime := Z (only parsing).

#[export] Instance GitOid_eq_dec : EqDecision GitOid.
Proof. solve_decision. Defined.

(** Unknown members of a decoded record, each with the text of its value. *)
Abbreviation ExtraFields := (list (string * string)).

(** ** Scopes and records *)

Inductive WorkScope :=
| Issue (extra : ExtraFields) (key : string)
| Paths (extra : ExtraFields) (paths : list string)
| Worktree (extra : ExtraFields) (path : string).
#[export] Instance WorkScope_eq_dec : EqDecision WorkScope.
Proof. solve_decision. Defined.

Definition scope_paths (s : WorkScope) : list string :=
  match s with
  | Issue _ _ => []
  | Paths _ paths => paths
  | Worktree _ path => [path]
  end.

Record ClaimRequest := mkClaimRequest {
  cr_id : ClaimId;
  cr_project : ProjectId;
  cr_actor : ActorId;
  cr_token : string;
  cr_lease : Z;
  cr_scope : WorkScope;
}.
Record ClaimFence := mkFence {
  f_id : ClaimId;
  f_actor : ActorId;
  f_generation : Z;
  f_token : string;
}.
#[export] Instance ClaimFence_eq_dec : EqDecision ClaimFence.
Proof. solve_decision. Defined.

Record WorkClaim := mkWorkClaim {
  w_extra : ExtraFields;
  w_project : ProjectId;
  w_id : ClaimId;
  w_scope : WorkScope;
  w_holder : option ActorId;
  w_generation : Z;
  w_expires_at : option WallTime;
  w_updated_at : WallTime;
}.

Record Landing := mkLanding {
  l_extra : ExtraFields;
  l_project : ProjectId;
  l_id : ClaimId;
  l_reference : string;
  l_expected : GitOid;
  l_candidate : GitOid;
  l_holder : option ActorId;
  l_generation : Z;
  l_expires_at : option WallTime;
  l_operation : option OpId;
  l_updated_at : WallTime;
}.

Inductive PushPhase := Prepared | Pushing | Unknown | Committed | Retryable | Conflicted.
#[export] Instance PushPhase_eq_dec : EqDecision PushPhase.
Proof. solve_decision. Defined.
Inductive PushAction := Begin | Uncertain | Confirmed | Reconcile (remote : option GitOid).
#[export] Instance PushAction_eq_dec : EqDecision PushAction.
Proof. solve_decision. Defined.

Record PushRequest := mkPushRequest {
  p_project : ProjectId;
  p_claim : ClaimId;
  p_actor : ActorId;
  p_generation : Z;
  p_reference : string;
  p_expected : GitOid;
  p_candidate : GitOid;
  p_remote : string;
}.
Record PushOperation := mkPushOperation {
  po_id : OpId;
  po_digest : string;
  po_request : PushRequest;
  po_phase : PushPhase;
  po_observed_remote : option GitOid;
  po_updated_at : WallTime;
}.

Inductive EventKind :=
| Note | MailSent | MailRead
| TaskCreated | TaskClaimed | TaskUpdated | TaskRenewed | TaskReleased | TaskFinished
| RunChanged
| ClaimAcquired | ClaimRenewed | ClaimReleased
| LandingAcquired | LandingRenewed | LandingReleased
| PushChanged.
Record EventRecord := mkEvent {
  e_project : ProjectId;
  e_actor : option ActorId;
  e_kind : EventKind;
  e_entity : option string;
  e_detail : string;
  e_at : WallTime;
}.

(** What a [record] column holds. *)
Inductive StoredRecord :=
| WorkRecord (w : WorkClaim)
| LandingRecord (l : Landing)
| PushRecord (p : PushOperation)
| EventStored (e : EventRecord).

(** The errors these operations answer with. *)
Inductive Error :=
| Sqlite
| Io (path : string)
| Invalid (field : string)
| NotFound
| Conflict
| PushUnresolved (operation : OpId)
| PushTransition (from : PushPhase) (action : PushAction)
| Overlap (claim : ClaimId)
| StaleFence
| Cancelled
| Decode
| Encode
| Time.

(** ** What the store relies on

    [scope_key] and [push_digest] are the canonical digests ([None] when the
    value has no canonical form), [canonicalize] is the file system's,
    [canonical_len] the length of a canonical encoding and [timestamp] the
    range of the timestamp library. *)
Class FabricEnv := {
  scope_key : WorkScope → option string;
  push_digest : PushRequest → option string;
  canonicalize : string → option string;
  canonical_len : StoredRecord → option Z;
  timestamp : Z → bool;
}.

(** A canonical path is its non-empty components, each after a slash. *)
Definition plain_component (c : string) : Prop := c ≠ EmptyString ∧ contains_char "/" c = false.
Fixpoint render_components (cs : list string) : string :=
  match cs with
  | [] => EmptyString
  | c :: cs' => "/" +:+ c +:+ render_components cs'
  end.
Definition render (cs : list string) : string :=
  match cs with [] => "/" | _ => render_components cs end.

(** Digests do not collide, and canonical paths have no empty component. *)
Class FabricLaws (E : FabricEnv) := {
  scope_key_inj a b k : scope_key a = Some k → scope_key b = Some k → a = b;
  canonicalize_normal p q : canonicalize p = Some q → ∃ cs, Forall plain_component cs ∧ q = render cs;
}.

(** ** The database *)

Record Counter := mkCounter { n_id : ClaimId; n_generation : Z }.
Record ClaimRow := mkClaimRow {
  c_kind : string;
  c_key : string;
  c_generation : Z;
  c_holder : option ActorId;
  c_token : option string;
  c_expires : option WallTime;
  c_record : StoredRecord;
}.
Record OperationRow := mkOperationRow {
  o_claim : ClaimId;
  o_digest : string;
  o_phase : PushPhase;
  o_record : StoredRecord;
}.
(** Keyed by project, kind and scope; project and id; project, claim and path;
    project and operation. *)
Record DB := mkDB {
  counters : gmap (string * string * string) Counter;
  claims : gmap (string * string) ClaimRow;
  claim_paths : gset (string * string * string);
  operations : gmap (string * string) OperationRow;
  events : list EventRecord;
}.
Definition empty_db : DB := mkDB ∅ ∅ ∅ ∅ [].

Definition set_counters db x := mkDB x (claims db) (claim_paths db) (operations db) (events db).
Definition set_claims db x := mkDB (counters db) x (claim_paths db) (operations db) (events db).
Definition set_claim_paths db x := mkDB (counters db) (claims db) x (operations db) (events db).
Definition set_operations db x := mkDB (counters db) (claims db) (claim_paths db) x (events db).
Definition push_event db e := mkDB (counters db) (claims db) (claim_paths db) (operations db) (events db ++ [e]).

(** The clock reading and the cancellation of one request. *)
Record Request := mkRequest { cancelled : bool; wall_now : result Error WallTime }.
Definition check (r : Request) : result Error unit := if cancelled r then Err Cancelled else Ok tt.

(** A transaction: its result and the database it commits. *)
Abbreviation Tx A := (DB → result Error (A * DB)).
Definition write {A} (r : Request) (action : Tx A) : Tx A := λ db, _ ← check r; action db.

Section Store.
  Context `{E : FabricEnv}.

(** *** Helpers *)

Definition MAX_BODY_BYTES : Z := 65536.
Definition MAX_RECORD_BYTES : Z := 262144.
Definition MAX_PATH : Z := 4096.

Definition check_text (value field : string) : result Error unit :=
  if str_is_empty value || (MAX_BODY_BYTES <? str_len value) || contains_char "000" value
  then Err (Invalid field) else Ok tt.

Definition encode (record : StoredRecord) : result Error unit :=
  n ← ok_or (canonical_len record) Encode;
  if MAX_RECORD_BYTES <? n then Err (Invalid "record size") else Ok tt.

Definition decode_work (record : StoredRecord) : result Error WorkClaim :=
  match record with WorkRecord w => Ok w | _ => Err Decode end.

Definition wall_from_micros (micros : Z) : result Error WallTime :=
  if (micros <? -62167219200000000) || negb (timestamp micros) then Err Time else Ok micros.
Definition wall_checked_add (t duration : Z) : result Error WallTime :=
  let sum := t + duration in
  if in_i64 sum then wall_from_micros sum else Err Time.

Definition lease_expiry (at_ lease : Z) : result Error WallTime :=
  if negb ((1000000 <=? lease) && (lease <=? 3600000000)) then Err (Invalid "lease duration")
  else wall_checked_add at_ lease.

(** *** Canonical scopes *)

Definition canonical_path (path : string) : result Error string :=
  if MAX_PATH <? str_len path then Err (Invalid "claim path length")
  else if negb (starts_with path "/") then Err (Invalid "absolute claim path")
  else
    value ← ok_or (canonicalize path) (Io path);
    if MAX_PATH <? str_len value then Err (Invalid "claim path length") else Ok value.

Fixpoint canonical_all (paths : list string) : result Error (list string) :=
  match paths with
  | [] => Ok []
  | p :: ps =>
      q ← canonical_path p;
      qs ← canonical_all ps;
      Ok (q :: qs)
  end.

(** [sort] and [dedup]; paths compare by components. *)
Fixpoint insert_leb (leb : string → string → bool) (p : string) (l : list string) : list string :=
  match l with
  | [] => [p]
  | q :: l' => if leb p q then p :: l else q :: insert_leb leb p l'
  end.
Definition sort_leb (leb : string → string → bool) (l : list string) : list string := foldr (insert_leb leb) [] l.
Fixpoint components_leb (a b : list string) : bool :=
  match a, b with
  | [], _ => true
  | _ :: _, [] => false
  | x :: a', y :: b' => String.ltb x y || ((x == y) && components_leb a' b')
  end.
Definition path_leb (a b : string) : bool := components_leb (split_all "/" a) (split_all "/" b).
Fixpoint dedup (l : list string) : list string :=
  match l with
  | [] => []
  | p :: l' => match dedup l' with
               | q :: rest => if p == q then q :: rest else p :: q :: rest
               | [] => [p]
               end
  end.

Definition canonical (s : WorkScope) : result Error WorkScope :=
  match s with
  | Issue extra key => _ ← check_text key "issue key"; Ok (Issue extra key)
  | Paths extra paths =>
      if match paths with [] => true | _ => false end || (100 <? len paths)
      then Err (Invalid "claim paths")
      else
        paths ← canonical_all paths;
        Ok (Paths extra (dedup (sort_leb path_leb paths)))
  | Worktree extra path =>
      path ← canonical_path path;
      Ok (Worktree extra path)
  end.

(** *** Reading claims *)

Record StoredClaim := mkStored {
  s_id : ClaimId;
  s_generation : Z;
  s_holder : option ActorId;
  s_token : option string;
  s_expires : option WallTime;
  s_record : option StoredRecord;
}.

Definition check_wall (t : option Z) : result Error unit :=
  match t with Some t => _ ← wall_from_micros t; Ok tt | None => Ok tt end.
Definition checked (s : StoredClaim) : result Error StoredClaim :=
  if s_generation s <? 0 then Err (Invalid "stored generation")
  else
    _ ← check_wall (s_expires s);
    Ok s.

Definition by_scope (db : DB) (project kind key : string) : result Error (option StoredClaim) :=
  match counters db !! (project, kind, key) with
  | None => Ok None
  | Some n =>
      let c := claims db !! (project, n_id n) in
      s ← checked (mkStored (n_id n) (n_generation n) (c ≫= c_holder) (c ≫= c_token) (c ≫= c_expires)
                     (c_record <$> c));
      Ok (Some s)
  end.

Definition by_fence (db : DB) (project : ProjectId) (fence : ClaimFence) (kind : string)
    (live : option WallTime) : result Error StoredClaim :=
  match claims db !! (project, f_id fence) with
  | None => Err StaleFence
  | Some c =>
      if c_kind c != kind then Err StaleFence
      else
        row ← checked (mkStored (f_id fence) (c_generation c) (c_holder c) (c_token c) (c_expires c)
                         (Some (c_record c)));
        if (s_holder row != Some (f_actor fence))
           || (s_generation row != f_generation fence)
           || (s_token row != Some (f_token fence))
           || is_some_and live (λ at_, is_none_or (s_expires row) (λ t, t <=? at_))
        then Err StaleFence
        else Ok row
  end.

Definition next_generation (old : option StoredClaim) : result Error Z :=
  let next := match old with Some s => s_generation s | None => 0 end + 1 in
  if (u64_max <? next) || (i64_max <? next) then Err (Invalid "claim generation") else Ok next.

(** *** Writing claims *)

Record ClaimWrite := mkWrite {
  cw_project : ProjectId;
  cw_id : ClaimId;
  cw_kind : string;
  cw_key : string;
  cw_generation : Z;
  cw_holder : option ActorId;
  cw_token : option string;
  cw_expires : option WallTime;
}.

(** Another scope of the project already has the id. *)
Definition collision (db : DB) (row : ClaimWrite) : bool :=
  existsb (λ '(project, kind, key, n),
             (project == cw_project row) && (n_id n == cw_id row)
             && ((kind != cw_kind row) || (key != cw_key row)))
    (map_to_list (counters db)).

Definition upsert_counter (db : DB) (row : ClaimWrite) : DB :=
  let k := (cw_project row, cw_kind row, cw_key row) in
  let id := match counters db !! k with Some n => n_id n | None => cw_id row end in
  set_counters db (<[k := mkCounter id (cw_generation row)]> (counters db)).

(** The row check of the table and its unique constraint on scopes. *)
Definition row_allowed (db : DB) (row : ClaimWrite) : bool :=
  Bool.eqb (is_some (cw_holder row)) (is_some (cw_token row))
  && Bool.eqb (is_some (cw_holder row)) (is_some (cw_expires row))
  && forallb (λ '(project, id, c),
                negb ((project == cw_project row) && (id != cw_id row)
                      && (c_kind c == cw_kind row) && (c_key c == cw_key row)))
       (map_to_list (claims db)).

Definition upsert_claim (db : DB) (row : ClaimWrite) (record : StoredRecord) : DB :=
  let k := (cw_project row, cw_id row) in
  let '(kind, key) := match claims db !! k with
                      | Some c => (c_kind c, c_key c)
                      | None => (cw_kind row, cw_key row)
                      end in
  set_claims db (<[k := mkClaimRow kind key (cw_generation row) (cw_holder row) (cw_token row) (cw_expires row)
                          record]> (claims db)).

Definition save_claim (row : ClaimWrite) (record : StoredRecord) : Tx unit := λ db,
  if i64_max <? cw_generation row then Err (Invalid "claim generation")
  else if collision db row then Err Conflict
  else
    let db := upsert_counter db row in
    _ ← encode record;
    if negb (row_allowed db row) then Err Sqlite
    else Ok (tt, upsert_claim db row record).

Definition append_event (e : EventRecord) : Tx unit := λ db,
  _ ← check_text (e_detail e) "event detail";
  _ ← encode (EventStored e);
  Ok (tt, push_event db e).

Definition claim_event (project : ProjectId) (fence : ClaimFence) (kind : EventKind) (detail : string)
    (at_ : WallTime) : Tx unit :=
  append_event (mkEvent project (Some (f_actor fence)) kind (Some (f_id fence)) detail at_).

(** *** Overlapping paths *)

(** [c.holder IS NOT NULL AND c.expires > at]. *)
Definition live (c : ClaimRow) (at_ : WallTime) : bool :=
  is_some (c_holder c) && is_some_and (c_expires c) (λ t, at_ <? t).

(** A claim with a live holder and a path the query selects, if any. *)
Definition live_claim_where (db : DB) (project : ProjectId) (at_ : WallTime) (selects : string → bool) :
    option ClaimId :=
  head (omap (λ '(p, claim, path),
                if (p == project) && selects path && is_some_and (claims db !! (p, claim)) (λ c, live c at_)
                then Some claim else None) (elements (claim_paths db))).

(** [Path::ancestors] of a canonical path, itself first: every cut before a slash, then the root. *)
Fixpoint cuts (s : string) : list string :=
  match s with
  | EmptyString => [EmptyString]
  | String c s' =>
      let rest := String c <$> cuts s' in
      if Ascii.eqb c "/" then rest ++ [EmptyString] else rest
  end.
Definition ancestors (path : string) : list string :=
  if path == "/" then ["/"]
  else (λ p, if str_is_empty p then "/" else p) <$> cuts path.

Fixpoint first_some {A B} (f : A → option B) (l : list A) : option B :=
  match l with
  | [] => None
  | a :: l' => match f a with Some b => Some b | None => first_some f l' end
  end.

(** [lower <= path AND path < upper], in byte order. *)
Definition descendant_range (value : string) : string * string :=
  if value == "/" then ("/", "0") else (value +:+ "/", value +:+ "0").
Definition in_range (range : string * string) (path : string) : bool :=
  String.leb range.1 path && String.ltb path range.2.

Definition overlapping_path (db : DB) (project : ProjectId) (at_ : WallTime) (path : string) : option ClaimId :=
  match live_claim_where db project at_ (in_range (descendant_range path)) with
  | Some claim => Some claim
  | None => first_some (λ ancestor, live_claim_where db project at_ (λ p, p == ancestor)) (ancestors path)
  end.

(** *** Pruning *)

(** [ORDER BY c.id LIMIT 100]. *)
Definition prunable (db : DB) (project : ProjectId) : list ClaimId :=
  take 100 (sort_leb String.leb (omap (λ '(p, id, c),
    if (p == project) && negb (is_some (c_holder c))
       && forallb (λ '(q, _, o), negb ((q == p) && (o_claim o == id))) (map_to_list (operations db))
    then Some id else None) (map_to_list (claims db)))).

Definition prune_claim (project : ProjectId) (db : DB) (id : ClaimId) : DB :=
  let db := set_claim_paths db (filter (λ '(p, claim, _), ¬ (p = project ∧ claim = id)) (claim_paths db)) in
  set_claims db (delete (project, id) (claims db)).
Definition prune_released (db : DB) (project : ProjectId) : DB :=
  fold_left (prune_claim project) (prunable db project) db.

(** *** Operations *)

Definition fence_of (id : ClaimId) (actor : ActorId) (generation : Z) (token : string) : ClaimFence :=
  mkFence id actor generation token.

Definition previous_extra (previous : option StoredClaim) : result Error ExtraFields :=
  match previous ≫= s_record with
  | None => Ok []
  | Some record => w ← decode_work record; Ok (w_extra w)
  end.

Definition insert_paths (project : ProjectId) (id : ClaimId) (paths : list string) (db : DB) : DB :=
  set_claim_paths db (fold_left (λ s path, {[(project, id, path)]} ∪ s) paths (claim_paths db)).

Definition held_now (row : StoredClaim) (at_ : WallTime) : bool :=
  is_some (s_holder row) && is_some_and (s_expires row) (λ t, at_ <? t).

Definition grant_claim (claim : ClaimRequest) (scope : WorkScope) (key : string) (at_ expires : WallTime)
    (previous : option StoredClaim) : Tx ClaimFence := λ db,
  match first_some (overlapping_path db (cr_project claim) at_) (scope_paths scope) with
  | Some id => Err (Overlap id)
  | None =>
      let db := prune_released db (cr_project claim) in
      let id := match previous with Some r => s_id r | None => cr_id claim end in
      generation ← next_generation previous;
      let fence := fence_of id (cr_actor claim) generation (cr_token claim) in
      extra ← previous_extra previous;
      let record := mkWorkClaim extra (cr_project claim) id scope (Some (cr_actor claim)) generation
                      (Some expires) at_ in
      '(_, db) ← save_claim (mkWrite (cr_project claim) id "work" key generation (Some (cr_actor claim))
                     (Some (cr_token claim)) (Some expires)) (WorkRecord record) db;
      let db := insert_paths (cr_project claim) id (scope_paths scope) db in
      '(_, db) ← claim_event (cr_project claim) fence ClaimAcquired "acquired" at_ db;
      Ok (fence, db)
  end.

Definition acquire_claim (claim : ClaimRequest) (r : Request) : Tx ClaimFence := λ db,
  scope ← canonical (cr_scope claim);
  key ← ok_or (scope_key scope) Encode;
  write r (λ db,
    at_ ← wall_now r;
    expires ← lease_expiry at_ (cr_lease claim);
    previous ← by_scope db (cr_project claim) "work" key;
    match previous with
    | Some row =>
        if held_now row at_ then
          if (s_holder row == Some (cr_actor claim)) && (s_token row == Some (cr_token claim))
          then Ok (fence_of (s_id row) (cr_actor claim) (s_generation row) (cr_token claim), db)
          else Err (Overlap (s_id row))
        else grant_claim claim scope key at_ expires previous db
    | None => grant_claim claim scope key at_ expires previous db
    end) db.

Definition verify_claim (project : ProjectId) (fence : ClaimFence) (r : Request) (db : DB) :
    result Error WorkClaim :=
  at_ ← wall_now r;
  row ← by_fence db project fence "work" (Some at_);
  record ← ok_or (s_record row) Decode;
  decode_work record.

(** [lease.map(f).transpose()]. *)
Definition renewed_expiry (lease : option Z) (at_ : WallTime) : result Error (option WallTime) :=
  match lease with
  | Some lease => t ← lease_expiry at_ lease; Ok (Some t)
  | None => Ok None
  end.

Definition change_claim (project : ProjectId) (fence : ClaimFence) (lease : option Z) (r : Request) : Tx unit :=
  write r (λ db,
    at_ ← wall_now r;
    row ← by_fence db project fence "work" (if is_some lease then Some at_ else None);
    record ← ok_or (s_record row) Decode;
    w ← decode_work record;
    expires ← renewed_expiry lease at_;
    let holder := if is_some lease then Some (f_actor fence) else None in
    let w := mkWorkClaim (w_extra w) (w_project w) (w_id w) (w_scope w) holder (w_generation w) expires at_ in
    key ← ok_or (scope_key (w_scope w)) Encode;
    '(_, db) ← save_claim (mkWrite project (f_id fence) "work" key (f_generation fence) holder
                   (if is_some lease then Some (f_token fence) else None) expires) (WorkRecord w) db;
    if is_some lease then claim_event project fence ClaimRenewed "renewed" at_ db
    else claim_event project fence ClaimReleased "released" at_ db).

Definition renew_claim (project : ProjectId) (fence : ClaimFence) (lease : Z) (r : Request) : Tx unit :=
  change_claim project fence (Some lease) r.
Definition release_claim (project : ProjectId) (fence : ClaimFence) (r : Request) : Tx unit :=
  change_claim project fence None r.

End Store.
