(* ===== verification/FabricLanding.v ===== *)
(** * FabricLanding: fenced landings and pushes

    Models [crates/fabric-store/src/landing.rs]: a landing is a claim on a
    branch, and a push operation records what the holder did with it.  The lock
    file the caller holds is a [LandingGuard]; taking it from the operating
    system is not modelled. *)

From Stdlib Require Import Ascii.
From stdpp Require Import base option list strings sets gmap.
From S2P Require Import Prelude CoreIds FabricClaims.

Local Open Scope string_scope.
Local Open Scope list_scope.
Local Open Scope Z_scope.
Local Open Scope rust_scope.

Record LandingGuard := mkGuard { g_project : ProjectId; g_reference : string; g_directory : Z * Z }.
Record LandingRequest := mkLandingRequest {
  lr_id : ClaimId;
  lr_project : ProjectId;
  lr_actor : ActorId;
  lr_token : string;
  lr_reference : string;
  lr_expected : GitOid;
  lr_candidate : GitOid;
  lr_lease : Z;
}.

Definition phase_sql (p : PushPhase) : string :=
  match p with
  | Prepared => "prepared"
  | Pushing => "pushing"
  | Unknown => "unknown"
  | Committed => "committed"
  | Retryable => "retryable"
  | Conflicted => "conflict"
  end.

(** Landing targets: fully qualified branch names. *)
Definition bad_ref_byte (b : ascii) : bool :=
  (byte_of b <=? 32) || (byte_of b =? 127) || contains_char b "~^:?*[\".
Definition reference (value : string) : result Error unit :=
  if negb (starts_with value "refs/heads/")
     || (1024 <? str_len value)
     || any_byte (λ b, 127 <? byte_of b) value
     || any_byte bad_ref_byte value
     || contains_str ".." value
     || contains_str "@{" value
     || ends_with value "."
     || existsb (λ s, str_is_empty s || starts_with s "." || ends_with s ".lock") (split_all "/" value)
  then Err (Invalid "landing ref")
  else Ok tt.

Section Landing.
  Context `{E : FabricEnv}.

Definition decode_landing (record : StoredRecord) : result Error Landing :=
  match record with LandingRecord l => Ok l | _ => Err Decode end.
Definition decode_push (record : StoredRecord) : result Error PushOperation :=
  match record with PushRecord p => Ok p | _ => Err Decode end.

Definition load_operation (db : DB) (project : ProjectId) (id : OpId) : result Error PushOperation :=
  row ← ok_or (operations db !! (project, id)) NotFound;
  operation ← decode_push (o_record row);
  if (p_project (po_request operation) != project) || (po_id operation != id)
  then Err (Invalid "stored operation identity")
  else Ok operation.

(** A conflicting row keeps its claim and digest. *)
Definition save_operation (operation : PushOperation) : Tx unit := λ db,
  _ ← encode (PushRecord operation);
  let k := (p_project (po_request operation), po_id operation) in
  let '(claim, digest) := match operations db !! k with
                          | Some o => (o_claim o, o_digest o)
                          | None => (p_claim (po_request operation), po_digest operation)
                          end in
  Ok (tt, set_operations db (<[k := mkOperationRow claim digest (po_phase operation) (PushRecord operation)]>
                               (operations db))).

Definition is_unresolved (p : PushPhase) : bool := (p == Pushing) || (p == Unknown).

Definition unresolved (db : DB) (project : ProjectId) (id : ClaimId) : option OpId :=
  head (omap (λ '(p, op, o), if (p == project) && (o_claim o == id) && is_unresolved (o_phase o)
                             then Some op else None) (map_to_list (operations db))).

(** The device and inode of the store's lock directory, if it has one. *)
Definition check_guard (locks : option (Z * Z)) (guard : LandingGuard) : result Error unit :=
  directory ← ok_or locks (Invalid "landing lock store");
  if g_directory guard != directory then Err (Invalid "landing lock store") else Ok tt.

Definition landing_fence (locks : option (Z * Z)) (db : DB) (guard : LandingGuard) (fence : ClaimFence)
    (live : option WallTime) : result Error Landing :=
  _ ← check_guard locks guard;
  row ← by_fence db (g_project guard) fence "landing" live;
  record ← ok_or (s_record row) Decode;
  value ← decode_landing record;
  if (l_reference value != g_reference guard) || (l_project value != g_project guard)
     || (l_id value != f_id fence)
  then Err StaleFence
  else Ok value.

Definition save_landing (value : Landing) (token : option string) : Tx unit :=
  save_claim (mkWrite (l_project value) (l_id value) "landing" (l_reference value) (l_generation value)
                (l_holder value) token (l_expires_at value)) (LandingRecord value).

Definition same_kind (a b : GitOid) : bool :=
  match a, b with Sha1 _, Sha1 _ | Sha256 _, Sha256 _ => true | _, _ => false end.

Definition landing_extra (previous : option StoredClaim) : result Error ExtraFields :=
  match previous ≫= s_record with
  | None => Ok []
  | Some record => l ← decode_landing record; Ok (l_extra l)
  end.

Definition grant_landing (claim : LandingRequest) (at_ expires : WallTime) (previous : option StoredClaim) :
    Tx ClaimFence := λ db,
  let id := match previous with Some r => s_id r | None => lr_id claim end in
  generation ← next_generation previous;
  let fence := fence_of id (lr_actor claim) generation (lr_token claim) in
  extra ← landing_extra previous;
  let value := mkLanding extra (lr_project claim) id (lr_reference claim) (lr_expected claim) (lr_candidate claim)
                 (Some (lr_actor claim)) generation (Some expires) None at_ in
  '(_, db) ← save_landing value (Some (lr_token claim)) db;
  '(_, db) ← claim_event (lr_project claim) fence LandingAcquired "acquired" at_ db;
  Ok (fence, db).

Definition acquire_landing (locks : option (Z * Z)) (guard : LandingGuard) (claim : LandingRequest)
    (r : Request) : Tx ClaimFence := λ db,
  _ ← check_guard locks guard;
  if (lr_project claim != g_project guard) || (lr_reference claim != g_reference guard)
  then Err (Invalid "landing lock scope")
  else if negb (same_kind (lr_expected claim) (lr_candidate claim)) || (lr_expected claim == lr_candidate claim)
  then Err (Invalid "landing OIDs")
  else write r (λ db,
    at_ ← wall_now r;
    expires ← lease_expiry at_ (lr_lease claim);
    previous ← by_scope db (lr_project claim) "landing" (lr_reference claim);
    match previous with
    | Some row =>
        if (s_holder row == Some (lr_actor claim)) && (s_token row == Some (lr_token claim))
           && is_some_and (s_expires row) (λ t, at_ <? t)
        then
          record ← ok_or (s_record row) Decode;
          value ← decode_landing record;
          if (l_expected value != lr_expected claim) || (l_candidate value != lr_candidate claim)
          then Err Conflict
          else Ok (fence_of (s_id row) (lr_actor claim) (s_generation row) (lr_token claim), db)
        else match unresolved db (lr_project claim) (s_id row) with
             | Some operation => Err (PushUnresolved operation)
             | None => if held_now row at_ then Err Conflict
                       else grant_landing claim at_ expires previous db
             end
    | None => grant_landing claim at_ expires previous db
    end) db.

Definition verify_landing (locks : option (Z * Z)) (guard : LandingGuard) (fence : ClaimFence) (r : Request)
    (db : DB) : result Error Landing :=
  at_ ← wall_now r;
  landing_fence locks db guard fence (Some at_).

Definition change_landing (locks : option (Z * Z)) (guard : LandingGuard) (fence : ClaimFence) (lease : option Z)
    (r : Request) : Tx unit :=
  write r (λ db,
    at_ ← wall_now r;
    value ← landing_fence locks db guard fence (if is_some lease then Some at_ else None);
    match (if is_some lease then None else unresolved db (g_project guard) (f_id fence)) with
    | Some operation => Err (PushUnresolved operation)
    | None =>
        expires ← renewed_expiry lease at_;
        let value := mkLanding (l_extra value) (l_project value) (l_id value) (l_reference value)
                       (l_expected value) (l_candidate value)
                       (if is_some lease then Some (f_actor fence) else None) (l_generation value) expires
                       (l_operation value) at_ in
        '(_, db) ← save_landing value (if is_some lease then Some (f_token fence) else None) db;
        if is_some lease then claim_event (g_project guard) fence LandingRenewed "renewed" at_ db
        else claim_event (g_project guard) fence LandingReleased "released" at_ db
    end).

Definition renew_landing locks guard fence (lease : Z) r : Tx unit := change_landing locks guard fence (Some lease) r.
Definition release_landing locks guard fence r : Tx unit := change_landing locks guard fence None r.

(** *** Pushes *)

Definition authority_has_user (remote : string) : bool :=
  is_some_and (split_once_str "://" remote)
    (λ '(_, tail), is_some_and (head (split_all "/" tail)) (contains_char "@")).
Definition is_ascii_control (b : ascii) : bool := (byte_of b <? 32) || (byte_of b =? 127).
Definition bad_remote (remote : string) : bool :=
  str_is_empty remote || (4096 <? str_len remote) || starts_with remote "-" || any_byte is_ascii_control remote
  || contains_char "?" remote || contains_char "#" remote || authority_has_user remote.

Definition prepare_push (locks : option (Z * Z)) (guard : LandingGuard) (fence : ClaimFence) (id : OpId)
    (remote : string) (r : Request) : Tx PushOperation := λ db,
  if bad_remote remote then Err (Invalid "push remote")
  else write r (λ db,
    at_ ← wall_now r;
    landing ← landing_fence locks db guard fence (Some at_);
    if is_some_and (l_operation landing) (λ old, old != id) then Err Conflict
    else
      let frozen := mkPushRequest (g_project guard) (f_id fence) (f_actor fence) (f_generation fence)
                      (l_reference landing) (l_expected landing) (l_candidate landing) remote in
      digest ← ok_or (push_digest frozen) Encode;
      match load_operation db (g_project guard) id with
      | Ok old => if po_digest old == digest then Ok (old, db) else Err Conflict
      | Err NotFound =>
          let operation := mkPushOperation id digest frozen Prepared None at_ in
          '(_, db) ← save_operation operation db;
          let landing := mkLanding (l_extra landing) (l_project landing) (l_id landing) (l_reference landing)
                           (l_expected landing) (l_candidate landing) (l_holder landing) (l_generation landing)
                           (l_expires_at landing) (Some id) at_ in
          '(_, db) ← save_landing landing (Some (f_token fence)) db;
          '(_, db) ← claim_event (g_project guard) fence PushChanged "prepared" at_ db;
          Ok (operation, db)
      | Err error => Err error
      end) db.

(** The next phase and what was observed of the remote. *)
Definition push_phase (operation : PushOperation) (action : PushAction) : option (PushPhase * option GitOid) :=
  match po_phase operation, action with
  | (Prepared | Retryable), Begin => Some (Pushing, None)
  | Pushing, Uncertain => Some (Unknown, po_observed_remote operation)
  | Pushing, Confirmed => Some (Committed, Some (p_candidate (po_request operation)))
  | (Pushing | Unknown), Reconcile remote =>
      Some (match remote with
            | Some oid => if oid == p_candidate (po_request operation) then Committed
                          else if oid == p_expected (po_request operation) then Retryable
                          else Conflicted
            | None => Unknown
            end, remote)
  | _, _ => None
  end.

Definition change_push (locks : option (Z * Z)) (guard : LandingGuard) (fence : ClaimFence) (id : OpId)
    (action : PushAction) (r : Request) : Tx PushOperation :=
  write r (λ db,
    at_ ← wall_now r;
    landing ← landing_fence locks db guard fence (if action == Begin then Some at_ else None);
    operation ← load_operation db (g_project guard) id;
    if (l_operation landing != Some id)
       || (p_claim (po_request operation) != f_id fence)
       || (p_generation (po_request operation) != f_generation fence)
       || (p_actor (po_request operation) != f_actor fence)
    then Err StaleFence
    else match push_phase operation action with
         | None => Err (PushTransition (po_phase operation) action)
         | Some (phase, observed) =>
             let operation := mkPushOperation (po_id operation) (po_digest operation) (po_request operation)
                                phase observed at_ in
             '(_, db) ← save_operation operation db;
             '(_, db) ← claim_event (g_project guard) fence PushChanged (phase_sql phase) at_ db;
             Ok (operation, db)
         end).

End Landing.
