(* ===== verification/FabricPaths.v ===== *)
(** * FabricPaths: the overlap queries decide path ancestry

    The store compares claimed paths as text: a byte range for descendants and
    equality for ancestors.  On canonical paths the two queries together say
    exactly when one path's components are a prefix of the other's. *)

From Stdlib Require Import Ascii.
From stdpp Require Import base option list strings sets gmap.
From S2P Require Import Prelude CoreIds FabricClaims.

Local Open Scope string_scope.
Local Open Scope list_scope.
Local Open Scope rust_scope.

(** ** Byte ranges *)

#[local] Arguments String.append !s1 s2 /.

Lemma append_cons c (s t : string) : String c s +:+ t = String c (s +:+ t).
Proof. done. Qed.
Lemma string_app_nil (a : string) : a +:+ EmptyString = a.
Proof. induction a as [|x a IH]; [done|]. exact (f_equal (String x) IH). Qed.

Lemma ascii_compare_eq a : Ascii.compare a a = Eq.
Proof. unfold Ascii.compare. apply N.compare_refl. Qed.
Lemma ascii_compare_eq_inv a b : Ascii.compare a b = Eq → a = b.
Proof.
  unfold Ascii.compare. intros H%N.compare_eq. rewrite <-(Ascii.ascii_N_embedding a), <-(Ascii.ascii_N_embedding b).
  by rewrite H.
Qed.

Lemma string_leb_cons a s b t :
  String.leb (String a s) (String b t) =
  match Ascii.compare a b with Eq => String.leb s t | Lt => true | Gt => false end.
Proof. unfold String.leb. simpl. by destruct (Ascii.compare a b). Qed.
Lemma string_ltb_cons a s b t :
  String.ltb (String a s) (String b t) =
  match Ascii.compare a b with Eq => String.ltb s t | Lt => true | Gt => false end.
Proof. unfold String.ltb. simpl. by destruct (Ascii.compare a b). Qed.

(** Between the slash and the digit that follows it lies nothing else. *)
Lemma slash_range x : String.leb "/" x && String.ltb x "0" = true ↔ ∃ r, x = String "/" r.
Proof.
  destruct x as [|c x]; [split; [done|by intros [? ?]]|]. rewrite string_leb_cons, string_ltb_cons. split.
  - intros [H1 H2]%andb_true_iff. exists x. f_equal.
    assert (implb (match Ascii.compare "/" c with Gt => false | _ => true end
                   && match Ascii.compare c "0" with Gt => false | _ => true end)
              (Ascii.eqb c "/" || Ascii.eqb c "0") = true) as Hc.
    { revert c H1 H2. intros c _ _. revert c. apply ascii_check. vm_compute. reflexivity. }
    destruct (Ascii.compare "/" c) eqn:Ha; [by apply ascii_compare_eq_inv in Ha| |done].
    destruct (Ascii.compare c "0") eqn:Hb; [|simpl in Hc|done].
    + destruct x; done.
    + apply orb_true_iff in Hc as [->%Ascii.eqb_eq | ->%Ascii.eqb_eq]; [done|by vm_compute in Hb].
  - intros [r [= -> ->]]. simpl. by destruct r.
Qed.

Lemma prefix_range s x :
  String.leb (s +:+ "/") x && String.ltb x (s +:+ "0") = true ↔ ∃ r, x = s +:+ String "/" r.
Proof.
  revert x. induction s as [|c s IH]; intros x; simpl; [apply slash_range|].
  destruct x as [|d x]; [split; [done|by intros [? ?]]|]. rewrite string_leb_cons, string_ltb_cons. split.
  - destruct (Ascii.compare c d) eqn:Hc; [|destruct (Ascii.compare d c) eqn:Hd|by rewrite andb_false_l].
    + apply ascii_compare_eq_inv in Hc as ->. rewrite ascii_compare_eq. intros [r ->]%IH. by exists r.
    + apply ascii_compare_eq_inv in Hd as ->. by rewrite ascii_compare_eq in Hc.
    + unfold Ascii.compare in *. rewrite N.compare_lt_iff in Hc, Hd. lia.
    + by rewrite andb_false_r.
  - intros [r [= -> ->]]. rewrite !ascii_compare_eq. apply IH. eauto.
Qed.

(** ** Components *)

Lemma contains_char_cons x a s : contains_char x (String a s) = Ascii.eqb x a || contains_char x s.
Proof. unfold contains_char, any_byte. simpl. by rewrite negb_andb, negb_involutive. Qed.

Lemma slash_free_app c d X Y :
  contains_char "/" c = false → contains_char "/" d = false →
  (Y = EmptyString ∨ ∃ Y', Y = String "/" Y') →
  c +:+ String "/" X = d +:+ Y → c = d ∧ Y = String "/" X.
Proof.
  revert d. induction c as [|a c IH]; intros [|b d] Hc Hd HY Heq; rewrite ?contains_char_cons in *; simpl in Heq.
  - done.
  - injection Heq as <- Heq. by rewrite Ascii.eqb_refl in Hd.
  - destruct HY as [->|[Y' ->]]; [done|]. injection Heq as -> Heq. by rewrite Ascii.eqb_refl in Hc.
  - injection Heq as -> Heq. apply orb_false_iff in Hc as [_ Hc], Hd as [_ Hd].
    by destruct (IH d) as [-> ->].
Qed.

Lemma render_components_head cs :
  render_components cs = EmptyString ∨ ∃ Y, render_components cs = String "/" Y.
Proof. destruct cs as [|c cs]; simpl; eauto. Qed.

Lemma render_components_app cs ds :
  render_components (cs ++ ds) = render_components cs +:+ render_components ds.
Proof.
  induction cs as [|c cs IH]; simpl; [done|]. rewrite IH. f_equal. by rewrite string_app_assoc.
Qed.

Lemma render_descends cs ds r :
  Forall plain_component cs → Forall plain_component ds →
  render_components ds = render_components cs +:+ String "/" r → ∃ d rest, ds = cs ++ d :: rest.
Proof.
  intros Hcs. revert ds. induction Hcs as [|c cs [Hc Hs] Hcs IH]; intros ds Hds Heq; simpl in Heq.
  - destruct ds as [|d ds]; [done|]. by exists d, ds.
  - destruct ds as [|d ds]; [done|]. inversion Hds as [|?? [_ Hd] Hds']; subst. simpl in Heq. injection Heq as Heq.
    rewrite <-string_app_assoc in Heq.
    assert (∃ X, render_components cs +:+ String "/" r = String "/" X) as [X HX].
    { destruct (render_components_head cs) as [->|[Y ->]]; simpl; eauto. }
    rewrite HX in Heq.
    apply eq_sym in Heq. apply slash_free_app in Heq as [-> Heq]; [|done|done|apply render_components_head].
    rewrite <-HX in Heq. destruct (IH ds Hds' Heq) as (e & rest & ->). by exists e, rest.
Qed.

Lemma render_components_inj cs ds :
  Forall plain_component cs → Forall plain_component ds → render_components cs = render_components ds → cs = ds.
Proof.
  intros Hcs. revert ds. induction Hcs as [|c cs [Hc Hs] Hcs IH]; intros [|d ds] Hds Heq; [done..|].
  inversion Hds as [|?? [Hd Hsd] Hds']; subst. simpl in Heq. injection Heq as Heq.
  assert ((∃ X, render_components cs = String "/" X) ∨ render_components cs = EmptyString) as [[X HX]|HX]
    by (destruct (render_components_head cs); eauto).
  - rewrite HX in Heq. apply slash_free_app in Heq as [-> Heq]; [|done|done|apply render_components_head].
    f_equal. apply IH; congruence.
  - destruct (render_components_head ds) as [HY|[Y HY]].
    + rewrite HX, HY, !string_app_nil in Heq. subst. f_equal. apply IH; congruence.
    + rewrite HY in Heq. apply eq_sym, slash_free_app in Heq as [-> Heq]; [congruence|done|done|by left].
Qed.

Lemma render_components_nonempty c cs : Forall plain_component (c :: cs) → render_components (c :: cs) ≠ "/".
Proof.
  intros [[Hc _] _]%Forall_cons. simpl. destruct c; [done|]. by intros [= ?].
Qed.

Lemma render_inj cs ds :
  Forall plain_component cs → Forall plain_component ds → render cs = render ds → cs = ds.
Proof.
  intros Hcs Hds. destruct cs as [|c cs], ds as [|d ds]; [done|..].
  - intros H. by destruct (render_components_nonempty d ds).
  - intros H. by destruct (render_components_nonempty c cs).
  - by apply render_components_inj.
Qed.

(** ** The two queries *)

Lemma range_prefix cs ds :
  Forall plain_component cs → Forall plain_component ds →
  in_range (descendant_range (render cs)) (render ds) = true ↔
  cs = [] ∨ ∃ d rest, ds = cs ++ d :: rest.
Proof.
  intros Hcs Hds. unfold in_range, descendant_range. destruct cs as [|c cs].
  - simpl. split; [by left|]. intros _. apply slash_range.
    destruct ds as [|d ds]; simpl; eauto.
  - rewrite bool_decide_eq_false_2 by by apply render_components_nonempty.
    change (render (c :: cs)) with (render_components (c :: cs)).
    etransitivity; [apply (prefix_range (render_components (c :: cs)))|]. split.
    + intros [r Hr]. right. destruct ds as [|d ds].
      * apply Forall_cons in Hcs as [[Hc _] _]. destruct c; [done|]. discriminate Hr.
      * by eapply render_descends.
    + intros [?|(d & rest & ->)]; [done|]. exists (d +:+ render_components rest).
      change (render ((c :: cs) ++ d :: rest)) with (render_components ((c :: cs) ++ d :: rest)).
      by rewrite render_components_app.
Qed.

Lemma cuts_app c s : contains_char "/" c = false → cuts (c +:+ s) = String.append c <$> cuts s.
Proof.
  induction c as [|a c IH]; intros H; [by rewrite list_fmap_id|].
  rewrite contains_char_cons in H. apply orb_false_iff in H as [Ha Hc]. rewrite append_cons. cbn [cuts].
  rewrite Ascii.eqb_sym, Ha, IH by done. by rewrite <-list_fmap_compose.
Qed.

Lemma cuts_render cs x :
  Forall plain_component cs → x ∈ cuts (render_components cs) ↔ ∃ pre, pre `prefix_of` cs ∧ x = render_components pre.
Proof.
  intros Hcs. revert x. induction Hcs as [|c cs [Hc Hs] Hcs IH]; intros x.
  - simpl. rewrite list_elem_of_singleton. split; [intros ->; by exists []|].
    by intros (pre & ->%prefix_nil_inv & ->).
  - simpl. rewrite cuts_app by done. rewrite elem_of_app, list_elem_of_singleton, !list_elem_of_fmap. split.
    + intros [(y & -> & (z & -> & (pre & Hp & ->)%IH)%list_elem_of_fmap)| ->].
      * exists (c :: pre). split; [by apply prefix_cons|done].
      * exists []. split; [apply prefix_nil|done].
    + intros ([|d pre] & Hp & ->); [by right|]. left.
      pose proof (prefix_cons_inv_1 _ _ _ _ Hp) as ->. apply prefix_cons_inv_2 in Hp.
      exists (c +:+ render_components pre). split; [done|]. apply list_elem_of_fmap.
      exists (render_components pre). split; [done|]. apply IH. eauto.
Qed.

Lemma ancestors_prefix cs ds :
  Forall plain_component cs → Forall plain_component ds →
  render ds ∈ ancestors (render cs) ↔ ds `prefix_of` cs.
Proof.
  intros Hcs Hds. unfold ancestors. destruct cs as [|c cs].
  - rewrite bool_decide_eq_true_2 by done. rewrite list_elem_of_singleton. split.
    + intros H. by rewrite (render_inj ds [] Hds (Forall_nil_2 _) H).
    + by intros ->%prefix_nil_inv.
  - rewrite bool_decide_eq_false_2 by by apply render_components_nonempty.
    change (render (c :: cs)) with (render_components (c :: cs)). rewrite list_elem_of_fmap. split.
    + intros (y & Hy & (pre & Hp & ->)%cuts_render); [|done].
      enough (ds = pre) as -> by done. apply render_inj; [done| |].
      { destruct Hp as [k Hp]. rewrite Hp in Hcs. by apply Forall_app in Hcs as [? _]. }
      rewrite Hy. by destruct pre.
    + intros Hp. exists (render_components ds). split; [by destruct ds|]. apply cuts_render; eauto.
Qed.

(** One path is the other or lies below it. *)
Definition overlaps (cs ds : list string) : Prop := cs `prefix_of` ds ∨ ds `prefix_of` cs.

(** The queries of [overlapping_path] for a path select exactly the paths it overlaps. *)
Lemma queries_overlap cs ds :
  Forall plain_component cs → Forall plain_component ds →
  in_range (descendant_range (render cs)) (render ds) = true ∨ render ds ∈ ancestors (render cs) ↔ overlaps cs ds.
Proof.
  intros Hcs Hds. rewrite range_prefix, ancestors_prefix by done. unfold overlaps. split.
  - intros [[->|(d & rest & ->)]|?]; [left; apply prefix_nil|left; by apply prefix_app_r|by right].
  - intros [[k ->]|?]; [|by right]. destruct k as [|d rest]; [right|left; eauto]. by rewrite app_nil_r.
Qed.

(** ** Finding a live claim *)

Lemma live_claim_where_None db project at_ selects :
  live_claim_where db project at_ selects = None ↔
  ∀ claim path c, (project, claim, path) ∈ claim_paths db → selects path = true →
    claims db !! (project, claim) = Some c → live c at_ = false.
Proof.
  unfold live_claim_where. set (f := λ '(p, claim, path), _).
  assert (head (omap f (elements (claim_paths db))) = None ↔ ∀ e, e ∈ claim_paths db → f e = None) as ->.
  { setoid_rewrite <-elem_of_elements. generalize (elements (claim_paths db)) as l. intros l.
    induction l as [|e l IH]; simpl; [split; [by intros _ ? ?%elem_of_nil|done]|].
    destruct (f e) eqn:He; simpl; [split; [done|intros H; rewrite H in He; [done|by left]]|].
    rewrite IH. setoid_rewrite elem_of_cons. naive_solver. }
  subst f. split.
  - intros H claim path c Hin Hsel Hc. specialize (H _ Hin). simpl in H. rewrite Hsel, Hc in H.
    rewrite bool_decide_eq_true_2 in H by done. simpl in H. by destruct (live c at_).
  - intros H [[p claim] path] Hin. case_match eqn:He; [|done]. exfalso.
    rewrite !andb_true_iff, bool_decide_eq_true, is_some_and_true in He.
    destruct He as [[-> Hsel] (c & Hc & Hl)]. by rewrite (H _ _ _ Hin Hsel Hc) in Hl.
Qed.

Lemma first_some_None {A B} (f : A → option B) l : first_some f l = None ↔ ∀ a, a ∈ l → f a = None.
Proof.
  induction l as [|a l IH]; simpl; [split; [by intros _ ? ?%elem_of_nil|done]|].
  destruct (f a) eqn:Ha; [split; [done|intros H; rewrite H in Ha; [done|by left]]|].
  rewrite IH. setoid_rewrite elem_of_cons. naive_solver.
Qed.

(** Every claimed path is canonical. *)
Definition normal_paths (db : DB) : Prop :=
  ∀ project claim path, (project, claim, path) ∈ claim_paths db →
    ∃ ds, Forall plain_component ds ∧ path = render ds.

Lemma overlapping_path_None db project at_ cs :
  Forall plain_component cs → normal_paths db →
  overlapping_path db project at_ (render cs) = None ↔
  ∀ claim ds c, Forall plain_component ds → (project, claim, render ds) ∈ claim_paths db → overlaps cs ds →
    claims db !! (project, claim) = Some c → live c at_ = false.
Proof.
  intros Hcs Hnorm. unfold overlapping_path. split.
  - destruct (live_claim_where _ _ _ _) eqn:Hd; [done|]. rewrite first_some_None. intros Ha.
    intros claim ds c Hds Hin Hov%queries_overlap Hc; [|done..].
    rewrite live_claim_where_None in Hd. destruct Hov as [Hr|Hanc]; [by eapply Hd|].
    specialize (Ha _ Hanc). rewrite live_claim_where_None in Ha. eapply Ha; [done| |done]. by apply bool_decide_eq_true.
  - intros H. assert (∀ selects, (∀ ds, Forall plain_component ds → selects (render ds) = true → overlaps cs ds) →
      live_claim_where db project at_ selects = None) as Hsel.
    { intros selects Hs. apply live_claim_where_None. intros claim path c Hin Hp Hc.
      destruct (Hnorm _ _ _ Hin) as (ds & Hds & ->). eauto. }
    rewrite Hsel; [|intros ds Hds Hr; apply queries_overlap; auto].
    apply first_some_None. intros a Ha. apply Hsel. intros ds Hds <-%bool_decide_eq_true.
    apply queries_overlap; auto.
Qed.

(** a claim is refused for overlap exactly when it overlaps.  For a
    canonical path, the byte-range query and the ancestor lookups find a claim
    if and only if some live claim of the project has a path that contains the
    requested one or lies below it, by components: [/a] overlaps [/a/b] but
    not [/a-b], and the root overlaps everything. *)
Theorem overlapping_path_exact db project at_ cs :
  Forall plain_component cs → normal_paths db →
  is_some (overlapping_path db project at_ (render cs)) = true ↔
  ∃ claim ds c, Forall plain_component ds ∧ (project, claim, render ds) ∈ claim_paths db ∧
    (cs `prefix_of` ds ∨ ds `prefix_of` cs) ∧
    claims db !! (project, claim) = Some c ∧ live c at_ = true.
Proof.
  intros Hcs Hnorm. split.
  - intros H. destruct (decide (Exists (λ e : string * string * string,
        e.1.1 = project ∧ is_some_and (claims db !! e.1) (λ c, live c at_) = true ∧
        (in_range (descendant_range (render cs)) e.2 = true ∨ e.2 ∈ ancestors (render cs)))
      (elements (claim_paths db)))) as [He|Hne].
    + apply list.Exists_exists in He as ([[p claim] path] & Hin%elem_of_elements & Hp & Hl & Hov). simpl in *. subst p.
      apply is_some_and_true in Hl as (c & Hc & Hl). destruct (Hnorm _ _ _ Hin) as (ds & Hds & ->).
      exists claim, ds, c. split_and!; try done. by apply queries_overlap.
    + exfalso. apply is_some_true in H as [claim H]. enough (overlapping_path db project at_ (render cs) = None) by congruence.
      apply overlapping_path_None; [done..|]. intros k ds c Hds Hin Hov Hc. apply not_true_is_false. intros Hl.
      apply Hne, list.Exists_exists. exists (project, k, render ds). split; [by apply elem_of_elements|]. simpl.
      rewrite Hc. split_and!; [done..|]. by apply queries_overlap.
  - intros (claim & ds & c & Hds & Hin & Hov & Hc & Hl). apply is_some_true.
    destruct (overlapping_path db project at_ (render cs)) eqn:Ho; [eauto|].
    rewrite overlapping_path_None in Ho by done. by rewrite (Ho _ _ _ Hds Hin Hov Hc) in Hl.
Qed.

(** A store where [w1] holds [/repo/src] until time 100. *)
Definition example_paths : DB :=
  mkDB ∅ {[("p", "w1") := mkClaimRow "work" "k" 1 (Some "alice") (Some "t") (Some 100%Z)
             (WorkRecord (mkWorkClaim [] "p" "w1" (Worktree [] "/repo/src") (Some "alice") 1 (Some 100%Z) 0))]}
    {[("p", "w1", "/repo/src")]} ∅ [].

Lemma overlapping_path_exact_witness :
  is_some (overlapping_path example_paths "p" 50 (render ["repo"])) = true ↔
  ∃ claim ds c, Forall plain_component ds ∧ ("p", claim, render ds) ∈ claim_paths example_paths ∧
    (["repo"] `prefix_of` ds ∨ ds `prefix_of` ["repo"]) ∧
    claims example_paths !! ("p", claim) = Some c ∧ live c 50 = true.
Proof.
  apply (overlapping_path_exact example_paths "p" 50 ["repo"]).
  - repeat constructor; discriminate.
  - intros project claim path Hin. unfold example_paths in Hin; simpl in Hin; apply elem_of_singleton in Hin. injection Hin as -> -> ->.
    exists ["repo"; "src"]. split; [|reflexivity]. repeat constructor; discriminate.
Defined.

Example overlap_boundaries :
  is_some (overlapping_path example_paths "p" 50 "/") = true ∧
  is_some (overlapping_path example_paths "p" 50 "/repo/src/lib") = true ∧
  overlapping_path example_paths "p" 50 "/repo/src-old" = None ∧
  overlapping_path example_paths "p" 50 "/repo/tests" = None ∧
  overlapping_path example_paths "p" 100 "/repo/src" = None.
Proof. vm_compute. done. Qed.
