(* ===== verification/FabricFences.v ===== *)
(** * FabricFences: what every history of the coordination store keeps

    The store's operations as steps on a non-decreasing clock, the invariant of
    the tables, and the guarantees of claims, fences, landings and pushes. *)

From Stdlib Require Import Ascii.
From stdpp Require Import base option list strings sets gmap.
From S2P Require Import Prelude CoreIds FabricClaims FabricLanding FabricPaths.

Local Open Scope string_scope.
Local Open Scope list_scope.
Local Open Scope Z_scope.
Local Open Scope rust_scope.

Section Fences.
  Context {E : FabricEnv}.

(** ** Steps *)

Inductive FabricOp :=
| AcquireClaim (claim : ClaimRequest)
| RenewClaim (project : ProjectId) (fence : ClaimFence) (lease : Z)
| ReleaseClaim (project : ProjectId) (fence : ClaimFence)
| AcquireLanding (guard : LandingGuard) (claim : LandingRequest)
| RenewLanding (guard : LandingGuard) (fence : ClaimFence) (lease : Z)
| ReleaseLanding (guard : LandingGuard) (fence : ClaimFence)
| PreparePush (guard : LandingGuard) (fence : ClaimFence) (id : OpId) (remote : string)
| ChangePush (guard : LandingGuard) (fence : ClaimFence) (id : OpId) (action : PushAction).

Definition committed {A} (r : result Error (A * DB)) : result Error DB := '(_, db) ← r; Ok db.
Definition exec (locks : option (Z * Z)) (r : Request) (op : FabricOp) (db : DB) : result Error DB :=
  match op with
  | AcquireClaim claim => committed (acquire_claim claim r db)
  | RenewClaim project fence lease => committed (renew_claim project fence lease r db)
  | ReleaseClaim project fence => committed (release_claim project fence r db)
  | AcquireLanding guard claim => committed (acquire_landing locks guard claim r db)
  | RenewLanding guard fence lease => committed (renew_landing locks guard fence lease r db)
  | ReleaseLanding guard fence => committed (release_landing locks guard fence r db)
  | PreparePush guard fence id remote => committed (prepare_push locks guard fence id remote r db)
  | ChangePush guard fence id action => committed (change_push locks guard fence id action r db)
  end.

(** Operations that commit, in order, on a wall clock that does not run
    backwards; a refused operation changes nothing. *)
Inductive steps (t : Z) (db : DB) : Z → DB → Prop :=
| steps_refl : steps t db t db
| steps_later t1 t2 db1 : steps t db t1 db1 → t1 ≤ t2 → steps t db t2 db1
| steps_exec t1 db1 at_ db2 locks r op :
    steps t db t1 db1 → wall_now r = Ok at_ → t1 ≤ at_ → exec locks r op db1 = Ok db2 → steps t db at_ db2.

(** ** Inversions *)

Lemma checked_Ok s s' : checked s = Ok s' → s' = s.
Proof.
  unfold checked. intros [_ H]%result_guard_Ok. apply result_bind_Ok in H as (_ & _ & H). by injection H.
Qed.

Lemma by_scope_Ok db p k s prev :
  by_scope db p k s = Ok prev →
  match prev with
  | None => counters db !! (p, k, s) = None
  | Some row =>
      counters db !! (p, k, s) = Some (mkCounter (s_id row) (s_generation row)) ∧
      s_holder row = claims db !! (p, s_id row) ≫= c_holder ∧
      s_token row = claims db !! (p, s_id row) ≫= c_token ∧
      s_expires row = claims db !! (p, s_id row) ≫= c_expires ∧
      s_record row = c_record <$> claims db !! (p, s_id row)
  end.
Proof.
  unfold by_scope. destruct (counters db !! (p, k, s)) as [n|] eqn:Hn; [|by intros [= <-]].
  intros H. apply result_bind_Ok in H as (row & ->%checked_Ok & H). injection H as <-. simpl. by destruct n.
Qed.

Lemma by_fence_Ok db p f kind live row :
  by_fence db p f kind live = Ok row →
  ∃ c, claims db !! (p, f_id f) = Some c ∧ c_kind c = kind ∧
    row = mkStored (f_id f) (c_generation c) (c_holder c) (c_token c) (c_expires c) (Some (c_record c)) ∧
    c_holder c = Some (f_actor f) ∧ c_generation c = f_generation f ∧ c_token c = Some (f_token f) ∧
    ∀ at_, live = Some at_ → ∃ t, c_expires c = Some t ∧ at_ < t.
Proof.
  unfold by_fence. destruct (claims db !! (p, f_id f)) as [c|] eqn:Hc; [|done].
  intros [Hk H]%result_guard_Ok. apply negb_false_iff, bool_decide_eq_true in Hk.
  apply result_bind_Ok in H as (row' & ->%checked_Ok & H). apply result_guard_Ok in H as [Hg H].
  injection H as <-. simpl in Hg. exists c. rewrite !orb_false_iff, !negb_false_iff, !bool_decide_eq_true in Hg.
  destruct Hg as [[[Hh Hgen] Ht] Hl]. split_and!; try done.
  intros at_ ->. simpl in Hl. apply is_none_or_false in Hl as (t & Ht' & ?%Z.leb_gt). eauto.
Qed.

Lemma write_Ok {A} r (action : Tx A) db x : write r action db = Ok x → action db = Ok x.
Proof. unfold write, check. intros H. apply result_seq_Ok in H as [_ H]. done. Qed.

Lemma claim_event_Ok p f k d at_ db x db' :
  claim_event p f k d at_ db = Ok (x, db') → ∃ e, db' = push_event db e.
Proof.
  unfold claim_event, append_event. intros H. apply result_seq_Ok in H as [_ H].
  apply result_seq_Ok in H as [_ H]. injection H as _ <-. eauto.
Qed.

Lemma next_generation_Ok prev g :
  next_generation prev = Ok g → g = match prev with Some s => s_generation s | None => 0 end + 1.
Proof. unfold next_generation. cbv zeta. intros [_ H]%result_guard_Ok. by injection H. Qed.

(** ** Tables and keys *)

(** A claim id has one scope, and a claim row has its counter's generation. *)
Record keys_wf (db : DB) : Prop := {
  kw_counter p k s k' s' n n' :
    counters db !! (p, k, s) = Some n → counters db !! (p, k', s') = Some n' → n_id n = n_id n' → k = k' ∧ s = s';
  kw_claim p id c :
    claims db !! (p, id) = Some c → counters db !! (p, c_kind c, c_key c) = Some (mkCounter id (c_generation c));
}.

(** What saving a claim leaves. *)
Definition put (row : ClaimWrite) (record : StoredRecord) (db : DB) : DB :=
  mkDB (<[(cw_project row, cw_kind row, cw_key row) := mkCounter (cw_id row) (cw_generation row)]> (counters db))
    (<[(cw_project row, cw_id row) :=
         mkClaimRow (cw_kind row) (cw_key row) (cw_generation row) (cw_holder row) (cw_token row) (cw_expires row)
           record]> (claims db))
    (claim_paths db) (operations db) (events db).

(** Only its own scope may have the id. *)
Definition own_id (db : DB) (row : ClaimWrite) : Prop :=
  ∀ k s n, counters db !! (cw_project row, k, s) = Some n → n_id n = cw_id row →
    k = cw_kind row ∧ s = cw_key row.

Lemma collision_false db row : collision db row = false → own_id db row.
Proof.
  unfold collision. intros H k s n Hn Hid. rewrite <-not_true_iff_false, existsb_exists in H.
  destruct (decide (k = cw_kind row ∧ s = cw_key row)) as [|Hne]; [done|]. exfalso. apply H.
  exists (cw_project row, k, s, n). split; [by apply list_elem_of_In, elem_of_map_to_list|].
  rewrite !(bool_decide_eq_true_2 _ eq_refl), bool_decide_eq_true_2 by done. simpl.
  apply orb_true_iff. rewrite !negb_true_iff, !bool_decide_eq_false.
  destruct (decide (k = cw_kind row)); [right; naive_solver|by left].
Qed.

Lemma save_put row record db x db' :
  keys_wf db →
  (∀ n, counters db !! (cw_project row, cw_kind row, cw_key row) = Some n → n_id n = cw_id row) →
  save_claim row record db = Ok (x, db') → db' = put row record db ∧ own_id db row.
Proof.
  intros Hk Hid. unfold save_claim. intros [_ H]%result_guard_Ok.
  apply result_guard_Ok in H as [Hc%collision_false H]. cbv zeta in H.
  apply result_seq_Ok in H as [_ H]. apply result_guard_Ok in H as [_ H]. injection H as _ <-.
  split; [|done]. unfold upsert_claim, upsert_counter, put, set_claims, set_counters. simpl.
  assert (match counters db !! (cw_project row, cw_kind row, cw_key row) with
          | Some n => n_id n | None => cw_id row end = cw_id row) as ->.
  { destruct (counters db !! _) eqn:Hn; [by apply Hid|done]. }
  destruct (claims db !! (cw_project row, cw_id row)) as [c|] eqn:Hrow; [|done].
  apply (kw_claim _ Hk) in Hrow. destruct (Hc _ _ _ Hrow eq_refl) as [-> ->]. done.
Qed.

Lemma put_keys row record db : keys_wf db → own_id db row →
  (∀ n, counters db !! (cw_project row, cw_kind row, cw_key row) = Some n → n_id n = cw_id row) →
  keys_wf (put row record db).
Proof.
  intros Hk Hown Hid. split; simpl.
  - intros p k s k' s' n n'. rewrite !lookup_insert_Some.
    intros [[H1 <-]|[Hne H]] [[H2 <-]|[Hne' H']] Heq; simplify_eq; simpl in *; [done| | |].
    + destruct (Hown _ _ _ H' (eq_sym Heq)); naive_solver.
    + destruct (Hown _ _ _ H Heq); naive_solver.
    + by eapply (kw_counter _ Hk).
  - intros p id c. rewrite !lookup_insert_Some. intros [[[= <- <-] <-]|[Hne H]]; simpl; [by left|].
    right. pose proof (kw_claim _ Hk _ _ _ H) as Hc. split; [|done].
    intros Heq. injection Heq as <- H2 H3. rewrite <-H2, <-H3 in Hc. apply Hid in Hc. simpl in Hc. congruence.
Qed.

(** A row already under the id has the scope written. *)
Lemma own_row db row c : keys_wf db → own_id db row → claims db !! (cw_project row, cw_id row) = Some c →
  c_kind c = cw_kind row ∧ c_key c = cw_key row.
Proof. intros Hk Hown Hc%(kw_claim _ Hk). by apply (Hown _ _ _ Hc). Qed.

(** ** The invariant *)

Definition normal (path : string) : Prop := ∃ cs, Forall plain_component cs ∧ path = render cs.

(** A row and its record agree. *)
Definition row_ok (p id : string) (c : ClaimRow) : Prop :=
  match c_record c with
  | WorkRecord w =>
      c_kind c = "work" ∧ scope_key (w_scope w) = Some (c_key c) ∧ Forall normal (scope_paths (w_scope w))
  | LandingRecord l =>
      c_kind c = "landing" ∧ l_project l = p ∧ l_id l = id ∧ l_reference l = c_key c ∧
      l_generation l = c_generation c ∧ l_holder l = c_holder c ∧ l_expires_at l = c_expires c
  | _ => False
  end.

(** Live claims of a project have paths that do not overlap. *)
Definition disjoint_claims (t : Z) (db : DB) : Prop :=
  ∀ p id id' c c' cs ds, id ≠ id' →
    claims db !! (p, id) = Some c → claims db !! (p, id') = Some c' → live c t = true → live c' t = true →
    Forall plain_component cs → Forall plain_component ds →
    (p, id, render cs) ∈ claim_paths db → (p, id', render ds) ∈ claim_paths db → ¬ overlaps cs ds.

(** What a phase says of the remote. *)
Definition observed_ok (po : PushOperation) : Prop :=
  match po_phase po with
  | Committed => po_observed_remote po = Some (p_candidate (po_request po))
  | Retryable => po_observed_remote po = Some (p_expected (po_request po))
  | Conflicted => ∃ oid, po_observed_remote po = Some oid ∧ oid ≠ p_candidate (po_request po) ∧
                         oid ≠ p_expected (po_request po)
  | Prepared | Pushing => po_observed_remote po = None
  | Unknown => True
  end.

(** The landing a push belongs to, still held for it. *)
Definition pinned (db : DB) (p o : string) (po : PushOperation) : Prop :=
  ∃ c l, claims db !! (p, p_claim (po_request po)) = Some c ∧ c_record c = LandingRecord l ∧
    l_operation l = Some o ∧ c_generation c = p_generation (po_request po) ∧
    c_holder c = Some (p_actor (po_request po)) ∧ c_key c = p_reference (po_request po).

Record op_ok (db : DB) (p o : string) (row : OperationRow) (po : PushOperation) : Prop := {
  ok_record : o_record row = PushRecord po;
  ok_id : po_id po = o;
  ok_project : p_project (po_request po) = p;
  ok_claim : o_claim row = p_claim (po_request po);
  ok_phase : o_phase row = po_phase po;
  ok_observed : observed_ok po;
  ok_row : ∃ c, claims db !! (p, p_claim (po_request po)) = Some c ∧ c_kind c = "landing" ∧
             c_key c = p_reference (po_request po);
  ok_pinned : is_unresolved (po_phase po) = true → pinned db p o po;
}.

Record inv (t : Z) (db : DB) : Prop := {
  i_keys : keys_wf db;
  i_row p id c : claims db !! (p, id) = Some c → row_ok p id c;
  i_paths p id path : (p, id, path) ∈ claim_paths db ↔
    ∃ c w, claims db !! (p, id) = Some c ∧ c_record c = WorkRecord w ∧ path ∈ scope_paths (w_scope w);
  i_disjoint : disjoint_claims t db;
  i_ops p o row : operations db !! (p, o) = Some row → ∃ po, op_ok db p o row po;
}.

Lemma live_earlier c t t' : t ≤ t' → live c t' = true → live c t = true.
Proof.
  unfold live. intros Ht [Hh He]%andb_true_iff. rewrite Hh. simpl.
  apply is_some_and_true in He as (e & -> & He). apply is_some_and_true. exists e. split; [done|]. bool_prop. lia.
Qed.

Lemma inv_later t t' db : t ≤ t' → inv t db → inv t' db.
Proof.
  intros Ht []. split; try done. intros p id id' c c' cs ds Hne Hc Hc' Hl Hl'.
  eapply i_disjoint0; eauto using live_earlier.
Qed.

Lemma inv_empty t : inv t empty_db.
Proof.
  split; [split|..]; simpl; intros *; rewrite ?lookup_empty; try done.
  - split; [by intros ?%not_elem_of_empty|]. intros (c & w & Hc & _). discriminate Hc.
Qed.

Lemma inv_event t db e : inv t db → inv t (push_event db e).
Proof.
  intros []. split; try done; simpl.
  - destruct i_keys0. by split.
  - intros p o row Ho. destruct (i_ops0 _ _ _ Ho) as [po []]. exists po. by split.
Qed.

Lemma i_normal t db : inv t db → normal_paths db.
Proof.
  intros H p id path (c & w & Hc & Hw & Hp)%(i_paths _ _ H). apply (i_row _ _ H) in Hc. unfold row_ok in Hc.
  rewrite Hw in Hc. destruct Hc as (_ & _ & Hn). rewrite Forall_forall in Hn. by apply Hn.
Qed.

(** Writing a landing row: paths are untouched, and pushes need their landing kept. *)
Lemma put_landing t db row l :
  inv t db → own_id db row → cw_kind row = "landing" →
  (∀ n, counters db !! (cw_project row, cw_kind row, cw_key row) = Some n → n_id n = cw_id row) →
  row_ok (cw_project row) (cw_id row) (mkClaimRow (cw_kind row) (cw_key row) (cw_generation row) (cw_holder row)
    (cw_token row) (cw_expires row) (LandingRecord l)) →
  (∀ o orow po, operations db !! (cw_project row, o) = Some orow → op_ok db (cw_project row) o orow po →
     p_claim (po_request po) = cw_id row → is_unresolved (po_phase po) = true →
     l_operation l = Some o ∧ cw_generation row = p_generation (po_request po) ∧
     cw_holder row = Some (p_actor (po_request po))) →
  inv t (put row (LandingRecord l) db).
Proof.
  intros H Hown Hkind Hid Hrow Hpins.
  assert (∀ c w, claims db !! (cw_project row, cw_id row) = Some c → c_record c ≠ WorkRecord w) as Hnw.
  { intros c w Hc Hw. pose proof (i_row _ _ H _ _ _ Hc) as Hr. unfold row_ok in Hr. rewrite Hw in Hr.
    destruct (own_row _ _ _ (i_keys _ _ H) Hown Hc). destruct Hr. congruence. }
  assert (∀ path, (cw_project row, cw_id row, path) ∉ claim_paths db) as Hnp.
  { intros path (c & w & Hc & Hw & _)%(i_paths _ _ H). by eapply Hnw. }
  split; simpl.
  - apply put_keys; [apply H|done..].
  - intros p id c. rewrite lookup_insert_Some. intros [[[= <- <-] <-]|[_ Hc]]; [done|by apply (i_row _ _ H)].
  - intros p id path. rewrite (i_paths _ _ H). split; intros (c & w & Hc & Hw & Hp); exists c, w; split_and!; try done.
    + rewrite lookup_insert_ne; [done|]. intros [= <- <-]. by eapply Hnw.
    + apply lookup_insert_Some in Hc as [[_ <-]|[_ Hc]]; done.
  - intros p id id' c c' cs ds Hne Hc Hc' Hl Hl' Hcs Hds Hp Hp'.
    simpl in *. rewrite lookup_insert_ne in Hc by (intros [= <- <-]; by eapply Hnp).
    rewrite lookup_insert_ne in Hc' by (intros [= <- <-]; by eapply Hnp).
    by eapply (i_disjoint _ _ H).
  - intros p o orow Ho. destruct (i_ops _ _ H _ _ _ Ho) as [po Hop]. exists po.
    destruct (decide ((cw_project row, cw_id row) = (p, p_claim (po_request po)))) as [Heq|Hne].
    + injection Heq as <- Hcl. destruct (ok_row _ _ _ _ _ Hop) as (c & Hc & _ & Hkey).
      rewrite <-Hcl in Hc. destruct (own_row _ _ _ (i_keys _ _ H) Hown Hc) as [_ Hk].
      split; try apply Hop; simpl.
      * rewrite <-Hcl. eexists. split; [by apply lookup_insert_eq|]. simpl. split; [done|congruence].
      * intros Hu. destruct (Hpins _ _ _ Ho Hop (eq_sym Hcl) Hu) as (? & ? & ?).
        unfold pinned. simpl. rewrite <-Hcl. do 2 eexists. split; [by apply lookup_insert_eq|]. simpl.
        split_and!; try done. congruence.
    + split; try apply Hop; unfold pinned; simpl; rewrite lookup_insert_ne by done; apply Hop.
Qed.

Lemma insert_paths_elem p id paths db x :
  x ∈ claim_paths (insert_paths p id paths db) ↔ x ∈ claim_paths db ∨ ∃ path, path ∈ paths ∧ x = (p, id, path).
Proof.
  simpl. generalize (claim_paths db) as s. induction paths as [|q paths IH]; intros s; simpl; [set_solver|].
  rewrite IH, elem_of_union, elem_of_singleton. setoid_rewrite elem_of_cons. naive_solver.
Qed.
Lemma insert_paths_id p id paths db :
  (∀ path, path ∈ paths → (p, id, path) ∈ claim_paths db) → insert_paths p id paths db = db.
Proof.
  intros H. assert (claim_paths (insert_paths p id paths db) = claim_paths db) as Heq.
  { apply set_eq. intros x. rewrite insert_paths_elem. naive_solver. }
  unfold insert_paths, set_claim_paths in *. simpl in Heq. rewrite Heq. by destruct db.
Qed.

(** Writing a work claim with the paths of its scope. *)
Lemma put_work {L : FabricLaws E} t db row w :
  inv t db → own_id db row → cw_kind row = "work" →
  (∀ n, counters db !! (cw_project row, cw_kind row, cw_key row) = Some n → n_id n = cw_id row) →
  scope_key (w_scope w) = Some (cw_key row) → Forall normal (scope_paths (w_scope w)) →
  (∀ id' c' cs ds, is_some (cw_holder row) = true → is_some_and (cw_expires row) (λ e, t <? e) = true →
     id' ≠ cw_id row → claims db !! (cw_project row, id') = Some c' → live c' t = true →
     Forall plain_component cs → Forall plain_component ds →
     render cs ∈ scope_paths (w_scope w) → (cw_project row, id', render ds) ∈ claim_paths db → ¬ overlaps cs ds) →
  inv t (insert_paths (cw_project row) (cw_id row) (scope_paths (w_scope w)) (put row (WorkRecord w) db)).
Proof.
  intros H Hown Hkind Hid Hkey Hnorm Hdisj.
  set (db' := insert_paths _ _ _ _).
  assert (∀ path, (cw_project row, cw_id row, path) ∈ claim_paths db → path ∈ scope_paths (w_scope w)) as Hsame.
  { intros path (c & w0 & Hc & Hw & Hp)%(i_paths _ _ H).
    destruct (own_row _ _ _ (i_keys _ _ H) Hown Hc) as [_ Hck].
    pose proof (i_row _ _ H _ _ _ Hc) as Hr. unfold row_ok in Hr. rewrite Hw in Hr. destruct Hr as (_ & Hs & _).
    rewrite Hck in Hs. by rewrite (scope_key_inj _ _ _ Hkey Hs). }
  assert (∀ p id path, (p, id, path) ∈ claim_paths db' ↔
            if decide ((p, id) = (cw_project row, cw_id row)) then path ∈ scope_paths (w_scope w)
            else (p, id, path) ∈ claim_paths db) as Hpaths.
  { intros p id path. unfold db'. rewrite insert_paths_elem. simpl.
    destruct (decide _) as [[= -> ->]|Hne]; [naive_solver|].
    split; [intros [?|(q & _ & [= -> -> ->])]; [done|by destruct Hne]|by left]. }
  split.
  - enough (keys_wf (put row (WorkRecord w) db)) as [] by by split. apply put_keys; [apply H|done..].
  - intros p id c. simpl. rewrite lookup_insert_Some. intros [[[= <- <-] <-]|[_ Hc]]; [|by apply (i_row _ _ H)].
    unfold row_ok. simpl. done.
  - intros p id path. rewrite Hpaths. simpl. destruct (decide _) as [[= -> ->]|Hne].
    + split; [intros Hp; do 2 eexists; by rewrite lookup_insert_eq|].
      intros (c & w' & Hc & Hw & Hp). rewrite lookup_insert_eq in Hc. injection Hc as <-. simpl in Hw. by injection Hw as <-.
    + rewrite lookup_insert_ne by done. apply (i_paths _ _ H).
  - intros p id id' c c' cs ds Hne Hc Hc' Hl Hl' Hcs Hds. rewrite !Hpaths. simpl in Hc, Hc'.
    apply lookup_insert_Some in Hc as [[[= <- <-] <-]|[Hn1 Hc]], Hc' as [Hc'|[Hn2 Hc']].
    + destruct Hc' as [[= <-] _]. done.
    + rewrite decide_True, decide_False by congruence. apply andb_true_iff in Hl as [Hh He].
      intros Hp Hp'. by eapply Hdisj.
    + destruct Hc' as [[= <- <-] <-]. rewrite decide_False, decide_True by congruence.
      apply andb_true_iff in Hl' as [Hh He]. intros Hp Hp' Hov.
      eapply (Hdisj id c ds cs); try done.
    + rewrite !decide_False by congruence. intros Hp Hp'. by eapply (i_disjoint _ _ H).
  - intros p o orow Ho. simpl in Ho. destruct (i_ops _ _ H _ _ _ Ho) as [po Hop]. exists po.
    assert ((cw_project row, cw_id row) ≠ (p, p_claim (po_request po))) as Hne.
    { intros [= <- Hcl]. destruct (ok_row _ _ _ _ _ Hop) as (c & Hc & Hk & _). rewrite <-Hcl in Hc.
      destruct (own_row _ _ _ (i_keys _ _ H) Hown Hc). congruence. }
    split; try apply Hop; unfold pinned; simpl; rewrite lookup_insert_ne by done; apply Hop.
Qed.

(** ** Pruning *)

Lemma insert_leb_elem leb x l y : y ∈ insert_leb leb x l ↔ y = x ∨ y ∈ l.
Proof. induction l as [|z l IH]; simpl; [set_solver|]. case_match; set_solver. Qed.
Lemma sort_leb_elem leb l y : y ∈ sort_leb leb l ↔ y ∈ l.
Proof. induction l as [|z l IH]; simpl; [done|]. rewrite insert_leb_elem, IH. set_solver. Qed.

Lemma prunable_elem db p id :
  id ∈ prunable db p →
  ∃ c, claims db !! (p, id) = Some c ∧ c_holder c = None ∧
    ∀ o row, operations db !! (p, o) = Some row → o_claim row ≠ id.
Proof.
  unfold prunable. intros H. apply elem_of_take in H as (i & Hi & _). apply list_elem_of_lookup_2 in Hi.
  apply sort_leb_elem, list_elem_of_omap in Hi as ([[q k] c] & Hin%elem_of_map_to_list & Hf).
  case_match eqn:Hg; [|done]. injection Hf as ->. rewrite !andb_true_iff, bool_decide_eq_true, negb_true_iff in Hg.
  destruct Hg as [[-> Hh%is_some_false] Hops]. exists c. split_and!; [done..|].
  intros o row Ho Hcl. rewrite forallb_elem in Hops.
  specialize (Hops (p, o, row) (proj2 (elem_of_map_to_list _ _ _) Ho)). simpl in Hops.
  by rewrite !bool_decide_eq_true_2 in Hops.
Qed.

Lemma prune_fold p ids db :
  let db' := fold_left (prune_claim p) ids db in
  counters db' = counters db ∧ operations db' = operations db ∧
  (∀ q id, claims db' !! (q, id) = if decide (q = p ∧ id ∈ ids) then None else claims db !! (q, id)) ∧
  (∀ q id path, (q, id, path) ∈ claim_paths db' ↔ (q, id, path) ∈ claim_paths db ∧ ¬ (q = p ∧ id ∈ ids)).
Proof.
  revert db. induction ids as [|i ids IH]; intros db; cbv zeta; simpl.
  { split_and!; try done.
    - intros q id. by rewrite decide_False by set_solver.
    - set_solver. }
  destruct (IH (prune_claim p db i)) as (Hn & Ho & Hc & Hp). split_and!; [done..| |].
  - intros q id. rewrite Hc. simpl. destruct (decide (q = p ∧ id ∈ ids)) as [H|H].
    + by rewrite decide_True by set_solver.
    + destruct (decide (q = p ∧ id = i)) as [[-> ->]|Hne].
      * rewrite decide_True by set_solver. by rewrite lookup_delete_eq.
      * rewrite decide_False by set_solver. rewrite lookup_delete_ne; [done|]. intros [= -> ->]. by apply Hne.
  - intros q id path. rewrite Hp. simpl. rewrite elem_of_filter. set_solver.
Qed.

(** Pruning forgets released claims that no push refers to, with their paths. *)
Lemma prune_released_inv t db p :
  inv t db →
  let db' := prune_released db p in
  inv t db' ∧ counters db' = counters db ∧
  (∀ q id c, claims db' !! (q, id) = Some c → claims db !! (q, id) = Some c) ∧
  (∀ x, x ∈ claim_paths db' → x ∈ claim_paths db).
Proof.
  intros H. cbv zeta. unfold prune_released.
  destruct (prune_fold p (prunable db p) db) as (Hn & Ho & Hc & Hp).
  set (db' := fold_left _ _ _) in *. clearbody db'.
  assert (∀ q id c, claims db' !! (q, id) = Some c → claims db !! (q, id) = Some c ∧ ¬ (q = p ∧ id ∈ prunable db p)) as Hsub.
  { intros q id c. rewrite Hc. by destruct (decide _). }
  assert (∀ q o row po c, operations db !! (q, o) = Some row → op_ok db q o row po →
            claims db !! (q, p_claim (po_request po)) = Some c → claims db' !! (q, p_claim (po_request po)) = Some c) as Hkeep.
  { intros q o row po c Hrow Hop Hcl. rewrite Hc, decide_False; [done|]. intros [-> (c' & _ & _ & Hno)%prunable_elem].
    apply (Hno _ _ Hrow). apply Hop. }
  split_and!; [|done|intros q id c [? _]%Hsub; done|intros [[q id] path] [? _]%Hp; done].
  split.
  - split; [rewrite Hn; apply H|]. intros q id c [Hq _]%Hsub. rewrite Hn. by apply (i_keys _ _ H).
  - intros q id c [Hq _]%Hsub. by apply (i_row _ _ H).
  - intros q id path. rewrite Hp, (i_paths _ _ H). split.
    + intros [(c & w & Hq & Hw & Hpath) Hnot]. exists c, w. by rewrite Hc, decide_False.
    + intros (c & w & [Hq Hnot]%Hsub & Hw & Hpath). eauto 8.
  - intros q id id' c c' cs ds Hne [Hq _]%Hsub [Hq' _]%Hsub Hl Hl' Hcs Hds [Hp1 _]%Hp [Hp2 _]%Hp.
    by eapply (i_disjoint _ _ H).
  - intros q o row Hrow. rewrite Ho in Hrow. destruct (i_ops _ _ H _ _ _ Hrow) as [po Hop]. exists po.
    split; try apply Hop.
    + destruct (ok_row _ _ _ _ _ Hop) as (c & Hcl & ?). exists c. split; [|done]. by eapply Hkeep.
    + intros Hu. destruct (ok_pinned _ _ _ _ _ Hop Hu) as (c & l & Hcl & ?). exists c, l. split; [|done].
      by eapply Hkeep.
Qed.

(** ** Work claims *)

Lemma canonical_path_normal {L : FabricLaws E} p q : canonical_path p = Ok q → normal q.
Proof.
  unfold canonical_path. intros [_ H]%result_guard_Ok. apply result_guard_Ok in H as [_ H].
  apply result_bind_Ok in H as (v & Hv%ok_or_Ok & H). apply result_guard_Ok in H as [_ H]. injection H as <-.
  by apply canonicalize_normal in Hv.
Qed.
Lemma canonical_all_normal {L : FabricLaws E} ps qs : canonical_all ps = Ok qs → Forall normal qs.
Proof.
  revert qs. induction ps as [|p ps IH]; intros qs; simpl; [by intros [= <-]|].
  intros H. apply result_bind_Ok in H as (q & Hq & H). apply result_bind_Ok in H as (qs' & Hqs & H).
  injection H as <-. constructor; [by eapply canonical_path_normal|by apply IH].
Qed.
Lemma dedup_elem l x : x ∈ dedup l → x ∈ l.
Proof.
  induction l as [|p l IH]; simpl; [done|]. destruct (dedup l) as [|q rest] eqn:Hd; [set_solver|].
  case_bool_decide; set_solver.
Qed.
Lemma canonical_normal {L : FabricLaws E} s s' : canonical s = Ok s' → Forall normal (scope_paths s').
Proof.
  destruct s as [extra key|extra paths|extra path]; simpl; intros H.
  - apply result_seq_Ok in H as [_ H]. by injection H as <-.
  - apply result_guard_Ok in H as [_ H]. apply result_bind_Ok in H as (qs & Hqs%canonical_all_normal & H).
    injection H as <-. simpl. rewrite list.Forall_forall in Hqs |- *.
    intros x Hx%dedup_elem%sort_leb_elem. by apply Hqs.
  - apply result_bind_Ok in H as (q & Hq%canonical_path_normal & H). injection H as <-. simpl. by constructor.
Qed.

(** Where a previous claim of the scope comes from. *)
Definition previous_of (db : DB) (p k s : string) (previous : option StoredClaim) : Prop :=
  counters db !! (p, k, s) = (λ row, mkCounter (s_id row) (s_generation row)) <$> previous.
Lemma by_scope_previous db p k s prev : by_scope db p k s = Ok prev → previous_of db p k s prev.
Proof. intros H%by_scope_Ok. unfold previous_of. destruct prev; simpl; [by destruct H|done]. Qed.

Lemma grant_claim_Ok claim scope key at_ expires prev db f db' :
  grant_claim claim scope key at_ expires prev db = Ok (f, db') →
  (∀ path, path ∈ scope_paths scope → overlapping_path db (cr_project claim) at_ path = None) ∧
  ∃ w db2 e,
    let id := match prev with Some r => s_id r | None => cr_id claim end in
    let g := match prev with Some r => s_generation r | None => 0 end + 1 in
    let row := mkWrite (cr_project claim) id "work" key g (Some (cr_actor claim)) (Some (cr_token claim)) (Some expires) in
    w_scope w = scope ∧ f = mkFence id (cr_actor claim) g (cr_token claim) ∧
    save_claim row (WorkRecord w) (prune_released db (cr_project claim)) = Ok (tt, db2) ∧
    db' = push_event (insert_paths (cr_project claim) id (scope_paths scope) db2) e.
Proof.
  unfold grant_claim. destruct (first_some _ _) eqn:Hov; [done|]. rewrite first_some_None in Hov. cbv zeta.
  intros H. split; [done|]. apply result_bind_Ok in H as (g & ->%next_generation_Ok & H).
  apply result_bind_Ok in H as (extra & _ & H). apply result_bind_Ok in H as ([[] db2] & Hsave & H).
  apply result_bind_Ok in H as ([x db3] & [e ->]%claim_event_Ok & H). injection H as <- <-.
  eexists _, db2, e. by refine (conj _ (conj _ (conj Hsave _))).
Qed.

Lemma acquire_claim_Ok claim r db f db' :
  acquire_claim claim r db = Ok (f, db') →
  ∃ at_ scope key prev, wall_now r = Ok at_ ∧ canonical (cr_scope claim) = Ok scope ∧ scope_key scope = Some key ∧
    by_scope db (cr_project claim) "work" key = Ok prev ∧
    (db' = db ∨ ∃ expires, grant_claim claim scope key at_ expires prev db = Ok (f, db')).
Proof.
  unfold acquire_claim. intros H. apply result_bind_Ok in H as (scope & Hscope & H).
  apply result_bind_Ok in H as (key & Hkey%ok_or_Ok & H). apply write_Ok in H.
  apply result_bind_Ok in H as (at_ & Hat & H). apply result_bind_Ok in H as (expires & _ & H).
  apply result_bind_Ok in H as (prev & Hprev & H). exists at_, scope, key, prev. split_and!; [done..|].
  destruct prev as [row|]; [|eauto]. destruct (held_now row at_); [|eauto].
  left. destruct (_ && _); [|done]. by injection H.
Qed.

Lemma acquire_claim_inv {L : FabricLaws E} t at_ claim r db f db' :
  inv t db → wall_now r = Ok at_ → t ≤ at_ → acquire_claim claim r db = Ok (f, db') → inv at_ db'.
Proof.
  intros H Hat Ht (at' & scope & key & prev & Hat' & Hscope & Hkey & Hprev & Hcase)%acquire_claim_Ok.
  rewrite Hat in Hat'. injection Hat' as <-. apply (inv_later _ _ _ Ht) in H.
  destruct Hcase as [->|[expires Hgrant]]; [done|].
  apply grant_claim_Ok in Hgrant as (Hov & w & db2 & e & Hg). cbv zeta in Hg.
  destruct Hg as (Hw & _ & Hsave & ->). apply inv_event.
  destruct (prune_released_inv _ _ (cr_project claim) H) as (H1 & Hn & Hsub & Hpsub).
  apply by_scope_previous in Hprev. unfold previous_of in Hprev. rewrite <-Hn in Hprev.
  set (row := mkWrite _ _ _ _ _ _ _ _) in Hsave.
  assert (∀ n, counters (prune_released db (cr_project claim)) !! (cw_project row, cw_kind row, cw_key row) = Some n →
            n_id n = cw_id row) as Hid.
  { simpl. rewrite Hprev. destruct prev; simpl; [|done]. by intros n [= <-]. }
  destruct (save_put _ _ _ _ _ (i_keys _ _ H1) Hid Hsave) as [-> Hown]. subst scope.
  apply (put_work _ _ row); try done.
  { by eapply canonical_normal. }
  intros id' c' cs ds _ _ Hne Hc' Hl Hcs Hds Hp Hp' Hover.
  assert (live c' at_ = false); [|congruence].
  specialize (Hov _ Hp). rewrite overlapping_path_None in Hov; [|done|by eapply i_normal].
  eapply Hov; [exact Hds|by apply Hpsub|done|by apply Hsub].
Qed.

Lemma change_claim_Ok p f lease r db x db' :
  change_claim p f lease r db = Ok (x, db') →
  ∃ at_ c w w' expires key db2 e, wall_now r = Ok at_ ∧
    claims db !! (p, f_id f) = Some c ∧ c_kind c = "work" ∧ c_record c = WorkRecord w ∧ w_scope w' = w_scope w ∧
    c_generation c = f_generation f ∧ c_holder c = Some (f_actor f) ∧
    (is_some lease = true → ∃ u, c_expires c = Some u ∧ at_ < u) ∧
    scope_key (w_scope w) = Some key ∧
    save_claim (mkWrite p (f_id f) "work" key (f_generation f) (if is_some lease then Some (f_actor f) else None)
       (if is_some lease then Some (f_token f) else None) expires) (WorkRecord w') db = Ok (tt, db2) ∧
    db' = push_event db2 e.
Proof.
  unfold change_claim. intros H%write_Ok. apply result_bind_Ok in H as (at_ & Hat & H).
  apply result_bind_Ok in H as (row & Hrow & H). apply by_fence_Ok in Hrow as (c & Hc & Hk & -> & Hh & Hg & _ & Hl).
  simpl in H. apply result_bind_Ok in H as (w & Hw & H). destruct (c_record c) as [w0| | |] eqn:Hr; try done.
  injection Hw as ->. apply result_bind_Ok in H as (expires & _ & H). simpl in H.
  apply result_bind_Ok in H as (key & Hkey%ok_or_Ok & H). apply result_bind_Ok in H as ([[] db2] & Hsave & H).
  assert (∃ e, db' = push_event db2 e) as [e ->] by (destruct lease; by apply claim_event_Ok in H).
  match type of Hsave with save_claim _ (WorkRecord ?w1) _ = _ => exists at_, c, w, w1, expires, key, db2, e end.
  split_and!; try done.
  intros Hs. destruct lease; [|done]. by apply Hl.
Qed.

Lemma change_claim_inv {L : FabricLaws E} t at_ p f lease r db x db' :
  inv t db → wall_now r = Ok at_ → t ≤ at_ → change_claim p f lease r db = Ok (x, db') → inv at_ db'.
Proof.
  intros H Hat Ht Hch. apply change_claim_Ok in Hch
    as (at' & c & w & w' & expires & key & db2 & e & Hat' & Hc & Hk & Hw & Hw' & Hgen & Hh & Hl & Hkey & Hsave & ->).
  rewrite Hat in Hat'. injection Hat' as <-. apply (inv_later _ _ _ Ht) in H. apply inv_event.
  pose proof (i_row _ _ H _ _ _ Hc) as Hrow. unfold row_ok in Hrow. rewrite Hw in Hrow. destruct Hrow as (_ & Hkey' & Hn).
  assert (key = c_key c) as -> by congruence.
  pose proof (kw_claim _ (i_keys _ _ H) _ _ _ Hc) as Hcount. rewrite Hk in Hcount.
  set (row := mkWrite _ _ _ _ _ _ _ _) in Hsave.
  assert (∀ n, counters db !! (cw_project row, cw_kind row, cw_key row) = Some n → n_id n = cw_id row) as Hid.
  { simpl. rewrite Hcount. by intros n [= <-]. }
  destruct (save_put _ _ _ _ _ (i_keys _ _ H) Hid Hsave) as [-> Hown].
  assert (insert_paths p (f_id f) (scope_paths (w_scope w')) (put row (WorkRecord w') db) = put row (WorkRecord w') db)
    as <-.
  { apply insert_paths_id. intros path Hp. simpl. apply (i_paths _ _ H). exists c, w. by rewrite <-Hw'. }
  apply (put_work _ _ row); try done; [simpl; congruence|congruence|].
  intros id' c' cs ds Hhold _ Hne Hc' Hl' Hcs Hds Hp Hp'. simpl in *.
  destruct (is_some lease); [|done]. destruct (Hl eq_refl) as (u & Hu & Hlt).
  eapply (i_disjoint _ _ H p (f_id f) id' c c'); try done.
  - unfold live. rewrite Hh, Hu. simpl. bool_prop. lia.
  - apply (i_paths _ _ H). exists c, w. by rewrite <-Hw'.
Qed.

(** ** Landings *)

Lemma unresolved_None db p id :
  unresolved db p id = None →
  ∀ o row, operations db !! (p, o) = Some row → o_claim row = id → is_unresolved (o_phase row) = false.
Proof.
  unfold unresolved. intros H o row Ho Hid.
  assert (omap (λ '(q, op, o), if (q == p) && (o_claim o == id) && is_unresolved (o_phase o)
                               then Some op else None) (map_to_list (operations db)) = []) as Hnil.
  { by destruct (omap _ _). }
  apply not_true_is_false. intros Hu. apply (elem_of_nil o). rewrite <-Hnil.
  apply list_elem_of_omap. exists (p, o, row). split; [by apply elem_of_map_to_list|].
  by rewrite !bool_decide_eq_true_2, Hu.
Qed.

(** Without an unresolved push nothing pins the landing. *)
Lemma nothing_pinned t db p id :
  inv t db → unresolved db p id = None →
  ∀ o row po, operations db !! (p, o) = Some row → op_ok db p o row po → p_claim (po_request po) = id →
    is_unresolved (po_phase po) = false.
Proof.
  intros H Hu o row po Ho Hop Hid. rewrite <-(ok_phase _ _ _ _ _ Hop).
  eapply unresolved_None; [done..|]. by rewrite (ok_claim _ _ _ _ _ Hop).
Qed.

Lemma grant_landing_Ok claim at_ expires prev db f db' :
  grant_landing claim at_ expires prev db = Ok (f, db') →
  ∃ l db2 e,
    let id := match prev with Some r => s_id r | None => lr_id claim end in
    let g := match prev with Some r => s_generation r | None => 0 end + 1 in
    f = mkFence id (lr_actor claim) g (lr_token claim) ∧
    l_project l = lr_project claim ∧ l_id l = id ∧ l_reference l = lr_reference claim ∧ l_generation l = g ∧
    l_holder l = Some (lr_actor claim) ∧ l_expires_at l = Some expires ∧
    save_landing l (Some (lr_token claim)) db = Ok (tt, db2) ∧ db' = push_event db2 e.
Proof.
  unfold grant_landing. cbv zeta. intros H. apply result_bind_Ok in H as (g & ->%next_generation_Ok & H).
  apply result_bind_Ok in H as (extra & _ & H). apply result_bind_Ok in H as ([[] db2] & Hsave & H).
  apply result_bind_Ok in H as ([x db3] & [e ->]%claim_event_Ok & H). injection H as <- <-.
  match type of Hsave with save_landing ?l _ _ = _ => exists l, db2, e end. by split_and!.
Qed.

Lemma acquire_landing_Ok locks guard claim r db f db' :
  acquire_landing locks guard claim r db = Ok (f, db') →
  ∃ at_ prev, wall_now r = Ok at_ ∧
    by_scope db (lr_project claim) "landing" (lr_reference claim) = Ok prev ∧
    (db' = db ∨
     (∀ row, prev = Some row → unresolved db (lr_project claim) (s_id row) = None) ∧
     ∃ expires, grant_landing claim at_ expires prev db = Ok (f, db')).
Proof.
  unfold acquire_landing. intros H. apply result_seq_Ok in H as [_ H]. apply result_guard_Ok in H as [_ H].
  apply result_guard_Ok in H as [_ H]. apply write_Ok in H. apply result_bind_Ok in H as (at_ & Hat & H).
  apply result_bind_Ok in H as (expires & _ & H). apply result_bind_Ok in H as (prev & Hprev & H).
  exists at_, prev. split_and!; [done..|]. destruct prev as [row|]; [|right; split; [done|eauto]].
  destruct (_ && _ && _).
  - left. apply result_bind_Ok in H as (rec & _ & H). apply result_bind_Ok in H as (v & _ & H).
    apply result_guard_Ok in H as [_ H]. by injection H.
  - right. destruct (unresolved _ _ _) eqn:Hu; [done|]. apply result_guard_Ok in H as [_ H].
    split; [by intros ? [= <-]|eauto].
Qed.

(** Saving a landing under the id its branch has. *)
Lemma save_landing_inv t db l token x db' :
  inv t db → save_landing l token db = Ok (x, db') →
  (∀ n, counters db !! (l_project l, "landing", l_reference l) = Some n → n_id n = l_id l) →
  (∀ o row po, counters db !! (l_project l, "landing", l_reference l) ≠ None →
     operations db !! (l_project l, o) = Some row → op_ok db (l_project l) o row po →
     p_claim (po_request po) = l_id l → is_unresolved (po_phase po) = true →
     l_operation l = Some o ∧ l_generation l = p_generation (po_request po) ∧
     l_holder l = Some (p_actor (po_request po))) →
  inv t db'.
Proof.
  intros H Hsave Hid Hpins. unfold save_landing in Hsave. set (row := mkWrite _ _ _ _ _ _ _ _) in Hsave.
  destruct (save_put row _ _ _ _ (i_keys _ _ H) Hid Hsave) as [-> Hown].
  apply put_landing; [exact H|exact Hown|done|exact Hid|by split_and!|].
  intros o orow po Ho Hop Hcl. apply (Hpins o orow po); try done.
  destruct (ok_row _ _ _ _ _ Hop) as (c & Hc & Hk & _). rewrite Hcl in Hc.
  destruct (own_row _ _ _ (i_keys _ _ H) Hown Hc) as [_ Hkey]. simpl in Hkey.
  apply (kw_claim _ (i_keys _ _ H)) in Hc. rewrite Hk, Hkey in Hc.
  simpl in Hc. by rewrite Hc.
Qed.

Lemma acquire_landing_inv t at_ locks guard claim r db f db' :
  inv t db → wall_now r = Ok at_ → t ≤ at_ → acquire_landing locks guard claim r db = Ok (f, db') → inv at_ db'.
Proof.
  intros H Hat Ht (at' & prev & Hat' & Hprev & Hcase)%acquire_landing_Ok. rewrite Hat in Hat'. injection Hat' as <-.
  apply (inv_later _ _ _ Ht) in H. destruct Hcase as [->|[Hu [expires Hgrant]]]; [done|].
  apply grant_landing_Ok in Hgrant as (l & db2 & e & Hg). cbv zeta in Hg.
  destruct Hg as (_ & Hp & Hid & Href & Hg & Hh & He & Hsave & ->). apply inv_event.
  apply by_scope_previous in Hprev. unfold previous_of in Hprev.
  eapply save_landing_inv; [exact H|exact Hsave|..].
  - rewrite Hp, Href, Hprev, Hid. destruct prev; simpl; [by intros n [= <-]|done].
  - rewrite Hp, Hid, Href. intros o row po Hsome Ho Hop Hcl Hun. exfalso.
    destruct prev as [prow|]; [|by apply Hsome].
    by rewrite (nothing_pinned _ _ _ _ H (Hu _ eq_refl) _ _ _ Ho Hop Hcl) in Hun.
Qed.

(** A fence of a landing names its row. *)
Lemma landing_fence_Ok locks db guard f live l :
  landing_fence locks db guard f live = Ok l →
  l_project l = g_project guard ∧ l_reference l = g_reference guard ∧ l_id l = f_id f ∧
  ∃ c, claims db !! (g_project guard, f_id f) = Some c ∧ c_kind c = "landing" ∧ c_record c = LandingRecord l ∧
    c_holder c = Some (f_actor f) ∧ c_generation c = f_generation f ∧
    ∀ at_, live = Some at_ → ∃ u, c_expires c = Some u ∧ at_ < u.
Proof.
  unfold landing_fence. intros H. apply result_seq_Ok in H as [_ H].
  apply result_bind_Ok in H as (row & Hrow & H). apply by_fence_Ok in Hrow as (c & Hc & Hk & -> & Hh & Hg & _ & Hl).
  simpl in H. apply result_bind_Ok in H as (v & Hv & H). destruct (c_record c) as [|l0| |] eqn:Hr; try done.
  injection Hv as ->. apply result_guard_Ok in H as [Hgd H]. injection H as ->.
  rewrite !orb_false_iff, !negb_false_iff, !bool_decide_eq_true in Hgd. destruct Hgd as [[? ?] ?].
  split_and!; [done..|]. exists c. by split_and!.
Qed.

(** The landing behind a fence is pinned by its own pushes only. *)
Lemma fence_pins t db p id c l o row po :
  inv t db → claims db !! (p, id) = Some c → c_record c = LandingRecord l →
  operations db !! (p, o) = Some row → op_ok db p o row po → p_claim (po_request po) = id →
  is_unresolved (po_phase po) = true →
  l_operation l = Some o ∧ l_generation l = p_generation (po_request po) ∧ l_holder l = Some (p_actor (po_request po)).
Proof.
  intros H Hc Hl Ho Hop Hcl Hu. destruct (ok_pinned _ _ _ _ _ Hop Hu) as (c' & l' & Hc' & Hl' & Hop' & Hg & Hh & _).
  rewrite Hcl, Hc in Hc'. injection Hc' as <-. rewrite Hl in Hl'. injection Hl' as <-.
  pose proof (i_row _ _ H _ _ _ Hc) as Hr. unfold row_ok in Hr. rewrite Hl in Hr. destruct Hr as (_ & _ & _ & _ & ? & ? & _).
  split_and!; congruence.
Qed.

(** The branch of a stored landing has its id. *)
Lemma landing_counter t db p id c l :
  inv t db → claims db !! (p, id) = Some c → c_record c = LandingRecord l →
  ∀ n, counters db !! (l_project l, "landing", l_reference l) = Some n → n_id n = l_id l.
Proof.
  intros H Hc Hl n Hn. pose proof (i_row _ _ H _ _ _ Hc) as Hr. unfold row_ok in Hr. rewrite Hl in Hr.
  destruct Hr as (Hk & Hp & Hid & Href & _). apply (kw_claim _ (i_keys _ _ H)) in Hc.
  rewrite Hk, <-Href, <-Hp, Hn in Hc. injection Hc as ->. by rewrite Hid.
Qed.

Lemma change_landing_Ok locks guard f lease r db x db' :
  change_landing locks guard f lease r db = Ok (x, db') →
  ∃ at_ l expires db2 e, wall_now r = Ok at_ ∧
    landing_fence locks db guard f (if is_some lease then Some at_ else None) = Ok l ∧
    (is_some lease = false → unresolved db (g_project guard) (f_id f) = None) ∧
    save_landing (mkLanding (l_extra l) (l_project l) (l_id l) (l_reference l) (l_expected l) (l_candidate l)
                    (if is_some lease then Some (f_actor f) else None) (l_generation l) expires (l_operation l) at_)
      (if is_some lease then Some (f_token f) else None) db = Ok (tt, db2) ∧
    db' = push_event db2 e.
Proof.
  unfold change_landing. intros H%write_Ok. apply result_bind_Ok in H as (at_ & Hat & H).
  apply result_bind_Ok in H as (l & Hl & H). case_match eqn:Hu; [done|].
  apply result_bind_Ok in H as (expires & _ & H). cbv zeta in H. apply result_bind_Ok in H as ([[] db2] & Hsave & H).
  assert (∃ e, db' = push_event db2 e) as [e ->] by (destruct lease; by apply claim_event_Ok in H).
  exists at_, l, expires, db2, e. split_and!; try done. intros Hs. by rewrite Hs in Hu.
Qed.

Lemma change_landing_inv t at_ locks guard f lease r db x db' :
  inv t db → wall_now r = Ok at_ → t ≤ at_ → change_landing locks guard f lease r db = Ok (x, db') → inv at_ db'.
Proof.
  intros H Hat Ht Hch. apply change_landing_Ok in Hch as (at' & l & expires & db2 & e & Hat' & Hl & Hu & Hsave & ->).
  rewrite Hat in Hat'. injection Hat' as <-. apply (inv_later _ _ _ Ht) in H. apply inv_event.
  apply landing_fence_Ok in Hl as (Hp & Href & Hid & c & Hc & Hk & Hrec & Hh & Hg & _).
  eapply save_landing_inv; [exact H|exact Hsave|simpl..].
  - by eapply landing_counter.
  - rewrite Hp, Hid. intros o row po _ Ho Hop Hcl Hun.
    destruct (fence_pins _ _ _ _ _ _ _ _ _ H Hc Hrec Ho Hop Hcl Hun) as (? & ? & Hact).
    destruct (is_some lease).
    + split_and!; [done..|]. pose proof (i_row _ _ H _ _ _ Hc) as Hr. unfold row_ok in Hr. rewrite Hrec in Hr.
      destruct Hr as (_ & _ & _ & _ & _ & Hh' & _). congruence.
    + by rewrite (nothing_pinned _ _ _ _ H (Hu eq_refl) _ _ _ Ho Hop Hcl) in Hun.
Qed.

(** ** Pushes *)

Lemma load_operation_Ok db p o po :
  load_operation db p o = Ok po →
  ∃ row, operations db !! (p, o) = Some row ∧ o_record row = PushRecord po ∧ p_project (po_request po) = p ∧ po_id po = o.
Proof.
  unfold load_operation. intros H. apply result_bind_Ok in H as (row & Hrow%ok_or_Ok & H).
  apply result_bind_Ok in H as (po' & Hpo & H). apply result_guard_Ok in H as [Hg H]. injection H as ->.
  exists row. destruct (o_record row); try done. injection Hpo as ->.
  rewrite orb_false_iff, !negb_false_iff, !bool_decide_eq_true in Hg. naive_solver.
Qed.
Lemma load_operation_NotFound db p o : load_operation db p o = Err NotFound → operations db !! (p, o) = None.
Proof.
  unfold load_operation. destruct (operations db !! (p, o)) as [row|]; [|done]. simpl.
  destruct (o_record row); simpl; try done. by case_match.
Qed.

Lemma save_operation_Ok po db x db' :
  save_operation po db = Ok (x, db') →
  ∃ claim digest, db' = set_operations db (<[(p_project (po_request po), po_id po) :=
      mkOperationRow claim digest (po_phase po) (PushRecord po)]> (operations db)) ∧
    claim = match operations db !! (p_project (po_request po), po_id po) with
            | Some o => o_claim o | None => p_claim (po_request po) end.
Proof.
  unfold save_operation. intros H. apply result_seq_Ok in H as [_ H]. cbv zeta in H.
  destruct (operations db !! _) as [o|]; injection H as _ <-; eauto.
Qed.

Lemma save_operation_inv t db po x db' :
  inv t db → save_operation po db = Ok (x, db') →
  (∀ row, operations db !! (p_project (po_request po), po_id po) = Some row → o_claim row = p_claim (po_request po)) →
  observed_ok po →
  (∃ c, claims db !! (p_project (po_request po), p_claim (po_request po)) = Some c ∧ c_kind c = "landing" ∧
     c_key c = p_reference (po_request po)) →
  (is_unresolved (po_phase po) = true → pinned db (p_project (po_request po)) (po_id po) po) →
  inv t db'.
Proof.
  intros H (claim & digest & -> & Hclaim)%save_operation_Ok Hsame Hobs Hrow Hpin.
  assert (claim = p_claim (po_request po)) as ->.
  { subst claim. destruct (operations db !! _) eqn:Ho; [by apply Hsame|done]. }
  destruct H as [[Hk1 Hk2] Hr Hp Hd Ho]. split; try done; simpl.
  intros p o row. rewrite lookup_insert_Some. intros [[[= <- <-] <-]|[_ Hrow']].
  - exists po. by split.
  - destruct (Ho _ _ _ Hrow') as [po' []]. exists po'. by split.
Qed.

Lemma prepare_push_Ok locks guard f id remote r db po db' :
  prepare_push locks guard f id remote r db = Ok (po, db') →
  ∃ at_ l, wall_now r = Ok at_ ∧ landing_fence locks db guard f (Some at_) = Ok l ∧
    (∀ old, l_operation l = Some old → old = id) ∧
    (db' = db ∨
     ∃ db2 db3 e, operations db !! (g_project guard, id) = None ∧
       po_id po = id ∧ po_phase po = Prepared ∧ po_observed_remote po = None ∧
       p_project (po_request po) = g_project guard ∧ p_claim (po_request po) = f_id f ∧
       p_reference (po_request po) = l_reference l ∧
       save_operation po db = Ok (tt, db2) ∧
       save_landing (mkLanding (l_extra l) (l_project l) (l_id l) (l_reference l) (l_expected l) (l_candidate l)
                       (l_holder l) (l_generation l) (l_expires_at l) (Some id) at_) (Some (f_token f)) db2
         = Ok (tt, db3) ∧ db' = push_event db3 e).
Proof.
  unfold prepare_push. intros [_ H]%result_guard_Ok. apply write_Ok in H.
  apply result_bind_Ok in H as (at_ & Hat & H). apply result_bind_Ok in H as (l & Hl & H).
  apply result_guard_Ok in H as [Hold H]. apply result_bind_Ok in H as (digest & _ & H).
  exists at_, l. split_and!; [done..| |].
  { intros old Ho. rewrite Ho in Hold. simpl in Hold. bool_prop. done. }
  destruct (load_operation db (g_project guard) id) as [old|[]] eqn:Hload; try done.
  - left. case_bool_decide; [|done]. by injection H.
  - right. apply load_operation_NotFound in Hload. apply result_bind_Ok in H as ([[] db2] & Hs & H).
    apply result_bind_Ok in H as ([[] db3] & Hs' & H). apply result_bind_Ok in H as ([x db4] & [e ->]%claim_event_Ok & H).
    injection H as <- <-. exists db2, db3, e. by split_and!.
Qed.

Lemma prepare_push_inv t at_ locks guard f id remote r db po db' :
  inv t db → wall_now r = Ok at_ → t ≤ at_ → prepare_push locks guard f id remote r db = Ok (po, db') → inv at_ db'.
Proof.
  intros H Hat Ht (at' & l & Hat' & Hl & Hop & Hcase)%prepare_push_Ok. rewrite Hat in Hat'. injection Hat' as <-.
  apply (inv_later _ _ _ Ht) in H. destruct Hcase as [->|Hcase]; [done|].
  destruct Hcase as (db2 & db3 & e & Hnone & Hid & Hph & Hobs & Hproj & Hcl & Href & Hs & Hs' & ->). apply inv_event.
  apply landing_fence_Ok in Hl as (Hp & Hr & Hlid & c & Hc & Hk & Hrec & Hh & Hg & _).
  pose proof (i_row _ _ H _ _ _ Hc) as Hrow. unfold row_ok in Hrow. rewrite Hrec in Hrow.
  destruct Hrow as (_ & _ & _ & Hkey & _).
  assert (claims db2 = claims db ∧ counters db2 = counters db) as [Hc2 Hn2].
  { apply save_operation_Ok in Hs as (? & ? & -> & _). done. }
  assert (inv at_ db2) as H2.
  { eapply save_operation_inv; [exact H|exact Hs|..].
    - rewrite Hproj, Hid, Hnone. done.
    - unfold observed_ok. by rewrite Hph.
    - rewrite Hproj, Hcl, Href. exists c. by rewrite Hkey.
    - by rewrite Hph. }
  rewrite <-Hc2 in Hc. eapply save_landing_inv; [exact H2|exact Hs'|simpl..].
  - by eapply landing_counter.
  - rewrite Hp, Hlid. intros o row po' _ Ho Hpo Hcl' Hun.
    destruct (fence_pins _ _ _ _ _ _ _ _ _ H2 Hc Hrec Ho Hpo Hcl' Hun) as (Hlo & ? & ?).
    by rewrite (Hop _ Hlo) in *.
Qed.

Lemma change_push_Ok locks guard f id action r db po db' :
  change_push locks guard f id action r db = Ok (po, db') →
  ∃ at_ l old db2 e, wall_now r = Ok at_ ∧
    landing_fence locks db guard f (if action == Begin then Some at_ else None) = Ok l ∧
    load_operation db (g_project guard) id = Ok old ∧ l_operation l = Some id ∧
    p_claim (po_request old) = f_id f ∧ p_generation (po_request old) = f_generation f ∧
    p_actor (po_request old) = f_actor f ∧
    push_phase old action = Some (po_phase po, po_observed_remote po) ∧
    po_request po = po_request old ∧ po_id po = po_id old ∧
    save_operation po db = Ok (tt, db2) ∧ db' = push_event db2 e.
Proof.
  unfold change_push. intros H%write_Ok. apply result_bind_Ok in H as (at_ & Hat & H).
  apply result_bind_Ok in H as (l & Hl & H). apply result_bind_Ok in H as (old & Hold & H).
  apply result_guard_Ok in H as [Hg H]. rewrite !orb_false_iff, !negb_false_iff, !bool_decide_eq_true in Hg.
  destruct Hg as [[[Hop Hcl] Hgen] Hact]. destruct (push_phase old action) as [[phase obs]|] eqn:Hphase; [|done].
  apply result_bind_Ok in H as ([[] db2] & Hs & H). apply result_bind_Ok in H as ([x db4] & [e ->]%claim_event_Ok & H).
  injection H as <- <-. exists at_, l, old, db2, e. by split_and!.
Qed.

Lemma push_phase_observed old action phase obs po :
  push_phase old action = Some (phase, obs) → po_phase po = phase → po_observed_remote po = obs →
  po_request po = po_request old → observed_ok po.
Proof.
  unfold push_phase, observed_ok. intros H -> -> ->.
  destruct (po_phase old), action as [| | |remote]; try done; try (by injection H as <- <-);
    injection H as <- <-; destruct remote as [oid|]; try done;
    repeat (case_bool_decide; subst; try done); eauto.
Qed.

Lemma change_push_inv t at_ locks guard f id action r db po db' :
  inv t db → wall_now r = Ok at_ → t ≤ at_ → change_push locks guard f id action r db = Ok (po, db') → inv at_ db'.
Proof.
  intros H Hat Ht Hch. apply change_push_Ok in Hch as (at' & l & old & db2 & e & Hat' & Hl & Hload & Hlo & Hcl & Hgen &
    Hact & Hphase & Hreq & Hid & Hs & ->).
  rewrite Hat in Hat'. injection Hat' as <-. apply (inv_later _ _ _ Ht) in H. apply inv_event.
  apply load_operation_Ok in Hload as (row & Hrow & Hrec & Hproj & Hoid).
  destruct (i_ops _ _ H _ _ _ Hrow) as [po' Hok].
  assert (po' = old) as -> by (pose proof (ok_record _ _ _ _ _ Hok); congruence).
  eapply save_operation_inv; [exact H|exact Hs|rewrite ?Hreq, ?Hid, ?Hproj, ?Hoid..].
  - intros row'. rewrite Hrow. intros [= <-]. apply Hok.
  - by eapply push_phase_observed.
  - apply Hok.
  - intros _. apply landing_fence_Ok in Hl as (_ & _ & _ & c & Hc & Hk & Hlr & Hh & Hg & _).
    destruct (ok_row _ _ _ _ _ Hok) as (c' & Hc' & _ & Hkey). rewrite Hcl, Hc in Hc'. injection Hc' as <-.
    exists c, l. rewrite Hreq, Hcl, Hgen, Hact. by split_and!.
Qed.

(** ** Every history keeps the invariant *)

Lemma committed_Ok {A} (x : result Error (A * DB)) db : committed x = Ok db → ∃ a, x = Ok (a, db).
Proof. unfold committed. intros H. apply result_bind_Ok in H as ([a db'] & -> & H). injection H as ->. eauto. Qed.

Lemma exec_inv {L : FabricLaws E} t at_ locks r op db db' :
  inv t db → wall_now r = Ok at_ → t ≤ at_ → exec locks r op db = Ok db' → inv at_ db'.
Proof.
  intros H Hat Ht. destruct op; simpl; intros [a Hop]%committed_Ok.
  - by eapply acquire_claim_inv.
  - by eapply change_claim_inv.
  - by eapply change_claim_inv.
  - by eapply acquire_landing_inv.
  - by eapply change_landing_inv.
  - by eapply change_landing_inv.
  - by eapply prepare_push_inv.
  - by eapply change_push_inv.
Qed.

Lemma steps_inv {L : FabricLaws E} t db t' db' : steps t db t' db' → inv t db → inv t' db'.
Proof.
  intros Hs H. induction Hs as [|t1 t2 db1 _ IH Ht|t1 db1 at_ db2 locks r op _ IH Hat Ht Hex]; [done|..].
  - by eapply inv_later.
  - by eapply exec_inv.
Qed.
End Fences.
