(* ===== verification/FabricHistory.v ===== *)
(** * FabricHistory: what claims, fences and pushes promise

    Consequences of the store's invariant for every history of operations from
    an empty store: exclusive claims, fences that stay dead once superseded,
    one push in flight per branch, and push outcomes backed by what was seen of
    the remote. *)

From Stdlib Require Import Ascii.
From stdpp Require Import base option list strings sets gmap pretty countable.
From S2P Require Import Prelude CoreIds FabricClaims FabricLanding FabricPaths FabricFences.

Local Open Scope string_scope.
Local Open Scope list_scope.
Local Open Scope Z_scope.
Local Open Scope rust_scope.

Section History.
  Context {E : FabricEnv}.

(** ** Generations never go back *)

Definition grows (db db' : DB) : Prop :=
  ∀ k n, counters db !! k = Some n →
    ∃ n', counters db' !! k = Some n' ∧ n_id n' = n_id n ∧ n_generation n ≤ n_generation n'.

Lemma grows_refl db : grows db db.
Proof. intros k n Hn. exists n. split_and!; [done..|lia]. Qed.
Lemma grows_trans a b c : grows a b → grows b c → grows a c.
Proof.
  intros H1 H2 k n (n' & H & Hid & Hle)%H1. apply H2 in H as (n'' & ? & ? & ?). exists n''. split_and!; [done|congruence|lia].
Qed.
Lemma grows_counters a b c : counters b = counters c → grows a b → grows a c.
Proof. unfold grows. by intros ->. Qed.

Lemma save_grows row record db x db' :
  keys_wf db → save_claim row record db = Ok (x, db') →
  (∀ n, counters db !! (cw_project row, cw_kind row, cw_key row) = Some n →
     n_id n = cw_id row ∧ n_generation n ≤ cw_generation row) →
  grows db db'.
Proof.
  intros Hk Hs Hn. destruct (save_put _ _ _ _ _ Hk (λ n H, proj1 (Hn n H)) Hs) as [-> _].
  intros k n H. simpl. destruct (decide ((cw_project row, cw_kind row, cw_key row) = k)) as [<-|Hne].
  - rewrite lookup_insert_eq. destruct (Hn _ H) as [Hid Hle]. eexists. split_and!; [done|simpl; done|done].
  - rewrite lookup_insert_ne by done. exists n. split_and!; [done..|lia].
Qed.

Lemma landing_grows db p id c l l' token x db' :
  keys_wf db → claims db !! (p, id) = Some c → row_ok p id c → c_record c = LandingRecord l →
  l_project l' = l_project l → l_id l' = l_id l → l_reference l' = l_reference l → l_generation l' = l_generation l →
  save_landing l' token db = Ok (x, db') → grows db db'.
Proof.
  intros Hkeys Hc Hr Hl Hp Hid Href Hg Hs. eapply save_grows; [done|exact Hs|]. simpl. rewrite Hp, Href, Hid, Hg.
  intros n Hn. unfold row_ok in Hr. rewrite Hl in Hr.
  destruct Hr as (Hk & Hp' & Hid' & Href' & Hg' & _). apply (kw_claim _ Hkeys) in Hc.
  rewrite Hk, <-Href', <-Hp', Hn in Hc. injection Hc as ->. simpl. split; [done|lia].
Qed.

Lemma acquire_claim_grows t claim r db f db' : inv t db → acquire_claim claim r db = Ok (f, db') → grows db db'.
Proof.
  intros H (at_ & scope & key & prev & _ & _ & _ & Hprev & [->|[e Hg]])%acquire_claim_Ok; [apply grows_refl|].
  apply grant_claim_Ok in Hg as (_ & w & db2 & ev & Hg). cbv zeta in Hg. destruct Hg as (_ & _ & Hs & ->).
  destruct (prune_released_inv _ _ (cr_project claim) H) as (H1 & Hn & _).
  apply by_scope_previous in Hprev. unfold previous_of in Hprev.
  apply (grows_counters _ db2); [done|]. eapply grows_trans; [|eapply save_grows; [apply H1|exact Hs|]].
  - eapply grows_counters; [by symmetry|apply grows_refl].
  - simpl. rewrite Hn, Hprev. intros n Heq. destruct prev as [row|]; [|done]. injection Heq as <-. simpl. split; [done|lia].
Qed.

Lemma change_claim_grows t p f lease r db x db' : inv t db → change_claim p f lease r db = Ok (x, db') → grows db db'.
Proof.
  intros H Hop. apply change_claim_Ok in Hop
    as (at_ & c & w & w' & ex & key & db2 & ev & _ & Hc & Hk & Hw & _ & Hg & _ & _ & Hkey & Hs & ->).
  pose proof (i_row _ _ H _ _ _ Hc) as Hr. unfold row_ok in Hr. rewrite Hw in Hr. destruct Hr as (_ & Hkey' & _).
  apply (save_grows _ _ _ _ _ (i_keys _ _ H) Hs). simpl. apply (kw_claim _ (i_keys _ _ H)) in Hc.
  assert (key = c_key c) as -> by congruence. rewrite Hk in Hc. rewrite Hc. intros n [= <-]. simpl. split; [done|lia].
Qed.

Lemma acquire_landing_grows t locks guard claim r db f db' :
  inv t db → acquire_landing locks guard claim r db = Ok (f, db') → grows db db'.
Proof.
  intros H (at_ & prev & _ & Hprev & [->|[_ [e Hg]]])%acquire_landing_Ok; [apply grows_refl|].
  apply grant_landing_Ok in Hg as (l & db2 & ev & Hg). cbv zeta in Hg.
  destruct Hg as (_ & Hp & Hid & Href & Hgen & _ & _ & Hs & ->).
  apply by_scope_previous in Hprev. unfold previous_of in Hprev.
  apply (save_grows _ _ _ _ _ (i_keys _ _ H) Hs). simpl. rewrite Hp, Href, Hprev, Hid, Hgen.
  intros n Heq. destruct prev as [row|]; [|done]. injection Heq as <-. simpl. split; [done|lia].
Qed.

Lemma change_landing_grows t locks guard f lease r db x db' :
  inv t db → change_landing locks guard f lease r db = Ok (x, db') → grows db db'.
Proof.
  intros H Hop. apply change_landing_Ok in Hop as (at_ & l & ex & db2 & e & _ & Hl & _ & Hs & ->).
  apply landing_fence_Ok in Hl as (_ & _ & _ & c & Hc & _ & Hrec & _).
  apply (grows_counters _ db2); [done|]. 
  by eapply (landing_grows _ _ _ _ _ _ _ _ _ (i_keys _ _ H) Hc (i_row _ _ H _ _ _ Hc) Hrec); [..|exact Hs].
Qed.

Lemma save_operation_tables po db x db' :
  save_operation po db = Ok (x, db') → counters db' = counters db ∧ claims db' = claims db.
Proof. by intros (? & ? & -> & _)%save_operation_Ok. Qed.

Lemma exec_grows t locks r op db db' : inv t db → exec locks r op db = Ok db' → grows db db'.
Proof.
  intros H. destruct op; simpl; intros [a Hop]%committed_Ok.
  - by eapply acquire_claim_grows.
  - by eapply change_claim_grows.
  - by eapply change_claim_grows.
  - by eapply acquire_landing_grows.
  - by eapply change_landing_grows.
  - by eapply change_landing_grows.
  - apply prepare_push_Ok in Hop as (at_ & l & _ & Hl & _ & [->|Hcase]); [apply grows_refl|].
    destruct Hcase as (db2 & db3 & e & Hnone & Hid & Hph & Hobs & Hproj & Hcl & Href & Hs & Hs' & ->).
    apply landing_fence_Ok in Hl as (_ & _ & _ & c & Hc & _ & Hrec & _).
    destruct (save_operation_tables _ _ _ _ Hs) as [Hn2 Hc2].
    apply (grows_counters _ db3); [done|]. intros k n Hk. rewrite <-Hn2 in Hk. revert k n Hk.
    pose proof (i_row _ _ H _ _ _ Hc) as Hr. rewrite <-Hc2 in Hc.
    assert (keys_wf db2) as Hk2 by (destruct (i_keys _ _ H); split; by rewrite ?Hn2, ?Hc2).
    by eapply (landing_grows _ _ _ _ _ _ _ _ _ Hk2 Hc Hr Hrec); [..|exact Hs'].
  - apply change_push_Ok in Hop as (at_ & l & old & db2 & e & _ & _ & _ & _ & _ & _ & _ & _ & _ & _ & Hs & ->).
    destruct (save_operation_tables _ _ _ _ Hs) as [Hn2 _].
    apply (grows_counters _ db); [done|apply grows_refl].
Qed.

Lemma steps_grow {L : FabricLaws E} t db t' db' : steps t db t' db' → inv t db → grows db db'.
Proof.
  intros Hs H. induction Hs as [|t1 t2 db1 _ IH Ht|t1 db1 at_ db2 locks r op Hs IH Hat Ht Hex].
  - apply grows_refl.
  - done.
  - eapply grows_trans; [exact IH|]. eapply exec_grows; [|exact Hex]. by eapply steps_inv.
Qed.

(** ** Promises *)

(** C5: work is claimed exclusively.  In every history of the store on a clock
    that does not run backwards, two live work claims of a project never have
    overlapping paths: no path of one is a path of the other or lies above or
    below it, by components, whatever mix of path lists and worktrees they
    claim. *)
Theorem live_claims_disjoint {L : FabricLaws E} t0 t db p id id' c c' w w' cs ds :
  steps t0 empty_db t db → id ≠ id' →
  claims db !! (p, id) = Some c → c_record c = WorkRecord w → live c t = true →
  claims db !! (p, id') = Some c' → c_record c' = WorkRecord w' → live c' t = true →
  Forall plain_component cs → Forall plain_component ds →
  render cs ∈ scope_paths (w_scope w) → render ds ∈ scope_paths (w_scope w') →
  (¬ cs `prefix_of` ds) ∧ (¬ ds `prefix_of` cs).
Proof.
  intros Hs Hne Hc Hw Hl Hc' Hw' Hl' Hcs Hds Hp Hp'. pose proof (steps_inv _ _ _ _ Hs (inv_empty _)) as H.
  assert (¬ overlaps cs ds) as Hno; [|unfold overlaps in Hno; tauto].
  eapply (i_disjoint _ _ H p id id' c c'); try done; apply (i_paths _ _ H); eauto.
Qed.

(** C6: a superseded fence stays dead.  Once a fence of a claim or landing has
    been accepted, no fence of the same id with an older generation is ever
    accepted again, in any later state and for any purpose: renewal, release,
    verification and pushes all refuse it. *)
Theorem superseded_fence_refused {L : FabricLaws E} t0 t db t' db' p kind kind' newer older live live' :
  steps t0 empty_db t db → is_ok (by_fence db p newer kind live) = true →
  steps t db t' db' → f_id older = f_id newer → f_generation older < f_generation newer →
  is_ok (by_fence db' p older kind' live') = false.
Proof.
  intros Hs Hok Hs' Hid Hlt. pose proof (steps_inv _ _ _ _ Hs (inv_empty _)) as H.
  pose proof (steps_inv _ _ _ _ Hs' H) as H'. apply is_ok_true in Hok as [row Hok].
  apply by_fence_Ok in Hok as (c & Hc & _ & _ & _ & Hg & _). apply (kw_claim _ (i_keys _ _ H)) in Hc.
  destruct (steps_grow _ _ _ _ Hs' H _ _ Hc) as (n' & Hn' & Hnid & Hle). simpl in *.
  apply not_true_is_false. intros [row' Hok']%is_ok_true.
  apply by_fence_Ok in Hok' as (c' & Hc' & _ & _ & _ & Hg' & _). rewrite Hid in Hc'.
  apply (kw_claim _ (i_keys _ _ H')) in Hc'.
  destruct (kw_counter _ (i_keys _ _ H') _ _ _ _ _ _ _ Hn' Hc' Hnid) as [Hk Hkey].
  rewrite <-Hk, <-Hkey, Hn' in Hc'. injection Hc' as ->. simpl in *. lia.
Qed.

(** C12: at most one push per branch is in flight.  In every history, two pushes
    of a project to the same branch that may have reached the remote (pushing,
    or of unknown outcome) are the same push, and its landing is still held by
    the actor and generation that began it: nobody else can land on the branch
    until the push is reconciled, even after the lease expires. *)
Theorem one_push_in_flight {L : FabricLaws E} t0 t db p o o' row row' po po' :
  steps t0 empty_db t db →
  operations db !! (p, o) = Some row → o_record row = PushRecord po → is_unresolved (o_phase row) = true →
  operations db !! (p, o') = Some row' → o_record row' = PushRecord po' → is_unresolved (o_phase row') = true →
  p_reference (po_request po) = p_reference (po_request po') →
  o = o' ∧ ∃ c, claims db !! (p, p_claim (po_request po)) = Some c ∧
    c_holder c = Some (p_actor (po_request po)) ∧ c_generation c = p_generation (po_request po).
Proof.
  intros Hs Ho Hr Hu Ho' Hr' Hu' Href. pose proof (steps_inv _ _ _ _ Hs (inv_empty _)) as H.
  assert (pinned db p o po) as (c & l & Hc & Hl & Hop & Hg & Hh & Hk).
  { destruct (i_ops _ _ H _ _ _ Ho) as [q Hq]. assert (q = po) as -> by (pose proof (ok_record _ _ _ _ _ Hq); congruence).
    apply Hq. by rewrite <-(ok_phase _ _ _ _ _ Hq). }
  assert (pinned db p o' po') as (c' & l' & Hc' & Hl' & Hop' & _ & _ & Hk').
  { destruct (i_ops _ _ H _ _ _ Ho') as [q Hq]. assert (q = po') as -> by (pose proof (ok_record _ _ _ _ _ Hq); congruence).
    apply Hq. by rewrite <-(ok_phase _ _ _ _ _ Hq). }
  split; [|eauto]. pose proof (i_row _ _ H _ _ _ Hc) as Hrow. pose proof (i_row _ _ H _ _ _ Hc') as Hrow'.
  unfold row_ok in Hrow, Hrow'. rewrite Hl in Hrow. rewrite Hl' in Hrow'. destruct Hrow as [Hkd _], Hrow' as [Hkd' _].
  pose proof (kw_claim _ (i_keys _ _ H) _ _ _ Hc) as Hn. pose proof (kw_claim _ (i_keys _ _ H) _ _ _ Hc') as Hn'.
  rewrite Hkd, Hk in Hn. rewrite Hkd', Hk', <-Href, Hn in Hn'. injection Hn' as Hid _.
  rewrite <-Hid, Hc in Hc'. injection Hc' as <-. congruence.
Qed.

(** the outcome of a push is what was seen of the remote.  In every history
    a committed push has observed its candidate on the branch, a retryable one
    the commit it expected, and a conflicting one a third commit; a push that
    has begun anew carries no old observation; and no action moves a committed
    or conflicting push. *)
Theorem push_outcome_observed {L : FabricLaws E} t0 t db p o row po :
  steps t0 empty_db t db → operations db !! (p, o) = Some row → o_record row = PushRecord po →
  match o_phase row with
  | Committed => po_observed_remote po = Some (p_candidate (po_request po))
  | Retryable => po_observed_remote po = Some (p_expected (po_request po))
  | Conflicted => ∃ oid, po_observed_remote po = Some oid ∧ oid ≠ p_candidate (po_request po) ∧
                         oid ≠ p_expected (po_request po)
  | Prepared | Pushing => po_observed_remote po = None
  | Unknown => True
  end ∧
  ∀ locks guard fence action r, o_phase row = Committed ∨ o_phase row = Conflicted → g_project guard = p →
    is_ok (change_push locks guard fence o action r db) = false.
Proof.
  intros Hs Ho Hr. pose proof (steps_inv _ _ _ _ Hs (inv_empty _)) as H.
  destruct (i_ops _ _ H _ _ _ Ho) as [q Hq]. assert (q = po) as -> by (pose proof (ok_record _ _ _ _ _ Hq); congruence).
  rewrite (ok_phase _ _ _ _ _ Hq). split; [apply Hq|].
  intros locks guard fence action r Hph <-. apply not_true_is_false. intros [[po' db'] Hch]%is_ok_true.
  apply change_push_Ok in Hch as (at_ & l & old & db2 & e & _ & _ & Hload & _ & _ & _ & _ & Hphase & _).
  apply load_operation_Ok in Hload as (row' & Hrow' & Hrec & _). rewrite Ho in Hrow'. injection Hrow' as <-.
  assert (old = po) as -> by congruence. unfold push_phase in Hphase.
  destruct Hph as [Hph|Hph]; rewrite Hph in Hphase; by destruct action.
Qed.

(** ** A granted claim holds *)

Lemma lease_expiry_Ok at_ lease e : lease_expiry at_ lease = Ok e → check_wall (Some e) = Ok tt ∧ at_ < e.
Proof.
  unfold lease_expiry, wall_checked_add. intros [Hg H]%result_guard_Ok. cbv zeta in H.
  destruct (in_i64 (at_ + lease)); [|done]. unfold check_wall. pose proof H as H'.
  unfold wall_from_micros in H'. apply result_guard_Ok in H' as [_ H']. injection H' as <-. rewrite H. split; [done|].
  bool_prop. lia.
Qed.

Lemma by_fence_intro db p f kind at_ c u :
  claims db !! (p, f_id f) = Some c → c_kind c = kind → c_holder c = Some (f_actor f) →
  c_generation c = f_generation f → c_token c = Some (f_token f) → 0 ≤ c_generation c →
  c_expires c = Some u → check_wall (Some u) = Ok tt → at_ < u →
  by_fence db p f kind (Some at_) =
    Ok (mkStored (f_id f) (c_generation c) (c_holder c) (c_token c) (c_expires c) (Some (c_record c))).
Proof.
  intros Hc Hk Hh Hg Ht H0 Hu Hw Hlt. unfold by_fence, checked. rewrite Hc, Hk, bool_decide_eq_true_2 by done.
  cbn [negb s_generation s_holder s_token s_expires]. rewrite (proj2 (Z.ltb_ge _ _) H0), Hu, Hw, Hh, Hg, Ht. simpl.
  rewrite !bool_decide_eq_true_2 by done. simpl. by rewrite (proj2 (Z.leb_gt _ _) Hlt).
Qed.

Lemma checked_facts s s' : checked s = Ok s' → 0 ≤ s_generation s ∧ check_wall (s_expires s) = Ok tt.
Proof.
  unfold checked. intros [Hg H]%result_guard_Ok. apply result_seq_Ok in H as [H _]. bool_prop. done.
Qed.

(** an acquired claim verifies at once.  In every history, when an
    acquisition succeeds, the fence it returns is the requesting actor's, and
    verifying it against the store it leaves, at the same instant, succeeds
    with a claim on the canonical form of the requested scope: also when the
    claim was already held and the call only repeated. *)
Theorem acquired_claim_verifies {L : FabricLaws E} t0 t db at_ claim r f db' :
  steps t0 empty_db t db → wall_now r = Ok at_ → t ≤ at_ → acquire_claim claim r db = Ok (f, db') →
  f_actor f = cr_actor claim ∧
  ∃ w, verify_claim (cr_project claim) f r db' = Ok w ∧ canonical (cr_scope claim) = Ok (w_scope w).
Proof.
  intros Hs Hat Ht Hacq. pose proof (steps_inv _ _ _ _ Hs (inv_empty _)) as H.
  unfold acquire_claim in Hacq. apply result_bind_Ok in Hacq as (scope & Hscope & Hacq).
  apply result_bind_Ok in Hacq as (key & Hkey%ok_or_Ok & Hacq). apply write_Ok in Hacq. rewrite Hat in Hacq. simpl in Hacq.
  apply result_bind_Ok in Hacq as (expires & [Hwall Hlt]%lease_expiry_Ok & Hacq).
  apply result_bind_Ok in Hacq as (prev & Hprev & Hacq).
  assert ((∃ row, prev = Some row ∧ held_now row at_ = true ∧ s_holder row = Some (cr_actor claim) ∧
             s_token row = Some (cr_token claim) ∧ db' = db ∧
             f = mkFence (s_id row) (cr_actor claim) (s_generation row) (cr_token claim)) ∨
          grant_claim claim scope key at_ expires prev db = Ok (f, db')) as [Hheld|Hgrant].
  { destruct prev as [row|]; [|by right]. destruct (held_now row at_) eqn:Hheld; [|by right]. left. exists row.
    destruct (_ && _) eqn:Heq; [|done]. injection Hacq as <- <-. bool_prop. destruct Heq. by split_and!. }
  - destruct Hheld as (row & -> & Hheld & Hh & Htok & -> & ->). split; [done|].
    unfold by_scope in Hprev. destruct (counters db !! _) as [n|] eqn:Hn; [|done].
    apply result_bind_Ok in Hprev as (row' & Hch & Heq). injection Heq as ->.
    pose proof (checked_facts _ _ Hch) as [Hgen Hw]. apply checked_Ok in Hch as ->. simpl in *.
    destruct (claims db !! (cr_project claim, n_id n)) as [c|] eqn:Hc; [|done]. simpl in *.
    unfold held_now in Hheld. simpl in Hheld. bool_prop. destruct Hheld as (_ & u & Hu & Hltu).
    pose proof (kw_claim _ (i_keys _ _ H) _ _ _ Hc) as Hcount.
    destruct (kw_counter _ (i_keys _ _ H) _ _ _ _ _ _ _ Hn Hcount eq_refl) as [Hk Hck].
    rewrite <-Hk, <-Hck, Hn in Hcount. injection Hcount as Hcount. rewrite Hcount in Hgen |- *. simpl in Hgen |- *.
    pose proof (i_row _ _ H _ _ _ Hc) as Hrow. unfold row_ok in Hrow. rewrite Hcount in Hc. simpl in Hc.
    destruct (c_record c) as [w|l| |] eqn:Hrec; [|destruct Hrow; congruence|done..].
    exists w. rewrite Hu in Hw. unfold verify_claim. rewrite Hat. simpl.
    apply Z.ltb_lt in Hltu. rewrite (by_fence_intro _ _ _ _ _ c u) by done. simpl. rewrite Hrec. split; [done|].
    destruct Hrow as (_ & Hsk & _). rewrite <-Hck in Hsk. by rewrite (scope_key_inj _ _ _ Hsk Hkey).
  - assert (0 ≤ match prev with Some r => s_generation r | None => 0 end) as Hgen.
    { destruct prev as [row|]; [|done]. unfold by_scope in Hprev. destruct (counters db !! _); [|done].
      apply result_bind_Ok in Hprev as (row' & Hch & Heq). injection Heq as ->.
      pose proof (checked_facts _ _ Hch) as [Hg _]. by apply checked_Ok in Hch as ->. }
    apply grant_claim_Ok in Hgrant as (_ & w & db2 & ev & Hg). cbv zeta in Hg. destruct Hg as (Hw & -> & Hsave & ->).
    split; [done|]. exists w. split; [|by rewrite Hw].
    destruct (prune_released_inv _ _ (cr_project claim) (inv_later _ _ _ Ht H)) as (H1 & Hn & _).
    apply by_scope_previous in Hprev. unfold previous_of in Hprev. rewrite <-Hn in Hprev.
    apply save_put in Hsave as [-> _]; [|apply H1|].
    + unfold verify_claim. rewrite Hat. simpl mbind. erewrite by_fence_intro;
        [|simpl; apply lookup_insert_eq|done..|simpl; lia|done|done|done]. done.
    + simpl. rewrite Hprev. intros n Heq. destruct prev; [by injection Heq as <-|done].
Qed.

End History.

(** ** Replaying a history *)

Section Replay.
  Context {E : FabricEnv}.

Definition at_time (t : Z) : Request := mkRequest false (Ok t).
Fixpoint replay (locks : option (Z * Z)) (t : Z) (db : DB) (ops : list (Z * FabricOp)) : option (Z * DB) :=
  match ops with
  | [] => Some (t, db)
  | (at_, op) :: ops' =>
      if t <=? at_ then
        match exec locks (at_time at_) op db with
        | Ok db' => replay locks at_ db' ops'
        | Err _ => None
        end
      else None
  end.

Lemma replay_steps locks t db t' db' t'' db'' ops :
  steps t db t' db' → replay locks t' db' ops = Some (t'', db'') → steps t db t'' db''.
Proof.
  revert t' db'. induction ops as [|[at_ op] ops IH]; intros t' db' Hs; simpl; [by intros [= <- <-]|].
  destruct (Z.leb_spec t' at_); [|done]. destruct (exec _ _ _ _) as [db1|] eqn:Hx; [|done].
  apply IH. eapply (steps_exec _ _ _ _ _ _ _ (at_time at_)); [exact Hs|reflexivity|lia|exact Hx].
Qed.

End Replay.

(** A file system with two directories, and digests that cannot collide. *)
#[export] Instance WorkScope_countable : Countable WorkScope.
Proof.
  refine (inj_countable'
    (λ s, match s with Issue e k => (e, inl k) | Paths e ps => (e, inr (inl ps)) | Worktree e p => (e, inr (inr p)) end)
    (λ '(e, x), match x with inl k => Issue e k | inr (inl ps) => Paths e ps | inr (inr p) => Worktree e p end) _).
  by intros [].
Defined.

Definition example_dirs : list (list string) := [["repo"; "src"]; ["repo"; "docs"]].
#[local] Instance example_env : FabricEnv := {|
  scope_key s := Some (pretty (N.pos (countable.encode s)));
  push_digest _ := Some "sha256:0";
  canonicalize p := if decide (p ∈ render <$> example_dirs) then Some p else None;
  canonical_len _ := Some 100;
  timestamp _ := true;
|}.
#[local] Instance example_laws : FabricLaws example_env.
Proof.
  split.
  - simpl. intros a b k [= <-] [= Heq%(inj pretty)]. injection Heq as Heq. by apply (inj countable.encode).
  - intros p q. unfold canonicalize, example_env. destruct (decide _) as [Hin|]; [|done]. intros [= <-].
    apply list_elem_of_fmap in Hin as (cs & -> & Hin). exists cs. split; [|done].
    unfold example_dirs in Hin. rewrite !elem_of_cons, elem_of_nil in Hin.
    destruct Hin as [->|[->|[]]]; repeat constructor; discriminate.
Qed.

Definition second : Z := 1000000.
Definition worktree_request (id actor path : string) : ClaimRequest :=
  mkClaimRequest id "p" actor "0123456789abcdef" (60 * second) (Worktree [] path).

(** Where a replay ends. *)
Definition db_of (x : option (Z * DB)) : DB := match x with Some (_, db) => db | None => empty_db end.
Lemma replayed locks ops t : fst <$> replay locks 0 empty_db ops = Some t →
  steps 0 empty_db t (db_of (replay locks 0 empty_db ops)).
Proof.
  destruct (replay locks 0 empty_db ops) as [[t' db]|] eqn:Hr; [|done]. intros [= <-].
  eapply replay_steps; [apply steps_refl|exact Hr].
Qed.

(** Two actors claim two directories. *)
Definition two_claims : list (Z * FabricOp) :=
  [(0, AcquireClaim (worktree_request "w1" "alice" "/repo/src"));
   (second, AcquireClaim (worktree_request "w2" "bob" "/repo/docs"))].
Definition two_claims_db : DB := db_of (replay None 0 empty_db two_claims).
Lemma two_claims_steps : steps 0 empty_db second two_claims_db.
Proof. apply replayed. vm_compute. reflexivity. Qed.

Definition work_row (id path : string) (actor : ActorId) (at_ : Z) : ClaimRow :=
  mkClaimRow "work" (pretty (N.pos (countable.encode (Worktree [] path)))) 1 (Some actor) (Some "0123456789abcdef")
    (Some (at_ + 60 * second))
    (WorkRecord (mkWorkClaim [] "p" id (Worktree [] path) (Some actor) 1 (Some (at_ + 60 * second)) at_)).

Lemma live_claims_disjoint_witness :
  (¬ ["repo"; "src"] `prefix_of` ["repo"; "docs"]) ∧ (¬ ["repo"; "docs"] `prefix_of` ["repo"; "src"]).
Proof.
  apply (live_claims_disjoint 0 second two_claims_db "p" "w1" "w2"
    (work_row "w1" "/repo/src" "alice" 0) (work_row "w2" "/repo/docs" "bob" second)
    (mkWorkClaim [] "p" "w1" (Worktree [] "/repo/src") (Some "alice") 1 (Some (60 * second)) 0)
    (mkWorkClaim [] "p" "w2" (Worktree [] "/repo/docs") (Some "bob") 1 (Some (second + 60 * second)) second));
    [exact two_claims_steps|discriminate|vm_compute; reflexivity|reflexivity|reflexivity
    |vm_compute; reflexivity|reflexivity|reflexivity|repeat constructor; discriminate
    |repeat constructor; discriminate|left|left].
Defined.

Lemma acquired_claim_verifies_witness :
  ∃ f db', acquire_claim (worktree_request "w1" "alice" "/repo/src") (at_time 0) empty_db = Ok (f, db') ∧
    f_actor f = "alice" ∧
    ∃ w, verify_claim "p" f (at_time 0) db' = Ok w ∧ canonical (Worktree [] "/repo/src") = Ok (w_scope w).
Proof.
  destruct (acquire_claim (worktree_request "w1" "alice" "/repo/src") (at_time 0) empty_db) as [[f db']|] eqn:Ha.
  - exists f, db'. split; [done|].
    apply (acquired_claim_verifies 0 0 empty_db 0 (worktree_request "w1" "alice" "/repo/src") (at_time 0) f db');
      [apply steps_refl|reflexivity|lia|exact Ha].
  - exfalso. assert (is_ok (acquire_claim (worktree_request "w1" "alice" "/repo/src") (at_time 0) empty_db) = true) as Hok
      by (vm_compute; reflexivity). by rewrite Ha in Hok.
Defined.

(** One claim expires and is taken over. *)
Definition taken_over : list (Z * FabricOp) :=
  [(0, AcquireClaim (worktree_request "w1" "alice" "/repo/src"));
   (61 * second, AcquireClaim (worktree_request "w2" "bob" "/repo/src"))].
Definition fence (actor : ActorId) (generation : Z) : ClaimFence := mkFence "w1" actor generation "0123456789abcdef".

Lemma superseded_fence_refused_witness :
  is_ok (by_fence (db_of (replay None 0 empty_db taken_over)) "p" (fence "alice" 1) "work" None) = false.
Proof.
  apply (superseded_fence_refused 0 (61 * second) (db_of (replay None 0 empty_db taken_over)) (61 * second)
    (db_of (replay None 0 empty_db taken_over)) "p" "work" "work" (fence "bob" 2) (fence "alice" 1) None None);
    [apply replayed; vm_compute; reflexivity|vm_compute; reflexivity|apply steps_refl|reflexivity|simpl; lia].
Defined.

(** A landing whose push is in flight. *)
Definition example_guard : LandingGuard := mkGuard "p" "refs/heads/main" (1, 2).
Definition oid (c : ascii) : GitOid := Sha1 (replicate 20 c).
Definition landing_request (actor : ActorId) : LandingRequest :=
  mkLandingRequest "l1" "p" actor "0123456789abcdef" "refs/heads/main" (oid "a") (oid "b") (60 * second).
Definition landing_fence1 : ClaimFence := mkFence "l1" "alice" 1 "0123456789abcdef".
Definition pushing : list (Z * FabricOp) :=
  [(0, AcquireLanding example_guard (landing_request "alice"));
   (1, PreparePush example_guard landing_fence1 "op-1" "origin");
   (2, ChangePush example_guard landing_fence1 "op-1" Begin)].
Definition pushing_db : DB := db_of (replay (Some (1, 2)) 0 empty_db pushing).
Definition example_push (phase : PushPhase) (seen : option GitOid) (at_ : Z) : PushOperation :=
  mkPushOperation "op-1" "sha256:0" (mkPushRequest "p" "l1" "alice" 1 "refs/heads/main" (oid "a") (oid "b") "origin")
    phase seen at_.
Definition push_row (phase : PushPhase) (seen : option GitOid) (at_ : Z) : OperationRow :=
  mkOperationRow "l1" "sha256:0" phase (PushRecord (example_push phase seen at_)).

Lemma one_push_in_flight_witness :
  "op-1" = "op-1" ∧ ∃ c, claims pushing_db !! ("p", "l1") = Some c ∧ c_holder c = Some "alice" ∧ c_generation c = 1.
Proof.
  apply (one_push_in_flight 0 2 pushing_db "p" "op-1" "op-1" (push_row Pushing None 2) (push_row Pushing None 2)
    (example_push Pushing None 2) (example_push Pushing None 2));
    [apply replayed; vm_compute; reflexivity|vm_compute; reflexivity|reflexivity|reflexivity
    |vm_compute; reflexivity|reflexivity|reflexivity|reflexivity].
Defined.

(** Another actor is refused while the push is unresolved, also after the lease. *)
Example push_pins_landing :
  (∀ x, acquire_landing (Some (1, 2)) example_guard (landing_request "bob") (at_time (120 * second)) pushing_db ≠ Ok x) ∧
  release_landing (Some (1, 2)) example_guard landing_fence1 (at_time 3) pushing_db = Err (PushUnresolved "op-1").
Proof. split; [intros x; vm_compute; discriminate|vm_compute; reflexivity]. Qed.

Definition committed_ops : list (Z * FabricOp) :=
  pushing ++ [(3, ChangePush example_guard landing_fence1 "op-1" Uncertain);
              (4, ChangePush example_guard landing_fence1 "op-1" (Reconcile (Some (oid "b"))))].
Definition committed_db : DB := db_of (replay (Some (1, 2)) 0 empty_db committed_ops).

Lemma push_outcome_observed_witness :
  Some (oid "b") = Some (oid "b") ∧
  is_ok (change_push (Some (1, 2)) example_guard landing_fence1 "op-1" Begin (at_time 5) committed_db) = false.
Proof.
  destruct (push_outcome_observed 0 4 committed_db "p" "op-1" (push_row Committed (Some (oid "b")) 4)
    (example_push Committed (Some (oid "b")) 4)) as [Hseen Hfinal];
    [apply replayed; vm_compute; reflexivity|vm_compute; reflexivity|reflexivity|].
  split; [exact Hseen|]. apply Hfinal; [by left|reflexivity].
Defined.
