(* ===== verification/TelemetryRecords.v ===== *)
(** * TelemetryRecords: usage, prices and running totals

    Models the data of [crates/telemetry/src/reducer.rs] and [prices.rs] and
    the usage part of [records/src/attempt_fact.rs]: ordered maps, the running
    totals of a group, the cache summary, the price table and what a usage
    record costs, and rounded money. *)

From Stdlib Require Import Ascii.
From stdpp Require Import base option list strings sets numbers pretty.
From S2P Require Import Prelude CoreIds.

Local Open Scope string_scope.
Local Open Scope list_scope.
Local Open Scope Z_scope.
Local Open Scope rust_scope.

(** ** Ordered maps

    The standard library's ordered map is an association list in key order,
    with the derived comparison of its key type. *)

Class Ord (A : Type) := { cmp : A → A → comparison; cmp_eq x y : cmp x y = Eq ↔ x = y }.

Lemma string_compare_eq x y : String.compare x y = Eq ↔ x = y.
Proof.
  split; [apply String.compare_eq_iff|]. intros <-. induction x as [|c x IH]; [done|]. simpl.
  unfold Ascii.compare. by rewrite N.compare_refl.
Qed.
#[export] Instance Ord_string : Ord string := {| cmp := String.compare; cmp_eq := string_compare_eq |}.
#[export] Instance Ord_Z : Ord Z := {| cmp := Z.compare; cmp_eq := Z.compare_eq_iff |}.

Definition cmp_option {A} `{Ord A} (x y : option A) : comparison :=
  match x, y with
  | None, None => Eq
  | None, Some _ => Lt
  | Some _, None => Gt
  | Some a, Some b => cmp a b
  end.
Lemma cmp_option_eq {A} `{Ord A} (x y : option A) : cmp_option x y = Eq ↔ x = y.
Proof. destruct x, y; simpl; rewrite ?cmp_eq; naive_solver. Qed.
#[export] Instance Ord_option {A} `{Ord A} : Ord (option A) := {| cmp := cmp_option; cmp_eq := cmp_option_eq |}.

Definition cmp_pair {A B} `{Ord A} `{Ord B} (x y : A * B) : comparison :=
  match cmp x.1 y.1 with Eq => cmp x.2 y.2 | c => c end.
Lemma cmp_pair_eq {A B} `{Ord A} `{Ord B} (x y : A * B) : cmp_pair x y = Eq ↔ x = y.
Proof.
  destruct x as [a b], y as [a' b']. unfold cmp_pair. simpl.
  destruct (cmp a a') eqn:Ha; [apply cmp_eq in Ha as ->; rewrite cmp_eq; naive_solver|split; [done|]..];
    intros [= -> _]; assert (cmp a' a' = Eq) by (by apply cmp_eq); congruence.
Qed.
#[export] Instance Ord_pair {A B} `{Ord A} `{Ord B} : Ord (A * B) := {| cmp := cmp_pair; cmp_eq := cmp_pair_eq |}.

(** A derived comparison through an injective encoding. *)
Lemma cmp_via_eq {A B} `{Ord B} (f : A → B) (Hf : ∀ x y, f x = f y → x = y) x y : cmp (f x) (f y) = Eq ↔ x = y.
Proof. rewrite cmp_eq. split; [apply Hf|by intros ->]. Qed.
Definition ord_via {A B} `{Ord B} (f : A → B) (Hf : ∀ x y, f x = f y → x = y) : Ord A :=
  {| cmp x y := cmp (f x) (f y); cmp_eq := cmp_via_eq f Hf |}.

Section Maps.
  Context {K V : Type} `{Ord K}.

Fixpoint get (k : K) (m : list (K * V)) : option V :=
  match m with
  | [] => None
  | (k', v) :: m' => match cmp k k' with Lt => None | Eq => Some v | Gt => get k m' end
  end.
Fixpoint put (k : K) (v : V) (m : list (K * V)) : list (K * V) :=
  match m with
  | [] => [(k, v)]
  | (k', v') :: m' =>
      match cmp k k' with Lt => (k, v) :: m | Eq => (k, v) :: m' | Gt => (k', v') :: put k v m' end
  end.
(** [map.entry(k).or_default()], then a fallible change of the value. *)
Definition update {E} (k : K) (d : V) (f : V → result E V) (m : list (K * V)) : result E (list (K * V)) :=
  v ← f (unwrap_or (get k m) d);
  Ok (put k v m).

End Maps.

(** [BTreeSet::insert]: false when the value was present.  The order of a set
    is never observed. *)
Definition set_insert {A} `{EqDecision A} (x : A) (s : list A) : bool * list A :=
  if bool_decide (x ∈ s) then (false, s) else (true, x :: s).

(** [s.trim().is_empty()]: every character is white space.  On UTF-8 bytes
    these are U+0009 to U+000D, U+0020, U+0085, U+00A0, U+1680, U+2000 to
    U+200A, U+2028, U+2029, U+202F, U+205F and U+3000. *)
Fixpoint is_blank (s : string) : bool :=
  match s with
  | EmptyString => true
  | String c s1 =>
      let b := byte_of c in
      if ((9 <=? b) && (b <=? 13)) || (b =? 32) then is_blank s1
      else match s1 with
           | EmptyString => false
           | String d s2 =>
               let b1 := byte_of d in
               if (b =? 194) && ((b1 =? 133) || (b1 =? 160)) then is_blank s2
               else match s2 with
                    | EmptyString => false
                    | String e s3 =>
                        let b2 := byte_of e in
                        if ((b =? 225) && (b1 =? 154) && (b2 =? 128))
                           || ((b =? 226) && (b1 =? 128)
                               && (((128 <=? b2) && (b2 <=? 138)) || (b2 =? 168) || (b2 =? 169) || (b2 =? 175)))
                           || ((b =? 226) && (b1 =? 129) && (b2 =? 159))
                           || ((b =? 227) && (b1 =? 128) && (b2 =? 128))
                        then is_blank s3
                        else false
                    end
           end
  end.

(** ** Errors and machine integers *)

Inductive PriceError := UnsupportedVersion (version : Z) | InvalidTable (code message : string).
Inductive TelemetryError :=
| TooLarge (what : string)
| InvalidFact (what : string)
| InvalidWindow
| InvalidPrice (error : PriceError)
| Overflow.

Definition PriceError_code (e : PriceError) : string :=
  match e with UnsupportedVersion _ => "unsupported_version" | InvalidTable code _ => code end.
Definition TelemetryError_code (e : TelemetryError) : string :=
  match e with
  | TooLarge _ => "too_large"
  | InvalidFact _ => "invalid_fact"
  | InvalidWindow => "invalid_window"
  | InvalidPrice error => PriceError_code error
  | Overflow => "overflow"
  end.

Definition u128_max : Z := 340282366920938463463374607431768211455.
Definition i128_max : Z := 170141183460469231731687303715884105727.
Definition MILLION : Z := 1000000.

Definition checked_mul_u128 (a b : Z) : result TelemetryError Z :=
  if a * b <=? u128_max then Ok (a * b) else Err Overflow.
Definition checked_add_u128 (a b : Z) : result TelemetryError Z :=
  if a + b <=? u128_max then Ok (a + b) else Err Overflow.
Definition checked_sub_u128 (a b : Z) : result TelemetryError Z :=
  if b <=? a then Ok (a - b) else Err Overflow.
Definition try_u64 (z : Z) : result TelemetryError Z :=
  if in_u64 z then Ok z else Err Overflow.

(** [add]: the new value. *)
Definition add (value increment : Z) : result TelemetryError Z :=
  ok_or (checked_add_u64 value increment) Overflow.
Definition count_of (b : bool) : Z := if b then 1 else 0.

(** ** Usage *)

Record Usage := mkUsage {
  u_uncached_input : option Z;
  u_cache_read : option Z;
  u_cache_write : option Z;
  u_cache_write_1h : option Z;
  u_output_excluding_reasoning : option Z;
  u_reasoning : option Z;
}.

(** [counts]: in the order of [Categories]. *)
Definition counts (usage : Usage) : list (option Z) :=
  [u_uncached_input usage; u_cache_read usage; u_cache_write usage; u_output_excluding_reasoning usage;
   u_reasoning usage].

Inductive AttemptOutcome :=
| Succeeded | ReviewRequired | Failed | Rejected | Cancelled | TimedOut | RateLimited | QuotaLimited
| AuthRequired | ModelUnavailable | PermissionDenied | Quarantined | Lost | Unsettled | Uncommitted
| InputRequired.
#[export] Instance AttemptOutcome_eq : EqDecision AttemptOutcome.
Proof. solve_decision. Defined.
Definition outcome_index (o : AttemptOutcome) : Z :=
  match o with
  | Succeeded => 0 | ReviewRequired => 1 | Failed => 2 | Rejected => 3 | Cancelled => 4 | TimedOut => 5
  | RateLimited => 6 | QuotaLimited => 7 | AuthRequired => 8 | ModelUnavailable => 9 | PermissionDenied => 10
  | Quarantined => 11 | Lost => 12 | Unsettled => 13 | Uncommitted => 14 | InputRequired => 15
  end.
#[export] Instance Ord_AttemptOutcome : Ord AttemptOutcome.
Proof. apply (ord_via outcome_index). by intros [] []. Defined.

Record TokenTotal := mkTokens { known : Z; missing : Z }.
Definition no_tokens : TokenTotal := mkTokens 0 0.

Record Categories (T : Type) := mkCategories {
  uncached_input : T;
  cache_read : T;
  cache_write : T;
  output_excluding_reasoning : T;
  reasoning : T;
}.
Arguments mkCategories {T}.
Arguments uncached_input {T}.
Arguments cache_read {T}.
Arguments cache_write {T}.
Arguments output_excluding_reasoning {T}.
Arguments reasoning {T}.
Definition all_categories {T} (t : T) : Categories T := mkCategories t t t t t.

Record CacheSummary := mkCache {
  reporting : Z;
  cache_missing : Z;
  input_tokens : Z;
  read_tokens : Z;
  write_tokens : Z;
  write_1h_tokens : Z;
  read_share_basis_points : option Z;
}.
Definition no_cache : CacheSummary := mkCache 0 0 0 0 0 0 None.

Definition cache_record (c : CacheSummary) (usage : Usage) : result TelemetryError CacheSummary :=
  match u_cache_read usage with
  | None =>
      m ← add (cache_missing c) 1;
      Ok (mkCache (reporting c) m (input_tokens c) (read_tokens c) (write_tokens c) (write_1h_tokens c)
            (read_share_basis_points c))
  | Some read =>
      reporting ← add (reporting c) 1;
      read_tokens ← add (read_tokens c) read;
      let write := unwrap_or (u_cache_write usage) 0 in
      write_tokens ← add (write_tokens c) write;
      write_1h_tokens ← add (write_1h_tokens c) (unwrap_or (u_cache_write_1h usage) 0);
      n ← add (unwrap_or (u_uncached_input usage) 0) read;
      input ← add n write;
      input_tokens ← add (input_tokens c) input;
      Ok (mkCache reporting (cache_missing c) input_tokens read_tokens write_tokens write_1h_tokens
            (read_share_basis_points c))
  end.

Definition cache_merge (c other : CacheSummary) : result TelemetryError CacheSummary :=
  reporting ← add (reporting c) (reporting other);
  missing ← add (cache_missing c) (cache_missing other);
  input_tokens ← add (input_tokens c) (input_tokens other);
  read_tokens ← add (read_tokens c) (read_tokens other);
  write_tokens ← add (write_tokens c) (write_tokens other);
  write_1h_tokens ← add (write_1h_tokens c) (write_1h_tokens other);
  Ok (mkCache reporting missing input_tokens read_tokens write_tokens write_1h_tokens (read_share_basis_points c)).

(** The product of two 64-bit numbers and ten thousand fits 128 bits. *)
Definition cache_finish (c : CacheSummary) : CacheSummary :=
  mkCache (reporting c) (cache_missing c) (input_tokens c) (read_tokens c) (write_tokens c) (write_1h_tokens c)
    (if 0 <? input_tokens c
     then let share := read_tokens c * 10000 / input_tokens c in
          Some (Z.min (if in_u64 share then share else 10000) 10000)
     else None).

(** ** Money *)

Record Money := mkMoney { microdollars : Z; usd : string }.

(** ["{:06}"]. *)
Definition pad6 (n : Z) : string :=
  let s := pretty n in
  String.string_of_list_ascii (replicate (6 - String.length s) "0"%char) +:+ s.
Definition usd_text (microdollars : Z) : string :=
  pretty (microdollars / MILLION) +:+ "." +:+ pad6 (microdollars mod MILLION).
Definition money (microdollars : Z) : Money := mkMoney microdollars (usd_text microdollars).

Definition from_numerator (numerator : Z) : result TelemetryError Money :=
  rounded ← checked_add_u128 (numerator / MILLION) (if 500000 <=? numerator mod MILLION then 1 else 0);
  m ← try_u64 rounded;
  Ok (money m).

(** ** Running totals *)

Record Accumulator := mkAccumulator {
  attempts : Z;
  usage : Categories TokenTotal;
  cache : CacheSummary;
  numerator : Z;
  missing_cost : Z;
  subscription_attempts : Z;
  outcomes : list (AttemptOutcome * Z);
}.
Definition empty_accumulator : Accumulator := mkAccumulator 0 (all_categories no_tokens) no_cache 0 0 0 [].

Definition record_count (total : TokenTotal) (count : option Z) : result TelemetryError TokenTotal :=
  match count with
  | Some n => k ← add (known total) n; Ok (mkTokens k (missing total))
  | None => m ← add (missing total) 1; Ok (mkTokens (known total) m)
  end.
(** The loop over the five categories zipped with [counts]. *)
Definition record_counts (c : Categories TokenTotal) (usage : Usage) : result TelemetryError (Categories TokenTotal) :=
  a ← record_count (uncached_input c) (u_uncached_input usage);
  b ← record_count (cache_read c) (u_cache_read usage);
  w ← record_count (cache_write c) (u_cache_write usage);
  o ← record_count (output_excluding_reasoning c) (u_output_excluding_reasoning usage);
  r ← record_count (reasoning c) (u_reasoning usage);
  Ok (mkCategories a b w o r).

Definition record_usage (a : Accumulator) (u : Usage) (outcome : option AttemptOutcome) (num : Z)
    (missing subscription : bool) : result TelemetryError Accumulator :=
  attempts' ← add (attempts a) 1;
  usage' ← record_counts (usage a) u;
  cache' ← cache_record (cache a) u;
  numerator' ← checked_add_u128 (numerator a) num;
  missing' ← add (missing_cost a) (count_of missing);
  subscription' ← add (subscription_attempts a) (count_of subscription);
  outcomes' ← match outcome with
              | Some o => update o 0 (λ n, add n 1) (outcomes a)
              | None => Ok (outcomes a)
              end;
  Ok (mkAccumulator attempts' usage' cache' numerator' missing' subscription' outcomes').

Record CostTotal := mkCost {
  cost_basis : string;
  complete : option Money;
  known_lower_bound : option Money;
  priced_attempts : Z;
  missing_attempts : Z;
  cost_subscription_attempts : Z;
}.
Record Totals := mkTotals {
  total_attempts : Z;
  total_usage : Categories TokenTotal;
  total_cache : CacheSummary;
  cost : CostTotal;
  total_outcomes : list (AttemptOutcome * Z);
}.

(** The subtraction wraps in release builds; the counts keep it in range. *)
Definition finish (a : Accumulator) : result TelemetryError Totals :=
  known ← from_numerator (numerator a);
  Ok (mkTotals (attempts a) (usage a) (cache_finish (cache a))
        (mkCost "api_equivalent_estimate" (if missing_cost a =? 0 then Some known else None)
           (if (attempts a =? 0) || (missing_cost a <? attempts a) || (0 <? numerator a) then Some known else None)
           ((attempts a - missing_cost a) mod 2 ^ 64) (missing_cost a) (subscription_attempts a))
        (outcomes a)).

(** ** Prices *)

Inductive BillingKind := Api | Subscription | Free.
#[export] Instance BillingKind_eq : EqDecision BillingKind.
Proof. solve_decision. Defined.

Record Rates := mkRates {
  r_uncached_input : option Z;
  r_cache_read : option Z;
  r_cache_write : option Z;
  r_output_excluding_reasoning : option Z;
}.
Definition no_rates : Rates := mkRates None None None None.
Definition rate_values (r : Rates) : list (option Z) :=
  [r_uncached_input r; r_cache_read r; r_cache_write r; r_output_excluding_reasoning r].
(** Reasoning reuses the output rate. *)
Definition usage_rates (r : Rates) : list (option Z) := rate_values r ++ [r_output_excluding_reasoning r].

Record PriceIdentity := mkIdentity { price_id : string; identity_reviewed_at : string }.
Record PriceTable := mkPriceTable {
  identity : PriceIdentity;
  table_max_review_age_days : option Z;
  models : list ((string * string) * (Rates * BillingKind));
}.
Definition price (t : PriceTable) (provider model : string) : option (Rates * BillingKind) :=
  get (provider, model) (models t).

Record Priced := mkPriced {
  p_numerator : Z;
  p_missing_price : bool;
  p_missing_cost : bool;
  p_subscription : bool;
  absent : list bool;
}.
Definition REASONING : nat := 4.

(** The loop over the categories, from [index] on. *)
Fixpoint price_counts (verified_free : bool) (index : nat) (pairs : list (option Z * option Z)) (out : Priced) :
    result TelemetryError Priced :=
  match pairs with
  | [] => Ok out
  | (count, rate) :: pairs' =>
      out ← match count, rate with
            | None, _ =>
                Ok (mkPriced (p_numerator out) (p_missing_price out)
                      (p_missing_cost out || (negb verified_free && negb (Nat.eqb index REASONING)))
                      (p_subscription out) (<[index := true]> (absent out)))
            | Some n, Some r =>
                if n =? 0 then Ok out
                else
                  num ← checked_add_u128 (p_numerator out) (n * r);
                  Ok (mkPriced num (p_missing_price out) (p_missing_cost out) (p_subscription out) (absent out))
            | Some n, None =>
                if n =? 0 then Ok out
                else Ok (mkPriced (p_numerator out) true true (p_subscription out) (absent out))
            end;
      price_counts verified_free (S index) pairs' out
  end.

Definition priced (u : Usage) (provider model : option string) (prices : PriceTable) :
    result TelemetryError Priced :=
  let found := p ← provider; m ← model; price prices p m in
  let subscription := is_some_and found (λ '(_, billing), billing == Subscription) in
  let rates := match found with Some (rates, _) => rates | None => no_rates end in
  let verified_free := bool_decide (rate_values rates = replicate 4 (Some 0)) in
  price_counts verified_free 0 (zip (counts u) (usage_rates rates))
    (mkPriced 0 false false subscription (replicate 5 false)).

(** ** Sums over maps *)

Section MapSums.
  Context {K V : Type} `{Ord K}.

Fixpoint msum (f : K → V → Z) (m : list (K * V)) : Z :=
  match m with [] => 0 | (k, v) :: m' => f k v + msum f m' end.
Definition value_or (f : V → Z) (o : option V) : Z := match o with Some v => f v | None => 0 end.

Lemma put_sum f k v m : msum f (put k v m) = msum f m - value_or (f k) (get k m) + f k v.
Proof.
  induction m as [|[k' v'] m IH]; simpl; [lia|]. destruct (cmp k k') eqn:Hk; simpl; [|lia|rewrite IH; lia].
  apply cmp_eq in Hk as ->. lia.
Qed.
(** An update that adds [x] to [f] of a value adds [x] to the sum. *)
Lemma update_sum {E} f x k d (g : V → result E V) m m' :
  f k d = 0 → (∀ v v', g v = Ok v' → f k v' = f k v + x) → update k d g m = Ok m' → msum f m' = msum f m + x.
Proof.
  intros Hd Hg Hu. unfold update in Hu. apply result_bind_Ok in Hu as (v & Hv & Hu). injection Hu as <-.
  rewrite put_sum, (Hg _ _ Hv). destruct (get k m); simpl; lia.
Qed.
Lemma put_all (P : V → Prop) k v m : Forall (λ e, P e.2) m → P v → Forall (λ e, P e.2) (put k v m).
Proof. intros Hm Hv. induction Hm as [|[k' v'] m Hv' Hm IH]; simpl; [auto|]. destruct (cmp k k'); auto. Qed.
Lemma get_all (P : V → Prop) k v m : Forall (λ e, P e.2) m → get k m = Some v → P v.
Proof.
  induction 1 as [|[k' v'] m Hv' Hm IH]; simpl; [done|]. destruct (cmp k k'); [by intros [= <-]|done|done].
Qed.
Lemma update_all {E} (P : V → Prop) k d (g : V → result E V) m m' :
  P d → (∀ v v', P v → g v = Ok v' → P v') → Forall (λ e, P e.2) m → update k d g m = Ok m' →
  Forall (λ e, P e.2) m'.
Proof.
  intros Hd Hg Hm Hu. unfold update in Hu. apply result_bind_Ok in Hu as (v & Hv & Hu). injection Hu as <-.
  apply put_all; [done|]. eapply Hg; [|exact Hv]. destruct (get k m) eqn:Hk; simpl; [by eapply get_all|done].
Qed.

End MapSums.

(** [map.get] after [map.insert]. *)
Lemma get_put_same {K V} `{Ord K} (k : K) (v : V) m : get k (put k v m) = Some v.
Proof.
  assert (∀ x : K, cmp x x = Eq) as Hr by (intros x; by apply cmp_eq).
  induction m as [|[k' v'] m IH]; simpl; [by rewrite Hr|].
  destruct (cmp k k') eqn:Hk; simpl; rewrite ?Hr, ?Hk; done.
Qed.
