(* ===== verification/TelemetryCosts.v ===== *)
(** * TelemetryCosts: shares and rounded costs add up

    Models the arithmetic of [crates/telemetry/src/reducer.rs]: the shares of
    an attempt over its groups, the split of an integer metric by millionths,
    and the largest-remainder rounding that makes the rows of a report add up
    to its rounded total. *)

From Stdlib Require Import Ascii.
From stdpp Require Import base option list strings sets numbers pretty.
From S2P Require Import Prelude TelemetryRecords.

Local Open Scope string_scope.
Local Open Scope list_scope.
Local Open Scope Z_scope.
Local Open Scope rust_scope.

Fixpoint collect {A B} (f : A → result TelemetryError B) (l : list A) : result TelemetryError (list B) :=
  match l with
  | [] => Ok []
  | a :: l' => b ← f a; bs ← collect f l'; Ok (b :: bs)
  end.
Fixpoint try_sum (acc : Z) (l : list Z) : result TelemetryError Z :=
  match l with
  | [] => Ok acc
  | x :: l' => acc ← checked_add_u128 acc x; try_sum acc l'
  end.

(** ** The shares of an attempt *)

(** [a.0.cmp(&b.0)] on optional keys, in a stable sort. *)
Definition key_leb (a b : option string) : bool :=
  match a, b with
  | None, _ => true
  | Some _, None => false
  | Some x, Some y => String.leb x y
  end.
Fixpoint insert_share (x : option string * Z) (l : list (option string * Z)) : list (option string * Z) :=
  match l with
  | [] => [x]
  | y :: l' => if key_leb x.1 y.1 then x :: l else y :: insert_share x l'
  end.
Definition sort_shares (l : list (option string * Z)) : list (option string * Z) := foldr insert_share [] l.

(** [None] is the early return: the shares exceed the whole. *)
Fixpoint allocated (total : Z) (l : list (option string * Z)) : option Z :=
  match l with
  | [] => Some total
  | (_, weight) :: l' =>
      if (MILLION <? weight) || (MILLION - weight <? total) then None else allocated (total + weight) l'
  end.

Record ExternalGroup := mkExternal { external_value : string; weight_millionths : option Z }.
(** The labels of an attempt as group values with weights. *)
Definition group_values (values : list ExternalGroup) : list (option string * option Z) :=
  if existsb (λ value, is_none (weight_millionths value)) values then [(None, None)]
  else
    let values := sort_shares
      ((λ value, (Some (external_value value), unwrap_or (weight_millionths value) 0)) <$> values) in
    match allocated 0 values with
    | None => [(None, None)]
    | Some total =>
        let values := if total <? MILLION then values ++ [(None, MILLION - total)] else values in
        (λ '(value, weight), (value, Some weight)) <$> List.filter (λ '(_, weight), 0 <? weight) values
    end.

(** ** Splitting a metric *)

(** The first [n] parts get one more. *)
Fixpoint bump (n : Z) (parts : list Z) : list Z :=
  match parts with
  | [] => []
  | p :: ps => if 0 <? n then (p + 1) :: bump (n - 1) ps else p :: ps
  end.

(** [narrow] is the conversion back to the metric's type. *)
Definition weighted_parts (narrow : Z → result TelemetryError Z) (value : Z) (weights : list Z) :
    result TelemetryError (list Z) :=
  parts ← collect (λ weight, w ← checked_mul_u128 value weight; Ok (w / MILLION)) weights;
  assigned ← try_sum 0 parts;
  remainder ← checked_sub_u128 value assigned;
  collect narrow (bump (Z.min remainder u64_max) parts).

(** ** Rows of a report *)

Record ContextGroup := mkGroup { value : option string; totals : Totals }.

Definition set_cost (g : ContextGroup) (complete known : option Money) : ContextGroup :=
  let t := totals g in
  let c := cost t in
  mkGroup (value g)
    (mkTotals (total_attempts t) (total_usage t) (total_cache t)
       (mkCost (cost_basis c) complete known (priced_attempts c) (missing_attempts c) (cost_subscription_attempts c))
       (total_outcomes t)).

Definition adjust (m : Money) (delta : Z) : result TelemetryError Money :=
  let v := microdollars m + delta in
  if (v <? 0) || (i128_max <? v) then Err Overflow
  else
    v ← try_u64 v;
    Ok (money v).
Definition adjust_opt (m : option Money) (delta : Z) : result TelemetryError (option Money) :=
  match m with
  | Some m => m ← adjust m delta; Ok (Some m)
  | None => Ok None
  end.
Definition adjust_group_money (g : ContextGroup) (delta : Z) : result TelemetryError ContextGroup :=
  known ← adjust_opt (known_lower_bound (cost (totals g))) delta;
  complete ← adjust_opt (complete (cost (totals g))) delta;
  Ok (set_cost g complete known).

(** [groups]: the finished rows in key order. *)
Definition groups {K G} (group : K → Totals → G) (keyed : list (K * Accumulator)) : result TelemetryError (list G) :=
  collect (λ '(key, total), t ← finish total; Ok (group key t)) keyed.

(** The first loop: every known row at its floor, the floors assigned so far
    and the rows with a remainder. *)
Fixpoint floor_rows (index : nat) (groups : list ContextGroup) (numerators : list Z) (assigned : Z)
    (candidates : list (nat * Z)) : result TelemetryError (list ContextGroup * Z * list (nat * Z)) :=
  match groups, numerators with
  | g :: groups', n :: numerators' =>
      match known_lower_bound (cost (totals g)) with
      | None =>
          '(rest, assigned, candidates) ← floor_rows (S index) groups' numerators' assigned candidates;
          Ok (g :: rest, assigned, candidates)
      | Some m =>
          let floor := n / MILLION in
          if i128_max <? floor then Err Overflow
          else
            g ← adjust_group_money g (floor - microdollars m);
            assigned ← checked_add_u128 assigned floor;
            let remainder := n mod MILLION in
            let candidates := if 0 <? remainder then candidates ++ [(index, remainder)] else candidates in
            '(rest, assigned, candidates) ← floor_rows (S index) groups' numerators' assigned candidates;
            Ok (g :: rest, assigned, candidates)
      end
  | groups, _ => Ok (groups, assigned, candidates)
  end.

(** Larger remainders first, then smaller indices. *)
Definition before (a b : nat * Z) : bool := (b.2 <? a.2) || ((b.2 =? a.2) && Nat.leb a.1 b.1).
Fixpoint insert_candidate (x : nat * Z) (l : list (nat * Z)) : list (nat * Z) :=
  match l with
  | [] => [x]
  | y :: l' => if before x y then x :: l else y :: insert_candidate x l'
  end.
Definition sort_candidates (l : list (nat * Z)) : list (nat * Z) := foldr insert_candidate [] l.

(** [groups[index]] panics out of range; the candidates are rows. *)
Fixpoint raise_rows (groups : list ContextGroup) (indices : list nat) : result TelemetryError (list ContextGroup) :=
  match indices with
  | [] => Ok groups
  | i :: indices' =>
      match groups !! i with
      | None => Err (InvalidFact "index out of bounds")
      | Some g =>
          g ← adjust_group_money g 1;
          raise_rows (<[i := g]> groups) indices'
      end
  end.

Definition row_microdollars (g : ContextGroup) : Z :=
  match known_lower_bound (cost (totals g)) with Some m => microdollars m | None => 0 end.

Definition reconcile_group_costs (groups : list ContextGroup) (numerators : list Z) :
    result TelemetryError (list ContextGroup) :=
  numerator ← try_sum 0 numerators;
  target ← from_numerator numerator;
  '(groups, assigned, candidates) ← floor_rows 0 groups numerators 0 [];
  remainder ← checked_sub_u128 (microdollars target) assigned;
  if (u64_max <? remainder) || (Z.of_nat (length candidates) <? remainder) then Err Overflow
  else
    groups ← raise_rows groups (take (Z.to_nat remainder) (sort_candidates candidates).*1);
    reconciled ← try_sum 0 (row_microdollars <$> groups);
    if reconciled != microdollars target then Err Overflow else Ok groups.


(** ** Sums *)

Fixpoint zsum (l : list Z) : Z := match l with [] => 0 | x :: l' => x + zsum l' end.

Lemma zsum_app a b : zsum (a ++ b) = zsum a + zsum b.
Proof. induction a as [|x a IH]; simpl; lia. Qed.
Lemma zsum_nonneg l : Forall (λ x, 0 ≤ x) l → 0 ≤ zsum l.
Proof. induction 1; simpl; lia. Qed.
Lemma zsum_elem_le l x : Forall (λ x, 0 ≤ x) l → x ∈ l → x ≤ zsum l.
Proof.
  induction 1 as [|y l Hy Hl IH]; [by intros ?%elem_of_nil|]. simpl. pose proof (zsum_nonneg _ Hl).
  intros [->|?%IH]%elem_of_cons; lia.
Qed.

Lemma try_sum_Ok acc l : Forall (λ x, 0 ≤ x) l → acc + zsum l ≤ u128_max → try_sum acc l = Ok (acc + zsum l).
Proof.
  intros Hl. revert acc. induction Hl as [|x l Hx Hl IH]; intros acc; simpl; [by rewrite Z.add_0_r|].
  intros Hle. pose proof (zsum_nonneg _ Hl). unfold checked_add_u128.
  rewrite (proj2 (Z.leb_le _ _)) by lia. simpl. rewrite IH by lia. f_equal. lia.
Qed.
Lemma try_sum_inv acc l s : try_sum acc l = Ok s → s = acc + zsum l.
Proof.
  revert acc. induction l as [|x l IH]; intros acc; simpl; [intros [= <-]; lia|].
  unfold checked_add_u128. case_match; [|done]. simpl. intros ->%IH. lia.
Qed.

Lemma collect_Ok {A B} (f : A → result TelemetryError B) (g : A → B) l :
  (∀ x, x ∈ l → f x = Ok (g x)) → collect f l = Ok (g <$> l).
Proof.
  induction l as [|x l IH]; intros H; simpl; [done|]. rewrite H by set_solver. simpl. rewrite IH by set_solver. done.
Qed.

(** ** Splits add up *)

Definition share (v w : Z) : Z := v * w / MILLION.

Lemma shares_bound v ws :
  ws ≠ [] →
  0 ≤ v * zsum ws - MILLION * zsum (share v <$> ws) < MILLION * Z.of_nat (length ws).
Proof.
  induction ws as [|w ws IH]; [done|]. intros _. simpl.
  pose proof (Z.div_mod (v * w) MILLION ltac:(done)) as Hd. pose proof (Z.mod_pos_bound (v * w) MILLION ltac:(done)).
  unfold share at 1. fold (share v w). destruct ws as [|w' ws].
  - simpl. unfold share. lia.
  - specialize (IH ltac:(done)). unfold share in *. simpl in *. lia.
Qed.

Lemma bump_sum n parts : 0 ≤ n ≤ Z.of_nat (length parts) → zsum (bump n parts) = zsum parts + n.
Proof.
  revert n. induction parts as [|p ps IH]; intros n Hn; simpl in *; [lia|].
  destruct (Z.ltb_spec 0 n); simpl; [rewrite IH by lia|]; lia.
Qed.
Lemma bump_length n parts : length (bump n parts) = length parts.
Proof. revert n. induction parts as [|p ps IH]; intros n; simpl; [done|]. case_match; simpl; [by rewrite IH|done]. Qed.
Lemma bump_each n parts i p q : parts !! i = Some p → bump n parts !! i = Some q → p ≤ q ≤ p + 1.
Proof.
  revert n i. induction parts as [|x ps IH]; intros n [|i]; simpl; try done; case_match; simpl; intros Hp Hq; simplify_eq;
    try lia. by eapply IH.
Qed.
Lemma bump_nonneg n parts : Forall (λ x, 0 ≤ x) parts → Forall (λ x, 0 ≤ x) (bump n parts).
Proof.
  intros H. revert n. induction H as [|x l Hx Hl IH]; intros n; simpl; [done|]. case_match; constructor; auto. lia.
Qed.

(** Weights that make up the whole split a 64-bit metric into parts that add
    up to it, each at or just above its exact share. *)
Lemma weighted_parts_sum v ws :
  0 ≤ v ≤ u64_max → Forall (λ w, 0 ≤ w) ws → zsum ws = MILLION →
  ∃ parts, weighted_parts try_u64 v ws = Ok parts ∧ length parts = length ws ∧ zsum parts = v ∧
    ∀ i w p, ws !! i = Some w → parts !! i = Some p → share v w ≤ p ≤ share v w + 1.
Proof.
  intros Hv Hws Hsum. assert (ws ≠ []) as Hne by (intros ->; done).
  pose proof (shares_bound v ws Hne) as Hb. rewrite Hsum in Hb.
  assert (Forall (λ x, 0 ≤ x) (share v <$> ws)) as Hpos.
  { apply Forall_fmap. eapply Forall_impl; [exact Hws|]. intros w Hw. unfold share; simpl.
    apply Z.div_pos; [apply Z.mul_nonneg_nonneg; [lia|exact Hw]|done]. }
  pose proof (zsum_nonneg _ Hpos) as Hnn. unfold MILLION in Hb.
  assert (collect (λ weight, w ← checked_mul_u128 v weight; Ok (w / MILLION)) ws = Ok (share v <$> ws)) as Hc.
  { apply collect_Ok. intros w Hw. pose proof (zsum_elem_le _ _ Hws Hw). rewrite Forall_forall in Hws.
    unfold checked_mul_u128. rewrite (proj2 (Z.leb_le _ _)); [done|]. rewrite Hsum in *.
    unfold u64_max, u128_max, MILLION in *. nia. }
  unfold weighted_parts. rewrite Hc. simpl. rewrite try_sum_Ok by (unfold u64_max, u128_max in *; lia || done). simpl.
  unfold checked_sub_u128. rewrite (proj2 (Z.leb_le _ _)) by lia. simpl.
  rewrite Z.min_l by (unfold u64_max in *; lia).
  rewrite Z.add_0_l in *. remember (v - zsum (share v <$> ws)) as r eqn:Hr.
  assert (zsum (bump r (share v <$> ws)) = v) as Hs.
  { rewrite bump_sum; [lia|]. rewrite length_fmap. lia. }
  exists (bump r (share v <$> ws)). split_and!; [|by rewrite bump_length, length_fmap|done|].
  - assert (collect try_u64 (bump r (share v <$> ws)) = Ok (id <$> bump r (share v <$> ws))) as ->;
      [|by rewrite list_fmap_id].
    apply collect_Ok. intros x Hx.
    pose proof (bump_nonneg r _ Hpos) as Hbn. pose proof (zsum_elem_le _ _ Hbn Hx). rewrite Forall_forall in Hbn.
    specialize (Hbn _ Hx). unfold try_u64, in_u64. rewrite !(proj2 (Z.leb_le _ _)) by lia. done.
  - intros i w p Hw Hp. eapply (bump_each r _ i); [|exact Hp]. by rewrite list_lookup_fmap, Hw.
Qed.

Lemma collect_inv {A B} (f : A → result TelemetryError B) l l' :
  collect f l = Ok l' → Forall2 (λ x y, f x = Ok y) l l'.
Proof.
  revert l'. induction l as [|x l IH]; intros l'; simpl; [intros [= <-]; constructor|]. intros H.
  apply result_bind_Ok in H as (b & Hb & H). apply result_bind_Ok in H as (bs & Hbs & H). injection H as <-.
  constructor; auto.
Qed.
Lemma collect_inv_fmap {A B} (f : A → result TelemetryError B) (g : A → B) l l' :
  (∀ x y, f x = Ok y → y = g x) → collect f l = Ok l' → l' = g <$> l.
Proof. intros Hf H%collect_inv. induction H as [|x y l l' Hxy Hl IH]; simpl; [done|]. f_equal; [by apply Hf|done]. Qed.

Lemma positive_length ws : Forall (λ w, 0 < w) ws → Z.of_nat (length ws) ≤ zsum ws.
Proof. induction 1; simpl; lia. Qed.

(** A split that succeeds adds up, whatever the width of the metric. *)
Lemma weighted_parts_inv narrow v ws parts :
  (∀ a b, narrow a = Ok b → b = a) → Forall (λ w, 0 < w) ws → zsum ws = MILLION →
  weighted_parts narrow v ws = Ok parts → zsum parts = v ∧ length parts = length ws.
Proof.
  intros Hn Hws Hsum H. unfold weighted_parts in H.
  apply result_bind_Ok in H as (ps & Hps & H). apply result_bind_Ok in H as (assigned & Ha & H).
  apply result_bind_Ok in H as (rem & Hrem & H).
  apply (collect_inv_fmap _ (share v)) in Hps as ->.
  2: { intros x y Hxy. apply result_bind_Ok in Hxy as (m & Hm & Hxy). injection Hxy as <-.
       unfold checked_mul_u128 in Hm. case_match; [|done]. by injection Hm as <-. }
  apply try_sum_inv in Ha. unfold checked_sub_u128 in Hrem. case_match; [|done]. injection Hrem as <-.
  apply (collect_inv_fmap _ id) in H as ->; [|done]. rewrite list_fmap_id, bump_length, length_fmap. split; [|done].
  pose proof (positive_length _ Hws) as Hlen. rewrite Hsum in Hlen.
  assert (ws ≠ []) as Hne by (intros ->; done). pose proof (shares_bound v ws Hne) as Hb. rewrite Hsum in Hb.
  unfold MILLION in *. rewrite Z.min_l by (unfold u64_max; lia). rewrite bump_sum; [lia|]. rewrite length_fmap. lia.
Qed.

(** ** Shares make up the whole *)

Lemma insert_share_sum x l : zsum (insert_share x l).*2 = x.2 + zsum l.*2.
Proof.
  induction l as [|y l IH]; cbn [insert_share]; [done|]. case_match; [done|].
  rewrite !fmap_cons. cbn [zsum]. rewrite IH. lia.
Qed.
Lemma insert_share_Forall P x l : P x → Forall P l → Forall P (insert_share x l).
Proof. intros Hx. induction 1 as [|y l Hy Hl IH]; simpl; [by constructor|]. case_match; by repeat constructor. Qed.
Lemma sort_shares_sum l : zsum (sort_shares l).*2 = zsum l.*2.
Proof.
  unfold sort_shares. induction l as [|x l IH]; cbn [foldr]; [done|].
  rewrite insert_share_sum, IH, fmap_cons. done.
Qed.
Lemma sort_shares_Forall P l : Forall P l → Forall P (sort_shares l).
Proof. induction 1; simpl; [done|]. by apply insert_share_Forall. Qed.

Lemma allocated_Some total l t :
  Forall (λ e : option string * Z, 0 ≤ e.2) l → 0 ≤ total ≤ MILLION → allocated total l = Some t →
  t = total + zsum l.*2 ∧ t ≤ MILLION.
Proof.
  intros Hl. revert total. induction Hl as [|[k w] l Hw Hl IH]; intros total Ht; [intros [= <-]; simpl; lia|].
  rewrite fmap_cons. cbn [allocated zsum snd]. simpl in Hw. case_match eqn:Hg; [done|].
  rewrite orb_false_iff, !Z.ltb_ge in Hg. intros H%IH; lia.
Qed.

Lemma filter_positive_sum (l : list (option string * Z)) :
  Forall (λ e : option string * Z, 0 ≤ e.2) l →
  zsum (List.filter (λ '(_, weight), 0 <? weight) l).*2 = zsum l.*2 ∧
  Forall (λ e : option string * Z, 0 < e.2) (List.filter (λ '(_, weight), 0 <? weight) l).
Proof.
  induction 1 as [|[k w] l Hw Hl [IH1 IH2]]; [done|]. simpl in Hw. cbn [List.filter].
  destruct (Z.ltb_spec 0 w); rewrite !fmap_cons; cbn [zsum snd]; rewrite IH1.
  - split; [lia|by constructor].
  - split; [lia|done].
Qed.

Lemma group_values_sum values :
  (∀ v w, v ∈ values → weight_millionths v = Some w → 0 ≤ w) →
  group_values values = [(None, None)] ∨
  ∃ weights, (group_values values).*2 = Some <$> weights ∧ Forall (λ w, 0 < w) weights ∧ zsum weights = MILLION.
Proof.
  intros Hv. unfold group_values. destruct (existsb _ values) eqn:Hnone; [by left|]. cbv zeta.
  set (l := sort_shares _).
  assert (Forall (λ e : option string * Z, 0 ≤ e.2) l) as Hl.
  { apply sort_shares_Forall, Forall_fmap, list.Forall_forall. intros [key [w|]] Hin; simpl; [by apply (Hv _ w Hin)|lia]. }
  clearbody l. destruct (allocated 0 l) as [t|] eqn:Ha; [|by left]. right.
  apply allocated_Some in Ha as [-> Hle]; [|done|unfold MILLION; lia].
  set (l' := if _ <? MILLION then _ else _).
  assert (Forall (λ e : option string * Z, 0 ≤ e.2) l' ∧ zsum l'.*2 = MILLION) as [Hl' Hs].
  { subst l'. destruct (Z.ltb_spec (0 + zsum l.*2) MILLION).
    - split; [apply Forall_app; split; [done|constructor; simpl; [lia|done]]|]. rewrite fmap_app, zsum_app. simpl. lia.
    - split; [done|lia]. }
  destruct (filter_positive_sum _ Hl') as [Hf1 Hf2].
  exists (List.filter (λ '(_, weight), 0 <? weight) l').*2. split_and!.
  - rewrite <-!list_fmap_compose. apply list_fmap_ext. by intros i [k w].
  - by apply Forall_fmap.
  - by rewrite Hf1.
Qed.

(** An attempt split over groups adds up.  Either the shares of an attempt
    are not known to fit the whole, and the attempt is reported once under no
    group; or they are positive, make up exactly one million millionths, and
    every 64-bit token count splits without overflow into parts that add back
    to it, each its exact share rounded down or one more. *)
Theorem attempt_shares_add_up values count :
  (∀ v w, v ∈ values → weight_millionths v = Some w → 0 ≤ w) → 0 ≤ count ≤ u64_max →
  group_values values = [(None, None)] ∨
  ∃ weights parts, (group_values values).*2 = Some <$> weights ∧ zsum weights = MILLION ∧ Forall (λ w, 0 < w) weights ∧
    weighted_parts try_u64 count weights = Ok parts ∧ length parts = length weights ∧ zsum parts = count ∧
    ∀ i w p, weights !! i = Some w → parts !! i = Some p →
      count * w / MILLION ≤ p ≤ count * w / MILLION + 1.
Proof.
  intros Hv Hc. destruct (group_values_sum _ Hv) as [|(ws & Hws & Hpos & Hsum)]; [by left|]. right.
  destruct (weighted_parts_sum count ws Hc) as (parts & Hp & Hlen & Hs & He); [|done|].
  { eapply Forall_impl; [exact Hpos|]. simpl. lia. }
  exists ws, parts. by split_and!.
Qed.

Lemma attempt_shares_add_up_witness :
  group_values [mkExternal "b" (Some 333333); mkExternal "a" (Some 333333)] = [(None, None)] ∨
  ∃ weights parts, (group_values [mkExternal "b" (Some 333333); mkExternal "a" (Some 333333)]).*2 = Some <$> weights ∧
    zsum weights = MILLION ∧ Forall (λ w, 0 < w) weights ∧
    weighted_parts try_u64 10 weights = Ok parts ∧ length parts = length weights ∧ zsum parts = 10 ∧
    ∀ i w p, weights !! i = Some w → parts !! i = Some p → 10 * w / MILLION ≤ p ≤ 10 * w / MILLION + 1.
Proof.
  apply (attempt_shares_add_up [mkExternal "b" (Some 333333); mkExternal "a" (Some 333333)] 10); [|unfold u64_max; lia].
  intros v w Hin Hw. rewrite !elem_of_cons, elem_of_nil in Hin. destruct Hin as [-> |[-> |[]]]; injection Hw as <-; lia.
Defined.
Example ten_in_three :
  weighted_parts try_u64 10 [333333; 333333; 333334] = Ok [4; 3; 3].
Proof. reflexivity. Qed.

(** ** Rows add up to the rounded total *)

Section Reconcile.
  Implicit Types g : ContextGroup.

Abbreviation known_cost g := (known_lower_bound (cost (totals g))) (only parsing).
Abbreviation full g := (complete (cost (totals g))) (only parsing).

(** A finished row: its complete cost, if any, is its known cost, and a row
    without a known cost has none. *)
Definition finished (n : Z) g : Prop :=
  match known_cost g with
  | Some m => 0 ≤ microdollars m ≤ u64_max ∧ (full g = None ∨ full g = Some m)
  | None => n = 0 ∧ full g = None
  end.
(** A row at its floor. *)
Definition floored (n : Z) g : Prop :=
  match known_cost g with
  | Some m => m = money (n / MILLION) ∧ (full g = None ∨ full g = Some m)
  | None => n = 0 ∧ full g = None
  end.
(** Nothing but the money differs. *)
Definition same_row g g' : Prop :=
  set_cost g' None None = set_cost g None None ∧
  is_some (known_cost g') = is_some (known_cost g) ∧ is_some (full g') = is_some (full g).

Lemma same_row_refl g : same_row g g.
Proof. done. Qed.
Lemma same_row_trans g1 g2 g3 : same_row g1 g2 → same_row g2 g3 → same_row g1 g3.
Proof. intros (? & ? & ?) (? & ? & ?). split_and!; congruence. Qed.

Lemma adjust_Ok m delta : 0 ≤ microdollars m + delta ≤ u64_max → adjust m delta = Ok (money (microdollars m + delta)).
Proof.
  intros H. unfold adjust, try_u64, in_u64. cbv zeta.
  rewrite (proj2 (Z.ltb_ge _ _)) by lia. rewrite (proj2 (Z.ltb_ge _ _)) by (unfold i128_max, u64_max in *; lia).
  simpl. rewrite !(proj2 (Z.leb_le _ _)) by lia. done.
Qed.

Lemma adjust_group_Ok g m delta :
  known_cost g = Some m → (full g = None ∨ full g = Some m) → 0 ≤ microdollars m + delta ≤ u64_max →
  ∃ g', adjust_group_money g delta = Ok g' ∧ same_row g g' ∧
    known_cost g' = Some (money (microdollars m + delta)) ∧
    (full g' = None ∨ full g' = Some (money (microdollars m + delta))).
Proof.
  intros Hk Hf Hb. unfold adjust_group_money. rewrite Hk. simpl. rewrite adjust_Ok by done. simpl.
  destruct Hf as [Hf|Hf]; rewrite Hf; simpl; [|rewrite adjust_Ok by done; simpl]; eexists; (split; [done|]);
    unfold same_row; simpl; rewrite ?Hk, ?Hf; auto.
Qed.

(** The rows with a remainder. *)
Fixpoint remainders (index : nat) (ns : list Z) : list (nat * Z) :=
  match ns with
  | [] => []
  | n :: ns' => (if 0 <? n mod MILLION then [(index, n mod MILLION)] else []) ++ remainders (S index) ns'
  end.

Lemma floor_rows_Ok index gs ns acc cands :
  Forall2 finished ns gs → Forall (λ n, 0 ≤ n) ns → 0 ≤ acc → acc + zsum ((λ n, n / MILLION) <$> ns) ≤ u64_max →
  ∃ gs', floor_rows index gs ns acc cands =
           Ok (gs', acc + zsum ((λ n, n / MILLION) <$> ns), cands ++ remainders index ns) ∧
    Forall2 floored ns gs' ∧ Forall2 same_row gs gs'.
Proof.
  intros H. revert index acc cands. induction H as [|n g ns gs Hg Hgs IH]; intros index acc cands Hns Hacc Hmax.
  { exists []. simpl. rewrite Z.add_0_r, app_nil_r. by split_and!; constructor. }
  apply Forall_cons in Hns as [Hn Hns]. rewrite fmap_cons in Hmax |- *. cbn [zsum] in Hmax |- *.
  assert (0 ≤ n / MILLION) as Hq by (apply Z.div_pos; [done|reflexivity]).
  assert (0 ≤ zsum ((λ n, n / MILLION) <$> ns)) as Hrest.
  { apply zsum_nonneg, Forall_fmap. eapply Forall_impl; [exact Hns|]. intros x Hx. by apply Z.div_pos. }
  unfold finished in Hg. cbn [floor_rows remainders]. destruct (known_cost g) as [m|] eqn:Hk.
  - destruct Hg as [Hm Hf]. cbv zeta. rewrite (proj2 (Z.ltb_ge _ _)) by (unfold u64_max, i128_max in *; lia).
    destruct (adjust_group_Ok g m (n / MILLION - microdollars m) Hk Hf) as (g' & -> & Hsame & Hk' & Hf'); [lia|].
    replace (microdollars m + (n / MILLION - microdollars m)) with (n / MILLION) in * by lia. simpl.
    unfold checked_add_u128. rewrite (proj2 (Z.leb_le _ _)) by (unfold u64_max, u128_max in *; lia). simpl.
    destruct (IH (S index) (acc + n / MILLION) (if 0 <? n mod MILLION then cands ++ [(index, n mod MILLION)] else cands))
      as (gs' & -> & Hfl & Hs); [done|lia|lia|]. simpl. exists (g' :: gs'). split_and!.
    + f_equal. f_equal; [f_equal; lia|]. case_match; [by rewrite <-app_assoc|done].
    + constructor; [|done]. unfold floored. by rewrite Hk'.
    + by constructor.
  - destruct Hg as [-> Hf]. destruct (IH (S index) acc cands) as (gs' & -> & Hfl & Hs); [done|lia|lia|]. simpl.
    exists (g :: gs'). split_and!.
    + by rewrite Z.div_0_l by done.
    + constructor; [|done]. unfold floored. by rewrite Hk.
    + by constructor.
Qed.

Lemma remainders_elem index ns i r :
  (i, r) ∈ remainders index ns → ∃ j n, i = (index + j)%nat ∧ ns !! j = Some n ∧ r = n mod MILLION ∧ 0 < r.
Proof.
  revert index. induction ns as [|n ns IH]; intros index; simpl; [by intros ?%elem_of_nil|].
  intros [Hin|Hin]%elem_of_app.
  - destruct (Z.ltb_spec 0 (n mod MILLION)); [|by apply elem_of_nil in Hin]. apply list_elem_of_singleton in Hin.
    injection Hin as -> ->. exists 0%nat, n. split_and!; [lia|done..].
  - apply IH in Hin as (j & n' & -> & ? & ? & ?). exists (S j), n'. split_and!; [lia|done..].
Qed.
Lemma remainders_NoDup index ns : NoDup (remainders index ns).*1.
Proof.
  revert index. induction ns as [|n ns IH]; intros index; simpl; [constructor|].
  case_match; simpl; [|apply IH]. constructor; [|apply IH].
  intros ([i r] & -> & (j & _ & Hij & _)%remainders_elem)%list_elem_of_fmap. simpl in Hij. lia.
Qed.

(** The total's remainder is the sum of the rows' remainders. *)
Lemma remainders_sum index ns :
  Forall (λ n, 0 ≤ n) ns →
  zsum ns = MILLION * zsum ((λ n, n / MILLION) <$> ns) + zsum (remainders index ns).*2 ∧
  0 ≤ zsum (remainders index ns).*2 ≤ (MILLION - 1) * Z.of_nat (length (remainders index ns)).
Proof.
  intros H. revert index. induction H as [|n ns Hn Hns IH]; intros index; [done|].
  destruct (IH (S index)) as [H1 H2]. rewrite fmap_cons. cbn [zsum remainders].
  pose proof (Z.div_mod n MILLION ltac:(done)). pose proof (Z.mod_pos_bound n MILLION ltac:(done)).
  rewrite fmap_app, zsum_app, length_app. destruct (Z.ltb_spec 0 (n mod MILLION)); simpl fmap; cbn [zsum length]; lia.
Qed.

(** Raising distinct known rows by one. *)
Lemma raise_rows_Ok gs is_ :
  NoDup is_ →
  (∀ i, i ∈ is_ → ∃ g m, gs !! i = Some g ∧ known_cost g = Some m ∧ (full g = None ∨ full g = Some m) ∧
     0 ≤ microdollars m ∧ microdollars m + 1 ≤ u64_max) →
  ∃ gs', raise_rows gs is_ = Ok gs' ∧ length gs' = length gs ∧
    zsum (row_microdollars <$> gs') = zsum (row_microdollars <$> gs) + Z.of_nat (length is_) ∧
    ∀ i g g', gs !! i = Some g → gs' !! i = Some g' →
      same_row g g' ∧ (i ∉ is_ → g' = g) ∧
      (i ∈ is_ → ∃ m, known_cost g = Some m ∧ known_cost g' = Some (money (microdollars m + 1)) ∧
                      (full g' = None ∨ full g' = known_cost g')).
Proof.
  intros Hnd. revert gs. induction Hnd as [|i is_ Hi Hnd IH]; intros gs Hgs; simpl.
  { exists gs. split_and!; [done..|lia|]. intros i g g' Hg Hg'. rewrite Hg in Hg'. injection Hg' as <-.
    split_and!; [apply same_row_refl|done|by intros ?%elem_of_nil]. }
  destruct (Hgs i) as (g & m & Hg & Hk & Hf & Hm0 & Hm); [by left|]. rewrite Hg.
  destruct (adjust_group_Ok g m 1 Hk Hf) as (g1 & -> & Hsame & Hk1 & Hf1); [lia|]. simpl.
  destruct (IH (<[i:=g1]> gs)) as (gs' & -> & Hlen & Hsum & Hall).
  { intros j Hj. destruct (Hgs j) as (gj & mj & Hgj & ?); [by right|]. exists gj, mj.
    rewrite list_lookup_insert_ne by (intros ->; done). done. }
  exists gs'. split; [done|]. rewrite length_insert in Hlen. split_and!; [done| |].
  - rewrite Hsum. rewrite list_fmap_insert.
    assert (∀ (l : list Z) (i : nat) x y, l !! i = Some x → zsum (<[i:=y]> l) = zsum l + y - x) as Hins.
    { induction l as [|z l IHl]; intros [|k] x y Hl; simpl in *; [done..|injection Hl as ->; lia|].
      rewrite (IHl k x y Hl). lia. }
    rewrite (Hins _ i (row_microdollars g)) by by rewrite list_lookup_fmap, Hg.
    unfold row_microdollars at 2. rewrite Hk1. unfold row_microdollars at 2. rewrite Hk. simpl. lia.
  - intros j gj gj' Hgj Hgj'. destruct (decide (i = j)) as [<-|Hij].
    + rewrite Hg in Hgj. injection Hgj as <-.
      destruct (Hall i g1 gj') as (Hs & Hsm & _); [|done|].
      { apply list_lookup_insert_eq. by eapply lookup_lt_Some. }
      rewrite (Hsm Hi) in *. split_and!; [done|set_solver|]. intros _. exists m. rewrite Hk1.
      split_and!; [done..|]. destruct Hf1; auto.
    + destruct (Hall j gj gj') as (Hs & Hsm & Hr); [by rewrite list_lookup_insert_ne|done|].
      split_and!; [done|set_solver|set_solver].
Qed.

(** Counts of an accumulator: no more missing costs than attempts. *)
Definition counted (a : Accumulator) : Prop := 0 ≤ missing_cost a ≤ attempts a ∧ 0 ≤ numerator a.

Lemma from_numerator_Ok n m : from_numerator n = Ok m →
  m = money (n / MILLION + (if 500000 <=? n mod MILLION then 1 else 0)) ∧ 0 ≤ microdollars m ≤ u64_max.
Proof.
  unfold from_numerator, checked_add_u128, try_u64, in_u64. intros H.
  apply result_bind_Ok in H as (r & Hr & H). destruct (_ <=? u128_max); [|done]. injection Hr as <-.
  apply result_bind_Ok in H as (z & Hz & H). destruct (_ && _) eqn:Hg; [|done]. injection Hz as <-. injection H as <-.
  split; [done|]. simpl. apply andb_true_iff in Hg as [?%Z.leb_le ?%Z.leb_le]. lia.
Qed.

Lemma groups_finished keyed gs :
  Forall (λ e, counted e.2) keyed → groups mkGroup keyed = Ok gs →
  Forall2 finished (numerator <$> keyed.*2) gs.
Proof.
  unfold groups. intros H. revert gs. induction H as [|[k a] keyed Ha Hk IH]; intros gs; simpl.
  { intros [= <-]. constructor. }
  intros Hc. apply result_bind_Ok in Hc as (g & Hg & Hc). apply result_bind_Ok in Hc as (gs' & Hgs & Hc).
  injection Hc as <-. constructor; [|by apply IH].
  apply result_bind_Ok in Hg as (t & Ht & Hg). injection Hg as <-. unfold finish in Ht.
  apply result_bind_Ok in Ht as (m & [_ Hm]%from_numerator_Ok & Ht). injection Ht as <-.
  destruct Ha as [Hmiss Hn]. unfold finished. simpl in *.
  destruct (_ || _) eqn:Hg; simpl.
  - split; [done|]. case_match; auto.
  - rewrite !orb_false_iff, Z.eqb_neq, !Z.ltb_ge in Hg. split; [lia|]. by rewrite (proj2 (Z.eqb_neq _ _)) by lia.
Qed.

Lemma insert_candidate_perm x l : insert_candidate x l ≡ₚ x :: l.
Proof. induction l as [|y l IH]; simpl; [done|]. case_match; [done|]. rewrite IH. constructor. Qed.
Lemma sort_candidates_perm l : sort_candidates l ≡ₚ l.
Proof. unfold sort_candidates. induction l as [|x l IH]; simpl; [done|]. by rewrite insert_candidate_perm, IH. Qed.

(** How many units rounding adds to the floors. *)
Definition units (ns : list Z) : Z :=
  let r := zsum (remainders 0 ns).*2 in
  r / MILLION + (if 500000 <=? r mod MILLION then 1 else 0).

Lemma units_bound ns :
  Forall (λ n, 0 ≤ n) ns →
  zsum ns / MILLION + (if 500000 <=? zsum ns mod MILLION then 1 else 0) =
    zsum ((λ n, n / MILLION) <$> ns) + units ns ∧
  0 ≤ units ns ≤ Z.of_nat (length (remainders 0 ns)).
Proof.
  intros H. destruct (remainders_sum 0 ns H) as [-> Hr]. unfold units. cbv zeta.
  set (f := zsum ((λ n, n / MILLION) <$> ns)). set (r := zsum (remainders 0 ns).*2) in *.
  set (k := Z.of_nat (length (remainders 0 ns))) in *. clearbody f r k.
  assert ((MILLION * f + r) / MILLION = f + r / MILLION ∧ (MILLION * f + r) mod MILLION = r mod MILLION) as [-> ->].
  { rewrite (Z.add_comm (MILLION * f)), (Z.mul_comm MILLION), Z.div_add, Z.mod_add by done. split; [lia|done]. }
  pose proof (Z.div_mod r MILLION ltac:(done)). pose proof (Z.mod_pos_bound r MILLION ltac:(done)).
  unfold MILLION in *. destruct (Z.leb_spec 500000 (r mod 1000000)); lia.
Qed.

Lemma floored_sum ns gs :
  Forall2 floored ns gs → zsum (row_microdollars  <$> gs) = zsum ((λ n, n / MILLION) <$> ns).
Proof.
  induction 1 as [|n g ns gs Hg Hgs IH]; [done|]. rewrite !fmap_cons. cbn [zsum]. rewrite IH. f_equal.
  unfold floored in Hg. unfold row_microdollars. destruct (known_cost g) as [m|]; [by destruct Hg as [-> _]|].
  destruct Hg as [-> _]. done.
Qed.

Lemma floors_nonneg ns : Forall (λ n, 0 ≤ n) ns → Forall (λ x, 0 ≤ x) ((λ n, n / MILLION) <$> ns).
Proof. intros H. apply Forall_fmap. eapply Forall_impl; [exact H|]. intros x Hx. by apply Z.div_pos. Qed.

(** Rows with a remainder are known, with room for one more. *)
Lemma floored_raisable ns gs is_ i n :
  Forall (λ n, 0 ≤ n) ns → Forall2 floored ns gs →
  zsum ((λ n, n / MILLION) <$> ns) + Z.of_nat (length is_) ≤ u64_max →
  i ∈ is_ → ns !! i = Some n → 0 < n mod MILLION →
  ∃ g m, gs !! i = Some g ∧ known_cost g = Some m ∧ (full g = None ∨ full g = Some m) ∧
    0 ≤ microdollars m ∧ microdollars m + 1 ≤ u64_max.
Proof.
  intros Hns Hfl Hmax Hi Hn Hmod. destruct (Forall2_lookup_l _ _ _ _ _ Hfl Hn) as (g & Hg & Hfg). unfold floored in Hfg.
  destruct (known_cost g) as [m|] eqn:Hk; [|destruct Hfg as [-> _]; done]. destruct Hfg as [-> Hf].
  exists g, (money (n / MILLION)).
  assert (n / MILLION ∈ (λ n, n / MILLION) <$> ns) as Hin.
  { apply list_elem_of_fmap. exists n. split; [done|]. by eapply list_elem_of_lookup_2. }
  pose proof (floors_nonneg _ Hns) as Hfn. pose proof (zsum_elem_le _ _ Hfn Hin).
  rewrite list.Forall_forall in Hfn. specialize (Hfn _ Hin).
  assert (0 < length is_)%nat by (destruct is_; [by apply elem_of_nil in Hi|simpl; lia]).
  split_and!; simpl; try done. lia.
Qed.

(** A floored row, raised or not. *)
Lemma raised_row n g g1 row (raised : bool) :
  floored n g1 → same_row g g1 → same_row g1 row →
  (if raised then ∃ m, known_cost g1 = Some m ∧ known_cost row = Some (money (microdollars m + 1)) ∧
                       (full row = None ∨ full row = known_cost row)
   else row = g1) →
  set_cost row None None = set_cost g None None ∧ is_some (known_cost row) = is_some (known_cost g) ∧
  (full row = if is_some (full g) then known_cost row else None) ∧
  ∀ m, known_cost row = Some m → n / MILLION ≤ microdollars m ≤ n / MILLION + 1.
Proof.
  intros Hfg Hs1 Hs2 Hr. destruct (same_row_trans _ _ _ Hs1 Hs2) as (Hset & Hkn & Hfu).
  split_and!; [done..| |]; rewrite <-?Hfu; unfold floored in Hfg; destruct raised.
  - destruct Hr as (m & _ & _ & [->|Hf]); [done|]. by destruct (full row).
  - subst row. destruct (known_cost g1) as [m|]; destruct Hfg as [_ Hfg]; [by destruct Hfg as [->| ->]|by rewrite Hfg].
  - intros m Hm. destruct Hr as (m1 & Hm1 & Hm2 & _). rewrite Hm1 in Hfg. destruct Hfg as [-> _].
    rewrite Hm2 in Hm. injection Hm as <-. simpl. lia.
  - intros m Hm. subst row. rewrite Hm in Hfg. destruct Hfg as [-> _]. simpl. lia.
Qed.

(** the rows of a cost report add up to its total.  When the finished rows
    and the rounded total fit their types, reconciling succeeds, the known
    costs of the rows add up to the exact total rounded to a microdollar, each
    known_cost row is its exact cost rounded down or one microdollar more, complete
    costs still equal the known ones, rows without a cost stay without one,
    and nothing else of a row changes. *)
Theorem report_costs_add_up keyed gs target :
  Forall (λ e, counted e.2) keyed → groups mkGroup keyed = Ok gs →
  zsum (numerator <$> keyed.*2) ≤ u128_max → from_numerator (zsum (numerator <$> keyed.*2)) = Ok target →
  ∃ rows, reconcile_group_costs gs (numerator <$> keyed.*2) = Ok rows ∧
    zsum (row_microdollars <$> rows) = microdollars target ∧ length rows = length gs ∧
    ∀ i n g row, (numerator <$> keyed.*2) !! i = Some n → gs !! i = Some g → rows !! i = Some row →
      set_cost row None None = set_cost g None None ∧
      is_some (known_cost row) = is_some (known_cost g) ∧
      (full row = if is_some (full g) then known_cost row else None) ∧
      ∀ m, known_cost row = Some m → n / MILLION ≤ microdollars m ≤ n / MILLION + 1.
Proof.
  intros Hcount Hgs Hmax Htarget. set (ns := numerator <$> keyed.*2) in *.
  assert (Forall (λ n, 0 ≤ n) ns) as Hns.
  { subst ns. apply Forall_fmap, Forall_fmap. eapply Forall_impl; [exact Hcount|]. intros [k a] [_ ?]. done. }
  pose proof (groups_finished _ _ Hcount Hgs) as Hfin. fold ns in Hfin. clearbody ns.
  destruct (units_bound ns Hns) as [Hround Hunits].
  pose proof (from_numerator_Ok _ _ Htarget) as [Ht Htb]. rewrite Hround in Ht. subst target. simpl in Htb.
  pose proof (zsum_nonneg _ (floors_nonneg _ Hns)) as Hfsum.
  destruct (floor_rows_Ok 0 gs ns 0 [] Hfin Hns ltac:(lia)) as (gs1 & Hfloor & Hfl & Hsame1); [lia|].
  unfold reconcile_group_costs. rewrite try_sum_Ok by done. simpl. rewrite Z.add_0_l, Htarget. simpl.
  rewrite Hfloor. simpl. unfold checked_sub_u128. rewrite (proj2 (Z.leb_le _ _)) by lia. simpl.
  rewrite Z.add_0_l, Z.add_simpl_l.
  rewrite (proj2 (Z.ltb_ge _ _)) by lia. rewrite (proj2 (Z.ltb_ge _ _)) by lia. simpl.
  set (is_ := take (Z.to_nat (units ns)) (sort_candidates (remainders 0 ns)).*1).
  assert (∀ i, i ∈ is_ → ∃ n, ns !! i = Some n ∧ 0 < n mod MILLION) as His.
  { intros i Hi. apply elem_of_take in Hi as (j & Hj & _). apply list_elem_of_lookup_2 in Hj.
    apply list_elem_of_fmap in Hj as ([i' r] & -> & Hin). rewrite sort_candidates_perm in Hin.
    apply remainders_elem in Hin as (j' & n & -> & Hn & -> & Hr). eauto. }
  assert (Z.of_nat (length is_) = units ns) as Hlen.
  { subst is_. rewrite length_take, length_fmap, sort_candidates_perm. lia. }
  destruct (raise_rows_Ok gs1 is_) as (gs2 & -> & Hlen2 & Hsum & Hall).
  { subst is_. assert (NoDup (sort_candidates (remainders 0 ns)).*1) as Hnd.
    { rewrite sort_candidates_perm. apply remainders_NoDup. }
    rewrite <-(take_drop (Z.to_nat (units ns)) (sort_candidates _).*1) in Hnd. by apply list.NoDup_app in Hnd as [? _]. }
  { intros i Hi. destruct (His i Hi) as (n & Hn & Hmod). eapply (floored_raisable ns gs1 is_); try done. lia. }
  rewrite (floored_sum _ _ Hfl), Hlen in Hsum. simpl.
  assert (∀ i n g row, ns !! i = Some n → gs !! i = Some g → gs2 !! i = Some row →
      set_cost row None None = set_cost g None None ∧ is_some (known_cost row) = is_some (known_cost g) ∧
      (full row = if is_some (full g) then known_cost row else None) ∧
      ∀ m, known_cost row = Some m → n / MILLION ≤ microdollars m ≤ n / MILLION + 1) as Hrows.
  { intros i n g row Hn Hg Hrow. destruct (Forall2_lookup_l _ _ _ _ _ Hsame1 Hg) as (g1 & Hg1 & Hs1).
    destruct (Hall i g1 row Hg1 Hrow) as (Hs2 & Hkeep & Hraised).
    destruct (Forall2_lookup_l _ _ _ _ _ Hfl Hn) as (g1' & Hg1' & Hfg). rewrite Hg1 in Hg1'. injection Hg1' as <-.
    apply (raised_row n g g1 row (bool_decide (i ∈ is_))); [done..|]. case_bool_decide; auto. }
  assert (length gs2 = length gs ∧ length ns = length gs) as [Hl2 Hl].
  { apply Forall2_length in Hsame1, Hfin. lia. }
  assert (Forall (λ x, 0 ≤ x) (row_microdollars <$> gs2)) as Hpos.
  { apply Forall_fmap, list.Forall_forall. intros row (i & Hrow)%list_elem_of_lookup_1.
    destruct (lookup_lt_is_Some_2 gs i) as [g Hg]; [rewrite <-Hl2; by eapply lookup_lt_Some|].
    destruct (lookup_lt_is_Some_2 ns i) as [n Hn]; [rewrite Hl; by eapply lookup_lt_Some|].
    destruct (Hrows _ _ _ _ Hn Hg Hrow) as (_ & _ & _ & Hb). simpl. unfold row_microdollars.
    destruct (known_cost row) as [m|]; [|lia]. specialize (Hb _ eq_refl).
    assert (0 ≤ n / MILLION); [|lia]. apply Z.div_pos; [|done]. rewrite list.Forall_forall in Hns.
    apply Hns. by eapply list_elem_of_lookup_2. }
  rewrite try_sum_Ok; [|done|unfold u64_max, u128_max in *; lia]. simpl. rewrite Z.add_0_l, Hsum.
  rewrite bool_decide_eq_true_2 by done. simpl. exists gs2. by split_and!.
Qed.
End Reconcile.

Definition example_row (attempts numerator missing : Z) : Accumulator :=
  mkAccumulator attempts (all_categories no_tokens) no_cache numerator missing 0 [].
Definition example_rows : list (option string * Accumulator) :=
  [(Some "a", example_row 1 1500000 0); (Some "b", example_row 2 1400000 1); (None, example_row 1 1200000 0);
   (Some "c", example_row 1 0 1)].
Definition example_groups : list ContextGroup :=
  match groups mkGroup example_rows with Ok gs => gs | Err _ => [] end.

Lemma report_costs_add_up_witness :
  ∃ rows, reconcile_group_costs example_groups (numerator <$> example_rows.*2) = Ok rows ∧
    zsum (row_microdollars <$> rows) = 4.
Proof.
  destruct (report_costs_add_up example_rows example_groups (money 4)) as (rows & Hr & Hs & _).
  - repeat constructor; simpl; lia.
  - vm_compute. reflexivity.
  - vm_compute. discriminate.
  - vm_compute. reflexivity.
  - exists rows. split; [exact Hr|exact Hs].
Defined.
