(* ===== verification/TelemetryStats.v ===== *)
(** * TelemetryStats: the reports of the reducer

    Models the entry points of [crates/telemetry/src/reducer.rs]: the reduction
    of attempt facts to a report, by route, by day and by one attribution
    dimension, the chair sessions beside the lanes, the cache roll-up and the
    usage per account; and [validate_prices] of [prices.rs].  The civil date of
    an instant and the parser of dates belong to the [jiff] crate and are
    arguments.  Of an attempt fact the model keeps the fields the reducer
    reads. *)

From Stdlib Require Import Ascii.
From stdpp Require Import base option list strings sets numbers pretty.
From S2P Require Import Prelude CoreIds TelemetryRecords TelemetryCosts.

Local Open Scope string_scope.
Local Open Scope list_scope.
Local Open Scope Z_scope.
Local Open Scope rust_scope.

Definition MAX_ATTEMPTS : Z := 100000.
Definition MAX_GROUPS : Z := 10000.
Definition MAX_KEY_BYTES : Z := 1048576.

Lemma id_text_inj (x y : Id) :
  String.string_of_list_ascii (id_bytes x) = String.string_of_list_ascii (id_bytes y) → x = y.
Proof.
  destruct x as [a], y as [b]. simpl. intros H%(f_equal String.list_ascii_of_string).
  rewrite !String.list_ascii_of_string_of_list_ascii in H. by f_equal.
Qed.
#[export] Instance Ord_Id : Ord Id := ord_via (λ id, String.string_of_list_ascii (id_bytes id)) id_text_inj.
#[export] Instance Id_eq : EqDecision Id.
Proof. solve_decision. Defined.
#[export] Instance Ord_bool : Ord bool.
Proof. apply (ord_via (λ b : bool, if b then 1 else 0)). by intros [] []. Defined.

(** ** Facts *)

Record RouteFact := mkRoute {
  provider : option string;
  model : option string;
  effort : option string;
  account_label : option string;
}.
#[export] Instance RouteFact_eq : EqDecision RouteFact.
Proof. solve_decision. Defined.
Definition route_tuple (r : RouteFact) : option string * (option string * (option string * option string)) :=
  (provider r, (model r, (effort r, account_label r))).
Lemma route_tuple_inj x y : route_tuple x = route_tuple y → x = y.
Proof. destruct x, y. by intros [= -> -> -> ->]. Qed.
#[export] Instance Ord_RouteFact : Ord RouteFact := ord_via route_tuple route_tuple_inj.
Definition no_route : RouteFact := mkRoute None None None None.

Definition route_fields (r : RouteFact) : list (option string) := [provider r; model r; effort r; account_label r].
(** Exact field order with missing values last. *)
Definition report_key (r : RouteFact) :
    (bool * option string) * ((bool * option string) * ((bool * option string) * (bool * option string))) :=
  let key field := (is_none field, field) in
  (key (provider r), (key (model r), (key (effort r), key (account_label r)))).

Record WorkContext := mkContext {
  work_item : option string;
  risk_tier : option string;
  task_kind : option string;
  graph_id : option string;
  node_id : option string;
  preset : option string;
  pattern : option string;
  role : option string;
  role_digest : option string;
  experiment_arm : option string;
  shadow_of : option string;
  selection_source : option string;
  context_tier : option string;
  context_template : option string;
  context_parent_node : option string;
}.
Definition context_valid (c : WorkContext) : bool :=
  forallb (λ s, negb (is_blank s) && (str_len s <=? 256) && negb (has_control s))
    (omap id [work_item c; risk_tier c; task_kind c; graph_id c; node_id c; preset c; pattern c; role c;
              role_digest c; experiment_arm c; shadow_of c; selection_source c; context_tier c;
              context_template c; context_parent_node c]).

Record AttemptFact := mkFact {
  context : option WorkContext;
  attempt_id : Id;
  task_id : Id;
  attempt_number : Z;
  project_id : Id;
  terminal_state : AttemptOutcome;
  queued_at : Z;
  started_at : option Z;
  finished_at : Z;
  resolved_route : option RouteFact;
  fact_usage : Usage;
}.

Record Window := mkWindow {
  since : option Z;
  until : option Z;
  window_project : option Id;
  detail : bool;
}.
Definition includes (w : Window) (fact : AttemptFact) : bool :=
  is_none_or (since w) (λ s, s <=? finished_at fact)
  && is_none_or (until w) (λ u, finished_at fact <? u)
  && is_none_or (window_project w) (λ p, project_id fact == p).
Definition invalid_window (w : Window) : bool :=
  match since w, until w with Some s, Some u => u <=? s | _, _ => false end.

Definition record (a : Accumulator) (fact : AttemptFact) (num : Z) (missing subscription : bool) :
    result TelemetryError Accumulator :=
  record_usage a (fact_usage fact) (Some (terminal_state fact)) num missing subscription.
Definition record_weighted (a : Accumulator) (fact : AttemptFact) (u : Usage) (num : Z)
    (missing subscription : bool) : result TelemetryError Accumulator :=
  record_usage a u (Some (terminal_state fact)) num missing subscription.

(** ** Groups *)

Record GroupBudget := mkBudget { budget_groups : Z; budget_bytes : Z }.

(** [budget.group(map, key, bytes)] followed by a change of the group: the
    reservation is made before a new group is inserted. *)
Definition budget_reserve {K} `{Ord K} (b : GroupBudget) (m : list (K * Accumulator)) (key : K) (bytes : Z) :
    result TelemetryError GroupBudget :=
  match get key m with
  | Some _ => Ok b
  | None =>
      if MAX_GROUPS <=? budget_groups b then Err (TooLarge "10,000 groups")
      else if MAX_KEY_BYTES <? budget_bytes b + bytes then Err (TooLarge "1 MiB of group keys")
      else Ok (mkBudget (budget_groups b + 1) (budget_bytes b + bytes))
  end.
Definition group_update {K} `{Ord K} (b : GroupBudget) (m : list (K * Accumulator)) (key : K) (bytes : Z)
    (f : Accumulator → result TelemetryError Accumulator) :
    result TelemetryError (GroupBudget * list (K * Accumulator)) :=
  b ← budget_reserve b m key bytes;
  m ← update key empty_accumulator f m;
  Ok (b, m).

Inductive ContextKey :=
| WorkItem | Issue | GraphId | NodeId | Preset | Pattern | Role | RoleDigest | ExperimentArm | SelectionSource | Route.
#[export] Instance ContextKey_eq : EqDecision ContextKey.
Proof. solve_decision. Defined.
(** [Route] is no field of the work context; the caller handles it first. *)
Definition context_value (k : ContextKey) (c : WorkContext) : option string :=
  match k with
  | WorkItem | Issue => work_item c
  | GraphId => graph_id c
  | NodeId => node_id c
  | Preset => preset c
  | Pattern => pattern c
  | Role => role c
  | RoleDigest => role_digest c
  | ExperimentArm => experiment_arm c
  | SelectionSource => selection_source c
  | Route => None
  end.

Definition ExternalGroups : Type := list (Id * list ExternalGroup).

(** The group values of one fact: its value in the dimension, or its labels
    from the external read. *)
Definition values_of (context_key : option ContextKey) (external_groups : option ExternalGroups)
    (fact : AttemptFact) (key : RouteFact) : option (list (option string * option Z)) :=
  match context_key with
  | Some Route =>
      Some [(m ← model key; Some (match effort key with Some e => m +:+ "@" +:+ e | None => m end), None)]
  | Some dimension => Some [(c ← context fact; context_value dimension c, None)]
  | None =>
      groups ← external_groups;
      values ← get (attempt_id fact) groups;
      Some (group_values values)
  end.

(** An optional count over the weights. *)
Definition distribute (weights : list Z) (value : option Z) : result TelemetryError (list (option Z)) :=
  match value with
  | None => Ok (replicate (length weights) None)
  | Some n => parts ← weighted_parts try_u64 n weights; Ok (List.map Some parts)
  end.
Definition try_u128 (z : Z) : result TelemetryError Z :=
  if (0 <=? z) && (z <=? u128_max) then Ok z else Err Overflow.

Record Distributed := mkDistributed {
  d_uncached : list (option Z);
  d_read : list (option Z);
  d_write : list (option Z);
  d_write_1h : list (option Z);
  d_output : list (option Z);
  d_reasoning : list (option Z);
  d_numerators : list Z;
}.
Definition distribute_all (weights : list Z) (u : Usage) (num : Z) : result TelemetryError Distributed :=
  uncached ← distribute weights (u_uncached_input u);
  read ← distribute weights (u_cache_read u);
  write ← distribute weights (u_cache_write u);
  write_1h ← distribute weights (u_cache_write_1h u);
  output ← distribute weights (u_output_excluding_reasoning u);
  reasoning ← distribute weights (u_reasoning u);
  numerators ← weighted_parts try_u128 num weights;
  Ok (mkDistributed uncached read write write_1h output reasoning numerators).

(** The usage and cost of one share; [None] is an index out of bounds. *)
Definition share_at (d : Distributed) (index : nat) : option (Usage * Z) :=
  uncached ← d_uncached d !! index;
  read ← d_read d !! index;
  write ← d_write d !! index;
  write_1h ← d_write_1h d !! index;
  output ← d_output d !! index;
  reasoning ← d_reasoning d !! index;
  num ← d_numerators d !! index;
  Some (mkUsage uncached read write write_1h output reasoning, num).

(** The loop over the group values, from [index] on. *)
Fixpoint record_values (context_key : option ContextKey) (fact : AttemptFact) (price : Priced)
    (distributed : option Distributed) (index : nat) (values : list (option string * option Z))
    (budget : GroupBudget) (context_groups : list (option string * Accumulator)) :
    result TelemetryError (GroupBudget * list (option string * Accumulator)) :=
  match values with
  | [] => Ok (budget, context_groups)
  | (value, weight) :: values' =>
      if is_some_and value (λ v, is_blank v
           || ((256 <? str_len v) && negb (bool_decide (context_key = Some Route))))
      then Err (InvalidFact "external group key")
      else
        let size := match value with Some v => str_len v | None => 0 end in
        '(budget, context_groups) ← group_update budget context_groups value size (λ group,
          match weight with
          | None => record group fact (p_numerator price) (p_missing_cost price) (p_subscription price)
          | Some _ =>
              match distributed with
              | None => Err (InvalidFact "external group weight")
              | Some d =>
                  match share_at d index with
                  | None => Err (InvalidFact "index out of bounds")
                  | Some (u, num) => record_weighted group fact u num (p_missing_cost price) (p_subscription price)
                  end
              end
          end);
        record_values context_key fact price distributed (S index) values' budget context_groups
  end.

Definition record_groups (context_key : option ContextKey) (fact : AttemptFact) (price : Priced)
    (values : list (option string * option Z)) (budget : GroupBudget)
    (context_groups : list (option string * Accumulator)) :
    result TelemetryError (GroupBudget * list (option string * Accumulator)) :=
  let weighted := forallb (λ '(_, weight), is_some weight) values in
  let weights := omap snd values in
  distributed ← (if weighted
                 then d ← distribute_all weights (fact_usage fact) (p_numerator price); Ok (Some d)
                 else Ok None);
  record_values context_key fact price distributed 0 values budget context_groups.

(** ** The reduction *)

Record Coverage := mkCoverage {
  selected_attempts : Z;
  missing_usage : Z;
  missing_categories : Categories Z;
  missing_price : Z;
  missing_account : Z;
}.
Definition add_absent (c : Categories Z) (absent : list bool) : result TelemetryError (Categories Z) :=
  let at_ i := count_of (unwrap_or (absent !! i) false) in
  a ← add (uncached_input c) (at_ 0%nat);
  b ← add (cache_read c) (at_ 1%nat);
  w ← add (cache_write c) (at_ 2%nat);
  o ← add (output_excluding_reasoning c) (at_ 3%nat);
  r ← add (reasoning c) (at_ 4%nat);
  Ok (mkCategories a b w o r).

Record Reduction := mkReduction {
  context_groups : list (option string * Accumulator);
  total : Accumulator;
  routes : list (RouteFact * Accumulator);
  daily : list ((string * RouteFact) * Accumulator);
  seen_attempts : list Id;
  numbers : list (Id * Id * Z);
  latest : list ((Id * Id) * (Z * AttemptOutcome));
  coverage : Coverage;
  budget : GroupBudget;
}.
Definition no_reduction : Reduction :=
  mkReduction [] empty_accumulator [] [] [] [] [] (mkCoverage 0 0 (all_categories 0) 0 0) (mkBudget 0 0).

Definition cover (c : Coverage) (price : Priced) (key : RouteFact) : result TelemetryError Coverage :=
  missing_categories ← add_absent (missing_categories c) (absent price);
  missing_usage ← add (missing_usage c) (count_of (forallb id (absent price)));
  missing_price ← add (missing_price c) (count_of (p_missing_price price));
  missing_account ← add (missing_account c) (count_of (is_none (account_label key)));
  Ok (mkCoverage (selected_attempts c) missing_usage missing_categories missing_price missing_account).

(** The latest attempt of a task. *)
Definition note_latest (fact : AttemptFact) (l : list ((Id * Id) * (Z * AttemptOutcome))) :
    list ((Id * Id) * (Z * AttemptOutcome)) :=
  let key := (project_id fact, task_id fact) in
  let current := unwrap_or (get key l) (0, terminal_state fact) in
  put key (if current.1 <? attempt_number fact then (attempt_number fact, terminal_state fact) else current) l.

(** ** Chair sessions *)

Inductive Unread := NoConfigDir | TranscriptNotFound | TranscriptUnreadable | TranscriptTooLarge | ReadBudgetExhausted.
Definition unread_index (u : Unread) : Z :=
  match u with
  | NoConfigDir => 0 | TranscriptNotFound => 1 | TranscriptUnreadable => 2 | TranscriptTooLarge => 3
  | ReadBudgetExhausted => 4
  end.
#[export] Instance Ord_Unread : Ord Unread.
Proof. apply (ord_via unread_index). by intros [] []. Defined.

Record ChairModelUsage := mkModelUsage { cm_model : string; cm_usage : Usage }.
Record ChairSession := mkChair {
  chair_adapter : string;
  chair_account : string;
  chair_session : string;
  chair_project : option Id;
  chair_config : option string;
  chair_model_usage : list ChairModelUsage;
  chair_unread : option Unread;
}.

Record ChairGroup := mkChairGroup {
  cg_adapter : string;
  cg_account : string;
  cg_model : string;
  cg_sessions : Z;
  cg_usage : Categories TokenTotal;
  cg_cache : CacheSummary;
  cg_cost : CostTotal;
}.
Record ChairStats := mkChairStats {
  cs_scope : string;
  cs_sessions : Z;
  cs_unread : list (Unread * Z);
  cs_complete : bool;
  cs_usage : Categories TokenTotal;
  cs_cache : CacheSummary;
  cs_cost : CostTotal;
  cs_groups : list ChairGroup;
}.
(** The report and the unfinished cache tallies of the groups. *)
Record Chair := mkChairReport { chair_report : ChairStats; chair_cache : list (string * string * string * CacheSummary) }.

Record ChairState := mkChairState {
  chair_groups : list ((string * string * string) * (Accumulator * list string));
  chair_total : Accumulator;
  chair_sessions : list (string * string * string);
  chair_unreads : list (Unread * Z);
}.

(** ** Cache roll-up *)

Definition CacheKey : Type := string * option string * option string * option string.
Record CacheGroup := mkCacheGroup {
  source : string;
  group_provider : option string;
  group_model : option string;
  group_account : option string;
  group_cache : CacheSummary;
}.
Record CacheRows := mkCacheRows {
  by_model : list CacheGroup;
  by_account : list CacheGroup;
  by_provider : list CacheGroup;
  by_source : list CacheGroup;
}.
Record CacheMaps := mkCacheMaps {
  m_model : list (CacheKey * CacheSummary);
  m_account : list (CacheKey * CacheSummary);
  m_provider : list (CacheKey * CacheSummary);
  m_source : list (CacheKey * CacheSummary);
}.
Definition cache_fold (m : CacheMaps) (source : string) (provider model account : option string)
    (c : CacheSummary) : result TelemetryError CacheMaps :=
  let merge (old : CacheSummary) := cache_merge old c in
  by_model ← update (source, provider, model, None) no_cache merge (m_model m);
  by_account ← update (source, provider, None, account) no_cache merge (m_account m);
  by_provider ← update (source, provider, None, None) no_cache merge (m_provider m);
  by_source ← update (source, None, None, None) no_cache merge (m_source m);
  Ok (mkCacheMaps by_model by_account by_provider by_source).
Fixpoint cache_lanes (m : CacheMaps) (routes : list (RouteFact * Accumulator)) : result TelemetryError CacheMaps :=
  match routes with
  | [] => Ok m
  | (route, a) :: routes' =>
      m ← cache_fold m "lane" (provider route) (model route) (account_label route) (cache a);
      cache_lanes m routes'
  end.
Fixpoint cache_chairs (m : CacheMaps) (chairs : list (string * string * string * CacheSummary)) :
    result TelemetryError CacheMaps :=
  match chairs with
  | [] => Ok m
  | (adapter, account, model, c) :: chairs' =>
      m ← cache_fold m "chair" (Some adapter) (Some model) (Some account) c;
      cache_chairs m chairs'
  end.
Definition cache_rows (m : list (CacheKey * CacheSummary)) : list CacheGroup :=
  (λ '((source, provider, model, account), c), mkCacheGroup source provider model account (cache_finish c)) <$> m.
Definition cache_report (routes : list (RouteFact * Accumulator)) (chair : option Chair) :
    result TelemetryError CacheRows :=
  m ← cache_lanes (mkCacheMaps [] [] [] []) routes;
  m ← cache_chairs m (match chair with Some c => chair_cache c | None => [] end);
  Ok (mkCacheRows (cache_rows (m_model m)) (cache_rows (m_account m)) (cache_rows (m_provider m))
        (cache_rows (m_source m))).

(** ** Reports *)

Record RouteGroup := mkRouteGroup { group_route : RouteFact; group_totals : Totals }.
Record DailyGroup := mkDailyGroup { group_day : string; day_route : RouteFact; day_totals : Totals }.
Record StatsReport := mkReport {
  scope : string;
  report_window : Window;
  report_prices : PriceIdentity;
  report_totals : Totals;
  report_routes : list RouteGroup;
  report_context_groups : option (list ContextGroup);
  daily_accounts : option (list DailyGroup);
  latest_task_outcomes : list (AttemptOutcome * Z);
  report_coverage : Coverage;
  report_cache : CacheRows;
  report_chair : option ChairStats;
}.

(** [sort_by] with a comparison of keys: stable. *)
Fixpoint insert_by {A K} `{Ord K} (key : A → K) (x : A) (l : list A) : list A :=
  match l with
  | [] => [x]
  | y :: l' => match cmp (key x) (key y) with Gt => y :: insert_by key x l' | _ => x :: l end
  end.
Definition sort_by {A K} `{Ord K} (key : A → K) (l : list A) : list A := foldr (insert_by key) [] l.

(** The outcomes of the latest attempts, counted. *)
Fixpoint count_latest (acc : list (AttemptOutcome * Z)) (l : list ((Id * Id) * (Z * AttemptOutcome))) :
    result TelemetryError (list (AttemptOutcome * Z)) :=
  match l with
  | [] => Ok acc
  | (_, (_, state)) :: l' =>
      acc ← update state 0 (λ n, add n 1) acc;
      count_latest acc l'
  end.

Section Report.
  (** [at.as_timestamp().to_zoned(UTC).date().to_string()] of [jiff]. *)
  Variable utc_day : Z → string.
  Variable prices : PriceTable.

(** The body of the loop over the facts. *)
Definition reduce_fact (w : Window) (context_key : option ContextKey) (external_groups : option ExternalGroups)
    (r : Reduction) (fact : AttemptFact) : result TelemetryError Reduction :=
  if negb (includes w fact) then Ok r
  else if MAX_ATTEMPTS <=? attempts (total r) then Err (TooLarge "100,000 selected attempts")
  else if is_some_and (started_at fact) (λ start, finished_at fact <? start)
          || (finished_at fact <? queued_at fact) || (attempt_number fact =? 0)
  then Err (InvalidFact "time order or zero attempt number")
  else
    let '(fresh, seen) := set_insert (attempt_id fact) (seen_attempts r) in
    let '(fresh_number, numbers) := set_insert (project_id fact, task_id fact, attempt_number fact) (numbers r) in
    if negb fresh || negb fresh_number then Err (InvalidFact "duplicate attempt ID or task/attempt number")
    else
      let fields := match resolved_route fact with Some route => omap id (route_fields route) | None => [] end in
      if existsb is_blank fields then Err (InvalidFact "empty route identity")
      else
        let bytes := foldr Z.add 0 (str_len <$> fields) in
        let key := unwrap_or (resolved_route fact) no_route in
        price ← priced (fact_usage fact) (provider key) (model key) prices;
        coverage ← cover (coverage r) price key;
        if is_some_and (context fact) (λ c, negb (context_valid c)) then Err (InvalidFact "work context")
        else
          '(budget, context_groups) ← match values_of context_key external_groups fact key with
                                      | Some values => record_groups context_key fact price values (budget r)
                                                         (context_groups r)
                                      | None => Ok (budget r, context_groups r)
                                      end;
          let rec_ acc := record acc fact (p_numerator price) (p_missing_cost price) (p_subscription price) in
          '(budget, routes) ← group_update budget (routes r) key bytes rec_;
          '(budget, daily) ← (if detail w
                              then let day := utc_day (finished_at fact) in
                                   group_update budget (daily r) (day, key) (bytes + str_len day) rec_
                              else Ok (budget, daily r));
          let latest := note_latest fact (latest r) in
          total ← rec_ (total r);
          Ok (mkReduction context_groups total routes daily seen numbers latest coverage budget).

Fixpoint reduce (w : Window) (context_key : option ContextKey) (external_groups : option ExternalGroups)
    (r : Reduction) (facts : list AttemptFact) : result TelemetryError Reduction :=
  match facts with
  | [] => Ok r
  | fact :: facts' =>
      r ← reduce_fact w context_key external_groups r fact;
      reduce w context_key external_groups r facts'
  end.

(** One model of a chair session: the group and the total record it. *)
Definition chair_model (session : ChairSession) (m : ChairModelUsage) (c : ChairState) :
    result TelemetryError ChairState :=
  let name := if contains_char "/" (cm_model m) then cm_model m
              else chair_adapter session +:+ "/" +:+ cm_model m in
  price ← priced (cm_usage m) (Some (chair_adapter session)) (Some name) prices;
  let key := (chair_adapter session, chair_account session, name) in
  if is_none (get key (chair_groups c)) && (MAX_GROUPS <=? Z.of_nat (length (chair_groups c)))
  then Err (TooLarge "10,000 groups")
  else
    let rec_ acc := record_usage acc (cm_usage m) None (p_numerator price) (p_missing_cost price)
                      (p_subscription price) in
    groups ← update key (empty_accumulator, []) (λ '(acc, ids),
               acc ← rec_ acc; Ok (acc, (set_insert (chair_session session) ids).2)) (chair_groups c);
    total ← rec_ (chair_total c);
    Ok (mkChairState groups total (chair_sessions c) (chair_unreads c)).
Fixpoint chair_models (session : ChairSession) (ms : list ChairModelUsage) (c : ChairState) :
    result TelemetryError ChairState :=
  match ms with
  | [] => Ok c
  | m :: ms' => c ← chair_model session m c; chair_models session ms' c
  end.

Definition chair_step (c : ChairState) (session : ChairSession) : result TelemetryError ChairState :=
  let '(fresh, seen) := set_insert (chair_adapter session, chair_account session, chair_session session)
                          (chair_sessions c) in
  if negb fresh then Ok c
  else
    unread ← match chair_unread session with
             | Some reason => update reason 0 (λ n, add n 1) (chair_unreads c)
             | None => Ok (chair_unreads c)
             end;
    chair_models session (chair_model_usage session) (mkChairState (chair_groups c) (chair_total c) seen unread).
Fixpoint chair_fold (c : ChairState) (chairs : list ChairSession) : result TelemetryError ChairState :=
  match chairs with
  | [] => Ok c
  | session :: chairs' => c ← chair_step c session; chair_fold c chairs'
  end.

Definition chair_stats (chairs : list ChairSession) : result TelemetryError (option Chair) :=
  c ← chair_fold (mkChairState [] empty_accumulator [] []) chairs;
  match chairs with
  | [] => Ok None
  | _ =>
      let cache := (λ '((adapter, account, model), (acc, _)), (adapter, account, model, TelemetryRecords.cache acc))
                     <$> chair_groups c in
      out ← collect (λ '((adapter, account, model), (acc, ids)),
              totals ← finish acc;
              Ok (mkChairGroup adapter account model (Z.of_nat (length ids)) (total_usage totals)
                    (total_cache totals) (cost totals))) (chair_groups c);
      totals ← finish (chair_total c);
      let complete := match chair_unreads c with [] => true | _ => false end in
      let cost := cost totals in
      let cost := if complete then cost
                  else mkCost (cost_basis cost) None (known_lower_bound cost) (priced_attempts cost)
                         (missing_attempts cost) (cost_subscription_attempts cost) in
      Ok (Some (mkChairReport
                  (mkChairStats "host_chair_sessions" (Z.of_nat (length (chair_sessions c))) (chair_unreads c)
                     complete (total_usage totals) (total_cache totals) cost out) cache))
  end.

Definition stats_inner (facts : list AttemptFact) (chairs : list ChairSession) (w : Window)
    (context_key : option ContextKey) (external_groups : option ExternalGroups) :
    result TelemetryError StatsReport :=
  if invalid_window w then Err InvalidWindow
  else
    r ← reduce w context_key external_groups no_reduction facts;
    let c := coverage r in
    let coverage := mkCoverage (attempts (total r)) (missing_usage c) (missing_categories c) (missing_price c)
                      (missing_account c) in
    chair ← chair_stats chairs;
    cache ← cache_report (routes r) chair;
    latest ← count_latest [] (latest r);
    routes ← groups mkRouteGroup (routes r);
    let routes := sort_by (λ g, report_key (group_route g)) routes in
    daily ← groups (λ '(day, route) totals, mkDailyGroup day route totals) (daily r);
    let daily := sort_by (λ g, (group_day g, report_key (day_route g))) daily in
    context ← (if is_some context_key || is_some external_groups
               then rows ← groups mkGroup (context_groups r);
                    rows ← reconcile_group_costs rows (numerator <$> (context_groups r).*2);
                    Ok (Some rows)
               else Ok None);
    totals ← finish (total r);
    Ok (mkReport "supervised_terminal_attempts" w (identity prices) totals routes context
          (if detail w then Some daily else None) latest coverage cache
          (c ← chair; Some (chair_report c))).

Definition stats_with_chair (facts : list AttemptFact) (chairs : list ChairSession) (w : Window) :=
  stats_inner facts chairs w None None.
Definition stats (facts : list AttemptFact) (w : Window) := stats_with_chair facts [] w.
Definition stats_by_context (facts : list AttemptFact) (w : Window) (key : ContextKey) :=
  stats_inner facts [] w (Some key) None.
Definition stats_by_external_key (facts : list AttemptFact) (w : Window) (labels : ExternalGroups) :=
  stats_inner facts [] w None (Some labels).

End Report.

(** ** Usage per account *)

Record QuotaRow := mkQuotaRow { lane : Accumulator; chair_row : Accumulator; sessions : Z; unread : Z }.
Definition no_row : QuotaRow := mkQuotaRow empty_accumulator empty_accumulator 0 0.
Definition RowKey : Type := option string * option string * option Id.
Record AccountUsage := mkAccountUsage {
  au_adapter : option string;
  au_account : option string;
  au_project : option Id;
  lane_attempts : Z;
  lane_usage : Categories TokenTotal;
  lane_cache : CacheSummary;
  au_chair_sessions : Z;
  chair_sessions_unread : Z;
  chair_usage : Categories TokenTotal;
  au_chair_cache : CacheSummary;
}.
Record QuotaRows := mkQuotaRows {
  rows : list (RowKey * QuotaRow);
  row_attempts : list Id;
  row_sessions : list (RowKey * string);
}.

Definition quota_fact (w : Window) (q : QuotaRows) (fact : AttemptFact) : result TelemetryError QuotaRows :=
  if negb (includes w fact) then Ok q
  else if MAX_ATTEMPTS <=? Z.of_nat (length (row_attempts q)) then Err (TooLarge "100,000 selected attempts")
  else
    let '(fresh, seen) := set_insert (attempt_id fact) (row_attempts q) in
    if negb fresh then Err (InvalidFact "duplicate attempt ID")
    else
      let route := unwrap_or (resolved_route fact) no_route in
      let key := (provider route, account_label route, Some (project_id fact)) in
      rows ← update key no_row (λ row,
               lane ← record_usage (lane row) (fact_usage fact) (Some (terminal_state fact)) 0 false false;
               Ok (mkQuotaRow lane (chair_row row) (sessions row) (unread row))) (rows q);
      if MAX_GROUPS <? Z.of_nat (length rows) then Err (TooLarge "10,000 groups")
      else Ok (mkQuotaRows rows seen (row_sessions q)).

Fixpoint quota_models (a : Accumulator) (ms : list ChairModelUsage) : result TelemetryError Accumulator :=
  match ms with
  | [] => Ok a
  | m :: ms' => a ← record_usage a (cm_usage m) None 0 false false; quota_models a ms'
  end.
Definition quota_chair (w : Window) (q : QuotaRows) (chair : ChairSession) : result TelemetryError QuotaRows :=
  if is_some_and (window_project w) (λ p, Some p != chair_project chair) then Ok q
  else
    let key := (Some (chair_adapter chair), Some (chair_account chair), chair_project chair) in
    let '(fresh, seen) := set_insert (key, chair_session chair) (row_sessions q) in
    rows ← (if fresh
            then update key no_row (λ row,
                   sessions ← add (sessions row) 1;
                   unread ← add (unread row) (count_of (is_some (chair_unread chair)));
                   chair_row ← quota_models (chair_row row) (chair_model_usage chair);
                   Ok (mkQuotaRow (lane row) chair_row sessions unread)) (rows q)
            else Ok (rows q));
    if MAX_GROUPS <? Z.of_nat (length rows) then Err (TooLarge "10,000 groups")
    else Ok (mkQuotaRows rows (row_attempts q) seen).

Fixpoint quota_facts (w : Window) (q : QuotaRows) (facts : list AttemptFact) : result TelemetryError QuotaRows :=
  match facts with
  | [] => Ok q
  | fact :: facts' => q ← quota_fact w q fact; quota_facts w q facts'
  end.
Fixpoint quota_chairs (w : Window) (q : QuotaRows) (chairs : list ChairSession) : result TelemetryError QuotaRows :=
  match chairs with
  | [] => Ok q
  | chair :: chairs' => q ← quota_chair w q chair; quota_chairs w q chairs'
  end.

Definition quota_usage (facts : list AttemptFact) (chairs : list ChairSession) (w : Window) :
    result TelemetryError (list AccountUsage) :=
  if invalid_window w then Err InvalidWindow
  else
    q ← quota_facts w (mkQuotaRows [] [] []) facts;
    q ← quota_chairs w q chairs;
    Ok ((λ '((adapter, account, project), row),
          mkAccountUsage adapter account project (attempts (lane row)) (usage (lane row))
            (cache_finish (cache (lane row))) (sessions row) (unread row) (usage (chair_row row))
            (cache_finish (cache (chair_row row)))) <$> rows q).

(** ** Price tables *)

Record ConfiguredModel := mkConfigured {
  cfg_provider : string;
  cfg_model : string;
  sources : list string;
  billing : BillingKind;
  zero_rate_verified : bool;
  effective_from : option string;
  effective_to : option string;
  openrouter_id : option string;
  litellm_id : option string;
  rates : Rates;
}.
Record ConfiguredPrices := mkConfiguredPrices {
  schema_version : Z;
  cfg_id : string;
  reviewed_at : string;
  units : string;
  max_review_age_days : option Z;
  discrepancy_threshold_bps : option Z;
  cfg_models : list ConfiguredModel;
}.

Section Prices.
  (** Civil dates of [jiff]: parsing, printing and order. *)
  Context {Date : Type} (parse_date : string → option Date) (date_text : Date → string) (after : Date → Date → bool).

Definition plain_date (text : string) : option Date :=
  d ← parse_date text;
  if date_text d == text then Some d else None.
Definition effective_date (value : option string) : result PriceError (option Date) :=
  match value with
  | None => Ok None
  | Some text => d ← ok_or (plain_date text) (InvalidTable "effective_date" "effective date"); Ok (Some d)
  end.

Definition validate_model (m : ConfiguredModel) (models : list ((string * string) * (Rates * BillingKind))) :
    result PriceError (list ((string * string) * (Rates * BillingKind))) :=
  if is_blank (cfg_provider m) || is_blank (cfg_model m) || (match sources m with [] => true | _ => false end)
     || existsb is_blank (sources m)
  then Err (InvalidTable "model_identity" "model identity or source references")
  else if bool_decide (Some 0 ∈ rate_values (rates m)) && negb (zero_rate_verified m)
  then Err (InvalidTable "unverified_zero_rate" "zero rate requires explicit verification")
  else if bool_decide (billing m = Free) && negb (bool_decide (rate_values (rates m) = replicate 4 (Some 0)))
  then Err (InvalidTable "invalid_free_rates" "free billing requires four verified zero rates")
  else
    from ← effective_date (effective_from m);
    to ← effective_date (effective_to m);
    if match from, to with Some from, Some to => after from to | _, _ => false end
    then Err (InvalidTable "effective_range" "effective_from after effective_to")
    else
      let key := (cfg_provider m, cfg_model m) in
      if is_some (get key models) then Err (InvalidTable "duplicate_model" "duplicate provider/model")
      else Ok (put key (rates m, billing m) models).
Fixpoint validate_models (ms : list ConfiguredModel) (models : list ((string * string) * (Rates * BillingKind))) :
    result PriceError (list ((string * string) * (Rates * BillingKind))) :=
  match ms with
  | [] => Ok models
  | m :: ms' => models ← validate_model m models; validate_models ms' models
  end.

Definition validate_prices (c : ConfiguredPrices) : result PriceError PriceTable :=
  if schema_version c != 1 then Err (UnsupportedVersion (schema_version c))
  else if units c != "usd_microdollars_per_million_tokens" then Err (InvalidTable "units" "units")
  else if is_blank (cfg_id c) || is_none (plain_date (reviewed_at c))
  then Err (InvalidTable "identity" "identity or review date")
  else
    models ← validate_models (cfg_models c) [];
    Ok (mkPriceTable (mkIdentity (cfg_id c) (reviewed_at c)) (max_review_age_days c) models).

End Prices.
