(* ===== verification/TelemetryTotals.v ===== *)
(** * TelemetryTotals: reports account for every attempt

    The columns of a report's rows add up to its totals, and the totals to the
    selected facts; attributing attempts to groups loses neither tokens nor
    money; cache shares are exact; a cost is exact unless it says otherwise. *)

From Stdlib Require Import Ascii.
From stdpp Require Import base option list strings sets numbers.
From S2P Require Import Prelude CoreIds TelemetryRecords TelemetryCosts TelemetryStats.

Local Open Scope string_scope.
Local Open Scope list_scope.
Local Open Scope Z_scope.
Local Open Scope rust_scope.

(** ** Columns *)

Inductive Category := UncachedInput | CacheRead | CacheWrite | OutputExcludingReasoning | ReasoningTokens.
Definition at_category {T} (c : Category) (cs : Categories T) : T :=
  match c with
  | UncachedInput => uncached_input cs
  | CacheRead => cache_read cs
  | CacheWrite => cache_write cs
  | OutputExcludingReasoning => output_excluding_reasoning cs
  | ReasoningTokens => reasoning cs
  end.
Definition usage_at (c : Category) (u : Usage) : option Z :=
  match c with
  | UncachedInput => u_uncached_input u
  | CacheRead => u_cache_read u
  | CacheWrite => u_cache_write u
  | OutputExcludingReasoning => u_output_excluding_reasoning u
  | ReasoningTokens => u_reasoning u
  end.

Inductive Column :=
| Attempts | Known (c : Category) | Missing (c : Category)
| CacheReporting | CacheMissing | CacheInput | CacheReadTokens | CacheWriteTokens | CacheWrite1h
| MissingCost | Subscriptions | OutcomeCount (o : AttemptOutcome).

Definition outcome_count (o : AttemptOutcome) (m : list (AttemptOutcome * Z)) : Z :=
  msum (λ o' n, if o' == o then n else 0) m.
Definition cache_column (col : Column) (c : CacheSummary) : Z :=
  match col with
  | CacheReporting => reporting c
  | CacheMissing => cache_missing c
  | CacheInput => input_tokens c
  | CacheReadTokens => read_tokens c
  | CacheWriteTokens => write_tokens c
  | CacheWrite1h => write_1h_tokens c
  | _ => 0
  end.
(** A column of a running total, and of a finished one. *)
Definition column (col : Column) (a : Accumulator) : Z :=
  match col with
  | Attempts => attempts a
  | Known c => known (at_category c (usage a))
  | Missing c => missing (at_category c (usage a))
  | MissingCost => missing_cost a
  | Subscriptions => subscription_attempts a
  | OutcomeCount o => outcome_count o (outcomes a)
  | col => cache_column col (cache a)
  end.
Definition total_column (col : Column) (t : Totals) : Z :=
  match col with
  | Attempts => total_attempts t
  | Known c => known (at_category c (total_usage t))
  | Missing c => missing (at_category c (total_usage t))
  | MissingCost => missing_attempts (cost t)
  | Subscriptions => cost_subscription_attempts (cost t)
  | OutcomeCount o => outcome_count o (total_outcomes t)
  | col => cache_column col (total_cache t)
  end.
(** What one usage record adds to a column. *)
Definition contribution (col : Column) (u : Usage) (outcome : option AttemptOutcome) (missing subscription : bool) : Z :=
  let reports := is_some (u_cache_read u) in
  let read := unwrap_or (u_cache_read u) 0 in
  let write := unwrap_or (u_cache_write u) 0 in
  match col with
  | Attempts => 1
  | Known c => unwrap_or (usage_at c u) 0
  | Missing c => count_of (is_none (usage_at c u))
  | CacheReporting => count_of reports
  | CacheMissing => count_of (negb reports)
  | CacheInput => if reports then unwrap_or (u_uncached_input u) 0 + read + write else 0
  | CacheReadTokens => read
  | CacheWriteTokens => if reports then write else 0
  | CacheWrite1h => if reports then unwrap_or (u_cache_write_1h u) 0 else 0
  | MissingCost => count_of missing
  | Subscriptions => count_of subscription
  | OutcomeCount o => count_of (bool_decide (outcome = Some o))
  end.

Lemma tokens_add_Ok a b c : add a b = Ok c → c = a + b.
Proof.
  unfold add, checked_add_u64. destruct (in_u64 (a + b)); [|done]. by intros [= <-].
Qed.
Lemma checked_add_u128_Ok a b c : checked_add_u128 a b = Ok c → c = a + b ∧ c ≤ u128_max.
Proof. unfold checked_add_u128. destruct (Z.leb_spec (a + b) u128_max); [|done]. by intros [= <-]. Qed.

Ltac adds := repeat match goal with H : add _ _ = Ok _ |- _ => apply tokens_add_Ok in H; subst end.

Lemma record_count_Ok t n t' :
  record_count t n = Ok t' → known t' = known t + unwrap_or n 0 ∧ missing t' = missing t + count_of (is_none n).
Proof. destruct n; simpl; intros H; ok_inv; adds; simpl; lia. Qed.
Lemma record_counts_Ok c u c' k :
  record_counts c u = Ok c' →
  known (at_category k c') = known (at_category k c) + unwrap_or (usage_at k u) 0 ∧
  missing (at_category k c') = missing (at_category k c) + count_of (is_none (usage_at k u)).
Proof. unfold record_counts. intros H. ok_inv. destruct k; simpl; by apply record_count_Ok. Qed.
Lemma cache_record_Ok c u c' col :
  cache_record c u = Ok c' →
  match col with
  | CacheReporting | CacheMissing | CacheInput | CacheReadTokens | CacheWriteTokens | CacheWrite1h =>
      cache_column col c' = cache_column col c + contribution col u None false false
  | _ => True
  end.
Proof.
  unfold cache_record. intros H. destruct (u_cache_read u) eqn:Hr; simpl in *; ok_inv; adds;
    destruct col; simpl; try done; rewrite ?Hr; simpl; lia.
Qed.
Lemma outcome_count_update o o' m m' :
  update o' 0 (λ n, add n 1) m = Ok m' → outcome_count o m' = outcome_count o m + count_of (bool_decide (o' = o)).
Proof.
  unfold outcome_count. intros H.
  apply (update_sum (λ o' n, if o' == o then n else 0) (count_of (bool_decide (o' = o)))) in H; [done|by case_bool_decide|].
  intros v v' Hv. adds. case_bool_decide; simpl; lia.
Qed.

Lemma record_usage_Ok a u o num ms sub a' :
  record_usage a u o num ms sub = Ok a' →
  (∀ col, column col a' = column col a + contribution col u o ms sub) ∧
  numerator a' = numerator a + num ∧ numerator a' ≤ u128_max.
Proof.
  unfold record_usage. intros H. ok_inv.
  repeat match goal with H : checked_add_u128 _ _ = Ok _ |- _ => apply checked_add_u128_Ok in H as [-> ?] end.
  adds. split; [|simpl; lia]. intros col.
  match goal with H : record_counts _ _ = Ok _, H' : cache_record _ _ = Ok _ |- _ =>
    pose proof (λ k, record_counts_Ok _ _ _ k H) as Hcounts; pose proof (cache_record_Ok _ _ _ col H') as Hcache end.
  destruct col; simpl in *; try done; try apply Hcounts.
  destruct o as [o|]; simpl in *; ok_inv.
  - erewrite outcome_count_update by done. f_equal. f_equal. by apply bool_decide_ext; naive_solver.
  - unfold count_of. simpl. lia.
Qed.

Lemma finish_column a t col : finish a = Ok t → total_column col t = column col a.
Proof. unfold finish. intros H. ok_inv. by destruct col. Qed.
Lemma empty_column col : column col empty_accumulator = 0.
Proof. by destruct col as [|[]|[]| | | | | | | | |]. Qed.

(** ** Sums over the groups *)

Abbreviation sum_column col := (msum (λ _, column col)) (only parsing).
Abbreviation sum_numerator := (msum (λ _, numerator)) (only parsing).

Lemma group_update_Ok {K} `{Ord K} b (m : list (K * Accumulator)) key bytes f b' m' (φ : Accumulator → Z) x :
  φ empty_accumulator = 0 → (∀ a a', f a = Ok a' → φ a' = φ a + x) →
  group_update b m key bytes f = Ok (b', m') → msum (λ _, φ) m' = msum (λ _, φ) m + x.
Proof.
  intros H0 Hf Hg. unfold group_update in Hg. ok_inv. simplify_eq. by eapply (update_sum (λ _, φ)).
Qed.

Section Accounts.
  Context (utc_day : Z → string) (prices : PriceTable).

(** The price of a fact's usage under the route it resolved to. *)
Definition fact_price (fact : AttemptFact) : Priced :=
  let key := unwrap_or (resolved_route fact) no_route in
  match priced (fact_usage fact) (provider key) (model key) prices with
  | Ok price => price
  | Err _ => mkPriced 0 false false false []
  end.
Definition fact_contribution (col : Column) (fact : AttemptFact) : Z :=
  contribution col (fact_usage fact) (Some (terminal_state fact)) (p_missing_cost (fact_price fact))
    (p_subscription (fact_price fact)).
Definition selected (w : Window) (facts : list AttemptFact) : list AttemptFact := List.filter (includes w) facts.

(** What a step of the reduction adds. *)
Record step_adds (w : Window) (fact : AttemptFact) (r r' : Reduction) : Prop := {
  s_fresh : attempt_id fact ∉ seen_attempts r;
  s_seen : seen_attempts r' = attempt_id fact :: seen_attempts r;
  s_total col : column col (total r') = column col (total r) + fact_contribution col fact;
  s_routes col : sum_column col (routes r') = sum_column col (routes r) + fact_contribution col fact;
  s_daily col : sum_column col (daily r') =
    sum_column col (daily r) + (if detail w then fact_contribution col fact else 0);
  s_numerator : numerator (total r') = numerator (total r) + p_numerator (fact_price fact);
}.

Lemma set_insert_fresh {A} `{EqDecision A} (x : A) s s' : set_insert x s = (true, s') → (x ∉ s) ∧ s' = x :: s.
Proof. unfold set_insert. case_bool_decide; [done|]. by intros [= <-]. Qed.

Lemma reduce_fact_adds w k e r fact r' :
  reduce_fact utc_day prices w k e r fact = Ok r' → includes w fact = true → step_adds w fact r r'.
Proof.
  unfold reduce_fact. intros H Hi. rewrite Hi in H. cbn [negb] in H.
  destruct (MAX_ATTEMPTS <=? _); [done|]. destruct (_ || _ || _); [done|].
  destruct (set_insert (attempt_id fact) (seen_attempts r)) as [fresh seen] eqn:Hs.
  destruct (set_insert (project_id fact, task_id fact, attempt_number fact) (numbers r)) as [fn nums] eqn:Hn.
  destruct fresh; [|done]. destruct fn; [|done]. cbn [negb orb] in H. apply set_insert_fresh in Hs as [Hs1 Hs2].
  cbv zeta in H. destruct (existsb is_blank _); [done|].
  apply result_bind_Ok in H as (price & Hp & H). apply result_bind_Ok in H as (cov & _ & H).
  assert (fact_price fact = price) as Hprice by (unfold fact_price; cbv zeta; by rewrite Hp).
  destruct (is_some_and _ _); [done|]. apply result_bind_Ok in H as ([b1 cg] & _ & H).
  apply result_bind_Ok in H as ([b2 rs] & Hr & H). apply result_bind_Ok in H as ([b3 ds] & Hd & H).
  apply result_bind_Ok in H as (t & Ht & H). injection H as <-.
  assert (∀ a a', record a fact (p_numerator price) (p_missing_cost price) (p_subscription price) = Ok a' →
    (∀ col, column col a' = column col a + fact_contribution col fact) ∧
    numerator a' = numerator a + p_numerator (fact_price fact)) as Hrec.
  { unfold record, fact_contribution. intros a a' (? & ? & ?)%record_usage_Ok. by rewrite Hprice. }
  split; simpl; [done|done|by apply Hrec| | |by apply Hrec].
  - intros col. eapply group_update_Ok; [apply empty_column| |exact Hr]. intros a a' Ha. by apply Hrec.
  - intros col. destruct (detail w); [|injection Hd as <- <-; lia].
    eapply group_update_Ok; [apply empty_column| |exact Hd]. intros a a' Ha. by apply Hrec.
Qed.

Record accounts (w : Window) (done : list AttemptFact) (r : Reduction) : Prop := {
  a_once : NoDup (attempt_id <$> done);
  a_seen id : id ∈ seen_attempts r ↔ id ∈ attempt_id <$> done;
  a_total col : column col (total r) = zsum (fact_contribution col <$> done);
  a_routes col : sum_column col (routes r) = zsum (fact_contribution col <$> done);
  a_daily col : detail w = true → sum_column col (daily r) = zsum (fact_contribution col <$> done);
  a_numerator : numerator (total r) = zsum ((λ f, p_numerator (fact_price f)) <$> done);
}.

Lemma accounts_step w done fact r r' : accounts w done r → step_adds w fact r r' → accounts w (done ++ [fact]) r'.
Proof.
  intros [H1 H2 H3 H4 H5 H6] [S1 S2 S3 S4 S5 S6]. split; rewrite ?fmap_app.
  - apply list.NoDup_app. split_and!; [done| |apply NoDup_singleton]. intros x Hx Hy.
    apply list_elem_of_singleton in Hy as ->. by apply S1, H2.
  - intros id. rewrite S2, elem_of_cons, elem_of_app, H2. simpl. rewrite list_elem_of_singleton. naive_solver.
  - intros col. rewrite fmap_app, zsum_app, S3, H3. simpl. lia.
  - intros col. rewrite fmap_app, zsum_app, S4, H4. simpl. lia.
  - intros col Hd. rewrite fmap_app, zsum_app, S5, H5, Hd by done. simpl. lia.
  - rewrite zsum_app, S6, H6. simpl. lia.
Qed.

Lemma reduce_accounts w k e facts r r' done :
  accounts w done r → reduce utc_day prices w k e r facts = Ok r' → accounts w (done ++ selected w facts) r'.
Proof.
  revert r done. induction facts as [|fact facts IH]; intros r done Ha; simpl.
  { intros [= <-]. by rewrite app_nil_r. }
  intros H. apply result_bind_Ok in H as (r1 & Hr1 & H). destruct (includes w fact) eqn:Hi.
  - change (fact :: selected w facts) with ([fact] ++ selected w facts). rewrite app_assoc. eapply IH; [|exact H].
    eapply accounts_step; [done|]. by eapply reduce_fact_adds.
  - eapply IH; [|exact H]. unfold reduce_fact in Hr1. rewrite Hi in Hr1. by injection Hr1 as <-.
Qed.
Lemma no_reduction_accounts w : accounts w [] no_reduction.
Proof.
  split; simpl; try done; [constructor|apply empty_column].
Qed.

(** ** Rows of the report *)

Lemma groups_sum {K G} (mk : K → Totals → G) (get_totals : G → Totals) keyed rows col :
  (∀ k t, get_totals (mk k t) = t) → groups mk keyed = Ok rows →
  zsum ((λ g, total_column col (get_totals g)) <$> rows) = sum_column col keyed.
Proof.
  intros Hmk. unfold groups. revert rows. induction keyed as [|[k a] keyed IH]; intros rows; simpl; [by intros [= <-]|].
  intros H. ok_inv. simpl. rewrite Hmk. erewrite finish_column by done. f_equal. by apply IH.
Qed.

Lemma insert_by_key_perm {A K} `{Ord K} (key : A → K) x l : insert_by key x l ≡ₚ x :: l.
Proof. induction l as [|y l IH]; simpl; [done|]. destruct (cmp _ _); [done..|]. rewrite IH. constructor. Qed.
Lemma sort_by_perm {A K} `{Ord K} (key : A → K) l : sort_by key l ≡ₚ l.
Proof. unfold sort_by. induction l as [|x l IH]; simpl; [done|]. by rewrite insert_by_key_perm, IH. Qed.
Lemma zsum_perm l l' : l ≡ₚ l' → zsum l = zsum l'.
Proof. induction 1; simpl; lia. Qed.

(** A successful report, taken apart. *)
Lemma stats_inner_Ok facts chairs w k e report :
  stats_inner utc_day prices facts chairs w k e = Ok report →
  ∃ r, reduce utc_day prices w k e no_reduction facts = Ok r ∧ accounts w (selected w facts) r ∧
    finish (total r) = Ok (report_totals report) ∧
    (∃ rows, groups mkRouteGroup (routes r) = Ok rows ∧ report_routes report ≡ₚ rows) ∧
    (∃ rows, groups (λ '(day, route) totals, mkDailyGroup day route totals) (daily r) = Ok rows ∧
       ∀ days, daily_accounts report = Some days → detail w = true ∧ days ≡ₚ rows) ∧
    selected_attempts (report_coverage report) = attempts (total r) ∧
    (∀ rows, report_context_groups report = Some rows →
       ∃ gs, groups mkGroup (context_groups r) = Ok gs ∧
         reconcile_group_costs gs (numerator <$> (context_groups r).*2) = Ok rows).
Proof.
  unfold stats_inner. destruct (invalid_window w); [done|]. intros H.
  apply result_bind_Ok in H as (r & Hr & H). cbv zeta in H. apply result_bind_Ok in H as (chair & _ & H).
  apply result_bind_Ok in H as (cache & _ & H). apply result_bind_Ok in H as (lat & _ & H).
  apply result_bind_Ok in H as (rs & Hrs & H). apply result_bind_Ok in H as (ds & Hds & H).
  apply result_bind_Ok in H as (ctx & Hctx & H). apply result_bind_Ok in H as (t & Ht & H). injection H as <-.
  exists r. split_and!; simpl; [done| |done|exists rs; by rewrite sort_by_perm| |done|].
  - apply (reduce_accounts w k e facts no_reduction r []); [apply no_reduction_accounts|done].
  - exists ds. split; [done|]. intros days. destruct (detail w); [|done]. intros [= <-]. by rewrite sort_by_perm.
  - intros rows Hrows. destruct (_ || _); [|ok_inv; done]. apply result_bind_Ok in Hctx as (gs & Hgs & Hctx).
    apply result_bind_Ok in Hctx as (gs' & Hgs' & Hctx). injection Hctx as <-. simplify_eq. eauto.
Qed.

(** a report counts every selected attempt once.  When a report is
    produced, the selected attempts have distinct identifiers; each column of
    its totals (attempts, tokens known and missing per category, cache counts,
    missing costs, outcomes) is the sum over the selected attempts of what the
    attempt reported; and the rows by route, and by day when asked for, add up
    to the same totals. *)
Theorem report_counts_every_attempt facts chairs w k e report :
  stats_inner utc_day prices facts chairs w k e = Ok report →
  NoDup (attempt_id <$> selected w facts) ∧
  selected_attempts (report_coverage report) = Z.of_nat (length (selected w facts)) ∧
  ∀ col, let t := total_column col (report_totals report) in
    t = zsum (fact_contribution col <$> selected w facts) ∧
    t = zsum ((λ g, total_column col (group_totals g)) <$> report_routes report) ∧
    ∀ days, daily_accounts report = Some days → t = zsum ((λ g, total_column col (day_totals g)) <$> days).
Proof.
  intros (r & _ & Ha & Ht & (rs & Hrs & Hrp) & (ds & Hds & Hdp) & Hcov & _)%stats_inner_Ok.
  split; [apply Ha|]. split.
  { rewrite Hcov. change (attempts (total r)) with (column Attempts (total r)). rewrite (a_total _ _ _ Ha).
    generalize (selected w facts). intros l. induction l as [|f l IH]; [done|].
    rewrite fmap_cons. cbn [zsum length]. rewrite IH. change (fact_contribution Attempts f) with 1. lia. }
  intros col t. subst t. rewrite (finish_column _ _ col Ht), (a_total _ _ _ Ha). split; [done|]. split.
  - rewrite (zsum_perm _ _ (fmap_Permutation _ _ _ Hrp)).
    rewrite (groups_sum mkRouteGroup group_totals _ _ col (λ _ _, eq_refl) Hrs). by rewrite (a_routes _ _ _ Ha).
  - intros days Hdays. destruct (Hdp days Hdays) as [Hd Hp]. rewrite (zsum_perm _ _ (fmap_Permutation _ _ _ Hp)).
    assert (∀ (k : string * RouteFact) t, day_totals ((λ '(day, route) totals, mkDailyGroup day route totals) k t) = t)
      as Hmk by by intros [].
    by rewrite (groups_sum _ day_totals _ _ col Hmk Hds), (a_daily _ _ _ Ha).
Qed.

(** ** Attributed attempts *)

(** A measure of a running total to which every record adds its part. *)
Record additive (φ : Accumulator → Z) (part : Usage → Z → Z) : Prop := {
  add_empty : φ empty_accumulator = 0;
  add_record a u o num ms sub a' : record_usage a u o num ms sub = Ok a' → φ a' = φ a + part u num;
}.
Definition known_part (c : Category) (u : Usage) (_ : Z) : Z := unwrap_or (usage_at c u) 0.
Lemma known_additive c : additive (column (Known c)) (known_part c).
Proof. split; [apply empty_column|]. by intros a u o num ms sub a' (-> & _)%record_usage_Ok. Qed.
Lemma numerator_additive : additive numerator (λ _ num, num).
Proof. split; [done|]. by intros a u o num ms sub a' (_ & -> & _)%record_usage_Ok. Qed.

Definition distributed_at (c : Category) (d : Distributed) : list (option Z) :=
  match c with
  | UncachedInput => d_uncached d
  | CacheRead => d_read d
  | CacheWrite => d_write d
  | OutputExcludingReasoning => d_output d
  | ReasoningTokens => d_reasoning d
  end.
Lemma share_at_Some d i u num :
  share_at d i = Some (u, num) → (∀ c, distributed_at c d !! i = Some (usage_at c u)) ∧ d_numerators d !! i = Some num.
Proof.
  unfold share_at. intros H.
  repeat match goal with H : mbind _ _ = Some _ |- _ => apply bind_Some in H as (? & ? & H) end.
  injection H as <- <-. split; [|done]. by intros [].
Qed.

Lemma record_values_adds φ part ck fact price d parts index values b g b' g' :
  additive φ part → Forall (λ e, is_some e.2 = true) values →
  (∀ i u num, share_at d i = Some (u, num) → parts !! i = Some (part u num)) →
  record_values ck fact price (Some d) index values b g = Ok (b', g') →
  msum (λ _, φ) g' = msum (λ _, φ) g + zsum (take (length values) (drop index parts)).
Proof.
  intros Hφ Hv Hparts. revert index b g. induction Hv as [|[v weight] values Hw Hv IH]; intros index b g; simpl.
  { intros [= <- <-]. lia. }
  destruct (is_some_and _ _); [done|]. cbv zeta. intros H. apply result_bind_Ok in H as ([b1 g1] & Hg & H).
  apply IH in H. simpl in Hw. destruct weight as [weight|]; [|done].
  destruct (share_at d index) as [[u num]|] eqn:Hs.
  - rewrite (drop_S _ _ _ (Hparts _ _ _ Hs)). simpl. rewrite H.
    assert (msum (λ _, φ) g1 = msum (λ _, φ) g + part u num) as ->; [|lia].
    eapply group_update_Ok; [apply Hφ| |exact Hg]. intros a a' Ha. unfold record_weighted in Ha. by apply Hφ in Ha.
  - exfalso. unfold group_update in Hg. apply result_bind_Ok in Hg as (b2 & _ & Hg).
    apply result_bind_Ok in Hg as (m2 & Hm & _). unfold update in Hm. by apply result_bind_Ok in Hm as (v2 & Hv2 & _).
Qed.

Lemma distribute_Ok ws v l :
  Forall (λ w, 0 < w) ws → zsum ws = MILLION → distribute ws v = Ok l →
  zsum ((λ o, unwrap_or o 0) <$> l) = unwrap_or v 0 ∧ length l = length ws.
Proof.
  intros Hws Hsum. unfold distribute. destruct v as [n|]; intros H.
  - apply result_bind_Ok in H as (parts & Hp & H). injection H as <-.
    destruct (weighted_parts_inv try_u64 n ws parts) as [Hs Hl]; try done.
    { unfold try_u64. intros a b. case_match; [|done]. by intros [= <-]. }
    rewrite length_map. split; [|done]. cbn [unwrap_or]. rewrite <-Hs.
    clear. induction parts as [|p ps IH]; [done|]. cbn [List.map]. rewrite fmap_cons. cbn [zsum]. by rewrite IH.
  - injection H as <-. rewrite length_replicate. split; [|done]. cbn [unwrap_or]. generalize (length ws). intros n.
    induction n as [|n IH]; [done|]. cbn [replicate]. rewrite fmap_cons. cbn [zsum]. by rewrite IH.
Qed.
Lemma distribute_all_Ok ws u num d :
  Forall (λ w, 0 < w) ws → zsum ws = MILLION → distribute_all ws u num = Ok d →
  (∀ c, zsum ((λ o, unwrap_or o 0) <$> distributed_at c d) = unwrap_or (usage_at c u) 0 ∧
        length (distributed_at c d) = length ws) ∧
  zsum (d_numerators d) = num ∧ length (d_numerators d) = length ws.
Proof.
  intros Hws Hsum H. unfold distribute_all in H.
  repeat match goal with H : mbind _ _ = Ok _ |- _ => apply result_bind_Ok in H as (? & ? & H) end.
  injection H as <-. split; [intros []; by apply distribute_Ok|]. simpl.
  eapply (weighted_parts_inv try_u128); try done.
  unfold try_u128. intros a b. case_match; [|done]. by intros [= <-].
Qed.

(** The values a fact is recorded under: one without a weight, or weights
    that make up the whole. *)
Definition whole (values : list (option string * option Z)) : Prop :=
  (∃ v, values = [(v, None)]) ∨
  ∃ ws, values.*2 = Some <$> ws ∧ Forall (λ w, 0 < w) ws ∧ zsum ws = MILLION.

Lemma weights_of (values : list (option string * option Z)) ws :
  values.*2 = Some <$> ws →
  forallb (λ '(_, weight), is_some weight) values = true ∧ omap snd values = ws ∧
  Forall (λ e, is_some e.2 = true) values ∧ length ws = length values.
Proof.
  revert ws. induction values as [|[v weight] values IH]; intros [|w ws] H; try done.
  rewrite !fmap_cons in H. injection H as -> (H1 & H2 & H3 & H4)%IH. simpl. split_and!; [done| | |lia].
  - f_equal. exact H2.
  - by constructor.
Qed.

Lemma record_groups_adds φ part ck fact price values b g b' g' :
  additive φ part → whole values →
  (∀ ws d, distribute_all ws (fact_usage fact) (p_numerator price) = Ok d →
     Forall (λ w, 0 < w) ws → zsum ws = MILLION →
     ∃ parts, (∀ i u num, share_at d i = Some (u, num) → parts !! i = Some (part u num)) ∧
       length parts = length ws ∧ zsum parts = part (fact_usage fact) (p_numerator price)) →
  record_groups ck fact price values b g = Ok (b', g') →
  msum (λ _, φ) g' = msum (λ _, φ) g + part (fact_usage fact) (p_numerator price).
Proof.
  intros Hφ [[v ->]|(ws & Hws & Hpos & Hsum)] Hd H; unfold record_groups in H.
  - cbn [forallb is_some andb negb omap list_omap] in H. simpl in H. destruct (is_some_and _ _); [done|].
    apply result_bind_Ok in H as ([b1 g1] & Hg & H). injection H as <- <-.
    eapply group_update_Ok; [apply Hφ| |exact Hg]. intros a a' Ha. by apply Hφ in Ha.
  - destruct (weights_of _ _ Hws) as (Hall & Homap & Hf & Hlen). cbv zeta in H. rewrite Hall, Homap in H.
    apply result_bind_Ok in H as (od & Hod & H). apply result_bind_Ok in Hod as (d & Hdd & Hod). injection Hod as <-.
    destruct (Hd _ _ Hdd Hpos Hsum) as (parts & Hparts & Hl & Hs).
    rewrite (record_values_adds φ part _ _ _ _ parts _ _ _ _ _ _ Hφ Hf Hparts H). rewrite drop_0, firstn_all2 by lia.
    by rewrite Hs.
Qed.

(** A fact has a place among the groups: a dimension is asked for, or the
    external read has an entry for it (an entry without labels is a row too). *)
Definition joined (k : option ContextKey) (e : option ExternalGroups) (fact : AttemptFact) : bool :=
  is_some k || is_some (labels ← e; get (attempt_id fact) labels).
(** The weights of an external read are unsigned. *)
Definition weights_unsigned (e : option ExternalGroups) : Prop :=
  ∀ labels i values, e = Some labels → get i labels = Some values →
  ∀ v w, v ∈ values → weight_millionths v = Some w → 0 ≤ w.

Lemma joined_whole k e fact key :
  weights_unsigned e →
  if joined k e fact then ∃ values, values_of k e fact key = Some values ∧ whole values
  else values_of k e fact key = None.
Proof.
  intros He. unfold joined, values_of.
  destruct k as [k|]; [destruct k; (eexists; split; [done|left; by eexists])|]. cbn [is_some orb].
  destruct e as [labels|]; [|done]. cbn [mbind option_bind].
  destruct (get (attempt_id fact) labels) as [values|] eqn:Hg; [|done]. exists (group_values values). split; [done|].
  destruct (group_values_sum values (He _ _ _ eq_refl Hg)) as [->|(ws & H1 & H2 & H3)]; [left; by eexists|right; by exists ws].
Qed.

Lemma reduce_fact_attributes φ part w k e r fact r' :
  additive φ part →
  (∀ u num ws d, distribute_all ws u num = Ok d → Forall (λ w, 0 < w) ws → zsum ws = MILLION →
     ∃ parts, (∀ i u num, share_at d i = Some (u, num) → parts !! i = Some (part u num)) ∧
       length parts = length ws ∧ zsum parts = part u num) →
  weights_unsigned e → includes w fact = true → reduce_fact utc_day prices w k e r fact = Ok r' →
  msum (λ _, φ) (context_groups r') = msum (λ _, φ) (context_groups r) +
    (if joined k e fact then part (fact_usage fact) (p_numerator (fact_price fact)) else 0).
Proof.
  intros Hφ Hd He Hi H. unfold reduce_fact in H. rewrite Hi in H. cbn [negb] in H.
  destruct (MAX_ATTEMPTS <=? _); [done|]. destruct (_ || _ || _); [done|].
  destruct (set_insert (attempt_id fact) _) as [fresh seen]. destruct (set_insert _ (numbers r)) as [fn nums].
  destruct (negb fresh || negb fn); [done|]. cbv zeta in H. destruct (existsb is_blank _); [done|].
  apply result_bind_Ok in H as (price & Hp & H). apply result_bind_Ok in H as (cov & _ & H).
  assert (fact_price fact = price) as -> by (unfold fact_price; cbv zeta; by rewrite Hp).
  destruct (is_some_and _ _); [done|]. apply result_bind_Ok in H as ([b1 cg] & Hc & H).
  pose proof (joined_whole k e fact (unwrap_or (resolved_route fact) no_route) He) as Hj.
  apply result_bind_Ok in H as ([b2 rs] & _ & H). apply result_bind_Ok in H as ([b3 ds] & _ & H).
  apply result_bind_Ok in H as (t & _ & H). injection H as <-. simpl. destruct (joined k e fact).
  - destruct Hj as (values & Hv & Hwhole). rewrite Hv in Hc.
    eapply record_groups_adds; [done..| |exact Hc]. intros ws d. apply Hd.
  - rewrite Hj in Hc. injection Hc as _ <-. lia.
Qed.

Lemma reduce_attributes φ part w k e facts r r' :
  additive φ part →
  (∀ u num ws d, distribute_all ws u num = Ok d → Forall (λ w, 0 < w) ws → zsum ws = MILLION →
     ∃ parts, (∀ i u num, share_at d i = Some (u, num) → parts !! i = Some (part u num)) ∧
       length parts = length ws ∧ zsum parts = part u num) →
  weights_unsigned e → reduce utc_day prices w k e r facts = Ok r' →
  msum (λ _, φ) (context_groups r') = msum (λ _, φ) (context_groups r) +
    zsum ((λ f, part (fact_usage f) (p_numerator (fact_price f))) <$> List.filter (joined k e) (selected w facts)).
Proof.
  intros Hφ Hd He. revert r. induction facts as [|fact facts IH]; intros r; simpl; [intros [= <-]; lia|].
  intros H. apply result_bind_Ok in H as (r1 & Hr1 & H). rewrite (IH r1 H). destruct (includes w fact) eqn:Hi.
  - rewrite (reduce_fact_attributes φ part w k e r fact r1 Hφ Hd He Hi Hr1). simpl.
    destruct (joined k e fact); rewrite ?fmap_cons; cbn [zsum]; lia.
  - unfold reduce_fact in Hr1. rewrite Hi in Hr1. injection Hr1 as <-. lia.
Qed.

Lemma known_parts c u num ws d :
  distribute_all ws u num = Ok d → Forall (λ w, 0 < w) ws → zsum ws = MILLION →
  ∃ parts, (∀ i u num, share_at d i = Some (u, num) → parts !! i = Some (known_part c u num)) ∧
    length parts = length ws ∧ zsum parts = known_part c u num.
Proof.
  intros Hd Hp Hs. destruct (distribute_all_Ok _ _ _ _ Hp Hs Hd) as [Hc _]. destruct (Hc c) as [Hsum Hlen].
  exists ((λ o, unwrap_or o 0) <$> distributed_at c d). split_and!; [|by rewrite length_fmap|done].
  intros i u' num' [Hat _]%share_at_Some. by rewrite list_lookup_fmap, Hat.
Qed.
Lemma numerator_parts u num ws d :
  distribute_all ws u num = Ok d → Forall (λ w, 0 < w) ws → zsum ws = MILLION →
  ∃ parts, (∀ i (u : Usage) num, share_at d i = Some (u, num) → parts !! i = Some num) ∧
    length parts = length ws ∧ zsum parts = num.
Proof.
  intros Hd Hp Hs. destruct (distribute_all_Ok _ _ _ _ Hp Hs Hd) as (_ & Hsum & Hlen).
  exists (d_numerators d). split_and!; [|done..]. by intros i u' num' [_ ?]%share_at_Some.
Qed.

(** ** Reconciling touches nothing but money *)

(** A row without its money. *)
Definition bare (g : ContextGroup) : ContextGroup := set_cost g None None.
Abbreviation row_usage := (λ g : ContextGroup, total_usage (totals g)) (only parsing).
Lemma adjust_keeps g delta g' : adjust_group_money g delta = Ok g' → bare g' = bare g.
Proof. unfold adjust_group_money. intros H. by ok_inv. Qed.
Lemma floor_rows_keeps i gs ns assigned cs gs' assigned' cs' :
  floor_rows i gs ns assigned cs = Ok (gs', assigned', cs') → bare <$> gs' = bare <$> gs.
Proof.
  revert i ns assigned cs gs' assigned' cs'. induction gs as [|g gs IH]; intros i [|n ns] assigned cs gs' assigned' cs';
    simpl; try (by intros [= <- _ _]).
  destruct (known_lower_bound (cost (totals g))) as [m|]; intros H.
  - destruct (i128_max <? _); [done|]. apply result_bind_Ok in H as (g1 & Hg & H).
    apply result_bind_Ok in H as (a1 & _ & H). apply result_bind_Ok in H as ([[rest a2] c2] & Hr & H).
    injection H as <- _ _. rewrite !fmap_cons, (IH _ _ _ _ _ _ _ Hr), (adjust_keeps _ _ _ Hg). done.
  - apply result_bind_Ok in H as ([[rest a2] c2] & Hr & H). injection H as <- _ _.
    by rewrite !fmap_cons, (IH _ _ _ _ _ _ _ Hr).
Qed.
Lemma raise_rows_keeps gs is_ gs' : raise_rows gs is_ = Ok gs' → bare <$> gs' = bare <$> gs.
Proof.
  revert gs. induction is_ as [|i is_ IH]; intros gs; simpl; [by intros [= <-]|].
  destruct (gs !! i) as [g|] eqn:Hg; [|done]. intros H. apply result_bind_Ok in H as (g1 & Hg1 & H).
  rewrite (IH _ H), list_fmap_insert. apply list_insert_id. rewrite list_lookup_fmap, Hg. simpl.
  by rewrite (adjust_keeps _ _ _ Hg1).
Qed.
Lemma reconcile_keeps gs ns rows :
  reconcile_group_costs gs ns = Ok rows →
  bare <$> rows = bare <$> gs ∧
  ∃ target, from_numerator (zsum ns) = Ok target ∧ zsum (row_microdollars <$> rows) = microdollars target.
Proof.
  unfold reconcile_group_costs. intros H. apply result_bind_Ok in H as (n & Hn & H). apply try_sum_inv in Hn.
  rewrite Z.add_0_l in Hn. subst n.
  apply result_bind_Ok in H as (target & Ht & H). apply result_bind_Ok in H as ([[gs1 assigned] cs] & Hf & H).
  apply result_bind_Ok in H as (rem & _ & H). destruct (_ || _); [done|].
  apply result_bind_Ok in H as (gs2 & Hr & H). apply result_bind_Ok in H as (s & Hs & H).
  destruct (bool_decide (s = microdollars target)) eqn:He; [|done]. simpl in H. injection H as <-.
  apply bool_decide_eq_true in He. apply try_sum_inv in Hs. split.
  - by rewrite (raise_rows_keeps _ _ _ Hr), (floor_rows_keeps _ _ _ _ _ _ _ _ Hf).
  - exists target. split; [done|]. lia.
Qed.

Lemma numerators_sum {K} (m : list (K * Accumulator)) : zsum (numerator <$> m.*2) = msum (λ _, numerator) m.
Proof. induction m as [|[k a] m IH]; [done|]. rewrite !fmap_cons. cbn [zsum msum]. by rewrite IH. Qed.

Lemma zsum_split {B} (f : B → Z) p l :
  zsum (f <$> l) = zsum (f <$> List.filter p l) + zsum (f <$> List.filter (λ x, negb (p x)) l).
Proof. induction l as [|x l IH]; [done|]. cbn [List.filter]. destruct (p x); cbn [negb]; rewrite !fmap_cons; cbn [zsum]; lia. Qed.

(** C21: attributing attempts loses neither tokens nor money.  When a report is
    broken down by a work dimension, every selected attempt is joined; by
    external labels, those the read has an entry for.  The known tokens of each
    category over the rows are those of the joined attempts, although one attempt
    may be split over several rows by weight; with the tokens of the attempts
    that are not joined they make up the report's total.  The known costs of the
    rows add up to the cost of the joined attempts rounded to a microdollar,
    which is the report's total whenever it states one and every selected
    attempt is joined. *)
Theorem attribution_conserves facts chairs w k e report rows :
  stats_inner utc_day prices facts chairs w k e = Ok report → report_context_groups report = Some rows →
  weights_unsigned e →
  let attempts := List.filter (joined k e) (selected w facts) in
  let left_out := List.filter (λ f, negb (joined k e f)) (selected w facts) in
  (∀ c, let tokens f := unwrap_or (usage_at c (fact_usage f)) 0 in
     zsum ((λ g, known (at_category c (row_usage g))) <$> rows) = zsum (tokens <$> attempts) ∧
     known (at_category c (total_usage (report_totals report))) = zsum (tokens <$> attempts) + zsum (tokens <$> left_out)) ∧
  ∃ m, from_numerator (zsum ((λ f, p_numerator (fact_price f)) <$> attempts)) = Ok m ∧
    zsum (row_microdollars <$> rows) = microdollars m ∧
    (left_out = [] → ∀ m', known_lower_bound (cost (report_totals report)) = Some m' → m' = m).
Proof.
  intros (r & Hr & Ha & Ht & _ & _ & _ & Hctx)%stats_inner_Ok Hrows He attempts left_out.
  destruct (Hctx _ Hrows) as (gs & Hgs & Hrec). destruct (reconcile_keeps _ _ _ Hrec) as (Hkeep & target & Htar & Hsum).
  rewrite numerators_sum in Htar.
  rewrite (reduce_attributes _ _ w k e facts no_reduction r numerator_additive numerator_parts He Hr) in Htar.
  simpl in Htar. rewrite Z.add_0_l in Htar. fold attempts in Htar. split.
  - intros c tokens. split.
    + assert (((λ g, known (at_category c (row_usage g))) <$> rows)
              = (λ g, known (at_category c (row_usage g))) <$> (bare <$> rows)) as -> by by rewrite <-list_fmap_compose.
      rewrite Hkeep, <-list_fmap_compose.
      pose proof (groups_sum mkGroup totals _ _ (Known c) (λ _ _, eq_refl) Hgs) as Hs. simpl in Hs.
      etransitivity; [exact Hs|].
      change (λ (_ : option string) (a : Accumulator), known (at_category c (usage a)))
        with (λ _ : option string, column (Known c)).
      by rewrite (reduce_attributes _ _ w k e facts no_reduction r (known_additive c) (known_parts c) He Hr).
    + change (known (at_category c (total_usage (report_totals report))))
        with (total_column (Known c) (report_totals report)).
      rewrite (finish_column _ _ _ Ht), (a_total _ _ _ Ha). apply zsum_split.
  - exists target. split_and!; [done..|]. intros Hnone m' Hm'. unfold finish in Ht.
    assert (zsum ((λ f, p_numerator (fact_price f)) <$> selected w facts)
            = zsum ((λ f, p_numerator (fact_price f)) <$> attempts)) as Hall.
    { rewrite (zsum_split _ (joined k e)). fold attempts left_out. rewrite Hnone. simpl. lia. }
    rewrite (a_numerator _ _ _ Ha), Hall, Htar in Ht. simpl in Ht. injection Ht as Ht. rewrite <-Ht in Hm'. simpl in Hm'.
    case_match; by simplify_eq.
Qed.

End Accounts.

(** ** An example *)

Definition example_id (c : Ascii.ascii) : Id := mkId (replicate 16 c).
Definition example_usage : Usage := mkUsage (Some 1000) (Some 500) None None (Some 300) None.
Definition example_fact (c : Ascii.ascii) (number : Z) : AttemptFact :=
  mkFact None (example_id c) (example_id "t") number (example_id "p") Succeeded 10 (Some 11) 20
    (Some (mkRoute (Some "codex") (Some "codex/gpt") (Some "high") None)) example_usage.
Definition example_prices : PriceTable :=
  mkPriceTable (mkIdentity "prices" "2026-01-01") None
    [(("codex", "codex/gpt"), (mkRates (Some 1250001) (Some 125000) (Some 0) (Some 10000001), Api))].
Definition example_facts : list AttemptFact := [example_fact "a" 1; example_fact "b" 2].
Definition example_window : Window := mkWindow (Some 5) None None true.
Definition example_labels : ExternalGroups :=
  [(example_id "a", [mkExternal "pr-2" (Some 333333); mkExternal "pr-1" (Some 333334)])].
Definition example_report : option StatsReport :=
  match stats_inner (λ _, "1970-01-01") example_prices example_facts [] example_window None (Some example_labels) with
  | Ok report => Some report
  | Err _ => None
  end.

Lemma report_counts_every_attempt_witness :
  ∃ report, example_report = Some report ∧ selected_attempts (report_coverage report) = 2 ∧
    total_column (Known CacheRead) (report_totals report)
    = zsum ((λ g, total_column (Known CacheRead) (group_totals g)) <$> report_routes report).
Proof.
  destruct example_report as [report|] eqn:H; [|vm_compute in H; discriminate H].
  exists report. split; [reflexivity|]. unfold example_report in H. destruct (stats_inner _ _ _ _ _ _ _) eqn:Hs; [|done].
  injection H as ->. destruct (report_counts_every_attempt _ _ _ _ _ _ _ _ Hs) as (_ & H1 & H2).
  split; [rewrite H1; reflexivity|]. apply (H2 (Known CacheRead)).
Defined.

(** The labels of the first attempt are split, the second one has none. *)
Lemma attribution_conserves_witness :
  ∃ report rows, example_report = Some report ∧ report_context_groups report = Some rows ∧
    zsum ((λ g, known (uncached_input (total_usage (totals g)))) <$> rows) = 1000 ∧
    known (uncached_input (total_usage (report_totals report))) = 2000.
Proof.
  destruct example_report as [report|] eqn:H; [|vm_compute in H; discriminate H].
  destruct (report_context_groups report) as [rows|] eqn:Hrows.
  2: { vm_compute in H. injection H as <-. discriminate Hrows. }
  exists report, rows. split; [reflexivity|]. split; [done|].
  unfold example_report in H. destruct (stats_inner _ _ _ _ _ _ _) eqn:Hs; [|done]. injection H as ->.
  destruct (attribution_conserves _ _ _ _ _ _ _ _ _ Hs Hrows) as [Hc _]; [|exact (Hc UncachedInput)].
  clear Hs Hrows. intros labels i values [= <-] Hg v w Hin Hw. cbn in Hg.
  destruct (String.compare _ _); try discriminate Hg; injection Hg as <-.
  rewrite !elem_of_cons, elem_of_nil in Hin. destruct Hin as [-> |[-> |[]]]; injection Hw as <-; lia.
Defined.
