(* ===== verification/TelemetryShares.v ===== *)
(** * TelemetryShares: cache shares and prices are exact

    Every cache summary of a report states the share of reads in its input
    exactly, and the cost of a usage record is exact whenever it is not marked
    as a lower bound. *)

From stdpp Require Import base option list strings sets numbers.
From S2P Require Import Prelude CoreIds TelemetryRecords TelemetryCosts TelemetryStats TelemetryTotals.

Local Open Scope string_scope.
Local Open Scope list_scope.
Local Open Scope Z_scope.
Local Open Scope rust_scope.

(** ** Cache summaries *)

(** Token counts are unsigned. *)
Definition usage_ok (u : Usage) : Prop :=
  Forall (λ c, 0 ≤ unwrap_or c 0)
    [u_uncached_input u; u_cache_read u; u_cache_write u; u_cache_write_1h u; u_output_excluding_reasoning u;
     u_reasoning u].
(** Reads are part of the input. *)
Definition cache_ok (c : CacheSummary) : Prop := 0 ≤ read_tokens c ≤ input_tokens c ∧ input_tokens c ≤ u64_max.
(** The share as stated: the floor of the exact share in basis points. *)
Definition share_exact (c : CacheSummary) : Prop :=
  match read_share_basis_points c with
  | Some s => 0 < input_tokens c ∧ s = read_tokens c * 10000 / input_tokens c ∧ 0 ≤ s ≤ 10000
  | None => input_tokens c = 0
  end.

Lemma add_le a b c : add a b = Ok c → c = a + b ∧ 0 ≤ c ≤ u64_max.
Proof.
  unfold add, checked_add_u64, in_u64. destruct (_ && _) eqn:H; [|done]. intros [= <-].
  apply andb_true_iff in H as [?%Z.leb_le ?%Z.leb_le]. lia.
Qed.
Lemma cache_record_ok c u c' : usage_ok u → cache_ok c → cache_record c u = Ok c' → cache_ok c'.
Proof.
  unfold usage_ok, cache_ok, cache_record. intros Hu Hc H.
  repeat match goal with H : Forall _ (_ :: _) |- _ => apply list.Forall_cons in H as [? H] end.
  destruct (u_cache_read u) as [read|]; simpl in *.
  - repeat match goal with H : mbind _ _ = Ok _ |- _ => apply result_bind_Ok in H as (? & ?%add_le & H) end.
    injection H as <-. simpl. lia.
  - apply result_bind_Ok in H as (m & _ & H). injection H as <-. done.
Qed.
Lemma cache_merge_ok c d c' : cache_ok c → cache_ok d → cache_merge c d = Ok c' → cache_ok c'.
Proof.
  unfold cache_ok, cache_merge. intros Hc Hd H.
  repeat match goal with H : mbind _ _ = Ok _ |- _ => apply result_bind_Ok in H as (? & ?%add_le & H) end.
  injection H as <-. simpl. lia.
Qed.
Lemma cache_finish_exact c : cache_ok c → share_exact (cache_finish c).
Proof.
  unfold cache_ok, share_exact, cache_finish. intros Hc. simpl. destruct (Z.ltb_spec 0 (input_tokens c)); [|lia].
  assert (0 ≤ read_tokens c * 10000 / input_tokens c ≤ 10000) as Hs.
  { split; [apply Z.div_pos; lia|]. apply Z.div_le_upper_bound; nia. }
  unfold in_u64. rewrite !(proj2 (Z.leb_le _ _)) by (unfold u64_max; lia). simpl. rewrite Z.min_l by lia. done.
Qed.

Lemma record_usage_cache a u o num ms sub a' :
  usage_ok u → cache_ok (cache a) → record_usage a u o num ms sub = Ok a' → cache_ok (cache a').
Proof.
  intros Hu Hc H. unfold record_usage in H.
  repeat match goal with H : mbind _ _ = Ok _ |- _ => apply result_bind_Ok in H as (? & ? & H) end.
  injection H as <-. simpl. by eapply cache_record_ok.
Qed.
Lemma finish_cache a t : cache_ok (cache a) → finish a = Ok t → share_exact (total_cache t).
Proof. intros Ha H. unfold finish in H. ok_inv. by apply cache_finish_exact. Qed.
Lemma empty_cache_ok : cache_ok (cache empty_accumulator).
Proof. unfold cache_ok, u64_max. simpl. lia. Qed.

Abbreviation caches_ok m := (Forall (λ e, cache_ok (cache e.2)) m) (only parsing).

Lemma group_update_cache {K} `{Ord K} b (m : list (K * Accumulator)) key bytes f b' m' :
  (∀ a a', cache_ok (cache a) → f a = Ok a' → cache_ok (cache a')) →
  caches_ok m → group_update b m key bytes f = Ok (b', m') → caches_ok m'.
Proof.
  intros Hf Hm Hg. unfold group_update in Hg. apply result_bind_Ok in Hg as (b1 & _ & Hg).
  apply result_bind_Ok in Hg as (m1 & Hu & Hg). injection Hg as _ <-.
  by eapply (update_all (λ a, cache_ok (cache a))); [apply empty_cache_ok| | |exact Hu].
Qed.
Lemma groups_cache {K G} (mk : K → Totals → G) (get_totals : G → Totals) keyed rows :
  (∀ k t, get_totals (mk k t) = t) → caches_ok keyed → groups mk keyed = Ok rows →
  Forall (λ g, share_exact (total_cache (get_totals g))) rows.
Proof.
  intros Hmk Hk H%collect_inv. revert rows H. induction Hk as [|[k a] keyed Ha Hk IH]; intros rows H.
  - inversion H. constructor.
  - inversion H as [|? g ? rows' Hg Hrest]; subst. apply result_bind_Ok in Hg as (t & Ht & Hg). injection Hg as <-.
    constructor; [rewrite Hmk; by eapply finish_cache|by apply IH].
Qed.

(** ** Shares of a split attempt *)

Lemma distribute_ok ws v l : 0 ≤ unwrap_or v 0 → distribute ws v = Ok l → Forall (λ c, 0 ≤ unwrap_or c 0) l.
Proof.
  unfold distribute. destruct v as [n|]; intros Hn H.
  - apply result_bind_Ok in H as (parts & Hp & H). injection H as <-. unfold weighted_parts in Hp.
    apply result_bind_Ok in Hp as (ps & _ & Hp). apply result_bind_Ok in Hp as (s & _ & Hp).
    apply result_bind_Ok in Hp as (rem & _ & Hp). apply collect_inv in Hp.
    induction Hp as [|x y l l' Hxy Hl IH]; simpl; constructor; [|done]. simpl. unfold try_u64, in_u64 in Hxy.
    destruct (_ && _) eqn:Hg; [|done]. injection Hxy as <-. apply andb_true_iff in Hg as [?%Z.leb_le _]. lia.
  - injection H as <-. apply Forall_replicate. simpl. lia.
Qed.
Lemma share_usage_ok ws u num d i u' num' :
  usage_ok u → distribute_all ws u num = Ok d → share_at d i = Some (u', num') → usage_ok u'.
Proof.
  unfold usage_ok. intros Hu H Hs. unfold distribute_all in H.
  repeat match goal with H : Forall _ (_ :: _) |- _ => apply list.Forall_cons in H as [? H] end.
  repeat match goal with H : mbind _ _ = Ok _ |- _ => apply result_bind_Ok in H as (? & ? & H) end.
  injection H as <-. unfold share_at in Hs. simpl in Hs.
  repeat match goal with H : mbind _ _ = Some _ |- _ => apply bind_Some in H as (? & ? & H) end.
  injection Hs as <- <-. simpl.
  repeat match goal with
         | H : distribute _ _ = Ok ?l, H' : ?l !! i = Some _ |- _ =>
             apply distribute_ok in H; [|done]; apply (Forall_lookup_1 _ _ _ _ H) in H'
         end.
  by repeat constructor.
Qed.

Lemma record_values_cache ck fact price od index values b g b' g' :
  usage_ok (fact_usage fact) →
  (∀ d i u num, od = Some d → share_at d i = Some (u, num) → usage_ok u) →
  caches_ok g → record_values ck fact price od index values b g = Ok (b', g') → caches_ok g'.
Proof.
  intros Hu Hd. revert index b g. induction values as [|[v weight] values IH]; intros index b g Hg; simpl.
  { by intros [= <- <-]. }
  destruct (is_some_and _ _); [done|]. cbv zeta. intros H. apply result_bind_Ok in H as ([b1 g1] & Hg1 & H).
  apply IH in H; [done|]. eapply group_update_cache; [|exact Hg|exact Hg1]. intros a a' Ha. simpl.
  destruct weight as [weight|].
  - destruct od as [d|]; [|done]. destruct (share_at d index) as [[u num]|] eqn:Hs; [|done].
    unfold record_weighted. apply record_usage_cache; [by eapply Hd|done].
  - unfold record. by apply record_usage_cache.
Qed.
Lemma record_groups_cache ck fact price values b g b' g' :
  usage_ok (fact_usage fact) → caches_ok g → record_groups ck fact price values b g = Ok (b', g') → caches_ok g'.
Proof.
  intros Hu Hg H. unfold record_groups in H. cbv zeta in H. apply result_bind_Ok in H as (od & Hod & H).
  eapply record_values_cache; [done| |done|exact H]. intros d i u num -> Hs.
  destruct (forallb _ _); [|done]. apply result_bind_Ok in Hod as (d' & Hd & Hod). injection Hod as ->.
  by eapply share_usage_ok.
Qed.

(** ** Along the reduction *)

Section Reports.
  Context (utc_day : Z → string) (prices : PriceTable).

Record reduction_ok (r : Reduction) : Prop := {
  ok_total : cache_ok (cache (total r));
  ok_routes : caches_ok (routes r);
  ok_daily : caches_ok (daily r);
  ok_context : caches_ok (context_groups r);
}.

Lemma reduce_fact_ok w k e r fact r' :
  usage_ok (fact_usage fact) → reduction_ok r → reduce_fact utc_day prices w k e r fact = Ok r' → reduction_ok r'.
Proof.
  intros Hu [H1 H2 H3 H4] H. unfold reduce_fact in H. destruct (includes w fact); [|by injection H as <-].
  cbn [negb] in H. destruct (MAX_ATTEMPTS <=? _); [done|]. destruct (_ || _ || _); [done|].
  destruct (set_insert (attempt_id fact) _) as [fresh seen]. destruct (set_insert _ (numbers r)) as [fn nums].
  destruct (negb fresh || negb fn); [done|]. cbv zeta in H. destruct (existsb is_blank _); [done|].
  apply result_bind_Ok in H as (price & _ & H). apply result_bind_Ok in H as (cov & _ & H).
  destruct (is_some_and _ _); [done|]. apply result_bind_Ok in H as ([b1 cg] & Hc & H).
  apply result_bind_Ok in H as ([b2 rs] & Hr & H). apply result_bind_Ok in H as ([b3 ds] & Hd & H).
  apply result_bind_Ok in H as (t & Ht & H). injection H as <-.
  assert (∀ a a', cache_ok (cache a) →
    record a fact (p_numerator price) (p_missing_cost price) (p_subscription price) = Ok a' → cache_ok (cache a'))
    as Hrec by (intros a a' Ha; unfold record; by apply record_usage_cache).
  split; simpl.
  - by eapply Hrec.
  - eapply group_update_cache; [exact Hrec|exact H2|exact Hr].
  - destruct (detail w); [eapply group_update_cache; [exact Hrec|exact H3|exact Hd]|by injection Hd as _ <-].
  - destruct (values_of k e fact _); [by eapply record_groups_cache; [| |exact Hc]|by injection Hc as _ <-].
Qed.
Lemma reduce_ok w k e r facts r' :
  Forall (λ f, usage_ok (fact_usage f)) facts → reduction_ok r → reduce utc_day prices w k e r facts = Ok r' →
  reduction_ok r'.
Proof.
  intros Hf. revert r. induction Hf as [|fact facts Hu Hf IH]; intros r Hr; simpl; [by intros [= <-]|].
  intros H. apply result_bind_Ok in H as (r1 & Hr1 & H). eapply IH; [|exact H]. by eapply reduce_fact_ok.
Qed.
Lemma no_reduction_ok : reduction_ok no_reduction.
Proof. split; simpl; [apply empty_cache_ok|constructor..]. Qed.

(** ** Chair sessions and the roll-up *)

Definition session_ok (s : ChairSession) : Prop := Forall (λ m, usage_ok (cm_usage m)) (chair_model_usage s).
Definition chair_ok (c : ChairState) : Prop :=
  cache_ok (cache (chair_total c)) ∧ Forall (λ e, cache_ok (cache e.2.1)) (chair_groups c).

Lemma chair_model_ok s m c c' : usage_ok (cm_usage m) → chair_ok c → chair_model prices s m c = Ok c' → chair_ok c'.
Proof.
  intros Hu [H1 H2] H. unfold chair_model in H. cbv zeta in H. apply result_bind_Ok in H as (price & _ & H).
  destruct (_ && _); [done|]. apply result_bind_Ok in H as (gs & Hg & H). apply result_bind_Ok in H as (t & Ht & H).
  injection H as <-. split; simpl; [by eapply record_usage_cache|].
  refine (update_all (λ v : Accumulator * list string, cache_ok (cache v.1)) _ _ _ _ _ _ _ H2 Hg);
    [exact empty_cache_ok|].
  intros [a ids] v Ha Hv. apply result_bind_Ok in Hv as (a' & Ha' & Hv). injection Hv as <-. simpl in *.
  by eapply record_usage_cache.
Qed.
Lemma chair_models_ok s ms c c' :
  Forall (λ m, usage_ok (cm_usage m)) ms → chair_ok c → chair_models prices s ms c = Ok c' → chair_ok c'.
Proof.
  intros Hms. revert c. induction Hms as [|m ms Hm Hms IH]; intros c Hc; simpl; [by intros [= <-]|]. intros H.
  apply result_bind_Ok in H as (c1 & Hc1 & H). eapply IH; [|exact H]. by eapply chair_model_ok.
Qed.
Lemma chair_fold_ok chairs c c' :
  Forall session_ok chairs → chair_ok c → chair_fold prices c chairs = Ok c' → chair_ok c'.
Proof.
  intros Hs. revert c. induction Hs as [|s chairs Hs Hss IH]; intros c Hc; simpl; [by intros [= <-]|]. intros H.
  apply result_bind_Ok in H as (c1 & Hc1 & H). eapply IH; [|exact H]. unfold chair_step in Hc1.
  destruct (set_insert _ _) as [fresh seen]. destruct fresh; [|by injection Hc1 as <-]. cbn [negb] in Hc1.
  apply result_bind_Ok in Hc1 as (un & _ & Hc1). by eapply chair_models_ok; [exact Hs| |exact Hc1].
Qed.
Definition chair_caches (c : ChairStats) : list CacheSummary := cs_cache c :: (cg_cache <$> cs_groups c).
Lemma chair_stats_ok chairs chair :
  Forall session_ok chairs → chair_stats prices chairs = Ok (Some chair) →
  Forall (λ e, cache_ok e.2) (chair_cache chair) ∧ Forall share_exact (chair_caches (chair_report chair)).
Proof.
  intros Hs H. unfold chair_stats in H. apply result_bind_Ok in H as (c & Hc & H).
  assert (chair_ok c) as [Ht Hg].
  { eapply chair_fold_ok; [exact Hs| |exact Hc]. split; [apply empty_cache_ok|constructor]. }
  destruct chairs as [|s chairs]; [done|]. cbv zeta in H. apply result_bind_Ok in H as (out & Hout & H).
  apply result_bind_Ok in H as (t & Hft & H). injection H as <-. simpl. split.
  - clear Hout. induction Hg as [|[[[a b] m] [acc ids]] l Ha Hl IH]; [constructor|]. by constructor.
  - constructor; [by eapply finish_cache|]. apply collect_inv in Hout.
    induction Hout as [|[[[a b] m] [acc ids]] g l out Hgr Hl IH]; [constructor|]. simpl.
    apply list.Forall_cons in Hg as [Ha Hg]. apply result_bind_Ok in Hgr as (t' & Ht' & Hgr). injection Hgr as <-.
    constructor; [by eapply finish_cache|by apply IH].
Qed.

Definition maps_ok (m : CacheMaps) : Prop :=
  Forall (λ e, cache_ok e.2) (m_model m) ∧ Forall (λ e, cache_ok e.2) (m_account m) ∧
  Forall (λ e, cache_ok e.2) (m_provider m) ∧ Forall (λ e, cache_ok e.2) (m_source m).
Lemma merge_update_ok (key : CacheKey) c m m' :
  cache_ok c → Forall (λ e, cache_ok e.2) m → update key no_cache (λ old, cache_merge old c) m = Ok m' →
  Forall (λ e, cache_ok e.2) m'.
Proof.
  intros Hc Hm H. refine (update_all cache_ok _ _ _ _ _ _ _ Hm H).
  - unfold cache_ok, u64_max. simpl. lia.
  - intros v v' Hv Hv'. exact (cache_merge_ok _ _ _ Hv Hc Hv').
Qed.
Lemma cache_fold_ok m src p md ac c m' : maps_ok m → cache_ok c → cache_fold m src p md ac c = Ok m' → maps_ok m'.
Proof.
  intros (H1 & H2 & H3 & H4) Hc H. unfold cache_fold in H.
  repeat match goal with H : mbind _ _ = Ok _ |- _ => apply result_bind_Ok in H as (? & ? & H) end.
  injection H as <-. unfold maps_ok. simpl.
  split_and!; (eapply merge_update_ok; [exact Hc| |eassumption]); done.
Qed.
Lemma cache_lanes_ok m rs m' : maps_ok m → caches_ok rs → cache_lanes m rs = Ok m' → maps_ok m'.
Proof.
  intros Hm Hr. revert m Hm. induction Hr as [|[route a] rs Ha Hr IH]; intros m Hm; simpl; [by intros [= <-]|].
  intros H. apply result_bind_Ok in H as (m1 & Hm1 & H). eapply IH; [|exact H]. by eapply cache_fold_ok.
Qed.
Lemma cache_chairs_ok m cs m' : maps_ok m → Forall (λ e, cache_ok e.2) cs → cache_chairs m cs = Ok m' → maps_ok m'.
Proof.
  intros Hm Hr. revert m Hm. induction Hr as [|[[[a b] md] c] cs Ha Hr IH]; intros m Hm; simpl; [by intros [= <-]|].
  intros H. apply result_bind_Ok in H as (m1 & Hm1 & H). eapply IH; [|exact H]. by eapply cache_fold_ok.
Qed.
Lemma cache_rows_exact m : Forall (λ e, cache_ok e.2) m → Forall share_exact (group_cache <$> cache_rows m).
Proof.
  induction 1 as [|[[[[a b] c] d] x] m Hx Hm IH]; [constructor|]. unfold cache_rows in *. rewrite !fmap_cons.
  constructor; [by apply cache_finish_exact|done].
Qed.
Definition row_caches (r : CacheRows) : list CacheSummary :=
  group_cache <$> (by_model r ++ by_account r ++ by_provider r ++ by_source r).
Lemma cache_report_exact rs chair rows :
  caches_ok rs → (∀ c, chair = Some c → Forall (λ e, cache_ok e.2) (chair_cache c)) →
  cache_report rs chair = Ok rows → Forall share_exact (row_caches rows).
Proof.
  intros Hr Hc H. unfold cache_report in H. apply result_bind_Ok in H as (m1 & Hm1 & H).
  apply result_bind_Ok in H as (m2 & Hm2 & H). injection H as <-.
  apply cache_lanes_ok in Hm1; [|by repeat split|done]. apply cache_chairs_ok in Hm2; [|done|].
  2: { destruct chair as [c|]; [by apply Hc|constructor]. }
  destruct Hm2 as (H1 & H2 & H3 & H4). unfold row_caches. simpl. rewrite !fmap_app, !Forall_app.
  split_and!; by apply cache_rows_exact.
Qed.

(** Every cache summary a report shows. *)
Definition report_caches (report : StatsReport) : list CacheSummary :=
  total_cache (report_totals report)
  :: ((λ g, total_cache (group_totals g)) <$> report_routes report)
  ++ ((λ g, total_cache (day_totals g)) <$> unwrap_or (daily_accounts report) [])
  ++ ((λ g, total_cache (totals g)) <$> unwrap_or (report_context_groups report) [])
  ++ row_caches (report_cache report)
  ++ match report_chair report with Some c => chair_caches c | None => [] end.

Lemma context_exact gs ns rows :
  Forall (λ g, share_exact (total_cache (totals g))) gs → reconcile_group_costs gs ns = Ok rows →
  Forall (λ g, share_exact (total_cache (totals g))) rows.
Proof.
  intros Hg [Hk _]%reconcile_keeps. revert gs Hg Hk. induction rows as [|g rows IH]; intros [|g' gs] Hg Hk; try done.
  rewrite !fmap_cons in Hk. apply cons_eq_inj in Hk as [Hb Hk]. apply list.Forall_cons in Hg as [Hg' Hg]. constructor; [|by eapply IH].
  apply (f_equal (λ g, total_cache (totals g))) in Hb. simpl in Hb. by rewrite Hb.
Qed.
Lemma perm_Forall {A} (P : A → Prop) l l' : l ≡ₚ l' → Forall P l' → Forall P l.
Proof. intros Hp H. by rewrite Hp. Qed.

(** cache shares are exact and bounded.  In a report over unsigned token
    counts every cache summary shown, in the totals, in every breakdown and
    for the chair, states the share of cache reads in its input as the exact
    quotient in basis points, rounded down and at most 10,000, and states none
    exactly when it has no input; the clamps in the code never apply. *)
Theorem cache_shares_exact facts chairs w k e report :
  Forall (λ f, usage_ok (fact_usage f)) facts → Forall session_ok chairs →
  stats_inner utc_day prices facts chairs w k e = Ok report → Forall share_exact (report_caches report).
Proof.
  intros Hf Hs H. unfold stats_inner in H. destruct (invalid_window w); [done|].
  apply result_bind_Ok in H as (r & Hr & H). cbv zeta in H.
  destruct (reduce_ok w k e _ _ _ Hf no_reduction_ok Hr) as [H1 H2 H3 H4].
  apply result_bind_Ok in H as (chair & Hchair & H). apply result_bind_Ok in H as (rows & Hrows & H).
  apply result_bind_Ok in H as (lat & _ & H). apply result_bind_Ok in H as (rs & Hrs & H).
  apply result_bind_Ok in H as (ds & Hds & H). apply result_bind_Ok in H as (ctx & Hctx & H).
  apply result_bind_Ok in H as (t & Ht & H). injection H as <-. unfold report_caches. simpl.
  constructor; [by eapply finish_cache|]. rewrite !Forall_app, !Forall_fmap. split_and!.
  - eapply perm_Forall; [apply sort_by_perm|]. exact (groups_cache mkRouteGroup group_totals _ _ (λ _ _, eq_refl) H2 Hrs).
  - destruct (detail w); simpl; [|constructor]. eapply perm_Forall; [apply sort_by_perm|].
    apply (groups_cache _ day_totals _ _) in Hds; [exact Hds|by intros []|exact H3].
  - destruct (_ || _); [|injection Hctx as <-; constructor]. apply result_bind_Ok in Hctx as (gs & Hgs & Hctx).
    apply result_bind_Ok in Hctx as (gs' & Hgs' & Hctx). injection Hctx as <-. simpl.
    eapply context_exact; [|exact Hgs']. exact (groups_cache mkGroup totals _ _ (λ _ _, eq_refl) H4 Hgs).
  - eapply cache_report_exact; [exact H2| |exact Hrows]. intros c ->. by eapply chair_stats_ok.
  - destruct chair as [c|]; simpl; [|constructor]. by eapply chair_stats_ok.
Qed.

End Reports.

Lemma cache_shares_exact_witness :
  ∃ report, example_report = Some report ∧ Forall share_exact (report_caches report).
Proof.
  destruct example_report as [report|] eqn:H; [|vm_compute in H; discriminate H].
  exists report. split; [reflexivity|]. unfold example_report in H. destruct (stats_inner _ _ _ _ _ _ _) eqn:Hs; [|done].
  injection H as ->. apply (cache_shares_exact _ _ _ _ _ _ _ _) in Hs; [exact Hs| |constructor].
  clear Hs. repeat constructor; simpl; lia.
Defined.

(** ** Costs *)

(** The cost of the counts that are known and priced. *)
Definition exact_cost (pairs : list (option Z * option Z)) : Z :=
  zsum ((λ '(count, rate), match count, rate with Some n, Some r => n * r | _, _ => 0 end) <$> pairs).
(** A positive count without a price. *)
Definition unpriced (pair : option Z * option Z) : bool :=
  match pair with (Some n, None) => negb (n =? 0) | _ => false end.
(** A count that is absent, in a category other than reasoning. *)
Definition uncounted (index : nat) (pairs : list (option Z * option Z)) : bool :=
  existsb (λ '(i, p), is_none p.1 && negb (Nat.eqb i REASONING)) (zip (seq index (length pairs)) pairs).

Lemma price_counts_Ok free index pairs out out' :
  price_counts free index pairs out = Ok out' →
  p_numerator out' = p_numerator out + exact_cost pairs ∧
  p_missing_price out' = p_missing_price out || existsb unpriced pairs ∧
  p_missing_cost out' = p_missing_cost out || existsb unpriced pairs || (negb free && uncounted index pairs) ∧
  p_subscription out' = p_subscription out.
Proof.
  revert index out. induction pairs as [|[count rate] pairs IH]; intros index out H; simpl in H.
  { injection H as <-. unfold exact_cost, uncounted. simpl. rewrite !orb_false_r, andb_false_r, orb_false_r. split_and!; lia || done. }
  apply result_bind_Ok in H as (out1 & Ho & (-> & -> & -> & ->)%IH). unfold exact_cost, uncounted.
  rewrite fmap_cons. cbn [length seq zip zip_with existsb zsum].
  revert Ho. destruct count as [n|], rate as [r|]; simpl; try (destruct (Z.eqb_spec n 0) as [->|Hn]); intros Ho.
  all: ok_inv; repeat match goal with H : checked_add_u128 _ _ = Ok _ |- _ => apply checked_add_u128_Ok in H as [-> _] end;
    simpl; split_and!; try lia; try done;
    clear IH; destruct (p_missing_cost out), (p_missing_price out), free, (existsb unpriced pairs), (Nat.eqb index REASONING),
      (existsb _ (zip _ _)); done.
Qed.

(** A cost that is not marked as a lower bound is exact.  Pricing a usage
    record sums count times rate over the categories that have both, at the
    rates of the model in the price table; it reports a missing price exactly
    when some positive count has no rate; and it marks the cost as a lower
    bound exactly then, or when a count other than reasoning is absent and the
    model is not free, so an unmarked cost leaves out nothing but counts that
    are zero, free or part of the output. *)
Theorem priced_exact u p m t out :
  priced u p m t = Ok out →
  let found := p ← p; m ← m; price t p m in
  let rates := match found with Some (rates, _) => rates | None => no_rates end in
  let pairs := zip (counts u) (usage_rates rates) in
  p_numerator out = exact_cost pairs ∧
  p_missing_price out = existsb unpriced pairs ∧
  p_missing_cost out = existsb unpriced pairs
    || (negb (bool_decide (rate_values rates = replicate 4 (Some 0))) && uncounted 0 pairs) ∧
  p_subscription out = bool_decide (snd <$> found = Some Subscription).
Proof.
  intros H found rates pairs. unfold priced in H. fold found in H. cbv zeta in H. fold rates in H. fold pairs in H.
  apply price_counts_Ok in H as (-> & -> & -> & ->). simpl. split_and!; [lia|done|done|].
  destruct found as [[r b]|]; simpl; [|done]. apply bool_decide_ext. naive_solver.
Qed.

Lemma priced_exact_witness :
  ∃ out, priced example_usage (Some "codex") (Some "codex/gpt") example_prices = Ok out ∧
    p_numerator out = 1000 * 1250001 + 500 * 125000 + 300 * 10000001 ∧ p_missing_cost out = true.
Proof.
  destruct (priced example_usage (Some "codex") (Some "codex/gpt") example_prices) as [out|] eqn:H;
    [|vm_compute in H; discriminate H].
  exists out. split; [reflexivity|]. destruct (priced_exact _ _ _ _ _ H) as (-> & _ & -> & _).
  split; vm_compute; reflexivity.
Defined.

(** ** Validated price tables *)

Lemma map_get_elem {K V} `{Ord K} (k : K) (v : V) m : get k m = Some v → (k, v) ∈ m.
Proof.
  induction m as [|[k' v'] m IH]; simpl; [done|]. destruct (cmp k k') eqn:Hk; [|done|intros ?%IH; by right].
  apply cmp_eq in Hk as ->. intros [= <-]. by left.
Qed.
Lemma put_elem {K V} `{Ord K} (k : K) (v : V) m e : e ∈ put k v m → e = (k, v) ∨ e ∈ m.
Proof.
  induction m as [|[k' v'] m IH]; simpl; [rewrite list_elem_of_singleton; auto|].
  destruct (cmp k k'); rewrite !elem_of_cons; naive_solver.
Qed.

(** A model as the table may hold it. *)
Definition sound_model (m : ConfiguredModel) : Prop :=
  (Some 0 ∈ rate_values (rates m) → zero_rate_verified m = true) ∧
  (billing m = Free → rate_values (rates m) = replicate 4 (Some 0)).

(** A validated table prices a model only as configured: its rates and billing
    are those of a configured model with that name, whose zero rates were
    verified and which, if free, has four zero rates. *)
Lemma validated_prices_sound {Date} (parse : string → option Date) text after c t p m r b :
  validate_prices parse text after c = Ok t → price t p m = Some (r, b) →
  ∃ cm, cm ∈ cfg_models c ∧ cfg_provider cm = p ∧ cfg_model cm = m ∧ rates cm = r ∧ billing cm = b ∧ sound_model cm.
Proof.
  unfold validate_prices. destruct (schema_version c != 1); [done|]. destruct (units c != _); [done|].
  destruct (_ || _); [done|]. intros H Hp. apply result_bind_Ok in H as (ms & Hms & H). injection H as <-.
  unfold price in Hp. simpl in Hp. apply map_get_elem in Hp.
  assert (∀ l acc ms, validate_models parse text after l acc = Ok ms → ∀ k v, (k, v) ∈ ms →
    (k, v) ∈ acc ∨ ∃ cm, cm ∈ l ∧ (cfg_provider cm, cfg_model cm) = k ∧ (rates cm, billing cm) = v ∧ sound_model cm) as Hall.
  { clear. induction l as [|x l IH]; intros acc ms H k v Hin; simpl in H; [injection H as ->; by left|].
    apply result_bind_Ok in H as (acc1 & Hx & H). destruct (IH _ _ H _ _ Hin) as [Hin1|(cm & ? & ?)];
      [|right; exists cm; split; [by right|done]].
    unfold validate_model in Hx. destruct (_ || _ || _ || _); [done|].
    destruct (bool_decide (Some 0 ∈ _)) eqn:Hz; [destruct (zero_rate_verified x) eqn:Hv; [|done]|];
      (destruct (bool_decide (billing x = Free)) eqn:Hfree;
        [destruct (bool_decide (rate_values (rates x) = _)) eqn:Hr; [|done]|]); simpl in Hx; ok_inv;
      (destruct (is_some _); [done|]); ok_inv; apply put_elem in Hin1 as [[= -> ->]|?]; auto;
      right; exists x; (split; [by left|]); (split; [done|]); (split; [done|]); split;
      rewrite ?bool_decide_eq_true, ?bool_decide_eq_false in *; naive_solver. }
  destruct (Hall _ _ _ Hms _ _ Hp) as [?%elem_of_nil|(cm & Hin & [= <- <-] & [= <- <-] & Hs)]; [done|].
  by exists cm.
Qed.
