(* ===== verification/LanePorts.v ===== *)
(** * LanePorts: port blocks for parallel lanes

    Models [crates/os/src/lane_ports.rs].  A plan names a state directory, and
    the blocks are locked in the directory [lane-ports] below it: a host has one
    [World] of lock files for each directory that state paths open.  A world is
    the list of the names of its files (files are never unlinked), and a held
    lock is a lease.  The scan runs under the gate lock, so an acquisition is one
    step; releases happen between steps.  The other answers of the file system
    are the record [Fs], an argument of the acquisition. *)

From Stdlib Require Import Ascii.
From stdpp Require Import base option list strings sets pretty numbers gmap.
From S2P Require Import Prelude.

Local Open Scope string_scope.
Local Open Scope list_scope.
Local Open Scope Z_scope.
Local Open Scope rust_scope.

Definition u32_max : Z := 4294967295.
Definition wrapping_add_u32 (a b : Z) : Z := (a + b) mod 2 ^ 32.

Inductive BlocksOrigin := CompiledDefault | HostConfig.
Record Plan := mkPlan { state : string; base : Z; size : Z; blocks : Z; blocks_origin : option BlocksOrigin }.
Record Lease := mkLease { lease_base : Z; lease_size : Z }.

Definition BASE_ENV : string := "PROVENANT_LANE_PORT_BASE".
Definition COUNT_ENV : string := "PROVENANT_LANE_PORT_COUNT".

(** [u32::to_string]. *)
Definition decimal (n : Z) : string := pretty (Z.to_N n).
Definition environment (l : Lease) : list (string * string) :=
  [(BASE_ENV, decimal (lease_base l)); (COUNT_ENV, decimal (lease_size l))].

Definition is_valid (p : Plan) : bool :=
  starts_with (state p) "/" && (1024 <=? base p) && (1 <=? size p) && (1 <=? blocks p)
  && (base p + size p * blocks p <=? 65536).

Definition block_name (first size : Z) : string :=
  "block-" +:+ decimal first +:+ "-" +:+ decimal size +:+ ".lock".
Definition parse_name (name : string) : option (Z * Z) :=
  rest ← strip_prefix "block-" name;
  rest ← strip_suffix ".lock" rest;
  '(first, size) ← split_once "-" rest;
  first ← parse_uint u32_max first;
  size ← parse_uint u32_max size;
  Some (first, size).

(** The lock files of one directory and the leases held on them. *)
Record World := mkWorld { files : list string; leases : list Lease }.
(** The directories of a host, by their identity; one without files is empty. *)
Abbreviation Host := (gmap Z World).
Definition world_at (h : Host) (dir : Z) : World := default (mkWorld [] []) (h !! dir).

Inductive FsError :=
| InvalidComponent (name : string)
| LockTimeout
| AlreadyExists
| FsFailure (operation : string).
Definition is_timeout (e : FsError) : bool := match e with LockTimeout => true | _ => false end.
Definition is_exists (e : FsError) : bool := match e with AlreadyExists => true | _ => false end.

(** What the file system answers besides the state of the locks: the calls
    that open the directory, the first with the identity of the directory that
    the state path names, the attempts at the gate in order, the listing,
    and per file a failure of the shared probe and of the exclusive lock. *)
Record Fs := mkFs {
  open_anchor : string → result FsError Z;
  mkdir : result FsError unit;
  sync : result FsError unit;
  open_verified_directory : result FsError unit;
  gate : nat → result FsError unit;
  entries : result FsError unit;
  probe_fault : string → option FsError;
  lock_fault : string → option FsError;
}.

Definition lease_name (l : Lease) : string := block_name (lease_base l) (lease_size l).
(** A lock of any mode is refused while the file is locked exclusively. *)
Definition is_held (w : World) (name : string) : bool := existsb (λ l, lease_name l == name) (leases w).

Definition try_lock_existing (fs : Fs) (w : World) (name : string) : result FsError unit :=
  match probe_fault fs name with
  | Some e => Err e
  | None => if is_held w name then Err LockTimeout else Ok tt
  end.
Definition try_lock (fs : Fs) (w : World) (name : string) : result FsError unit :=
  match lock_fault fs name with
  | Some e => Err e
  | None => if is_held w name then Err LockTimeout else Ok tt
  end.

Definition GATE_TRIES : nat := 100.
(** [find_map] over the attempts: a timeout waits and tries again, any other
    answer ends the search. *)
Fixpoint take_gate (gate : nat → result FsError unit) (attempt fuel : nat) : result FsError unit :=
  match fuel with
  | O => Err LockTimeout
  | S fuel' =>
      match gate attempt with
      | Err LockTimeout => take_gate gate (S attempt) fuel'
      | other => other
      end
  end.

Definition others (w : World) : list (string * (Z * Z)) :=
  omap (λ name, range ← parse_name name; Some (name, range)) (files w).

Definition overlaps_held (fs : Fs) (w : World) (p : Plan) (first : Z) : bool :=
  existsb (λ '(name, (other_first, other_size)),
             (name != block_name first (size p))
             && (first <? wrapping_add_u32 other_first other_size)
             && (other_first <? first + size p)
             && match try_lock_existing fs w name with Err e => is_timeout e | Ok _ => false end) (others w).

(** [try_lock] creates the file. *)
Definition lock_file (w : World) (name : string) : list string :=
  if bool_decide (name ∈ files w) then files w else name :: files w.

(** The blocks from [index] on, [fuel] of them. *)
Fixpoint scan (fs : Fs) (w : World) (p : Plan) (index : Z) (fuel : nat) : result FsError (option Lease * World) :=
  match fuel with
  | O => Ok (None, w)
  | S fuel' =>
      let first := base p + index * size p in
      let own := block_name first (size p) in
      if overlaps_held fs w p first then scan fs w p (index + 1) fuel'
      else match try_lock fs w own with
           | Ok _ =>
               let lease := mkLease first (size p) in
               Ok (Some lease, mkWorld (lock_file w own) (lease :: leases w))
           | Err LockTimeout => scan fs w p (index + 1) fuel'
           | Err e => Err e
           end
  end.

Definition try_acquire (fs : Fs) (p : Plan) (h : Host) : result FsError (option Lease * Host) :=
  if negb (is_valid p) then Err (InvalidComponent "lane port plan")
  else
    dir ← open_anchor fs (state p);
    _ ← match mkdir fs with
        | Ok _ => sync fs
        | Err e => if is_exists e then Ok tt else Err e
        end;
    _ ← open_verified_directory fs;
    _ ← take_gate (gate fs) 0 GATE_TRIES;
    _ ← entries fs;
    '(lease, w) ← scan fs (world_at h dir) p 0 (Z.to_nat (blocks p));
    Ok (lease, <[dir := w]> h).

(** The kernel drops the lock when the last holder exits. *)
Definition release (i : nat) (w : World) : World := mkWorld (files w) (delete i (leases w)).

(** The shared probe of a held file reports that it is held: a probe that
    fails for another reason would read as a free block. *)
Definition probes_answer (fs : Fs) (w : World) : Prop := ∀ name, is_held w name = true → probe_fault fs name = None.

Inductive reachable : Host → Prop :=
| reach_start : reachable ∅
| reach_acquire fs h p l h' :
    reachable h → (∀ dir, open_anchor fs (state p) = Ok dir → probes_answer fs (world_at h dir)) →
    try_acquire fs p h = Ok (l, h') → reachable h'
| reach_release h dir i : reachable h → reachable (<[dir := release i (world_at h dir)]> h)
| reach_foreign h dir name :
    reachable h → let w := world_at h dir in reachable (<[dir := mkWorld (name :: files w) (leases w)]> h).

(** ** Names round trip *)

Lemma pretty_N_char_byte x : (x < 10)%N → byte_of (pretty_N_char x) = 48 + Z.of_N x.
Proof.
  intros H. assert (x = 0 ∨ x = 1 ∨ x = 2 ∨ x = 3 ∨ x = 4 ∨ x = 5 ∨ x = 6 ∨ x = 7 ∨ x = 8 ∨ x = 9)%N by lia.
  naive_solver.
Qed.

Definition from_digits (n : Z) (s : string) : Z :=
  fold_left (λ n c, 10 * n + (byte_of c - 48)) (String.list_ascii_of_string s) n.

Lemma pretty_N_go_digits x s :
  from_digits 0 (pretty_N_go x s) = from_digits (Z.of_N x) s ∧
  all_bytes is_ascii_digit (pretty_N_go x s) = all_bytes is_ascii_digit s.
Proof.
  revert s. induction (N.lt_wf_0 x) as [x _ IH]; intros s.
  destruct (decide (x = 0)%N) as [->|Hx]; [done|]. rewrite pretty_N_go_step by lia.
  destruct (IH (x `div` 10)%N) with (s := String (pretty_N_char (x `mod` 10)) s) as [-> ->]; [apply N.div_lt; lia|].
  pose proof (N.mod_lt x 10 ltac:(done)) as Hm. pose proof (N.div_mod x 10 ltac:(done)) as Hd.
  unfold from_digits. simpl. rewrite pretty_N_char_byte by done. split.
  - f_equal. lia.
  - assert (is_ascii_digit (pretty_N_char (x `mod` 10)) = true) as ->; [|done].
    unfold is_ascii_digit. cbv zeta. rewrite pretty_N_char_byte by done.
    revert Hm. generalize (x `mod` 10)%N. intros m Hm. apply andb_true_iff. rewrite !Z.leb_le. lia.
Qed.

Lemma pretty_N_go_nonempty x s : (x ≠ 0)%N ∨ s ≠ EmptyString → pretty_N_go x s ≠ EmptyString.
Proof.
  revert s. induction (N.lt_wf_0 x) as [x _ IH]; intros s H.
  destruct (decide (x = 0)%N) as [->|Hx]; [rewrite pretty_N_go_0; naive_solver|].
  rewrite pretty_N_go_step by lia. apply IH; [apply N.div_lt; lia|by right].
Qed.

Lemma decimal_facts n :
  0 ≤ n → from_digits 0 (decimal n) = n ∧ all_bytes is_ascii_digit (decimal n) = true ∧ decimal n ≠ EmptyString.
Proof.
  intros Hn. unfold decimal, pretty, pretty_N. destruct (decide (Z.to_N n = 0)%N) as [H0|H0].
  - split_and!; [|done..]. vm_compute. lia.
  - destruct (pretty_N_go_digits (Z.to_N n) "") as [H1 H2]. split_and!.
    + rewrite H1. unfold from_digits. simpl. lia.
    + by rewrite H2.
    + apply pretty_N_go_nonempty. by left.
Qed.

Lemma parse_decimal n max : 0 ≤ n ≤ max → parse_uint max (decimal n) = Some n.
Proof.
  intros Hn. destruct (decimal_facts n) as (Hd & Ha & Hne); [lia|].
  assert (uint_digits max (decimal n) = Some n) as Hu.
  { unfold uint_digits. rewrite Ha. unfold from_digits in Hd. rewrite Hd. cbv zeta.
    rewrite (proj2 (Z.leb_le _ _)) by lia. by destruct (decimal n). }
  unfold parse_uint. destruct (decimal n) as [|c s]; [done|]. simpl in Ha. apply andb_true_iff in Ha as [Hc _].
  unfold is_ascii_digit in Hc. bool_prop. rewrite (proj2 (Z.eqb_neq _ _)) by lia. done.
Qed.

Lemma strip_suffix_app a b : strip_suffix b (a +:+ b) = Some a.
Proof.
  induction a as [|c a IH].
  - change (EmptyString +:+ b) with b. destruct b; cbn [strip_suffix]; by rewrite bool_decide_eq_true_2.
  - change (String c a +:+ b) with (String c (a +:+ b)). cbn [strip_suffix].
    rewrite bool_decide_eq_false_2; [by rewrite IH|].
    intros Heq%(f_equal String.length). clear IH.
    assert (∀ x y : string, String.length (x +:+ y) = (String.length x + String.length y)%nat) as Hl.
    { clear. induction x as [|c x IH]; intros y; [done|]. change (String c x +:+ y) with (String c (x +:+ y)). simpl.
      by rewrite IH. }
    simpl in Heq. rewrite Hl in Heq. lia.
Qed.

Lemma digits_no_dash s : all_bytes is_ascii_digit s = true → contains_char "-" s = false.
Proof.
  unfold contains_char, any_byte. rewrite negb_false_iff. induction s as [|c s IH]; [done|]. cbn [all_bytes].
  intros [Hc Hs]%andb_true_iff. apply andb_true_iff. split; [|by apply IH].
  apply negb_true_iff, Ascii.eqb_neq. intros <-. by vm_compute in Hc.
Qed.

Lemma parse_block_name first size :
  0 ≤ first ≤ u32_max → 0 ≤ size ≤ u32_max → parse_name (block_name first size) = Some (first, size).
Proof.
  intros Hf Hs. unfold parse_name, block_name.
  assert (strip_prefix "block-" ("block-" +:+ decimal first +:+ "-" +:+ decimal size +:+ ".lock")
          = Some (decimal first +:+ "-" +:+ decimal size +:+ ".lock")) as -> by by apply strip_prefix_Some.
  simpl mbind. destruct (decimal_facts first) as (_ & Ha & _); [lia|].
  assert (decimal first +:+ "-" +:+ decimal size +:+ ".lock" = (decimal first +:+ String "-" (decimal size)) +:+ ".lock")
    as ->.
  { generalize (decimal first). intros s. induction s as [|c s IH]; [done|]. exact (f_equal (String c) IH). }
  rewrite strip_suffix_app. simpl mbind.
  assert (split_once "-" (decimal first +:+ String "-" (decimal size)) = Some (decimal first, decimal size)) as ->.
  { apply split_once_Some. split; [done|by apply digits_no_dash]. }
  simpl mbind. by rewrite !parse_decimal.
Qed.

(** A lock file is named by the ports it covers.  Reading back the name of
    a block gives its first port and its size, for all 32-bit values, so two
    blocks share a lock file only when they cover the same ports. *)
Theorem block_name_parses first size :
  0 ≤ first ≤ u32_max → 0 ≤ size ≤ u32_max → parse_name (block_name first size) = Some (first, size).
Proof. apply parse_block_name. Qed.

Lemma block_name_parses_witness : parse_name "block-20000-10.lock" = Some (20000, 10).
Proof. apply (block_name_parses 20000 10); unfold u32_max; lia. Defined.

(** ** Live lanes have disjoint ports *)

Definition in_lease (l : Lease) (port : Z) : Prop := lease_base l ≤ port < lease_base l + lease_size l.
Definition lease_ok (l : Lease) : Prop :=
  1024 ≤ lease_base l ∧ 1 ≤ lease_size l ∧ lease_base l + lease_size l ≤ 65536.
Definition apart (a b : Lease) : Prop :=
  lease_base a + lease_size a ≤ lease_base b ∨ lease_base b + lease_size b ≤ lease_base a.

Record inv (w : World) : Prop := {
  i_ok : Forall lease_ok (leases w);
  i_file : Forall (λ l, lease_name l ∈ files w) (leases w);
  i_apart i j a b : leases w !! i = Some a → leases w !! j = Some b → i ≠ j → apart a b;
}.

Lemma apart_sym a b : apart a b → apart b a.
Proof. unfold apart. lia. Qed.

Lemma is_held_elem w name : is_held w name = true ↔ ∃ l, l ∈ leases w ∧ lease_name l = name.
Proof.
  unfold is_held. rewrite existsb_exists. setoid_rewrite <-list_elem_of_In. by setoid_rewrite bool_decide_eq_true.
Qed.

(** A block that a held lease overlaps is skipped. *)
Lemma not_overlapping fs w p first l :
  inv w → probes_answer fs w → l ∈ leases w → 0 ≤ first → 1 ≤ size p → first + size p ≤ 65536 →
  overlaps_held fs w p first = false → is_held w (block_name first (size p)) = false → apart l (mkLease first (size p)).
Proof.
  intros Hinv Hfs Hl H0 H1 Hmax Hov Hown. pose proof (i_ok _ Hinv) as Hok. pose proof (i_file _ Hinv) as Hf.
  rewrite list.Forall_forall in Hok, Hf. specialize (Hok _ Hl). specialize (Hf _ Hl). destruct Hok as (Hb & Hs & Hm).
  unfold apart. simpl. destruct (decide (lease_name l = block_name first (size p))) as [Heq|Hne].
  { assert (is_held w (block_name first (size p)) = true); [|congruence]. apply is_held_elem. eauto. }
  assert ((lease_name l, (lease_base l, lease_size l)) ∈ others w) as Hin.
  { unfold others. apply list_elem_of_omap. exists (lease_name l). split; [done|]. unfold lease_name.
    rewrite parse_block_name by (unfold u32_max; lia). done. }
  unfold overlaps_held in Hov. rewrite <-not_true_iff_false, existsb_exists in Hov.
  destruct (Z.le_gt_cases (lease_base l + lease_size l) first); [by left|].
  destruct (Z.le_gt_cases (first + size p) (lease_base l)); [by right|]. exfalso. apply Hov.
  eexists. split; [by apply list_elem_of_In|]. simpl.
  rewrite bool_decide_eq_false_2 by done. unfold wrapping_add_u32. rewrite Z.mod_small by lia.
  rewrite !(proj2 (Z.ltb_lt _ _)) by lia. simpl.
  assert (is_held w (lease_name l) = true) as Hh by (apply is_held_elem; eauto).
  unfold try_lock_existing. by rewrite (Hfs _ Hh), Hh.
Qed.

Lemma try_lock_Ok fs w name : try_lock fs w name = Ok tt → is_held w name = false.
Proof. unfold try_lock. destruct (lock_fault fs name); [done|]. by destruct (is_held w name). Qed.

Lemma scan_Some fs w p index fuel l w' :
  scan fs w p index fuel = Ok (Some l, w') →
  ∃ k, index ≤ k < index + Z.of_nat fuel ∧ let first := base p + k * size p in
    l = mkLease first (size p) ∧ overlaps_held fs w p first = false ∧ is_held w (block_name first (size p)) = false ∧
    w' = mkWorld (lock_file w (block_name first (size p))) (l :: leases w).
Proof.
  revert index. induction fuel as [|fuel IH]; intros index; simpl; [done|].
  assert (scan fs w p (index + 1) fuel = Ok (Some l, w') → ∃ k, index ≤ k < index + Z.of_nat (S fuel) ∧
    let first := base p + k * size p in
    l = mkLease first (size p) ∧ overlaps_held fs w p first = false ∧ is_held w (block_name first (size p)) = false ∧
    w' = mkWorld (lock_file w (block_name first (size p))) (l :: leases w)) as Hnext.
  { intros (k & ? & ?)%IH. exists k. split; [lia|done]. }
  destruct (overlaps_held fs w p (base p + index * size p)) eqn:Ho; [done|].
  destruct (try_lock fs w (block_name (base p + index * size p) (size p))) as [[]|[]] eqn:Hh; try done.
  intros [= <- <-]. apply try_lock_Ok in Hh. exists index. by split; [lia|].
Qed.
Lemma scan_none_same fs w p index fuel w' : scan fs w p index fuel = Ok (None, w') → w' = w.
Proof.
  revert index. induction fuel as [|fuel IH]; intros index; simpl; [by intros [= <-]|].
  destruct (overlaps_held _ _ _ _); [by apply IH|]. destruct (try_lock _ _ _) as [[]|[]]; try done. by apply IH.
Qed.
Lemma try_acquire_scan fs p h l h' :
  try_acquire fs p h = Ok (l, h') → ∃ dir w,
    is_valid p = true ∧ open_anchor fs (state p) = Ok dir ∧
    scan fs (world_at h dir) p 0 (Z.to_nat (blocks p)) = Ok (l, w) ∧ h' = <[dir := w]> h.
Proof.
  unfold try_acquire. destruct (is_valid p); [|done]. simpl. intros (dir & Hdir & H)%result_bind_Ok.
  do 4 apply result_bind_Ok in H as (? & _ & H). apply result_bind_Ok in H as ([l' w] & Hs & [= -> <-]).
  by exists dir, w.
Qed.

Lemma block_in_range p k :
  is_valid p = true → 0 ≤ k < blocks p →
  1024 ≤ base p + k * size p ∧ 1 ≤ size p ∧ base p + k * size p + size p ≤ 65536.
Proof. unfold is_valid. rewrite !andb_true_iff, !Z.leb_le. intros. nia. Qed.

Lemma lock_file_elem w name x : x ∈ lock_file w name ↔ x ∈ files w ∨ x = name.
Proof. unfold lock_file. case_bool_decide; set_solver. Qed.

Lemma scan_inv fs p w l w' :
  inv w → probes_answer fs w → is_valid p = true → scan fs w p 0 (Z.to_nat (blocks p)) = Ok (l, w') → inv w'.
Proof.
  intros Hinv Hfs Hv Hs. destruct l as [l|]; [|by apply scan_none_same in Hs as ->].
  apply scan_Some in Hs as (k & Hk & Hs). cbv zeta in Hs. destruct Hs as (-> & Ho & Hh & ->).
  destruct (block_in_range p k Hv) as (H1 & H2 & H3); [lia|]. split; simpl.
  - constructor; [by split|apply Hinv].
  - constructor; [apply lock_file_elem; by right|]. eapply List.Forall_impl; [|exact (i_file _ Hinv)].
    intros x Hx. apply lock_file_elem. by left.
  - assert (∀ x, x ∈ leases w → apart x (mkLease (base p + k * size p) (size p))) as Hnew.
    { intros x Hx. by apply (not_overlapping fs w); try lia. }
    intros [|i] [|j] a b Ha Hb Hij; simpl in *; simplify_eq.
    + apply apart_sym, Hnew. by eapply list_elem_of_lookup_2.
    + apply Hnew. by eapply list_elem_of_lookup_2.
    + eapply (i_apart _ Hinv); [done..|congruence].
Qed.

Lemma release_inv i w : inv w → inv (release i w).
Proof.
  intros Hinv. split; simpl.
  - apply Forall_delete, Hinv.
  - apply Forall_delete, Hinv.
  - intros j k a b. rewrite !list_lookup_delete. intros Ha Hb Hjk.
    repeat case_decide; (eapply (i_apart _ Hinv); [exact Ha|exact Hb|lia]).
Qed.

Lemma world_at_insert h dir w dir' :
  world_at (<[dir := w]> h) dir' = if decide (dir = dir') then w else world_at h dir'.
Proof.
  unfold world_at. case_decide as E; [by rewrite E, lookup_insert_eq|by rewrite lookup_insert_ne].
Qed.

Lemma reachable_inv h : reachable h → ∀ dir, inv (world_at h dir).
Proof.
  induction 1 as [|fs h p l h' _ IH Hfs Ht|h d i _ IH|h d name _ IH]; intros dir.
  - unfold world_at. rewrite lookup_empty. split; simpl; [constructor..|]. by intros i j a b Ha.
  - apply try_acquire_scan in Ht as (d & w & Hv & Hd & Hs & ->). rewrite world_at_insert. case_decide; [|done].
    by eapply scan_inv; [|apply Hfs|..].
  - rewrite world_at_insert. case_decide; [|done]. by apply release_inv.
  - cbv zeta. rewrite world_at_insert. case_decide; [|done]. destruct (IH d) as [Hok Hf Ha].
    split; simpl; [done| |done]. eapply List.Forall_impl; [|exact Hf]. intros x Hx. by right.
Qed.

(** C34: lanes on one state directory have disjoint ports.  However lanes with
    whatever valid plans acquire and release blocks on any state directories,
    and whatever other files lie there, no port belongs to two leases held in
    one directory, even when their plans cut the port space differently, and
    every leased port is unprivileged and exists.  This relies on the shared
    probe of a held lock file answering that it is held: a probe that fails
    otherwise reads as a free block. *)
Theorem lane_ports_disjoint h dir i j a b port :
  reachable h → leases (world_at h dir) !! i = Some a → leases (world_at h dir) !! j = Some b →
  in_lease a port → in_lease b port → i = j ∧ 1024 ≤ port ≤ 65535.
Proof.
  intros Hreach Ha Hb Hpa Hpb. pose proof (reachable_inv _ Hreach dir) as Hinv. unfold in_lease in *. split.
  - destruct (decide (i = j)) as [|Hne]; [done|]. exfalso.
    destruct (i_apart _ Hinv _ _ _ _ Ha Hb Hne); lia.
  - pose proof (i_ok _ Hinv) as Hok. rewrite list.Forall_forall in Hok.
    destruct (Hok a) as (? & ? & ?); [by eapply list_elem_of_lookup_2|]. lia.
Qed.

Definition example_plan : Plan := mkPlan "/state" 20000 10 4 None.
Definition other_plan : Plan := mkPlan "/state" 20005 7 3 (Some HostConfig).
Definition quiet : Fs := mkFs (λ path, Ok (Z.of_nat (String.length path))) (Err AlreadyExists) (Ok tt) (Ok tt)
  (λ attempt, if Nat.ltb attempt 2 then Err LockTimeout else Ok tt) (Ok tt) (λ _, None) (λ _, None).
Definition after (ps : list Plan) : Host :=
  fold_left (λ h p, match try_acquire quiet p h with Ok (_, h') => h' | Err _ => h end) ps ∅.
Lemma after_reachable ps : reachable (after ps).
Proof.
  unfold after. enough (∀ h, reachable h → reachable (fold_left
    (λ h p, match try_acquire quiet p h with Ok (_, h') => h' | Err _ => h end) ps h)) as H by apply H, reach_start.
  induction ps as [|p ps IH]; intros h Hh; simpl; [done|]. apply IH.
  destruct (try_acquire quiet p h) as [[l h']|] eqn:Ht; [|done].
  eapply reach_acquire; [done| |done]. by intros ? _ ?.
Qed.

Lemma lane_ports_disjoint_witness : 0%nat = 0%nat ∧ 1024 ≤ 20013 ≤ 65535.
Proof.
  apply (lane_ports_disjoint (after [example_plan; other_plan]) 6 0 0 (mkLease 20012 7) (mkLease 20012 7) 20013);
    [apply after_reachable|vm_compute; reflexivity|vm_compute; reflexivity|unfold in_lease; simpl; lia..].
Defined.

(** The blocks of different state directories are not compared: two plans of the
    same ports on two directories both get them. *)
Lemma other_state_shares_ports :
  let h := after [example_plan; mkPlan "/elsewhere" 20000 10 4 None] in
  reachable h ∧ leases (world_at h 6) = [mkLease 20000 10] ∧ leases (world_at h 10) = [mkLease 20000 10].
Proof. split; [apply after_reachable|]. split; vm_compute; reflexivity. Qed.

Lemma scan_None fs w p index fuel w' :
  (∀ name, lock_fault fs name = None) → scan fs w p index fuel = Ok (None, w') →
  ∀ k, index ≤ k < index + Z.of_nat fuel →
    overlaps_held fs w p (base p + k * size p) = true ∨ is_held w (block_name (base p + k * size p) (size p)) = true.
Proof.
  intros Hlf. revert index. induction fuel as [|fuel IH]; intros index; simpl; [lia|]. unfold try_lock. rewrite Hlf.
  destruct (overlaps_held fs w p (base p + index * size p)) eqn:Ho;
    [|destruct (is_held w (block_name (base p + index * size p) (size p))) eqn:Hh; [|done]];
    intros H k Hk; (destruct (decide (k = index)) as [->|]; [auto|]; apply (IH (index + 1)); [done|lia]).
Qed.
Lemma scan_total fs w p index fuel :
  (∀ name, lock_fault fs name = None) → ∃ l w', scan fs w p index fuel = Ok (l, w').
Proof.
  intros Hlf. revert index. induction fuel as [|fuel IH]; intros index; simpl; [eauto|]. unfold try_lock. rewrite Hlf.
  destruct (overlaps_held _ _ _ _); [done|]. destruct (is_held _ _); eauto.
Qed.

Lemma held_overlap fs w p first :
  inv w → 0 ≤ first → 1 ≤ size p → first + size p ≤ 65536 →
  overlaps_held fs w p first = true ∨ is_held w (block_name first (size p)) = true →
  (∀ name, probe_fault fs name = None) →
  ∃ l port, l ∈ leases w ∧ in_lease l port ∧ first ≤ port < first + size p.
Proof.
  intros Hinv H0 H1 Hmax. pose proof (i_ok _ Hinv) as Hok. rewrite list.Forall_forall in Hok.
  assert (∀ l name f s, l ∈ leases w → lease_name l = name → parse_name name = Some (f, s) →
            f = lease_base l ∧ s = lease_size l ∧ lease_ok l) as Hname.
  { intros l name f s Hl <- Hp. destruct (Hok l Hl) as (? & ? & ?). unfold lease_name in Hp.
    rewrite parse_block_name in Hp by (unfold u32_max; lia). injection Hp as <- <-. by split_and!; [..|apply Hok]. }
  intros [Ho|Hh] Hpf.
  - unfold overlaps_held in Ho. apply existsb_exists in Ho as ([name [f s]] & Hin & Hg).
    apply list_elem_of_In in Hin. unfold others in Hin. apply list_elem_of_omap in Hin as (name' & _ & Hp).
    destruct (parse_name name') as [r|] eqn:Hpn; [|done]. injection Hp as -> ->.
    unfold try_lock_existing in Hg. rewrite Hpf in Hg. rewrite !andb_true_iff, !Z.ltb_lt in Hg.
    destruct Hg as [[[_ Hlt] Hlt'] Hg]. destruct (is_held w name) eqn:Hheld; [|done].
    apply is_held_elem in Hheld as (l & Hl & Hln).
    destruct (Hname l name f s Hl Hln Hpn) as (-> & -> & Hlok). destruct Hlok as (? & ? & ?).
    unfold wrapping_add_u32 in Hlt. rewrite Z.mod_small in Hlt by lia.
    exists l, (Z.max first (lease_base l)). unfold in_lease. split; [done|]. lia.
  - apply is_held_elem in Hh as (l & Hl & Hln). destruct (Hname l _ first (size p) Hl Hln) as (Hf & Hs & _).
    { apply parse_block_name; unfold u32_max; lia. }
    exists l, first. unfold in_lease. split; [done|]. lia.
Qed.

(** A file system that answers: the directory opens, the gate is free by one
    of the attempts, and locking fails only on a held file. *)
Record answers (fs : Fs) : Prop := {
  a_open path : ∃ dir, open_anchor fs path = Ok dir;
  a_mkdir : mkdir fs = Ok tt ∨ mkdir fs = Err AlreadyExists;
  a_sync : sync fs = Ok tt;
  a_dir : open_verified_directory fs = Ok tt;
  a_gate : ∃ k, (k < GATE_TRIES)%nat ∧ gate fs k = Ok tt ∧ ∀ j, (j < k)%nat → gate fs j = Err LockTimeout;
  a_entries : entries fs = Ok tt;
  a_probe name : probe_fault fs name = None;
  a_lock name : lock_fault fs name = None;
}.

Lemma take_gate_free g attempt fuel k :
  (attempt ≤ k < attempt + fuel)%nat → g k = Ok tt → (∀ j, (attempt ≤ j < k)%nat → g j = Err LockTimeout) →
  take_gate g attempt fuel = Ok tt.
Proof.
  revert attempt. induction fuel as [|fuel IH]; intros attempt Hk Hg Hbefore; [lia|]. simpl.
  destruct (decide (k = attempt)) as [->|Hne]; [by rewrite Hg|]. rewrite Hbefore by lia.
  apply IH; [lia|done|]. intros j Hj. apply Hbefore. lia.
Qed.
Lemma try_acquire_answers fs p h :
  answers fs → is_valid p = true → ∃ dir, open_anchor fs (state p) = Ok dir ∧
    try_acquire fs p h = ('(lease, w) ← scan fs (world_at h dir) p 0 (Z.to_nat (blocks p)); Ok (lease, <[dir := w]> h)).
Proof.
  intros Ha Hv. unfold try_acquire. destruct (a_gate _ Ha) as (k & Hk & Hg & Hb).
  destruct (a_open _ Ha (state p)) as [dir Hdir]. exists dir. split; [done|].
  rewrite Hv, Hdir, (take_gate_free _ _ _ k), (a_dir _ Ha), (a_entries _ Ha), (a_sync _ Ha); simpl;
    [|lia|done|intros j Hj; apply Hb; lia].
  by destruct (a_mkdir _ Ha) as [-> | ->].
Qed.

(** A lane goes without a block only when none is free.  On a file system
    that answers, a valid plan gets a lease of its own block size inside its
    space, unless every one of its blocks has a port that a live lane holds in
    the directory of its state path. *)
Theorem lane_gets_free_block fs h p :
  reachable h → answers fs → is_valid p = true → ∃ dir, open_anchor fs (state p) = Ok dir ∧
  let w := world_at h dir in
  ((∃ l h', try_acquire fs p h = Ok (Some l, h') ∧ lease_size l = size p ∧
     base p ≤ lease_base l ∧ lease_base l + lease_size l ≤ base p + size p * blocks p) ∨
  (try_acquire fs p h = Ok (None, <[dir := w]> h) ∧
   ∀ k, 0 ≤ k < blocks p → ∃ l port, l ∈ leases w ∧ in_lease l port ∧
     base p + k * size p ≤ port < base p + k * size p + size p)).
Proof.
  intros Hreach Ha Hv. destruct (try_acquire_answers fs p h Ha Hv) as (dir & Hdir & ->). exists dir. split; [done|].
  pose proof (reachable_inv _ Hreach dir) as Hinv. cbv zeta. set (w := world_at h dir) in *.
  destruct (scan_total fs w p 0 (Z.to_nat (blocks p)) (a_lock _ Ha)) as ([l|] & w' & Hs); rewrite Hs; [left|right].
  - apply scan_Some in Hs as (k & Hk & Hs). cbv zeta in Hs. destruct Hs as (-> & _ & _ & ->).
    unfold is_valid in Hv. rewrite !andb_true_iff, !Z.leb_le in Hv.
    do 2 eexists. split; [done|]. simpl. nia.
  - pose proof (scan_none_same _ _ _ _ _ _ Hs) as ->. split; [done|]. intros k Hk.
    destruct (block_in_range p k Hv Hk) as (? & ? & ?).
    eapply held_overlap; [done|lia..| |apply (a_probe _ Ha)]. eapply scan_None; [apply (a_lock _ Ha)|exact Hs|]. lia.
Qed.

Lemma quiet_answers : answers quiet.
Proof.
  split; try done; [by eexists|by right|]. exists 2%nat. split; [unfold GATE_TRIES; lia|]. split; [done|].
  intros j Hj. assert (j = 0 ∨ j = 1)%nat as [-> | ->] by lia; done.
Qed.
Lemma lane_gets_free_block_witness :
  ∃ dir, open_anchor quiet "/state" = Ok dir ∧ let w := world_at (after [example_plan]) dir in
  ((∃ l h', try_acquire quiet other_plan (after [example_plan]) = Ok (Some l, h') ∧ lease_size l = 7 ∧
     20005 ≤ lease_base l ∧ lease_base l + lease_size l ≤ 20005 + 7 * 3) ∨
  (try_acquire quiet other_plan (after [example_plan]) = Ok (None, <[dir := w]> (after [example_plan])) ∧
   ∀ k, 0 ≤ k < 3 → ∃ l port, l ∈ leases w ∧ in_lease l port ∧
     20005 + k * 7 ≤ port < 20005 + k * 7 + 7)).
Proof.
  apply (lane_gets_free_block quiet (after [example_plan]) other_plan);
    [apply after_reachable|apply quiet_answers|vm_compute; reflexivity].
Defined.
