(* ===== verification/RoutingTypes.v ===== *)
(** * RoutingTypes: requests, models and the catalogue

    Models the data of [crates/routing/src/]: exact model identifiers and route
    requests ([request.rs]), the catalogue with its lookups and its validation
    ([catalog.rs]), the errors of [lib.rs], availability records and quota
    observations ([facts.rs]), caller exclusions ([exclusion.rs]), and the two
    pure policies on what follows an attempt ([fallback.rs], [retry.rs]).

    A [BTreeMap] is the list of its entries in key order.  Floating point
    numbers are the IEEE 754 binary64 values of [SpecFloat]. *)

From Stdlib Require Import Ascii SpecFloat.
From stdpp Require Import base option list strings sets pretty gmap.
From S2P Require Import Prelude External ReviewPaths ReviewPolicy ReviewCheck Adapters Routes QuotaState.

Local Open Scope string_scope.
Local Open Scope list_scope.
Local Open Scope Z_scope.
Local Open Scope rust_scope.

(** ** Helpers of the standard library *)

Abbreviation map_get := ReviewPolicy.get (only parsing).

(** [iter().find_map(f)]. *)
Fixpoint find_map {A B} (f : A → option B) (l : list A) : option B :=
  match l with
  | [] => None
  | x :: l' => match f x with Some y => Some y | None => find_map f l' end
  end.

(** [max_by_key] keeps the last of the greatest, [min_by_key] the first of the
    least.  A key is the list of its components, compared in order. *)
Fixpoint key_ltb (a b : list Z) : bool :=
  match a, b with
  | x :: a', y :: b' => (x <? y) || ((x =? y) && key_ltb a' b')
  | [], _ :: _ => true
  | _, [] => false
  end.
Definition max_by_key {A} (key : A → list Z) (l : list A) : option A :=
  fold_left (λ best x, match best with
                       | None => Some x
                       | Some y => if key_ltb (key x) (key y) then Some y else Some x
                       end) l None.
Definition min_by_key {A} (key : A → list Z) (l : list A) : option A :=
  fold_left (λ best x, match best with
                       | None => Some x
                       | Some y => if key_ltb (key x) (key y) then Some x else Some y
                       end) l None.
(** [sort_by_key] on a vector. *)
Fixpoint insert_sorted {A} (key : A → list Z) (x : A) (l : list A) : list A :=
  match l with
  | [] => [x]
  | y :: l' => if key_ltb (key y) (key x) then y :: insert_sorted key x l' else x :: l
  end.
Definition sort_by {A} (key : A → list Z) (l : list A) : list A := foldr (insert_sorted key) [] l.
Definition Z_min (l : list Z) : option Z := min_by_key (λ z, [z]) l.

(** [collect::<BTreeSet<_>>] of strings. *)
Definition btree_set (l : list string) : list string :=
  fst <$> foldr (λ s m, insert_key s tt m) [] l.

(** [text.chars().any(char::is_whitespace)] on UTF-8 bytes: the code points with
    the property White_Space. *)
Definition byte_at (s : string) (i : nat) : Z :=
  match String.get i s with Some c => byte_of c | None => -1 end.
Definition starts_with_whitespace (s : string) : bool :=
  let b := byte_at s in
  ((9 <=? b 0%nat) && (b 0%nat <=? 13)) || (b 0%nat =? 32)
  || ((b 0%nat =? 194) && ((b 1%nat =? 133) || (b 1%nat =? 160)))
  || ((b 0%nat =? 225) && (b 1%nat =? 154) && (b 2%nat =? 128))
  || ((b 0%nat =? 226) && (b 1%nat =? 128)
      && (((128 <=? b 2%nat) && (b 2%nat <=? 138)) || (b 2%nat =? 168) || (b 2%nat =? 169) || (b 2%nat =? 175)))
  || ((b 0%nat =? 226) && (b 1%nat =? 129) && (b 2%nat =? 159))
  || ((b 0%nat =? 227) && (b 1%nat =? 128) && (b 2%nat =? 128)).
Fixpoint has_whitespace (s : string) : bool :=
  match s with
  | EmptyString => false
  | String _ s' => starts_with_whitespace s || has_whitespace s'
  end.

(** [str::to_ascii_lowercase]. *)
Definition ascii_lower (c : ascii) : ascii :=
  let b := byte_of c in
  if (65 <=? b) && (b <=? 90) then ascii_of_nat (Z.to_nat (b + 32)) else c.
Fixpoint to_ascii_lowercase (s : string) : string :=
  match s with
  | EmptyString => EmptyString
  | String c s' => String (ascii_lower c) (to_ascii_lowercase s')
  end.

(** [str::chars]: a byte 80 to BF continues the character before it. *)
Fixpoint chars (s : string) : list string :=
  match s with
  | EmptyString => []
  | String c s' =>
      match chars s', s' with
      | ch :: rest, String d _ =>
          if (128 <=? byte_of d) && (byte_of d <=? 191) then String c ch :: rest
          else String c EmptyString :: ch :: rest
      | rest, _ => String c EmptyString :: rest
      end
  end.

(** [str::trim] and [str::lines]. *)
Fixpoint drop_while {A} (p : A → bool) (l : list A) : list A :=
  match l with
  | [] => []
  | x :: l' => if p x then drop_while p l' else l
  end.
Definition trim (s : string) : string :=
  let strip l := drop_while starts_with_whitespace l in
  String.concat "" (rev (strip (rev (strip (chars s))))).
Definition LF : ascii := "010"%char.
Definition lines (s : string) : list string :=
  let parts := split_all LF s in
  let parts := match List.last parts "" with EmptyString => removelast parts | _ => parts end in
  (λ line, unwrap_or (strip_suffix (String "013"%char EmptyString) line) line) <$> parts.

(** [slice::join]. *)
Definition join (sep : string) (l : list string) : string := String.concat sep l.

(** [str::split(c).next()], which always has a part. *)
Definition first_part (sep : ascii) (s : string) : string :=
  match split_all sep s with part :: _ => part | [] => s end.

(** ** [f64] *)

Definition f64 : Type := spec_float.
Definition f64_of (m e : Z) : f64 := binary_normalize 53 1024 m e false.
Definition f64_from (n : Z) : f64 := f64_of n 0.
Definition f64_mul : f64 → f64 → f64 := SFmul 53 1024.
Definition f64_div : f64 → f64 → f64 := SFdiv 53 1024.
Definition f64_le : f64 → f64 → bool := SFleb.
Definition f64_lt : f64 → f64 → bool := SFltb.
Definition is_finite (x : f64) : bool :=
  match x with S754_zero _ | S754_finite _ _ _ => true | _ => false end.

(** [x.round().clamp(lo, hi) as u32] for whole [0 <= lo <= hi] in range: rounding
    is to the nearest integer, ties away from zero; a NaN is cast to zero. *)
Definition round_away (m e : Z) : Z :=
  if 0 <=? e then m * 2 ^ e else (2 * m + 2 ^ (- e)) / (2 * 2 ^ (- e)).
Definition round_clamp_u32 (lo hi : Z) (x : f64) : Z :=
  match x with
  | S754_nan => 0
  | S754_infinity s => if s then lo else hi
  | S754_zero _ => lo
  | S754_finite s m e => if s then lo else clamp lo hi (round_away (Zpos m) e)
  end.

(** ** Errors, [lib.rs] *)

Inductive RoutingError :=
| ReadOnlyPolicy
| InvalidModel
| InvalidValue
| ErrAlternatives
| UnknownAdapter
| ErrUnsupportedLaunch (why : string)
| UnknownRoute
| ConfidentialModel
| NoEligiblePoolMember (exclusions : list string)
| ErrUnsupportedEffort (model effort support : string)
| UnknownExclusion (selector detail : string)
| ErrCatalogue
| ErrAvailability
| ErrReviewDemand.

Definition RoutingError_code (e : RoutingError) : string :=
  match e with
  | ReadOnlyPolicy => "read_only_policy"
  | InvalidModel => "invalid_model"
  | InvalidValue => "invalid_value"
  | ErrAlternatives => "alternatives"
  | UnknownAdapter => "unknown_adapter"
  | ErrUnsupportedLaunch _ => "unsupported_launch"
  | UnknownRoute => "unknown_route"
  | ConfidentialModel => "confidential_model"
  | NoEligiblePoolMember _ => "no_eligible_pool_member"
  | ErrUnsupportedEffort _ _ _ => "unsupported_effort"
  | UnknownExclusion _ _ => "unknown_exclusion"
  | ErrCatalogue => "catalogue"
  | ErrAvailability => "availability"
  | ErrReviewDemand => "review_demand"
  end.

(** ** Requests, [request.rs] *)

(** The field is private: [ModelId_parse] is the only constructor, also for a
    deserialised value. *)
Record ModelId := mkModelId { id_str : string }.
#[export] Instance ModelId_eq_dec : EqDecision ModelId.
Proof. solve_decision. Defined.

Definition ModelId_parse (text : string) : result RoutingError ModelId :=
  match split_once "/"%char text with
  | None => Err InvalidModel
  | Some (adapter, id) =>
      if (512 <? str_len text) || negb (identifier adapter) || str_is_empty id
         || has_whitespace id || has_control id
         || contains_char "#"%char id || contains_char ","%char id
      then Err InvalidModel
      else Ok (mkModelId text)
  end.
Definition id_adapter (self : ModelId) : string :=
  match split_once "/"%char (id_str self) with Some (adapter, _) => adapter | None => "" end.
Definition id_model (self : ModelId) : string :=
  match split_once "/"%char (id_str self) with Some (_, id) => id | None => "" end.

Definition effort_valid (text : string) : bool := identifier text.

Record RouteName := mkRouteName { name_str : string }.
Definition RouteName_parse (text : string) : result RoutingError RouteName :=
  if negb (identifier text) then Err InvalidValue else Ok (mkRouteName text).

Inductive RouteChoice :=
| ChoiceModel (model : ModelId)
| NamedRoute (name : RouteName).

Record BoundedModels := mkBoundedModels { bounded_slice : list ModelId }.
Definition BoundedModels_new (bound : nat) (models : list ModelId) : result RoutingError BoundedModels :=
  if bool_decide (models = []) || (Z.of_nat bound <? len models) then Err ErrAlternatives
  else if negb (distinct_by (λ x, x) [] models) then Err ErrAlternatives
  else Ok (mkBoundedModels models).

Inductive Fallback :=
| FallbackNone
| FallbackModels (models : BoundedModels).

Inductive Workload := General | ReadHeavy | EditHeavy | Review.

Record RouteIntent := mkRouteIntent {
  workload : Workload;
  writes : bool;
  intent_network : option NetworkAccess;
  intent_image_input : bool;
  skill_location : bool;
}.

Record RouteRequest := mkRouteRequest {
  intent : RouteIntent;
  choice : RouteChoice;
  effort : option string;
  confidential : bool;
  fallback : Fallback;
}.

(** [RouteIntent::check_launch], [policy.rs]. *)
Definition intent_check_launch (self : RouteIntent) (spec : AdapterSpec) (model : string)
    (effort : option string) : result UnsupportedLaunch unit :=
  check_launch spec (mkLaunchRequest (Some model) effort false (intent_network self) (writes self)
                       (skill_location self)).

(** ** The catalogue, [catalog.rs] *)

Inductive PacingPolicy := Pace | Spend | Max | Off.
#[export] Instance PacingPolicy_eq_dec : EqDecision PacingPolicy.
Proof. solve_decision. Defined.

Inductive MonthlyAllowance := Dollars (usd : Z) | Unlimited.

Record ModelEntry := mkModelEntry {
  entry_free : bool;
  entry_model : ModelId;
  entry_efforts : list string;
  entry_evidence_ref : string;
  family : option string;
  trains_on_prompts : option bool;
  monthly_allowance_usd : option MonthlyAllowance;
  entry_quota_pool : option string;
}.

Record RoutePoolMember := mkRoutePoolMember {
  member_model : ModelId;
  member_weight : Z;
  member_effort : option string;
  member_efforts : list string;
  member_free : bool;
}.

(** [RoutePoolMember::reconciled]. *)
Definition reconciled (self : RoutePoolMember) (entry : option ModelEntry)
    : RoutePoolMember * list string :=
  match entry with
  | None => (self, [])
  | Some entry =>
      let kept := List.filter (contains (entry_efforts entry)) (member_efforts self) in
      let dropped := List.filter (λ e, negb (contains (entry_efforts entry) e)) (member_efforts self) in
      let with_effort effort :=
        mkRoutePoolMember (member_model self) (member_weight self) effort kept (member_free self) in
      match member_effort self with
      | Some effort =>
          if contains kept effort then (with_effort (Some effort), dropped)
          else if negb (contains dropped effort) then (with_effort None, dropped ++ [effort])
          else (with_effort None, dropped)
      | None => (with_effort None, dropped)
      end
  end.

Record WriterAdvisory := mkWriterAdvisory {
  advisory_label : option string;
  warn_models : list ModelId;
  cheaper_models : list ModelId;
  pool_priority : list string;
}.

Definition WriterAdvisory_validate (self : WriterAdvisory) (prefix : string) : list SectionError :=
  error_if (is_some_and (advisory_label self) (λ label,
              str_is_empty label || (128 <? str_len label) || has_control label))
    (prefix +:+ ".label") "label"
  ++ error_if ((256 <? len (warn_models self)) || (256 <? len (cheaper_models self))) prefix "limit"
  ++ error_if ((32 <? len (pool_priority self))
               || existsb (λ pool, negb (identifier pool)) (pool_priority self)
               || negb (distinct_by (λ x, x) [] (pool_priority self)))
       (prefix +:+ ".pool_priority") "selector".

Record WriterAdvisoryOverride := mkWriterAdvisoryOverride {
  override_label : option string;
  override_warn_models : option (list ModelId);
  override_cheaper_models : option (list ModelId);
  override_pool_priority : option (list string);
}.
Definition merged (self : WriterAdvisoryOverride) (bundled : WriterAdvisory) : WriterAdvisory :=
  mkWriterAdvisory (match override_label self with Some l => Some l | None => advisory_label bundled end)
    (unwrap_or (override_warn_models self) (warn_models bundled))
    (unwrap_or (override_cheaper_models self) (cheaper_models bundled))
    (unwrap_or (override_pool_priority self) (pool_priority bundled)).
Definition WriterAdvisoryOverride_validate (self : WriterAdvisoryOverride) (prefix : string)
    : list SectionError :=
  WriterAdvisory_validate
    (mkWriterAdvisory (override_label self) (unwrap_or (override_warn_models self) [])
       (unwrap_or (override_cheaper_models self) []) (unwrap_or (override_pool_priority self) []))
    prefix.

Record Catalogue := mkCatalogue {
  cat_schema_version : Z;
  cat_revision : string;
  models : list ModelEntry;
  cat_pools : list (string * list RoutePoolMember);
  cat_pacing : list (string * PacingPolicy);
  writer_advisory : WriterAdvisory;
}.

Definition cat_model (self : Catalogue) (id : ModelId) : option ModelEntry :=
  List.find (λ row, entry_model row == id) (models self).
Definition has_pool (self : Catalogue) (name : string) : bool := contains_key name (cat_pools self).

Definition quota_pool (self : Catalogue) (id : ModelId) : option string :=
  match cat_model self id with
  | Some row => entry_quota_pool row
  | None =>
      let family := first_part "-"%char (id_model id) in
      find_map (λ row, match entry_quota_pool row with
                       | Some pool => if pool == family then Some pool else None
                       | None => None
                       end)
        (List.filter (λ row, id_adapter (entry_model row) == id_adapter id) (models self))
  end.

Definition is_free_model (self : Catalogue) (id : ModelId) : bool :=
  is_some_and (cat_model self id) entry_free
  || existsb (λ member, member_free member && (member_model member == id)) (flat_map snd (cat_pools self)).

Definition free_pools (adapter : string) (free : bool) : list string :=
  match Adapters.get adapter ≫= free_pool with
  | Some pool => if free then [pool] else []
  | None => []
  end.

Definition admission_pools (self : Catalogue) (model : ModelId) : list string :=
  free_pools (id_adapter model) (is_free_model self model) ++ option_list (quota_pool self model).

(** A row the validation refuses, the check for repeated models apart. *)
Definition row_invalid (row : ModelEntry) : bool :=
  str_is_empty (entry_evidence_ref row) || (512 <? str_len (entry_evidence_ref row))
  || (16 <? len (entry_efforts row))
  || existsb (λ e, negb (effort_valid e)) (entry_efforts row)
  || is_some_and (family row) (λ f, negb (identifier f))
  || is_some_and (entry_quota_pool row) (λ pool,
       negb (identifier pool)
       || negb (is_some_and (Adapters.get (id_adapter (entry_model row))) grouped_quota_pools)).

Definition pool_member_invalid (self : Catalogue) (member : RoutePoolMember) : bool :=
  match cat_model self (member_model member) with
  | None => true
  | Some model =>
      (100 <? member_weight member)
      || existsb (λ effort, negb (contains (entry_efforts model) effort)) (member_efforts member)
      || is_some_and (member_effort member) (λ effort, negb (contains (member_efforts member) effort))
  end.
Definition pool_invalid (self : Catalogue) (pool : string * list RoutePoolMember) : bool :=
  let '(name, members) := pool in
  negb (identifier name) || bool_decide (length members = 0%nat) || (16 <? len members)
  || negb (distinct_by member_model [] members)
  || existsb (pool_member_invalid self) members.

(** [Catalogue::validate]: every refusal is the same error. *)
Definition Catalogue_validate (self : Catalogue) : result RoutingError unit :=
  let advice := writer_advisory self in
  if negb (bool_decide (length (WriterAdvisory_validate advice "writer_advisory") = 0%nat))
     || existsb (λ id, is_none (cat_model self id)) (warn_models advice ++ cheaper_models advice)
     || existsb (λ pool, negb (has_pool self pool)) (pool_priority advice)
  then Err ErrCatalogue
  else if (cat_schema_version self != 1) || negb (identifier (cat_revision self)) || (256 <? len (models self))
  then Err ErrCatalogue
  else if negb (distinct_by entry_model [] (models self)) || existsb row_invalid (models self)
  then Err ErrCatalogue
  else if 32 <? len (cat_pools self) then Err ErrCatalogue
  else if existsb (pool_invalid self) (cat_pools self) then Err ErrCatalogue
  else Ok tt.

(** *** Similar model names *)

(** One row of the edit distance: [diagonal] and [left] are the cells the new
    cell is computed from with the one above it. *)
Fixpoint distance_row (ca : string) (b : list string) (diagonal left : nat) (above : list nat) : list nat :=
  match b, above with
  | cb :: b', up :: above' =>
      let cell := Nat.min (Nat.min (diagonal + (if ca == cb then 0 else 1)) (left + 1)) (up + 1) in
      cell :: distance_row ca b' up cell above'
  | _, _ => []
  end.
Fixpoint distance_rows (i : nat) (a b : list string) (row : list nat) : list nat :=
  match a with
  | [] => row
  | ca :: a' =>
      match row with
      | diagonal :: above => distance_rows (S i) a' b (S i :: distance_row ca b diagonal (S i) above)
      | [] => row
      end
  end.
Definition distance (a b : string) : nat :=
  List.last (distance_rows 0 (chars a) (chars b) (seq 0 (S (length (chars b))))) 0%nat.

(** [str::rsplit_once] at one ASCII character. *)
Fixpoint rsplit_once (sep : ascii) (s : string) : option (string * string) :=
  match s with
  | EmptyString => None
  | String c s' =>
      match rsplit_once sep s' with
      | Some (a, b) => Some (String c a, b)
      | None => if Ascii.eqb c sep then Some (EmptyString, s') else None
      end
  end.
Definition name_parts (id : ModelId) : string * string :=
  if is_some_and (Adapters.get (id_adapter id)) namespaced_models
  then unwrap_or (rsplit_once "/"%char (id_model id)) ("", id_model id)
  else ("", id_model id).

(** [matches.sort()] on pairs of a distance and a name. *)
Definition near_leb (a b : nat * string) : bool :=
  (a.1 <? b.1)%nat || ((a.1 =? b.1)%nat && negb (String.ltb b.2 a.2)).
Fixpoint insert_near (x : nat * string) (l : list (nat * string)) : list (nat * string) :=
  match l with
  | [] => [x]
  | y :: l' => if near_leb x y then x :: l else y :: insert_near x l'
  end.
Definition nearest_models (self : Catalogue) (model : ModelId) : list string :=
  let '(namespace, name) := name_parts model in
  let near (entry : ModelEntry) : option (nat * string) :=
    let '(entry_namespace, entry_name) := name_parts (entry_model entry) in
    if entry_namespace != namespace then None
    else
      let edits := distance name entry_name in
      let cutoff :=
        Nat.max 1 (Nat.min 3 (Nat.max (length (chars name)) (length (chars entry_name)) / 3)) in
      if (edits <=? cutoff)%nat then Some (edits, id_str (entry_model entry)) else None in
  let found := omap near (List.filter (λ entry, id_adapter (entry_model entry) == id_adapter model) (models self)) in
  snd <$> take 3 (foldr insert_near [] found).

(** ** Facts, [facts.rs] *)

Record AvailabilityRecord := mkAvailabilityRecord {
  av_schema_version : Z;
  av_adapter : string;
  av_executable : string;
  av_version : string;
  av_fixture_ref : string;
  av_catalogue_revision : string;
  av_account_key : option string;
  av_observed_models : list string;
  av_observed : Z;
  av_expires : Z;
}.

Definition validate_availability (record : AvailabilityRecord) (adapter : string) : result RoutingError unit :=
  if (av_schema_version record != 1) || (av_adapter record != adapter)
     || str_is_empty (av_executable record) || (4096 <? str_len (av_executable record))
     || str_is_empty (av_version record) || (128 <? str_len (av_version record))
     || str_is_empty (av_fixture_ref record) || (512 <? str_len (av_fixture_ref record))
     || (128 <? str_len (av_catalogue_revision record))
     || (av_expires record <=? av_observed record)
     || (256 <? len (av_observed_models record))
     || existsb (λ m, str_is_empty m || (512 <? str_len m) || has_control m) (av_observed_models record)
     || is_some_and (av_account_key record) (λ s, negb (identifier s))
  then Err ErrAvailability else Ok tt.

Record QuotaObservation := mkQuotaObservation {
  q_model : ModelId;
  q_snapshot : QuotaSnapshot;
  q_expires : Z;
}.

(** ** Caller exclusions, [exclusion.rs] *)

Inductive ExclusionSelector :=
| ExcludeProvider (provider : string)
| ExcludeAccount (adapter key : string)
| ExcludeModel (model : ModelId).
Inductive ExclusionSource := SourceFlag | SourceGraph | SourceConfig.
Definition ExclusionSource_as_str (s : ExclusionSource) : string :=
  match s with SourceFlag => "flag" | SourceGraph => "graph" | SourceConfig => "config" end.
Record ExclusionRule := mkExclusionRule { selector : ExclusionSelector; rule_source : ExclusionSource }.

Definition EXCLUSION_FORMS : string :=
  "a provider (claude), an account (label, entry or adapter/key), or an exact model (adapter/id)".

Definition ExclusionSelector_parse (text : string) (providers : list string) (models : list ModelId)
    (resolve_account : string → result string (option (string * string)))
    : result RoutingError ExclusionSelector :=
  if contains providers text then Ok (ExcludeProvider text)
  else
    let account :=
      match resolve_account text with
      | Err detail => Err (UnknownExclusion text detail)
      | Ok (Some (adapter, key)) => Ok (ExcludeAccount adapter key)
      | Ok None =>
          Err (UnknownExclusion text
                 ("valid forms: " +:+ EXCLUSION_FORMS +:+ "; providers: " +:+ join ", " providers))
      end in
    match ModelId_parse text with
    | Ok model => if bool_decide (model ∈ models) then Ok (ExcludeModel model) else account
    | Err _ => account
    end.

Definition ExclusionSelector_display (s : ExclusionSelector) : string :=
  match s with
  | ExcludeProvider provider => "provider " +:+ provider
  | ExcludeAccount adapter key => "account " +:+ adapter +:+ "/" +:+ key
  | ExcludeModel model => "model " +:+ id_str model
  end.
Definition ExclusionRule_display (r : ExclusionRule) : string :=
  "excluded by " +:+ ExclusionSource_as_str (rule_source r) +:+ ": " +:+ ExclusionSelector_display (selector r).

Definition removes (self : ExclusionRule) (model : ModelId) (serving_accounts_remain : bool) : bool :=
  match selector self with
  | ExcludeProvider provider => id_adapter model == provider
  | ExcludeModel excluded => excluded == model
  | ExcludeAccount adapter _ => (id_adapter model == adapter) && negb serving_accounts_remain
  end.
Definition rule_account (self : ExclusionRule) : option (string * string) :=
  match selector self with ExcludeAccount adapter key => Some (adapter, key) | _ => None end.

(** ** After an attempt, [fallback.rs] and [retry.rs] *)

Inductive FallbackOutcome := OutcomeAuthRequired | UsageLimited | AdapterUnavailable | OutcomeOther.
#[export] Instance FallbackOutcome_eq_dec : EqDecision FallbackOutcome.
Proof. solve_decision. Defined.

Definition from_exclusion (reason : RouteExclusionReason) : FallbackOutcome :=
  match reason with
  | AuthRequired | LoginExpired | AccountMismatch => OutcomeAuthRequired
  | Exhausted | FreeTierRefused | ProviderRefused => UsageLimited
  | MissingExecutable | Disabled | UnknownAvailability | StaleAvailability | UnknownAccount
  | UnknownPartialHeadroom | ConfinementUnavailable | UnsupportedEffort | UnverifiedModel =>
      AdapterUnavailable
  | _ => OutcomeOther
  end.

Inductive FallbackHandoff := HandoffLocal | UncertainOrLaunched | Launched.
#[export] Instance FallbackHandoff_eq_dec : EqDecision FallbackHandoff.
Proof. solve_decision. Defined.

Record FallbackPolicy := mkFallbackPolicy {
  outcome : FallbackOutcome;
  handoff : FallbackHandoff;
  custody_released : bool;
  fallback_read_only : bool;
  budget_remaining : bool;
  pinned : bool;
}.

Definition allows_switch (self : FallbackPolicy) : bool :=
  match outcome self with
  | OutcomeAuthRequired | UsageLimited | AdapterUnavailable => true
  | OutcomeOther => false
  end
  && (((handoff self == HandoffLocal) && custody_released self)
      || ((handoff self == Launched) && fallback_read_only self
          && match outcome self with OutcomeAuthRequired | UsageLimited => true | _ => false end))
  && budget_remaining self && negb (pinned self).

Definition DEFAULT_SETTLEMENT_RETRIES : Z := 2.
Definition MAX_SETTLEMENT_RETRIES : Z := 32.
Definition MAX_RETRY_WAIT_SECONDS : Z := 7 * 24 * 3600.

Inductive RetryAllowanceOrigin := OriginNode | OriginPreset | OriginHostConfig | OriginShippedDefault.
Record RetryAllowance := mkRetryAllowance { retries : Z; allowance_origin : RetryAllowanceOrigin }.
Definition resolve_retry_allowance (node preset host : option Z) : RetryAllowance :=
  match node, preset, host with
  | Some value, _, _ => mkRetryAllowance value OriginNode
  | None, Some value, _ => mkRetryAllowance value OriginPreset
  | None, None, Some value => mkRetryAllowance value OriginHostConfig
  | None, None, None => mkRetryAllowance DEFAULT_SETTLEMENT_RETRIES OriginShippedDefault
  end.

(** ** Facts about the helpers *)

Lemma max_by_key_elem {B} (key : B → list Z) l x : max_by_key key l = Some x → x ∈ l.
Proof.
  unfold max_by_key. assert (∀ l acc, fold_left (λ best x, match best with
      | None => Some x | Some y => if key_ltb (key x) (key y) then Some y else Some x end) l acc = Some x →
      acc = Some x ∨ x ∈ l) as H; [|intros [?|?]%H; done].
  clear l. induction l as [|y l IH]; intros acc; simpl; [by left|]. intros [H|H]%IH.
  - destruct acc as [z|]; [destruct (key_ltb _ _)|]; simplify_eq; (by left) || (right; set_solver).
  - right. set_solver.
Qed.
Lemma max_by_key_None {B} (key : B → list Z) l : max_by_key key l = None ↔ l = [].
Proof.
  unfold max_by_key. split; [|by intros ->]. destruct l as [|y l]; [done|]. simpl.
  assert (∀ l z, fold_left (λ best x, match best with
      | None => Some x | Some y => if key_ltb (key x) (key y) then Some y else Some x end) l (Some z) ≠ None) as H.
  { clear. induction l as [|y l IH]; intros z; simpl; [done|]. case_match; apply IH. }
  intros Hl. by apply H in Hl.
Qed.
Lemma min_by_key_elem {B} (key : B → list Z) l x : min_by_key key l = Some x → x ∈ l.
Proof.
  unfold min_by_key. assert (∀ l acc, fold_left (λ best x, match best with
      | None => Some x | Some y => if key_ltb (key x) (key y) then Some x else Some y end) l acc = Some x →
      acc = Some x ∨ x ∈ l) as H; [|intros [?|?]%H; done].
  clear l. induction l as [|y l IH]; intros acc; simpl; [by left|]. intros [H|H]%IH.
  - destruct acc as [z|]; [destruct (key_ltb _ _)|]; simplify_eq; (by left) || (right; set_solver).
  - right. set_solver.
Qed.

(** The order of keys is total: [key_ltb b a = false] is [a <= b]. *)
Lemma key_le_trans a b d : key_ltb b a = false → key_ltb d b = false → key_ltb d a = false.
Proof.
  revert b d. induction a as [|x a IH]; intros [|y b] [|z d]; simpl; try done.
  rewrite !orb_false_iff, !Z.ltb_ge, !andb_false_iff, !Z.eqb_neq. intros [? H1] [? H2]. split; [lia|].
  destruct (decide (z = x)) as [->|]; [|by left].
  assert (y = x) as -> by lia. right. destruct H1, H2; try lia. by eapply IH.
Qed.
Lemma key_ltb_irrefl a : key_ltb a a = false.
Proof. induction a as [|x a IH]; simpl; [done|]. rewrite IH, andb_false_r, Z.ltb_irrefl. done. Qed.
Lemma key_ltb_asym a b : key_ltb a b = true → key_ltb b a = false.
Proof.
  intros Hab. destruct (key_ltb b a) eqn:Hba; [|done]. exfalso. revert b Hab Hba.
  induction a as [|x a IH]; intros [|y b]; simpl; try done.
  rewrite !orb_true_iff, !andb_true_iff, !Z.ltb_lt, !Z.eqb_eq. intros [?|[-> Hab]] [?|[? Hba]]; try lia. by eapply IH.
Qed.

Lemma min_by_key_least {B} (key : B → list Z) l x y :
  min_by_key key l = Some x → y ∈ l → key_ltb (key y) (key x) = false.
Proof.
  unfold min_by_key. assert (∀ l acc, fold_left (λ best x, match best with
      | None => Some x | Some y => if key_ltb (key x) (key y) then Some x else Some y end) l acc = Some x →
      (∀ z, acc = Some z → key_ltb (key z) (key x) = false) ∧ (y ∈ l → key_ltb (key y) (key x) = false)) as H.
  { clear l. induction l as [|u l IH]; intros acc; cbn [fold_left].
    { intros ->. split; [intros z [= ->]; apply key_ltb_irrefl|by intros ?%elem_of_nil]. }
    intros [Hacc Hl]%IH. destruct acc as [z|].
    - destruct (key_ltb (key u) (key z)) eqn:Hu; specialize (Hacc _ eq_refl); split.
      + intros z' [= <-]. apply key_ltb_asym in Hu. by eapply key_le_trans.
      + intros [->|?]%elem_of_cons; auto.
      + by intros z' [= <-].
      + intros [->|?]%elem_of_cons; [|by auto]. by eapply key_le_trans.
    - specialize (Hacc _ eq_refl). split; [done|]. intros [->|?]%elem_of_cons; auto. }
  intros Hx. by apply H in Hx as [_ Hx].
Qed.
Lemma max_by_key_greatest {B} (key : B → list Z) l x y :
  max_by_key key l = Some x → y ∈ l → key_ltb (key x) (key y) = false.
Proof.
  unfold max_by_key. assert (∀ l acc, fold_left (λ best x, match best with
      | None => Some x | Some y => if key_ltb (key x) (key y) then Some y else Some x end) l acc = Some x →
      (∀ z, acc = Some z → key_ltb (key x) (key z) = false) ∧ (y ∈ l → key_ltb (key x) (key y) = false)) as H.
  { clear l. induction l as [|u l IH]; intros acc; cbn [fold_left].
    { intros ->. split; [intros z [= ->]; apply key_ltb_irrefl|by intros ?%elem_of_nil]. }
    intros [Hacc Hl]%IH. destruct acc as [z|].
    - destruct (key_ltb (key u) (key z)) eqn:Hu; specialize (Hacc _ eq_refl); split.
      + by intros z' [= <-].
      + intros [->|?]%elem_of_cons; [|by auto]. apply key_ltb_asym in Hu. by eapply key_le_trans.
      + intros z' [= <-]. by eapply key_le_trans.
      + intros [->|?]%elem_of_cons; auto.
    - specialize (Hacc _ eq_refl). split; [done|]. intros [->|?]%elem_of_cons; auto. }
  intros Hx. by apply H in Hx as [_ Hx].
Qed.

Lemma find_map_None {A B} (f : A → option B) l : find_map f l = None ↔ ∀ x, x ∈ l → f x = None.
Proof.
  induction l as [|x l IH]; cbn.
  - split; [|done]. intros _ x Hx. by apply elem_of_nil in Hx.
  - setoid_rewrite elem_of_cons. destruct (f x) eqn:E; [|rewrite IH; naive_solver].
    split; [done|]. intros H. rewrite H in E by auto. done.
Qed.
