(* ===== verification/RoutingPolicy.v ===== *)
(** * RoutingPolicy: schedules and layered model policies

    Models [crates/routing/src/policy.rs]: activation schedules, the policy a
    model runs under (bundled rules, defaults and configured rules laid over one
    another), what a policy permits, and the validation that decides whether
    invalid input may be dropped or must refuse the configuration.  The bundled
    rules are an embedded asset, and an argument. *)

From Stdlib Require Import Ascii SpecFloat.
From stdpp Require Import base option list strings sets pretty gmap.
From S2P Require Import Prelude External ReviewPaths ReviewPolicy ReviewCheck Adapters Routes QuotaState RoutingTypes.

Local Open Scope string_scope.
Local Open Scope list_scope.
Local Open Scope Z_scope.
Local Open Scope rust_scope.

(** ** Policies *)

Inductive CompactionMode := CompactAuto | TaskBoundary | CompactNever.
#[export] Instance CompactionMode_eq_dec : EqDecision CompactionMode.
Proof. solve_decision. Defined.
Inductive UserSkillsMode := SkillsDiscover | SkillsOff.

Record CompactionPolicy := mkCompactionPolicy {
  comp_window : option Z;
  comp_mode : option CompactionMode;
  min_turns : option Z;
}.
Record CachePolicy := mkCachePolicy {
  read_share_target : option f64;
  price_multiplier : option f64;
  read_ratio : option f64;
  write_ratio : option f64;
  output_ratio : option f64;
  ttl_seconds : option Z;
  min_prefix : option Z;
  context_window : option Z;
  read_heavy_weight : option Z;
}.
Record LanePolicy := mkLanePolicy {
  max_context : option Z;
  max_turns : option Z;
  stop_early_ok : option bool;
  max_continuations : option Z;
  read_only : option bool;
  lane_user_skills : option UserSkillsMode;
}.
Record ResultPolicy := mkResultPolicy {
  result_check : option bool;
  sections : option (list string);
  result_fallback : option ModelId;
  fallback_effort : option string;
}.
Record ModelPolicy := mkModelPolicy {
  compaction : CompactionPolicy;
  cache : CachePolicy;
  lane : LanePolicy;
  policy_result : ResultPolicy;
}.

Definition ModelPolicy_default : ModelPolicy :=
  mkModelPolicy (mkCompactionPolicy None None None)
    (mkCachePolicy None None None None None None None None None)
    (mkLanePolicy None None None None None None) (mkResultPolicy None None None None).

(** One field of the [overlay!] macro: a set patch replaces the base. *)
Definition over {A} (base patch : option A) : option A :=
  match patch with Some _ => patch | None => base end.

Definition overlay (self patch : ModelPolicy) : ModelPolicy :=
  let c := compaction self in let c' := compaction patch in
  let k := cache self in let k' := cache patch in
  let l := lane self in let l' := lane patch in
  let r := policy_result self in let r' := policy_result patch in
  mkModelPolicy
    (mkCompactionPolicy (over (comp_window c) (comp_window c')) (over (comp_mode c) (comp_mode c'))
       (over (min_turns c) (min_turns c')))
    (mkCachePolicy (over (read_share_target k) (read_share_target k'))
       (over (price_multiplier k) (price_multiplier k')) (over (read_ratio k) (read_ratio k'))
       (over (write_ratio k) (write_ratio k')) (over (output_ratio k) (output_ratio k'))
       (over (ttl_seconds k) (ttl_seconds k')) (over (min_prefix k) (min_prefix k'))
       (over (context_window k) (context_window k')) (over (read_heavy_weight k) (read_heavy_weight k')))
    (mkLanePolicy (over (max_context l) (max_context l')) (over (max_turns l) (max_turns l'))
       (over (stop_early_ok l) (stop_early_ok l')) (over (max_continuations l) (max_continuations l'))
       (over (read_only l) (read_only l')) (over (lane_user_skills l) (lane_user_skills l')))
    (mkResultPolicy (over (result_check r) (result_check r')) (over (sections r) (sections r'))
       (over (result_fallback r) (result_fallback r')) (over (fallback_effort r) (fallback_effort r'))).

Definition permits (self : ModelPolicy) (intent : RouteIntent) : bool :=
  (read_only (lane self) != Some true) || negb (writes intent).

(** The literals [0.03], [10_000.0] and [1.0]. *)
Definition READ_RATIO_LIMIT : f64 := f64_of 8646911284551352 (-58).
Definition cache_factor_basis_points (self : ModelPolicy) (intent : RouteIntent) : Z :=
  if match workload intent with ReadHeavy | Review => true | _ => false end
     && is_some_and (read_ratio (cache self)) (λ r, f64_le r READ_RATIO_LIMIT)
     && is_some_and (context_window (cache self)) (λ c, 1000000 <=? c)
  then
    round_clamp_u32 1 100000
      (f64_div (f64_mul (f64_from (unwrap_or (read_heavy_weight (cache self)) 3)) (f64_from 10000))
         (unwrap_or (price_multiplier (cache self)) (f64_from 1)))
  else 10000.

Definition break_even_turns (self : ModelPolicy) (context summary rework : Z) : option f64 :=
  r ← read_ratio (cache self);
  w ← write_ratio (cache self);
  o ← output_ratio (cache self);
  let add := SFadd 53 1024 in
  if f64_le r (f64_from 0) || (context <=? summary) then None
  else Some (f64_div
               (add (add (f64_mul r (f64_from context)) (f64_mul (add o w) (f64_from summary)))
                  (f64_mul w (f64_from rework)))
               (f64_mul r (f64_from (context - summary)))).

Definition result_valid (self : ModelPolicy) (text : string) : bool :=
  (result_check (policy_result self) != Some true)
  || (negb (str_is_empty (trim text))
      && is_none_or (sections (policy_result self)) (λ sections,
           forallb (λ section, existsb (λ line, trim line == section) (lines text)) sections)).

Definition launch_env (self : ModelPolicy) (adapter : string) : list (string * string) :=
  match Adapters.get adapter ≫= compaction_env with
  | Some variable =>
      if comp_mode (compaction self) != Some CompactNever
      then match comp_window (compaction self) with
           | Some window => [(variable, pretty window)]
           | None => []
           end
      else []
  | None => []
  end.

Definition validate_intent (policy : ModelPolicy) (intent : RouteIntent) : result RoutingError unit :=
  if permits policy intent then Ok tt else Err ReadOnlyPolicy.

Definition restricts (self : ModelPolicy) : bool :=
  (read_only (lane self) == Some true) || is_some (max_context (lane self)) || is_some (max_turns (lane self)).

(** The literal [0.01]. *)
Definition MIN_MULTIPLIER : f64 := f64_of 5764607523034235 (-59).
Definition out_of_range (lo hi : f64) (n : option f64) : bool :=
  is_some_and n (λ n, negb (is_finite n) || negb (f64_le lo n && f64_le n hi)).

Definition invalid_fields (self : ModelPolicy) : list (string * string) :=
  let ratio := out_of_range (f64_from 0) (f64_from 1000) in
  let k := cache self in
  let checks :=
    [("cache.read_ratio", ratio (read_ratio k), "policy");
     ("cache.write_ratio", ratio (write_ratio k), "policy");
     ("cache.output_ratio", ratio (output_ratio k), "policy");
     ("cache.price_multiplier", out_of_range MIN_MULTIPLIER (f64_from 1000) (price_multiplier k), "policy");
     ("cache.read_share_target", out_of_range (f64_from 0) (f64_from 1) (read_share_target k), "policy");
     ("compaction.window", comp_window (compaction self) == Some 0, "policy");
     ("cache.context_window", context_window k == Some 0, "policy");
     ("cache.ttl_seconds", ttl_seconds k == Some 0, "policy");
     ("lane.max_context", max_context (lane self) == Some 0, "restriction");
     ("lane.max_turns", max_turns (lane self) == Some 0, "restriction");
     ("lane.max_continuations", is_some_and (max_continuations (lane self)) (λ n, 8 <? n), "policy");
     ("cache.read_heavy_weight", is_some_and (read_heavy_weight k) (λ n, (n == 0) || (10 <? n)), "policy");
     ("result.sections", is_some_and (sections (policy_result self)) (λ s,
        (16 <? len s)
        || existsb (λ s, str_is_empty (trim s) || (256 <? str_len s) || has_control s) s), "policy");
     ("result.fallback_effort",
        is_some_and (fallback_effort (policy_result self)) (λ e, negb (effort_valid e)), "policy")] in
  (λ '(field, _, code), (field, code)) <$> List.filter (λ '(_, invalid, _), invalid) checks.

(** Why a result fallback cannot run on the catalogue. *)
Definition fallback_problem (result : ResultPolicy) (catalogue : Catalogue) : option string :=
  match result_fallback result with
  | None => None
  | Some model =>
      match cat_model catalogue model with
      | None => Some "unknown model"
      | Some entry =>
          if is_some_and (fallback_effort result) (λ effort, negb (contains (entry_efforts entry) effort))
          then Some "unsupported effort" else None
      end
  end.

(** ** Schedules *)

Section Schedules.
Context {T : Jiff} {C : Civil}.

(** [a < b] and [a >= b] on instants. *)
Definition Timestamp_ltb (a b : Timestamp) : bool := negb (Timestamp_leb b a).

Record ScheduleWindow := mkScheduleWindow {
  weekdays : list Z;
  start_hour : Z;
  end_hour : Z;
}.
Definition ScheduleWindow_valid (self : ScheduleWindow) : bool :=
  (start_hour self <? 24) && (end_hour self <=? 24) && (start_hour self != end_hour self)
  && distinct_by (λ d, d) [] (weekdays self) && forallb (λ day, day <=? 6) (weekdays self).
Definition ScheduleWindow_active (self : ScheduleWindow) (now : Z) (tz : option string) : bool :=
  let zone := unwrap_or (tz ≫= tz_get) tz_UTC in
  match from_second now with
  | None => false
  | Some instant =>
      let '(date, hour) := to_zoned zone instant in
      let day := weekday_monday_zero date in
      let day := if (end_hour self <=? start_hour self) && (hour <? end_hour self)
                 then (day + 6) mod 7 else day in
      if negb (bool_decide (weekdays self = [])) && negb (bool_decide (day ∈ weekdays self)) then false
      else if start_hour self <? end_hour self
      then (start_hour self <=? hour) && (hour <? end_hour self)
      else (start_hour self <=? hour) || (hour <? end_hour self)
  end.

Record Schedule := mkSchedule {
  starts : option Timestamp;
  schedule_expires : option Timestamp;
  schedule_tz : option string;
  schedule_windows : list ScheduleWindow;
}.
Definition Schedule_default : Schedule := mkSchedule None None None [].
Definition MAX_SCHEDULE_WINDOWS : Z := 16.

Definition Schedule_active (self : Schedule) (now : Timestamp) : bool :=
  is_none_or (starts self) (λ start, Timestamp_leb start now)
  && is_none_or (schedule_expires self) (λ end_, Timestamp_ltb now end_)
  && (bool_decide (length (schedule_windows self) = 0%nat)
      || existsb (λ window, ScheduleWindow_active window (as_second now) (schedule_tz self))
           (schedule_windows self)).
Definition Schedule_remaining (self : Schedule) (now : Timestamp) : option Z :=
  (λ end_, Z.max (saturating_sub_i64 (as_second end_) (as_second now)) 0) <$> schedule_expires self.
Definition Schedule_valid (self : Schedule) : bool :=
  match starts self, schedule_expires self with
  | Some starts, Some expires => Timestamp_ltb starts expires
  | _, _ => true
  end
  && is_none_or (schedule_tz self) (λ tz, is_some (tz_get tz))
  && (len (schedule_windows self) <=? MAX_SCHEDULE_WINDOWS)
  && forallb ScheduleWindow_valid (schedule_windows self).

(** ** Rules *)

Record ModelPolicyRule := mkModelPolicyRule {
  rule_adapter : option string;
  rule_model : option ModelId;
  model_suffix : option string;
  rule_account_selector : option string;
  rule_schedule : Schedule;
  rule_policy : ModelPolicy;
}.

Definition scope_valid (self : ModelPolicyRule) : bool :=
  negb
    (is_some_and (rule_adapter self) (λ a,
       negb (identifier a) || is_some_and (rule_model self) (λ m, id_adapter m != a))
     || is_some_and (model_suffix self) (λ suffix,
          str_is_empty suffix || (128 <? str_len suffix) || has_control suffix)
     || is_some_and (rule_account_selector self) (λ a,
          (2 <? len (split_all "/"%char a))
          || existsb (λ part, negb (identifier part)) (split_all "/"%char a))
     || negb (Schedule_valid (rule_schedule self))).

Record ModelPolicies := mkModelPolicies {
  bundled : bool;
  defaults : ModelPolicy;
  rules : list ModelPolicyRule;
}.

(** The filter of [apply_rules]. *)
Definition rule_matches (rule : ModelPolicyRule) (model : ModelId) (account : option string)
    (now : Timestamp) : bool :=
  scope_valid rule
  && is_none_or (rule_adapter rule) (λ a, a == id_adapter model)
  && is_none_or (rule_model rule) (λ m, m == model)
  && is_none_or (model_suffix rule) (λ suffix, ends_with (id_model model) suffix)
  && is_none_or (rule_account_selector rule) (λ a,
       is_some_and account (λ key, (a == key) || (a == id_adapter model +:+ "/" +:+ key)))
  && Schedule_active (rule_schedule rule) now.

Definition rule_scope (r : ModelPolicyRule) : Z :=
  Z.b2z (is_some (rule_adapter r))
  + 2 * Z.b2z (is_some (rule_model r) || is_some (model_suffix r))
  + 4 * Z.b2z (is_some (rule_account_selector r)).

(** The matching rules with their index, in the order they are laid over. *)
Definition matching_rules (self : list ModelPolicyRule) (model : ModelId) (account : option string)
    (now : Timestamp) : list (nat * ModelPolicyRule) :=
  sort_by (λ '(index, r), [rule_scope r; Z.of_nat index])
    (List.filter (λ '(_, rule), rule_matches rule model account now) (imap pair self)).

Definition apply_rules (self : list ModelPolicyRule) (policy : ModelPolicy) (sources : list string)
    (model : ModelId) (account : option string) (now : Timestamp) : ModelPolicy * list string :=
  fold_left (λ '(policy, sources) '(index, rule),
      (overlay policy (rule_policy rule), sources ++ ["rules[" +:+ pretty (index : nat) +:+ "]"]))
    (matching_rules self model account now) (policy, sources).

(** The bundled asset: its defaults and rules, and the bundled catalogue. *)
Class RoutingAssets := {
  bundled_policies : ModelPolicies;
  bundled_catalogue : result RoutingError Catalogue;
  REGISTRY : list string;
}.

Context {A : RoutingAssets}.

Definition bundled_policy (model : ModelId) (now : Timestamp) : ModelPolicy :=
  (apply_rules (rules bundled_policies) (defaults bundled_policies) [] model None now).1.

Record EffectiveModelPolicy := mkEffectiveModelPolicy {
  policy : ModelPolicy;
  sources : list string;
  dropped_fallback : option (ModelId * string);
}.

(** The key an account selector names on the adapter of [model]. *)
Definition policy_account (model : ModelId) (account : option string) : option string :=
  account ≫= λ account,
    match split_once "/"%char account with
    | Some (adapter, key) => if adapter == id_adapter model then Some key else None
    | None => Some account
    end.

Definition effective (self : ModelPolicies) (model : ModelId) (account : option string) (now : Timestamp)
    : EffectiveModelPolicy :=
  let account := policy_account model account in
  let base := if bundled self then bundled_policy model now else ModelPolicy_default in
  let '(p, sources) :=
    apply_rules (rules self) (overlay base (defaults self))
      [if bundled self then "bundled + defaults" else "defaults"] model account now in
  match result_fallback (policy_result p) with
  | None => mkEffectiveModelPolicy p sources None
  | Some fallback =>
      let problem := match bundled_catalogue with
                     | Ok catalogue => fallback_problem (policy_result p) catalogue
                     | Err _ => Some "catalogue unavailable"
                     end in
      match problem with
      | None => mkEffectiveModelPolicy p sources None
      | Some reason =>
          mkEffectiveModelPolicy
            (mkModelPolicy (compaction p) (cache p) (lane p)
               (mkResultPolicy (result_check (policy_result p)) (sections (policy_result p)) None None))
            sources (Some (fallback, reason))
      end
  end.

(** [ModelPolicies::validate]: the errors pushed, in order. *)
Definition ModelPolicies_validate (self : ModelPolicies) : list SectionError :=
  error_if (128 <? len (rules self)) "model_policy.rules"
    (if existsb (λ rule, restricts (rule_policy rule)) (rules self) then "restriction" else "limit")
  ++ ((λ '(field, code), mkError ("model_policy.defaults." +:+ field) code) <$> invalid_fields (defaults self))
  ++ List.concat (imap (λ i rule,
       ((λ '(field, code), mkError ("model_policy.rules." +:+ pretty (i : nat) +:+ ".policy." +:+ field) code)
          <$> invalid_fields (rule_policy rule))
       ++ error_if (negb (scope_valid rule)) ("model_policy.rules." +:+ pretty i)
            (if restricts (rule_policy rule) then "restriction" else "policy")) (rules self)).
End Schedules.

(** ** The configuration boundary *)

Definition ENFORCED : list string := ["max_context"; "max_turns"; "read_only"].
Definition RETIRED_SCHEDULE_KEYS : list (string * string) :=
  [("starts_unix_seconds", "moved_to_schedule.starts");
   ("expires_unix_seconds", "moved_to_schedule.expires");
   ("windows", "moved_to_schedule.windows")].

Definition boundary (error : SectionError) : bool :=
  match List.find (λ '(_, c), c == code error) RETIRED_SCHEDULE_KEYS with
  | Some (key, _) => List.last (split_all "."%char (field error)) "" == key
  | None =>
      if code error == "restriction" then true
      else if code error == "policy" then false
      else
        match strip_prefix "model_policy" (field error) with
        | None => false
        | Some rest =>
            let parts := List.filter (λ part, negb (str_is_empty part)) (split_all "."%char rest) in
            let at_policy (policy : list string) : bool :=
              match policy with
              | [] | ["lane"] => true
              | "lane" :: leaf :: _ => contains ENFORCED leaf
              | _ => false
              end in
            match parts with
            | [] | ["rules"] | ["rules"; _] => true
            | "defaults" :: policy => at_policy policy
            | "rules" :: index :: "policy" :: policy =>
                if is_some (parse_usize index) then at_policy policy else false
            | _ => false
            end
        end
  end.
