(* ===== verification/RoutingConfig.v ===== *)
(** * RoutingConfig: routing settings

    Models the settings of [crates/routing/src/catalog.rs]: pacing profiles,
    overrides and deadlines, model choices and exclusions, named routes and
    pools, the validation of the whole section, and the queries other parts ask
    of it (preferred model, default effort, allowance floor, writer advice). *)

From Stdlib Require Import Ascii SpecFloat.
From stdpp Require Import base option list strings sets pretty gmap.
From S2P Require Import Prelude External ReviewPaths ReviewPolicy ReviewCheck Adapters Routes QuotaState RoutingTypes RoutingPolicy.

Local Open Scope string_scope.
Local Open Scope list_scope.
Local Open Scope Z_scope.
Local Open Scope rust_scope.

(** ** Settings without time *)

Inductive PacingWindow := FiveHour | SevenDay | Monthly | Rolling | Daily.
#[export] Instance PacingWindow_eq_dec : EqDecision PacingWindow.
Proof. solve_decision. Defined.
Inductive AfterDeadline := Standby | Continue.
#[export] Instance AfterDeadline_eq_dec : EqDecision AfterDeadline.
Proof. solve_decision. Defined.

Record ResetDeadline := mkResetDeadline { reset_of : string; reset_window : PacingWindow }.

Record PacingReserve := mkPacingReserve { five_hour_percent : Z; seven_day_percent : Z }.
Definition PacingReserve_default : PacingReserve := mkPacingReserve 15 10.

Record Route := mkRoute { route_id : ModelId; named_effort : option string }.

Definition account_identifier (value : string) : bool :=
  match split_once "/"%char value with
  | None => identifier value
  | Some (adapter, key) => identifier adapter && identifier key
  end.

(** [str::split_whitespace]. *)
Fixpoint split_blank (word : string) (l : list string) : list string :=
  match l with
  | [] => if str_is_empty word then [] else [word]
  | ch :: l' =>
      if starts_with_whitespace ch
      then (if str_is_empty word then [] else [word]) ++ split_blank "" l'
      else split_blank (word +:+ ch) l'
  end.
Definition split_whitespace (s : string) : list string := split_blank "" (chars s).

(** [str::parse::<i8>]. *)
Definition parse_i8 (s : string) : option Z :=
  match s with
  | String c s' =>
      if byte_of c =? 45 then Z.opp <$> uint_digits 128 s'
      else if byte_of c =? 43 then uint_digits 127 s' else uint_digits 127 s
  | EmptyString => None
  end.

Definition WEEKDAYS : list string := ["mon"; "tue"; "wed"; "thu"; "fri"; "sat"; "sun"].

(** [format!("{n:02}")] of a number that is not negative. *)
Definition two_digits (n : Z) : string := (if n <? 10 then "0" else "") +:+ pretty n.

Section Config.
Context {T : Jiff} {C : Civil} {A : RoutingAssets}.

(** ** Deadlines *)

Inductive FixedDeadline :=
| Weekly (weekday hour minute : Z)
| MonthlyDay (day : Z)
| Absolute (datetime : DateTime).

Definition FixedDeadline_parse (value : string) : option FixedDeadline :=
  match split_whitespace value with
  | [day; time] =>
      if contains WEEKDAYS day then
        match split_once ":"%char time with
        | Some (hour, minute) =>
            if (str_len hour == 2) && (str_len minute == 2) then
              match parse_i8 hour, parse_i8 minute with
              | Some h, Some m =>
                  if (0 <=? h) && (h <? 24) && (0 <=? m) && (m <? 60)
                  then Some (Weekly (Z.of_nat (unwrap_or (position (λ d, d == day) WEEKDAYS) 0%nat)) h m)
                  else None
              | _, _ => None
              end
            else None
        | None => None
        end
      else if day == "day" then
        match parse_i8 time with
        | Some d => if (1 <=? d) && (d <=? 31) then Some (MonthlyDay d) else None
        | None => None
        end
      else None
  | [_] => Absolute <$> DateTime_parse value
  | _ => None
  end.
Definition FixedDeadline_display (value : FixedDeadline) : string :=
  match value with
  | Weekly weekday hour minute =>
      nth (Z.to_nat weekday) WEEKDAYS "" +:+ " " +:+ two_digits hour +:+ ":" +:+ two_digits minute
  | MonthlyDay day => "day " +:+ pretty day
  | Absolute datetime => DateTime_display datetime
  end.

Inductive PacingDeadline := ResetOf (d : ResetDeadline) | Fixed (d : FixedDeadline).

(** ** The section *)

Record PacingProfile := mkPacingProfile {
  profile_policy : option PacingPolicy;
  profile_windows : option (list PacingWindow);
  reserve : list (PacingWindow * Z);
  profile_deadline : option PacingDeadline;
  after_deadline : AfterDeadline;
}.
Record PacingSettings := mkPacingSettings {
  accounts : list (string * PacingProfile);
  free : list (string * PacingProfile);
  providers : list (string * PacingPolicy);
}.
Record PacingOverride := mkPacingOverride {
  override_account : option string;
  override_provider : option string;
  override_policy : PacingPolicy;
  override_schedule : Schedule;
}.
Record ModelChoiceOverride := mkModelChoiceOverride {
  dimension : string;
  risk_tier : string;
  task_kind : string;
  preferred : ModelId;
  choice_expires : option Timestamp;
}.
Definition choice_matches (self : ModelChoiceOverride) (risk kind : string) (now : Timestamp) : bool :=
  (dimension self == "model") && (risk_tier self == risk) && (task_kind self == kind)
  && is_some_and (choice_expires self) (λ expires, Timestamp_ltb now expires).

Record ModelExclusion := mkModelExclusion { excluded_model : ModelId; excluded_schedule : Schedule }.

Record RoutingConfig := mkRoutingConfig {
  model_exclusions : list ModelExclusion;
  exclusion_notes : list string;
  model_choices : list ModelChoiceOverride;
  model_policy : ModelPolicies;
  config_writer_advisory : option WriterAdvisoryOverride;
  suppress_opus_writer_warning : bool;
  allow_unknown_partial_headroom : bool;
  capacity_cooldown_seconds : Z;
  settlement_retries : Z;
  capacity_retry_seconds : Z;
  capacity_retry_max_seconds : Z;
  retry_delay_ceiling_seconds : Z;
  review : ReviewConfig;
  routes : list (string * Route);
  pools : list (string * list RoutePoolMember);
  pacing : PacingSettings;
  pacing_reserve : list (string * PacingReserve);
  pacing_overrides : list PacingOverride;
  min_monthly_allowance_usd : Z;
}.

Definition preferred_model (self : RoutingConfig) (request : RouteRequest) (risk kind : string)
    (now : Timestamp) : option ModelId :=
  match choice request with
  | ChoiceModel _ => None
  | NamedRoute _ =>
      preferred <$> List.find (λ row, choice_matches row risk kind now) (rev (model_choices self))
  end.

Definition route_names (self : RoutingConfig) (catalogue : Catalogue) : list string :=
  btree_set ((fst <$> routes self) ++ (fst <$> pools self) ++ (fst <$> cat_pools catalogue)).

Definition pool_effort_warnings (self : RoutingConfig) (catalogue : Catalogue) : list string :=
  flat_map (λ '(name, members),
      List.concat (imap (λ (index : nat) member,
          let dropped := (reconciled member (cat_model catalogue (member_model member))).2 in
          if bool_decide (dropped = []) then []
          else ["warning: domains.routing.pools." +:+ name +:+ "[" +:+ pretty index +:+ "].efforts: "
                +:+ id_str (member_model member) +:+ " does not list " +:+ join ", " dropped +:+ "; dropped"])
        members))
    (pools self).

(** As above, with where each configured value comes from. *)
Definition sourced_warning (source : string → string) (name : string) (index : nat) (member : RoutePoolMember)
    (effort : string) : string :=
  let member_path := "domains.routing.pools." +:+ name +:+ "." +:+ pretty index in
  let value_sources :=
    (if member_effort member == Some effort
     then ["effort source: " +:+ source (member_path +:+ ".effort")] else [])
    ++ (if contains (member_efforts member) effort
        then ["efforts source: " +:+ source (member_path +:+ ".efforts")] else []) in
  "warning: domains.routing.pools." +:+ name +:+ "[" +:+ pretty index +:+ "].efforts: pool " +:+ name
  +:+ " effort " +:+ effort +:+ " for model " +:+ id_str (member_model member)
  +:+ " is unsupported and will be dropped (pool source: " +:+ source ("domains.routing.pools." +:+ name)
  +:+ "; model source: " +:+ source (member_path +:+ ".model") +:+ "; " +:+ join "; " value_sources +:+ ")".
Definition pool_effort_warnings_with_sources (self : RoutingConfig) (catalogue : Catalogue)
    (source : string → string) : list string :=
  flat_map (λ '(name, members),
      List.concat (imap (λ (index : nat) member,
          List.map (sourced_warning source name index member)
            (reconciled member (cat_model catalogue (member_model member))).2)
        members))
    (pools self).

(** ** Validation *)

Definition validate_profile (field : string) (profile : PacingProfile) : list SectionError :=
  error_if (existsb (λ '(_, percent), 100 <? percent) (reserve profile)) (field +:+ ".reserve") "range"
  ++ error_if (match profile_deadline profile with
               | Some (ResetOf reset) => negb (account_identifier (reset_of reset))
               | _ => false
               end) (field +:+ ".deadline") "selector"
  ++ error_if (is_some_and (profile_windows profile) (λ windows, negb (distinct_by (λ w, w) [] windows)))
       (field +:+ ".windows") "duplicate".

Definition registered (provider : string) : bool := contains REGISTRY provider.

Definition check_choice (index : nat) (row : ModelChoiceOverride) : list SectionError :=
  error_if (is_none (choice_expires row) || (dimension row != "model") || negb (identifier (risk_tier row))
            || negb (identifier (task_kind row)))
    ("model_choices." +:+ pretty index) "selector".

Definition check_route (catalogue : option Catalogue) (entry : string * Route) : list SectionError :=
  let '(name, route) := entry in
  let collides_with_pool := is_some_and catalogue (λ value, has_pool value name) in
  error_if (is_none (catalogue ≫= λ value, cat_model value (route_id route)))
    ("routes." +:+ name +:+ ".model") "unknown_model"
  ++ error_if (negb (identifier name) || collides_with_pool
               || is_some_and (named_effort route) (λ e, negb (effort_valid e)))
       "routes" (if collides_with_pool then "collision" else "selector").

Definition check_pool_member (catalogue : option Catalogue) (name : string)
    (members : list RoutePoolMember) (index : nat) (member : RoutePoolMember) : list SectionError :=
  let prefix := "pools." +:+ name +:+ "[" +:+ pretty index +:+ "]" in
  error_if (bool_decide (member_model member ∈ (member_model <$> take index members)))
    (prefix +:+ ".model") "duplicate"
  ++ error_if (100 <? member_weight member) (prefix +:+ ".weight") "range"
  ++ error_if (is_none (catalogue ≫= λ value, cat_model value (member_model member)))
       (prefix +:+ ".model") "unknown_model"
  ++ error_if (negb (registered (id_adapter (member_model member)))) (prefix +:+ ".model") "unknown_provider"
  ++ error_if ((16 <? len (member_efforts member))
               || existsb (λ effort, negb (effort_valid effort)) (member_efforts member)
               || negb (distinct_by (λ e, e) [] (member_efforts member)))
       (prefix +:+ ".efforts") "unsupported_effort"
  ++ error_if (is_some_and (member_effort member) (λ e, negb (effort_valid e)))
       (prefix +:+ ".effort") "unsupported_effort".

Definition check_pool (self : RoutingConfig) (catalogue : option Catalogue)
    (entry : string * list RoutePoolMember) : list SectionError :=
  let '(name, members) := entry in
  let collides := contains_key name (routes self) in
  error_if (negb (identifier name) || collides) ("pools." +:+ name)
    (if collides then "collision" else "selector")
  ++ error_if (16 <? len members) ("pools." +:+ name) "limit"
  ++ List.concat (imap (check_pool_member catalogue name members) members).

Definition check_override (index : nat) (o : PacingOverride) : list SectionError :=
  let field := "pacing_overrides." +:+ pretty index in
  if is_some_and (override_account o) (λ a, negb (account_identifier a))
     || (is_some (override_account o) && is_some (override_provider o))
     || is_some_and (override_provider o) (λ p, negb (registered p))
  then [mkError field "selector"]
  else error_if (negb (Schedule_valid (override_schedule o))) field "schedule".

Definition check_waits (self : RoutingConfig) : list SectionError :=
  flat_map (λ '(field, seconds), error_if (MAX_RETRY_WAIT_SECONDS <? seconds) field "limit")
    [("capacity_retry_seconds", capacity_retry_seconds self);
     ("capacity_retry_max_seconds", capacity_retry_max_seconds self);
     ("retry_delay_ceiling_seconds", retry_delay_ceiling_seconds self)].

Definition check_pacing (self : RoutingConfig) : list SectionError :=
  flat_map (λ '(provider, _),
      error_if (negb (registered provider)) ("pacing." +:+ provider) "unknown_provider") (providers (pacing self))
  ++ flat_map (λ '(account, profile),
      error_if (negb (account_identifier account)) ("pacing.accounts." +:+ account) "selector"
      ++ validate_profile ("pacing.accounts." +:+ account) profile) (accounts (pacing self))
  ++ flat_map (λ '(provider, profile),
      validate_profile ("pacing.free." +:+ provider) profile
      ++ error_if (negb (registered provider)) ("pacing.free." +:+ provider) "unknown_provider")
      (free (pacing self)).

Definition check_reserve (entry : string * PacingReserve) : list SectionError :=
  let '(provider, reserve) := entry in
  error_if (negb (registered provider)) ("pacing_reserve." +:+ provider) "unknown_provider"
  ++ error_if ((100 <? five_hour_percent reserve) || (100 <? seven_day_percent reserve))
       ("pacing_reserve." +:+ provider) "range".

(** [RoutingConfig::validate]: the errors pushed, in order. *)
Definition RoutingConfig_validate (self : RoutingConfig) : list SectionError :=
  let catalogue := match bundled_catalogue with Ok c => Some c | Err _ => None end in
  ModelPolicies_validate (model_policy self)
  ++ List.concat (imap check_choice (model_choices self))
  ++ error_if (256 <? len (model_exclusions self)) "model_exclusions" "limit"
  ++ List.concat (imap (λ (index : nat) exclusion,
       error_if (negb (Schedule_valid (excluded_schedule exclusion)))
         ("model_exclusions." +:+ pretty index) "schedule") (model_exclusions self))
  ++ match config_writer_advisory self with
     | Some advice => WriterAdvisoryOverride_validate advice "writer_advisory"
     | None => []
     end
  ++ error_if (MAX_SETTLEMENT_RETRIES <? settlement_retries self) "settlement_retries" "limit"
  ++ check_waits self
  ++ error_if (128 <? len (routes self)) "routes" "limit"
  ++ ReviewCheck.validate (review self)
       (mkPools (fst <$> pools self) ((λ c, fst <$> cat_pools c) <$> catalogue))
  ++ flat_map (check_route catalogue) (routes self)
  ++ error_if (32 <? len (pools self)) "pools" "limit"
  ++ flat_map (check_pool self catalogue) (pools self)
  ++ check_pacing self
  ++ List.concat (imap check_override (pacing_overrides self))
  ++ flat_map check_reserve (pacing_reserve self).

(** ** Queries *)

(** The text of the refusal apart, [check_go_allowance]. *)
Definition allowance_description (allowance : option MonthlyAllowance) (floor : Z) : option string :=
  match allowance with
  | Some Unlimited => None
  | Some (Dollars value) => if floor <=? value then None else Some ("$" +:+ pretty value)
  | None => Some "unknown"
  end.
Definition check_go_allowance (model : ModelId) (config : RoutingConfig) (catalogue : Catalogue)
    : result string unit :=
  let floor := min_monthly_allowance_usd config in
  if (floor == 0)
     || negb (is_some_and (Adapters.get (id_adapter model) ≫= allowance_prefix) (starts_with (id_model model)))
  then Ok tt
  else
    match allowance_description (cat_model catalogue model ≫= monthly_allowance_usd) floor with
    | None => Ok tt
    | Some description =>
        Err (id_str model +:+ ": Go monthly allowance " +:+ description
             +:+ "; domains.routing.opencode_go.min_monthly_allowance_usd is " +:+ pretty floor
             +:+ "; lower [domains.routing.opencode_go] min_monthly_allowance_usd or choose a model with a documented allowance of at least $"
             +:+ pretty floor +:+ " (0 disables the floor)")
    end.

(** The only element of a set with one element. *)
Definition sole (l : list string) : option string :=
  match btree_set l with [x] => Some x | _ => None end.
Definition model_default_effort (self : Catalogue) (config : RoutingConfig) (model : ModelId) : option string :=
  let member_efforts_of (members : list RoutePoolMember) :=
    omap member_effort (List.filter (λ member, member_model member == model) members) in
  let configured :=
    omap named_effort (List.filter (λ route, route_id route == model) (snd <$> routes config))
    ++ member_efforts_of (flat_map snd (pools config)) in
  if negb (bool_decide (length (btree_set configured) = 0%nat)) then sole configured
  else
    sole (member_efforts_of
            (flat_map snd (List.filter (λ '(name, _), negb (contains_key name (pools config))) (cat_pools self)))).

Definition opus_writer_advisory {J : Json} (self : RoutingConfig) (catalogue : Catalogue)
    (route : ResolvedRoute) : option string :=
  let advice := match config_writer_advisory self with
                | Some user => merged user (writer_advisory catalogue)
                | None => writer_advisory catalogue
                end in
  let applied := route_adapter route +:+ "/" +:+ route_model route in
  if suppress_opus_writer_warning self || negb (existsb (λ id, id_str id == applied) (warn_models advice))
  then None
  else
    let of_receipt :=
      match pool_selection route with
      | Some receipt => if has_pool catalogue (sel_pool receipt) then Some (sel_pool receipt) else None
      | None => None
      end in
    pool ← match of_receipt with
           | Some pool => Some pool
           | None =>
               List.find (λ name, is_some_and (map_get name (cat_pools catalogue)) (λ members,
                 existsb (λ m, id_str (member_model m) == applied) members)) (pool_priority advice)
           end;
    members ← match map_get pool (pools self) with
              | Some members => Some members
              | None => map_get pool (cat_pools catalogue)
              end;
    cheaper ← List.find (λ member,
                (0 <? member_weight member) && (id_str (member_model member) != applied)
                && bool_decide (member_model member ∈ cheaper_models advice))
                (members ++ unwrap_or (map_get pool (cat_pools catalogue)) []);
    let effort := match member_effort cheaper with
                  | Some effort => Some effort
                  | None =>
                      match route_effort route with
                      | Some effort => if contains (member_efforts cheaper) effort then Some effort else None
                      | None => None
                      end
                  end in
    let writer := match advisory_label advice with
                  | Some label => label +:+ " writer"
                  | None => "Writer"
                  end in
    Some ("advisory: " +:+ writer +:+ " route " +:+ applied +:+ "; consider cheaper " +:+ pool +:+ " route "
          +:+ id_str (member_model cheaper)
          +:+ match effort with Some effort => " effort=" +:+ effort | None => "" end
          +:+ " (silence with domains.routing.suppress_opus_writer_warning = true)").
End Config.
