(* ===== verification/RoutingPacing.v ===== *)
(** * RoutingPacing: how fast an account may be spent

    Models the pacing half of [crates/routing/src/resolve.rs]: the routing
    context with its validation, the profile that governs an account, the
    windows and deadlines it names, the pacing factor of a model on an account
    and the reserve that withholds it.  Texts are those of the source; how the
    standard library prints a quoted text and a float are arguments. *)

From Stdlib Require Import Ascii SpecFloat.
From stdpp Require Import base option list strings sets pretty gmap.
From S2P Require Import Prelude External ReviewPaths ReviewPolicy ReviewCheck Adapters Routes QuotaState QuotaAdmission QuotaReadiness RoutingTypes RoutingPolicy RoutingConfig.

Local Open Scope string_scope.
Local Open Scope list_scope.
Local Open Scope Z_scope.
Local Open Scope rust_scope.

(** ** Texts of the standard library *)

(** [{:?}] of a [str] and of an [Option<f64>], and [{:.1}] of an [f64]. *)
Class Fmt := {
  debug_str : string → string;
  debug_ratio : option f64 → string;
  display_tenths : f64 → string;
}.

Definition PacingPolicy_debug (p : PacingPolicy) : string :=
  match p with Pace => "Pace" | Spend => "Spend" | Max => "Max" | Off => "Off" end.
Definition QuotaStatus_debug (s : QuotaStatus) : string :=
  match s with
  | Available => "Available" | CreditOnly => "CreditOnly" | StatusExhausted => "Exhausted"
  | Stale => "Stale" | StatusUnknown => "Unknown" | StatusAuthRequired => "AuthRequired"
  | KeychainUnavailable => "KeychainUnavailable" | StatusUnsupported => "Unsupported"
  end.
Definition RouteExclusionReason_debug (r : RouteExclusionReason) : string :=
  match r with
  | Disabled => "Disabled" | MissingExecutable => "MissingExecutable"
  | UnknownAvailability => "UnknownAvailability" | StaleAvailability => "StaleAvailability"
  | UnknownAccount => "UnknownAccount" | DisclosureDenied => "DisclosureDenied"
  | ConfinementUnavailable => "ConfinementUnavailable" | UnsupportedEffort => "UnsupportedEffort"
  | Exhausted => "Exhausted" | Routes.PacingReserve => "PacingReserve"
  | UnknownPartialHeadroom => "UnknownPartialHeadroom" | AuthRequired => "AuthRequired"
  | LoginExpired => "LoginExpired" | UnverifiedModel => "UnverifiedModel"
  | AccountMismatch => "AccountMismatch" | FreeTierRefused => "FreeTierRefused"
  | ProviderRefused => "ProviderRefused" | InvalidAccountEvidence => "InvalidAccountEvidence"
  end.
Definition ReadinessReason_debug (r : option ReadinessReason) : string :=
  match r with
  | None => "None"
  | Some r =>
      "Some(" +:+ match r with
                  | NotProbed => "NotProbed" | ReasonStale => "Stale" | ProbeTimeout => "ProbeTimeout"
                  | CommandFailure => "CommandFailure" | ReasonMissingExecutable => "MissingExecutable"
                  | SignedOut => "SignedOut" | ReasonLoginExpired => "LoginExpired"
                  | ReasonAccountMismatch => "AccountMismatch" | ReasonExhausted => "Exhausted"
                  | ProviderRefusal => "ProviderRefusal"
                  | UncalibratedPartialCoverage => "UncalibratedPartialCoverage"
                  | InvalidEvidence => "InvalidEvidence" | UnreachablePeer => "UnreachablePeer"
                  | UnsupportedPeerVersion => "UnsupportedPeerVersion"
                  end +:+ ")"
  end.

Definition checked_sub_i64 (a b : Z) : option Z := if in_i64 (a - b) then Some (a - b) else None.
(** [a - b] on [u64] in a release build. *)
Definition wrapping_sub_u64 (a b : Z) : Z := (a - b) mod 2 ^ 64.

(** ** The context *)

Record AccessContext := mkAccessContext {
  access_adapter : string;
  disclosure_ref : string;
  confinement_ref : string;
}.

Section Pacing.
Context {J : Json} {T : Jiff} {C : Civil} {A : RoutingAssets} {F : Fmt}.

Record RoutingContext := mkRoutingContext {
  policy_account_hint : option string;
  choice_context : option (string * string);
  catalogue : Catalogue;
  config : RoutingConfig;
  registry : list string;
  availability : list AvailabilityRecord;
  quota : list QuotaObservation;
  cooldowns : list CapacityCooldown;
  account_records : list AccountRecord;
  quota_policies : list QuotaPolicy;
  readiness_lookup : option (ReadinessScope → Z → ReadinessRead);
  access : list AccessContext;
  now : Timestamp;
  context_host : string;
}.

Definition set_availability (l : list AvailabilityRecord) (c : RoutingContext) : RoutingContext :=
  mkRoutingContext (policy_account_hint c) (choice_context c) (catalogue c) (config c) (registry c) l
    (quota c) (cooldowns c) (account_records c) (quota_policies c) (readiness_lookup c) (access c) (now c)
    (context_host c).

Definition now_seconds (self : RoutingContext) : Z := as_second (now self).

Definition effective_pool_names (context : RoutingContext) : list string :=
  btree_set ((fst <$> cat_pools (catalogue context)) ++ (fst <$> pools (config context))).
Definition raw_pool (context : RoutingContext) (name : string) : option (list RoutePoolMember) :=
  match map_get name (pools (config context)) with
  | Some members => Some members
  | None => map_get name (cat_pools (catalogue context))
  end.
Definition effective_pool (context : RoutingContext) (name : string) : option (list RoutePoolMember) :=
  match raw_pool context name with
  | Some members =>
      Some (List.map (λ member, (reconciled member (cat_model (catalogue context) (member_model member))).1) members)
  | None => None
  end.

(** [RoutingContext::validate]. *)
Definition context_validate (self : RoutingContext) : result RoutingError unit :=
  if is_some_and (policy_account_hint self) (λ hint,
       (128 <? str_len hint) || (2 <? len (split_all "/"%char hint))
       || existsb (λ part, negb (identifier part)) (split_all "/"%char hint))
  then Err InvalidValue
  else
    _ ← Catalogue_validate (catalogue self);
    if existsb (λ name, contains_key name (routes (config self))) (effective_pool_names self)
    then Err InvalidValue
    else if negb (bool_decide (length (RoutingConfig_validate (config self)) = 0%nat)) then Err InvalidValue
    else if (128 <? len (availability self)) || (256 <? len (quota self)) || (32 <? len (registry self))
            || (128 <? str_len (context_host self))
    then Err ErrAvailability
    else if existsb (λ record, negb (is_ok (validate_availability record (av_adapter record)))) (availability self)
            || negb (distinct_by (λ record, (av_adapter record, av_account_key record)) [] (availability self))
    then Err ErrAvailability
    else Ok tt.

(** ** Policies and profiles *)

Definition pacing_policy (catalogue : Catalogue) (config : RoutingConfig) (model : ModelId) : PacingPolicy :=
  match map_get (id_adapter model) (providers (pacing config)) with
  | Some policy => policy
  | None =>
      let key := match Adapters.get (id_adapter model) ≫= pacing_keys with
                 | Some (free, paid) => if is_free_model catalogue model then free else paid
                 | None => id_adapter model
                 end in
      unwrap_or (map_get key (cat_pacing catalogue)) Pace
  end.

Definition PACE_MIN_BASIS_POINTS : Z := 2500.
Definition PACE_MAX_BASIS_POINTS : Z := 20000.
Definition NEUTRAL_FACTOR_BASIS_POINTS : Z := 10000.

Definition account_profile (context : RoutingContext) (model : ModelId) (account : option string)
    : option PacingProfile :=
  account ≫= λ a,
    match map_get (id_adapter model +:+ "/" +:+ a) (accounts (pacing (config context))) with
    | Some profile => Some profile
    | None => map_get a (accounts (pacing (config context)))
    end.
Definition free_profile (context : RoutingContext) (model : ModelId) : option PacingProfile :=
  if is_free_model (catalogue context) model
  then map_get (id_adapter model) (free (pacing (config context))) else None.

(** Whether an override governs [model] on [account] now. *)
Definition override_governs (context : RoutingContext) (model : ModelId) (account : option string)
    (o : PacingOverride) : bool :=
  Schedule_active (override_schedule o) (now context)
  && is_none_or (override_account o) (λ selector,
       is_some_and account (λ key,
         match split_once "/"%char selector with
         | None => selector == key
         | Some (adapter, selected) => (adapter == id_adapter model) && (selected == key)
         end))
  && is_none_or (override_provider o) (λ p, p == id_adapter model).

Definition effective_profile (context : RoutingContext) (model : ModelId) (account : option string)
    : PacingPolicy * option PacingProfile * string * option Timestamp :=
  let account_profile := account_profile context model account in
  let free_profile := free_profile context model in
  let profile := match account_profile with Some p => Some p | None => free_profile end in
  match List.find (override_governs context model account) (rev (pacing_overrides (config context))) with
  | Some o => (override_policy o, profile, "override", schedule_expires (override_schedule o))
  | None =>
      match account_profile ≫= profile_policy, free_profile ≫= profile_policy with
      | Some policy, _ => (policy, profile, "account", None)
      | None, Some policy => (policy, profile, "free", None)
      | None, None =>
          let source := if is_some profile then "account"
                        else if contains_key (id_adapter model) (providers (pacing (config context)))
                        then "provider" else "bundled" in
          (pacing_policy (catalogue context) (config context) model, profile, source, None)
      end
  end.
Definition profile_of (context : RoutingContext) (model : ModelId) (account : option string)
    : option PacingProfile := (effective_profile context model account).1.1.2.
Definition policy_of (context : RoutingContext) (model : ModelId) (account : option string)
    : PacingPolicy := (effective_profile context model account).1.1.1.

(** ** Windows *)

Definition local_ledger (adapter : string) : bool :=
  is_some_and (Adapters.get adapter) (λ spec,
    match quota_probe spec with LocalLedger => true | _ => false end).

Definition window_matches (window : QuotaWindow) (kind : PacingWindow) (adapter : string) : bool :=
  let name := first_part ":"%char (to_ascii_lowercase (pool window)) in
  match kind with
  | FiveHour => (window_seconds window == Some 18000) || ends_with name "five_hour" || ends_with name ".5h"
  | SevenDay => (window_seconds window == Some 604800) || ends_with name "seven_day" || ends_with name "weekly"
  | Monthly => ends_with name "monthly" || ends_with name "thirty_day" || ends_with name "billing_cycle"
  | Daily => (window_seconds window == Some 86400) || ends_with name "daily"
  | Rolling => local_ledger adapter && (ends_with name "five_hour" || ends_with name "rolling")
  end.

Definition window_serves (adapter window : string) (model_pool : option string) : bool :=
  is_none_or (Adapters.get adapter) (λ spec, window_serves_pool spec window model_pool).

Definition selected_window (window : QuotaWindow) (profile : option PacingProfile) (adapter : string)
    (model_pool : option string) : bool :=
  window_serves adapter (pool window) model_pool
  && is_none_or (profile ≫= profile_windows) (λ windows,
       existsb (λ kind, window_matches window kind adapter) windows).

(** ** Deadlines *)

(** Days are tried backwards from the reset. *)
Fixpoint deadline_loop (fuel : nat) (deadline : FixedDeadline) (reset duration : Z) (date : Date)
    : option (Z * option (Z * Z)) :=
  match fuel with
  | O => None
  | S fuel' =>
      let previous := yesterday date ≫= deadline_loop fuel' deadline reset duration in
      let try matches hour minute clamped :=
        if (matches : bool) then
          instant ← compatible_instant tz_system (date_at date hour minute);
          let instant := as_second instant in
          if (instant <=? reset) && (saturating_sub_i64 reset duration <? instant)
          then Some (instant, clamped) else previous
        else previous in
      match deadline with
      | MonthlyDay day =>
          let last := days_in_month date in
          try (date_day date == Z.min day last) 0 0 (if last <? day then Some (day, last) else None)
      | Weekly weekday hour minute =>
          if 127 <? weekday then None
          else try (weekday_monday_zero date == weekday) hour minute None
      | Absolute _ => None
      end
  end.
Definition window_deadline (deadline : FixedDeadline) (window : QuotaWindow)
    : option (Z * option (Z * Z)) :=
  match deadline with
  | Absolute datetime => (λ z, (as_second z, None)) <$> compatible_instant tz_system datetime
  | _ =>
      reset ← resets window;
      seconds ← window_seconds window;
      duration ← i64_try_from_u64 seconds;
      instant ← from_second reset;
      deadline_loop 63 deadline reset duration (to_zoned tz_system instant).1
  end.

(** Observations that are current: seen, and not expired. *)
Definition fresh_observation (context : RoutingContext) (o : QuotaObservation) : bool :=
  (observed (q_snapshot o) <=? now_seconds context)
  && (observed (q_snapshot o) <? q_expires o) && (now_seconds context <? q_expires o).
Definition observation_key (o : QuotaObservation) : list Z :=
  [observed (q_snapshot o); snap_revision (q_snapshot o)].

Definition reference_observation (deadline : ResetDeadline) (context : RoutingContext)
    : option QuotaObservation :=
  max_by_key observation_key
    (List.filter (λ o,
       match split_once "/"%char (reset_of deadline) with
       | None => account_key (snap_account (q_snapshot o)) == reset_of deadline
       | Some (adapter, key) =>
           (QuotaState.adapter (snap_account (q_snapshot o)) == adapter)
           && (account_key (snap_account (q_snapshot o)) == key)
       end
       && (snap_schema_version (q_snapshot o) == 1) && fresh_observation context o) (quota context)).

(** [reference_status_usable] is [comparable_status] of [QuotaAdmission]. *)
Definition fallback_reason (deadline : ResetDeadline) (context : RoutingContext) : string :=
  match reference_observation deadline context with
  | Some o =>
      if negb (comparable_status (status (q_snapshot o)))
      then "reset_of=" +:+ reset_of deadline +:+ " latest snapshot is " +:+ QuotaStatus_debug (status (q_snapshot o))
      else "reset_of=" +:+ reset_of deadline +:+ " unknown or stale"
  | None => "reset_of=" +:+ reset_of deadline +:+ " unknown or stale"
  end.

(** The reset of one window of the peer, moved back into the current cycle of
    [window] when it lies in the following one. *)
Definition peer_reset (observed_at : Z) (window : option QuotaWindow) (peer : QuotaWindow) : option Z :=
  reset ← resets peer;
  if reset <=? observed_at then None
  else
    match window ≫= resets, window ≫= window_seconds, window_seconds peer with
    | Some own_reset, Some own_duration, Some peer_duration =>
        if own_reset <? reset then
          peer_duration ← i64_try_from_u64 peer_duration;
          match checked_sub_i64 reset peer_duration with
          | Some previous =>
              own_duration ← i64_try_from_u64 own_duration;
              if saturating_sub_i64 own_reset own_duration <? previous then Some previous else Some reset
          | None => Some reset
          end
        else Some reset
    | _, _, _ => Some reset
    end.
Definition reference_deadline (deadline : ResetDeadline) (window : option QuotaWindow)
    (model_pool : option string) (context : RoutingContext) : option Z :=
  observation ← reference_observation deadline context;
  if negb (comparable_status (status (q_snapshot observation))) then None
  else
    let adapter := QuotaState.adapter (snap_account (q_snapshot observation)) in
    Z_min (omap (peer_reset (observed (q_snapshot observation)) window)
             (List.filter (λ w, window_serves adapter (pool w) model_pool)
                (List.filter (λ w, window_matches w (reset_window deadline) adapter)
                   (windows (q_snapshot observation))))).

(** ** The factor *)

Definition from_local_ledger (snapshot : QuotaSnapshot) : bool :=
  is_some_and (details snapshot) (λ d, source d == Some "local-ledger").

(** When the window is taken to reset: its own reset when that lies ahead, or
    after a full window when a ledger or a calibration covers it. *)
Definition window_reset (snapshot : QuotaSnapshot) (now : Z) (adapter : string) (window : QuotaWindow)
    (duration : Z) : option Z :=
  let full := i64_try_from_u64 duration ≫= checked_add_i64 now in
  let calibrated := calibrated (details snapshot) (pool window) now in
  match resets window with
  | Some reset => if now <? reset then Some reset else if calibrated then full else None
  | None => if (local_ledger adapter && from_local_ledger snapshot) || calibrated then full else None
  end.

(** [headroom * duration / remaining], in [u128], clamped. *)
Definition pace_factor (used duration remaining : Z) : Z :=
  clamp PACE_MIN_BASIS_POINTS PACE_MAX_BASIS_POINTS
    ((saturating_sub_u64 10000 (Z.min used 10000) * duration) / remaining).

Definition window_detail (context : RoutingContext) (window : QuotaWindow) (shown : Z)
    (reset_known calibrated standby : bool) (fallback : option ResetDeadline) (clamped : option (Z * Z)) : string :=
  "window=" +:+ pool window +:+ " deadline=" +:+ pretty shown
  +:+ (if reset_known then ""
       else if calibrated then " calibration; reset unknown; full window remaining"
       else " ledger; reset unknown; full window remaining")
  +:+ (if standby then " standby" else "")
  +:+ match fallback with
      | Some reference => " " +:+ fallback_reason reference context +:+ "; falling back to window reset"
      | None => ""
      end
  +:+ match clamped with
      | Some (day, last) => " day " +:+ pretty day +:+ " clamped to the month's last day (" +:+ pretty last +:+ ")"
      | None => ""
      end.

Definition pace_window (snapshot : QuotaSnapshot) (now : Z) (profile : option PacingProfile)
    (adapter : string) (model_pool : option string) (context : RoutingContext) (window : QuotaWindow)
    : option (Z * string * bool) :=
  let calibrated := calibrated (details snapshot) (pool window) now in
  if is_partial (details snapshot) && negb calibrated then None
  else
    duration ← window_seconds window;
    if duration == 0 then None
    else
      reset ← window_reset snapshot now adapter window duration;
      let reset_known := is_some_and (resets window) (λ reset, now <? reset) in
      let configured := profile ≫= profile_deadline in
      let resolved :=
        configured ≫= λ d, match d with
                           | ResetOf reference =>
                               (λ d, (d, None)) <$> reference_deadline reference (Some window) model_pool context
                           | Fixed fixed => window_deadline fixed window
                           end in
      let clamped := resolved ≫= snd in
      let deadline := (λ r : Z * option (Z * Z), Z.min r.1 reset) <$> resolved in
      let fallback := match configured, deadline with
                      | Some (ResetOf reference), None => Some reference
                      | _, _ => None
                      end in
      let passed := is_some_and deadline (λ d, d <=? now) in
      let standby := passed && is_some_and profile (λ p, after_deadline p == Standby) in
      let target := Z.min (match deadline with Some d => if now <? d then d else reset | None => reset end) reset in
      left ← checked_sub_i64 target now ≫= u64_try_from_i64;
      let remaining := Z.min left duration in
      if remaining == 0 then None
      else Some (pace_factor (used_basis_points window) duration remaining,
                 window_detail context window (unwrap_or deadline reset) reset_known calibrated standby fallback clamped,
                 standby).

Definition pace_snapshot_factor (snapshot : QuotaSnapshot) (now : Z) (profile : option PacingProfile)
    (adapter : string) (model_pool : option string) (context : RoutingContext) : option (Z * string * bool) :=
  min_by_key (λ '(factor, _, standby), [Z.b2z (negb standby); factor])
    (omap (pace_window snapshot now profile adapter model_pool context)
       (List.filter (λ w, selected_window w profile adapter model_pool) (windows snapshot))).

(** ** The reserve *)

Record ReserveWindow := mkReserveWindow {
  reserve_pool : string;
  reserve_percent : Z;
  reserve_profile : bool;
  reserve_seven_day : bool;
}.

Definition reserve_for (reserve : PacingReserve) (profile : option PacingProfile) (adapter : string)
    (window : QuotaWindow) : Z * bool * bool :=
  let kind := List.find (λ k, window_matches window k adapter) [Rolling; FiveHour; SevenDay; Daily; Monthly] in
  let selected :=
    profile ≫= λ p, snd <$> List.find (λ '(k, _), window_matches window k adapter) (RoutingConfig.reserve p) in
  let percent :=
    unwrap_or selected (match kind with
                        | Some FiveHour | Some Rolling => five_hour_percent reserve
                        | Some SevenDay => seven_day_percent reserve
                        | _ => 0
                        end) in
  (percent, is_some selected, match kind with Some SevenDay => true | _ => false end).

Definition reserve_holds (snapshot : QuotaSnapshot) (now : Z) (reserve : PacingReserve)
    (profile : option PacingProfile) (adapter : string) (window : QuotaWindow) : bool :=
  let '(percent, _, _) := reserve_for reserve profile adapter window in
  (0 <? percent)
  && (is_some_and (resets window) (λ reset, now <? reset)
      || (is_none (resets window) && local_ledger adapter && from_local_ledger snapshot)
      || calibrated (details snapshot) (pool window) now)
  && (wrapping_sub_u64 10000 (percent * 100) <=? used_basis_points window).

Definition pacing_reserve_window (snapshot : QuotaSnapshot) (now : Z) (reserve : PacingReserve)
    (profile : option PacingProfile) (adapter : string) (model_pool : option string) : option ReserveWindow :=
  (λ window, let '(percent, profile, seven_day) := reserve_for reserve profile adapter window in
             mkReserveWindow (pool window) percent profile seven_day)
  <$> List.find (reserve_holds snapshot now reserve profile adapter)
        (List.filter (λ w, selected_window w profile adapter model_pool) (windows snapshot)).

Definition adapter_reserve (context : RoutingContext) (model : ModelId) : PacingReserve :=
  unwrap_or (map_get (id_adapter model) (pacing_reserve (config context))) PacingReserve_default.

(** ** The factor of a model on an account *)

Definition of_account (account : option string) (o : QuotaObservation) : bool :=
  Some (account_key (snap_account (q_snapshot o))) == account.

Definition go_quota_observation (model : ModelId) (account : option string) (context : RoutingContext)
    : option QuotaObservation :=
  max_by_key observation_key
    (List.filter (λ q,
       (q_model q == model) && (QuotaState.adapter (snap_account (q_snapshot q)) == id_adapter model)
       && of_account account q && (observed (q_snapshot q) <=? now_seconds context)
       && (now_seconds context <? q_expires q)) (quota context)).

Definition go_detail (model : ModelId) (account : option string) (context : RoutingContext) : string :=
  if is_some_and (Adapters.get (id_adapter model) ≫= allowance_prefix) (starts_with (id_model model)) then
    let details := go_quota_observation model account context ≫= λ o, details (q_snapshot o) in
    if is_some_and details (λ d, coverage d == Some "complete") then ""
    else
      let missing := List.filter (λ pool, negb (calibrated details pool (now_seconds context)))
                       ["five_hour"; "seven_day"; "thirty_day"] in
      if bool_decide (missing = []) then "; Go quota source: local-ledger, coverage: partial"
      else "; Go quota source: local-ledger, coverage: partial; Go calibration missing or stale: "
           +:+ join ", " missing +:+ " (calibration key must match account key "
           +:+ debug_str (unwrap_or account "unknown") +:+ "); calibration would tighten pacing"
  else "".

Definition policy_detail (policy : PacingPolicy) (model : ModelId) (account : option string)
    (context : RoutingContext) : string :=
  let '(_, _, source, expiry) := effective_profile context model account in
  "source=" +:+ source +:+ " policy=" +:+ PacingPolicy_debug policy
  +:+ match expiry with Some e => " until=" +:+ display_micros e | None => "" end
  +:+ (if is_some_and (Adapters.get (id_adapter model)) grouped_quota_pools then
         match quota_pool (catalogue context) model with
         | Some pool => " quota_pool=" +:+ pool
         | None => " quota_pool unset; all quota windows apply (conservative)"
         end
       else "")
  +:+ go_detail model account context.

Definition paced_observation (model : ModelId) (account : option string) (context : RoutingContext)
    : option QuotaObservation :=
  o ← max_by_key observation_key
        (List.filter (λ o,
           (q_model o == model) && (snap_schema_version (q_snapshot o) == 1)
           && (QuotaState.adapter (snap_account (q_snapshot o)) == id_adapter model)
           && of_account account o && fresh_observation context o) (quota context));
  if comparable_status (status (q_snapshot o)) then Some o else None.

Definition reserve_detail (model : ModelId) (account : option string) (context : RoutingContext) : string :=
  match max_by_key observation_key
          (List.filter (λ o, (q_model o == model) && of_account account o && fresh_observation context o)
             (quota context)) ≫= λ o,
        pacing_reserve_window (q_snapshot o) (now_seconds context) (adapter_reserve context model)
          (profile_of context model account) (id_adapter model) (quota_pool (catalogue context) model) with
  | Some window => " reserve exclusion window=" +:+ reserve_pool window
  | None => ""
  end.

Definition pacing_factor_basis_points (policy : PacingPolicy) (model : ModelId) (account : option string)
    (context : RoutingContext) : Z * string * bool :=
  let profile := profile_of context model account in
  let detail := policy_detail policy model account context in
  if policy != Pace then (NEUTRAL_FACTOR_BASIS_POINTS, detail, false)
  else
    let result : option (Z * string * bool) :=
      paced_observation model account context ≫= λ o,
        pace_snapshot_factor (q_snapshot o) (now_seconds context) profile (id_adapter model)
          (quota_pool (catalogue context) model) context in
    let detail := detail +:+ reserve_detail model account context in
    match result with
    | Some (factor, window, standby) => (if standby then 0 else factor, detail +:+ " " +:+ window, standby)
    | None =>
        (NEUTRAL_FACTOR_BASIS_POINTS,
         match profile ≫= profile_deadline with
         | Some (ResetOf reference) =>
             if is_none (reference_deadline reference None (quota_pool (catalogue context) model) context)
             then detail +:+ " " +:+ fallback_reason reference context
                  +:+ "; falling back to window reset; unobserved windows neutral"
             else detail +:+ " unobserved windows neutral"
         | _ => detail +:+ " unobserved windows neutral"
         end, false)
    end.

(** ** Bounds *)

Lemma pace_factor_range used duration remaining :
  PACE_MIN_BASIS_POINTS ≤ pace_factor used duration remaining ≤ PACE_MAX_BASIS_POINTS.
Proof. unfold pace_factor, clamp, PACE_MIN_BASIS_POINTS, PACE_MAX_BASIS_POINTS. lia. Qed.

Lemma pace_window_inv snapshot at_ profile adapter model_pool context window r :
  pace_window snapshot at_ profile adapter model_pool context window = Some r →
  ∃ duration remaining, window_seconds window = Some duration ∧ (0 ≤ duration → 0 < remaining ≤ duration) ∧
    r.1.1 = pace_factor (used_basis_points window) duration remaining.
Proof.
  unfold pace_window. destruct (_ && _); [done|].
  destruct (window_seconds window) as [duration|]; [|done]. simpl. case_bool_decide as Hd; [done|].
  destruct (window_reset _ _ _ _ _) as [reset|]; [|done]. simpl.
  destruct (checked_sub_i64 _ at_ ≫= u64_try_from_i64) as [left|] eqn:Hleft; [|done]. simpl.
  case_bool_decide as Hr; [done|]. intros [= <-]. exists duration, (Z.min left duration).
  apply bind_Some in Hleft as (x & _ & Hx). unfold u64_try_from_i64 in Hx. destruct (Z.leb_spec 0 x); [|done].
  injection Hx as <-. split_and!; [done|lia|done].
Qed.

Lemma pace_snapshot_inv snapshot at_ profile adapter model_pool context r :
  pace_snapshot_factor snapshot at_ profile adapter model_pool context = Some r →
  ∃ window, window ∈ windows snapshot ∧ selected_window window profile adapter model_pool = true ∧
    pace_window snapshot at_ profile adapter model_pool context window = Some r.
Proof.
  intros H%min_by_key_elem. apply list_elem_of_omap in H as (w & [Hw Hs]%bfilter_elem & Hr). eauto.
Qed.

Lemma pacing_factor_range policy model account context f d standby :
  pacing_factor_basis_points policy model account context = (f, d, standby) →
  if standby then f = 0 else PACE_MIN_BASIS_POINTS ≤ f ≤ PACE_MAX_BASIS_POINTS.
Proof.
  unfold pacing_factor_basis_points. cbv zeta. destruct (policy != Pace); [by intros [= <- _ <-]|].
  set (r := mbind _ _). destruct r as [[[g w] s]|] eqn:Hr; [|by intros [= <- _ <-]]. intros [= <- _ <-].
  destruct s; [done|]. apply bind_Some in Hr as (o & _ & (window & _ & _ & Hw)%pace_snapshot_inv).
  apply pace_window_inv in Hw as (? & ? & _ & _ & Hg). simpl in Hg. rewrite Hg. apply pace_factor_range.
Qed.
End Pacing.
