(* ===== verification/RoutingResolve.v ===== *)
(** * RoutingResolve: from a request to a route

    Models the resolution half of [crates/routing/src/resolve.rs]: what excludes
    an account, the candidate for a model, the classification of the members of
    a pool, the weighted draw with its seeded roll, and the entry points.

    A member of a pool is classified into a [Verdict] that [push] adds to the
    vectors of [ClassifiedPool]: the loop of the source pushes one candidate and
    one route per member.  Indexing a vector of that pool out of range, which
    would panic, is [None] here; [draw_in_range] (in [RoutingDraw]) shows that a
    drawn index is always in range. *)

From Stdlib Require Import Ascii SpecFloat.
From stdpp Require Import base option list strings sets pretty gmap.
From S2P Require Import Prelude External ReviewPaths ReviewPolicy ReviewCheck Adapters Routes QuotaState QuotaAdmission QuotaReadiness RoutingTypes RoutingPolicy RoutingConfig RoutingPacing.

Local Open Scope string_scope.
Local Open Scope list_scope.
Local Open Scope Z_scope.
Local Open Scope rust_scope.

(** ** The roll *)

Definition bytes_of (s : string) : list Z := byte_of <$> String.list_ascii_of_string s.
(** [u64::to_le_bytes]. *)
Definition to_le_bytes (n : Z) : list Z := (λ i, Z.shiftr n (8 * Z.of_nat i) mod 256) <$> seq 0 8.

Definition hash_byte (hash byte : Z) : Z := wrapping_mul_u64 (Z.lxor hash byte) 0x100000001b3.
Definition stable_roll (operation_id : string) (task_index : Z) (pool : string) (total : Z) : Z :=
  let hash := fold_left hash_byte
                (bytes_of operation_id ++ [0] ++ to_le_bytes task_index ++ [0] ++ bytes_of pool)
                0xcbf29ce484222325 in
  let mix hash := Z.lxor hash (Z.shiftr hash 33) in
  let hash := wrapping_mul_u64 (mix hash) 0xff51afd7ed558ccd in
  let hash := wrapping_mul_u64 (mix hash) 0xc4ceb9fe1a85ec53 in
  mix hash mod total.

Inductive AccountSelection := AnyAccount | KnownAccount (key : string).
Definition AccountSelection_parse (account : option string) : result RoutingError AccountSelection :=
  match account with
  | None => Ok AnyAccount
  | Some account =>
      if account == "unknown" then Err InvalidValue
      else if identifier account then Ok (KnownAccount account) else Err InvalidValue
  end.

(** Members withheld from one resolution. *)
Record Excluded := mkExcluded { rejected : list ModelId; exclusion_rules : list ExclusionRule }.

Definition exclusion_detail (reason : RouteExclusionReason) : string :=
  (diagnostic_parts reason).1 +:+ "; " +:+ (diagnostic_parts reason).2.

(** Confidential work requires the catalogue privacy guarantee. *)
Definition privacy_allowed (model : ModelId) (confidential : bool) (catalogue : Catalogue) : bool :=
  negb confidential
  || is_some_and (cat_model catalogue model) (λ row, trains_on_prompts row == Some false).

Section Resolve.
Context {J : Json} {X : JsonText} {T : Jiff} {C : Civil} {A : RoutingAssets} {F : Fmt}.

(** ** What excludes an account *)

Definition availability_reason (record : option AvailabilityRecord) (ctx : RoutingContext)
    : option RouteExclusionReason :=
  match record with
  | None => Some UnknownAvailability
  | Some record =>
      if (av_catalogue_revision record != cat_revision (catalogue ctx))
         || (now_seconds ctx <? av_observed record) || (av_expires record <=? now_seconds ctx)
      then Some StaleAvailability
      else if is_none (av_account_key record) then Some UnknownAccount
      else None
  end.

Definition account_block_reason (model : ModelId) (account_key : string) (context : RoutingContext)
    : option RouteExclusionReason :=
  match account_block
          (mkAdmission (quota_policies context) (now_seconds context) (account_records context)
             (admission_pools (catalogue context) model))
          (id_adapter model) account_key (id_model model) with
  | Err _ => Some InvalidAccountEvidence
  | Ok block => exclusion_reason <$> block
  end.

(** The scopes asked about readiness: the route of the model, then its pools. *)
Definition readiness_routes (model : ModelId) (context : RoutingContext) : list string :=
  (id_adapter model +:+ "/" +:+ id_model model) :: admission_pools (catalogue context) model.
Definition readiness_scope (model : ModelId) (account_key route : string) : ReadinessScope :=
  mkReadinessScope LOCAL_HOST (id_adapter model) account_key route.

Definition current_read (now : Z) (read : ReadinessRead) : bool :=
  is_some (read_scope read) && is_some_and (read_observed read) (λ at_, at_ <=? now)
  && is_some_and (read_expires read) (λ expiry, now <? expiry).
(** Reasons a readiness verdict projects onto that are reported, not enforced. *)
Definition weak_reason (r : RouteExclusionReason) : bool :=
  match r with
  | UnknownAvailability | StaleAvailability | AuthRequired | LoginExpired => true
  | _ => false
  end.

Definition read_reason_of (now : Z) (read : ReadinessRead) : option RouteExclusionReason :=
  let login := if current_read now read then
                 match read_reason read with
                 | Some SignedOut => Some AuthRequired
                 | Some ReasonLoginExpired => Some LoginExpired
                 | Some ReasonAccountMismatch => Some AccountMismatch
                 | _ => None
                 end
               else None in
  match login with
  | Some reason => Some reason
  | None =>
      if read_state read != StateUnavailable then None
      else match project read with
           | Unavailable _ reason => if weak_reason reason then None else Some reason
           | Ready _ _ _ => None
           end
  end.
Definition readiness_exclusion (model : ModelId) (availability : AvailabilityRecord) (context : RoutingContext)
    : option RouteExclusionReason :=
  lookup ← readiness_lookup context;
  account_key ← av_account_key availability;
  find_map (λ route, read_reason_of (now_seconds context)
                       (lookup (readiness_scope model account_key route) (now_seconds context)))
    (readiness_routes model context).

Definition latest_reading (model : ModelId) (availability : AvailabilityRecord) (context : RoutingContext)
    (fresh : bool) : option QuotaObservation :=
  let now := now_seconds context in
  max_by_key observation_key
    (List.filter (λ q,
       (q_model q == model) && (snap_schema_version (q_snapshot q) == 1)
       && (QuotaState.adapter (snap_account (q_snapshot q)) == id_adapter model)
       && (Some (account_key (snap_account (q_snapshot q))) == av_account_key availability)
       && (observed (q_snapshot q) <=? now)
       && (negb fresh || ((observed (q_snapshot q) <? q_expires q) && (now <? q_expires q))))
       (quota context)).

Definition model_pool_exhausted (snapshot : QuotaSnapshot) (model : ModelId) (model_pool : option string)
    (now : Z) : bool :=
  if negb (is_some_and (Adapters.get (id_adapter model)) grouped_quota_pools) then false
  else
    existsb (λ w,
        (10000 <=? used_basis_points w)
        && (is_none_or (resets w) (λ reset, now <? reset) || calibrated (details snapshot) (pool w) now))
      (List.filter (λ w, window_serves (id_adapter model) (pool w) model_pool) (windows snapshot)).

Definition exhaustion_lapsed (snapshot : QuotaSnapshot) (now_seconds : Z) (model_pool : option string) : bool :=
  let full :=
    List.filter (λ w, 10000 <=? used_basis_points w)
      (List.filter (λ w, window_serves (QuotaState.adapter (snap_account snapshot)) (pool w) model_pool)
         (windows snapshot)) in
  negb (bool_decide (full = []))
  && forallb (λ w, negb (calibrated (details snapshot) (pool w) now_seconds)
                   && is_some_and (resets w) (λ reset, reset <=? now_seconds)) full.

Definition quota_reading_spent (snapshot : QuotaSnapshot) (model : ModelId) (model_pool : option string)
    (now_seconds : Z) : bool :=
  match status snapshot with
  | StatusExhausted => negb (exhaustion_lapsed snapshot now_seconds model_pool)
  | Available | CreditOnly => model_pool_exhausted snapshot model model_pool now_seconds
  | _ => false
  end.
Definition reading_exhausted (snapshot : QuotaSnapshot) (model : ModelId) (context : RoutingContext) : bool :=
  quota_reading_spent snapshot model (quota_pool (catalogue context) model) (now_seconds context).

Definition quota_headroom (q : QuotaObservation) (model : ModelId) (context : RoutingContext) : PartialHeadroom :=
  partial_headroom (q_snapshot q) (id_adapter model) (id_model model)
    (admission_pools (catalogue context) model) (now_seconds context).

(** [reason.or_else(..)]: the tests of [account_reason] run while none holds. *)
Definition or_reason (reason : option RouteExclusionReason) (next : option RouteExclusionReason)
    : option RouteExclusionReason :=
  match reason with Some r => Some r | None => next end.
Definition reason_if (b : bool) (r : RouteExclusionReason) : option RouteExclusionReason :=
  if b then Some r else None.

Definition headroom_reason (model : ModelId) (q : QuotaObservation) (context : RoutingContext)
    : option RouteExclusionReason :=
  match quota_headroom q model context with
  | PartialExhausted => Some Exhausted
  | headroom =>
      if reading_exhausted (q_snapshot q) model context then Some Exhausted
      else match headroom with
           | PartialUnknown =>
               if negb (allow_unknown_partial_headroom (config context)) then Some UnknownPartialHeadroom else None
           | _ => None
           end
  end.

Definition account_reason (model : ModelId) (availability : AvailabilityRecord) (access : option AccessContext)
    (context : RoutingContext) : option RouteExclusionReason * option QuotaObservation :=
  let reason := match availability_reason (Some availability) context with
                | Some StaleAvailability | Some UnknownAvailability => None
                | r => r
                end in
  let reason := or_reason reason
                  (reason_if (is_none_or access (λ a, str_is_empty (disclosure_ref a))) DisclosureDenied) in
  let reason := or_reason reason
                  (reason_if (is_none_or access (λ a, str_is_empty (confinement_ref a))) ConfinementUnavailable) in
  let reason := or_reason reason
                  (av_account_key availability ≫= λ key, account_block_reason model key context) in
  let reason := or_reason reason (readiness_exclusion model availability context) in
  let quota := latest_reading model availability context true in
  let reason := or_reason reason
                  (reason_if (is_some_and quota (λ q, status (q_snapshot q) == StatusAuthRequired)) AuthRequired) in
  let reason := or_reason reason (quota ≫= λ q, headroom_reason model q context) in
  let policy := policy_of context model (av_account_key availability) in
  let profile := profile_of context model (av_account_key availability) in
  let reason := or_reason reason (reason_if (policy == Off) Disabled) in
  let reason :=
    or_reason reason
      (reason_if
         ((policy == Pace)
          && is_some_and quota (λ q,
               comparable_status (status (q_snapshot q))
               && is_some (pacing_reserve_window (q_snapshot q) (now_seconds context)
                             (adapter_reserve context model) profile (id_adapter model)
                             (quota_pool (catalogue context) model))))
         Routes.PacingReserve) in
  (reason, quota).

Definition uncertainty (model : ModelId) (availability : AvailabilityRecord) (context : RoutingContext)
    : option string :=
  match availability_reason (Some availability) context with
  | Some ((StaleAvailability | UnknownAvailability) as reason) => Some (RouteExclusionReason_debug reason)
  | _ =>
      let fresh := latest_reading model availability context true in
      if is_some_and fresh (λ q, status (q_snapshot q) == StatusUnknown) then Some "unknown quota"
      else if is_some (latest_reading model availability context false) && is_none fresh
      then Some "stale quota"
      else
        lookup ← readiness_lookup context;
        account_key ← av_account_key availability;
        find_map (λ '(index, route),
            let read := lookup (readiness_scope model account_key route) (now_seconds context) in
            if is_none (read_scope read) && is_some fresh then None
            else if ((index == 0%nat) && (read_state read == StateUnknown))
                    || (match project read with
                        | Unavailable _ reason => weak_reason reason
                        | Ready _ _ _ => false
                        end && ((index == 0%nat) || is_some (read_scope read)))
            then Some (ReadinessReason_debug (read_reason read))
            else None)
          (imap pair (readiness_routes model context))
  end.

(** ** Candidates *)

Definition admissible (model : ModelId) (effort : option string) (context : RoutingContext)
    : result RoutingError (option ModelEntry) :=
  if negb (contains (registry context) (id_adapter model)) then Err UnknownAdapter
  else
    let entry := cat_model (catalogue context) model in
    match effort with
    | None => Ok entry
    | Some effort =>
        match Adapters.get (id_adapter model) with
        | Some spec =>
            if negb (caps_effort (launch spec))
            then Err (ErrUnsupportedEffort (id_str model) effort (adapter_name spec +:+ " takes no effort control"))
            else Ok tt
        | None => Ok tt
        end ≫= λ _,
        if negb (effort_valid effort)
           || is_some_and entry (λ row, negb (contains (entry_efforts row) effort))
        then
          let support :=
            match entry with
            | Some row => if bool_decide (entry_efforts row = []) then "this model takes no effort"
                          else "supported efforts: " +:+ join ", " (entry_efforts row)
            | None =>
                let nearest := nearest_models (catalogue context) model in
                if bool_decide (nearest = [])
                then "model is not in the catalogue; no effort controls are recorded"
                else "model is not in the catalogue; nearest catalogued IDs: " +:+ join ", " nearest
            end in
          Err (ErrUnsupportedEffort (id_str model) effort support)
        else Ok entry
    end.

Definition cooling (model : ModelId) (account : option string) (context : RoutingContext) : bool :=
  let now := now_seconds context in
  existsb (λ record,
      (QuotaState.adapter (cool_account record) == id_adapter model)
      && (Some (account_key (cool_account record)) == account)
      && (cool_model record == id_model model)
      && (cool_observed record <=? now) && (now <? cool_expires record))
    (cooldowns context).

(** Accounts of the model's adapter that serve the model. *)
Definition serves (model : ModelId) (a : AvailabilityRecord) : bool :=
  (av_adapter a == id_adapter model)
  && is_none_or (Adapters.get (id_adapter model)) (λ spec,
       is_none_or (av_account_key a) (λ key, account_serves_model spec key (id_model model))).
Definition serving_accounts (model : ModelId) (context : RoutingContext) : list AvailabilityRecord :=
  List.filter (serves model) (availability context).

(** [account.or(context.policy_account_hint)]. *)
Definition or_hint (context : RoutingContext) (account : option string) : option string :=
  match account with Some key => Some key | None => policy_account_hint context end.
Definition permitted (model : ModelId) (account : option string) (intent : RouteIntent)
    (context : RoutingContext) : bool :=
  permits (policy (effective (model_policy (config context)) model (or_hint context account) (now context))) intent.

Record Evaluated := mkEvaluated {
  ev_account : AvailabilityRecord;
  ev_reason : option RouteExclusionReason;
  ev_rank : list Z;
}.
Definition evaluate (model : ModelId) (access : option AccessContext) (avoid_cooling : bool)
    (context : RoutingContext) (a : AvailabilityRecord) : Evaluated :=
  let account := av_account_key a in
  let '(headroom, _, standby) :=
    pacing_factor_basis_points (policy_of context model account) model account context in
  let spent := is_some_and (latest_reading model a context false) (λ q,
                 reading_exhausted (q_snapshot q) model context) in
  mkEvaluated a (account_reason model a access context).1
    [Z.b2z (negb spent);
     Z.b2z (is_none_or (uncertainty model a context) (λ why, why == "stale quota"));
     Z.b2z (is_some (latest_reading model a context true));
     Z.b2z (negb avoid_cooling || negb (cooling model account context));
     Z.b2z (negb standby);
     headroom].

(** [ResourceFact::PacingReserve] as JSON, [crates/records/src/diagnostic.rs]. *)
Inductive PacingReserveSetting := AdapterFiveHour | AdapterSevenDay | SettingAccount | SettingFree.
Inductive PacingSettingSource := Configuration | ShippedDefault | Unresolved.
Definition reserve_fact (percent : Z) (setting : PacingReserveSetting) (origin : PacingSettingSource) : json :=
  json_Object
    [("kind", json_String "pacing_reserve"); ("percent", json_Number percent);
     ("setting", json_String (match setting with
                              | AdapterFiveHour => "adapter_five_hour" | AdapterSevenDay => "adapter_seven_day"
                              | SettingAccount => "account" | SettingFree => "free" end));
     ("origin", json_String (match origin with
                             | Configuration => "configuration" | ShippedDefault => "shipped_default"
                             | Unresolved => "unresolved" end))].

Definition reserve_extra (model : ModelId) (a : AvailabilityRecord) (context : RoutingContext) : ExtraFields :=
  match latest_reading model a context true ≫= λ quota,
          pacing_reserve_window (q_snapshot quota) (now_seconds context) (adapter_reserve context model)
            (profile_of context model (av_account_key a)) (id_adapter model)
            (quota_pool (catalogue context) model) with
  | None => ∅
  | Some window =>
      let profiles := accounts (pacing (config context)) in
      let account_profile := is_some_and (av_account_key a) (λ key,
        contains_key (id_adapter model +:+ "/" +:+ key) profiles || contains_key key profiles) in
      let setting := if negb (reserve_profile window) && reserve_seven_day window then AdapterSevenDay
                     else if negb (reserve_profile window) then AdapterFiveHour
                     else if account_profile then SettingAccount else SettingFree in
      let origin := if reserve_profile window then Configuration
                    else if contains_key (id_adapter model) (pacing_reserve (config context)) then Unresolved
                    else ShippedDefault in
      {[ "pacing_reserve_fact" := reserve_fact (reserve_percent window) setting origin ]}
  end.

Definition account_exclusions (evaluated : list Evaluated) : ExtraFields :=
  if forallb (λ e, is_some (ev_reason e)) evaluated && negb (bool_decide (length evaluated = 0%nat)) then
    {[ "account_exclusions" :=
         json_Array (omap (λ e, (λ reason,
           json_String (unwrap_or (av_account_key (ev_account e)) "unknown account" +:+ ": "
                        +:+ exclusion_detail reason +:+ "; inspect `provenant quota --full`")) <$> ev_reason e)
           evaluated) ]}
  else ∅.

(** The account taken, ready ones by rank first. *)
Definition best_account (evaluated : list Evaluated) : option Evaluated :=
  match max_by_key ev_rank (List.filter (λ e, is_none (ev_reason e)) evaluated) with
  | Some e => Some e
  | None => head evaluated
  end.

Definition ready_of (model : ModelId) (a : AvailabilityRecord) (context : RoutingContext) : RouteReadiness :=
  Ready (match uncertainty model a context with
         | Some reason => {[ "availability_warning" := json_String reason ]}
         | None => ∅
         end)
    (av_fixture_ref a)
    (if av_expires a <=? now_seconds context then saturating_add_i64 (now_seconds context) 60 else av_expires a).

Definition candidate (model : ModelId) (effort : option string) (context : RoutingContext)
    (avoid_cooling : bool) (intent : RouteIntent) : result RoutingError RouteAlternative :=
  entry ← admissible model effort context;
  _ ← match Adapters.get (id_adapter model) with
      | Some spec => match intent_check_launch intent spec (id_model model) effort with
                     | Ok _ => Ok tt
                     | Err error => Err (ErrUnsupportedLaunch (UnsupportedLaunch_display error))
                     end
      | None => Ok tt
      end;
  let access := List.find (λ a, access_adapter a == id_adapter model) (access context) in
  let serving := serving_accounts model context in
  let allowed a := permitted model (av_account_key a) intent context in
  let evaluated := List.map (evaluate model access avoid_cooling context) (List.filter allowed serving) in
  if bool_decide (length evaluated = 0%nat) && existsb (λ a, negb (allowed a)) serving then Err ReadOnlyPolicy
  else
    let best := best_account evaluated in
    let readiness :=
      match best with
      | Some e => match ev_reason e with
                  | Some reason => Unavailable ∅ reason
                  | None => ready_of model (ev_account e) context
                  end
      | None => Unavailable ∅ UnknownAvailability
      end in
    let reserve :=
      match readiness, best with
      | Unavailable _ Routes.PacingReserve, Some e => reserve_extra model (ev_account e) context
      | _, _ => ∅
      end in
    Ok (mkRouteAlternative (account_exclusions evaluated ∪ reserve) (id_adapter model) (id_model model) effort
          (best ≫= λ e, av_account_key (ev_account e)) (context_host context)
          (if is_some entry then Eligible else EligibilityUnverifiedModel) readiness
          (mkRouteConfidentiality ∅ (match access with Some a => disclosure_ref a | None => "" end))).

(** [Excluded::reason]. *)
Definition excluded_reason (self : Excluded) (model : ModelId) (context : RoutingContext) : option string :=
  let serving_accounts_remain := existsb (serves model) (availability context) in
  match List.find (λ rule, removes rule model serving_accounts_remain) (exclusion_rules self) with
  | Some rule => Some (ExclusionRule_display rule)
  | None =>
      if existsb (λ e, (excluded_model e == model) && Schedule_active (excluded_schedule e) (now context))
           (model_exclusions (config context))
      then Some ("excluded by config: model " +:+ id_str model)
      else if bool_decide (model ∈ rejected self) then Some "admission rejected" else None
  end.

(** ** What a candidate is *)

Lemma evaluate_account model acc avoid context a : ev_account (evaluate model acc avoid context a) = a.
Proof. unfold evaluate. by destruct (pacing_factor_basis_points _ _ _ _) as [[??]?]. Qed.
Lemma evaluate_reason model acc avoid context a :
  ev_reason (evaluate model acc avoid context a) = (account_reason model a acc context).1.
Proof. unfold evaluate. by destruct (pacing_factor_basis_points _ _ _ _) as [[??]?]. Qed.

Definition access_of (model : ModelId) (context : RoutingContext) : option AccessContext :=
  List.find (λ a, access_adapter a == id_adapter model) (access context).

(** The accounts a candidate is chosen from: those that serve the model and
    whose policy permits the intent. *)
Definition allowed_accounts (model : ModelId) (intent : RouteIntent) (context : RoutingContext)
    : list AvailabilityRecord :=
  List.filter (λ a, permitted model (av_account_key a) intent context) (serving_accounts model context).

Lemma allowed_accounts_elem model intent context a :
  a ∈ allowed_accounts model intent context ↔
  a ∈ availability context ∧ serves model a = true ∧ permitted model (av_account_key a) intent context = true.
Proof. unfold allowed_accounts, serving_accounts. rewrite !bfilter_elem. naive_solver. Qed.

(** The launch check of [candidate]. *)
Definition launch_checked (model : ModelId) (effort : option string) (intent : RouteIntent)
    : result RoutingError unit :=
  match Adapters.get (id_adapter model) with
  | Some spec => match intent_check_launch intent spec (id_model model) effort with
                 | Ok _ => Ok tt
                 | Err error => Err (ErrUnsupportedLaunch (UnsupportedLaunch_display error))
                 end
  | None => Ok tt
  end.

(** A candidate names its model, and an account it may use. *)
Record candidate_of (model : ModelId) (effort : option string) (context : RoutingContext)
    (intent : RouteIntent) (r : RouteAlternative) : Prop := {
  co_admissible : ∃ entry, admissible model effort context = Ok entry;
  co_launch : launch_checked model effort intent = Ok tt;
  co_adapter : alt_adapter r = id_adapter model;
  co_model : alt_model r = id_model model;
  co_effort : alt_effort r = effort;
  co_account : ∀ key, alt_account_key r = Some key →
    ∃ a, a ∈ allowed_accounts model intent context ∧ av_account_key a = Some key;
  co_ready : ∀ x ref e, alt_readiness r = Ready x ref e →
    ∃ a, a ∈ allowed_accounts model intent context ∧ alt_account_key r = av_account_key a ∧
      (account_reason model a (access_of model context) context).1 = None ∧ alt_readiness r = ready_of model a context;
}.

Lemma best_account_elem evaluated e : best_account evaluated = Some e → e ∈ evaluated.
Proof.
  unfold best_account. destruct (max_by_key _ _) as [e'|] eqn:Hm.
  - intros [= ->]. apply max_by_key_elem, bfilter_elem in Hm as [? _]. done.
  - destruct evaluated; [done|]. simpl. intros [= ->]. set_solver.
Qed.
(** An account with no reason against it is taken when there is one. *)
Lemma best_account_ready evaluated :
  (∃ e, best_account evaluated = Some e ∧ ev_reason e = None) ↔ ∃ e, e ∈ evaluated ∧ ev_reason e = None.
Proof.
  split.
  - intros (e & He%best_account_elem & Hr). eauto.
  - intros (e & He & Hr). unfold best_account.
    destruct (max_by_key ev_rank (List.filter (λ e, is_none (ev_reason e)) evaluated)) as [e'|] eqn:Hm.
    + exists e'. split; [done|]. apply max_by_key_elem, bfilter_elem in Hm as [_ Hn]. by destruct (ev_reason e').
    + apply max_by_key_None in Hm. exfalso. assert (e ∈ List.filter (λ e, is_none (ev_reason e)) evaluated) as H.
      { apply bfilter_elem. by rewrite Hr. }
      rewrite Hm in H. by apply elem_of_nil in H.
Qed.

Lemma evaluated_elem model acc avoid context l e :
  e ∈ List.map (evaluate model acc avoid context) l ↔ ∃ a, a ∈ l ∧ e = evaluate model acc avoid context a.
Proof. trans (e ∈ evaluate model acc avoid context <$> l); [done|]. rewrite list_elem_of_fmap. naive_solver. Qed.

Lemma candidate_inv model effort context avoid intent r :
  candidate model effort context avoid intent = Ok r → candidate_of model effort context intent r.
Proof.
  unfold candidate. fold (launch_checked model effort intent) (access_of model context).
  fold (allowed_accounts model intent context). cbv zeta.
  intros (entry & Hadm & H)%result_bind_Ok. apply result_seq_Ok in H as [Hl H].
  destruct (_ && _); [done|]. injection H as <-.
  set (ev := List.map _ _).
  assert (∀ e, best_account ev = Some e → ∃ a, a ∈ allowed_accounts model intent context ∧
    ev_account e = a ∧ ev_reason e = (account_reason model a (access_of model context) context).1) as Hbest.
  { intros e (a & Ha & ->)%best_account_elem%evaluated_elem. exists a. by rewrite evaluate_account, evaluate_reason. }
  split; cbn; try done; [by exists entry|..].
  - intros key (e & He & Hkey)%bind_Some. apply Hbest in He as (a & Ha & <- & _). eauto.
  - intros x ref exp. destruct (best_account ev) as [e|] eqn:He; [|done].
    destruct (Hbest e eq_refl) as (a & Ha & Hea & Hr). rewrite Hr, Hea.
    destruct (account_reason _ _ _ _).1 eqn:Hreason; [done|]. intros _. exists a. simpl. by rewrite Hea.
Qed.
End Resolve.
