(* ===== verification/RoutingPool.v ===== *)
(** * RoutingPool: pools, the weighted draw and the entry points

    Models the rest of [crates/routing/src/resolve.rs]: the classification of
    the members of a pool, the preference for image input and against stale
    exhaustion, the draw, the selection with its two passes over cooling
    members, and [resolve], [resolve_with_seed] and
    [resolve_for_account_with_seed_excluding]. *)

From Stdlib Require Import Ascii SpecFloat.
From stdpp Require Import base option list strings sets pretty gmap.
From S2P Require Import Prelude External ReviewPaths ReviewPolicy ReviewCheck Adapters Routes QuotaState QuotaAdmission QuotaReadiness RoutingTypes RoutingPolicy RoutingConfig RoutingPacing RoutingResolve.

Local Open Scope string_scope.
Local Open Scope list_scope.
Local Open Scope Z_scope.
Local Open Scope rust_scope.

(** [iter().collect::<Result<Vec<_>, _>>()]: the first error ends it. *)
Fixpoint collect {E B} (l : list (result E B)) : result E (list B) :=
  match l with
  | [] => Ok []
  | r :: l' => x ← r; xs ← collect l'; Ok (x :: xs)
  end.

(** A [for] loop whose body may return early with an error. *)
Fixpoint try_fold {E S B} (f : S → B → result E S) (s : S) (l : list B) : result E S :=
  match l with
  | [] => Ok s
  | x :: l' => s' ← f s x; try_fold f s' l'
  end.

Section Pool.
Context {J : Json} {X : JsonText} {T : Jiff} {C : Civil} {A : RoutingAssets} {F : Fmt}.

(** ** Classification *)

Record ClassifiedPool := mkClassifiedPool {
  cp_candidates : list RouteSelectionCandidate;
  cp_routes : list (option RouteAlternative);
  weighted : list (nat * Z);
  zero_ready : list nat;
  standby_ready : list nat;
  stale_spent : list nat;
  first_zero_ready : option nat;
  first_standby_ready : option nat;
  first_recoverable_unavailable : option nat;
  first_other_unavailable : option nat;
  cp_exclusions : list string;
}.
Definition ClassifiedPool_new : ClassifiedPool :=
  mkClassifiedPool [] [] [] [] [] [] None None None None [].

(** What the loop does with one member. *)
Inductive Slot :=
| NoSlot
| Weighted (w : Z)
| ZeroReady
| StandbyReady
| RecoverableUnavailable
| OtherUnavailable.
Record Verdict := mkVerdict {
  v_candidate : RouteSelectionCandidate;
  v_route : option RouteAlternative;
  v_slot : Slot;
  v_exclusions : list string;
  v_stale : bool;
}.

(** [if slot.is_none() { slot = Some(index) }]. *)
Definition set_first (slot : option nat) (b : bool) (index : nat) : option nat :=
  match slot with Some i => Some i | None => if b then Some index else None end.
Definition push_if {B} (b : bool) (l : list B) (x : B) : list B := if b then l ++ [x] else l.

Definition push (c : ClassifiedPool) (v : Verdict) : ClassifiedPool :=
  let index := length (cp_candidates c) in
  let slot s := match v_slot v, s with
                | ZeroReady, ZeroReady | StandbyReady, StandbyReady
                | RecoverableUnavailable, RecoverableUnavailable | OtherUnavailable, OtherUnavailable => true
                | _, _ => false
                end in
  mkClassifiedPool (cp_candidates c ++ [v_candidate v]) (cp_routes c ++ [v_route v])
    (match v_slot v with Weighted w => weighted c ++ [(index, w)] | _ => weighted c end)
    (push_if (slot ZeroReady) (zero_ready c) index)
    (push_if (slot StandbyReady) (standby_ready c) index)
    (push_if (v_stale v) (stale_spent c) index)
    (set_first (first_zero_ready c) (slot ZeroReady) index)
    (set_first (first_standby_ready c) (slot StandbyReady) index)
    (set_first (first_recoverable_unavailable c) (slot RecoverableUnavailable) index)
    (set_first (first_other_unavailable c) (slot OtherUnavailable) index)
    (cp_exclusions c ++ v_exclusions v).

(** *** Spent members *)

Definition member_readings (member : RoutePoolMember) (context : RoutingContext)
    : list (option QuotaObservation) :=
  List.map (λ a, latest_reading (member_model member) a context false)
    (serving_accounts (member_model member) context).
Definition reading_spent (member : RoutePoolMember) (context : RoutingContext) (q : QuotaObservation) : bool :=
  reading_exhausted (q_snapshot q) (member_model member) context
  || match quota_headroom q (member_model member) context with PartialExhausted => true | _ => false end.
Definition all_spent (member : RoutePoolMember) (context : RoutingContext) : bool :=
  negb (bool_decide (length (member_readings member context) = 0%nat))
  && forallb (λ q, is_some_and q (reading_spent member context)) (member_readings member context).
Definition all_fresh (member : RoutePoolMember) (context : RoutingContext) : bool :=
  forallb (λ q, is_some_and q (λ q,
      (observed (q_snapshot q) <? q_expires q) && (now_seconds context <? q_expires q)))
    (member_readings member context).
Definition member_exhausted (member : RoutePoolMember) (context : RoutingContext) : bool :=
  all_spent member context && all_fresh member context.

Definition earliest_reset (member : RoutePoolMember) (context : RoutingContext) : option Z :=
  Z_min (List.filter (λ reset, now_seconds context <? reset)
    (omap resets
      (List.filter (λ w, 10000 <=? used_basis_points w)
        (List.filter (λ w, window_serves (id_adapter (member_model member)) (pool w)
                             (quota_pool (catalogue context) (member_model member)))
          (flat_map (λ q, windows (q_snapshot q)) (omap (λ q, q) (member_readings member context))))))).
Definition spent_detail (member : RoutePoolMember) (context : RoutingContext) : option string :=
  if member_exhausted member context then
    Some (match earliest_reset member context with
          | Some reset => "exhausted; earliest known reset " +:+ pretty reset
          | None => "exhausted; reset unknown"
          end)
  else None.

(** *** One member *)

Definition recoverable (reason : RouteExclusionReason) : bool :=
  match reason with
  | StaleAvailability | AuthRequired | LoginExpired | Exhausted | FreeTierRefused | ProviderRefused
  | Routes.PacingReserve => true
  | _ => false
  end.

Definition member_effort_of (request : RouteRequest) (member : RoutePoolMember) : option string :=
  match effort request with Some e => Some e | None => member_effort member end.

(** A member that takes no part in the draw. *)
Definition leave_out (request : RouteRequest) (member : RoutePoolMember) (factor : Z) (detail : option string)
    (readiness : option RouteReadiness) (why : string) (exclusions : list string) (stale : bool) : Verdict :=
  mkVerdict (mkRouteSelectionCandidate ∅ (id_str (member_model member)) (member_weight member) factor detail
               (member_effort_of request member) readiness (Some why))
    None NoSlot exclusions stale.

(** [((u64::from(factor) * u64::from(cache_factor)) / 10_000) as u32]. *)
Definition combined_factor (factor cache_factor : Z) : Z := (factor * cache_factor) / 10000 mod 2 ^ 32.

Definition cache_detail (policy : ModelPolicy) (cache_factor : Z) (detail : string) : string :=
  if cache_factor != 10000 then
    detail +:+ "; cheap-cache read-heavy preference factor=" +:+ pretty cache_factor +:+ "/10000 (read ratio "
    +:+ debug_ratio (read_ratio (cache policy)) +:+ ", context "
    +:+ match context_window (cache policy) with Some n => "Some(" +:+ pretty n +:+ ")" | None => "None" end
    +:+ ")"
  else detail.

Definition slot_of (member : RoutePoolMember) (readiness : RouteReadiness) (standby : bool) (factor : Z) : Slot :=
  match readiness with
  | Ready _ _ _ =>
      if standby then StandbyReady
      else if member_weight member == 0 then ZeroReady
      else Weighted (clamp 0 u64_max (member_weight member * factor))
  | Unavailable _ Disabled => NoSlot
  | Unavailable _ reason => if recoverable reason then RecoverableUnavailable else OtherUnavailable
  end.

(** The member resolved to a route. *)
Definition classify_resolved (request : RouteRequest) (context : RoutingContext) (avoid_cooling stale : bool)
    (member : RoutePoolMember) (resolved : RouteAlternative) : Verdict :=
  let model := member_model member in
  let readiness := alt_readiness resolved in
  let model_policy :=
    policy (effective (model_policy (config context)) model (or_hint context (alt_account_key resolved)) (now context)) in
  if negb (permits model_policy (intent request)) then
    leave_out request member NEUTRAL_FACTOR_BASIS_POINTS None (Some readiness) "read-only model policy"
      [id_str model +:+ ": read-only model policy"] stale
  else
    let '(factor, detail, standby) :=
      pacing_factor_basis_points (policy_of context model (alt_account_key resolved)) model
        (alt_account_key resolved) context in
    let cache_factor := cache_factor_basis_points model_policy (intent request) in
    let factor := combined_factor factor cache_factor in
    if avoid_cooling && cooling model (alt_account_key resolved) context then
      leave_out request member factor (Some detail) (Some readiness) "capacity cooldown" [] stale
    else
      mkVerdict
        (mkRouteSelectionCandidate ∅ (id_str model) (member_weight member) factor
           (Some (cache_detail model_policy cache_factor detail)) (member_effort_of request member)
           (Some readiness) None)
        (Some resolved) (slot_of member readiness standby factor)
        (match readiness with Unavailable _ Disabled => [id_str model +:+ ": disabled"] | _ => [] end)
        stale.

Definition classify_member (request : RouteRequest) (context : RoutingContext) (excluded_members : Excluded)
    (avoid_cooling : bool) (member : RoutePoolMember) : result RoutingError Verdict :=
  let model := member_model member in
  let effort := member_effort_of request member in
  let stale := all_spent member context && negb (member_exhausted member context) in
  let out why exclusions :=
    Ok (leave_out request member NEUTRAL_FACTOR_BASIS_POINTS None None why exclusions stale) in
  match excluded_reason excluded_members model context, spent_detail member context with
  | Some rule, Some quota => out (rule +:+ "; " +:+ quota) [id_str model +:+ ": " +:+ rule +:+ "; " +:+ quota]
  | Some detail, None | None, Some detail => out detail [id_str model +:+ ": " +:+ detail]
  | None, None =>
      if negb (privacy_allowed model (confidential request) (catalogue context))
      then out "confidential" ["confidential model"]
      else if is_some_and effort (λ value, negb (contains (member_efforts member) value))
      then out "effort" ["unsupported effort"]
      else
        match candidate model effort context avoid_cooling (intent request) with
        | Ok resolved => Ok (classify_resolved request context avoid_cooling stale member resolved)
        | Err ReadOnlyPolicy => out "read-only model policy" [id_str model +:+ ": read-only model policy"]
        | Err (ErrUnsupportedLaunch detail) => out detail [id_str model +:+ ": " +:+ detail]
        | Err (ErrUnsupportedEffort _ _ _) => out "effort" ["unsupported effort"]
        | Err error => Err error
        end
  end.

Definition classify_pool (members : list RoutePoolMember) (request : RouteRequest) (context : RoutingContext)
    (excluded_members : Excluded) (avoid_cooling : bool) : result RoutingError ClassifiedPool :=
  try_fold (λ classified member,
      v ← classify_member request context excluded_members avoid_cooling member;
      Ok (push classified v)) ClassifiedPool_new members.

(** ** The draw *)

Record PoolDraw := mkPoolDraw { draw_index : nat; draw_roll : Z; draw_total : Z }.

Definition weight_total (l : list (nat * Z)) : Z :=
  fold_left (λ total '(_, weight), saturating_add_u64 total weight) l 0.
(** The scan over the cumulative weights. *)
Fixpoint find_roll (remainder : Z) (l : list (nat * Z)) : option nat :=
  match l with
  | [] => None
  | (index, weight) :: l' =>
      if remainder <? weight then Some index else find_roll (saturating_sub_u64 remainder weight) l'
  end.
Definition or_else (a b : option nat) : option nat := match a with Some i => Some i | None => b end.

Definition draw_pool (name : string) (classified : ClassifiedPool) (seed : option (string * Z))
    : result RoutingError PoolDraw :=
  let total := weight_total (weighted classified) in
  let '(operation_id, task_index) := unwrap_or seed ("route-preview", 0) in
  let roll := if 0 <? total then stable_roll operation_id task_index name total else 0 in
  let selected :=
    if 0 <? total then find_roll roll (weighted classified)
    else or_else (or_else (or_else (first_zero_ready classified) (first_standby_ready classified))
                    (first_recoverable_unavailable classified)) (first_other_unavailable classified) in
  match selected with
  | Some index => Ok (mkPoolDraw index roll total)
  | None => Err (NoEligiblePoolMember (cp_exclusions classified))
  end.

Definition is_ready (r : RouteReadiness) : bool := match r with Ready _ _ _ => true | _ => false end.
Definition route_ready (classified : ClassifiedPool) (index : nat) : bool :=
  match cp_routes classified !! index with
  | Some (Some route) => is_ready (alt_readiness route)
  | _ => false
  end.

(** ** Preferences *)

Definition image_input_supported (model : ModelId) : bool :=
  is_some_and (Adapters.get (id_adapter model)) (λ spec, image_input (launch spec)).

(** The ready members that [keep] retains. *)
Definition retain_ready (keep : nat → bool) (c : ClassifiedPool) : ClassifiedPool :=
  let zero := List.filter keep (zero_ready c) in
  let standby := List.filter keep (standby_ready c) in
  mkClassifiedPool (cp_candidates c) (cp_routes c) (List.filter (λ '(index, _), keep index) (weighted c))
    zero standby (stale_spent c) (head zero) (head standby)
    (first_recoverable_unavailable c) (first_other_unavailable c) (cp_exclusions c).
Definition ready_indices (c : ClassifiedPool) : list nat :=
  List.map fst (weighted c) ++ zero_ready c ++ standby_ready c.

Definition classify_with_image_preference (members : list RoutePoolMember) (request : RouteRequest)
    (context : RoutingContext) (excluded : Excluded) (avoid_cooling : bool)
    : result RoutingError ClassifiedPool :=
  classified ← classify_pool members request context excluded avoid_cooling;
  let image index := is_some_and (members !! index) (λ m, image_input_supported (member_model m)) in
  let has_ready_image :=
    existsb (λ '(member, route),
        image_input_supported (member_model member)
        && is_some_and route (λ r, is_ready (alt_readiness r)))
      (zip members (cp_routes classified)) in
  let classified :=
    if intent_image_input (intent request) && has_ready_image then retain_ready image classified else classified in
  let not_stale index := negb (bool_decide (index ∈ stale_spent classified)) in
  Ok (if existsb not_stale (ready_indices classified) then retain_ready not_stale classified else classified).

(** ** Selection *)

Record PoolPick := mkPoolPick { pick_route : RouteAlternative; pick_receipt : RouteSelectionReceipt }.

Definition cooled (c : RouteSelectionCandidate) : bool := exclusion c == Some "capacity cooldown".

(** The pool that is drawn from, the draw, and why a second pass was made. *)
Definition draw_avoiding_cooling (name : string) (members : list RoutePoolMember) (request : RouteRequest)
    (context : RoutingContext) (seed : option (string * Z)) (excluded_members : Excluded)
    : result RoutingError (ClassifiedPool * PoolDraw * option string) :=
  classified ← classify_with_image_preference members request context excluded_members true;
  let second_pass := classify_with_image_preference members request context excluded_members false in
  match draw_pool name classified seed with
  | Ok draw =>
      if negb (route_ready classified (draw_index draw))
         && existsb (λ c, cooled c && is_some_and (cand_readiness c) is_ready) (cp_candidates classified)
      then
        normal ← second_pass;
        normal_draw ← draw_pool name normal seed;
        if route_ready normal (draw_index normal_draw)
        then Ok (normal, normal_draw, Some "cooling ready candidate selected over unavailable candidate")
        else Ok (classified, draw, None)
      else Ok (classified, draw, None)
  | Err error =>
      if existsb cooled (cp_candidates classified) then
        normal ← second_pass;
        match draw_pool name normal seed with
        | Ok draw => Ok (normal, draw, Some "all eligible candidates cooling, normal selection")
        | Err _ => Err error
        end
      else Err error
  end.

Definition choice_preference (request : RouteRequest) (context : RoutingContext) : option ModelId :=
  choice_context context ≫= λ '(risk, kind), preferred_model (config context) request risk kind (now context).

Definition preferred_index (members : list RoutePoolMember) (classified : ClassifiedPool) (model : ModelId)
    : option nat :=
  List.find (λ index, is_some_and (members !! index) (λ m, member_model m == model))
    (List.map fst (weighted classified) ++ zero_ready classified).

Definition selection_rule (classified : ClassifiedPool) (preferred : bool) (draw : PoolDraw) : string :=
  if preferred then "model_choice_override"
  else if 0 <? draw_total draw then "weighted_draw"
  else if first_zero_ready classified == Some (draw_index draw) then "first_zero_weight_ready"
  else if first_standby_ready classified == Some (draw_index draw) then "first_standby_ready"
  else if first_recoverable_unavailable classified == Some (draw_index draw) then "first_recoverable_unavailable"
  else "first_unavailable".

Definition selection_extra (name : string) (context : RoutingContext) (excluded_members : Excluded) (rule : string)
    : ExtraFields :=
  <["weight_source" := json_String (if contains_key name (pools (config context)) then "config" else "catalogue")]>
  (<["selection_rule" := json_String rule]>
   (if bool_decide (length (exclusion_rules excluded_members) = 0%nat) then ∅
    else {[ "considered_exclusions" :=
              json_Array (List.map (λ rule,
                json_String ("source=" +:+ ExclusionSource_as_str (rule_source rule) +:+ " selector="
                             +:+ ExclusionSelector_display (selector rule))) (exclusion_rules excluded_members)) ]})).

Definition select_pool (name : string) (members : list RoutePoolMember) (request : RouteRequest)
    (context : RoutingContext) (seed : option (string * Z)) (excluded_members : Excluded)
    : result RoutingError PoolPick :=
  drawn ← draw_avoiding_cooling name members request context seed excluded_members;
  let '(classified, draw, reason) := drawn in
  let preferred := choice_preference request context ≫= preferred_index members classified in
  let draw := match preferred with Some index => mkPoolDraw index 0 0 | None => draw end in
  match cp_routes classified !! draw_index draw with
  | Some (Some route) =>
      Ok (mkPoolPick route
            (mkRouteSelectionReceipt
               (selection_extra name context excluded_members (selection_rule classified (is_some preferred) draw))
               name (cp_candidates classified) (draw_roll draw) (draw_total draw)
               (alt_adapter route +:+ "/" +:+ alt_model route) reason []))
  | _ => Err ErrCatalogue
  end.

(** ** Resolution *)

(** The pool of a named route, with the preferred model added at weight zero. *)
Definition preferred_member (context : RoutingContext) (model : ModelId) : RoutePoolMember :=
  let entry := cat_model (catalogue context) model in
  mkRoutePoolMember model 0 None (match entry with Some e => entry_efforts e | None => [] end)
    (is_some_and entry entry_free).
Definition route_as_pool (context : RoutingContext) (name : string) : option (list RoutePoolMember) :=
  route ← map_get name (routes (config context));
  entry ← cat_model (catalogue context) (route_id route);
  Some [mkRoutePoolMember (route_id route) 100 (named_effort route) (entry_efforts entry) false].
Definition choice_pool (request : RouteRequest) (context : RoutingContext) (name : string)
    : option (list RoutePoolMember) :=
  match choice_preference request context with
  | None => effective_pool context name
  | Some model =>
      let pool := match effective_pool context name with
                  | Some members => Some members
                  | None => route_as_pool context name
                  end in
      match pool with
      | Some members =>
          Some (if existsb (λ member, member_model member == model) members then members
                else members ++ [preferred_member context model])
      | None => None
      end
  end.

Definition resolve_primary (request : RouteRequest) (context : RoutingContext) (seed : option (string * Z))
    (excluded_members : Excluded) : result RoutingError (RouteAlternative * option RouteSelectionReceipt) :=
  match choice request with
  | ChoiceModel model =>
      if negb (privacy_allowed model (confidential request) (catalogue context)) then Err ConfidentialModel
      else
        route ← candidate model (effort request) context false (intent request);
        Ok (route, None)
  | NamedRoute name =>
      let name := name_str name in
      match choice_pool request context name with
      | Some members =>
          selected ← select_pool name members request context seed excluded_members;
          Ok (pick_route selected, Some (pick_receipt selected))
      | None =>
          named ← ok_or (map_get name (routes (config context))) UnknownRoute;
          if is_none (cat_model (catalogue context) (route_id named)) then Err ErrCatalogue
          else if negb (privacy_allowed (route_id named) (confidential request) (catalogue context))
          then Err ConfidentialModel
          else
            match excluded_reason (mkExcluded [] (exclusion_rules excluded_members)) (route_id named) context with
            | Some detail => Err (NoEligiblePoolMember [id_str (route_id named) +:+ ": " +:+ detail])
            | None =>
                route ← candidate (route_id named)
                          (match effort request with Some e => Some e | None => named_effort named end)
                          context false (intent request);
                Ok (route, None)
            end
      end
  end.

Definition fallback_models (request : RouteRequest) : list ModelId :=
  match fallback request with FallbackNone => [] | FallbackModels models => bounded_slice models end.
Definition named_route (request : RouteRequest) : bool :=
  match choice request with NamedRoute _ => true | ChoiceModel _ => false end.

Definition resolve_alternatives (request : RouteRequest) (context : RoutingContext) (excluded_members : Excluded)
    (effort : option string) : result RoutingError (list RouteAlternative) :=
  let models :=
    List.filter (λ model, negb (named_route request) || is_none (excluded_reason excluded_members model context))
      (List.filter (λ model, privacy_allowed model (confidential request) (catalogue context))
         (fallback_models request)) in
  collect (List.filter (λ c, match c with Err (ReadOnlyPolicy | ErrUnsupportedLaunch _) => false | _ => true end)
             (List.map (λ model, candidate model effort context false (intent request)) models)).

Definition route_exclusions (routes : list RouteAlternative) : list RouteExclusion :=
  omap (λ candidate, match alt_readiness candidate with
                     | Unavailable _ reason =>
                         Some (mkRouteExclusion ∅ (alt_adapter candidate) (alt_model candidate) reason)
                     | Ready _ _ _ => None
                     end) routes.

Definition resolve_inner (request : RouteRequest) (context : RoutingContext) (seed : option (string * Z))
    (excluded_members : Excluded) : result RoutingError ResolvedRoute :=
  selected ← resolve_primary request context seed excluded_members;
  let '(primary, pool_selection) := selected in
  primary_model ← ModelId_parse (alt_adapter primary +:+ "/" +:+ alt_model primary);
  _ ← validate_intent
        (policy (effective (model_policy (config context)) primary_model
                   (or_hint context (alt_account_key primary)) (now context))) (intent request);
  if bool_decide (primary_model ∈ fallback_models request) then Err ErrAlternatives
  else
    alternatives ← resolve_alternatives request context excluded_members (alt_effort primary);
    match RouteAlternatives_new alternatives with
    | Err _ => Err ErrAlternatives
    | Ok bounded =>
        Ok (mkResolvedRoute (alt_extra primary) (alt_adapter primary) (alt_model primary) (alt_effort primary)
              (cat_revision (catalogue context)) (alt_account_key primary) (alt_host primary) bounded
              (route_exclusions (primary :: alternatives)) (alt_eligibility primary) (alt_readiness primary)
              (alt_confidentiality primary) pool_selection)
    end.

Definition resolve_with_seed (request : RouteRequest) (context : RoutingContext) (operation_id : string)
    (task_index : Z) : result RoutingError ResolvedRoute :=
  _ ← context_validate context;
  resolve_inner request context (Some (operation_id, task_index)) (mkExcluded [] []).
Definition resolve (request : RouteRequest) (context : RoutingContext) : result RoutingError ResolvedRoute :=
  _ ← context_validate context;
  resolve_inner request context None (mkExcluded [] []).

(** Accounts the rules exclude are withheld. *)
Definition withhold_accounts (rules : list ExclusionRule) (context : RoutingContext) : RoutingContext :=
  set_availability
    (List.filter (λ record,
         negb (existsb (λ '(adapter, key),
             (av_adapter record == adapter) && (av_account_key record == Some key)) (omap rule_account rules)))
       (availability context)) context.

(** The adapters a chosen account applies to. *)
Definition choice_adapters (request : RouteRequest) (context : RoutingContext) : result RoutingError (list string) :=
  adapters ← match choice request with
             | ChoiceModel model => Ok [id_adapter model]
             | NamedRoute name =>
                 match raw_pool context (name_str name) with
                 | Some pool => Ok (List.map (λ member, id_adapter (member_model member)) pool)
                 | None =>
                     route ← ok_or (map_get (name_str name) (routes (config context))) UnknownRoute;
                     Ok [id_adapter (route_id route)]
                 end
             end;
  Ok (match choice_preference request context with
      | Some model => id_adapter model :: adapters
      | None => adapters
      end).

Definition resolve_for_account_with_seed_excluding (request : RouteRequest) (context : RoutingContext)
    (account : option string) (operation_id : string) (task_index : Z)
    (excluded_members : list ModelId) (rules : list ExclusionRule) : result RoutingError ResolvedRoute :=
  account ← AccountSelection_parse account;
  _ ← context_validate context;
  let rules := if named_route request then rules else [] in
  let context := withhold_accounts rules context in
  let excluded := mkExcluded (if named_route request then excluded_members else []) rules in
  let seed := Some (operation_id, task_index) in
  match account with
  | KnownAccount account =>
      adapters ← choice_adapters request context;
      resolve_inner request
        (set_availability
           (List.filter (λ record,
                negb (contains adapters (av_adapter record)) || (av_account_key record == Some account))
              (availability context)) context)
        seed excluded
  | AnyAccount => resolve_inner request context seed excluded
  end.

Definition resolve_for_account_with_seed (request : RouteRequest) (context : RoutingContext)
    (account : option string) (operation_id : string) (task_index : Z) : result RoutingError ResolvedRoute :=
  resolve_for_account_with_seed_excluding request context account operation_id task_index [] [].

(** ** Probing and previews *)

Definition probe_adapters (request : RouteRequest) (catalogue : Catalogue) (config : RoutingConfig)
    (registry : list string) : result RoutingError (list string) :=
  adapters ← match choice request with
             | ChoiceModel model => Ok [id_adapter model]
             | NamedRoute name =>
                 let members := match map_get (name_str name) (pools config) with
                                | Some members => Some members
                                | None => map_get (name_str name) (cat_pools catalogue)
                                end in
                 match members with
                 | Some members => Ok (List.map (λ member, id_adapter (member_model member)) members)
                 | None =>
                     route ← ok_or (map_get (name_str name) (routes config)) UnknownRoute;
                     Ok [id_adapter (route_id route)]
                 end
             end;
  Ok (List.filter (contains (adapters ++ List.map id_adapter (fallback_models request))) registry).
End Pool.
