(* ===== verification/RoutingExample.v ===== *)
(** * RoutingExample: a small host

    A catalogue with two adapters and one pool, two accounts of one of them, and
    a context over it: the inputs the witnesses of the routing theorems evaluate. *)

From Stdlib Require Import Ascii SpecFloat.
From stdpp Require Import base option list strings sets pretty gmap.
From S2P Require Import Prelude External ReviewPaths ReviewPolicy ReviewCheck Adapters Routes QuotaState QuotaAdmission QuotaReadiness RoutingTypes RoutingPolicy RoutingConfig RoutingPacing RoutingResolve RoutingPool.

Local Open Scope string_scope.
Local Open Scope list_scope.
Local Open Scope Z_scope.
Local Open Scope rust_scope.

#[export] Existing Instance json_example.
#[export] Existing Instance json_text_example.
#[export] Existing Instance jiff_example.
#[export] Existing Instance civil_example.

Definition fmt_example : Fmt := {| debug_str s := s; debug_ratio _ := "None"; display_tenths _ := "0.0" |}.
#[export] Existing Instance fmt_example.

Definition ex_sonnet : ModelId := mkModelId "claude/claude-sonnet-5".
Definition ex_opus : ModelId := mkModelId "claude/claude-opus-5".
Definition ex_gpt : ModelId := mkModelId "codex/gpt-6".

Definition ex_entry (m : ModelId) (trains : option bool) : ModelEntry :=
  mkModelEntry false m ["low"; "high"] "fixture" None trains None None.
Definition ex_member (m : ModelId) (w : Z) : RoutePoolMember := mkRoutePoolMember m w None ["low"; "high"] false.

Definition ex_catalogue : Catalogue :=
  mkCatalogue 1 "rev-1" [ex_entry ex_sonnet (Some false); ex_entry ex_opus (Some false); ex_entry ex_gpt None]
    [("standard", [ex_member ex_sonnet 3; ex_member ex_gpt 1])] []
    (mkWriterAdvisory None [] [] []).

Definition assets_example : RoutingAssets :=
  {| bundled_policies := mkModelPolicies false ModelPolicy_default [];
     bundled_catalogue := Ok ex_catalogue;
     REGISTRY := ["claude"; "codex"] |}.
#[export] Existing Instance assets_example.

(** One rule keeps the second account of [claude] to reading. *)
Definition ex_read_only : ModelPolicyRule :=
  mkModelPolicyRule (Some "claude") None None (Some "claude/second") Schedule_default
    (mkModelPolicy (mkCompactionPolicy None None None) (mkCachePolicy None None None None None None None None None)
       (mkLanePolicy None None None None (Some true) None) (mkResultPolicy None None None None)).

Definition ex_review : ReviewConfig :=
  ReviewPolicy.mkConfig [("plain", mkShape [mkReviewer "standard" 1 [] false] false 0 Reduce)]
    (mkSelect "plain" [] [] [] [] []) ReviewSize_default (mkLenses ["correctness"] [] []) [].

Definition ex_config : RoutingConfig :=
  mkRoutingConfig [] [] [] (mkModelPolicies true ModelPolicy_default [ex_read_only]) None false false
    300 2 60 600 3600 ex_review [("solo", mkRoute ex_opus (Some "high"))] [] (mkPacingSettings [] [] []) [] [] 0.

Definition ex_availability (adapter key : string) : AvailabilityRecord :=
  mkAvailabilityRecord 1 adapter "/usr/bin/agent" "1.0" "fixture" "rev-1" (Some key) [] 1000 9000.

(** The first account of [claude] has used four fifths of its five hours. *)
Definition ex_snapshot (adapter key : string) (used : Z) : QuotaSnapshot :=
  mkQuotaSnapshot 1 (mkAccountScope adapter key key) 1 Available 1500 "fixture" None
    [mkQuotaWindow "five_hour" (Some 18000) used (Some 11000)] None.

Definition ex_context : RoutingContext :=
  mkRoutingContext None None ex_catalogue ex_config ["claude"; "codex"]
    [ex_availability "claude" "first"; ex_availability "claude" "second"; ex_availability "codex" "work"]
    [mkQuotaObservation ex_sonnet (ex_snapshot "claude" "first" 8000) 8000] [] [] [] None
    [mkAccessContext "claude" "grant" "profile"; mkAccessContext "codex" "grant" "profile"] (2000 : Timestamp) "local".

Definition ex_request (choice : RouteChoice) (writes confidential : bool) (fallback : Fallback) : RouteRequest :=
  mkRouteRequest (mkRouteIntent General writes None false false) choice None confidential fallback.
Definition ex_pool_request : RouteRequest :=
  ex_request (NamedRoute (mkRouteName "standard")) true false FallbackNone.
Definition ex_members : list RoutePoolMember := unwrap_or (effective_pool ex_context "standard") [].
