(* ===== verification/RoutingDraw.v ===== *)
(** * RoutingDraw: what a pool selects

    The classification of a pool as a function of the verdicts on its members,
    the exactness of the weighted draw, and that a ready member is selected
    whenever there is one. *)

From Stdlib Require Import Ascii SpecFloat.
From stdpp Require Import base option list strings sets pretty gmap numbers.
From S2P Require Import Prelude External ReviewPaths ReviewPolicy ReviewCheck Adapters Routes QuotaState QuotaAdmission QuotaReadiness RoutingTypes RoutingPolicy RoutingConfig RoutingPacing RoutingResolve RoutingPool RoutingExample.

Local Open Scope string_scope.
Local Open Scope list_scope.
Local Open Scope Z_scope.
Local Open Scope rust_scope.

(** ** Lists *)

Lemma collected_Ok {E B} (l : list (result E B)) xs : collect l = Ok xs ↔ Forall2 (λ r x, r = Ok x) l xs.
Proof.
  revert xs. induction l as [|r l IH]; intros xs; cbn [collect].
  { split; [intros [= <-]; constructor|]. by inversion 1. }
  rewrite result_bind_Ok. setoid_rewrite result_bind_Ok. setoid_rewrite IH. split.
  - intros (x & -> & ys & Hys & [= <-]). by constructor.
  - inversion 1; subst. eauto 10.
Qed.

Lemma try_fold_push {E S B V} (f : B → result E V) (g : S → V → S) l s c :
  try_fold (λ s x, v ← f x; Ok (g s v)) s l = Ok c ↔
  ∃ vs, Forall2 (λ x v, f x = Ok v) l vs ∧ c = fold_left g vs s.
Proof.
  revert s. induction l as [|x l IH]; intros s; cbn [try_fold].
  { split; [intros [= <-]; exists []; by split; [constructor|]|]. intros (vs & Hvs & ->). by inversion Hvs. }
  rewrite result_bind_Ok. setoid_rewrite result_bind_Ok. split.
  - intros (s' & (v & Hv & [= <-]) & (vs & Hvs & ->)%IH). exists (v :: vs). by split; [constructor|].
  - intros (vs & Hvs & ->). inversion Hvs as [|? v ? vs' Hv Hrest]; subst.
    exists (g s v). split; [by exists v|]. apply IH. eauto.
Qed.

(** ** The roll and the scan *)

Lemma stable_roll_range op task pool total : 0 < total → 0 ≤ stable_roll op task pool total < total.
Proof. intros. unfold stable_roll. by apply Z.mod_pos_bound. Qed.

(** The scan without saturation. *)
Definition weights_sum (l : list (nat * Z)) : Z := foldr (λ e t, e.2 + t) 0 l.

Lemma weights_sum_nonneg l : Forall (λ e, 0 ≤ e.2) l → 0 ≤ weights_sum l.
Proof. induction 1; simpl; lia. Qed.

Lemma weight_total_sum l :
  Forall (λ e, 0 ≤ e.2) l → weights_sum l ≤ u64_max → weight_total l = weights_sum l.
Proof.
  intros Hl. unfold weight_total. assert (∀ acc, 0 ≤ acc → acc + weights_sum l ≤ u64_max →
    fold_left (λ total '(_, weight), saturating_add_u64 total weight) l acc = acc + weights_sum l) as H.
  { induction Hl as [|[i w] l Hw Hl IH]; intros acc Ha Hb; simpl in *; [lia|].
    apply weights_sum_nonneg in Hl. rewrite IH; unfold saturating_add_u64, clamp; unfold u64_max in *; lia. }
  intros. rewrite H; lia.
Qed.

Lemma find_roll_Some r l :
  Forall (λ e, 0 ≤ e.2) l → 0 ≤ r < weights_sum l → r ≤ u64_max → ∃ i, find_roll r l = Some i.
Proof.
  intros Hl. revert r. induction Hl as [|[i w] l Hw Hl IH]; intros r Hr Hb; simpl in *; [lia|].
  destruct (Z.ltb_spec r w); [eauto|]. apply IH; unfold saturating_sub_u64, clamp; lia.
Qed.

Lemma find_roll_elem r l i : find_roll r l = Some i → ∃ w, (i, w) ∈ l.
Proof.
  revert r. induction l as [|[j w] l IH]; intros r; simpl; [done|].
  destruct (_ <? _); [intros [= <-]; exists w; set_solver|]. intros (w' & ?)%IH. exists w'. set_solver.
Qed.






Section Draw.
Context {J : Json} {X : JsonText} {T : Jiff} {C : Civil} {A : RoutingAssets} {F : Fmt}.
Implicit Types (c : ClassifiedPool) (v : Verdict) (vs : list Verdict).

(** ** The pool as a function of the verdicts *)

Definition slot_ready (s : Slot) : bool :=
  match s with Weighted _ | ZeroReady | StandbyReady => true | _ => false end.
Definition verdict_at vs (i : nat) (P : Slot → Prop) : Prop := ∃ v, vs !! i = Some v ∧ P (v_slot v).

(** The vectors hold the members with their slot that [keep] retained. *)
Record pool_of (keep : nat → bool) vs c : Prop := {
  po_candidates : cp_candidates c = v_candidate <$> vs;
  po_routes : cp_routes c = v_route <$> vs;
  po_weighted : ∀ i w, (i, w) ∈ weighted c ↔ keep i = true ∧ verdict_at vs i (eq (Weighted w));
  po_nodup : NoDup (fst <$> weighted c);
  po_zero : ∀ i, i ∈ zero_ready c ↔ keep i = true ∧ verdict_at vs i (eq ZeroReady);
  po_standby : ∀ i, i ∈ standby_ready c ↔ keep i = true ∧ verdict_at vs i (eq StandbyReady);
  po_first_zero : first_zero_ready c = head (zero_ready c);
  po_first_standby : first_standby_ready c = head (standby_ready c);
  po_recoverable : ∀ i, first_recoverable_unavailable c = Some i → verdict_at vs i (eq RecoverableUnavailable);
  po_other : ∀ i, first_other_unavailable c = Some i → verdict_at vs i (eq OtherUnavailable);
}.

Lemma verdict_at_snoc vs v i P :
  verdict_at (vs ++ [v]) i P ↔ verdict_at vs i P ∨ (i = length vs ∧ P (v_slot v)).
Proof.
  unfold verdict_at. split.
  - intros (v' & Hv & HP). apply lookup_app_Some in Hv as [Hv|[Hi Hv]]; [eauto|].
    apply list_lookup_singleton_Some in Hv as [Hi' ->]. right. split; [lia|done].
  - intros [(v' & Hv & HP)|[-> HP]]; [exists v'; split; [by apply lookup_app_l_Some|done]|].
    exists v. split; [|done]. rewrite lookup_app_r, Nat.sub_diag by lia. done.
Qed.
Lemma verdict_at_lt vs i P : verdict_at vs i P → (i < length vs)%nat.
Proof. intros (v & Hv & _). by eapply lookup_lt_Some. Qed.

Lemma push_if_elem {B} b (l : list B) x y : y ∈ push_if b l x ↔ y ∈ l ∨ (b = true ∧ y = x).
Proof. unfold push_if. destruct b; set_solver. Qed.
Lemma set_first_head o (l : list nat) b i : o = head l → set_first o b i = head (push_if b l i).
Proof. intros ->. unfold set_first, push_if. by destruct l, b. Qed.

Lemma push_pool_of vs c v : pool_of (λ _, true) vs c → pool_of (λ _, true) (vs ++ [v]) (push c v).
Proof.
  intros [Hcand Hroutes Hw Hnd Hz Hs Hfz Hfs Hr Ho].
  assert (length (cp_candidates c) = length vs) as Hlen by (rewrite Hcand, length_fmap; done).
  unfold push. rewrite Hlen. split; cbn.
  - by rewrite fmap_app, Hcand.
  - by rewrite fmap_app, Hroutes.
  - intros i w. rewrite verdict_at_snoc. destruct (v_slot v) eqn:Hv; rewrite ?elem_of_app, ?Hw, ?list_elem_of_singleton;
      naive_solver.
  - destruct (v_slot v) eqn:Hv; try done. rewrite fmap_app. apply list.NoDup_app. split_and!; [done| |apply NoDup_singleton].
    intros i Hi. apply list_elem_of_fmap in Hi as ([i' w'] & -> & Hin). apply Hw in Hin as [_ Hlt%verdict_at_lt].
    rewrite fmap_cons, list_elem_of_singleton. simpl. lia.
  - intros i. rewrite push_if_elem, verdict_at_snoc, Hz. destruct (v_slot v) eqn:Hv; naive_solver.
  - intros i. rewrite push_if_elem, verdict_at_snoc, Hs. destruct (v_slot v) eqn:Hv; naive_solver.
  - by apply set_first_head.
  - by apply set_first_head.
  - intros i. rewrite verdict_at_snoc. unfold set_first.
    destruct (first_recoverable_unavailable c); [intros [= <-]; left; by apply Hr|].
    destruct (v_slot v) eqn:Hv; intros [= <-]; by right.
  - intros i. rewrite verdict_at_snoc. unfold set_first.
    destruct (first_other_unavailable c); [intros [= <-]; left; by apply Ho|].
    destruct (v_slot v) eqn:Hv; intros [= <-]; by right.
Qed.

Lemma fold_push_pool_of vs : pool_of (λ _, true) vs (fold_left push vs ClassifiedPool_new).
Proof.
  induction vs as [|v vs IH] using rev_ind.
  - assert (∀ i P, ¬ verdict_at [] i P) by (intros i P (v & ? & _); done).
    split; cbn; try done; try (intros; rewrite elem_of_nil; naive_solver). apply NoDup_nil_2.
  - rewrite fold_left_app. by apply push_pool_of.
Qed.

Lemma retain_pool_of keep vs c k :
  pool_of keep vs c → pool_of (λ i, keep i && k i) vs (retain_ready k c).
Proof.
  intros [Hcand Hroutes Hw Hnd Hz Hs Hfz Hfs Hr Ho]. split; cbn; try done.
  - intros i w. rewrite bfilter_elem, Hw, andb_true_iff. naive_solver.
  - clear -Hnd. induction (weighted c) as [|[i w] l IH]; [done|]. rewrite fmap_cons in Hnd.
    apply list.NoDup_cons in Hnd as [Hi Hnd]. simpl. destruct (k i); [|by apply IH]. rewrite fmap_cons.
    apply list.NoDup_cons. split; [|by apply IH]. intros ([j u] & Hj & Hin)%list_elem_of_fmap. apply Hi.
    apply bfilter_elem in Hin as [Hin _]. apply list_elem_of_fmap. by exists (j, u).
  - intros i. rewrite bfilter_elem, Hz, andb_true_iff. naive_solver.
  - intros i. rewrite bfilter_elem, Hs, andb_true_iff. naive_solver.
Qed.

Lemma ready_indices_elem keep vs c i :
  pool_of keep vs c →
  i ∈ ready_indices c ↔ keep i = true ∧ verdict_at vs i (λ s, slot_ready s = true).
Proof.
  intros Hc. unfold ready_indices. rewrite !elem_of_app, (po_zero _ _ _ Hc), (po_standby _ _ _ Hc).
  assert (i ∈ List.map fst (weighted c) ↔ keep i = true ∧ ∃ w, verdict_at vs i (eq (Weighted w))) as ->.
  { trans (i ∈ fst <$> weighted c); [done|]. rewrite list_elem_of_fmap. split.
    - intros ([j w] & -> & [Hk Hv]%(po_weighted _ _ _ Hc)). eauto.
    - intros (Hk & w & Hv). exists (i, w). split; [done|]. by apply (po_weighted _ _ _ Hc). }
  unfold verdict_at. split.
  - intros [(?&w&v&?&Hs)|[(?&v&?&Hs)|(?&v&?&Hs)]]; (split; [done|]); exists v; by rewrite <-Hs.
  - intros (Hk & v & Hv & Hs). destruct (v_slot v) as [|w| | | |] eqn:Hsv; try discriminate Hs.
    + left. split; [done|]. by exists w, v.
    + right; left. split; [done|]. by exists v.
    + right; right. split; [done|]. by exists v.
Qed.

(** ** The two passes over a pool *)

(** Which account a candidate takes may depend on the cooldowns; whether it is
    ready does not. *)
Lemma candidate_ready_iff model eff context avoid int r :
  candidate model eff context avoid int = Ok r →
  is_ready (alt_readiness r) = true ↔
  ∃ a, a ∈ allowed_accounts model int context ∧ (account_reason model a (access_of model context) context).1 = None.
Proof.
  intros H. split.
  { destruct (alt_readiness r) as [x ref e|] eqn:Hr; [|done]. intros _.
    apply candidate_inv in H. destruct (co_ready _ _ _ _ _ H _ _ _ Hr) as (a & ? & _ & ? & _). eauto. }
  unfold candidate in H. fold (access_of model context) (allowed_accounts model int context) in H. cbv zeta in H.
  apply result_bind_Ok in H as (entry & _ & H). apply result_seq_Ok in H as [_ H].
  destruct (_ && _); [done|]. injection H as <-. cbn. intros (a & Ha & Hr).
  destruct (best_account_ready (List.map (evaluate model (access_of model context) avoid context)
    (allowed_accounts model int context))) as [_ Hb].
  destruct Hb as (e & -> & He); [|by rewrite He].
  exists (evaluate model (access_of model context) avoid context a). rewrite evaluate_reason. split; [|done].
  apply evaluated_elem. eauto.
Qed.

Lemma candidate_avoid_Ok model eff context int r avoid avoid' :
  candidate model eff context avoid int = Ok r → ∃ r', candidate model eff context avoid' int = Ok r'.
Proof.
  unfold candidate. cbv zeta. intros (entry & -> & H)%result_bind_Ok. apply result_seq_Ok in H as [-> H]. cbn.
  rewrite length_map in H |- *. destruct (_ && _); [done|]. eauto.
Qed.
Lemma candidate_avoid_Err model eff context int x avoid avoid' :
  candidate model eff context avoid int = Err x → candidate model eff context avoid' int = Err x.
Proof.
  unfold candidate. cbv zeta. destruct (admissible _ _ _) as [entry|]; [|done]. cbn.
  match goal with |- context [mbind _ ?m] => destruct m; [|done] end. cbn.
  rewrite !length_map. by destruct (_ && _).
Qed.

(** ** Verdicts *)

Definition verdict_ready v : bool := is_some_and (v_route v) (λ r, is_ready (alt_readiness r)).

Lemma leave_out_ready req m f d rd why ex st : verdict_ready (leave_out req m f d rd why ex st) = false.
Proof. done. Qed.

Lemma classify_resolved_slot req context avoid stale m r :
  slot_ready (v_slot (classify_resolved req context avoid stale m r)) =
  verdict_ready (classify_resolved req context avoid stale m r).
Proof.
  unfold classify_resolved. cbv zeta. destruct (negb _); [done|].
  destruct (pacing_factor_basis_points _ _ _ _) as [[f d] s]. destruct (_ && _); [done|]. unfold verdict_ready. cbn.
  destruct (alt_readiness r) as [? ? ?|? reason]; cbn; [destruct s; [done|]; by case_bool_decide|].
  by destruct reason.
Qed.

Lemma classify_member_slot req context ex avoid m v :
  classify_member req context ex avoid m = Ok v → slot_ready (v_slot v) = verdict_ready v.
Proof.
  unfold classify_member. cbv zeta.
  destruct (excluded_reason _ _ _) as [rule|], (spent_detail _ _) as [q|]; try by intros [= <-].
  destruct (negb _); [by intros [= <-]|]. destruct (is_some_and _ _); [by intros [= <-]|].
  destruct (candidate _ _ _ _ _) as [r|e]; [|by destruct e; intros [= <-]].
  intros [= <-]. apply classify_resolved_slot.
Qed.

(** A ready candidate's account may be used by the intent. *)
Lemma candidate_permitted model eff context avoid int r :
  candidate model eff context avoid int = Ok r → is_ready (alt_readiness r) = true →
  permitted model (alt_account_key r) int context = true.
Proof.
  intros H. apply candidate_inv in H. destruct (alt_readiness r) as [x ref e|] eqn:Hr; [|done]. intros _.
  destruct (co_ready _ _ _ _ _ H _ _ _ Hr) as (a & Ha & -> & _). by apply allowed_accounts_elem in Ha as (_ & _ & ?).
Qed.

(** A ready member is ready in the pass that avoids cooling accounts, or is left
    out of it for its cooldown alone. *)
Lemma classify_member_passes req context ex m v :
  classify_member req context ex false m = Ok v →
  ∃ v', classify_member req context ex true m = Ok v' ∧
    (verdict_ready v = true → verdict_ready v' = true ∨
       cooled (v_candidate v') && is_some_and (cand_readiness (v_candidate v')) is_ready = true).
Proof.
  unfold classify_member. cbv zeta.
  destruct (excluded_reason _ _ _) as [rule|], (spent_detail _ _) as [q|]; try by intros [= <-]; eauto.
  destruct (negb _); [by intros [= <-]; eauto|]. destruct (is_some_and _ _); [by intros [= <-]; eauto|].
  destruct (candidate _ _ _ false _) as [r|e] eqn:Hc.
  2:{ rewrite (candidate_avoid_Err _ _ _ _ _ _ true Hc). destruct e; try by intros [= <-]; eauto. }
  destruct (candidate_avoid_Ok _ _ _ _ _ _ true Hc) as [r' Hc']. rewrite Hc'. intros [= <-].
  eexists. split; [done|]. intros Hv.
  assert (is_ready (alt_readiness r) = true) as Hr.
  { clear -Hv. unfold classify_resolved in Hv. cbv zeta in Hv. destruct (negb _); [done|].
    destruct (pacing_factor_basis_points _ _ _ _) as [[??]?]. by destruct (_ && _). }
  rewrite (candidate_ready_iff _ _ _ _ _ _ Hc) in Hr. rewrite <-(candidate_ready_iff _ _ _ _ _ _ Hc') in Hr.
  pose proof (candidate_permitted _ _ _ _ _ _ Hc' Hr) as Hp.
  unfold classify_resolved. cbv zeta. unfold permitted in Hp. rewrite Hp. cbn.
  destruct (pacing_factor_basis_points _ _ _ _) as [[f d] s].
  destruct (cooling _ _ _); cbn; [right; by rewrite Hr|left]. unfold verdict_ready. cbn. done.
Qed.

(** ** Weights *)

Lemma cache_factor_range policy int : 0 ≤ cache_factor_basis_points policy int ≤ 100000.
Proof.
  unfold cache_factor_basis_points. destruct (_ && _); [|lia].
  unfold round_clamp_u32. repeat case_match; unfold clamp; lia.
Qed.

(** The policy of a member for the request, whichever account it takes. *)
Definition member_cache_factor (request : RouteRequest) (context : RoutingContext) (model : ModelId)
    (account : option string) : Z :=
  cache_factor_basis_points
    (policy (effective (model_policy (config context)) model (or_hint context account) (now context)))
    (intent request).

Definition u8_weight (m : RoutePoolMember) : Prop := 0 ≤ member_weight m ≤ 255.

(** The weight of a drawn member: its share times its two factors. *)
Lemma weighted_inv req context ex avoid m v w :
  classify_member req context ex avoid m = Ok v → v_slot v = Weighted w →
  ∃ account factor, PACE_MIN_BASIS_POINTS ≤ factor ≤ PACE_MAX_BASIS_POINTS ∧ member_weight m ≠ 0 ∧
    w = clamp 0 u64_max
          (member_weight m * combined_factor factor (member_cache_factor req context (member_model m) account)).
Proof.
  unfold classify_member. cbv zeta.
  destruct (excluded_reason _ _ _) as [rule|], (spent_detail _ _) as [q|]; try by intros [= <-].
  destruct (negb _); [by intros [= <-]|]. destruct (is_some_and _ _); [by intros [= <-]|].
  destruct (candidate _ _ _ _ _) as [r|e]; [|by destruct e; intros [= <-]].
  intros [= <-]. unfold classify_resolved. cbv zeta. destruct (negb _); [done|].
  destruct (pacing_factor_basis_points _ _ _ _) as [[f d] s] eqn:Hf. destruct (_ && _); [done|]. cbn.
  destruct (alt_readiness r) as [? ? ?|? reason]; cbn; [|by destruct reason].
  destruct s; [done|]. case_bool_decide; [done|]. intros [= <-].
  exists (alt_account_key r), f. apply pacing_factor_range in Hf. done.
Qed.

Lemma weighted_range req context ex avoid m v w :
  u8_weight m → classify_member req context ex avoid m = Ok v → v_slot v = Weighted w → 0 ≤ w ≤ 51000000.
Proof.
  intros Hm Hv Hw. destruct (weighted_inv _ _ _ _ _ _ _ Hv Hw) as (a & f & Hf & _ & ->).
  pose proof (cache_factor_range (policy (effective (model_policy (config context)) (member_model m)
    (or_hint context a) (now context))) (intent req)) as Hc.
  unfold member_cache_factor, combined_factor, u8_weight, PACE_MIN_BASIS_POINTS, PACE_MAX_BASIS_POINTS in *.
  remember (cache_factor_basis_points _ _) as k. clear Heqk.
  assert (0 ≤ f * k / 10000 ≤ 200000) as Hq.
  { split; [apply Z.div_pos; nia|]. apply Z.div_le_upper_bound; nia. }
  rewrite Z.mod_small by lia. remember (f * k / 10000) as q. clear Heqq. unfold clamp, u64_max. nia.
Qed.

Lemma weighted_positive req context ex avoid m v w :
  u8_weight m → (∀ account, 4 ≤ member_cache_factor req context (member_model m) account) →
  classify_member req context ex avoid m = Ok v → v_slot v = Weighted w → 0 < w.
Proof.
  intros Hm Hc Hv Hw. pose proof (weighted_range _ _ _ _ _ _ _ Hm Hv Hw) as Hr.
  destruct (weighted_inv _ _ _ _ _ _ _ Hv Hw) as (a & f & Hf & H0 & ->). specialize (Hc a).
  pose proof (cache_factor_range (policy (effective (model_policy (config context)) (member_model m)
    (or_hint context a) (now context))) (intent req)) as Hc'. fold (member_cache_factor req context (member_model m) a) in Hc'.
  unfold combined_factor, u8_weight, PACE_MIN_BASIS_POINTS, PACE_MAX_BASIS_POINTS in *.
  remember (member_cache_factor _ _ _ _) as k. clear Heqk.
  assert (1 ≤ f * k / 10000 ≤ 200000) as Hq.
  { split; [apply Z.div_le_lower_bound; nia|]. apply Z.div_le_upper_bound; nia. }
  rewrite Z.mod_small in * by lia. remember (f * k / 10000) as q. clear Heqq. unfold clamp, u64_max in *. nia.
Qed.

Lemma weights_sum_bound l b : Forall (λ e : nat * Z, e.2 ≤ b) l → weights_sum l ≤ len l * b.
Proof. induction 1 as [|e l He Hl IH]; unfold len in *; simpl length; [simpl; lia|]. cbn [weights_sum foldr]. fold (weights_sum l). lia. Qed.

(** ** Shares *)







(** ** The classified pool of a selection *)

Record classified (members : list RoutePoolMember) (request : RouteRequest) (context : RoutingContext)
    (ex : Excluded) (avoid : bool) vs c : Prop := {
  cl_verdicts : Forall2 (λ m v, classify_member request context ex avoid m = Ok v) members vs;
  cl_pool : ∃ keep, pool_of keep vs c;
  cl_ready : (∃ v, v ∈ vs ∧ verdict_ready v = true) → ∃ i, i ∈ ready_indices c;
}.

Lemma classify_pool_Ok members req context ex avoid c :
  classify_pool members req context ex avoid = Ok c ↔
  ∃ vs, Forall2 (λ m v, classify_member req context ex avoid m = Ok v) members vs ∧
    c = fold_left push vs ClassifiedPool_new.
Proof. apply try_fold_push. Qed.

(** Retaining some ready members keeps a pool ready. *)
Lemma retain_some keep vs c k :
  pool_of keep vs c → existsb k (ready_indices c) = true → ∃ i, i ∈ ready_indices (retain_ready k c).
Proof.
  intros Hc (i & Hi & Hk)%existsb_elem. exists i. rewrite (ready_indices_elem _ _ _ _ (retain_pool_of _ _ _ k Hc)).
  rewrite (ready_indices_elem _ _ _ _ Hc) in Hi. rewrite Hk, andb_true_r. done.
Qed.

Lemma classify_preference_Ok members req context ex avoid c :
  classify_with_image_preference members req context ex avoid = Ok c →
  ∃ vs, classified members req context ex avoid vs c.
Proof.
  unfold classify_with_image_preference. intros (c0 & (vs & Hvs & ->)%classify_pool_Ok & H)%result_bind_Ok.
  injection H as <-. pose proof (fold_push_pool_of vs) as H0. set (c0 := fold_left push vs ClassifiedPool_new) in *.
  match goal with |- context [if ?b then retain_ready ?k c0 else c0] => set (c1 := if b then retain_ready k c0 else c0);
    assert (∃ keep, pool_of keep vs c1) as [keep H1]; [unfold c1; destruct b; eauto using retain_pool_of|];
    assert ((∃ v, v ∈ vs ∧ verdict_ready v = true) → ∃ i, i ∈ ready_indices c1) as Hr1 end.
  { intros (v & Hv & Hr). assert (∃ i, i ∈ ready_indices c0) as Hsome.
    { apply list_elem_of_lookup in Hv as [i Hi]. exists i. rewrite (ready_indices_elem _ _ _ _ H0). split; [done|].
      exists v. split; [done|]. destruct (Forall2_lookup_r _ _ _ _ _ Hvs Hi) as (m & _ & Hm).
      by rewrite (classify_member_slot _ _ _ _ _ _ Hm). }
    unfold c1. destruct (_ && _) eqn:Himg; [|done]. apply (retain_some _ _ _ _ H0).
    apply andb_true_iff in Himg as [_ Himg]. apply existsb_elem in Himg as ([m route] & Hin & Hm).
    rewrite (po_routes _ _ _ H0) in Hin. apply list_elem_of_lookup in Hin as [i Hi].
    apply lookup_zip_Some in Hi as [Hmi Hri]. rewrite list_lookup_fmap in Hri.
    destruct (vs !! i) as [u|] eqn:Hu; [|done]. injection Hri as Hri. apply andb_true_iff in Hm as [Hm1 Hm2].
    apply existsb_elem. exists i. split; [|by rewrite Hmi]. rewrite (ready_indices_elem _ _ _ _ H0). split; [done|].
    exists u. split; [done|]. destruct (Forall2_lookup_r _ _ _ _ _ Hvs Hu) as (m' & _ & Hm').
    rewrite (classify_member_slot _ _ _ _ _ _ Hm'). unfold verdict_ready. by rewrite Hri. }
  exists vs. split; [done|..]; destruct (existsb _ (ready_indices c1)) eqn:Hst; eauto using retain_pool_of.
  intros _. by eapply retain_some.
Qed.
Lemma classify_preference_total members req context ex avoid c :
  classify_pool members req context ex avoid = Ok c →
  ∃ c', classify_with_image_preference members req context ex avoid = Ok c'.
Proof. unfold classify_with_image_preference. intros ->. simpl. eauto. Qed.

(** ** The draw *)

(** What the weights of a classified pool satisfy. *)
Lemma classified_weights members req context ex avoid vs c :
  classified members req context ex avoid vs c → Forall u8_weight members → len members ≤ 2 ^ 32 →
  Forall (λ e, 0 ≤ e.2) (weighted c) ∧ NoDup (fst <$> weighted c) ∧ weights_sum (weighted c) ≤ u64_max.
Proof.
  intros [Hvs [keep Hc] _] Hm Hlen.
  assert (Forall (λ e, 0 ≤ e.2 ≤ 51000000) (weighted c)) as Hw.
  { apply list.Forall_forall. intros [i w] Hin. apply (po_weighted _ _ _ Hc) in Hin as (_ & v & Hv & Hs).
    destruct (Forall2_lookup_r _ _ _ _ _ Hvs Hv) as (m & Hmi & Hmv). refine (weighted_range _ _ _ _ _ _ _ _ Hmv (eq_sym Hs)).
    by eapply Forall_lookup_1 in Hm. }
  split; [eapply list.Forall_impl; [apply Hw|]; by intros ? [? ?]|]. split; [apply (po_nodup _ _ _ Hc)|].
  trans (len (weighted c) * 51000000).
  { apply weights_sum_bound. eapply list.Forall_impl; [apply Hw|]; by intros ? [? ?]. }
  assert (len (weighted c) ≤ len members); [|unfold u64_max; lia].
  unfold len. rewrite (Forall2_length Hvs), <-(length_fmap fst (weighted c)).
  rewrite <-(length_seq (length vs) 0). apply inj_le. apply submseteq_length, NoDup_submseteq; [apply (po_nodup _ _ _ Hc)|].
  intros i ([j w] & -> & Hin)%list_elem_of_fmap. apply (po_weighted _ _ _ Hc) in Hin as [_ Hlt%verdict_at_lt].
  apply elem_of_seq. simpl. lia.
Qed.

(** A slot other than none comes with a route. *)
Lemma classify_member_route req context ex avoid m v :
  classify_member req context ex avoid m = Ok v → v_slot v ≠ NoSlot → ∃ r, v_route v = Some r.
Proof.
  unfold classify_member. cbv zeta.
  destruct (excluded_reason _ _ _) as [rule|], (spent_detail _ _) as [q|]; try by intros [= <-].
  destruct (negb _); [by intros [= <-]|]. destruct (is_some_and _ _); [by intros [= <-]|].
  destruct (candidate _ _ _ _ _) as [r|e]; [|by destruct e; intros [= <-]].
  intros [= <-]. unfold classify_resolved. cbv zeta. destruct (negb _); [done|].
  destruct (pacing_factor_basis_points _ _ _ _) as [[f d] s]. destruct (_ && _); cbn; [done|]. eauto.
Qed.

Lemma head_elem {B} (l : list B) x : head l = Some x → x ∈ l.
Proof. destruct l; [done|]. simpl. intros [= ->]. set_solver. Qed.

(** What was drawn: a ready member of the pool, or a member that is not ready
    when the weights are all zero and no member is listed as ready. *)
Lemma draw_pool_inv keep vs c name seed d :
  pool_of keep vs c → draw_pool name c seed = Ok d →
  draw_index d ∈ ready_indices c ∨
  (zero_ready c = [] ∧ standby_ready c = [] ∧ weight_total (weighted c) ≤ 0 ∧
   verdict_at vs (draw_index d) (λ s, s = RecoverableUnavailable ∨ s = OtherUnavailable)).
Proof.
  intros Hc. unfold draw_pool. cbv zeta. destruct (unwrap_or seed _) as [op task].
  destruct (Z.ltb_spec 0 (weight_total (weighted c))) as [Ht|Ht].
  - destruct (find_roll _ _) as [i|] eqn:Hi; [|done]. intros [= <-]. left. unfold ready_indices. cbn.
    apply find_roll_elem in Hi as [w Hw]. rewrite elem_of_app. left. change (i ∈ fst <$> weighted c).
    apply list_elem_of_fmap. by exists (i, w).
  - rewrite (po_first_zero _ _ _ Hc), (po_first_standby _ _ _ Hc). unfold ready_indices. rewrite !elem_of_app.
    destruct (zero_ready c) as [|i z] eqn:Hz; cbn; [|intros [= <-]; left; right; left; set_solver].
    destruct (standby_ready c) as [|i st] eqn:Hs; cbn; [|intros [= <-]; left; right; right; set_solver].
    destruct (first_recoverable_unavailable c) as [i|] eqn:Hr; cbn.
    { intros [= <-]. right. split_and!; try done. destruct (po_recoverable _ _ _ Hc _ Hr) as (v & ? & ?).
      exists v. split; [done|]. by left. }
    destruct (first_other_unavailable c) as [i|] eqn:Ho; [|done].
    intros [= <-]. right. split_and!; try done. destruct (po_other _ _ _ Hc _ Ho) as (v & ? & ?).
    exists v. split; [done|]. by right.
Qed.

(** A drawn index names a member with a route: the vectors are never indexed
    out of range. *)
Lemma draw_in_range members req context ex avoid vs c name seed d :
  classified members req context ex avoid vs c → draw_pool name c seed = Ok d →
  ∃ r, cp_routes c !! draw_index d = Some (Some r).
Proof.
  intros [Hvs [keep Hc] _] Hd.
  assert (∃ v, vs !! draw_index d = Some v ∧ v_slot v ≠ NoSlot) as (v & Hv & Hs).
  { destruct (draw_pool_inv _ _ _ _ _ _ Hc Hd) as [Hi|(_ & _ & _ & v & Hv & Hs)].
    - apply (ready_indices_elem _ _ _ _ Hc) in Hi as (_ & v & Hv & Hs). exists v. by destruct (v_slot v).
    - exists v. by destruct Hs as [->| ->]. }
  destruct (Forall2_lookup_r _ _ _ _ _ Hvs Hv) as (m & _ & Hm).
  destruct (classify_member_route _ _ _ _ _ _ Hm Hs) as [r Hr]. exists r.
  by rewrite (po_routes _ _ _ Hc), list_lookup_fmap, Hv, <-Hr.
Qed.

Lemma ready_route members req context ex avoid vs c i :
  classified members req context ex avoid vs c → i ∈ ready_indices c →
  ∃ r, cp_routes c !! i = Some (Some r) ∧ is_ready (alt_readiness r) = true.
Proof.
  intros [Hvs [keep Hc] _] (_ & v & Hv & Hs)%(ready_indices_elem _ _ _ _ Hc).
  destruct (Forall2_lookup_r _ _ _ _ _ Hvs Hv) as (m & _ & Hm).
  rewrite (classify_member_slot _ _ _ _ _ _ Hm) in Hs. apply is_some_and_true in Hs as (r & Hr & Hready).
  exists r. split; [|done]. by rewrite (po_routes _ _ _ Hc), list_lookup_fmap, Hv, <-Hr.
Qed.

Lemma weights_sum_elem l i w : Forall (λ e : nat * Z, 0 ≤ e.2) l → (i, w) ∈ l → w ≤ weights_sum l.
Proof.
  induction 1 as [|e l He Hl IH]; [by intros ?%elem_of_nil|]. cbn [weights_sum foldr].
  fold (weights_sum l). pose proof (weights_sum_nonneg _ Hl). intros [<-|Hin]%elem_of_cons; simpl in *; [lia|].
  specialize (IH Hin). lia.
Qed.

(** A drawn member whose cache factor is not negligible makes the total
    positive. *)
Lemma weighted_total members req context ex avoid vs c i :
  classified members req context ex avoid vs c → Forall u8_weight members → len members ≤ 2 ^ 32 →
  (∀ m account, m ∈ members → 4 ≤ member_cache_factor req context (member_model m) account) →
  i ∈ List.map fst (weighted c) → 0 < weight_total (weighted c).
Proof.
  intros Hcl Hm Hlen Hcache Hi. destruct (classified_weights _ _ _ _ _ _ _ Hcl Hm Hlen) as (Hw & _ & Hb).
  destruct Hcl as [Hvs [keep Hc] _]. rewrite (weight_total_sum _ Hw Hb).
  assert (i ∈ fst <$> weighted c) as ([j w] & -> & Hin)%list_elem_of_fmap by done.
  pose proof (weights_sum_elem _ _ _ Hw Hin) as Hle. enough (0 < w) by lia.
  apply (po_weighted _ _ _ Hc) in Hin as (_ & v & Hv & Hs).
  destruct (Forall2_lookup_r _ _ _ _ _ Hvs Hv) as (m & Hmi & Hmv).
  refine (weighted_positive _ _ _ _ _ _ _ _ _ Hmv (eq_sym Hs)); [by eapply Forall_lookup_1 in Hm|].
  intros account. apply Hcache. by eapply list_elem_of_lookup_2.
Qed.

(** A pool with a ready member draws a ready member. *)
Lemma draw_ready members req context ex avoid vs c name seed :
  classified members req context ex avoid vs c → Forall u8_weight members → len members ≤ 2 ^ 32 →
  (∀ m account, m ∈ members → 4 ≤ member_cache_factor req context (member_model m) account) →
  (∃ i, i ∈ ready_indices c) → ∃ d, draw_pool name c seed = Ok d ∧ draw_index d ∈ ready_indices c.
Proof.
  intros Hcl Hm Hlen Hcache [i Hi]. destruct (classified_weights _ _ _ _ _ _ _ Hcl Hm Hlen) as (Hw & _ & Hb).
  assert (zero_ready c = [] → standby_ready c = [] → 0 < weight_total (weighted c)) as Htotal.
  { intros Hz Hs. unfold ready_indices in Hi. rewrite Hz, Hs, !app_nil_r in Hi. by eapply weighted_total. }
  destruct (cl_pool _ _ _ _ _ _ _ Hcl) as [keep Hc].
  assert (∃ d, draw_pool name c seed = Ok d) as [d Hd].
  { unfold draw_pool. cbv zeta. destruct (unwrap_or seed _) as [op task]. rewrite (weight_total_sum _ Hw Hb) in *.
    destruct (Z.ltb_spec 0 (weights_sum (weighted c))) as [Ht|Ht].
    - pose proof (stable_roll_range op task name _ Ht) as Hroll.
      destruct (find_roll_Some _ _ Hw Hroll) as [j ->]; [lia|eauto].
    - rewrite (po_first_zero _ _ _ Hc), (po_first_standby _ _ _ Hc).
      destruct (zero_ready c) as [|j z]; cbn; [|eauto]. destruct (standby_ready c) as [|j st]; cbn; [|eauto].
      specialize (Htotal eq_refl eq_refl). lia. }
  exists d. split; [done|]. destruct (draw_pool_inv _ _ _ _ _ _ Hc Hd) as [?|(Hz & Hst & Ht & _)]; [done|].
  specialize (Htotal Hz Hst). lia.
Qed.



(** ** Theorems *)


Lemma ready_index_route members req context ex avoid vs c i :
  classified members req context ex avoid vs c → i ∈ ready_indices c → route_ready c i = true.
Proof. intros Hcl Hi. destruct (ready_route _ _ _ _ _ _ _ _ Hcl Hi) as (r & Hr & ?). unfold route_ready. by rewrite Hr. Qed.

(** What [select_pool] adds to the draw: a preferred member must be ready. *)
Lemma select_pool_ready name members req context seed ex vs c d reason avoid :
  draw_avoiding_cooling name members req context seed ex = Ok (c, d, reason) →
  classified members req context ex avoid vs c → route_ready c (draw_index d) = true →
  ∃ pick, select_pool name members req context seed ex = Ok pick ∧ is_ready (alt_readiness (pick_route pick)) = true.
Proof.
  intros Hd Hcl Hi. unfold select_pool. rewrite Hd. cbn.
  destruct (_ ≫= preferred_index members c) as [i|] eqn:Hp; cbn.
  - apply bind_Some in Hp as (m & _ & Hp). unfold preferred_index in Hp. apply find_Some_elem in Hp as [Hin _].
    destruct (ready_route _ _ _ _ _ _ _ i Hcl) as (r & -> & Hr); [|by eauto].
    unfold ready_indices. rewrite !elem_of_app in *. naive_solver.
  - unfold route_ready in Hi. destruct (cp_routes c !! draw_index d) as [[r|]|]; try done. eauto.
Qed.

Lemma verdicts_functional {B V E} (f : B → result E V) l xs ys :
  Forall2 (λ m x, f m = Ok x) l xs → Forall2 (λ m x, f m = Ok x) l ys → ys = xs.
Proof.
  intros H. revert ys. induction H as [|m x l xs Hm Hl IH]; inversion 1; subst; [done|]. f_equal; [congruence|auto].
Qed.

Definition cooled_ready (k : RouteSelectionCandidate) : bool := cooled k && is_some_and (cand_readiness k) is_ready.

Lemma passes_verdicts req context ex members vs :
  Forall2 (λ m v, classify_member req context ex false m = Ok v) members vs →
  (∃ v, v ∈ vs ∧ verdict_ready v = true) →
  ∃ vs1, Forall2 (λ m v, classify_member req context ex true m = Ok v) members vs1 ∧
    ((∃ v, v ∈ vs1 ∧ verdict_ready v = true) ∨ existsb cooled_ready (v_candidate <$> vs1) = true).
Proof.
  intros Hvs (v & Hv & Hr).
  assert (∃ vs1, Forall2 (λ m v, classify_member req context ex true m = Ok v) members vs1 ∧
    ∀ v, v ∈ vs → verdict_ready v = true → ∃ v', v' ∈ vs1 ∧
      (verdict_ready v' = true ∨ cooled_ready (v_candidate v') = true)) as (vs1 & Hvs1 & H).
  { clear v Hv Hr. induction Hvs as [|m v l vs Hm Hl (vs1 & IH1 & IH2)].
    { exists []. split; [constructor|]. by intros v ?%elem_of_nil. }
    destruct (classify_member_passes _ _ _ _ _ Hm) as (v' & Hv' & Hor). exists (v' :: vs1). split; [by constructor|].
    intros u [->|Hu]%elem_of_cons Hru; [exists v'; split; [set_solver|by apply Hor]|].
    destruct (IH2 u Hu Hru) as (u' & ? & ?). exists u'. split; [set_solver|done]. }
  exists vs1. split; [done|]. destruct (H v Hv Hr) as (v' & Hv' & [?|?]); [by left; eauto|right].
  apply existsb_elem. exists (v_candidate v'). split; [|done]. apply list_elem_of_fmap. eauto.
Qed.

(** C28: A pool with a ready member yields a ready route.  If the plain
    classification of the pool (cooldowns not considered) has a member whose
    route is ready, the selection succeeds with a ready route: neither the
    cooldown of accounts, nor image preference, nor stale exhaustion, nor a
    preferred model, nor the roll can make it answer an unavailable one.  The
    factor that favours cheap caches must not round a weight to zero: it is
    10,000 basis points for work that is not read-heavy. *)
Theorem ready_member_selected name members request context seed excluded normal :
  classify_pool members request context excluded false = Ok normal →
  (∃ i, route_ready normal i = true) →
  Forall u8_weight members → len members ≤ 2 ^ 32 →
  (∀ m account, m ∈ members → 4 ≤ member_cache_factor request context (member_model m) account) →
  ∃ pick, select_pool name members request context seed excluded = Ok pick ∧
    is_ready (alt_readiness (pick_route pick)) = true.
Proof.
  intros Hnormal [i Hi] Hm Hlen Hcache.
  destruct (proj1 (classify_pool_Ok _ _ _ _ _ _) Hnormal) as (vs & Hvs & ->).
  assert (∃ v, v ∈ vs ∧ verdict_ready v = true) as Hready.
  { unfold route_ready in Hi. rewrite (po_routes _ _ _ (fold_push_pool_of vs)), list_lookup_fmap in Hi.
    destruct (vs !! i) as [v|] eqn:Hv; [|done]. simpl in Hi. exists v. split; [by eapply list_elem_of_lookup_2|].
    unfold verdict_ready. by destruct (v_route v). }
  destruct (classify_preference_total _ _ _ _ _ _ Hnormal) as [c2 Hc2].
  destruct (classify_preference_Ok _ _ _ _ _ _ Hc2) as (vs2 & Hcl2).
  rewrite (verdicts_functional _ _ _ _ Hvs (cl_verdicts _ _ _ _ _ _ _ Hcl2)) in Hcl2.
  destruct (draw_ready _ _ _ _ _ _ _ name seed Hcl2 Hm Hlen Hcache (cl_ready _ _ _ _ _ _ _ Hcl2 Hready))
    as (d2 & Hd2 & Hi2%(ready_index_route _ _ _ _ _ _ _ _ Hcl2)).
  destruct (passes_verdicts _ _ _ _ _ Hvs Hready) as (vs1 & Hvs1 & Hor).
  assert (classify_pool members request context excluded true = Ok (fold_left push vs1 ClassifiedPool_new)) as Hp1.
  { apply classify_pool_Ok. eauto. }
  destruct (classify_preference_total _ _ _ _ _ _ Hp1) as [c1 Hc1].
  destruct (classify_preference_Ok _ _ _ _ _ _ Hc1) as (vs1' & Hcl1).
  rewrite (verdicts_functional _ _ _ _ Hvs1 (cl_verdicts _ _ _ _ _ _ _ Hcl1)) in Hcl1.
  assert ((∃ d1, draw_pool name c1 seed = Ok d1 ∧ route_ready c1 (draw_index d1) = true) ∨
          existsb cooled_ready (cp_candidates c1) = true) as Hfirst.
  { destruct Hor as [Hor|Hor]; [left|right].
    - destruct (draw_ready _ _ _ _ _ _ _ name seed Hcl1 Hm Hlen Hcache (cl_ready _ _ _ _ _ _ _ Hcl1 Hor)) as (d1 & ? & ?).
      eauto using ready_index_route.
    - destruct (cl_pool _ _ _ _ _ _ _ Hcl1) as [keep Hk]. by rewrite (po_candidates _ _ _ Hk). }
  destruct Hfirst as [(d1 & Hd1 & Hr1)|Hcool].
  { refine (select_pool_ready _ _ _ _ _ _ _ _ _ None _ _ Hcl1 Hr1). unfold draw_avoiding_cooling. rewrite Hc1. cbn. by rewrite Hd1, Hr1. }
  destruct (draw_pool name c1 seed) as [d1|e] eqn:Hd1.
  - destruct (route_ready c1 (draw_index d1)) eqn:Hr1.
    { refine (select_pool_ready _ _ _ _ _ _ _ _ _ None _ _ Hcl1 Hr1). unfold draw_avoiding_cooling. rewrite Hc1. cbn. by rewrite Hd1, Hr1. }
    refine (select_pool_ready _ _ _ _ _ _ _ _ _ _ _ _ Hcl2 Hi2). unfold draw_avoiding_cooling. rewrite Hc1. cbn. rewrite Hd1, Hr1. cbn.
    fold cooled_ready. rewrite Hcool, Hc2. cbn. rewrite Hd2. cbn. by rewrite Hi2.
  - refine (select_pool_ready _ _ _ _ _ _ _ _ _ _ _ _ Hcl2 Hi2). unfold draw_avoiding_cooling. rewrite Hc1. cbn. rewrite Hd1.
    assert (existsb cooled (cp_candidates c1) = true) as ->.
    { apply existsb_elem in Hcool as (k & Hk & [Hc _]%andb_true_iff). apply existsb_elem. eauto. }
    rewrite Hc2. cbn. by rewrite Hd2.
Qed.
End Draw.

(** ** Witnesses *)

Lemma ex_members_weights : Forall u8_weight ex_members.
Proof. repeat constructor; vm_compute; congruence. Qed.


Lemma ready_member_selected_witness :
  ∃ pick, select_pool "standard" ex_members ex_pool_request ex_context (Some ("op", 0)) (mkExcluded [] []) = Ok pick ∧
    is_ready (alt_readiness (pick_route pick)) = true.
Proof.
  destruct (classify_pool ex_members ex_pool_request ex_context (mkExcluded [] []) false) as [c|e] eqn:Hc.
  2:{ exfalso. assert (is_ok (classify_pool ex_members ex_pool_request ex_context
        (mkExcluded [] []) false) = true) as H by (vm_compute; reflexivity). rewrite Hc in H. discriminate H. }
  assert (match classify_pool ex_members ex_pool_request ex_context (mkExcluded [] []) false with
          | Ok c => route_ready c 0 | Err _ => false end = true) as Hr by (vm_compute; reflexivity).
  rewrite Hc in Hr.
  refine (ready_member_selected "standard" ex_members ex_pool_request ex_context (Some ("op", 0)) (mkExcluded [] [])
    c Hc (ex_intro _ 0%nat Hr) ex_members_weights _ _); [vm_compute; congruence|].
  intros m account _. unfold member_cache_factor, cache_factor_basis_points. simpl. lia.
Defined.
