(* ===== verification/RoutingSafety.v ===== *)
(** * RoutingSafety: what every resolved route satisfies

    Properties of the entry points of [crates/routing/src/resolve.rs] that hold
    of the selected route and of every alternative beside it, whatever the pool,
    the roll and the evidence: confidentiality, exclusions, account choice,
    model policy, efforts and the gates a ready route has passed. *)

From Stdlib Require Import Ascii SpecFloat.
From stdpp Require Import base option list strings sets pretty gmap.
From S2P Require Import Prelude External ReviewPaths ReviewPolicy ReviewCheck Adapters Routes QuotaState QuotaAdmission QuotaReadiness RoutingTypes RoutingPolicy RoutingConfig RoutingPacing RoutingResolve RoutingPool RoutingExample RoutingDraw.

Local Open Scope string_scope.
Local Open Scope list_scope.
Local Open Scope Z_scope.
Local Open Scope rust_scope.

Section Safety.
Context {J : Json} {X : JsonText} {T : Jiff} {C : Civil} {A : RoutingAssets} {F : Fmt}.

(** ** Where routes come from *)

(** A route of a resolution is a candidate for a model that privacy allows and,
    on a named route, that no rule or configured exclusion removes. *)
Definition from_candidate (request : RouteRequest) (context : RoutingContext) (ex : Excluded)
    (model : ModelId) (r : RouteAlternative) : Prop :=
  ∃ eff, candidate_of model eff context (intent request) r ∧
    privacy_allowed model (confidential request) (catalogue context) = true ∧
    (named_route request = true → excluded_reason (mkExcluded [] (exclusion_rules ex)) model context = None).

Lemma excluded_reason_None ex model context :
  excluded_reason ex model context = None ↔
  (∀ rule, rule ∈ exclusion_rules ex →
     removes rule model (existsb (serves model) (availability context)) = false) ∧
  (∀ e, e ∈ model_exclusions (config context) → excluded_model e = model →
     Schedule_active (excluded_schedule e) (now context) = false) ∧
  model ∉ rejected ex.
Proof.
  unfold excluded_reason. destruct (List.find _ _) as [rule|] eqn:Hf.
  { apply find_Some_elem in Hf as [Hin Hr]. split; [done|]. intros (H & _). rewrite (H rule Hin) in Hr. done. }
  rewrite find_None_elem in Hf. destruct (existsb _ (model_exclusions _)) eqn:Hx.
  { split; [done|]. intros (_ & H & _). apply existsb_elem in Hx as (e & He & Hb).
    apply andb_true_iff in Hb as [Hm%bool_decide_eq_true Hs]. rewrite (H e He Hm) in Hs. done. }
  rewrite existsb_false_elem in Hx. case_bool_decide as Hin; [naive_solver|]. split; [intros _|done].
  split_and!; [done| |done]. intros e He Hm. specialize (Hx e He). rewrite andb_false_iff, bool_decide_eq_false in Hx. naive_solver.
Qed.
Lemma excluded_reason_rules ex model context :
  excluded_reason ex model context = None → excluded_reason (mkExcluded [] (exclusion_rules ex)) model context = None.
Proof. rewrite !excluded_reason_None. intros (? & ? & _). split_and!; [done..|]. simpl. apply not_elem_of_nil. Qed.

Lemma classify_member_candidate req context ex avoid m v r :
  classify_member req context ex avoid m = Ok v → v_route v = Some r →
  candidate (member_model m) (member_effort_of req m) context avoid (intent req) = Ok r ∧
  privacy_allowed (member_model m) (confidential req) (catalogue context) = true ∧
  excluded_reason ex (member_model m) context = None ∧
  is_some_and (member_effort_of req m) (λ value, negb (contains (member_efforts m) value)) = false.
Proof.
  unfold classify_member. cbv zeta.
  destruct (excluded_reason _ _ _) as [rule|], (spent_detail _ _) as [q|]; try by intros [= <-].
  destruct (privacy_allowed _ _ _); cbn; [|by intros [= <-]].
  destruct (is_some_and _ _); [by intros [= <-]|].
  destruct (candidate _ _ _ _ _) as [r'|e]; [|by destruct e; intros [= <-]].
  intros [= <-]. unfold classify_resolved. cbv zeta. destruct (negb _); [done|].
  destruct (pacing_factor_basis_points _ _ _ _) as [[f d] s]. destruct (_ && _); [done|]. by intros [= <-].
Qed.

Lemma draw_avoiding_cooling_inv name members req context seed ex c d reason :
  draw_avoiding_cooling name members req context seed ex = Ok (c, d, reason) →
  ∃ avoid vs, classified members req context ex avoid vs c ∧ draw_pool name c seed = Ok d.
Proof.
  unfold draw_avoiding_cooling. intros (c1 & Hc1 & H)%result_bind_Ok.
  destruct (classify_preference_Ok _ _ _ _ _ _ Hc1) as (vs1 & Hcl1).
  destruct (draw_pool name c1 seed) as [d1|e] eqn:Hd1; cbn in H.
  - destruct (_ && _); [|injection H as <- <- <-; eauto].
    apply result_bind_Ok in H as (c2 & Hc2 & H). apply result_bind_Ok in H as (d2 & Hd2 & H).
    destruct (classify_preference_Ok _ _ _ _ _ _ Hc2) as (vs2 & Hcl2).
    destruct (route_ready _ _); injection H as <- <- <-; eauto.
  - destruct (existsb _ _); [|done]. apply result_bind_Ok in H as (c2 & Hc2 & H).
    destruct (classify_preference_Ok _ _ _ _ _ _ Hc2) as (vs2 & Hcl2).
    destruct (draw_pool name c2 seed) as [d2|] eqn:Hd2; [|done]. injection H as <- <- <-. eauto.
Qed.

Lemma select_pool_inv name members req context seed ex pick :
  select_pool name members req context seed ex = Ok pick →
  ∃ avoid m v, m ∈ members ∧ classify_member req context ex avoid m = Ok v ∧ v_route v = Some (pick_route pick).
Proof.
  unfold select_pool. intros ([[c d] reason] & Hd & H)%result_bind_Ok. cbv zeta in H.
  apply draw_avoiding_cooling_inv in Hd as (avoid & vs & [Hvs [keep Hc] _] & _).
  match type of H with context [cp_routes c !! ?i] => destruct (cp_routes c !! i) as [[r|]|] eqn:Hr; try done end.
  injection H as <-. cbn. rewrite (po_routes _ _ _ Hc), list_lookup_fmap in Hr.
  match type of Hr with context [vs !! ?i] => destruct (vs !! i) as [v|] eqn:Hv; [|done] end.
  destruct (Forall2_lookup_r _ _ _ _ _ Hvs Hv) as (m & Hm & Hmv). exists avoid, m, v.
  split_and!; [by eapply list_elem_of_lookup_2|done|]. by injection Hr.
Qed.

Lemma resolve_primary_inv req context seed ex r receipt :
  resolve_primary req context seed ex = Ok (r, receipt) → ∃ model, from_candidate req context ex model r.
Proof.
  unfold resolve_primary, from_candidate. destruct (choice req) as [model|name] eqn:Hch.
  - destruct (privacy_allowed _ _ _) eqn:Hp; [|done]. cbn. intros (r' & Hr & [= <- _])%result_bind_Ok.
    exists model, (effort req). split_and!; [by eapply candidate_inv|done|]. unfold named_route. by rewrite Hch.
  - destruct (choice_pool req context (name_str name)) as [members|].
    + intros (pick & Hpick & [= <- _])%result_bind_Ok.
      apply select_pool_inv in Hpick as (avoid & m & v & _ & Hv & Hr).
      destruct (classify_member_candidate _ _ _ _ _ _ _ Hv Hr) as (Hc & Hp & Hx & _).
      exists (member_model m), (member_effort_of req m). split_and!; [by eapply candidate_inv|done|].
      intros _. by apply excluded_reason_rules.
    + intros (named & _ & H)%result_bind_Ok. destruct (is_none _); [done|].
      destruct (privacy_allowed _ _ _) eqn:Hp; [|done]. cbn in H.
      destruct (excluded_reason _ _ _) eqn:Hx; [done|]. apply result_bind_Ok in H as (r' & Hr & [= <- _]).
      eexists (route_id named), _. split_and!; [by eapply candidate_inv|done|done].
Qed.

Lemma resolve_alternatives_inv req context ex eff alts r :
  resolve_alternatives req context ex eff = Ok alts → r ∈ alts →
  ∃ model, model ∈ fallback_models req ∧ from_candidate req context ex model r.
Proof.
  unfold resolve_alternatives. intros Hc%collected_Ok Hin.
  apply list_elem_of_lookup in Hin as [i Hi]. destruct (Forall2_lookup_r _ _ _ _ _ Hc Hi) as (res & Hres & ->).
  apply list_elem_of_lookup_2, bfilter_elem in Hres as [Hres _].
  match type of Hres with _ ∈ List.map ?f ?l => change (Ok r ∈ f <$> l) in Hres end.
  apply list_elem_of_fmap in Hres as (model & Hr & Hm).
  apply bfilter_elem in Hm as [[Hm Hp]%bfilter_elem Hx]. exists model. split; [done|]. exists eff.
  split_and!; [by eapply candidate_inv|done|]. intros Hn. rewrite Hn in Hx. simpl in Hx.
  apply excluded_reason_rules. by destruct (excluded_reason ex model context).
Qed.

(** ** Resolved routes *)

(** The selected route of a decision, as an alternative. *)
Definition primary_of (route : ResolvedRoute) : RouteAlternative :=
  mkRouteAlternative (route_extra route) (route_adapter route) (route_model route) (route_effort route)
    (route_account_key route) (route_host route) (eligibility route) (readiness route) (confidentiality route).
Definition legs (route : ResolvedRoute) : list RouteAlternative :=
  primary_of route :: as_slice (alternatives route).

Lemma resolve_inner_inv req context seed ex route :
  resolve_inner req context seed ex = Ok route →
  (∀ r, r ∈ legs route → ∃ model, from_candidate req context ex model r) ∧
  ∃ receipt model, resolve_primary req context seed ex = Ok (primary_of route, receipt) ∧
    ModelId_parse (route_adapter route +:+ "/" +:+ route_model route) = Ok model ∧
    permitted model (route_account_key route) (intent req) context = true.
Proof.
  unfold resolve_inner. intros ([primary receipt] & Hp & H)%result_bind_Ok.
  apply result_bind_Ok in H as (model & Hmodel & H). apply result_seq_Ok in H as [Hv H].
  destruct (bool_decide _); [done|]. apply result_bind_Ok in H as (alts & Halts & H).
  destruct (RouteAlternatives_new alts) as [bounded|] eqn:Hb; [|done]. injection H as <-.
  assert (as_slice bounded = alts) as Hs.
  { unfold RouteAlternatives_new in Hb. destruct (_ <? _); [done|]. by injection Hb as <-. }
  unfold legs, primary_of. cbn. rewrite Hs. split.
  - intros r [->|Hr]%elem_of_cons; [destruct primary; by eapply resolve_primary_inv|].
    destruct (resolve_alternatives_inv _ _ _ _ _ _ Halts Hr) as (m & _ & ?). eauto.
  - exists receipt, model. split_and!; [by destruct primary|done|].
    unfold validate_intent in Hv. unfold permitted. by destruct (permits _ _).
Qed.

(** The entry point resolves over the availability records the rules and the
    chosen account leave. *)
Lemma resolve_for_account_inv req context account op task ex rules route :
  resolve_for_account_with_seed_excluding req context account op task ex rules = Ok route →
  ∃ kept,
    let rules' := if named_route req then rules else [] in
    let context' := set_availability kept context in
    (∀ a, a ∈ kept → a ∈ availability context ∧
       ∀ rule adapter key, rule ∈ rules' → rule_account rule = Some (adapter, key) →
         ¬ (av_adapter a = adapter ∧ av_account_key a = Some key)) ∧
    (∀ key, account = Some key → ∃ adapters, choice_adapters req context = Ok adapters ∧
       ∀ a, a ∈ kept → av_adapter a ∈ adapters → av_account_key a = Some key) ∧
    resolve_inner req context' (Some (op, task))
      (mkExcluded (if named_route req then ex else []) rules') = Ok route.
Proof.
  unfold resolve_for_account_with_seed_excluding. intros (sel & Hsel & H)%result_bind_Ok.
  apply result_seq_Ok in H as [_ H]. set (rules' := if named_route req then rules else []) in *.
  assert (∀ a, a ∈ availability (withhold_accounts rules' context) → a ∈ availability context ∧
    ∀ rule adapter key, rule ∈ rules' → rule_account rule = Some (adapter, key) →
      ¬ (av_adapter a = adapter ∧ av_account_key a = Some key)) as Hkept.
  { intros a [Ha Hn]%bfilter_elem. split; [done|]. intros rule adapter key Hrule Hacc [Had Hkey].
    apply negb_true_iff in Hn. rewrite existsb_false_elem in Hn.
    specialize (Hn (adapter, key)). rewrite andb_false_iff, !bool_decide_eq_false in Hn.
    destruct Hn as [?|?]; try done. apply list_elem_of_omap. eauto. }
  destruct sel as [|key].
  - exists (availability (withhold_accounts rules' context)). cbv zeta. split_and!; [done| |done].
    intros k ->. exfalso. unfold AccountSelection_parse in Hsel. repeat case_match; done.
  - apply result_bind_Ok in H as (adapters & Had & H).
    eexists. cbv zeta. split_and!; [| |exact H].
    + intros a [Ha _]%bfilter_elem. by apply Hkept.
    + intros k ->. assert (k = key) as -> by (unfold AccountSelection_parse in Hsel; repeat case_match; naive_solver).
      exists adapters. split; [done|]. intros a [_ Hf]%bfilter_elem Hin.
      apply orb_true_iff in Hf as [Hf|Hf]; [|by apply bool_decide_eq_true in Hf].
      unfold contains in Hf. by rewrite bool_decide_true in Hf.
Qed.

(** ** Theorems *)

Lemma privacy_allowed_true model catalogue :
  privacy_allowed model true catalogue = true ↔
  ∃ row, cat_model catalogue model = Some row ∧ trains_on_prompts row = Some false.
Proof. unfold privacy_allowed. simpl. rewrite is_some_and_true. by setoid_rewrite bool_decide_eq_true. Qed.

(** C15: Confidential work never reaches a model that may train on it.  When a
    confidential request resolves, the selected route and every alternative
    beside it name models whose catalogue row states that prompts are not
    trained on; an uncatalogued model, or one whose row is silent, is never
    named, whatever pool, preference, fallback or account was asked for. *)
Theorem confidential_never_trains request context account op task excluded rules route :
  resolve_for_account_with_seed_excluding request context account op task excluded rules = Ok route →
  confidential request = true →
  ∀ r, r ∈ legs route →
  ∃ model row, alt_adapter r = id_adapter model ∧ alt_model r = id_model model ∧
    cat_model (catalogue context) model = Some row ∧ trains_on_prompts row = Some false.
Proof.
  intros (kept & _ & _ & H)%resolve_for_account_inv Hconf r Hr.
  apply resolve_inner_inv in H as [Hlegs _]. destruct (Hlegs r Hr) as (model & eff & Hc & Hp & _).
  rewrite Hconf in Hp. apply privacy_allowed_true in Hp as (row & Hrow & Ht).
  exists model, row. split_and!; [apply Hc|apply Hc|done|done].
Qed.

(** C22: Exclusions hold on every route of a named request: no route (selected or
    fallback) is of an excluded provider or an excluded model, none uses an
    excluded account, and none names a model the configuration excludes while
    that exclusion is scheduled. *)
Theorem exclusions_hold request context account op task excluded rules route :
  resolve_for_account_with_seed_excluding request context account op task excluded rules = Ok route →
  named_route request = true →
  ∀ r, r ∈ legs route →
  ∃ model, alt_adapter r = id_adapter model ∧ alt_model r = id_model model ∧
    (∀ rule, rule ∈ rules →
       match selector rule with
       | ExcludeProvider provider => alt_adapter r ≠ provider
       | ExcludeModel m => model ≠ m
       | ExcludeAccount adapter key => ¬ (alt_adapter r = adapter ∧ alt_account_key r = Some key)
       end) ∧
    (∀ e, e ∈ model_exclusions (config context) → excluded_model e = model →
       Schedule_active (excluded_schedule e) (now context) = false).
Proof.
  intros (kept & Hkept & _ & H)%resolve_for_account_inv Hnamed r Hr. rewrite Hnamed in *.
  apply resolve_inner_inv in H as [Hlegs _]. destruct (Hlegs r Hr) as (model & eff & Hc & _ & Hx).
  apply (excluded_reason_None _ _ _) in Hx as (Hrules & Hconf & _); [|done].
  exists model. split_and!; [apply Hc|apply Hc| |done]. intros rule Hrule. specialize (Hrules rule Hrule).
  unfold removes in Hrules. destruct (selector rule) as [provider|adapter key|m] eqn:Hsel.
  - rewrite (co_adapter _ _ _ _ _ Hc). by apply bool_decide_eq_false in Hrules.
  - intros [Had Hkey]. destruct (co_account _ _ _ _ _ Hc key Hkey) as (a & (Ha & Hs & _)%allowed_accounts_elem & Hak).
    destruct (Hkept a Ha) as [_ Hno]. apply (Hno rule adapter key Hrule); [unfold rule_account; by rewrite Hsel|].
    split; [|done]. unfold serves in Hs. apply andb_true_iff in Hs as [Hs%bool_decide_eq_true _].
    rewrite Hs, <-Had. symmetry. apply Hc.
  - apply bool_decide_eq_false in Hrules. congruence.
Qed.

(** A readiness observation that takes nobody out: no current one says that the
    login is gone or the account another one, and an unavailable one is only a
    login or an unknown matter. *)
Definition read_tolerated (now : Z) (read : ReadinessRead) : Prop :=
  (current_read now read = true → read_reason read ∉ [Some SignedOut; Some ReasonLoginExpired; Some ReasonAccountMismatch]) ∧
  (read_state read = StateUnavailable → ∃ x reason, project read = Unavailable x reason ∧
     reason ∈ [UnknownAvailability; StaleAvailability; AuthRequired; LoginExpired]).

(** What stands between a model, with an effort and an account, and a ready route. *)
Record gates_passed (context : RoutingContext) (request : RouteRequest) (model : ModelId)
    (eff : option string) (a : AvailabilityRecord) : Prop := {
  gate_adapter : id_adapter model ∈ registry context;
  gate_effort : ∀ e, eff = Some e → effort_valid e = true ∧
    (∀ spec, Adapters.get (id_adapter model) = Some spec → caps_effort (launch spec) = true) ∧
    (∀ row, cat_model (catalogue context) model = Some row → e ∈ entry_efforts row);
  gate_launch : ∀ spec, Adapters.get (id_adapter model) = Some spec →
    is_ok (intent_check_launch (intent request) spec (id_model model) eff) = true;
  gate_access : ∃ acc, acc ∈ access context ∧ access_adapter acc = id_adapter model ∧
    disclosure_ref acc ≠ "" ∧ confinement_ref acc ≠ "";
  gate_account : av_account_key a = None → availability_reason (Some a) context = Some StaleAvailability;
  gate_block : ∀ key, av_account_key a = Some key →
    account_block
      (mkAdmission (quota_policies context) (now_seconds context) (account_records context)
         (admission_pools (catalogue context) model)) (id_adapter model) key (id_model model) = Ok None;
  gate_readiness : ∀ lookup key route, readiness_lookup context = Some lookup → av_account_key a = Some key →
    route ∈ readiness_routes model context →
    read_tolerated (now_seconds context) (lookup (readiness_scope model key route) (now_seconds context));
  gate_quota : ∀ q, latest_reading model a context true = Some q →
    status (q_snapshot q) ≠ StatusAuthRequired ∧ reading_exhausted (q_snapshot q) model context = false ∧
    quota_headroom q model context ≠ PartialExhausted ∧
    (quota_headroom q model context = PartialUnknown → allow_unknown_partial_headroom (config context) = true);
  gate_policy : policy_of context model (av_account_key a) ≠ Off;
  gate_reserve : ∀ q, policy_of context model (av_account_key a) = Pace → latest_reading model a context true = Some q →
    comparable_status (status (q_snapshot q)) = true →
    pacing_reserve_window (q_snapshot q) (now_seconds context) (adapter_reserve context model)
      (profile_of context model (av_account_key a)) (id_adapter model) (quota_pool (catalogue context) model) = None;
  gate_permits : permitted model (av_account_key a) (intent request) context = true;
}.

Lemma or_reason_None r n : or_reason r n = None ↔ r = None ∧ n = None.
Proof. destruct r; simpl; naive_solver. Qed.
Lemma reason_if_None b r : reason_if b r = None ↔ b = false.
Proof. unfold reason_if. destruct b; naive_solver. Qed.

Lemma headroom_reason_None model q context :
  headroom_reason model q context = None →
  reading_exhausted (q_snapshot q) model context = false ∧ quota_headroom q model context ≠ PartialExhausted ∧
  (quota_headroom q model context = PartialUnknown → allow_unknown_partial_headroom (config context) = true).
Proof.
  unfold headroom_reason. destruct (quota_headroom q model context); [..|done];
    destruct (reading_exhausted _ _ _); try done. destruct (allow_unknown_partial_headroom _); done.
Qed.

Lemma read_reason_of_None now read : read_reason_of now read = None → read_tolerated now read.
Proof.
  unfold read_reason_of, read_tolerated. cbv zeta. intros H. split.
  - intros Hc Hin. rewrite Hc in H. rewrite !elem_of_cons, elem_of_nil in Hin. by destruct Hin as [Hr|[Hr|[Hr|[]]]]; rewrite Hr in H.
  - intros Hst. destruct (if current_read now read then _ else None); [done|]. rewrite Hst in H.
    rewrite bool_decide_eq_true_2 in H by done. cbn [negb] in H.
    destruct (project read) as [x ref e|x reason] eqn:Hp.
    + unfold project in Hp. by rewrite Hst in Hp.
    + exists x, reason. split; [done|]. destruct reason; cbn in H; try done; set_solver.
Qed.

(** No reason against an account: every gate of the account is passed. *)
Lemma account_reason_None model a acc context :
  (account_reason model a acc context).1 = None →
  (av_account_key a = None → availability_reason (Some a) context = Some StaleAvailability) ∧
  (∃ access, acc = Some access ∧ disclosure_ref access ≠ "" ∧ confinement_ref access ≠ "") ∧
  (∀ key, av_account_key a = Some key → account_block_reason model key context = None) ∧
  readiness_exclusion model a context = None ∧
  (∀ q, latest_reading model a context true = Some q →
     status (q_snapshot q) ≠ StatusAuthRequired ∧ headroom_reason model q context = None) ∧
  policy_of context model (av_account_key a) ≠ Off ∧
  (policy_of context model (av_account_key a) = Pace → ∀ q, latest_reading model a context true = Some q →
    comparable_status (status (q_snapshot q)) = true →
    pacing_reserve_window (q_snapshot q) (now_seconds context) (adapter_reserve context model)
      (profile_of context model (av_account_key a)) (id_adapter model) (quota_pool (catalogue context) model) = None).
Proof.
  unfold account_reason. cbn [fst].
  rewrite !or_reason_None, !reason_if_None. intros [[[[[[[[Hav Hd] Hc] Hb] Hr] Hauth] Hq] Hoff] Hres].
  destruct acc as [access|]; [|done]. simpl in Hd, Hc. split_and!.
  - unfold availability_reason in *. intros Hn. rewrite Hn in *. by destruct (_ || _).
  - exists access. split_and!; [done|..]; intros He; rewrite He in *; done.
  - intros key Hkey. by rewrite Hkey in Hb.
  - done.
  - intros q Hlr. rewrite Hlr in Hauth, Hq. simpl in Hauth, Hq. by apply bool_decide_eq_false in Hauth.
  - by apply bool_decide_eq_false in Hoff.
  - intros Hpace q Hlr Hst. rewrite Hpace, bool_decide_eq_true_2, Hlr in Hres by done. cbn [andb is_some_and] in Hres.
    rewrite Hst in Hres. cbn [andb] in Hres. by destruct (pacing_reserve_window _ _ _ _ _ _).
Qed.

(** An admissible model is of a registered adapter and takes the effort. *)
Lemma admissible_Ok model eff context entry :
  admissible model eff context = Ok entry →
  id_adapter model ∈ registry context ∧
  ∀ e, eff = Some e → effort_valid e = true ∧
    (∀ spec, Adapters.get (id_adapter model) = Some spec → caps_effort (launch spec) = true) ∧
    (∀ row, cat_model (catalogue context) model = Some row → e ∈ entry_efforts row).
Proof.
  unfold admissible. destruct (contains (registry context) (id_adapter model)) eqn:Hreg; [|done]. cbn [negb].
  apply bool_decide_eq_true in Hreg. intros H. split; [done|]. intros e ->.
  apply result_bind_Ok in H as ([] & Hspec & H). destruct (negb (effort_valid e)) eqn:Hv; cbn [orb] in H; [done|].
  apply negb_false_iff in Hv. split; [done|]. split.
  - intros spec Hs. rewrite Hs in Hspec. by destruct (caps_effort (launch spec)).
  - intros row Hrow. rewrite Hrow in H. cbn [is_some_and] in H.
    destruct (contains (entry_efforts row) e) eqn:He; [|done]. by apply bool_decide_eq_true in He.
Qed.

Lemma account_block_reason_None model key context :
  account_block_reason model key context = None →
  account_block
    (mkAdmission (quota_policies context) (now_seconds context) (account_records context)
       (admission_pools (catalogue context) model)) (id_adapter model) key (id_model model) = Ok None.
Proof. unfold account_block_reason. by destruct (account_block _ _ _ _) as [[]|]. Qed.

(** C23: A ready route has passed every gate.  Whenever the selected route or an
    alternative is ready, its model is of a registered adapter that supports the
    launch and takes the route's effort, and one of the host's availability
    records serves the model and carries the route's account.  For that record:
    access was granted with a disclosure and a confinement reference, no
    persisted mismatch or refusal blocks the account, no readiness observation
    takes it out, a current quota reading neither asks for a login nor shows the
    model spent (unknown partial headroom passes only when the configuration
    allows it) nor, when the policy paces, is inside its reserve, pacing is not
    switched off, and the model policy permits the intent.  The account is known
    unless the record is stale. *)
Theorem ready_route_gated request context account op task excluded rules route :
  resolve_for_account_with_seed_excluding request context account op task excluded rules = Ok route →
  ∀ r x ref e, r ∈ legs route → alt_readiness r = Ready x ref e →
  ∃ model a, alt_adapter r = id_adapter model ∧ alt_model r = id_model model ∧
    a ∈ availability context ∧ serves model a = true ∧ alt_account_key r = av_account_key a ∧
    gates_passed context request model (alt_effort r) a.
Proof.
  intros (kept & Hkept & _ & H)%resolve_for_account_inv r x ref e Hr Hready.
  apply resolve_inner_inv in H as [Hlegs _]. destruct (Hlegs r Hr) as (model & eff & Hc & _).
  destruct (co_ready _ _ _ _ _ Hc _ _ _ Hready) as (a & (Ha & Hs & Hp)%allowed_accounts_elem & Hkey & Hreason & _).
  destruct (co_admissible _ _ _ _ _ Hc) as [entry [Hreg Heff]%admissible_Ok].
  exists model, a. split_and!; [apply Hc|apply Hc|by apply Hkept|done|done|].
  rewrite (co_effort _ _ _ _ _ Hc).
  apply account_reason_None in Hreason as (Hacc & (ac & Hac & Hd & Hcf) & Hb & Hre & Hq & Hoff & Hres). split; try done.
  - intros spec Hspec. pose proof (co_launch _ _ _ _ _ Hc) as Hl. unfold launch_checked in Hl. rewrite Hspec in Hl.
    by destruct (intent_check_launch _ _ _ _).
  - apply find_Some_elem in Hac as [Hin Had%bool_decide_eq_true]. by exists ac.
  - intros key Hk. apply account_block_reason_None. by apply Hb.
  - intros lookup key rt Hlook Hk Hrt. apply read_reason_of_None. unfold readiness_exclusion in Hre.
    change (readiness_lookup context = Some lookup) in Hlook. cbn [readiness_lookup set_availability] in Hre.
    rewrite Hlook in Hre. cbn [mbind option_bind] in Hre. rewrite Hk in Hre. cbn [mbind option_bind] in Hre.
    rewrite find_map_None in Hre. by apply (Hre rt).
  - intros q Hlr. destruct (Hq q Hlr) as [? Hh]. split; [done|]. by apply headroom_reason_None in Hh.
  - intros q Hpace Hlr Hst. by apply Hres.
Qed.

(** The adapters a request chooses from include the selected one. *)
Lemma reconciled_model m entry : member_model (reconciled m entry).1 = member_model m.
Proof. unfold reconciled. destruct entry; [|done]. cbv zeta. destruct (member_effort m); [|done]. by repeat case_match. Qed.

Lemma choice_pool_adapters req context name members m adapters :
  choice req = NamedRoute name → choice_pool req context (name_str name) = Some members → m ∈ members →
  choice_adapters req context = Ok adapters → id_adapter (member_model m) ∈ adapters.
Proof.
  intros Hch Hpool Hm. unfold choice_adapters. rewrite Hch. unfold choice_pool in Hpool.
  assert (∀ pool, effective_pool context (name_str name) = Some pool → m ∈ pool →
    ∃ raw, raw_pool context (name_str name) = Some raw ∧ id_adapter (member_model m) ∈ List.map (λ m, id_adapter (member_model m)) raw) as Heff.
  { unfold effective_pool. intros pool. destruct (raw_pool _ _) as [raw|]; [|done]. intros [= <-] Hin.
    exists raw. split; [done|]. match type of Hin with _ ∈ List.map ?f ?l => change (m ∈ f <$> l) in Hin end.
    apply list_elem_of_fmap in Hin as (m' & -> & Hm'). rewrite reconciled_model.
    match goal with |- _ ∈ List.map ?f ?l => change (f m' ∈ f <$> l) end. by apply list_elem_of_fmap_2. }
  destruct (choice_preference req context) as [pref|].
  2:{ destruct (Heff members Hpool Hm) as (raw & -> & Hin). by intros [= <-]. }
  destruct (effective_pool context (name_str name)) as [pool|] eqn:Hep.
  - injection Hpool as <-. assert (m ∈ pool ∨ member_model m = pref) as [Hin|Heq].
    { destruct (existsb _ pool); [by left|]. apply elem_of_app in Hm as [?| ->%list_elem_of_singleton]; [by left|by right]. }
    + destruct (Heff pool eq_refl Hin) as (raw & -> & Hin'). intros [= <-]. set_solver.
    + unfold effective_pool in Hep. destruct (raw_pool _ _) as [raw|]; [|done]. intros [= <-]. rewrite Heq. set_solver.
  - destruct (route_as_pool context (name_str name)) as [pool|] eqn:Hrp; [|done]. injection Hpool as <-.
    unfold route_as_pool in Hrp. apply bind_Some in Hrp as (route & Hroute & Hrp).
    apply bind_Some in Hrp as (entry & _ & [= <-]).
    assert (raw_pool context (name_str name) = None) as -> by (unfold effective_pool in Hep; by destruct (raw_pool _ _)).
    rewrite Hroute. cbn. intros [= <-]. destruct (existsb _ _); [apply list_elem_of_singleton in Hm as ->; set_solver|].
    apply elem_of_app in Hm as [->%list_elem_of_singleton| ->%list_elem_of_singleton]; cbn; set_solver.
Qed.

Lemma resolve_primary_adapter req context seed ex r receipt adapters :
  resolve_primary req context seed ex = Ok (r, receipt) → choice_adapters req context = Ok adapters →
  alt_adapter r ∈ adapters.
Proof.
  unfold resolve_primary. destruct (choice req) as [model|name] eqn:Hch.
  - destruct (privacy_allowed _ _ _); [|done]. cbn. intros (r' & Hr & [= <- _])%result_bind_Ok.
    rewrite (co_adapter _ _ _ _ _ (candidate_inv _ _ _ _ _ _ Hr)). unfold choice_adapters. rewrite Hch. cbn.
    intros [= <-]. destruct (choice_preference _ _); set_solver.
  - destruct (choice_pool req context (name_str name)) as [members|] eqn:Hpool.
    + intros (pick & Hpick & [= <- _])%result_bind_Ok Had.
      apply select_pool_inv in Hpick as (avoid & m & v & Hm & Hv & Hr).
      destruct (classify_member_candidate _ _ _ _ _ _ _ Hv Hr) as (Hc & _).
      rewrite (co_adapter _ _ _ _ _ (candidate_inv _ _ _ _ _ _ Hc)). by eapply choice_pool_adapters.
    + intros (named & Hnamed & H)%result_bind_Ok. destruct (is_none _); [done|]. destruct (negb _); [done|].
      destruct (excluded_reason _ _ _); [done|]. apply result_bind_Ok in H as (r' & Hr & [= <- _]).
      rewrite (co_adapter _ _ _ _ _ (candidate_inv _ _ _ _ _ _ Hr)). unfold choice_adapters. rewrite Hch.
      assert (raw_pool context (name_str name) = None) as ->.
      { unfold choice_pool, effective_pool in Hpool. destruct (raw_pool _ _); [|done].
        by destruct (choice_preference _ _); [|done]; destruct (existsb _ _). }
      rewrite Hnamed. cbn. intros [= <-]. destruct (choice_preference _ _); set_solver.
Qed.

(** The account that was asked for is the one used.  When the caller names
    an account, the selected route carries that account or none, and so does
    every alternative on an adapter the request chooses from: no other account
    of those adapters is ever used. *)
Theorem chosen_account_used request context key op task excluded rules route :
  resolve_for_account_with_seed_excluding request context (Some key) op task excluded rules = Ok route →
  ∃ adapters, choice_adapters request context = Ok adapters ∧ route_adapter route ∈ adapters ∧
    ∀ r, r ∈ legs route → alt_adapter r ∈ adapters →
      alt_account_key r = None ∨ alt_account_key r = Some key.
Proof.
  intros (kept & _ & Hchosen & H)%resolve_for_account_inv.
  destruct (Hchosen key eq_refl) as (adapters & Had & Hk). exists adapters. split; [done|].
  apply resolve_inner_inv in H as [Hlegs (receipt & _ & Hprimary & _)].
  split; [exact (resolve_primary_adapter _ _ _ _ _ _ _ Hprimary Had)|]. intros r Hr Hin.
  destruct (Hlegs r Hr) as (model & eff & Hc & _).
  destruct (alt_account_key r) as [k|] eqn:Hkey; [right|by left].
  destruct (co_account _ _ _ _ _ Hc k Hkey) as (a & (Ha & Hs & _)%allowed_accounts_elem & Hak).
  rewrite <-Hak. apply Hk; [done|]. unfold serves in Hs. apply andb_true_iff in Hs as [->%bool_decide_eq_true _].
  by rewrite <-(co_adapter _ _ _ _ _ Hc).
Qed.

(** Work that writes is never given to a model kept to reading.  When a
    request that writes resolves, the policy in force for the selected model on
    its account (or on the hinted account when none is known) does not restrict
    it to reading, and neither does the policy of a ready alternative. *)
Theorem writes_respect_read_only request context account op task excluded rules route :
  resolve_for_account_with_seed_excluding request context account op task excluded rules = Ok route →
  writes (intent request) = true →
  let restricted model r :=
    read_only (lane (policy (effective (model_policy (config context)) model
      (or_hint context (alt_account_key r)) (now context)))) = Some true in
  (∃ model, ModelId_parse (route_adapter route +:+ "/" +:+ route_model route) = Ok model ∧
     ¬ restricted model (primary_of route)) ∧
  (∀ r x ref e, r ∈ as_slice (alternatives route) → alt_readiness r = Ready x ref e →
     ∃ model, alt_adapter r = id_adapter model ∧ alt_model r = id_model model ∧ ¬ restricted model r).
Proof.
  intros (kept & _ & _ & H)%resolve_for_account_inv Hwrites restricted.
  apply resolve_inner_inv in H as [Hlegs (receipt & model & _ & Hmodel & Hp)].
  assert (∀ m r, permitted m (alt_account_key r) (intent request) context = true → ¬ restricted m r) as Hper.
  { intros m r. unfold permitted, permits, restricted. rewrite Hwrites, orb_false_r.
    rewrite negb_true_iff, bool_decide_eq_false. done. }
  split; [exists model; split; [done|]; by apply (Hper model (primary_of route))|].
  intros r x ref e Hr Hready. destruct (Hlegs r) as (m & eff & Hc & _); [set_solver|].
  exists m. split_and!; [apply Hc|apply Hc|]. apply Hper.
  destruct (co_ready _ _ _ _ _ Hc _ _ _ Hready) as (a & (_ & _ & Ha)%allowed_accounts_elem & -> & _). done.
Qed.
End Safety.

(** ** Witnesses *)

Notation ex_resolve request account rules :=
  (resolve_for_account_with_seed_excluding request ex_context account "op" 0 [] rules) (only parsing).
Definition ex_confidential : RouteRequest :=
  ex_request (NamedRoute (mkRouteName "standard")) true true (FallbackModels (mkBoundedModels [ex_opus; ex_gpt])).

(** A resolution that succeeds, as the equation the theorems take. *)
Lemma ex_resolve_Ok request account rules :
  is_ok (ex_resolve request account rules) = true → ∃ route, ex_resolve request account rules = Ok route.
Proof. apply is_ok_true. Qed.

Lemma confidential_never_trains_witness :
  ∃ route, ex_resolve ex_confidential None [] = Ok route ∧
    ∃ model row, route_adapter route = id_adapter model ∧ route_model route = id_model model ∧
      cat_model ex_catalogue model = Some row ∧ trains_on_prompts row = Some false.
Proof.
  destruct (ex_resolve_Ok ex_confidential None []) as [route Hroute]; [vm_compute; reflexivity|].
  exists route. split; [exact Hroute|].
  exact (confidential_never_trains ex_confidential ex_context None "op" 0 [] [] route Hroute eq_refl
           (primary_of route) ltac:(apply elem_of_cons; left; reflexivity)).
Defined.

(** Excluding the provider of the first member leaves the other one. *)
Definition ex_rules : list ExclusionRule := [mkExclusionRule (ExcludeProvider "claude") SourceFlag].
Lemma exclusions_hold_witness :
  ∃ route, ex_resolve ex_pool_request None ex_rules = Ok route ∧ route_adapter route ≠ "claude".
Proof.
  destruct (ex_resolve_Ok ex_pool_request None ex_rules) as [route Hroute]; [vm_compute; reflexivity|].
  exists route. split; [exact Hroute|].
  destruct (exclusions_hold ex_pool_request ex_context None "op" 0 [] ex_rules route Hroute eq_refl
              (primary_of route) ltac:(apply elem_of_cons; left; reflexivity)) as (model & _ & _ & H & _).
  exact (H (mkExclusionRule (ExcludeProvider "claude") SourceFlag) ltac:(apply elem_of_cons; left; reflexivity)).
Defined.

Lemma ready_route_gated_witness :
  ∃ route, ex_resolve ex_pool_request None [] = Ok route ∧ is_ready (readiness route) = true ∧
    ∃ model a, a ∈ availability ex_context ∧ serves model a = true ∧
      gates_passed ex_context ex_pool_request model (route_effort route) a.
Proof.
  destruct (ex_resolve_Ok ex_pool_request None []) as [route Hroute]; [vm_compute; reflexivity|].
  assert (match ex_resolve ex_pool_request None [] with Ok r => is_ready (readiness r) | Err _ => false end = true)
    as Hready by (vm_compute; reflexivity).
  rewrite Hroute in Hready. exists route. split; [exact Hroute|]. split; [exact Hready|].
  destruct (readiness route) as [x ref e|] eqn:Hr; [|discriminate Hready].
  destruct (ready_route_gated ex_pool_request ex_context None "op" 0 [] [] route Hroute (primary_of route) x ref e
              ltac:(apply elem_of_cons; left; reflexivity) Hr) as (model & a & _ & _ & Ha & Hs & _ & Hg).
  exact (ex_intro _ model (ex_intro _ a (conj Ha (conj Hs Hg)))).
Defined.

Lemma chosen_account_used_witness :
  ∃ route, ex_resolve (ex_request (ChoiceModel ex_sonnet) false false FallbackNone) (Some "second") [] = Ok route ∧
    (route_account_key route = None ∨ route_account_key route = Some "second").
Proof.
  destruct (ex_resolve_Ok (ex_request (ChoiceModel ex_sonnet) false false FallbackNone) (Some "second") [])
    as [route Hroute]; [vm_compute; reflexivity|].
  exists route. split; [exact Hroute|].
  destruct (chosen_account_used _ ex_context "second" "op" 0 [] [] route Hroute) as (adapters & _ & Hin & H).
  exact (H (primary_of route) ltac:(apply elem_of_cons; left; reflexivity) Hin).
Defined.

Lemma writes_respect_read_only_witness :
  ∃ route, ex_resolve ex_pool_request None [] = Ok route ∧
    ∃ model, ModelId_parse (route_adapter route +:+ "/" +:+ route_model route) = Ok model.
Proof.
  destruct (ex_resolve_Ok ex_pool_request None []) as [route Hroute]; [vm_compute; reflexivity|].
  exists route. split; [exact Hroute|].
  destruct (writes_respect_read_only ex_pool_request ex_context None "op" 0 [] [] route Hroute eq_refl)
    as [(model & Hm & _) _].
  exact (ex_intro _ model Hm).
Defined.

(** ** A stale record hides an unknown account *)

Definition ex_anonymous (expires : Z) : AvailabilityRecord :=
  mkAvailabilityRecord 1 "claude" "/usr/bin/agent" "1.0" "fixture" "rev-1" None [] 1000 expires.
Definition ex_verdict (expires : Z) : option (bool * option string) :=
  match candidate ex_opus None (set_availability [ex_anonymous expires] ex_context) false
          (mkRouteIntent General true None false false) with
  | Ok r => Some (is_ready (alt_readiness r), alt_account_key r)
  | Err _ => None
  end.

(** An observation that names no account is refused while it is current and
    accepted once it has expired: staleness is set aside before the account is
    looked at, so the route is ready with no account. *)
Theorem stale_record_hides_account :
  ex_verdict 9000 = Some (false, None) ∧ ex_verdict 2000 = Some (true, None).
Proof. split; vm_compute; reflexivity. Qed.
