(* ===== verification/RoutingRules.v ===== *)
(** * RoutingRules: which rule decides, deadlines and pacing

    Theorems about [crates/routing/src/policy.rs] and the pacing half of
    [resolve.rs]: the policy in force is the one the most specific matching rule
    sets, deadlines print to what they were read from, and the factor of an
    account is the tightest of its windows. *)

From Stdlib Require Import Ascii SpecFloat.
From stdpp Require Import base option list strings sets pretty gmap sorting.
From S2P Require Import Prelude External ReviewPaths ReviewPolicy ReviewCheck Adapters Routes QuotaState QuotaAdmission QuotaReadiness RoutingTypes RoutingPolicy RoutingConfig RoutingPacing RoutingResolve RoutingPool RoutingExample.

Local Open Scope string_scope.
Local Open Scope list_scope.
Local Open Scope Z_scope.
Local Open Scope rust_scope.

(** ** Sorting *)

Lemma insert_sorted_perm {B} (key : B → list Z) x l : insert_sorted key x l ≡ₚ x :: l.
Proof. induction l as [|y l IH]; simpl; [done|]. destruct (key_ltb _ _); [|done]. rewrite IH. apply Permutation_swap. Qed.
Lemma key_sort_perm {B} (key : B → list Z) l : sort_by key l ≡ₚ l.
Proof. induction l as [|x l IH]; simpl; [done|]. by rewrite insert_sorted_perm, IH. Qed.

Definition key_le {B} (key : B → list Z) (x y : B) : Prop := key_ltb (key y) (key x) = false.
Lemma insert_sorted_sorted {B} (key : B → list Z) x l :
  StronglySorted (key_le key) l → StronglySorted (key_le key) (insert_sorted key x l).
Proof.
  induction 1 as [|y l Hl IH Hy]; simpl; [repeat constructor|].
  destruct (key_ltb (key y) (key x)) eqn:Hxy.
  - constructor; [done|]. apply list.Forall_forall. intros z Hz. rewrite insert_sorted_perm in Hz.
    apply elem_of_cons in Hz as [->|Hz]; [by apply key_ltb_asym|]. by eapply list.Forall_forall in Hy.
  - constructor; [by constructor|]. constructor; [done|]. eapply list.Forall_impl; [exact Hy|].
    intros z Hz. by eapply key_le_trans.
Qed.
Lemma sort_by_sorted {B} (key : B → list Z) l : StronglySorted (key_le key) (sort_by key l).
Proof. induction l; simpl; [constructor|]. by apply insert_sorted_sorted. Qed.

Lemma key_le_antisym a b : key_ltb a b = false → key_ltb b a = false → length a = length b → a = b.
Proof.
  revert b. induction a as [|x a IH]; intros [|y b]; simpl; try done.
  rewrite !orb_false_iff, !Z.ltb_ge, !andb_false_iff, !Z.eqb_neq. intros [? H1] [? H2] [= Hlen].
  assert (x = y) as -> by lia. f_equal. apply IH; [by destruct H1|by destruct H2|done].
Qed.

(** ** Fields of a policy *)

Inductive Field : Type → Type :=
| F_comp_window : Field Z | F_comp_mode : Field CompactionMode | F_min_turns : Field Z
| F_read_share_target : Field f64 | F_price_multiplier : Field f64 | F_read_ratio : Field f64
| F_write_ratio : Field f64 | F_output_ratio : Field f64 | F_ttl_seconds : Field Z
| F_min_prefix : Field Z | F_context_window : Field Z | F_read_heavy_weight : Field Z
| F_max_context : Field Z | F_max_turns : Field Z | F_stop_early_ok : Field bool
| F_max_continuations : Field Z | F_read_only : Field bool | F_user_skills : Field UserSkillsMode
| F_check : Field bool | F_sections : Field (list string).
(** The two fields of the result fallback are apart: an unusable fallback is
    dropped after the rules are applied. *)

Definition get_field {B} (f : Field B) (p : ModelPolicy) : option B :=
  match f in Field B return option B with
  | F_comp_window => comp_window (compaction p) | F_comp_mode => comp_mode (compaction p)
  | F_min_turns => min_turns (compaction p)
  | F_read_share_target => read_share_target (cache p) | F_price_multiplier => price_multiplier (cache p)
  | F_read_ratio => read_ratio (cache p) | F_write_ratio => write_ratio (cache p)
  | F_output_ratio => output_ratio (cache p) | F_ttl_seconds => ttl_seconds (cache p)
  | F_min_prefix => min_prefix (cache p) | F_context_window => context_window (cache p)
  | F_read_heavy_weight => read_heavy_weight (cache p)
  | F_max_context => max_context (lane p) | F_max_turns => max_turns (lane p)
  | F_stop_early_ok => stop_early_ok (lane p) | F_max_continuations => max_continuations (lane p)
  | F_read_only => read_only (lane p) | F_user_skills => lane_user_skills (lane p)
  | F_check => result_check (policy_result p) | F_sections => sections (policy_result p)
  end.

Lemma overlay_field {B} (f : Field B) base patch :
  get_field f (overlay base patch) = over (get_field f base) (get_field f patch).
Proof. by destruct f. Qed.

Section Rules.
Context {T : Jiff} {C : Civil} {A : RoutingAssets}.
Implicit Types (l : list (nat * ModelPolicyRule)).

Definition lay (p : ModelPolicy) (e : nat * ModelPolicyRule) : ModelPolicy := overlay p (rule_policy e.2).

Lemma apply_rules_lay self p src model account at_ :
  (apply_rules self p src model account at_).1 = fold_left lay (matching_rules self model account at_) p.
Proof.
  unfold apply_rules. generalize (matching_rules self model account at_). intros l. revert p src.
  induction l as [|[i r] l IH]; intros p src; simpl; [done|]. by rewrite IH.
Qed.

Lemma lay_unset {B} (f : Field B) l p :
  (∀ e, e ∈ l → get_field f (rule_policy e.2) = None) → get_field f (fold_left lay l p) = get_field f p.
Proof.
  revert p. induction l as [|e l IH]; intros p H; simpl; [done|].
  rewrite IH by set_solver. unfold lay. rewrite overlay_field, H by set_solver. done.
Qed.

Lemma matching_rules_elem self model account at_ i r :
  (i, r) ∈ matching_rules self model account at_ ↔
  self !! i = Some r ∧ rule_matches r model account at_ = true.
Proof.
  unfold matching_rules. rewrite key_sort_perm, bfilter_elem. apply and_iff_compat_r.
  rewrite elem_of_lookup_imap. naive_solver.
Qed.
Lemma matching_rules_nodup self model account at_ : NoDup (fst <$> matching_rules self model account at_).
Proof.
  unfold matching_rules. rewrite key_sort_perm.
  assert (NoDup (fst <$> imap pair self)) as Hnd.
  { assert (fst <$> imap pair self = seq 0 (length self)) as ->; [|apply NoDup_seq].
    apply list_eq. intros i. rewrite list_lookup_fmap, list_lookup_imap. destruct (decide (i < length self)%nat) as [Hi|Hi].
    - destruct (lookup_lt_is_Some_2 _ _ Hi) as [x ->]. simpl. symmetry. by apply lookup_seq.
    - rewrite !lookup_ge_None_2; [done|rewrite length_seq; lia|lia]. }
  revert Hnd. generalize (imap pair self). intros l. clear. induction l as [|[i r] l IH]; [done|].
  rewrite fmap_cons. intros [Hi Hnd]%list.NoDup_cons. simpl. destruct (rule_matches r model account at_); [|by apply IH].
  rewrite fmap_cons. apply list.NoDup_cons. split; [|by apply IH]. intros ([j s] & Hj & Hin)%list_elem_of_fmap.
  apply Hi. apply bfilter_elem in Hin as [Hin _]. apply list_elem_of_fmap. by exists (j, s).
Qed.

(** Rule [j] does not outrank rule [i]: by scope, then by position. *)
Definition outranked (r r' : ModelPolicyRule) (i j : nat) : Prop :=
  rule_scope r' < rule_scope r ∨ (rule_scope r' = rule_scope r ∧ (j ≤ i)%nat).

(** The rule no other matching rule that sets the field outranks decides it. *)
Lemma lay_decided {B} (f : Field B) self p model account at_ i r b :
  self !! i = Some r → rule_matches r model account at_ = true → get_field f (rule_policy r) = Some b →
  (∀ j r', self !! j = Some r' → rule_matches r' model account at_ = true →
     get_field f (rule_policy r') ≠ None → outranked r r' i j) →
  get_field f (fold_left lay (matching_rules self model account at_) p) = Some b.
Proof.
  intros Hi Hm Hb Hout. pose proof (matching_rules_nodup self model account at_) as Hnd.
  pose proof (sort_by_sorted (λ '(index, r), [rule_scope r; Z.of_nat index])
    (List.filter (λ '(_, rule), rule_matches rule model account at_) (imap pair self))) as Hsorted.
  fold (matching_rules self model account at_) in Hsorted.
  assert ((i, r) ∈ matching_rules self model account at_) as Hin by (by apply matching_rules_elem).
  assert (∀ e, e ∈ matching_rules self model account at_ → self !! e.1 = Some e.2 ∧ rule_matches e.2 model account at_ = true) as Hall.
  { intros [j r'] Hj. by apply matching_rules_elem in Hj. }
  apply list_elem_of_split in Hin as (l1 & l2 & Heq). rewrite Heq in *. clear Heq.
  rewrite fold_left_app. simpl. rewrite lay_unset; [unfold lay; simpl; rewrite overlay_field, Hb; done|].
  intros [j r'] Hj. simpl. destruct (get_field f (rule_policy r')) eqn:Hr'; [exfalso|done].
  destruct (Hall (j, r')) as [Hjl Hjm]; [set_solver|]. simpl in Hjl, Hjm.
  specialize (Hout j r' Hjl Hjm ltac:(by rewrite Hr')).
  assert (key_ltb [rule_scope r'; Z.of_nat j] [rule_scope r; Z.of_nat i] = false) as Hle.
  { clear -Hsorted Hj. induction l1 as [|e l1 IH]; simpl in Hsorted; apply StronglySorted_inv in Hsorted as [Hs Hf]; [|by apply IH].
    eapply list.Forall_forall in Hf; [|exact Hj]. done. }
  simpl in Hle. rewrite !orb_false_iff, Z.ltb_ge, !andb_false_iff, Z.eqb_neq, orb_false_iff, Z.ltb_ge in Hle.
  assert (j = i) as ->.
  { destruct Hout as [?|[? ?]]; [lia|]. destruct Hle as [? [?|[? _]]]; lia. }
  rewrite fmap_app, fmap_cons in Hnd. apply list.NoDup_app in Hnd as (_ & _ & Hnd).
  apply list.NoDup_cons in Hnd as [Hnot _]. apply Hnot. apply list_elem_of_fmap. by exists (i, r').
Qed.

Lemma effective_field {B} (f : Field B) self model account at_ :
  get_field f (policy (effective self model account at_)) =
  get_field f (fold_left lay (matching_rules (rules self) model (policy_account model account) at_)
    (overlay (if bundled self then bundled_policy model at_ else ModelPolicy_default) (defaults self))).
Proof.
  unfold effective. cbv zeta. rewrite <-apply_rules_lay with (src := [if bundled self then "bundled + defaults" else "defaults"]).
  destruct (apply_rules _ _ _ _ _ _) as [p src]. simpl. destruct (result_fallback _); [|done].
  destruct (match bundled_catalogue with Ok _ => _ | Err _ => _ end); [|done]. by destruct f.
Qed.

(** The policy in force is decided rule by rule, scope before position.  For
    every field of a model policy: the matching rule that sets it and that no
    other matching rule setting it outranks decides its value; a rule outranks
    another if its scope (account over model over adapter) is narrower, or the
    same with a later position.  Where no matching rule sets the field it is the
    configured default, and failing that the bundled policy's. *)
Theorem policy_rule_precedence {B} (f : Field B) self model account at_ :
  let matching r := rule_matches r model (policy_account model account) at_ = true in
  let value := get_field f (policy (effective self model account at_)) in
  (∀ i r b, rules self !! i = Some r → matching r → get_field f (rule_policy r) = Some b →
     (∀ j r', rules self !! j = Some r' → matching r' → get_field f (rule_policy r') ≠ None → outranked r r' i j) →
     value = Some b) ∧
  ((∀ i r, rules self !! i = Some r → matching r → get_field f (rule_policy r) = None) →
   value = match get_field f (defaults self) with
           | Some b => Some b
           | None => if bundled self then get_field f (bundled_policy model at_) else None
           end).
Proof.
  cbv zeta. rewrite effective_field. split.
  - intros i r b Hi Hm Hb Hout. by eapply lay_decided.
  - intros Hnone. rewrite lay_unset.
    + rewrite overlay_field. unfold over. destruct (get_field f (defaults self)); [done|]. by destruct (bundled self), f.
    + intros [i r] [Hi Hm]%matching_rules_elem. by apply (Hnone i r).
Qed.
End Rules.

Lemma ex_rules_valid : rule_matches ex_read_only ex_opus (Some "second") (2000 : Timestamp) = true.
Proof. vm_compute. reflexivity. Qed.
Lemma policy_rule_precedence_witness :
  get_field F_read_only (policy (effective (model_policy ex_config) ex_opus (Some "second") (2000 : Timestamp))) = Some true.
Proof.
  refine (proj1 (policy_rule_precedence F_read_only (model_policy ex_config) ex_opus (Some "second") (2000 : Timestamp))
            0%nat ex_read_only true eq_refl ex_rules_valid eq_refl _).
  intros [|j] r' Hj _ _; [injection Hj as <-; right; split; [reflexivity|constructor]|discriminate Hj].
Defined.

(** ** Deadlines *)

Section Deadlines.
Context {T : Jiff} {C : Civil}.

Definition reads_back (d : FixedDeadline) : bool :=
  match FixedDeadline_parse (FixedDeadline_display d), d with
  | Some (Weekly w h m), Weekly w' h' m' => (w =? w') && (h =? h') && (m =? m')
  | Some (MonthlyDay d), MonthlyDay d' => d =? d'
  | _, _ => false
  end.
Lemma reads_back_eq d : reads_back d = true → FixedDeadline_parse (FixedDeadline_display d) = Some d.
Proof.
  unfold reads_back. intros H. destruct (FixedDeadline_parse (FixedDeadline_display d)) as [[w h m|x|t]|]; [..|done];
    destruct d; try done.
  - rewrite !andb_true_iff, !Z.eqb_eq in H. by destruct H as [[-> ->] ->].
  - by apply Z.eqb_eq in H as ->.
Qed.
Lemma weekly_reads_back w h m : 0 ≤ w < 7 → 0 ≤ h < 24 → 0 ≤ m < 60 → reads_back (Weekly w h m) = true.
Proof.
  intros Hw Hh Hm.
  assert (forallb (λ w, forallb (λ h, forallb (λ m, reads_back (Weekly w h m)) (seqZ 0 60)) (seqZ 0 24)) (seqZ 0 7) = true)
    as H by (vm_compute; reflexivity).
  rewrite forallb_elem in H. specialize (H w ltac:(apply elem_of_seqZ; lia)).
  rewrite forallb_elem in H. specialize (H h ltac:(apply elem_of_seqZ; lia)).
  rewrite forallb_elem in H. exact (H m ltac:(apply elem_of_seqZ; lia)).
Qed.
Lemma monthly_reads_back d : 1 ≤ d ≤ 31 → reads_back (MonthlyDay d) = true.
Proof.
  intros Hd. assert (forallb (λ d, reads_back (MonthlyDay d)) (seqZ 1 31) = true) as H by (vm_compute; reflexivity).
  rewrite forallb_elem in H. exact (H d ltac:(apply elem_of_seqZ; lia)).
Qed.

(** C37: A weekly or monthly pacing deadline survives being written out: whatever
    text was accepted, the deadline it was read as prints to a text that is
    accepted as the same deadline, with a weekday, hour, minute and day in
    range.  (Absolute deadlines print and parse in the time library.) *)
Theorem deadline_roundtrip text d :
  FixedDeadline_parse text = Some d →
  match d with
  | Weekly w h m => 0 ≤ w < 7 ∧ 0 ≤ h < 24 ∧ 0 ≤ m < 60 ∧ FixedDeadline_parse (FixedDeadline_display d) = Some d
  | MonthlyDay day => 1 ≤ day ≤ 31 ∧ FixedDeadline_parse (FixedDeadline_display d) = Some d
  | Absolute _ => DateTime_parse text = match d with Absolute t => Some t | _ => None end
  end.
Proof.
  intros Hd.
  assert (match d with
          | Weekly w h m => 0 ≤ w < 7 ∧ 0 ≤ h < 24 ∧ 0 ≤ m < 60
          | MonthlyDay day => 1 ≤ day ≤ 31
          | Absolute t => DateTime_parse text = Some t
          end) as Hrange.
  { unfold FixedDeadline_parse in Hd. destruct (split_whitespace text) as [|day [|time [|]]]; [done| |..|done].
    - apply fmap_Some in Hd as (t & Ht & ->). done.
    - destruct (contains WEEKDAYS day).
      + destruct (split_once _ time) as [[hour minute]|]; [|done]. destruct (_ && _); [|done].
        destruct (parse_i8 hour) as [h|], (parse_i8 minute) as [m|]; try done.
        destruct (_ && _) eqn:Hb; [|done]. injection Hd as <-.
        rewrite !andb_true_iff, !Z.leb_le, !Z.ltb_lt in Hb.
        assert (unwrap_or (position (λ d, d == day) WEEKDAYS) 0%nat < 7)%nat as Hi;
          [|split; [|lia]; split; [lia|exact (proj1 (Nat2Z.inj_lt _ 7) Hi)]].
        destruct (position (λ d, d == day) WEEKDAYS) as [i|] eqn:Hi; simpl; [|lia].
        apply position_Some in Hi as (x & Hx & _). by apply lookup_lt_Some in Hx.
      + destruct (day == "day"); [|done]. destruct (parse_i8 time) as [x|]; [|done].
        destruct (_ && _) eqn:Hb; [|done]. injection Hd as <-. rewrite andb_true_iff, !Z.leb_le in Hb. lia. }
  destruct d as [w h m|day|t]; [|..|done].
  - destruct Hrange as (Hw & Hh & Hm). do 3 (split; [done|]). exact (reads_back_eq _ (weekly_reads_back w h m Hw Hh Hm)).
  - split; [done|]. exact (reads_back_eq _ (monthly_reads_back day Hrange)).
Qed.
End Deadlines.

Lemma deadline_roundtrip_witness :
  FixedDeadline_parse (FixedDeadline_display (Weekly 3 0 0)) = Some (Weekly 3 0 0).
Proof. exact (proj2 (proj2 (proj2 (deadline_roundtrip " thu  +0:00 " (Weekly 3 0 0) eq_refl)))). Defined.

(** ** Pacing *)

Section PacingTheorems.
Context {J : Json} {T : Jiff} {C : Civil} {A : RoutingAssets} {F : Fmt}.

(** What the windows of the observation in force pace an account to. *)
Definition paced_window (model : ModelId) (account : option string) (context : RoutingContext)
    (window : QuotaWindow) (r : Z * string * bool) : Prop :=
  ∃ o, paced_observation model account context = Some o ∧ window ∈ windows (q_snapshot o) ∧
    selected_window window (profile_of context model account) (id_adapter model)
      (quota_pool (catalogue context) model) = true ∧
    pace_window (q_snapshot o) (now_seconds context) (profile_of context model account) (id_adapter model)
      (quota_pool (catalogue context) model) context window = Some r.

(** A paced account is held to its tightest window.  Under the pacing policy
    the factor lies between a quarter and twice the neutral one, is at most that
    of every selected window of the observation in force, and is that of one of
    them; one window past its deadline puts the account on standby, with factor
    zero; without any paced window the account is neutral.  Under any other
    policy it is neutral too. *)
Theorem pacing_binds_tightest model account context policy f d standby :
  pacing_factor_basis_points policy model account context = (f, d, standby) →
  (policy ≠ Pace → f = NEUTRAL_FACTOR_BASIS_POINTS ∧ standby = false) ∧
  (standby = false → PACE_MIN_BASIS_POINTS ≤ f ≤ PACE_MAX_BASIS_POINTS) ∧
  (standby = true → f = 0) ∧
  (policy = Pace →
     (∀ window g text s, paced_window model account context window (g, text, s) →
        (s = true → standby = true) ∧ (standby = false → f ≤ g)) ∧
     ((∃ window g text, paced_window model account context window (g, text, standby) ∧ (standby = false → f = g)) ∨
      (f = NEUTRAL_FACTOR_BASIS_POINTS ∧ standby = false ∧
       ¬ ∃ window r, paced_window model account context window r))).
Proof.
  intros H. pose proof (pacing_factor_range _ _ _ _ _ _ _ H) as Hrange.
  split_and!; [..|destruct standby; [done|by intros _]|by destruct standby|].
  { intros Hne. unfold pacing_factor_basis_points in H. cbv zeta in H. rewrite bool_decide_false in H by done.
    by injection H as <- _ <-. }
  intros ->. unfold pacing_factor_basis_points in H. cbv zeta in H. rewrite bool_decide_true in H by done. cbn [negb] in H.
  destruct (paced_observation model account context) as [o|] eqn:Ho; cbn in H.
  2:{ injection H as <- _ <-. split; [|right; split_and!; try done]; [intros ???? (? & ? & _)|intros (?&?&?&?&_)]; congruence. }
  assert (∀ w r, paced_window model account context w r →
    r ∈ omap (pace_window (q_snapshot o) (now_seconds context) (profile_of context model account) (id_adapter model)
          (quota_pool (catalogue context) model) context)
          (List.filter (λ w, selected_window w (profile_of context model account) (id_adapter model)
             (quota_pool (catalogue context) model)) (windows (q_snapshot o)))) as Hin.
  { intros w r (o' & Ho' & Hw & Hs & Hr). assert (o' = o) as -> by congruence. apply list_elem_of_omap. exists w.
    split; [|done]. by apply bfilter_elem. }
  destruct (pace_snapshot_factor _ _ _ _ _ _) as [[[g0 t0] s0]|] eqn:Hf.
  - injection H as <- _ <-. split.
    + intros w g t s Hw%Hin. pose proof (min_by_key_least _ _ _ _ Hf Hw) as Hle. simpl in Hle.
      destruct s0, s; simpl in Hle; try done. apply orb_false_iff in Hle as [Hle _]. apply Z.ltb_ge in Hle. done.
    + left. apply pace_snapshot_inv in Hf as (w & Hw & Hs & Hp). exists w, g0, t0. split; [by exists o|]. by destruct s0.
  - injection H as <- _ <-. unfold pace_snapshot_factor in Hf.
    assert (∀ w r, ¬ paced_window model account context w r) as Hno.
    { intros w r Hw%Hin. revert Hf Hw. generalize (omap (pace_window (q_snapshot o) (now_seconds context)
        (profile_of context model account) (id_adapter model) (quota_pool (catalogue context) model) context)
        (List.filter (λ w, selected_window w (profile_of context model account) (id_adapter model)
             (quota_pool (catalogue context) model)) (windows (q_snapshot o)))). intros l Hmin Hr.
      destruct l as [|x l]; [by apply elem_of_nil in Hr|]. clear -Hmin. unfold min_by_key in Hmin. simpl in Hmin.
      revert x Hmin. induction l as [|y l IH]; intros x; simpl; [done|]. case_match; apply IH. }
    split; [by intros ???? ?%Hno|]. right. split_and!; try done. by intros (?&?&?%Hno).
Qed.
End PacingTheorems.

Lemma pacing_binds_tightest_witness :
  ∃ f d, pacing_factor_basis_points Pace ex_sonnet (Some "first") ex_context = (f, d, false) ∧
    PACE_MIN_BASIS_POINTS ≤ f ≤ PACE_MAX_BASIS_POINTS ∧ f = 4000.
Proof.
  exists 4000, "source=bundled policy=Pace window=five_hour deadline=11000".
  assert (pacing_factor_basis_points Pace ex_sonnet (Some "first") ex_context =
    (4000, "source=bundled policy=Pace window=five_hour deadline=11000", false)) as H by (vm_compute; reflexivity).
  split; [exact H|]. split; [|reflexivity].
  exact (proj1 (proj2 (pacing_binds_tightest ex_sonnet (Some "first") ex_context Pace _ _ false H)) eq_refl).
Defined.
