(* ===== verification/RoutingViews.v ===== *)
(** * RoutingViews: what routing shows

    Models the read side of [crates/routing/src/]: the listing of models, pools
    and pacing with its valid pairs of model and effort ([resolve.rs], [list]),
    the pacing preview, and the guidance a model policy gives ([policy.rs]).
    The theorems say what a listed pair and a listed member are good for. *)

From Stdlib Require Import Ascii SpecFloat.
From stdpp Require Import base option list strings sets pretty gmap.
From S2P Require Import Prelude External ReviewPaths ReviewPolicy ReviewCheck Adapters Routes QuotaState QuotaAdmission QuotaReadiness RoutingTypes RoutingPolicy RoutingConfig RoutingPacing RoutingResolve RoutingPool RoutingExample.

Local Open Scope string_scope.
Local Open Scope list_scope.
Local Open Scope Z_scope.
Local Open Scope rust_scope.

(** [collect::<BTreeSet<(&str, &str)>>]. *)
Definition pair_ltb (a b : string * string) : bool :=
  String.ltb a.1 b.1 || ((a.1 == b.1) && String.ltb a.2 b.2).
Fixpoint insert_pair (x : string * string) (l : list (string * string)) : list (string * string) :=
  match l with
  | [] => [x]
  | y :: l' => if x == y then l else if pair_ltb x y then x :: l else y :: insert_pair x l'
  end.
Definition pair_set (l : list (string * string)) : list (string * string) := foldr insert_pair [] l.

Record RouteListQuery := mkRouteListQuery {
  query_valid : bool;
  query_adapter : option string;
  query_pool : option string;
}.

Record ValidRoutePair := mkValidRoutePair { pair_model : ModelId; pair_effort : option string }.
Record RoutePoolMemberView := mkRoutePoolMemberView {
  view_model : ModelId;
  view_weight : Z;
  view_effort : option string;
  view_efforts : list string;
  view_free : bool;
  view_pacing : PacingPolicy;
}.

(** [policies.extend(..)] on a map. *)
Definition extend_map {B} (base more : list (string * B)) : list (string * B) :=
  fold_left (λ m '(key, value), insert_key key value m) more base.

Section Views.
Context {J : Json} {X : JsonText} {T : Jiff} {C : Civil} {A : RoutingAssets} {F : Fmt}.

Record AccountPacingView := mkAccountPacingView {
  shown_adapter : string;
  shown_account : string;
  shown_policy : PacingPolicy;
  shown_source : string;
  shown_profile : option PacingProfile;
  shown_expires : option Timestamp;
}.

Record RouteList := mkRouteList {
  valid_pairs : list ValidRoutePair;
  list_revision : string;
  list_models : list ModelEntry;
  named_routes : list (string * Route);
  list_pools : list (string * list RoutePoolMemberView);
  list_pacing : list (string * PacingPolicy);
  account_pacing : list AccountPacingView;
  configured_accounts : list (string * PacingProfile);
  configured_free : list (string * PacingProfile);
  active_overrides : list PacingOverride;
  list_exclusions : list ModelExclusion;
  list_notes : list string;
}.

Definition effective_pacing (catalogue : Catalogue) (config : RoutingConfig) : list (string * PacingPolicy) :=
  extend_map (cat_pacing catalogue) (providers (pacing config)).

(** [matches]: the adapter the query asks for. *)
Definition query_matches (query : RouteListQuery) (adapter : string) : bool :=
  is_none_or (query_adapter query) (λ wanted, wanted == adapter).

(** One member of a pool that is shown. *)
Definition member_view (context : RoutingContext) (member : RoutePoolMember)
    : result RoutingError RoutePoolMemberView :=
  if is_none (cat_model (catalogue context) (member_model member)) then Err ErrCatalogue
  else
    _ ← admissible (member_model member) (member_effort member) context;
    Ok (mkRoutePoolMemberView (member_model member) (member_weight member) (member_effort member)
          (member_efforts member) (is_free_model (catalogue context) (member_model member))
          (pacing_policy (catalogue context) (config context) (member_model member))).

(** One pool: its entry of the map, if any. *)
Definition pool_view (query : RouteListQuery) (context : RoutingContext) (name : string)
    : result RoutingError (list (string * list RoutePoolMemberView)) :=
  if is_some_and (query_pool query) (λ pool, pool != name) then Ok []
  else
    match effective_pool context name with
    | None => Ok []
    | Some members =>
        views ← collect (List.map (member_view context)
                  (List.filter (λ member, query_matches query (id_adapter (member_model member))) members));
        Ok (if negb (bool_decide (length views = 0%nat)) || (query_pool query == Some name)
            then [(name, views)] else [])
    end.
Definition pool_views (query : RouteListQuery) (context : RoutingContext)
    : result RoutingError (list (string * list RoutePoolMemberView)) :=
  views ← collect (List.map (pool_view query context) (effective_pool_names context));
  Ok (List.concat views).

Definition entry_pairs (context : RoutingContext) (entry : ModelEntry) : list ValidRoutePair :=
  if negb (is_ok (check_go_allowance (entry_model entry) (config context) (catalogue context))) then []
  else
    List.map (mkValidRoutePair (entry_model entry))
      (List.filter (λ effort, is_ok (admissible (entry_model entry) effort context))
         (None :: List.map Some (entry_efforts entry))).
Definition pairs_of (query : RouteListQuery) (context : RoutingContext)
    (pools : list (string * list RoutePoolMemberView)) : list ValidRoutePair :=
  flat_map (entry_pairs context)
    (List.filter (λ entry,
         query_matches query (id_adapter (entry_model entry))
         && (is_none (query_pool query)
             || existsb (λ member, view_model member == entry_model entry) (flat_map snd pools)))
       (models (catalogue context))).

(** The accounts seen, each with the pacing of the first model it serves. *)
Definition seen_accounts (context : RoutingContext) : list (string * string) :=
  pair_set (omap (λ a, pair (av_adapter a) <$> av_account_key a) (availability context)
            ++ List.map (λ q, (QuotaState.adapter (snap_account (q_snapshot q)),
                               account_key (snap_account (q_snapshot q)))) (quota context)).
Definition pacing_view (query : RouteListQuery) (context : RoutingContext) (seen : string * string)
    : option AccountPacingView :=
  let '(adapter, account) := seen in
  if negb (query_matches query adapter) then None
  else
    entry ← List.find (λ m,
        (id_adapter (entry_model m) == adapter)
        && is_none_or (Adapters.get adapter) (λ spec, account_serves_model spec account (id_model (entry_model m))))
      (models (catalogue context));
    let '(policy, profile, source, expiry) := effective_profile context (entry_model entry) (Some account) in
    Some (mkAccountPacingView adapter account policy source profile expiry).

Definition list_routes (query : RouteListQuery) (context : RoutingContext) : result RoutingError RouteList :=
  _ ← context_validate context;
  if is_some_and (query_adapter query) (λ adapter, negb (contains (registry context) adapter)) then Err UnknownAdapter
  else if is_some_and (query_pool query) (λ name, is_none (effective_pool context name)) then Err UnknownRoute
  else
    pools ← pool_views query context;
    let valid := query_valid query in
    Ok (mkRouteList
          (if valid then pairs_of query context pools else [])
          (cat_revision (catalogue context))
          (List.filter (λ m, negb valid && query_matches query (id_adapter (entry_model m))) (models (catalogue context)))
          (List.filter (λ '(_, r), negb valid && query_matches query (id_adapter (route_id r))) (routes (config context)))
          (if valid then [] else pools)
          (effective_pacing (catalogue context) (config context))
          (omap (pacing_view query context) (seen_accounts context))
          (accounts (pacing (config context))) (free (pacing (config context)))
          (List.filter (λ o, Schedule_active (override_schedule o) (now context)) (pacing_overrides (config context)))
          (model_exclusions (config context)) (exclusion_notes (config context))).

(** ** The preview *)

Record PacingPreview := mkPacingPreview {
  preview_account : option string;
  preview_policy : PacingPolicy;
  preview_factor : Z;
  preview_detail : string;
}.

(** The set of accounts: no account comes before every key. *)
Definition preview_accounts (model : ModelId) (context : RoutingContext) : list (option string) :=
  let served := serving_accounts model context in
  let of_quota :=
    List.map (λ q, account_key (snap_account (q_snapshot q)))
      (List.filter (λ q,
           (QuotaState.adapter (snap_account (q_snapshot q)) == id_adapter model)
           && is_none_or (Adapters.get (id_adapter model)) (λ spec,
                account_serves_model spec (account_key (snap_account (q_snapshot q))) (id_model model)))
         (quota context)) in
  let found :=
    (if existsb (λ a, is_none (av_account_key a)) served then [None] else [])
    ++ List.map Some (btree_set (of_quota ++ omap av_account_key served)) in
  if bool_decide (length found = 0%nat) then [None] else found.
Definition pacing_preview (model : ModelId) (context : RoutingContext) : list PacingPreview :=
  List.map (λ account,
      let policy := policy_of context model account in
      let '(factor, detail, _) := pacing_factor_basis_points policy model account context in
      mkPacingPreview account policy factor detail)
    (preview_accounts model context).

(** ** Guidance *)

Definition guidance (self : ModelPolicy) : string :=
  let c := compaction self in
  let debug n := match n with Some n => "Some(" +:+ pretty (n : Z) +:+ ")" | None => "None" end in
  join (String LF EmptyString)
    (match comp_window c ≫= λ window, break_even_turns self window 15000 0 with
     | Some turns => ["Compaction payback estimate: " +:+ display_tenths turns +:+ " future turns for a 15k summary and zero rework. Rework raises this estimate; use judgement at the task boundary."]
     | None => []
     end
     ++ match comp_mode c with
        | Some TaskBoundary => ["Compact deliberately at a task boundary while the cache is warm, after at least " +:+ pretty (unwrap_or (min_turns c) 0) +:+ " turns. Prefer a fresh lane with a handoff over repeated compaction. Compaction window guidance: " +:+ debug (comp_window c) +:+ " tokens."]
        | Some CompactNever => ["Do not deliberately compact; hand off to a fresh lane when needed."]
        | _ => []
        end
     ++ match max_context (lane self) with
        | Some context => ["Hand off at a task boundary before " +:+ pretty context +:+ " context tokens."]
        | None => []
        end
     ++ match max_turns (lane self) with
        | Some turns => ["Finish or hand off within " +:+ pretty turns +:+ " turns."]
        | None => []
        end
     ++ (if stop_early_ok (lane self) == Some false then
           ["Carry the task to completion. Keep the schema v2 handoff current and repeat it as the final fenced handoff block. Use status done when finished, stopped_early when work remains, or blocked when a decision or external change is needed."]
         else [])
     ++ match sections (policy_result self) with
        | Some (section :: rest) => ["Your final answer must include these exact section lines: " +:+ join ", " (section :: rest)]
        | _ => []
        end
     ++ match ttl_seconds (cache self) with
        | Some ttl => ["Cache planning TTL: " +:+ pretty ttl +:+ " seconds; reuse stable prefixes while warm. This is a routing assumption, not a provider TTL control."]
        | None => []
        end
     ++ match min_prefix (cache self) with
        | Some prefix => ["Keep at least " +:+ pretty prefix +:+ " stable prefix tokens when useful."]
        | None => []
        end).

(** [cache_read_share], [policy.rs]. *)
Definition cache_read_share (input read write : option Z) : option f64 :=
  input ← input; read ← read; write ← write;
  let total := input + read + write in
  if 0 <? total then Some (f64_div (f64_from read) (f64_from total)) else None.

(** ** What a listed pair is good for *)

Lemma pairs_of_elem query context pools p :
  p ∈ pairs_of query context pools →
  check_go_allowance (pair_model p) (config context) (catalogue context) = Ok tt ∧
  ∃ entry, admissible (pair_model p) (pair_effort p) context = Ok entry.
Proof.
  unfold pairs_of, entry_pairs. rewrite list_elem_of_In, in_flat_map. intros (entry & _ & Hp).
  destruct (check_go_allowance _ _ _) as [[]|] eqn:Hgo; [|done]. cbn [is_ok negb] in Hp.
  rewrite in_map_iff in Hp. destruct Hp as (effort & <- & He). rewrite filter_In in He. destruct He as [_ He].
  simpl. split; [done|]. by apply is_ok_true in He.
Qed.

Lemma model_id_parts m :
  ModelId_parse (id_str m) = Ok m → ModelId_parse (id_adapter m +:+ "/" +:+ id_model m) = Ok m.
Proof.
  intros H. unfold ModelId_parse in H. unfold id_adapter, id_model.
  destruct (split_once _ (id_str m)) as [[a b]|] eqn:Hs; [|done].
  assert (id_str m = a +:+ "/" +:+ b) as <- by (by apply split_once_Some in Hs as [-> _]). unfold ModelId_parse. by rewrite Hs.
Qed.

Lemma candidate_refuses model effort context avoid intent e :
  (∃ entry, admissible model effort context = Ok entry) →
  candidate model effort context avoid intent = Err e →
  e = ReadOnlyPolicy ∨ ∃ why, e = ErrUnsupportedLaunch why.
Proof.
  intros (entry & Ha). unfold candidate. rewrite Ha. cbn [mbind result_bind].
  fold (launch_checked model effort intent). destruct (launch_checked model effort intent) as [[]|e'] eqn:Hl; cbn.
  - destruct (_ && _); [|done]. intros [= <-]. by left.
  - intros [= <-]. right. unfold launch_checked in Hl. repeat case_match; simplify_eq. eauto.
Qed.

(** A pair of model and effort the listing calls valid can be asked for: an
    exact request for it, without fallback, in the same context is refused only
    because the host policy keeps the model to reading, because the launch needs
    a capability the adapter lacks, or because the work is confidential.  In
    particular neither the adapter nor the effort is refused, and the monthly
    allowance is no bar. *)
Theorem listed_pair_resolves query context l p request op index e :
  list_routes query context = Ok l → p ∈ valid_pairs l →
  choice request = ChoiceModel (pair_model p) → effort request = pair_effort p → fallback request = FallbackNone →
  ModelId_parse (id_str (pair_model p)) = Ok (pair_model p) →
  check_go_allowance (pair_model p) (config context) (catalogue context) = Ok tt ∧
  (resolve_with_seed request context op index = Err e →
   e = ReadOnlyPolicy ∨ (∃ why, e = ErrUnsupportedLaunch why) ∨ (e = ConfidentialModel ∧ confidential request = true)).
Proof.
  intros Hl Hp Hc He Hf Hid. unfold list_routes in Hl. apply result_seq_Ok in Hl as [Hv Hl].
  destruct (is_some_and (query_adapter query) _); [done|]. destruct (is_some_and (query_pool query) _); [done|].
  apply result_bind_Ok in Hl as (pools & _ & [= <-]). cbn [valid_pairs] in Hp.
  destruct (query_valid query); [|by apply elem_of_nil in Hp].
  apply pairs_of_elem in Hp as [Hgo Hadm]. split; [done|].
  unfold resolve_with_seed, resolve_inner, resolve_primary. rewrite Hv, Hc, He. cbn [mbind result_bind].
  destruct (privacy_allowed _ _ _) eqn:Hpriv; cbn [negb mbind result_bind].
  2:{ intros [= <-]. right. right. split; [done|]. unfold privacy_allowed in Hpriv. by destruct (confidential request). }
  destruct (candidate _ _ _ _ _) as [r|e'] eqn:Hr; cbn [mbind result_bind].
  2:{ intros [= <-]. apply candidate_refuses in Hr as [?|?]; auto. }
  apply candidate_inv in Hr. rewrite (co_adapter _ _ _ _ _ Hr), (co_model _ _ _ _ _ Hr), model_id_parts by done.
  cbn [mbind result_bind]. unfold validate_intent. destruct (permits _ _); cbn [mbind result_bind].
  2:{ intros [= <-]. by left. }
  unfold fallback_models, resolve_alternatives. unfold fallback_models. rewrite Hf. done.
Qed.
End Views.

Definition ex_valid_query : RouteListQuery := mkRouteListQuery true (Some "claude") None.
Definition ex_pair_request : RouteRequest :=
  mkRouteRequest (mkRouteIntent General false None false false) (ChoiceModel ex_sonnet) (Some "high") false FallbackNone.

Definition ex_listed : list ValidRoutePair :=
  match list_routes ex_valid_query ex_context with Ok l => valid_pairs l | Err _ => [] end.

Lemma listed_pair_resolves_witness :
  mkValidRoutePair ex_sonnet (Some "high") ∈ ex_listed ∧
  resolve_with_seed ex_pair_request ex_context "op" 0 ≠ Err UnknownAdapter.
Proof.
  assert (mkValidRoutePair ex_sonnet (Some "high") ∈ ex_listed) as Hp.
  { assert (mkValidRoutePair ex_sonnet (Some "high") = nth 2 ex_listed (mkValidRoutePair ex_sonnet None)) as ->
      by (vm_compute; reflexivity).
    apply list_elem_of_In, nth_In. apply Nat.ltb_lt. vm_compute. reflexivity. }
  split; [exact Hp|]. intros H. unfold ex_listed in Hp.
  destruct (list_routes ex_valid_query ex_context) as [l|] eqn:Hl; [|by apply elem_of_nil in Hp].
  destruct (proj2 (listed_pair_resolves ex_valid_query ex_context l _ ex_pair_request "op" 0 UnknownAdapter
                     Hl Hp eq_refl eq_refl eq_refl eq_refl) H) as [?|[[??]|[??]]]; discriminate.
Defined.
