(* ===== verification/GraphModel.v ===== *)
(** * GraphModel: the checkpoint of a task graph

    Models the data of [crates/fabric-runtime/src/graph/model.rs] and
    [graph/observation.rs] (routes, attempts, node progress, the checkpoint, and
    of the plan the fields its scheduler reads) and the clipping of stored text
    ([bounded] of [graph/outputs.rs], [safe_text] of the records crate).

    A value of an open record ([ExtraFields]) is a [serde_json::Value].  Fields
    that no definition of the graph files reads or writes are left out of the
    records (the input manifest of an attempt, captured results, planner and loop
    pauses other than [expansion_pause]). *)

From Stdlib Require Import Ascii SpecFloat.
From stdpp Require Import base option list strings sets pretty gmap.
From S2P Require Import Prelude RoutingTypes.

Local Open Scope string_scope.
Local Open Scope list_scope.
Local Open Scope Z_scope.
Local Open Scope rust_scope.

(** ** Values of open records *)

Inductive Number := PosInt (n : Z) | NegInt (n : Z) | Float (x : f64).
#[export] Instance f64_eq_dec : EqDecision f64.
Proof. unfold f64. solve_decision. Defined.
#[export] Instance Number_eq_dec : EqDecision Number.
Proof. solve_decision. Defined.

Inductive Json :=
| JNull | JBool (b : bool) | JNumber (n : Number) | JString (s : string)
| JArray (l : list Json) | JObject (entries : list (string * Json)).

#[export] Instance Json_eq_dec : EqDecision Json.
Proof.
  unfold EqDecision. fix go 1. intros a b. pose (go : EqDecision Json).
  refine (match a, b with
          | JNull, JNull => left _
          | JBool x, JBool y => cast_if (decide (x = y))
          | JNumber x, JNumber y => cast_if (decide (x = y))
          | JString x, JString y => cast_if (decide (x = y))
          | JArray x, JArray y => cast_if (decide (x = y))
          | JObject x, JObject y => cast_if (decide (x = y))
          | _, _ => right _
          end); congruence.
Defined.

Abbreviation ExtraFields := (gmap string Json).

Definition as_u64 (v : Json) : option Z :=
  match v with JNumber (PosInt n) => Some n | _ => None end.
Definition as_bool (v : Json) : option bool :=
  match v with JBool b => Some b | _ => None end.
Definition as_str (v : Json) : option string :=
  match v with JString s => Some s | _ => None end.
(** [value["key"]]: null when the value is no object or has no such member. *)
Definition json_index (v : Json) (key : string) : Json :=
  match v with
  | JObject entries => unwrap_or (snd <$> List.find (λ e, fst e == key) entries) JNull
  | _ => JNull
  end.
Definition extra_u64 (extra : ExtraFields) (key : string) : Z :=
  unwrap_or (extra !! key ≫= as_u64) 0.
Definition extra_true (extra : ExtraFields) (key : string) : bool :=
  extra !! key == Some (JBool true).

Abbreviation WallTime := Z (only parsing).

(** ** Text kept in a checkpoint *)

Definition OUTPUT_FIELD_BYTES : Z := 1024.
Definition MAX_ADVANCE_ERROR_BYTES : Z := 2048.
Definition NOTE_BYTES : Z := 512.
Definition PAUSE_REASON_BYTES : Z := 4096.
Definition MAX_UNKNOWN_USAGE : nat := 64.
Definition MAX_USAGE_EVENTS : nat := 128.
Definition MAX_DIAGNOSTIC_BYTES : Z := 1024.

(** A character is the text of its UTF-8 bytes. *)
Definition encoded_char (character : string) : Z :=
  match character with
  | String c EmptyString =>
      let b := byte_of c in
      if existsb (Z.eqb b) [34; 92; 8; 9; 10; 12; 13] then 2
      else if b <=? 31 then 6 else 1
  | _ => str_len character
  end.
Fixpoint bounded_loop (used max : Z) (l : list string) : string :=
  match l with
  | [] => ""
  | character :: l' =>
      let used := used + encoded_char character in
      if max <? used then "" else character +:+ bounded_loop used max l'
  end.
Definition bounded (text : string) (max : Z) : string := bounded_loop 0 max (chars text).

Definition code_point (character : string) : Z :=
  match byte_of <$> String.list_ascii_of_string character with
  | [a] => a
  | [a; b] => (a mod 32) * 64 + b mod 64
  | [a; b; c] => (a mod 16) * 4096 + (b mod 64) * 64 + c mod 64
  | [a; b; c; d] => (a mod 8) * 262144 + (b mod 64) * 4096 + (c mod 64) * 64 + d mod 64
  | _ => 65533
  end.
Definition terminal_control (character : string) : bool :=
  let c := code_point character in
  let within lo hi := (lo <=? c) && (c <=? hi) in
  within 0 31 || within 127 159 || (c =? 1564) || within 8206 8207 || within 8234 8238
  || within 8294 8297.
Definition hex_digit (d : Z) : ascii :=
  ascii_of_nat (Z.to_nat (if d <? 10 then 48 + d else 87 + d)).
Fixpoint hex_loop (fuel : nat) (n : Z) (acc : string) : string :=
  match fuel with
  | O => acc
  | S fuel' =>
      let acc := String (hex_digit (n mod 16)) acc in
      if n <? 16 then acc else hex_loop fuel' (n / 16) acc
  end.
(** [char::escape_default] of a control character; a code point has at most six
    hexadecimal digits. *)
Definition escape_default (character : string) : string :=
  let c := code_point character in
  if c =? 9 then "\t" else if c =? 10 then "\n" else if c =? 13 then "\r"
  else "\u{" +:+ hex_loop 6 c "" +:+ "}".
Fixpoint safe_text_loop (output : string) (l : list string) : string :=
  match l with
  | [] => output
  | character :: l' =>
      let part := if terminal_control character then escape_default character else character in
      if MAX_DIAGNOSTIC_BYTES <? str_len output + str_len part then output
      else safe_text_loop (output +:+ part) l'
  end.
Definition safe_text (value : string) : string := safe_text_loop "" (chars value).

(** ** The plan *)

Inductive AccessMode := ReadOnly | WorktreeWrite.
#[export] Instance AccessMode_eq_dec : EqDecision AccessMode.
Proof. solve_decision. Defined.

Module NodeKind.
Inductive t := Composite | Task | Synthesise | Gate | Loop | Decide | Land.
#[global] Instance eq_dec : EqDecision t.
Proof. solve_decision. Defined.
End NodeKind.

Module OutputKind.
Inductive t := Result | Verdict | Findings | Branch | Commit | Remaining.
#[global] Instance eq_dec : EqDecision t.
Proof. solve_decision. Defined.
End OutputKind.

Inductive VerdictThreshold := All | Any | Majority | Count (n : Z).
Inductive GateCondition :=
| GateVerdict (expected : string) (threshold : VerdictThreshold)
| GateBudget
| GateCi.
Inductive SourceBinding :=
| SourceCommit (commit : string) | SourceNode (node : string) | SourceHead (node : string)
| SourceIntegration.

Record GraphInput := mkInput { in_node : string; in_outputs : list OutputKind.t }.
Record GraphRoute := mkRoute {
  ro_adapter : option string;
  ro_name : option string;
  ro_model : option string;
  ro_alias : option string;
  ro_effort : option string;
  ro_account : option string;
}.
Record LoopRound := mkRound {
  lr_loop_id : string;
  lr_round : Z;
  lr_node_id : string;
  lr_until : bool;
  lr_previous_gate : option string;
}.
(** Of a composite, its declared minimum. *)
Record CompositeSpec := mkComposite { cs_min_successful : option Z }.
Record PlannedNode := mkNode {
  pn_extra : ExtraFields;
  pn_auto_continue_no_work : option bool;
  pn_composite_members : list string;
  pn_composite : option CompositeSpec;
  pn_attempt_host : option string;
  pn_role : option string;
  pn_source : option SourceBinding;
  pn_after_expansion : list string;
  pn_loop_body : bool;
  pn_decide : bool;
  pn_continues : option string;
  pn_land : bool;
  pn_round : option LoopRound;
  pn_kind : option NodeKind.t;
  pn_condition : option GateCondition;
  pn_on_fail : option string;
  pn_access : AccessMode;
  pn_worktree : option string;
  pn_write_scope : list string;
  pn_id : string;
  pn_title : option string;
  pn_depends_on : list string;
  pn_advisory : bool;
  pn_inputs : list GraphInput;
  pn_routes : list GraphRoute;
  pn_required_verdict : option string;
  pn_skip_without_findings : option bool;
}.
Record PlannedGraph := mkPlan { pg_graph_id : string; pg_nodes : list PlannedNode }.

(** ** Attempts *)

Module NodeState.
Inductive t := Pending | Running | Succeeded | Failed | Blocked | Skipped.
#[global] Instance eq_dec : EqDecision t.
Proof. solve_decision. Defined.
End NodeState.
Definition settled (s : NodeState.t) : bool :=
  match s with NodeState.Pending | NodeState.Running => false | _ => true end.

Module AttemptState.
Inductive t := Starting | Running | Unresolved | Terminal.
#[global] Instance eq_dec : EqDecision t.
Proof. solve_decision. Defined.
End AttemptState.

Module AttemptOutcome.
Inductive t :=
| Succeeded | TaskFailed | DeclaredStop | StoppedNoWork | OtherFailure | ReviewRequired
| AuthRequired | UsageLimited | AdapterUnavailable | DeadlineExceeded.
#[global] Instance eq_dec : EqDecision t.
Proof. solve_decision. Defined.
End AttemptOutcome.

Record AttemptKey := mkKey {
  ak_extra : ExtraFields;
  ak_graph_id : string;
  ak_node_id : string;
  ak_route_index : Z;
}.
Record AttemptUsage := mkUsage {
  au_tokens : option Z;
  au_cost_micro_usd : option Z;
  au_wall_time_seconds : option Z;
  au_tokens_partial : bool;
  au_cost_partial : bool;
  au_cost_unknown_reason : option string;
}.
Record GraphAttempt := mkAttempt {
  at_extra : ExtraFields;
  at_launched : bool;
  at_review_substitution : bool;
  at_key : AttemptKey;
  at_route : GraphRoute;
  at_state : AttemptState.t;
  at_ref : option string;
  at_outcome : option AttemptOutcome.t;
  at_launch_actor : string;
  at_input_cap : option Z;
  at_usage : option AttemptUsage;
  at_settled : Z;
}.
Definition set_at_extra (v : ExtraFields) (r : GraphAttempt) : GraphAttempt :=
  mkAttempt
    v (at_launched r) (at_review_substitution r) (at_key r) (at_route r) (at_state r) (at_ref r)
    (at_outcome r) (at_launch_actor r) (at_input_cap r) (at_usage r) (at_settled r).
Definition set_at_state (v : AttemptState.t) (r : GraphAttempt) : GraphAttempt :=
  mkAttempt
    (at_extra r) (at_launched r) (at_review_substitution r) (at_key r) (at_route r) v (at_ref r)
    (at_outcome r) (at_launch_actor r) (at_input_cap r) (at_usage r) (at_settled r).
Definition set_at_ref (v : option string) (r : GraphAttempt) : GraphAttempt :=
  mkAttempt
    (at_extra r) (at_launched r) (at_review_substitution r) (at_key r) (at_route r) (at_state r)
    v (at_outcome r) (at_launch_actor r) (at_input_cap r) (at_usage r) (at_settled r).
Definition set_at_launched (v : bool) (r : GraphAttempt) : GraphAttempt :=
  mkAttempt
    (at_extra r) v (at_review_substitution r) (at_key r) (at_route r) (at_state r) (at_ref r)
    (at_outcome r) (at_launch_actor r) (at_input_cap r) (at_usage r) (at_settled r).
Definition set_at_outcome (v : option AttemptOutcome.t) (r : GraphAttempt) : GraphAttempt :=
  mkAttempt
    (at_extra r) (at_launched r) (at_review_substitution r) (at_key r) (at_route r) (at_state r)
    (at_ref r) v (at_launch_actor r) (at_input_cap r) (at_usage r) (at_settled r).
Definition set_at_usage (v : option AttemptUsage) (r : GraphAttempt) : GraphAttempt :=
  mkAttempt
    (at_extra r) (at_launched r) (at_review_substitution r) (at_key r) (at_route r) (at_state r)
    (at_ref r) (at_outcome r) (at_launch_actor r) (at_input_cap r) v (at_settled r).
Definition set_at_settled (v : Z) (r : GraphAttempt) : GraphAttempt :=
  mkAttempt
    (at_extra r) (at_launched r) (at_review_substitution r) (at_key r) (at_route r) (at_state r)
    (at_ref r) (at_outcome r) (at_launch_actor r) (at_input_cap r) (at_usage r) v.
Definition is_terminal (a : GraphAttempt) : bool := at_state a == AttemptState.Terminal.

Record UnknownUsageEvent := mkUsageEvent {
  ue_extra : ExtraFields;
  ue_node_id : string;
  ue_route_index : Z;
  ue_metric : string;
  ue_reason : option string;
}.
#[export] Instance UnknownUsageEvent_eq_dec : EqDecision UnknownUsageEvent.
Proof. solve_decision. Defined.

(** ** Progress *)

Record LaunchRetryPolicy := mkRetryPolicy {
  rp_limit : Z;
  rp_limit_source : string;
  rp_first_seconds : Z;
  rp_max_seconds : Z;
}.
Record LaunchRetry := mkRetry {
  rt_policy : LaunchRetryPolicy;
  rt_failures : Z;
  rt_deadline : option WallTime;
  rt_wake_at : option WallTime;
  rt_reason : option string;
}.
(** Causes of a pause, without the planner facts they display. *)
Inductive NodeDecisionCause :=
| LoopPaused | LoopAskClosed | InvalidLoopDecision
| PlanExpansionPaused (active fallback : bool)
| CompositeFindingsTruncated (warning_indices : list nat) (notice_lines : nat).
Record WriterWorktreeBinding := mkBinding { wb_worktree : string; wb_head : string }.
Record GateResult := mkGateResult {
  gr_passed : bool;
  gr_reason : option string;
  gr_on_fail : option string;
}.
(** Of the evidence of a CI gate and of a land node, the next host poll. *)
Record CiEvidence := mkCi { ci_wake_at : option WallTime }.
Record LandRecord := mkLand { ld_wake_at : option WallTime }.
(** Of the outputs, what the scheduler reads: findings enter by identifier. *)
Record NodeOutputs := mkOutputs {
  no_verdict_error : option string;
  no_verdict : option string;
  no_findings : list string;
  no_commit : option string;
}.
Record NodeProgress := mkProgress {
  np_extra : ExtraFields;
  np_children : list string;
  np_source_binding : option SourceBinding;
  np_min_successful : option Z;
  np_source_commit : option string;
  np_writer_binding : option WriterWorktreeBinding;
  np_writer_binding_pending : bool;
  np_review_base : option string;
  np_review_base_pending : bool;
  np_expansion_pause : option string;
  np_expansion_cause : option NodeDecisionCause;
  np_round : option LoopRound;
  np_gate : option GateResult;
  np_ci : option CiEvidence;
  np_land : option LandRecord;
  np_title : option string;
  np_worktree : option string;
  np_id : string;
  np_state : NodeState.t;
  np_cancelled_from : option NodeState.t;
  np_skip_reason : option string;
  np_advance_error : option string;
  np_advance_error_code : option string;
  np_advance_owner_code : option string;
  np_launch_retry : option LaunchRetry;
  np_last_launch_retry : option LaunchRetry;
  np_outputs : option NodeOutputs;
  np_previous_attempts : list GraphAttempt;
  np_attempts : list GraphAttempt;
}.
Definition set_np_extra (v : ExtraFields) (r : NodeProgress) : NodeProgress :=
  mkProgress
    v (np_children r) (np_source_binding r) (np_min_successful r) (np_source_commit r)
    (np_writer_binding r) (np_writer_binding_pending r) (np_review_base r)
    (np_review_base_pending r) (np_expansion_pause r) (np_expansion_cause r) (np_round r)
    (np_gate r) (np_ci r) (np_land r) (np_title r) (np_worktree r) (np_id r) (np_state r)
    (np_cancelled_from r) (np_skip_reason r) (np_advance_error r) (np_advance_error_code r)
    (np_advance_owner_code r) (np_launch_retry r) (np_last_launch_retry r) (np_outputs r)
    (np_previous_attempts r) (np_attempts r).
Definition set_np_source_commit (v : option string) (r : NodeProgress) : NodeProgress :=
  mkProgress
    (np_extra r) (np_children r) (np_source_binding r) (np_min_successful r) v
    (np_writer_binding r) (np_writer_binding_pending r) (np_review_base r)
    (np_review_base_pending r) (np_expansion_pause r) (np_expansion_cause r) (np_round r)
    (np_gate r) (np_ci r) (np_land r) (np_title r) (np_worktree r) (np_id r) (np_state r)
    (np_cancelled_from r) (np_skip_reason r) (np_advance_error r) (np_advance_error_code r)
    (np_advance_owner_code r) (np_launch_retry r) (np_last_launch_retry r) (np_outputs r)
    (np_previous_attempts r) (np_attempts r).
Definition set_np_writer_binding (v : option WriterWorktreeBinding) (r : NodeProgress) : NodeProgress :=
  mkProgress
    (np_extra r) (np_children r) (np_source_binding r) (np_min_successful r) (np_source_commit
    r) v (np_writer_binding_pending r) (np_review_base r) (np_review_base_pending r)
    (np_expansion_pause r) (np_expansion_cause r) (np_round r) (np_gate r) (np_ci r) (np_land r)
    (np_title r) (np_worktree r) (np_id r) (np_state r) (np_cancelled_from r) (np_skip_reason r)
    (np_advance_error r) (np_advance_error_code r) (np_advance_owner_code r) (np_launch_retry r)
    (np_last_launch_retry r) (np_outputs r) (np_previous_attempts r) (np_attempts r).
Definition set_np_writer_binding_pending (v : bool) (r : NodeProgress) : NodeProgress :=
  mkProgress
    (np_extra r) (np_children r) (np_source_binding r) (np_min_successful r) (np_source_commit
    r) (np_writer_binding r) v (np_review_base r) (np_review_base_pending r) (np_expansion_pause
    r) (np_expansion_cause r) (np_round r) (np_gate r) (np_ci r) (np_land r) (np_title r)
    (np_worktree r) (np_id r) (np_state r) (np_cancelled_from r) (np_skip_reason r)
    (np_advance_error r) (np_advance_error_code r) (np_advance_owner_code r) (np_launch_retry r)
    (np_last_launch_retry r) (np_outputs r) (np_previous_attempts r) (np_attempts r).
Definition set_np_expansion_cause (v : option NodeDecisionCause) (r : NodeProgress) : NodeProgress :=
  mkProgress
    (np_extra r) (np_children r) (np_source_binding r) (np_min_successful r) (np_source_commit
    r) (np_writer_binding r) (np_writer_binding_pending r) (np_review_base r)
    (np_review_base_pending r) (np_expansion_pause r) v (np_round r) (np_gate r) (np_ci r)
    (np_land r) (np_title r) (np_worktree r) (np_id r) (np_state r) (np_cancelled_from r)
    (np_skip_reason r) (np_advance_error r) (np_advance_error_code r) (np_advance_owner_code r)
    (np_launch_retry r) (np_last_launch_retry r) (np_outputs r) (np_previous_attempts r)
    (np_attempts r).
Definition set_np_gate (v : option GateResult) (r : NodeProgress) : NodeProgress :=
  mkProgress
    (np_extra r) (np_children r) (np_source_binding r) (np_min_successful r) (np_source_commit
    r) (np_writer_binding r) (np_writer_binding_pending r) (np_review_base r)
    (np_review_base_pending r) (np_expansion_pause r) (np_expansion_cause r) (np_round r) v
    (np_ci r) (np_land r) (np_title r) (np_worktree r) (np_id r) (np_state r) (np_cancelled_from
    r) (np_skip_reason r) (np_advance_error r) (np_advance_error_code r) (np_advance_owner_code
    r) (np_launch_retry r) (np_last_launch_retry r) (np_outputs r) (np_previous_attempts r)
    (np_attempts r).
Definition set_np_ci (v : option CiEvidence) (r : NodeProgress) : NodeProgress :=
  mkProgress
    (np_extra r) (np_children r) (np_source_binding r) (np_min_successful r) (np_source_commit
    r) (np_writer_binding r) (np_writer_binding_pending r) (np_review_base r)
    (np_review_base_pending r) (np_expansion_pause r) (np_expansion_cause r) (np_round r)
    (np_gate r) v (np_land r) (np_title r) (np_worktree r) (np_id r) (np_state r)
    (np_cancelled_from r) (np_skip_reason r) (np_advance_error r) (np_advance_error_code r)
    (np_advance_owner_code r) (np_launch_retry r) (np_last_launch_retry r) (np_outputs r)
    (np_previous_attempts r) (np_attempts r).
Definition set_np_state (v : NodeState.t) (r : NodeProgress) : NodeProgress :=
  mkProgress
    (np_extra r) (np_children r) (np_source_binding r) (np_min_successful r) (np_source_commit
    r) (np_writer_binding r) (np_writer_binding_pending r) (np_review_base r)
    (np_review_base_pending r) (np_expansion_pause r) (np_expansion_cause r) (np_round r)
    (np_gate r) (np_ci r) (np_land r) (np_title r) (np_worktree r) (np_id r) v
    (np_cancelled_from r) (np_skip_reason r) (np_advance_error r) (np_advance_error_code r)
    (np_advance_owner_code r) (np_launch_retry r) (np_last_launch_retry r) (np_outputs r)
    (np_previous_attempts r) (np_attempts r).
Definition set_np_cancelled_from (v : option NodeState.t) (r : NodeProgress) : NodeProgress :=
  mkProgress
    (np_extra r) (np_children r) (np_source_binding r) (np_min_successful r) (np_source_commit
    r) (np_writer_binding r) (np_writer_binding_pending r) (np_review_base r)
    (np_review_base_pending r) (np_expansion_pause r) (np_expansion_cause r) (np_round r)
    (np_gate r) (np_ci r) (np_land r) (np_title r) (np_worktree r) (np_id r) (np_state r) v
    (np_skip_reason r) (np_advance_error r) (np_advance_error_code r) (np_advance_owner_code r)
    (np_launch_retry r) (np_last_launch_retry r) (np_outputs r) (np_previous_attempts r)
    (np_attempts r).
Definition set_np_skip_reason (v : option string) (r : NodeProgress) : NodeProgress :=
  mkProgress
    (np_extra r) (np_children r) (np_source_binding r) (np_min_successful r) (np_source_commit
    r) (np_writer_binding r) (np_writer_binding_pending r) (np_review_base r)
    (np_review_base_pending r) (np_expansion_pause r) (np_expansion_cause r) (np_round r)
    (np_gate r) (np_ci r) (np_land r) (np_title r) (np_worktree r) (np_id r) (np_state r)
    (np_cancelled_from r) v (np_advance_error r) (np_advance_error_code r)
    (np_advance_owner_code r) (np_launch_retry r) (np_last_launch_retry r) (np_outputs r)
    (np_previous_attempts r) (np_attempts r).
Definition set_np_advance_error (v : option string) (r : NodeProgress) : NodeProgress :=
  mkProgress
    (np_extra r) (np_children r) (np_source_binding r) (np_min_successful r) (np_source_commit
    r) (np_writer_binding r) (np_writer_binding_pending r) (np_review_base r)
    (np_review_base_pending r) (np_expansion_pause r) (np_expansion_cause r) (np_round r)
    (np_gate r) (np_ci r) (np_land r) (np_title r) (np_worktree r) (np_id r) (np_state r)
    (np_cancelled_from r) (np_skip_reason r) v (np_advance_error_code r) (np_advance_owner_code
    r) (np_launch_retry r) (np_last_launch_retry r) (np_outputs r) (np_previous_attempts r)
    (np_attempts r).
Definition set_np_advance_error_code (v : option string) (r : NodeProgress) : NodeProgress :=
  mkProgress
    (np_extra r) (np_children r) (np_source_binding r) (np_min_successful r) (np_source_commit
    r) (np_writer_binding r) (np_writer_binding_pending r) (np_review_base r)
    (np_review_base_pending r) (np_expansion_pause r) (np_expansion_cause r) (np_round r)
    (np_gate r) (np_ci r) (np_land r) (np_title r) (np_worktree r) (np_id r) (np_state r)
    (np_cancelled_from r) (np_skip_reason r) (np_advance_error r) v (np_advance_owner_code r)
    (np_launch_retry r) (np_last_launch_retry r) (np_outputs r) (np_previous_attempts r)
    (np_attempts r).
Definition set_np_advance_owner_code (v : option string) (r : NodeProgress) : NodeProgress :=
  mkProgress
    (np_extra r) (np_children r) (np_source_binding r) (np_min_successful r) (np_source_commit
    r) (np_writer_binding r) (np_writer_binding_pending r) (np_review_base r)
    (np_review_base_pending r) (np_expansion_pause r) (np_expansion_cause r) (np_round r)
    (np_gate r) (np_ci r) (np_land r) (np_title r) (np_worktree r) (np_id r) (np_state r)
    (np_cancelled_from r) (np_skip_reason r) (np_advance_error r) (np_advance_error_code r) v
    (np_launch_retry r) (np_last_launch_retry r) (np_outputs r) (np_previous_attempts r)
    (np_attempts r).
Definition set_np_launch_retry (v : option LaunchRetry) (r : NodeProgress) : NodeProgress :=
  mkProgress
    (np_extra r) (np_children r) (np_source_binding r) (np_min_successful r) (np_source_commit
    r) (np_writer_binding r) (np_writer_binding_pending r) (np_review_base r)
    (np_review_base_pending r) (np_expansion_pause r) (np_expansion_cause r) (np_round r)
    (np_gate r) (np_ci r) (np_land r) (np_title r) (np_worktree r) (np_id r) (np_state r)
    (np_cancelled_from r) (np_skip_reason r) (np_advance_error r) (np_advance_error_code r)
    (np_advance_owner_code r) v (np_last_launch_retry r) (np_outputs r) (np_previous_attempts r)
    (np_attempts r).
Definition set_np_last_launch_retry (v : option LaunchRetry) (r : NodeProgress) : NodeProgress :=
  mkProgress
    (np_extra r) (np_children r) (np_source_binding r) (np_min_successful r) (np_source_commit
    r) (np_writer_binding r) (np_writer_binding_pending r) (np_review_base r)
    (np_review_base_pending r) (np_expansion_pause r) (np_expansion_cause r) (np_round r)
    (np_gate r) (np_ci r) (np_land r) (np_title r) (np_worktree r) (np_id r) (np_state r)
    (np_cancelled_from r) (np_skip_reason r) (np_advance_error r) (np_advance_error_code r)
    (np_advance_owner_code r) (np_launch_retry r) v (np_outputs r) (np_previous_attempts r)
    (np_attempts r).
Definition set_np_outputs (v : option NodeOutputs) (r : NodeProgress) : NodeProgress :=
  mkProgress
    (np_extra r) (np_children r) (np_source_binding r) (np_min_successful r) (np_source_commit
    r) (np_writer_binding r) (np_writer_binding_pending r) (np_review_base r)
    (np_review_base_pending r) (np_expansion_pause r) (np_expansion_cause r) (np_round r)
    (np_gate r) (np_ci r) (np_land r) (np_title r) (np_worktree r) (np_id r) (np_state r)
    (np_cancelled_from r) (np_skip_reason r) (np_advance_error r) (np_advance_error_code r)
    (np_advance_owner_code r) (np_launch_retry r) (np_last_launch_retry r) v
    (np_previous_attempts r) (np_attempts r).
Definition set_np_attempts (v : list GraphAttempt) (r : NodeProgress) : NodeProgress :=
  mkProgress
    (np_extra r) (np_children r) (np_source_binding r) (np_min_successful r) (np_source_commit
    r) (np_writer_binding r) (np_writer_binding_pending r) (np_review_base r)
    (np_review_base_pending r) (np_expansion_pause r) (np_expansion_cause r) (np_round r)
    (np_gate r) (np_ci r) (np_land r) (np_title r) (np_worktree r) (np_id r) (np_state r)
    (np_cancelled_from r) (np_skip_reason r) (np_advance_error r) (np_advance_error_code r)
    (np_advance_owner_code r) (np_launch_retry r) (np_last_launch_retry r) (np_outputs r)
    (np_previous_attempts r) v.

(** ** The checkpoint *)

Record NodeAsk := mkAsk { ask_id : string; ask_wake_at : option WallTime; ask_resolved : bool }.
Record PatchRecord := mkPatch { pt_parent : option string; pt_reason : option string }.
Record Expansion := mkExpansion { ex_nodes : list string; ex_patch : option PatchRecord }.
Record GraphCheckpoint := mkCheckpoint {
  cp_expansions : list Expansion;
  cp_integration_pin : option string;
  cp_cancelled : bool;
  cp_pause_reason : option string;
  cp_pause_code : option string;
  cp_unknown_usage : list string;
  cp_unknown_usage_omitted : Z;
  cp_usage_events : list UnknownUsageEvent;
  cp_usage_events_omitted : Z;
  cp_settlements : Z;
  cp_extensions : list string;
  cp_asks : list NodeAsk;
  cp_wake_at : option WallTime;
  cp_graph_id : string;
  cp_nodes : list NodeProgress;
}.
Definition set_cp_cancelled (v : bool) (r : GraphCheckpoint) : GraphCheckpoint :=
  mkCheckpoint
    (cp_expansions r) (cp_integration_pin r) v (cp_pause_reason r) (cp_pause_code r)
    (cp_unknown_usage r) (cp_unknown_usage_omitted r) (cp_usage_events r)
    (cp_usage_events_omitted r) (cp_settlements r) (cp_extensions r) (cp_asks r) (cp_wake_at r)
    (cp_graph_id r) (cp_nodes r).
Definition set_cp_pause_reason (v : option string) (r : GraphCheckpoint) : GraphCheckpoint :=
  mkCheckpoint
    (cp_expansions r) (cp_integration_pin r) (cp_cancelled r) v (cp_pause_code r)
    (cp_unknown_usage r) (cp_unknown_usage_omitted r) (cp_usage_events r)
    (cp_usage_events_omitted r) (cp_settlements r) (cp_extensions r) (cp_asks r) (cp_wake_at r)
    (cp_graph_id r) (cp_nodes r).
Definition set_cp_pause_code (v : option string) (r : GraphCheckpoint) : GraphCheckpoint :=
  mkCheckpoint
    (cp_expansions r) (cp_integration_pin r) (cp_cancelled r) (cp_pause_reason r) v
    (cp_unknown_usage r) (cp_unknown_usage_omitted r) (cp_usage_events r)
    (cp_usage_events_omitted r) (cp_settlements r) (cp_extensions r) (cp_asks r) (cp_wake_at r)
    (cp_graph_id r) (cp_nodes r).
Definition set_cp_unknown_usage (v : list string) (r : GraphCheckpoint) : GraphCheckpoint :=
  mkCheckpoint
    (cp_expansions r) (cp_integration_pin r) (cp_cancelled r) (cp_pause_reason r) (cp_pause_code
    r) v (cp_unknown_usage_omitted r) (cp_usage_events r) (cp_usage_events_omitted r)
    (cp_settlements r) (cp_extensions r) (cp_asks r) (cp_wake_at r) (cp_graph_id r) (cp_nodes r).
Definition set_cp_unknown_usage_omitted (v : Z) (r : GraphCheckpoint) : GraphCheckpoint :=
  mkCheckpoint
    (cp_expansions r) (cp_integration_pin r) (cp_cancelled r) (cp_pause_reason r) (cp_pause_code
    r) (cp_unknown_usage r) v (cp_usage_events r) (cp_usage_events_omitted r) (cp_settlements r)
    (cp_extensions r) (cp_asks r) (cp_wake_at r) (cp_graph_id r) (cp_nodes r).
Definition set_cp_usage_events (v : list UnknownUsageEvent) (r : GraphCheckpoint) : GraphCheckpoint :=
  mkCheckpoint
    (cp_expansions r) (cp_integration_pin r) (cp_cancelled r) (cp_pause_reason r) (cp_pause_code
    r) (cp_unknown_usage r) (cp_unknown_usage_omitted r) v (cp_usage_events_omitted r)
    (cp_settlements r) (cp_extensions r) (cp_asks r) (cp_wake_at r) (cp_graph_id r) (cp_nodes r).
Definition set_cp_usage_events_omitted (v : Z) (r : GraphCheckpoint) : GraphCheckpoint :=
  mkCheckpoint
    (cp_expansions r) (cp_integration_pin r) (cp_cancelled r) (cp_pause_reason r) (cp_pause_code
    r) (cp_unknown_usage r) (cp_unknown_usage_omitted r) (cp_usage_events r) v (cp_settlements
    r) (cp_extensions r) (cp_asks r) (cp_wake_at r) (cp_graph_id r) (cp_nodes r).
Definition set_cp_settlements (v : Z) (r : GraphCheckpoint) : GraphCheckpoint :=
  mkCheckpoint
    (cp_expansions r) (cp_integration_pin r) (cp_cancelled r) (cp_pause_reason r) (cp_pause_code
    r) (cp_unknown_usage r) (cp_unknown_usage_omitted r) (cp_usage_events r)
    (cp_usage_events_omitted r) v (cp_extensions r) (cp_asks r) (cp_wake_at r) (cp_graph_id r)
    (cp_nodes r).
Definition set_cp_extensions (v : list string) (r : GraphCheckpoint) : GraphCheckpoint :=
  mkCheckpoint
    (cp_expansions r) (cp_integration_pin r) (cp_cancelled r) (cp_pause_reason r) (cp_pause_code
    r) (cp_unknown_usage r) (cp_unknown_usage_omitted r) (cp_usage_events r)
    (cp_usage_events_omitted r) (cp_settlements r) v (cp_asks r) (cp_wake_at r) (cp_graph_id r)
    (cp_nodes r).
Definition set_cp_wake_at (v : option WallTime) (r : GraphCheckpoint) : GraphCheckpoint :=
  mkCheckpoint
    (cp_expansions r) (cp_integration_pin r) (cp_cancelled r) (cp_pause_reason r) (cp_pause_code
    r) (cp_unknown_usage r) (cp_unknown_usage_omitted r) (cp_usage_events r)
    (cp_usage_events_omitted r) (cp_settlements r) (cp_extensions r) (cp_asks r) v (cp_graph_id
    r) (cp_nodes r).
Definition set_cp_nodes (v : list NodeProgress) (r : GraphCheckpoint) : GraphCheckpoint :=
  mkCheckpoint
    (cp_expansions r) (cp_integration_pin r) (cp_cancelled r) (cp_pause_reason r) (cp_pause_code
    r) (cp_unknown_usage r) (cp_unknown_usage_omitted r) (cp_usage_events r)
    (cp_usage_events_omitted r) (cp_settlements r) (cp_extensions r) (cp_asks r) (cp_wake_at r)
    (cp_graph_id r) v.

(** [&mut checkpoint.nodes[index]]. *)
Definition update_node (index : nat) (f : NodeProgress → NodeProgress) (cp : GraphCheckpoint)
    : GraphCheckpoint :=
  set_cp_nodes (alter f index (cp_nodes cp)) cp.
Definition recorded_attempts (p : NodeProgress) : list GraphAttempt :=
  np_previous_attempts p ++ np_attempts p.
Definition find_node (cp : GraphCheckpoint) (id : string) : option NodeProgress :=
  List.find (λ n, np_id n == id) (cp_nodes cp).

(** [asks::next_wake]: the earliest wake an open ask, a running gate, a running
    land node or a launch retry owes the host. *)
Definition next_wake (cp : GraphCheckpoint) : option WallTime :=
  let running := List.filter (λ n, np_state n == NodeState.Running) (cp_nodes cp) in
  Z_min (omap ask_wake_at (List.filter (λ a, negb (ask_resolved a)) (cp_asks cp))
         ++ omap (λ n, match np_ci n ≫= ci_wake_at with
                       | Some wake => Some wake
                       | None => np_land n ≫= ld_wake_at
                       end) running
         ++ omap (λ n, np_launch_retry n ≫= rt_wake_at) running).
Definition refresh_wake (cp : GraphCheckpoint) : GraphCheckpoint := set_cp_wake_at (next_wake cp) cp.

(** [plans::writer]. *)
Definition writer (node : PlannedNode) : bool :=
  (pn_access node == WorktreeWrite) && is_none_or (pn_kind node) (λ kind, kind == NodeKind.Task).

(** The row of a node in [transitions::initial_checkpoint]. *)
Definition initial_progress (node : PlannedNode) : NodeProgress :=
  {| np_extra := ∅;
     np_children := pn_composite_members node;
     np_source_binding := pn_source node;
     np_min_successful := pn_composite node ≫= cs_min_successful;
     np_source_commit := match pn_source node with Some (SourceCommit commit) => Some commit | _ => None end;
     np_writer_binding := None;
     np_writer_binding_pending := writer node;
     np_review_base := None;
     np_review_base_pending := (pn_access node == ReadOnly) && is_some (pn_extra node !! "review_base");
     np_expansion_pause := None;
     np_expansion_cause := None;
     np_round := pn_round node;
     np_gate := None;
     np_ci := None;
     np_land := None;
     np_title := Some (unwrap_or (pn_title node) (pn_id node));
     np_worktree := pn_worktree node;
     np_id := pn_id node;
     np_state := NodeState.Pending;
     np_cancelled_from := None;
     np_skip_reason := None;
     np_advance_error := None;
     np_advance_error_code := None;
     np_advance_owner_code := None;
     np_launch_retry := None;
     np_last_launch_retry := None;
     np_outputs := None;
     np_previous_attempts := [];
     np_attempts := [] |}.
Definition initial_checkpoint (plan : PlannedGraph) : GraphCheckpoint :=
  {| cp_expansions := [];
     cp_integration_pin := None;
     cp_cancelled := false;
     cp_pause_reason := None;
     cp_pause_code := None;
     cp_unknown_usage := [];
     cp_unknown_usage_omitted := 0;
     cp_usage_events := [];
     cp_usage_events_omitted := 0;
     cp_settlements := 0;
     cp_extensions := [];
     cp_asks := [];
     cp_wake_at := None;
     cp_graph_id := pg_graph_id plan;
     cp_nodes := initial_progress <$> pg_nodes plan |}.

(** A plain task of the examples: it reads, has the given routes and follows the
    given nodes. *)
Definition ex_task (id : string) (depends_on : list string) (routes : list GraphRoute) : PlannedNode :=
  {| pn_extra := ∅; pn_auto_continue_no_work := None; pn_composite_members := []; pn_composite := None;
     pn_attempt_host := None; pn_role := None; pn_source := None; pn_after_expansion := []; pn_loop_body := false;
     pn_decide := false; pn_continues := None; pn_land := false; pn_round := None; pn_kind := None;
     pn_condition := None; pn_on_fail := None; pn_access := ReadOnly; pn_worktree := None; pn_write_scope := []; pn_id := id;
     pn_title := None; pn_depends_on := depends_on; pn_advisory := false; pn_inputs := [];
     pn_routes := routes; pn_required_verdict := None; pn_skip_without_findings := None |}.
Definition ex_panel (id : string) (members : list string) (min_successful : option Z) : PlannedNode :=
  {| pn_extra := ∅; pn_auto_continue_no_work := None; pn_composite_members := members;
     pn_composite := Some (mkComposite min_successful);
     pn_attempt_host := None; pn_role := None; pn_source := None; pn_after_expansion := members; pn_loop_body := false;
     pn_decide := false; pn_continues := None; pn_land := false; pn_round := None;
     pn_kind := Some NodeKind.Composite; pn_condition := None; pn_on_fail := None; pn_access := ReadOnly;
     pn_worktree := None; pn_write_scope := []; pn_id := id; pn_title := None; pn_depends_on := []; pn_advisory := false;
     pn_inputs := []; pn_routes := []; pn_required_verdict := None; pn_skip_without_findings := None |}.
