(* ===== verification/GraphOutcome.v ===== *)
(** * GraphOutcome: how a settled graph is classified

    Models [GraphCheckpoint::outcome], [successful] and [node_successful] of
    [crates/fabric-runtime/src/graph/model.rs] with the two functions that call
    back into them ([loops::handled_gate], [repair::handled_panel]), and
    [graph_run] of [graph/transitions.rs].

    [outcome_exact] shows that the classification always ends when the owner of
    a loop round comes later in the checkpoint than its members, and says which
    graphs it calls successful and which partial. *)

From stdpp Require Import base option list strings sets gmap.
From S2P Require Import Prelude RoutingTypes GraphModel.

Local Open Scope string_scope.
Local Open Scope list_scope.
Local Open Scope Z_scope.
Local Open Scope rust_scope.

(** ** Outcome of a settled graph *)

(** [Iterator::any] with a predicate that may not return. *)
Fixpoint any_opt {A} (f : A → option bool) (l : list A) : option bool :=
  match l with
  | [] => Some false
  | x :: l' => b ← f x; if (b : bool) then Some true else any_opt f l'
  end.

(** The [for depth in 0..nodes.len()] loop: a failed gate hands over to the node
    that recovers from it. *)
Definition recovery_target (cp : GraphCheckpoint) (current : NodeProgress) : option NodeProgress :=
  gate ← np_gate current;
  if gr_passed gate then None else gr_on_fail gate ≫= find_node cp.
Fixpoint follow (cp : GraphCheckpoint) (steps : nat) (first : bool) (current : NodeProgress) : bool :=
  match steps with
  | O => false
  | S steps' =>
      match np_state current with
      | NodeState.Succeeded => true
      | NodeState.Skipped => first
      | NodeState.Failed =>
          match recovery_target cp current with
          | None => false
          | Some target => follow cp steps' false target
          end
      | _ => false
      end
  end.

Section Handled.
  (** [GraphCheckpoint::node_successful], which the two functions call back. *)
  Context (node_successful : NodeProgress → option bool) (cp : GraphCheckpoint).

(** [loops::handled_gate]. *)
Definition handled_gate (progress : NodeProgress) : option bool :=
  match np_state progress, np_round progress with
  | NodeState.Failed, Some r =>
      if lr_until r then
        any_opt (λ n, if np_id n == lr_loop_id r then node_successful n else Some false) (cp_nodes cp)
      else Some false
  | _, _ => Some false
  end.

(** The owner of the loop round whose repair added a panel. *)
Definition panel_owner (patch : PatchRecord) : option NodeProgress :=
  parent ← pt_parent patch ≫= find_node cp;
  round ← np_round parent;
  find_node cp (lr_loop_id round).

(** [repair::handled_panel]. *)
Definition handled_panel (node : NodeProgress) : option bool :=
  any_opt (λ expansion,
    if negb (bool_decide (np_id node ∈ ex_nodes expansion)) then Some false
    else match ex_patch expansion with
         | None => Some false
         | Some patch =>
             if pt_reason patch == Some "repair expanded risk or scope" then
               match panel_owner patch with
               | None => Some false
               | Some owner => node_successful owner
               end
             else Some false
         end) (cp_expansions cp).
End Handled.

(** The source recurses through the owner of a node's loop; [fuel] counts the
    nested calls, [None] a recursion that does not end within them. *)
Fixpoint node_successful (fuel : nat) (cp : GraphCheckpoint) (node : NodeProgress) : option bool :=
  match fuel with
  | O => None
  | S fuel' =>
      gate ← handled_gate (node_successful fuel' cp) cp node;
      if (gate : bool) then Some true else
      panel ← handled_panel (node_successful fuel' cp) cp node;
      if (panel : bool) then Some true else
      Some (follow cp (length (cp_nodes cp)) true node)
  end.

(** Owners are nested in one another at most once per node. *)
Definition owner_fuel (cp : GraphCheckpoint) : nat := S (length (cp_nodes cp)).

Definition successful (cp : GraphCheckpoint) : option bool :=
  if existsb (λ n, is_some (np_expansion_pause n)) (cp_nodes cp) then Some false
  else negb <$> any_opt (λ n, negb <$> node_successful (owner_fuel cp) cp n) (cp_nodes cp).

(** [while let Some(id) = pending.pop()]: the last element is popped. *)
Fixpoint cover_loop (fuel : nat) (cp : GraphCheckpoint) (pending : list string) (covered : gset string)
    : option (gset string) :=
  match fuel with
  | O => None
  | S fuel' =>
      match last pending with
      | None => Some covered
      | Some id =>
          let rest := removelast pending in
          if bool_decide (id ∈ covered) then cover_loop fuel' cp rest covered
          else
            let more := match find_node cp id with Some node => np_children node | None => [] end in
            cover_loop fuel' cp (rest ++ more) ({[ id ]} ∪ covered)
      end
  end.
Definition cover_roots (cp : GraphCheckpoint) : list string :=
  flat_map np_children
    (List.filter (λ n, is_some (np_min_successful n) && (np_state n == NodeState.Succeeded)) (cp_nodes cp)).
(** Every round pops one entry, and the children of a node are pushed once. *)
Definition cover_fuel (cp : GraphCheckpoint) : nat :=
  S (length (cover_roots cp) + length (flat_map np_children (cp_nodes cp))).

Inductive GraphOutcome := OutcomeSucceeded | OutcomePartial | OutcomeFailed.
#[export] Instance GraphOutcome_eq_dec : EqDecision GraphOutcome.
Proof. solve_decision. Defined.

Definition outcome (cp : GraphCheckpoint) : option GraphOutcome :=
  ok ← successful cp;
  if (ok : bool) then Some OutcomeSucceeded else
  unmet ← any_opt (λ n, if is_some (np_min_successful n)
                        then negb <$> node_successful (owner_fuel cp) cp n
                        else Some false) (cp_nodes cp);
  if (unmet : bool) then Some OutcomeFailed else
  covered ← cover_loop (cover_fuel cp) cp (cover_roots cp) ∅;
  failed ← any_opt (λ n, good ← node_successful (owner_fuel cp) cp n;
                         Some (negb (good : bool) && negb (bool_decide (np_id n ∈ covered)))) (cp_nodes cp);
  Some (if (failed : bool) then OutcomeFailed else OutcomePartial).

Inductive GraphStatus := StatusPending | StatusComplete | StatusCancelled | StatusPaused.
Record GraphRun := mkRun {
  gn_status : GraphStatus;
  gn_outcome : option GraphOutcome;
  gn_checkpoint : GraphCheckpoint;
  gn_advance_error : option string;
}.
Definition graph_status (cp : GraphCheckpoint) : GraphStatus :=
  let all_settled := forallb (λ n, settled (np_state n)) (cp_nodes cp) in
  if is_some (cp_pause_reason cp) then StatusPaused
  else if all_settled && cp_cancelled cp then StatusCancelled
  else if all_settled then StatusComplete
  else StatusPending.
Definition graph_run (cp : GraphCheckpoint) : option GraphRun :=
  let status := graph_status cp in
  let advance_error := find_map np_advance_error (cp_nodes cp) in
  match status with
  | StatusComplete => o ← outcome cp; Some (mkRun status (Some o) cp advance_error)
  | _ => Some (mkRun status None cp advance_error)
  end.

(** ** Reference definitions *)

(** The identifiers of the nodes whose success settles [node] as well. *)
Definition owner_ids (cp : GraphCheckpoint) (node : NodeProgress) : list string :=
  match np_state node, np_round node with
  | NodeState.Failed, Some r => if lr_until r then [lr_loop_id r] else []
  | _, _ => []
  end
  ++ flat_map (λ expansion,
       if bool_decide (np_id node ∈ ex_nodes expansion) then
         match ex_patch expansion ≫= panel_owner cp with Some owner => [np_id owner] | None => [] end
       else []) (cp_expansions cp).

(** Nodes are stored in topological order, and a loop depends on its rounds. *)
Definition owners_later (cp : GraphCheckpoint) : bool :=
  forallb (λ '(i, n), forallb (λ '(j, o),
    implb (bool_decide (np_id o ∈ owner_ids cp n)) (i <? j)%nat)
      (imap pair (cp_nodes cp))) (imap pair (cp_nodes cp)).

(** A node that succeeded, or a failed gate whose recovery did, or the recovery
    of its recovery, in [k] hand-overs. *)
Inductive recovered (cp : GraphCheckpoint) : nat → NodeProgress → Prop :=
| recovered_succeeded n : np_state n = NodeState.Succeeded → recovered cp O n
| recovered_later k n gate id target :
    np_state n = NodeState.Failed → np_gate n = Some gate → gr_passed gate = false → gr_on_fail gate = Some id →
    find_node cp id = Some target → recovered cp k target → recovered cp (S k) n.

(** A node counts as good: it was skipped, or it succeeded in the end, or it is
    the failed gate of a round whose loop is good, or it belongs to a panel that
    was added for a loop that is good. *)
Inductive good (cp : GraphCheckpoint) : NodeProgress → Prop :=
| good_skipped n : np_state n = NodeState.Skipped → good cp n
| good_recovered k n : recovered cp k n → good cp n
| good_gate n round owner :
    np_state n = NodeState.Failed → np_round n = Some round → lr_until round = true →
    owner ∈ cp_nodes cp → np_id owner = lr_loop_id round → good cp owner → good cp n
| good_panel n expansion patch owner :
    expansion ∈ cp_expansions cp → np_id n ∈ ex_nodes expansion → ex_patch expansion = Some patch →
    pt_reason patch = Some "repair expanded risk or scope" → panel_owner cp patch = Some owner →
    good cp owner → good cp n.

(** What a composite that met its minimum accounts for. *)
Inductive covers (cp : GraphCheckpoint) : string → Prop :=
| covers_root id : id ∈ cover_roots cp → covers cp id
| covers_child id node child :
    covers cp id → find_node cp id = Some node → child ∈ np_children node → covers cp child.

(** ** The worklist *)

Definition uncovered (covered : gset string) (n : NodeProgress) : nat :=
  if bool_decide (np_id n ∈ covered) then O else length (np_children n).
Definition uncovered_children (cp : GraphCheckpoint) (covered : gset string) : nat :=
  sum_list_with (uncovered covered) (cp_nodes cp).

Lemma find_node_Some cp id n : find_node cp id = Some n → n ∈ cp_nodes cp ∧ np_id n = id.
Proof.
  intros H. apply List.find_some in H as [Hin Hid%bool_decide_eq_true].
  split; [by apply list_elem_of_In|done].
Qed.

Lemma uncovered_mono covered id n : (uncovered ({[ id ]} ∪ covered) n ≤ uncovered covered n)%nat.
Proof. unfold uncovered. repeat case_bool_decide; try lia. set_solver. Qed.

Lemma uncovered_insert cp covered id n :
  id ∉ covered → find_node cp id = Some n →
  (uncovered_children cp ({[ id ]} ∪ covered) + length (np_children n) ≤ uncovered_children cp covered)%nat.
Proof.
  intros Hid [Hin Hn]%find_node_Some. unfold uncovered_children.
  assert (∀ l, sum_list_with (uncovered ({[ id ]} ∪ covered)) l ≤ sum_list_with (uncovered covered) l)%nat as Hle.
  { induction l as [|x l IH]; [done|]. cbn. pose proof (uncovered_mono covered id x). lia. }
  apply list_elem_of_split in Hin as (l1 & l2 & ->). rewrite !sum_list_with_app. cbn.
  pose proof (Hle l1). pose proof (Hle l2).
  assert (uncovered ({[ id ]} ∪ covered) n = O) as -> by (unfold uncovered; rewrite bool_decide_eq_true_2; set_solver).
  assert (uncovered covered n = length (np_children n)) as ->.
  { unfold uncovered. rewrite bool_decide_eq_false_2; [done|]. by rewrite Hn. }
  lia.
Qed.

(** The covered set holds reachable nodes only, and whatever is reachable is in
    it or below an entry that is still pending. *)
Record cover_inv (cp : GraphCheckpoint) (pending : list string) (covered : gset string) : Prop := {
  inv_sound id : id ∈ covered ∨ id ∈ pending → covers cp id;
  inv_roots id : id ∈ cover_roots cp → id ∈ covered ∨ id ∈ pending;
  inv_closed id node child :
    id ∈ covered → find_node cp id = Some node → child ∈ np_children node → child ∈ covered ∨ child ∈ pending;
}.

Lemma cover_step cp rest id covered :
  id ∉ covered → cover_inv cp (rest ++ [id]) covered →
  cover_inv cp (rest ++ match find_node cp id with Some node => np_children node | None => [] end) ({[ id ]} ∪ covered).
Proof.
  intros Hid [Hs Hr Hc]. split.
  - intros x [Hx|[Hx|Hx]%elem_of_app]; [apply Hs; set_solver|apply Hs; set_solver|].
    destruct (find_node cp id) as [node|] eqn:Hn; [|set_solver].
    apply (covers_child cp id node x); [apply Hs; set_solver|done|done].
  - intros x Hx. specialize (Hr x Hx). set_solver.
  - intros x node child [->%elem_of_singleton|Hx]%elem_of_union Hn Hch.
    + rewrite Hn. set_solver.
    + specialize (Hc x node child Hx Hn Hch). set_solver.
Qed.

Lemma cover_loop_exact cp fuel pending covered :
  cover_inv cp pending covered → (length pending + uncovered_children cp covered < fuel)%nat →
  ∃ all, cover_loop fuel cp pending covered = Some all ∧ ∀ id, id ∈ all ↔ covers cp id.
Proof.
  revert pending covered. induction fuel as [|fuel IH]; [lia|]. intros pending covered Hinv Hfuel. cbn [cover_loop].
  destruct (last pending) as [id|] eqn:Hlast.
  2:{ apply last_None in Hlast as ->. exists covered. split; [done|]. destruct Hinv as [Hs Hr Hc].
      intros id. split; [by intros; apply Hs; left|].
      induction 1 as [id Hid|id node child _ IHc Hn Hch]; [set_solver|]. specialize (Hc id node child IHc Hn Hch). set_solver. }
  apply last_Some in Hlast as [rest ->]. rewrite List.removelast_last. rewrite length_app in Hfuel. cbn in Hfuel.
  case_bool_decide as Hid.
  - apply IH; [|lia]. destruct Hinv as [Hs Hr Hc]. split.
    + intros x Hx. apply Hs. set_solver.
    + intros x Hx. specialize (Hr x Hx). set_solver.
    + intros x node child Hx Hn Hch. specialize (Hc x node child Hx Hn Hch). set_solver.
  - apply IH; [by apply cover_step|]. rewrite length_app.
    destruct (find_node cp id) as [node|] eqn:Hn.
    + pose proof (uncovered_insert cp covered id node Hid Hn). lia.
    + assert (uncovered_children cp ({[ id ]} ∪ covered) ≤ uncovered_children cp covered)%nat; [|cbn; lia].
      unfold uncovered_children. induction (cp_nodes cp) as [|x l IHl]; [done|].
      cbn. pose proof (uncovered_mono covered id x). lia.
Qed.

Lemma cover_exact cp :
  ∃ all, cover_loop (cover_fuel cp) cp (cover_roots cp) ∅ = Some all ∧ ∀ id, id ∈ all ↔ covers cp id.
Proof.
  apply cover_loop_exact.
  - split; [intros id [?|?]; [set_solver|by constructor]|set_solver|set_solver].
  - unfold cover_fuel, uncovered_children.
    assert (∀ l, sum_list_with (uncovered ∅) l = length (flat_map np_children l)) as ->; [|lia].
    induction l as [|x l IH]; [done|]. cbn. rewrite length_app, IH. unfold uncovered.
    by rewrite bool_decide_eq_false_2 by set_solver.
Qed.

(** ** Owners *)

Lemma any_opt_total {A} (f : A → option bool) l :
  (∀ x, x ∈ l → is_Some (f x)) → is_Some (any_opt f l).
Proof.
  induction l as [|x l IH]; intros Hf; [by eexists|]. cbn.
  destruct (Hf x) as [b ->]; [set_solver|]. destruct b; cbn; [by eexists|]. apply IH. set_solver.
Qed.

Lemma any_opt_Some {A} (f : A → option bool) l b :
  any_opt f l = Some b → b = true ∧ (∃ x, x ∈ l ∧ f x = Some true) ∨ b = false ∧ ∀ x, x ∈ l → f x = Some false.
Proof.
  revert b. induction l as [|x l IH]; intros b; cbn; [intros [= <-]; right; set_solver|].
  destruct (f x) as [[]|] eqn:Hx; cbn; [intros [= <-]; left; set_solver| |done].
  intros [[-> (y & Hy & Hf)]|[-> Hf]]%IH; [left|right]; split; [done| |done|]; [set_solver|].
  intros y [->|Hy]%elem_of_cons; [done|by apply Hf].
Qed.

Lemma owners_later_lookup cp i j n o :
  owners_later cp = true → cp_nodes cp !! i = Some n → cp_nodes cp !! j = Some o →
  np_id o ∈ owner_ids cp n → (i < j)%nat.
Proof.
  unfold owners_later. rewrite forallb_forall. intros H Hi Hj Ho.
  assert (∀ k (x : NodeProgress), cp_nodes cp !! k = Some x → In (k, x) (imap pair (cp_nodes cp))) as Hin.
  { intros k x Hk. apply list_elem_of_In, list_elem_of_lookup. exists k. by rewrite list_lookup_imap, Hk. }
  specialize (H _ (Hin i n Hi)). cbn in H. rewrite forallb_forall in H.
  specialize (H _ (Hin j o Hj)). cbn in H. rewrite bool_decide_eq_true_2 in H by done. cbn in H.
  by apply Nat.ltb_lt.
Qed.

Lemma node_successful_total cp k i n :
  owners_later cp = true → cp_nodes cp !! i = Some n → (length (cp_nodes cp) ≤ i + k)%nat →
  is_Some (node_successful k cp n).
Proof.
  intros Hlater. revert i n. induction k as [|k IH]; intros i n Hi Hk.
  { apply lookup_lt_Some in Hi. lia. }
  assert (∀ o, o ∈ cp_nodes cp → np_id o ∈ owner_ids cp n → is_Some (node_successful k cp o)) as Hrec.
  { intros o [j Hj]%list_elem_of_lookup Ho. apply (IH j o Hj).
    pose proof (owners_later_lookup cp i j n o Hlater Hi Hj Ho). lia. }
  unfold owner_ids in Hrec. cbn [node_successful].
  assert (is_Some (handled_gate (node_successful k cp) cp n)) as [gate ->].
  { unfold handled_gate. destruct (np_state n); try by eexists. destruct (np_round n) as [r|]; [|by eexists].
    destruct (lr_until r); [|by eexists]. apply any_opt_total. intros o Ho. case_bool_decide as E; [|by eexists].
    apply Hrec; [done|]. rewrite E. set_solver. }
  cbn. destruct gate; [by eexists|].
  assert (is_Some (handled_panel (node_successful k cp) cp n)) as [panel ->].
  { unfold handled_panel. apply any_opt_total. intros ex Hex. case_bool_decide as Hmem; cbn; [|by eexists].
    destruct (ex_patch ex) as [patch|] eqn:Hpatch; [|by eexists]. case_bool_decide; [|by eexists].
    destruct (panel_owner cp patch) as [o|] eqn:Howner; [|by eexists]. apply Hrec.
    - unfold panel_owner in Howner. apply bind_Some in Howner as (? & _ & Howner).
      apply bind_Some in Howner as (? & _ & Howner). by apply find_node_Some in Howner as [].
    - apply elem_of_app. right. apply list_elem_of_In, in_flat_map. exists ex. split; [by apply list_elem_of_In|].
      rewrite bool_decide_eq_true_2 by done. rewrite Hpatch. cbn. rewrite Howner. by left. }
  cbn. destruct panel; by eexists.
Qed.

#[local] Arguments node_successful : simpl never.
#[local] Arguments cover_loop : simpl never.

(** ** Recovery *)

Lemma recovered_unique cp k n : recovered cp k n → ∀ j, recovered cp j n → j = k.
Proof.
  induction 1 as [n Hs|k n gate id target Hs Hg Hp Hf Ht _ IH]; intros j; inversion 1; subst; try congruence.
  f_equal. apply IH. congruence.
Qed.

(** No node occurs twice on the way to the node that recovers. *)
Lemma recovered_chain cp k n :
  recovered cp k n → n ∈ cp_nodes cp →
  ∃ l, length l = S k ∧ NoDup l ∧ ∀ m, m ∈ l → m ∈ cp_nodes cp ∧ ∃ j, (j ≤ k)%nat ∧ recovered cp j m.
Proof.
  induction 1 as [n Hs|k n gate id target Hs Hg Hp Hf Ht Hrec IH]; intros Hn.
  - exists [n]. split_and!; [done|apply NoDup_singleton|]. intros m ->%list_elem_of_singleton.
    split; [done|]. exists O. split; [lia|by constructor].
  - destruct (IH (proj1 (find_node_Some _ _ _ Ht))) as (l & Hl & Hnd & Hall). exists (n :: l).
    assert (recovered cp (S k) n) as Hn' by (by econstructor). split_and!.
    + cbn. by rewrite Hl.
    + constructor; [|done]. intros Hin. destruct (Hall n Hin) as (_ & j & Hj & Hr).
      pose proof (recovered_unique _ _ _ Hn' _ Hr). lia.
    + intros m [->|Hm]%elem_of_cons; [split; [done|]; by exists (S k)|].
      destruct (Hall m Hm) as (? & j & ? & ?). split; [done|]. exists j. split; [lia|done].
Qed.

Lemma recovered_short cp k n : recovered cp k n → n ∈ cp_nodes cp → (k < length (cp_nodes cp))%nat.
Proof.
  intros Hr Hn. destruct (recovered_chain _ _ _ Hr Hn) as (l & Hl & Hnd & Hall).
  assert (l ⊆+ cp_nodes cp) as Hsub%submseteq_length by (apply NoDup_submseteq; [done|]; intros m Hm; by apply Hall).
  lia.
Qed.

Lemma follow_sound cp steps first n :
  follow cp steps first n = true →
  (first = true ∧ np_state n = NodeState.Skipped) ∨ ∃ k, recovered cp k n.
Proof.
  revert first n. induction steps as [|steps IH]; intros first n; cbn; [done|].
  destruct (np_state n) eqn:Hs; try done.
  - intros _. right. exists O. by constructor.
  - destruct (recovery_target cp n) as [target|] eqn:Ht; [|done]. intros H%IH.
    destruct H as [[? _]|[k Hk]]; [done|]. right. exists (S k). unfold recovery_target in Ht.
    apply bind_Some in Ht as (gate & Hg & Ht). destruct (gr_passed gate) eqn:Hp; [done|].
    apply bind_Some in Ht as (id & Hid & Ht). by econstructor.
  - intros ->. by left.
Qed.

Lemma follow_complete cp k n steps first :
  recovered cp k n → (k < steps)%nat → follow cp steps first n = true.
Proof.
  intros Hr. revert steps first. induction Hr as [n Hs|k n gate id target Hs Hg Hp Hf Ht _ IH];
    intros [|steps] first Hk; try lia; cbn; rewrite Hs; [done|].
  unfold recovery_target. rewrite Hg. cbn. rewrite Hp, Hf. cbn. rewrite Ht. apply IH. lia.
Qed.

(** ** The classification of one node *)

Lemma node_successful_S fuel cp n :
  node_successful (S fuel) cp n =
    (gate ← handled_gate (node_successful fuel cp) cp n;
     if (gate : bool) then Some true else
     panel ← handled_panel (node_successful fuel cp) cp n;
     if (panel : bool) then Some true else Some (follow cp (length (cp_nodes cp)) true n)).
Proof. done. Qed.

Lemma node_successful_sound cp fuel n : node_successful fuel cp n = Some true → good cp n.
Proof.
  revert n. induction fuel as [|fuel IH]; intros n; [done|]. rewrite node_successful_S.
  destruct (handled_gate _ _ _) as [gate|] eqn:Hgate; cbn; [|done]. destruct gate.
  { intros _. unfold handled_gate in Hgate. destruct (np_state n) eqn:Hs; try done.
    destruct (np_round n) as [r|] eqn:Hr; [|done]. destruct (lr_until r) eqn:Hu; [|done].
    apply any_opt_Some in Hgate as [[_ (o & Ho & Hf)]|[? _]]; [|done].
    case_bool_decide as Hid; [|done]. apply (good_gate cp n r o); auto. }
  destruct (handled_panel _ _ _) as [panel|] eqn:Hpanel; cbn; [|done]. destruct panel.
  { intros _. apply any_opt_Some in Hpanel as [[_ (ex & Hex & Hf)]|[? _]]; [|done].
    case_bool_decide as Hmem; cbn in Hf; [|done]. destruct (ex_patch ex) as [patch|] eqn:Hpatch; [|done].
    case_bool_decide as Hreason; [|done]. destruct (panel_owner cp patch) as [o|] eqn:Ho; [|done].
    apply (good_panel cp n ex patch o); auto. }
  intros [= H]. apply follow_sound in H as [[_ Hs]|[k Hk]]; [by apply good_skipped|by apply (good_recovered cp k)].
Qed.

Lemma node_unsuccessful_inv cp fuel n :
  node_successful (S fuel) cp n = Some false →
  handled_gate (node_successful fuel cp) cp n = Some false ∧
  handled_panel (node_successful fuel cp) cp n = Some false ∧
  follow cp (length (cp_nodes cp)) true n = false.
Proof.
  rewrite node_successful_S. destruct (handled_gate _ _ _) as [[]|]; cbn; [done| |done].
  destruct (handled_panel _ _ _) as [[]|]; cbn; [done| |done]. by intros [= ->].
Qed.

Lemma any_opt_false_elem {A} (f : A → option bool) l x : any_opt f l = Some false → x ∈ l → f x = Some false.
Proof. intros [[? _]|[_ H]]%any_opt_Some Hx; [done|by apply H]. Qed.

Lemma node_successful_complete cp n :
  owners_later cp = true → good cp n →
  ∀ k i, cp_nodes cp !! i = Some n → (length (cp_nodes cp) ≤ i + k)%nat → node_successful k cp n = Some true.
Proof.
  intros Hlater. induction 1 as [n Hs|d n Hr|n r o Hs Hr Hu Ho Hid _ IH|n ex patch o Hex Hmem Hpatch Hreason Ho _ IH];
    intros k i Hi Hk; destruct (node_successful_total cp k i n Hlater Hi Hk) as [[] Hb]; [done| |done| |done| |done|];
    (destruct k as [|k]; [done|]); exfalso; apply node_unsuccessful_inv in Hb as (Hgate & Hpanel & Hfollow).
  - revert Hfollow. apply lookup_lt_Some in Hi. destruct (length _); [lia|]. cbn. by rewrite Hs.
  - rewrite (follow_complete cp d n) in Hfollow; [done|done|]. eapply recovered_short; [done|].
    by eapply list_elem_of_lookup_2.
  - unfold handled_gate in Hgate. rewrite Hs, Hr, Hu in Hgate. apply (any_opt_false_elem _ _ o Hgate) in Ho as Hf.
    rewrite bool_decide_eq_true_2 in Hf by done. apply list_elem_of_lookup in Ho as [j Hj].
    assert (np_id o ∈ owner_ids cp n) as Hown by (unfold owner_ids; rewrite Hs, Hr, Hu, Hid; set_solver).
    pose proof (owners_later_lookup cp i j n o Hlater Hi Hj Hown). rewrite (IH k j) in Hf; [done|done|lia].
  - apply (any_opt_false_elem _ _ ex Hpanel) in Hex as Hf. cbn beta in Hf. rewrite bool_decide_eq_true_2 in Hf by done.
    cbn in Hf. rewrite Hpatch, bool_decide_eq_true_2, Ho in Hf by done.
    assert (np_id o ∈ owner_ids cp n) as Hown.
    { apply elem_of_app. right. apply list_elem_of_In, in_flat_map. exists ex. split; [by apply list_elem_of_In|].
      rewrite bool_decide_eq_true_2 by done. rewrite Hpatch. cbn. rewrite Ho. by left. }
    unfold panel_owner in Ho. apply bind_Some in Ho as (? & _ & Ho). apply bind_Some in Ho as (? & _ & Ho).
    apply find_node_Some in Ho as [[j Hj]%list_elem_of_lookup _].
    pose proof (owners_later_lookup cp i j n o Hlater Hi Hj Hown). rewrite (IH k j) in Hf; [done|done|lia].
Qed.

(** With the fuel of the owners the classification is total and exact. *)
Lemma good_exact cp n :
  owners_later cp = true → n ∈ cp_nodes cp →
  (good cp n ∧ node_successful (owner_fuel cp) cp n = Some true) ∨
  (¬ good cp n ∧ node_successful (owner_fuel cp) cp n = Some false).
Proof.
  intros H [i Hi]%list_elem_of_lookup. unfold owner_fuel.
  assert (length (cp_nodes cp) ≤ i + S (length (cp_nodes cp)))%nat as Hk by lia.
  destruct (node_successful_total cp _ i n H Hi Hk) as [[] Hb]; [left|right]; rewrite Hb; split; try done.
  - by eapply node_successful_sound.
  - intros Hg. by rewrite (node_successful_complete cp n H Hg _ i Hi Hk) in Hb.
Qed.

Lemma successful_exact cp :
  owners_later cp = true →
  ∃ b, successful cp = Some b ∧
    (b = true ↔ ∀ n, n ∈ cp_nodes cp → np_expansion_pause n = None ∧ good cp n).
Proof.
  intros H. unfold successful. destruct (existsb _ _) eqn:Hpause.
  { exists false. split; [done|]. split; [done|]. intros Hall. exfalso.
    apply existsb_exists in Hpause as (n & Hn%list_elem_of_In & Hp). by rewrite (proj1 (Hall n Hn)) in Hp. }
  assert (∀ n, n ∈ cp_nodes cp → np_expansion_pause n = None) as Hnone.
  { intros n Hn. destruct (np_expansion_pause n) eqn:E; [|done]. exfalso.
    apply Bool.not_true_iff_false in Hpause. apply Hpause, existsb_exists. exists n.
    split; [by apply list_elem_of_In|by rewrite E]. }
  destruct (any_opt_total (λ n, negb <$> node_successful (owner_fuel cp) cp n) (cp_nodes cp)) as [b Hb].
  { intros n Hn. destruct (good_exact cp n H Hn) as [[_ ->]|[_ ->]]; by eexists. }
  rewrite Hb. exists (negb b). split; [done|]. rewrite negb_true_iff.
  apply any_opt_Some in Hb as [[-> (n & Hn & Hf)]|[-> Hf]].
  - split; [done|]. intros Hall. exfalso. destruct (Hall n Hn) as [_ Hg].
    destruct (good_exact cp n H Hn) as [[_ Hs]|[? _]]; [by rewrite Hs in Hf|done].
  - split; [|done]. intros _ n Hn. split; [by apply Hnone|]. specialize (Hf n Hn).
    destruct (good_exact cp n H Hn) as [[? _]|[_ Hs]]; [done|by rewrite Hs in Hf].
Qed.

(** C17: The outcome of a settled graph always exists and means what it says.  In
    a checkpoint whose loops come after their rounds, the classification ends:
    it is a success exactly when no planner is paused and every node is good, and
    it is partial exactly when it is no success, every composite that declares a
    minimum met it, and every node that is not good lies below such a composite
    that succeeded. *)
Theorem outcome_exact cp :
  owners_later cp = true →
  ∃ o, outcome cp = Some o ∧
    (o = OutcomeSucceeded ↔ ∀ n, n ∈ cp_nodes cp → np_expansion_pause n = None ∧ good cp n) ∧
    (o = OutcomePartial ↔
       o ≠ OutcomeSucceeded ∧
       (∀ n, n ∈ cp_nodes cp → np_min_successful n ≠ None → good cp n) ∧
       (∀ n, n ∈ cp_nodes cp → good cp n ∨ covers cp (np_id n))).
Proof.
  intros H. unfold outcome. destruct (successful_exact cp H) as (ok & -> & Hok). cbn.
  destruct ok; [exists OutcomeSucceeded; naive_solver|].
  destruct (any_opt_total (λ n, if is_some (np_min_successful n)
    then negb <$> node_successful (owner_fuel cp) cp n else Some false) (cp_nodes cp)) as [unmet Hunmet].
  { intros n Hn. destruct (is_some _); [|by eexists]. destruct (good_exact cp n H Hn) as [[_ ->]|[_ ->]]; by eexists. }
  rewrite Hunmet. cbn. apply any_opt_Some in Hunmet as [[-> (n & Hn & Hf)]|[-> Hmin]].
  { exists OutcomeFailed. split; [done|]. split; [naive_solver|]. split; [done|]. intros (_ & Hm & _). exfalso.
    destruct (np_min_successful n) eqn:E; [|done]. specialize (Hm n Hn). rewrite E in Hm.
    destruct (good_exact cp n H Hn) as [[_ Hs]|[? _]]; [by rewrite Hs in Hf|naive_solver]. }
  destruct (cover_exact cp) as (covered & -> & Hcov). cbn.
  match goal with |- context [any_opt ?f (cp_nodes cp)] => destruct (any_opt_total f (cp_nodes cp)) as [failed Hfailed] end.
  { intros n Hn. destruct (good_exact cp n H Hn) as [[_ ->]|[_ ->]]; by eexists. }
  rewrite Hfailed. cbn. eexists. split; [done|]. split; [destruct failed; naive_solver|].
  apply any_opt_Some in Hfailed as [[-> (n & Hn & Hf)]|[-> Hall]].
  - split; [done|]. intros (_ & _ & Hc). exfalso. destruct (Hc n Hn) as [Hg|Hg].
    + destruct (good_exact cp n H Hn) as [[_ Hs]|[? _]]; [by rewrite Hs in Hf|done].
    + destruct (good_exact cp n H Hn) as [[_ Hs]|[_ Hs]]; rewrite Hs in Hf; [done|]. cbn in Hf.
      by rewrite bool_decide_eq_true_2 in Hf by (by apply Hcov).
  - split; [|done]. intros _. split_and!; [done| |].
    + intros n Hn Hm. specialize (Hmin n Hn). destruct (np_min_successful n); [|done]. cbn in Hmin.
      destruct (good_exact cp n H Hn) as [[? _]|[_ Hb]]; [done|by rewrite Hb in Hmin].
    + intros n Hn. specialize (Hall n Hn). destruct (good_exact cp n H Hn) as [[? _]|[_ Hb]]; [by left|right].
      rewrite Hb in Hall. cbn in Hall. apply Hcov. by case_bool_decide.
Qed.

(** ** Witness *)

(** A panel of two lenses that needs one: the first succeeded, the second failed. *)
Definition ex_panel_checkpoint : GraphCheckpoint :=
  let cp := initial_checkpoint (mkPlan "g" [ex_task "a" [] []; ex_task "b" [] []; ex_panel "panel" ["a"; "b"] (Some 1)]) in
  update_node 2 (set_np_state NodeState.Succeeded)
    (update_node 1 (set_np_state NodeState.Failed)
       (update_node 0 (set_np_state NodeState.Succeeded) cp)).

Lemma outcome_exact_witness :
  outcome ex_panel_checkpoint = Some OutcomePartial ∧
  ∃ o, outcome ex_panel_checkpoint = Some o ∧
    (o = OutcomePartial → ∀ n, n ∈ cp_nodes ex_panel_checkpoint →
       good ex_panel_checkpoint n ∨ covers ex_panel_checkpoint (np_id n)).
Proof.
  split; [vm_compute; reflexivity|].
  destruct (outcome_exact ex_panel_checkpoint ltac:(vm_compute; reflexivity)) as (o & Ho & _ & Hpartial).
  exists o. split; [exact Ho|]. intros H. exact (proj2 (proj2 (proj1 Hpartial H))).
Defined.
