(* ===== verification/GraphAttempts.v ===== *)
(** * GraphAttempts: what a graph node runs next

    Models [crates/fabric-runtime/src/graph/next_attempt.rs] (route selection,
    fallback, launch retries and the settlement of an attempt) and of
    [graph/transitions.rs] the transitions of one node's row that start and
    settle an attempt ([begin_attempt], [attempt_key], the outcome part of
    [apply_attempt_observation], [retry_exhausted],
    [retain_automatic_retry_accounting]) with [reset_progress] of
    [graph/patch.rs].

    The owner of the attempts (the host) enters through what it answered: the
    acceptance of a launch, the evidence of a preparation failure, an observation.
    What the output parser concludes from a captured result is the [Contract] of
    the settlement. *)

From Stdlib Require Import Ascii.
From stdpp Require Import base option list strings sets gmap.
From S2P Require Import Prelude CoreTime Routes RoutingTypes RoutingResolve GraphModel.

Local Open Scope string_scope.
Local Open Scope list_scope.
Local Open Scope Z_scope.
Local Open Scope rust_scope.

(** ** Fallback *)

Module PreparationFailure.
Inductive t := AuthRequired | UsageLimited | AdapterUnavailable.
End PreparationFailure.

Record PreparationFallbackEvidence := mkEvidence {
  pe_failure : PreparationFailure.t;
  pe_handoff : FallbackHandoff;
  pe_custody_released : bool;
}.

Definition routing_outcome (o : AttemptOutcome.t) : FallbackOutcome :=
  match o with
  | AttemptOutcome.AuthRequired => OutcomeAuthRequired
  | AttemptOutcome.UsageLimited => UsageLimited
  | AttemptOutcome.AdapterUnavailable => AdapterUnavailable
  | _ => OutcomeOther
  end.
Definition fallback_outcome (o : AttemptOutcome.t) : bool :=
  match o with
  | AttemptOutcome.AuthRequired | AttemptOutcome.UsageLimited | AttemptOutcome.AdapterUnavailable => true
  | _ => false
  end.

Definition fallback_candidate (o : AttemptOutcome.t) (access : AccessMode) (launched : bool) : bool :=
  (negb launched || (access == ReadOnly)) && fallback_outcome o.

(** [template::review_behaviour]: a unit variant is read from its name, or from
    an object whose only member has that name and is null. *)
Inductive ReviewBehaviour := Lens | Verify | Synthesis.
#[export] Instance ReviewBehaviour_eq_dec : EqDecision ReviewBehaviour.
Proof. solve_decision. Defined.
Definition behaviour_variant (name : string) : option ReviewBehaviour :=
  if name == "lens" then Some Lens
  else if name == "verify" then Some Verify
  else if name == "synthesis" then Some Synthesis
  else None.
Definition review_behaviour (node : PlannedNode) : option ReviewBehaviour :=
  match pn_extra node !! "review_behaviour" with
  | Some (JString name) | Some (JObject [(name, JNull)]) => behaviour_variant name
  | _ => None
  end.

Definition review_member (node : PlannedNode) : bool :=
  (pn_access node == ReadOnly)
  && (match review_behaviour node with Some (Lens | Verify) => true | _ => false end
      || is_some_and (pn_role node) (λ role,
           (role == "lens") || starts_with role "lens." || (role == "review.verify"))).
Definition review_substitution (node : PlannedNode) (attempt : GraphAttempt) : bool :=
  review_member node && is_terminal attempt && at_launched attempt
  && (at_outcome attempt == Some AttemptOutcome.TaskFailed).
Definition review_preparation_substitution (node : PlannedNode) (attempt : GraphAttempt) : bool :=
  review_member node && is_terminal attempt && negb (at_launched attempt)
  && is_some_and (at_outcome attempt) (λ o, fallback_candidate o (pn_access node) false).

Definition live_fallback_allowed (o : AttemptOutcome.t) (launched : bool) (access : AccessMode)
    (evidence : option PreparationFallbackEvidence) : bool :=
  if launched then
    allows_switch {| RoutingTypes.outcome := routing_outcome o; handoff := Launched; custody_released := false;
                     fallback_read_only := access == ReadOnly; budget_remaining := true; pinned := false |}
  else
    match evidence with
    | None => false
    | Some evidence =>
        let expected := match pe_failure evidence with
                        | PreparationFailure.AuthRequired => OutcomeAuthRequired
                        | PreparationFailure.UsageLimited => UsageLimited
                        | PreparationFailure.AdapterUnavailable => AdapterUnavailable
                        end in
        (expected == routing_outcome o)
        && allows_switch {| RoutingTypes.outcome := expected; handoff := pe_handoff evidence;
                            custody_released := pe_custody_released evidence;
                            fallback_read_only := access == ReadOnly; budget_remaining := true;
                            pinned := false |}
    end.

Definition fallback_denial (launched : bool) (access : AccessMode) (unreadable : bool) (o : AttemptOutcome.t)
    (cause : option RouteExclusionReason) : string * string :=
  let '(code, denial) :=
    if launched && (access == WorktreeWrite) then
      ("fallback_launched_writer", "A launched writer may have effects; route fallback is denied.")
    else if unreadable then
      ("fallback_evidence_unreadable", "Cannot read preparation fallback evidence.")
    else
      ("fallback_evidence_unavailable",
       "Cannot verify local preparation and released custody for route fallback.") in
  let reason := match o with
                | AttemptOutcome.AuthRequired => "The lane requires authentication."
                | AttemptOutcome.UsageLimited => "The lane reached a usage limit."
                | AttemptOutcome.AdapterUnavailable => "The lane's adapter is unavailable."
                | _ => "The lane failed."
                end in
  (code, match exclusion_detail <$> cause with
         | Some detail => reason +:+ " " +:+ detail +:+ ". " +:+ denial
         | None => reason +:+ " " +:+ denial
         end).

(** ** Allowances *)

Definition allowance (p : NodeProgress) : option Z :=
  np_extra p !! "retry" ≫= λ value, as_u64 (json_index value "retries").
Definition redraw_spent (p : NodeProgress) : Z := extra_u64 (np_extra p) "quota_redraw_spent".
Definition count_if {A} (f : A → bool) (l : list A) : Z := len (List.filter f l).

(** The attempts a redraw charges: those launched, and a last one that was not. *)
Definition charged (attempts : list GraphAttempt) : Z :=
  count_if at_launched attempts
  + (if is_some_and (last attempts) (λ a, negb (at_launched a)) then 1 else 0).
Definition quota_redraw_budget (p : NodeProgress) : bool :=
  is_some_and (allowance p) (λ limit, saturating_add_u64 (redraw_spent p) (charged (np_attempts p)) <=? limit).

Definition record_retry_allowance (retries : Z) (origin : string) (p : NodeProgress) : NodeProgress :=
  set_np_extra (<["retry" := JObject [("origin", JString origin); ("retries", JNumber (PosInt retries))]]> (np_extra p)) p.

Definition retain_automatic_retry_accounting (prior next : NodeProgress) : NodeProgress :=
  let spent :=
    saturating_add_u64 (saturating_add_u64 (redraw_spent prior) (count_if at_launched (np_attempts prior)))
      (if is_some_and (last (np_attempts prior)) (λ a, negb (at_launched a)) then 1 else 0) in
  let archived := saturating_add_u64 (extra_u64 (np_extra prior) "quota_redraw_archived") (len (np_attempts prior)) in
  let extra := match np_extra prior !! "retry" with
               | Some policy => <["retry" := policy]> (np_extra next)
               | None => np_extra next
               end in
  set_np_extra (<["quota_redraw_archived" := JNumber (PosInt archived)]>
                  (<["quota_redraw_spent" := JNumber (PosInt spent)]> extra)) next.

(** [patch::reset_progress] for a node that is no container: its identity and
    bindings stay, everything else takes the default of a decoded row. *)
Definition reset_progress (old : NodeProgress) : option NodeProgress :=
  generation ← checked_add_u64 (extra_u64 (np_extra old) "retry_generation") 1;
  Some {| np_extra := {[ "retry_generation" := JNumber (PosInt generation) ]};
          np_children := [];
          np_source_binding := np_source_binding old;
          np_min_successful := None;
          np_source_commit := np_source_commit old;
          np_writer_binding := np_writer_binding old;
          np_writer_binding_pending := false;
          np_review_base := np_review_base old;
          np_review_base_pending := false;
          np_expansion_pause := None;
          np_expansion_cause := None;
          np_round := np_round old;
          np_gate := None;
          np_ci := None;
          np_land := None;
          np_title := np_title old;
          np_worktree := np_worktree old;
          np_id := np_id old;
          np_state := NodeState.Pending;
          np_cancelled_from := None;
          np_skip_reason := None;
          np_advance_error := None;
          np_advance_error_code := None;
          np_advance_owner_code := None;
          np_launch_retry := None;
          np_last_launch_retry := None;
          np_outputs := None;
          np_previous_attempts := np_previous_attempts old ++ np_attempts old;
          np_attempts := [] |}.

(** ** The next attempt *)

Record GraphLimits := mkLimits { gl_review_substitutions : Z; gl_node_prompt_bytes : Z; gl_concurrency : option Z }.

Inductive NextAttempt :=
| WaitRetryWake
| LaunchRetryExhausted (reason : string)
| NextFail (code message : option string)
| Candidate (route_index : nat) (settlement_retries : option Z)
| NextNone.

Record PreparationObservation := mkPreparation {
  po_evidence : option PreparationFallbackEvidence;
  po_unreadable : bool;
  po_cause : option RouteExclusionReason;
}.
Record NextAttemptFacts := mkFacts {
  nf_launch_accepted : option bool;
  nf_fallback : option PreparationObservation;
}.
Definition no_facts : NextAttemptFacts := mkFacts None None.

Inductive NextAttemptDecision :=
| ObserveLaunchAcceptance
| ObservePreparationFallback
| Decided (decision : NextAttempt).

(** 1. A persisted launch wait that has not elapsed. *)
Definition waits_for_wake (p : NodeProgress) (clock : option WallTime) : bool :=
  is_some_and (np_launch_retry p ≫= rt_wake_at) (λ wake, is_some_and clock (λ now, now <? wake)).

(** 2. The launch retry deadline: a decision, or none when the launch was
    accepted or the deadline is ahead. *)
Definition launch_deadline_check (p : NodeProgress) (clock : option WallTime) (facts : NextAttemptFacts)
    : option NextAttemptDecision :=
  match np_launch_retry p with
  | None => None
  | Some retry =>
      if is_some_and (rt_deadline retry) (λ deadline, is_some_and clock (λ now, deadline <=? now)) then
        let exhausted := Decided (LaunchRetryExhausted
          (unwrap_or (rt_reason retry) "inspect the current state before taking further action")) in
        match last (np_attempts p) with
        | None => Some exhausted
        | Some attempt =>
            if is_some (at_ref attempt) then None
            else match nf_launch_accepted facts with
                 | None => Some ObserveLaunchAcceptance
                 | Some true => None
                 | Some false => Some exhausted
                 end
        end
      else None
  end.

Definition substitutions (p : NodeProgress) : Z := count_if at_review_substitution (np_attempts p).

(** 3. The route to observe or to run: an index, or a decision. *)
Definition next_route (node : PlannedNode) (p : NodeProgress) (limits : GraphLimits) (facts : NextAttemptFacts)
    : NextAttemptDecision + nat :=
  match last (np_attempts p) with
  | None => inr O
  | Some last =>
      if negb (is_terminal last) then inr (Z.to_nat (ak_route_index (at_key last)))
      else if review_substitution node last then
        if substitutions p <? gl_review_substitutions limits then inr (length (np_attempts p))
        else inl (Decided (NextFail None None))
      else if is_some_and (at_outcome last) (λ o, fallback_candidate o (pn_access node) (at_launched last)) then
        match at_outcome last, nf_fallback facts with
        | None, _ => inl (Decided NextNone)
        | Some _, None => inl ObservePreparationFallback
        | Some o, Some fallback =>
            if negb (live_fallback_allowed o (at_launched last) (pn_access node) (po_evidence fallback)) then
              let '(code, message) :=
                fallback_denial (at_launched last) (pn_access node) (po_unreadable fallback) o (po_cause fallback) in
              inl (Decided (NextFail (Some code) (Some message)))
            else if review_preparation_substitution node last
                    && (gl_review_substitutions limits <=? substitutions p) then
              inl (Decided (NextFail (Some "review_substitution_limit") (Some "review substitution limit reached")))
            else inr (length (np_attempts p))
        end
      else inl (Decided NextNone)
  end.

(** 4. Retry accounting. *)
Definition spends (automatic : Z) (attempt : GraphAttempt) : bool :=
  is_terminal attempt
  && (at_launched attempt || ((0 <? automatic) && (at_outcome attempt == Some AttemptOutcome.UsageLimited))).
Definition switching (p : NodeProgress) (route_index : nat) : bool :=
  (0 <? route_index)%nat && is_some_and (last (np_attempts p)) (spends (redraw_spent p)).
Definition account_pinned (node : PlannedNode) (route_index : nat) : bool :=
  match pn_routes node !! pred route_index ≫= ro_account with
  | None => false
  | Some account => is_some_and (pn_routes node !! route_index) (λ next, ro_account next != Some account)
  end.
Definition spent (p : NodeProgress) : Z :=
  saturating_add_u64 (redraw_spent p) (count_if (spends (redraw_spent p)) (np_attempts p)).

Definition accounted (node : PlannedNode) (p : NodeProgress) (route_index : nat) : NextAttempt :=
  if switching p route_index && account_pinned node route_index then
    NextFail (Some "fallback_account_pinned") (Some "Route fallback cannot change the pinned account.")
  else if switching p route_index && is_some_and (allowance p) (λ limit, limit <? spent p) then
    NextFail (Some "fallback_budget_exhausted") (Some "Route fallback retry budget exhausted.")
  else Candidate route_index ((λ limit, saturating_sub_u64 limit (spent p) mod 256) <$> allowance p).

Definition next_attempt_transition (node : PlannedNode) (p : NodeProgress) (limits : GraphLimits)
    (clock : option WallTime) (facts : NextAttemptFacts) : NextAttemptDecision :=
  if waits_for_wake p clock then Decided WaitRetryWake
  else match launch_deadline_check p clock facts with
       | Some decision => decision
       | None =>
           match next_route node p limits facts with
           | inl decision => decision
           | inr route_index => Decided (accounted node p route_index)
           end
       end.

Section Owner.
  (** The host's answers during one decision. *)
  Context {E : Type}
    (launch_accepted : GraphAttempt → result E bool)
    (preparation_fallback_evidence : AttemptKey → string → result E (option PreparationFallbackEvidence))
    (preparation_refusal_cause : AttemptKey → string → result E (option RouteExclusionReason)).

Definition observe_fallback (node : PlannedNode) (last : GraphAttempt) : PreparationObservation :=
  let '(evidence, unreadable) :=
    match at_ref last with
    | Some reference =>
        if at_launched last then (None, false)
        else match preparation_fallback_evidence (at_key last) reference with
             | Ok evidence => (evidence, false)
             | Err _ => (None, true)
             end
    | None => (None, false)
    end in
  let denied := is_some_and (at_outcome last) (λ o,
    negb (live_fallback_allowed o (at_launched last) (pn_access node) evidence)) in
  let cause :=
    if denied then
      reference ← at_ref last;
      match preparation_refusal_cause (at_key last) reference with Ok cause => cause | Err _ => None end
    else None in
  mkPreparation evidence unreadable cause.

(** The [loop] of [decide_next_attempt]; [None] when it has not returned after
    [fuel] rounds. *)
Fixpoint decide_loop (fuel : nat) (node : PlannedNode) (p : NodeProgress) (limits : GraphLimits)
    (clock : option WallTime) (facts : NextAttemptFacts) : option (result E NextAttempt) :=
  match fuel with
  | O => None
  | S fuel' =>
      match next_attempt_transition node p limits clock facts with
      | Decided decision => Some (Ok decision)
      | ObserveLaunchAcceptance =>
          match match last (np_attempts p) with
                | Some attempt => launch_accepted attempt
                | None => Ok false
                end with
          | Err e => Some (Err e)
          | Ok accepted => decide_loop fuel' node p limits clock (mkFacts (Some accepted) (nf_fallback facts))
          end
      | ObservePreparationFallback =>
          match last (np_attempts p) with
          | None => Some (Ok NextNone)
          | Some last =>
              decide_loop fuel' node p limits clock
                (mkFacts (nf_launch_accepted facts) (Some (observe_fallback node last)))
          end
      end
  end.
(** Each of the two facts is asked for once. *)
Definition decide_next_attempt node p limits clock : option (result E NextAttempt) :=
  decide_loop 3 node p limits clock no_facts.
End Owner.

(** ** Settlement *)

Definition fail_node (p : NodeProgress) (code message : option string) : NodeProgress :=
  let p := set_np_state NodeState.Failed p in
  let p := if is_some code then set_np_advance_owner_code None (set_np_advance_error_code code p) else p in
  if is_some message then set_np_advance_error message p else p.

Inductive SettlementFallback := SettleContinue | SettleFail (code message : option string).
Record FallbackEvidence := mkFallbackEvidence {
  fe_preparation : option PreparationFallbackEvidence;
  fe_unreadable : bool;
  fe_review_limit_reached : bool;
  fe_cause : option RouteExclusionReason;
}.

Definition usage_limited_message (route : option GraphRoute) : string :=
  let pool := match route ≫= ro_alias with Some alias => " for pool " +:+ alias | None => "" end in
  bounded ("Provider quota or rate limit reached" +:+ pool
           +:+ "; wait for the allowance to reset or choose an eligible route.") MAX_ADVANCE_ERROR_BYTES.

Definition settlement_fallback_decision (node : PlannedNode) (route_index : nat) (o : AttemptOutcome.t)
    (launched : bool) (evidence : FallbackEvidence) : SettlementFallback :=
  let route := pn_routes node !! route_index in
  let allowed := live_fallback_allowed o launched (pn_access node) (fe_preparation evidence) in
  let last_route := (S route_index =? length (pn_routes node))%nat in
  let more_routes := (S route_index <? length (pn_routes node))%nat in
  if negb allowed || last_route || fe_review_limit_reached evidence then
    let error : option (string * string) := None in
    let error := if o == AttemptOutcome.UsageLimited
                 then Some ("usage_limited", usage_limited_message route) else error in
    let error := if last_route && launched && (pn_access node == ReadOnly)
                    && is_some_and route (λ r, is_some (ro_account r) || is_some (ro_model r))
                 then Some ("fallback_route_pinned", "The selected route is pinned and has no fallback.")
                 else error in
    let error := if negb allowed && more_routes
                 then Some (fallback_denial launched (pn_access node) (fe_unreadable evidence) o (fe_cause evidence))
                 else error in
    let error := if fe_review_limit_reached evidence && more_routes && allowed
                 then Some ("review_substitution_limit", "review substitution limit reached") else error in
    SettleFail (fst <$> error) (snd <$> error)
  else SettleContinue.

(** ** Launch errors *)

(** The host errors a launch may end in; the kinds no rule tells apart are one. *)
Module FacadeError.
Inductive t :=
| Busy | WriterLockBusy | WriterUnknown | Timeout | HomeUnavailable | Io | DispatchUnobserved
| HostDeliveryStage | HostDeliveryLimit | LaunchUnknown | Other.
#[global] Instance eq_dec : EqDecision t.
Proof. solve_decision. Defined.
End FacadeError.
(** The code, detail and next step of a projected diagnostic. *)
Record Diagnostic := mkDiagnostic { dg_code : string; dg_detail : option string; dg_next : option string }.
(** A launch error is a host error with its projection, or of another type. *)
Inductive LaunchError :=
| FacadeLaunchError (error : FacadeError.t) (diagnostic : Diagnostic)
| OtherLaunchError.

(** [provenant_core::retry]: the causes a launch error is mapped to. *)
Inductive RetryCause := CauseContention | CauseTimeout | CauseCancelled | CauseTransport | CausePermanent.
Definition is_transient (cause : RetryCause) : bool :=
  match cause with CausePermanent => false | _ => true end.
Definition launch_retry_kind (error : LaunchError) : bool :=
  is_transient
    match error with
    | FacadeLaunchError e _ =>
        match e with
        | FacadeError.Busy | FacadeError.WriterLockBusy | FacadeError.WriterUnknown => CauseContention
        | FacadeError.Timeout => CauseTimeout
        | FacadeError.HomeUnavailable | FacadeError.Io | FacadeError.DispatchUnobserved
        | FacadeError.HostDeliveryStage | FacadeError.HostDeliveryLimit | FacadeError.LaunchUnknown => CauseTransport
        | FacadeError.Other => CausePermanent
        end
    | OtherLaunchError => CausePermanent
    end.
Definition launch_diagnostic (error : LaunchError) : Diagnostic :=
  match error with
  | FacadeLaunchError _ d => d
  | OtherLaunchError => mkDiagnostic "launch_failed" None None
  end.
Definition bounded_launch_retry_policy (policy : LaunchRetryPolicy) : LaunchRetryPolicy :=
  mkRetryPolicy (rp_limit policy) (bounded (rp_limit_source policy) 32) (rp_first_seconds policy)
    (rp_max_seconds policy).

Definition PRELAUNCH_REFUSAL_PROOF : string := "host_refused_before_acceptance".

Definition launch_recovery (graph_id : string) (error : LaunchError) (p : NodeProgress) : string :=
  let plain c := is_ascii_alphanumeric c || Ascii.eqb c "-" || Ascii.eqb c "_" in
  if match error with FacadeLaunchError FacadeError.LaunchUnknown _ => true | _ => false end
     || negb (forallb (λ a, at_extra a !! PRELAUNCH_REFUSAL_PROOF ≫= as_bool == Some true)
                (List.filter (λ a, negb (is_terminal a)) (np_attempts p)))
  then ""
  else if all_bytes plain graph_id && all_bytes plain (np_id p) then
    "; after correcting the cause, retry with `provenant retry " +:+ graph_id +:+ " --node " +:+ np_id p +:+ "`"
  else "; inspect the graph, then use `provenant retry` with its graph and node selectors".

(** A permanent refusal, or a retry budget spent. *)
Definition block_launch (graph_id : string) (error : LaunchError) (retrying : bool) (p : NodeProgress)
    : NodeProgress :=
  let projected := launch_diagnostic error in
  let detail := unwrap_or (dg_detail projected) (dg_code projected) in
  let action := unwrap_or (dg_next projected) "inspect the node's inputs and state before retrying" in
  let message := bounded ("node " +:+ safe_text (np_id p) +:+ ": the launch failed [" +:+ dg_code projected
                          +:+ "]: " +:+ action +:+ "; " +:+ detail +:+ launch_recovery graph_id error p)
                   MAX_ADVANCE_ERROR_BYTES in
  let code := if retrying then "launch_retry_exhausted" else "launch_refused" in
  let prior := np_launch_retry p in
  let p := set_np_advance_error_code (Some code) p in
  let p := set_np_advance_owner_code (Some (dg_code projected)) p in
  let p := set_np_advance_error (Some message) p in
  let p := set_np_state NodeState.Blocked p in
  let p := set_np_launch_retry None p in
  if retrying then
    set_np_last_launch_retry
      ((λ r, mkRetry (rt_policy r) (rt_failures r) (rt_deadline r) None (rt_reason r)) <$> prior) p
  else p.

Section Launch.
  (** The instants, in microseconds, that the time library can represent. *)
  Context (timestamp : Z → bool).

(** [WallTime::checked_add] after [DurationMicros::from_seconds]. *)
Definition wall_add_seconds (now seconds : Z) : option WallTime :=
  match DurationMicros_from_seconds seconds with
  | Err _ => None
  | Ok micros => let sum := now + micros in
                 if in_i64 sum && negb (sum <? -62167219200000000) && timestamp sum then Some sum else None
  end.

Definition retry_wake (policy : LaunchRetryPolicy) (failures now deadline : Z) : WallTime :=
  let backoff := mkBackoff (from_secs (rp_first_seconds policy)) 2
                   (from_secs (Z.max (rp_max_seconds policy) (rp_first_seconds policy))) in
  match wall_add_seconds now (as_secs (delay backoff (failures - 1))) with
  | Some wake => Z.min wake deadline
  | None => deadline
  end.

(** The row of [apply_launch_disposition]. *)
Definition launch_disposition_row (graph_id : string) (error : LaunchError) (clock : option WallTime)
    (admission_seconds : Z) (policy : LaunchRetryPolicy) (p : NodeProgress) : result string NodeProgress :=
  if negb (launch_retry_kind error) then Ok (block_launch graph_id error false p)
  else match clock with
  | None => Err "wall clock unavailable; cannot record a launch retry wake"
  | Some now =>
      let projected := launch_diagnostic error in
      let p := set_np_advance_owner_code (Some (dg_code projected)) p in
      let retry := unwrap_or (np_launch_retry p) (mkRetry (bounded_launch_retry_policy policy) 0 None None None) in
      let failures := Z.min 255 (rt_failures retry + 1) in
      deadline ← match rt_deadline retry with
                 | Some deadline => Ok deadline
                 | None => ok_or (wall_add_seconds now admission_seconds)
                             "launch retry deadline unavailable; cannot record a retry wake"
                 end;
      let reason := bounded ("[" +:+ dg_code projected +:+ "] "
                      +:+ unwrap_or (dg_next projected) "inspect the current state before taking further action"
                      +:+ "; " +:+ unwrap_or (dg_detail projected) (dg_code projected)) MAX_ADVANCE_ERROR_BYTES in
      let recorded wake := mkRetry (rt_policy retry) failures (Some deadline) wake (Some reason) in
      if (now <? deadline) && (failures <=? rp_limit (rt_policy retry)) then
        Ok (set_np_launch_retry (Some (recorded (Some (retry_wake (rt_policy retry) failures now deadline)))) p)
      else
        Ok (block_launch graph_id error true (set_np_launch_retry (Some (recorded (rt_wake_at retry))) p))
  end.
Definition apply_launch_disposition (cp : GraphCheckpoint) (index : nat) (error : LaunchError)
    (clock : option WallTime) (admission_seconds : Z) (policy : LaunchRetryPolicy)
    : result string GraphCheckpoint :=
  match cp_nodes cp !! index with
  | None => Ok cp
  | Some p =>
      p' ← launch_disposition_row (cp_graph_id cp) error clock admission_seconds policy p;
      Ok (refresh_wake (update_node index (λ _, p') cp))
  end.

(** [launch_disposition]: whether the host proved that it accepted nothing is
    kept with the attempt first. *)
Definition mark_refusal_proof (proof : bool) (attempts : list GraphAttempt) : list GraphAttempt :=
  alter (λ a, let extra := delete PRELAUNCH_REFUSAL_PROOF (at_extra a) in
              set_at_extra (if proof then <[PRELAUNCH_REFUSAL_PROOF := JBool true]> extra else extra) a)
    (pred (length attempts)) attempts.
Definition launch_disposition (launch_refused_before_acceptance : GraphAttempt → bool) (graph_id : string)
    (error : LaunchError) (clock : option WallTime) (admission_seconds : Z) (policy : LaunchRetryPolicy)
    (p : NodeProgress) : result string NodeProgress :=
  let proof := negb (launch_retry_kind error)
               && is_some_and (last (np_attempts p)) launch_refused_before_acceptance in
  launch_disposition_row graph_id error clock admission_seconds policy
    (set_np_attempts (mark_refusal_proof proof (np_attempts p)) p).

Definition retry_exhausted (p : NodeProgress) (reason : string) : NodeProgress :=
  let prior := np_launch_retry p in
  let p := set_np_advance_error_code (Some "launch_retry_exhausted") p in
  let p := set_np_advance_error (Some (bounded ("node " +:+ safe_text (np_id p) +:+ ": the launch failed: " +:+ reason)
                                  MAX_ADVANCE_ERROR_BYTES)) p in
  let p := set_np_state NodeState.Blocked p in
  set_np_last_launch_retry
    ((λ r, mkRetry (rt_policy r) (rt_failures r) (rt_deadline r) None (rt_reason r)) <$> prior)
    (set_np_launch_retry None p).

(** ** Starting an attempt *)

Definition attempt_key (graph_id : string) (node : PlannedNode) (p : NodeProgress) (route_index : nat)
    : result string AttemptKey :=
  let extra : ExtraFields := match np_extra p !! "retry_generation" with
                             | Some generation => {[ "retry_generation" := generation ]}
                             | None => ∅
                             end in
  let predecessor := last (omap at_ref (List.filter is_terminal (recorded_attempts p))) in
  let extra := match predecessor with
               | Some reference => <["previous_attempt_ref" := JString reference]> extra
               | None => extra
               end in
  let index := Z.of_nat route_index in
  if 65535 <? index then Err "route count"
  else Ok match last (np_attempts p) with
          | Some attempt => if is_terminal attempt then mkKey extra graph_id (pn_id node) index else at_key attempt
          | None => mkKey extra graph_id (pn_id node) index
          end.

Record LaunchTiming := mkTiming {
  ti_clock : option WallTime;
  ti_admission_seconds : Z;
  ti_policy : LaunchRetryPolicy;
}.
Record LaunchFacts := mkLaunchFacts {
  lf_input_cap : Z;
  lf_placement_host_id : option string;
  lf_launch_actor : string;
  lf_timing : option LaunchTiming;
}.
(** [begin_attempt], but for the separation snapshot it clears. *)
Definition begin_attempt (node : PlannedNode) (key : AttemptKey) (route : GraphRoute) (facts : LaunchFacts)
    (p : NodeProgress) : NodeProgress :=
  let substitution := is_some_and (last (np_attempts p)) (λ a,
    review_substitution node a || review_preparation_substitution node a) in
  let extra : ExtraFields :=
    match pn_attempt_host node with
    | None => ∅
    | Some host =>
        let extra : ExtraFields := {[ "placement_host" := JString host ]} in
        match lf_placement_host_id facts with
        | Some stable => <["placement_host_id" := JString stable]> extra
        | None => extra
        end
    end in
  let attempt := {| at_extra := extra; at_launched := true; at_review_substitution := substitution;
                    at_key := key; at_route := route; at_state := AttemptState.Starting; at_ref := None;
                    at_outcome := None; at_launch_actor := lf_launch_actor facts;
                    at_input_cap := Some (lf_input_cap facts); at_usage := None; at_settled := 0 |} in
  let p := set_np_attempts (np_attempts p ++ [attempt]) p in
  let p := set_np_state NodeState.Running p in
  match lf_timing facts with
  | None => p
  | Some timing =>
      let deadline := ti_clock timing ≫= λ now, wall_add_seconds now (ti_admission_seconds timing) in
      set_np_launch_retry
        (Some (mkRetry (bounded_launch_retry_policy (ti_policy timing)) 0 deadline None
                 (if is_none deadline
                  then Some "wall clock unavailable; launch retry timing is unavailable" else None))) p
  end.
End Launch.

(** ** Settling an attempt *)

(** What the checks on a captured result concluded, and the outputs it left. *)
Record Contract := mkContract {
  ct_warned : bool;
  ct_disposition_error : option (string * string);
  ct_review_result : bool;
  ct_handoff : bool;
  ct_matched_required : bool;
  ct_outputs : NodeOutputs;
}.

Definition stops_without_work (node : PlannedNode) (launched : bool) (o : AttemptOutcome.t) (c : Contract) : bool :=
  negb (ct_warned c) && launched && (pn_access node == WorktreeWrite) && (o == AttemptOutcome.StoppedNoWork).

(** Provider success alone does not satisfy an explicit result contract. *)
Definition classify_outcome (node : PlannedNode) (launched : bool) (o : AttemptOutcome.t) (c : Contract)
    : AttemptOutcome.t :=
  if match o with
     | AttemptOutcome.Succeeded | AttemptOutcome.DeclaredStop | AttemptOutcome.StoppedNoWork => true
     | _ => false
     end && is_some (ct_disposition_error c) then AttemptOutcome.TaskFailed
  else if (o == AttemptOutcome.DeclaredStop) && ct_review_result c && negb (ct_warned c) then AttemptOutcome.Succeeded
  else if stops_without_work node launched o c then AttemptOutcome.StoppedNoWork
  else if ct_warned c || (o == AttemptOutcome.DeclaredStop) then AttemptOutcome.OtherFailure
  else if (o == AttemptOutcome.Succeeded)
          && ((negb (ct_review_result c) && is_some (pn_required_verdict node)
               && negb (writer node && ct_handoff c) && negb (ct_matched_required c))
              || is_some (ct_disposition_error c)) then AttemptOutcome.TaskFailed
  else o.

Record ObservationFacts := mkObservationFacts {
  of_route_index : nat;
  of_usage : option AttemptUsage;
  of_fallback_evidence : option PreparationFallbackEvidence;
  of_evidence_unreadable : bool;
  of_fallback_cause : option RouteExclusionReason;
}.

(** [match outcome]: the state the node is left in, and whether it goes on to
    another route at once. *)
Definition settle_outcome (node : PlannedNode) (limits : GraphLimits) (o : AttemptOutcome.t) (launched : bool)
    (facts : ObservationFacts) (attempt : GraphAttempt) (p : NodeProgress) : NodeProgress * bool :=
  let route_index := of_route_index facts in
  let limit_reached := gl_review_substitutions limits <=? substitutions p in
  match o with
  | AttemptOutcome.Succeeded => (set_np_state NodeState.Succeeded p, false)
  | AttemptOutcome.AuthRequired | AttemptOutcome.UsageLimited | AttemptOutcome.AdapterUnavailable =>
      let review_limit_reached := review_preparation_substitution node attempt && limit_reached in
      match settlement_fallback_decision node route_index o launched
              (mkFallbackEvidence (of_fallback_evidence facts) (of_evidence_unreadable facts)
                 review_limit_reached (of_fallback_cause facts)) with
      | SettleContinue => (p, true)
      | SettleFail code message => (fail_node p code message, false)
      end
  | AttemptOutcome.DeadlineExceeded =>
      (set_np_state NodeState.Failed
         (set_np_advance_error (Some "node deadline exceeded; lane was cancelled")
            (set_np_advance_error_code (Some "deadline_exceeded") p)), false)
  | AttemptOutcome.TaskFailed =>
      if review_substitution node attempt && (S route_index <? length (pn_routes node))%nat && negb limit_reached then
        (set_np_state NodeState.Running
           (set_np_advance_owner_code None
              (set_np_advance_error_code None (set_np_advance_error None (set_np_outputs None p)))), true)
      else (set_np_state NodeState.Failed p, false)
  | AttemptOutcome.OtherFailure | AttemptOutcome.ReviewRequired | AttemptOutcome.DeclaredStop
  | AttemptOutcome.StoppedNoWork => (set_np_state NodeState.Failed p, false)
  end.

Inductive AttemptObservation :=
| ObservedPending (attempt_ref : option string)
| ObservedUnknown (attempt_ref : option string)
| ObservedTerminal (attempt_ref : option string) (o : AttemptOutcome.t) (launched : bool) (contract : Contract).

(** [attempts.last_mut()]. *)
Definition set_last_attempt (attempt : GraphAttempt) (p : NodeProgress) : NodeProgress :=
  set_np_attempts (<[pred (length (np_attempts p)) := attempt]> (np_attempts p)) p.

Definition settled_attempt (attempt : GraphAttempt) (reference : option string) (o : AttemptOutcome.t)
    (launched : bool) (usage : option AttemptUsage) : GraphAttempt :=
  set_at_outcome (Some o)
    (set_at_ref reference (set_at_state AttemptState.Terminal (set_at_launched launched (set_at_usage usage attempt)))).

(** The row of [apply_attempt_observation] and whether the loop goes on. *)
Definition apply_attempt_observation (node : PlannedNode) (limits : GraphLimits) (observation : AttemptObservation)
    (facts : ObservationFacts) (p : NodeProgress) : result string (NodeProgress * bool) :=
  match last (np_attempts p) with
  | None => Err "an observed attempt must have a checkpoint row"
  | Some attempt =>
      let p := if is_some (np_launch_retry p)
               then set_np_advance_owner_code None (set_np_launch_retry None p) else p in
      match observation with
      | ObservedPending reference =>
          Ok (set_np_state NodeState.Running
                (set_last_attempt (set_at_ref reference (set_at_state AttemptState.Running attempt)) p), false)
      | ObservedUnknown reference =>
          Ok (set_np_state NodeState.Running
                (set_last_attempt (set_at_ref reference (set_at_state AttemptState.Unresolved attempt)) p), false)
      | ObservedTerminal reference o launched c =>
          let o' := classify_outcome node launched o c in
          let p := if negb (is_some (ct_disposition_error c) ) && stops_without_work node launched o c then
                     set_np_advance_error (Some "writer stopped with no work: no new commit")
                       (set_np_advance_error_code (Some "stopped_no_work") p)
                   else p in
          let attempt := settled_attempt attempt reference o' launched (of_usage facts) in
          let p := set_last_attempt attempt p in
          let p := match o', ct_disposition_error c with
                   | AttemptOutcome.TaskFailed, Some (code, reason) =>
                       set_np_advance_error (Some (bounded reason MAX_ADVANCE_ERROR_BYTES))
                         (set_np_advance_error_code (Some code) p)
                   | _, _ => p
                   end in
          let p := set_np_outputs (Some (ct_outputs c)) p in
          Ok (settle_outcome node limits o' launched facts attempt p)
      end
  end.

(** [redraw_quota_alias]: the settled execution is archived and the row starts
    over with what it spent. *)
Definition redraw_quota_alias (p : NodeProgress) : option NodeProgress :=
  let prior := set_np_state NodeState.Failed p in
  next ← reset_progress prior;
  Some (retain_automatic_retry_accounting prior next).
(** When the driver asks the host for a redraw. *)
Definition redraw_considered (route : GraphRoute) (observation : AttemptObservation) (p : NodeProgress) : bool :=
  match observation with
  | ObservedTerminal (Some _) AttemptOutcome.UsageLimited _ _ =>
      is_some (ro_alias route) && is_none (ro_model route) && quota_redraw_budget p
  | _ => false
  end.
