(* ===== verification/GraphAttemptRuns.v ===== *)
(** * GraphAttemptRuns: the attempts of one graph node over its lifetime

    The attempt loop of [advance_inner] in [crates/fabric-runtime/src/graph.rs]
    as a step relation on the row of one node: [node_step] starts an attempt, observes
    it, records a launch error or a refusal, or draws the same alias again.
    [row_ok] is the invariant of every run, [switch_justified] what a
    change of route rests on, [decide_next_attempt_returns] that a decision is
    always reached, and [launch_retries_bounded] that launch errors end. *)

From stdpp Require Import base option list strings sets gmap.
From S2P Require Import Prelude CoreTime Routes RoutingTypes RoutingResolve GraphModel GraphAttempts.

Local Open Scope string_scope.
Local Open Scope list_scope.
Local Open Scope Z_scope.
Local Open Scope rust_scope.

(** ** Steps *)

Section Steps.
  Context (timestamp : Z → bool) (graph_id : string) (node : PlannedNode) (limits : GraphLimits).

(** Whatever else the driver does to a row (source and worktree bindings,
    admission refusals, slot waits, gates, cancellation and its reversal) leaves
    its attempts and its allowance alone. *)
Definition keeps_attempts (p q : NodeProgress) : Prop :=
  np_attempts q = np_attempts p ∧ np_previous_attempts q = np_previous_attempts p ∧
  np_extra q !! "retry" = np_extra p !! "retry" ∧
  np_extra q !! "quota_redraw_spent" = np_extra p !! "quota_redraw_spent".

(** A row that is to be recorded: it has no attempt that may still run. *)
Definition needs_record (p : NodeProgress) : bool := is_none_or (last (np_attempts p)) is_terminal.

Inductive node_step : NodeProgress → NodeProgress → Prop :=
| step_begin p clock facts route_index retries key route launch :
    settled (np_state p) = false →
    next_attempt_transition node p limits clock facts = Decided (Candidate route_index retries) →
    pn_routes node !! route_index = Some route →
    attempt_key graph_id node p route_index = Ok key →
    needs_record p = true →
    node_step p (begin_attempt timestamp node key route launch p)
| step_observe p attempt observation facts p' go :
    last (np_attempts p) = Some attempt → is_terminal attempt = false →
    of_route_index facts = Z.to_nat (ak_route_index (at_key attempt)) →
    apply_attempt_observation node limits observation facts p = Ok (p', go) →
    node_step p p'
| step_redraw p attempt route observation facts p' go p'' :
    last (np_attempts p) = Some attempt → is_terminal attempt = false →
    of_route_index facts = Z.to_nat (ak_route_index (at_key attempt)) →
    pn_routes node !! of_route_index facts = Some route →
    redraw_considered route observation p = true →
    apply_attempt_observation node limits observation facts p = Ok (p', go) →
    redraw_quota_alias p' = Some p'' →
    node_step p p''
| step_launch_error p attempt refused error clock admission_seconds policy p' :
    last (np_attempts p) = Some attempt → at_state attempt = AttemptState.Starting → at_ref attempt = None →
    launch_disposition timestamp refused graph_id error clock admission_seconds policy p = Ok p' →
    node_step p p'
| step_exhausted p clock facts reason :
    next_attempt_transition node p limits clock facts = Decided (LaunchRetryExhausted reason) →
    node_step p (retry_exhausted p reason)
| step_fail p clock facts code message :
    next_attempt_transition node p limits clock facts = Decided (NextFail code message) →
    node_step p (fail_node p code message)
| step_other p p' : keeps_attempts p p' → node_step p p'.

(** ** The invariant *)

Definition launches (p : NodeProgress) : Z := count_if at_launched (recorded_attempts p).
Definition earlier (p : NodeProgress) : list GraphAttempt := removelast (np_attempts p).

Record row_ok (limit bonus : Z) (p : NodeProgress) : Prop := {
  ok_allowance : allowance p = Some limit;
  ok_limit : 0 ≤ limit ≤ 255;
  ok_spent : 0 ≤ redraw_spent p;
  ok_archived : count_if at_launched (np_previous_attempts p) ≤ redraw_spent p;
  ok_keys i a : np_attempts p !! i = Some a → ak_route_index (at_key a) = Z.of_nat i;
  ok_routes : (length (np_attempts p) ≤ length (pn_routes node))%nat;
  ok_terminal : Forall (λ a, is_terminal a = true) (earlier p);
  ok_open : Forall (λ a, is_terminal a = false → at_launched a = true) (np_attempts p);
  ok_bonus : 0 ≤ bonus;
  ok_budget : redraw_spent p + count_if (spends (redraw_spent p)) (earlier p) ≤ limit + bonus;
  ok_writer : pn_access node = WorktreeWrite → Forall (λ a, at_launched a = false) (earlier p);
}.

Lemma count_if_app {A} (f : A → bool) l k : count_if f (l ++ k) = count_if f l + count_if f k.
Proof. unfold count_if, len. rewrite List.filter_app, length_app. lia. Qed.
Lemma count_if_nonneg {A} (f : A → bool) l : 0 ≤ count_if f l.
Proof. unfold count_if, len. lia. Qed.
Lemma count_if_single {A} (f : A → bool) x : count_if f [x] = if f x then 1 else 0.
Proof. unfold count_if, len. cbn. by destruct (f x). Qed.
Lemma count_if_le {A} (f g : A → bool) l :
  Forall (λ x, f x = true → g x = true) l → count_if f l ≤ count_if g l.
Proof.
  induction 1 as [|x l Hx _ IH]; [done|]. change (x :: l) with ([x] ++ l). rewrite !count_if_app, !count_if_single.
  destruct (f x), (g x); lia.
Qed.

(** The launched attempts of a row are paid for. *)
Lemma row_ok_launches limit bonus p : row_ok limit bonus p → launches p ≤ limit + bonus + 1.
Proof.
  intros H. unfold launches, recorded_attempts. rewrite count_if_app.
  pose proof (ok_archived _ _ _ H) as Ha. pose proof (ok_budget _ _ _ H) as Hb. pose proof (ok_terminal _ _ _ H) as Ht.
  assert (count_if at_launched (np_attempts p) ≤ count_if (spends (redraw_spent p)) (earlier p) + 1); [|lia].
  unfold earlier in *. destruct (np_attempts p) as [|x l] using rev_ind; [done|].
  rewrite List.removelast_last in *. rewrite count_if_app, count_if_single.
  assert (count_if at_launched l ≤ count_if (spends (redraw_spent p)) l); [|destruct (at_launched x); lia].
  apply count_if_le. eapply Forall_impl; [exact Ht|]. cbn. intros a Hta Hla. unfold spends. by rewrite Hta, Hla.
Qed.

(** ** Preservation *)

Lemma keeps_attempts_ok limit bonus p q : keeps_attempts p q → row_ok limit bonus p → row_ok limit bonus q.
Proof.
  intros (Ha & Hp & Hr & Hs) []. unfold earlier in *.
  assert (redraw_spent q = redraw_spent p) as Hspent by (unfold redraw_spent, extra_u64; by rewrite Hs).
  split; unfold earlier; rewrite ?Ha, ?Hp, ?Hspent; try done. unfold allowance in *. by rewrite Hr.
Qed.

Lemma keeps_refl p : keeps_attempts p p.
Proof. done. Qed.

(** Replacing the last attempt by one with the same key. *)
Lemma replace_last_ok limit bonus p q l a a' :
  np_attempts p = l ++ [a] → np_attempts q = l ++ [a'] → np_previous_attempts q = np_previous_attempts p →
  np_extra q = np_extra p → at_key a' = at_key a → (is_terminal a' = false → at_launched a' = true) →
  row_ok limit bonus p → row_ok limit bonus q.
Proof.
  intros Hp Hq Hprev Hx Hkey Hopen []. unfold earlier in *. rewrite Hp in *. rewrite List.removelast_last in *.
  assert (redraw_spent q = redraw_spent p) as Hs by (unfold redraw_spent; by rewrite Hx).
  split; unfold earlier; rewrite ?Hq, ?List.removelast_last, ?Hprev, ?Hs; try done.
  - unfold allowance in *. by rewrite Hx.
  - intros i b Hi. destruct (decide (i = length l)) as [->|Hne].
    + rewrite lookup_app_r, Nat.sub_diag in Hi by lia. injection Hi as <-. rewrite Hkey.
      apply ok_keys0. by rewrite lookup_app_r, Nat.sub_diag by lia.
    + pose proof (lookup_lt_Some _ _ _ Hi) as Hlt. rewrite length_app in Hlt. cbn in Hlt.
      apply ok_keys0. rewrite lookup_app_l in * by lia. done.
  - rewrite length_app in *. done.
  - apply Forall_app in ok_open0 as [Hl _]. apply Forall_app. split; [done|]. by constructor.
Qed.

Lemma settle_outcome_keeps o launched facts attempt p :
  let '(q, _) := settle_outcome node limits o launched facts attempt p in
  np_extra q = np_extra p ∧ np_previous_attempts q = np_previous_attempts p ∧ np_attempts q = np_attempts p.
Proof.
  assert (∀ code message, let q := fail_node p code message in
    np_extra q = np_extra p ∧ np_previous_attempts q = np_previous_attempts p ∧ np_attempts q = np_attempts p) as Hfail.
  { intros code message. unfold fail_node. by destruct code, message. }
  unfold settle_outcome. destruct o; try done.
  all: try (destruct (settlement_fallback_decision _ _ _ _ _); [done|apply Hfail]).
  by destruct (review_substitution node attempt && _ && _).
Qed.

Lemma apply_observation_inv observation facts p p' go l a :
  np_attempts p = l ++ [a] → apply_attempt_observation node limits observation facts p = Ok (p', go) →
  ∃ a', np_attempts p' = l ++ [a'] ∧ np_extra p' = np_extra p ∧ np_previous_attempts p' = np_previous_attempts p ∧
    at_key a' = at_key a ∧ (is_terminal a' = false → at_launched a' = at_launched a) ∧
    (∀ r o b c, observation = ObservedTerminal r o b c → is_terminal a' = true ∧ at_launched a' = b).
Proof.
  intros Hl. unfold apply_attempt_observation. rewrite Hl, last_snoc.
  assert (∀ (b : GraphAttempt), <[pred (length (l ++ [a])) := b]> (l ++ [a]) = l ++ [b]) as Hins.
  { intros b. rewrite length_app, Nat.add_comm. cbn. by rewrite insert_app_r_alt, Nat.sub_diag by lia. }
  set (q := if is_some (np_launch_retry p) then _ else p).
  assert (np_attempts q = l ++ [a] ∧ np_extra q = np_extra p ∧ np_previous_attempts q = np_previous_attempts p)
    as (Hq & Hqx & Hqp) by (unfold q; by destruct (is_some _)).
  destruct observation as [r|r|r o b c].
  1,2: intros [= <- <-]; cbn; rewrite Hq, Hins; eexists; split_and!; try done.
  set (o' := classify_outcome _ _ _ _). set (a' := settled_attempt _ _ _ _ _).
  match goal with |- Ok (settle_outcome _ _ _ _ _ _ ?x) = _ → _ => set (w := x) end.
  assert (np_attempts w = l ++ [a'] ∧ np_extra w = np_extra p ∧ np_previous_attempts w = np_previous_attempts p)
    as (Hw & Hwx & Hwp).
  { unfold w. destruct (negb _ && _), o', (ct_disposition_error c) as [[]|]; cbn; rewrite ?Hq, ?Hins; done. }
  pose proof (settle_outcome_keeps o' b facts a' w) as Hk.
  destruct (settle_outcome _ _ _ _ _ _ w) as [q' g]. destruct Hk as (Hx & Hp & Ha). intros [= <- <-].
  exists a'. rewrite Ha, Hx, Hp. split_and!; try done. by intros ? ? ? ? [= <- <- <- <-].
Qed.

(** ** Changing the route *)

Lemma next_candidate_inv p clock facts route_index retries :
  next_attempt_transition node p limits clock facts = Decided (Candidate route_index retries) →
  next_route node p limits facts = inr route_index ∧ accounted node p route_index = Candidate route_index retries.
Proof.
  unfold next_attempt_transition. destruct (waits_for_wake p clock); [done|].
  destruct (launch_deadline_check p clock facts) as [d|] eqn:Hd.
  - intros ->. exfalso. revert Hd. unfold launch_deadline_check. destruct (np_launch_retry p); [|done].
    destruct (is_some_and _ _); [|done]. destruct (last (np_attempts p)); [|done].
    destruct (is_some _); [done|]. by destruct (nf_launch_accepted facts) as [[]|].
  - destruct (next_route node p limits facts) as [d|ri] eqn:Hr.
    + intros ->. exfalso. revert Hr. unfold next_route. destruct (last (np_attempts p)) as [a|]; [|done].
      repeat (destruct (fallback_denial _ _ _ _ _) || case_match; try done).
    + intros [= H]. assert (ri = route_index) as ->; [|by split]. revert H. unfold accounted.
      destruct (_ && _); [done|]. destruct (_ && _); [done|]. by intros [= ->].
Qed.

(** What lets another route start after the terminal attempt [a]. *)
Definition justified (p : NodeProgress) (facts : NextAttemptFacts) (a : GraphAttempt) : Prop :=
  (review_substitution node a = true ∧ substitutions p < gl_review_substitutions limits) ∨
  (∃ o, at_outcome a = Some o ∧ fallback_outcome o = true ∧
     (at_launched a = true → pn_access node = ReadOnly ∧ o ≠ AttemptOutcome.AdapterUnavailable) ∧
     (at_launched a = false →
        ∃ seen e, nf_fallback facts = Some seen ∧ po_evidence seen = Some e ∧
          ((pe_handoff e = HandoffLocal ∧ pe_custody_released e = true) ∨
           (pe_handoff e = Launched ∧ pn_access node = ReadOnly)))).

Lemma fallback_allowed_inv o launched access evidence :
  live_fallback_allowed o launched access evidence = true →
  (launched = true → access = ReadOnly ∧ o ≠ AttemptOutcome.AdapterUnavailable) ∧
  (launched = false → ∃ e, evidence = Some e ∧
     ((pe_handoff e = HandoffLocal ∧ pe_custody_released e = true) ∨ (pe_handoff e = Launched ∧ access = ReadOnly))).
Proof.
  unfold live_fallback_allowed, allows_switch. destruct launched; cbn.
  - intros H. split; [|done]. intros _. destruct access; [|by destruct o]. split; [done|]. by destruct o.
  - destruct evidence as [e|]; [|done]. intros H. split; [done|]. intros _. exists e. split; [done|].
    destruct (pe_handoff e), (pe_custody_released e), access; auto; cbn in H; exfalso; revert H;
      destruct (pe_failure e), (bool_decide _); done.
Qed.

Lemma next_route_terminal p facts a route_index :
  next_route node p limits facts = inr route_index → last (np_attempts p) = Some a → is_terminal a = true →
  route_index = length (np_attempts p) ∧ justified p facts a.
Proof.
  unfold next_route. intros H Ha Ht. rewrite Ha, Ht in H. cbn in H.
  destruct (review_substitution node a) eqn:Hrev.
  { destruct (_ <? _) eqn:Hlim; [|done]. injection H as <-. split; [done|]. left. by apply Z.ltb_lt in Hlim. }
  destruct (is_some_and _ _) eqn:Hc; [|done]. apply is_some_and_true in Hc as (o & Ho & Hcand). rewrite Ho in H.
  destruct (nf_fallback facts) as [seen|] eqn:Hseen; [|done].
  destruct (live_fallback_allowed _ _ _ _) eqn:Hlive; cbn in H; [|by destruct (fallback_denial _ _ _ _ _)].
  destruct (_ && _); [done|]. injection H as <-. split; [done|]. right. exists o.
  apply andb_true_iff in Hcand as [_ Hf]. apply fallback_allowed_inv in Hlive as [Hl Hn].
  split_and!; try done. intros Hu. destruct (Hn Hu) as (e & He & Hcase). by exists seen, e.
Qed.

Lemma justified_writer p facts a :
  justified p facts a → pn_access node = WorktreeWrite → at_launched a = false.
Proof.
  intros [[Hrev _]|(o & _ & _ & Hl & _)] Hw.
  - unfold review_substitution, review_member in Hrev. rewrite Hw in Hrev. done.
  - destruct (at_launched a); [|done]. destruct (Hl eq_refl). congruence.
Qed.

Lemma accounted_Candidate p route_index retries limit :
  accounted node p route_index = Candidate route_index retries → allowance p = Some limit →
  switching p route_index = true → spent p ≤ limit.
Proof.
  unfold accounted. intros H Hlim Hsw. rewrite Hsw, Hlim in H. cbn in H.
  destruct (account_pinned _ _); [done|]. destruct (limit <? spent p) eqn:E; [done|]. by apply Z.ltb_ge in E.
Qed.

Lemma saturating_le a b limit : 0 ≤ a → 0 ≤ b → limit ≤ 255 → saturating_add_u64 a b ≤ limit → a + b ≤ limit.
Proof. unfold saturating_add_u64, clamp, u64_max. lia. Qed.

Lemma begin_ok limit bonus p clock facts route_index retries key route launch :
  next_attempt_transition node p limits clock facts = Decided (Candidate route_index retries) →
  pn_routes node !! route_index = Some route → attempt_key graph_id node p route_index = Ok key →
  needs_record p = true → row_ok limit bonus p → row_ok limit bonus (begin_attempt timestamp node key route launch p).
Proof.
  intros [Hroute Hacc]%next_candidate_inv Hget Hkey Hneeds Hok. pose proof Hok as [].
  set (q := begin_attempt _ _ _ _ _ _).
  assert (∃ n, np_attempts q = np_attempts p ++ [n] ∧ at_key n = key ∧ is_terminal n = false ∧ at_launched n = true)
    as (n & Hq & Hnk & Hnt & Hnl) by (unfold q, begin_attempt; destruct (lf_timing launch); cbn; eauto).
  assert (np_extra q = np_extra p ∧ np_previous_attempts q = np_previous_attempts p) as [Hx Hp]
    by (unfold q, begin_attempt; by destruct (lf_timing launch)).
  assert (redraw_spent q = redraw_spent p) as Hs by (unfold redraw_spent; by rewrite Hx).
  assert (route_index = length (np_attempts p) ∧
    Forall (λ a, is_terminal a = true) (np_attempts p) ∧
    redraw_spent p + count_if (spends (redraw_spent p)) (np_attempts p) ≤ limit + bonus ∧
    (pn_access node = WorktreeWrite → Forall (λ a, at_launched a = false) (np_attempts p))) as (Hri & Hterm & Hbud & Hwr).
  { unfold needs_record in Hneeds. destruct (last (np_attempts p)) as [a|] eqn:Hlast; cbn in Hneeds.
    2:{ apply last_None in Hlast as Hnil. unfold next_route in Hroute. rewrite Hlast in Hroute. injection Hroute as <-.
        unfold earlier in *. rewrite Hnil in *. split_and!; try done; by constructor. }
    destruct (next_route_terminal _ _ _ _ Hroute Hlast Hneeds) as [-> Hjust]. split; [done|].
    pose proof Hlast as [l Hl]%last_Some. unfold earlier in *. rewrite Hl in *. rewrite List.removelast_last in *.
    split_and!.
    - apply Forall_app. by split; [|constructor].
    - rewrite count_if_app, count_if_single. destruct (spends (redraw_spent p) a) eqn:Hsp; [|lia].
      assert (spent p ≤ limit) as Hle.
      { eapply accounted_Candidate; [exact Hacc|done|]. unfold switching. rewrite Hl, last_snoc.
        rewrite length_app, Nat.add_comm. cbn [is_some_and]. by rewrite Hsp. }
      unfold spent in Hle. rewrite Hl, count_if_app, count_if_single, Hsp in Hle.
      pose proof (count_if_nonneg (spends (redraw_spent p)) l). apply saturating_le in Hle; lia.
    - intros Hw. apply Forall_app. split; [by apply ok_writer0|]. constructor; [|done].
      by eapply justified_writer. }
  unfold attempt_key in Hkey. destruct (65535 <? _) eqn:Hmax; [done|].
  assert (ak_route_index key = Z.of_nat route_index) as Hki.
  { injection Hkey as <-. unfold needs_record in Hneeds. destruct (last (np_attempts p)) as [a|]; [|done].
    cbn in Hneeds. by rewrite Hneeds. }
  split; unfold earlier; rewrite ?Hq, ?List.removelast_last, ?Hp, ?Hs; try done.
  - unfold allowance in *. by rewrite Hx.
  - intros i a Hi. destruct (decide (i = length (np_attempts p))) as [->|Hne].
    + rewrite lookup_app_r, Nat.sub_diag in Hi by lia. injection Hi as <-. by rewrite Hnk, Hki, Hri.
    + pose proof (lookup_lt_Some _ _ _ Hi) as Hlt. rewrite length_app in Hlt. cbn in Hlt.
      apply ok_keys0. rewrite lookup_app_l in Hi by lia. done.
  - apply lookup_lt_Some in Hget. rewrite length_app. cbn. lia.
  - apply Forall_app. split; [done|]. by constructor.
Qed.

(** ** Drawing again *)

Lemma redraw_budget_le limit bonus p l a :
  row_ok limit bonus p → np_attempts p = l ++ [a] → at_launched a = true → quota_redraw_budget p = true →
  redraw_spent p + count_if at_launched l + 1 ≤ limit.
Proof.
  intros [] Hl Ha. unfold quota_redraw_budget. rewrite ok_allowance0. cbn. rewrite Hl. unfold charged.
  rewrite last_snoc, count_if_app, count_if_single. cbn. rewrite Ha. cbn. intros Hle%Z.leb_le.
  pose proof (count_if_nonneg at_launched l). apply saturating_le in Hle; lia.
Qed.

Lemma saturating_small a b : 0 ≤ a → 0 ≤ b → a + b ≤ 255 → saturating_add_u64 a b = a + b.
Proof. unfold saturating_add_u64, clamp, u64_max. lia. Qed.

Lemma redraw_ok limit bonus p p' q l a a' :
  row_ok limit bonus p → np_attempts p = l ++ [a] → at_launched a = true → quota_redraw_budget p = true →
  np_attempts p' = l ++ [a'] → np_extra p' = np_extra p → np_previous_attempts p' = np_previous_attempts p →
  redraw_quota_alias p' = Some q → row_ok limit bonus q.
Proof.
  intros Hok Hl Ha Hbudget Hl' Hx Hp Hq.
  pose proof (redraw_budget_le _ _ _ _ _ Hok Hl Ha Hbudget) as Hle. destruct Hok.
  unfold redraw_quota_alias, reset_progress in Hq. apply bind_Some in Hq as (next & Hnext & [= <-]).
  apply bind_Some in Hnext as (generation & _ & [= <-]).
  assert (redraw_spent (set_np_state NodeState.Failed p') = redraw_spent p) as Hs0 by (unfold redraw_spent; cbn; by rewrite Hx).
  pose proof (count_if_nonneg at_launched l) as Hn.
  set (prior := set_np_state NodeState.Failed p') in *.
  match goal with |- row_ok _ _ ?x => set (q := x) end.
  assert (redraw_spent q = redraw_spent p + count_if at_launched l + 1) as Hs.
  { unfold q, redraw_spent at 1, retain_automatic_retry_accounting, extra_u64. cbn -[saturating_add_u64].
    rewrite lookup_insert_ne, lookup_insert_eq by done. cbn -[saturating_add_u64]. rewrite Hl', Hs0.
    rewrite last_snoc, count_if_app, count_if_single. cbn [is_some_and].
    destruct (at_launched a'); cbn [negb];
      rewrite (saturating_small (redraw_spent p)) by lia; rewrite saturating_small by lia; lia. }
  assert (allowance q = Some limit) as Hall.
  { unfold allowance in *. unfold q, retain_automatic_retry_accounting. cbn -[saturating_add_u64]. rewrite Hx.
    rewrite !lookup_insert_ne by done. destruct (np_extra p !! "retry") as [policy|]; [|done].
    by rewrite lookup_insert_eq. }
  split; unfold earlier; try done; try (rewrite Hs; lia); try (intros; constructor).
  - rewrite Hs. cbn. rewrite Hp, Hl', !count_if_app, count_if_single. destruct (at_launched a'); lia.
  - cbn. lia.
  - rewrite Hs. cbn. change (count_if (spends _) []) with 0. lia.
Qed.

(** ** Every node_step *)

Lemma last_snoc_inv {A} (l : list A) x : last l = Some x → ∃ k, l = k ++ [x].
Proof. by intros [k ->]%last_Some; exists k. Qed.

Lemma launch_row_keeps error clock admission_seconds policy p q :
  launch_disposition_row timestamp graph_id error clock admission_seconds policy p = Ok q → keeps_attempts p q.
Proof.
  unfold launch_disposition_row. destruct (launch_retry_kind error); cbn [negb]; [|by intros [= <-]].
  destruct clock as [now|]; [|done]. intros (deadline & _ & H)%result_bind_Ok. revert H.
  destruct (_ && _); by intros [= <-].
Qed.

Lemma open_launched limit bonus p l a :
  row_ok limit bonus p → np_attempts p = l ++ [a] → is_terminal a = false → at_launched a = true.
Proof.
  intros Hok Hl Ht. pose proof (ok_open _ _ _ Hok) as Ho. rewrite Hl in Ho.
  apply Forall_app in Ho as [_ Ho]. by apply (proj1 (Forall_singleton _ _) Ho).
Qed.

Lemma mark_refusal_snoc b l a :
  ∃ a', mark_refusal_proof b (l ++ [a]) = l ++ [a'] ∧ at_key a' = at_key a ∧ at_launched a' = at_launched a.
Proof.
  unfold mark_refusal_proof. rewrite length_app, Nat.add_comm. cbn [pred Nat.add length].
  rewrite alter_app_r_alt, Nat.sub_diag by lia. eexists. by split_and!.
Qed.

Lemma step_ok limit bonus p q : node_step p q → row_ok limit bonus p → row_ok limit bonus q.
Proof.
  destruct 1 as [p clock facts ri retries key route launch _ Hd Hr Hk Hn
    |p a obs facts p' go Ha Ht _ Happ|p a route obs facts p' go q Ha Ht _ _ Hre Happ Hq
    |p a refused error clock secs policy p' Ha Hst _ Hl|p clock facts reason _|p clock facts code message _
    |p p' Hk]; intros Hok.
  - eapply begin_ok; eassumption.
  - apply last_snoc_inv in Ha as [l Hl].
    destruct (apply_observation_inv _ _ _ _ _ _ _ Hl Happ) as (a' & Hl' & Hx & Hp & Hkey & Hopen & _).
    apply (replace_last_ok limit bonus p p' l a a'); try done. intros Hta. rewrite (Hopen Hta).
    by eapply open_launched.
  - apply last_snoc_inv in Ha as [l Hl].
    destruct (apply_observation_inv _ _ _ _ _ _ _ Hl Happ) as (a' & Hl' & Hx & Hp & _).
    eapply redraw_ok; try done.
    + by eapply open_launched.
    + unfold redraw_considered in Hre. repeat case_match; try done. by apply andb_true_iff in Hre as [_ ?].
  - apply last_snoc_inv in Ha as [l Hl']. unfold launch_disposition in Hl.
    set (b := negb _ && _) in Hl. clearbody b. eapply keeps_attempts_ok; [by eapply launch_row_keeps|].
    destruct (mark_refusal_snoc b l a) as (a' & Hm & Hk & Hlaunch). rewrite <-Hl' in Hm. apply (replace_last_ok limit bonus p _ l a a'); try done.
    intros _. rewrite Hlaunch. eapply open_launched; [done..|]. unfold is_terminal. by rewrite Hst.
  - by apply (keeps_attempts_ok limit bonus p).
  - apply (keeps_attempts_ok limit bonus p); [|done]. unfold fail_node. by destruct code, message.
  - by apply (keeps_attempts_ok limit bonus p).
Qed.

Definition sealed_row (retries : Z) (origin : string) : NodeProgress :=
  record_retry_allowance retries origin (initial_progress node).

Lemma reachable_ok retries origin p :
  0 ≤ retries ≤ 255 → rtc node_step (sealed_row retries origin) p → row_ok retries 0 p.
Proof.
  intros Hr Hsteps. assert (row_ok retries 0 (sealed_row retries origin)) as Hok.
  { assert (redraw_spent (sealed_row retries origin) = 0) as H0.
    { unfold redraw_spent, extra_u64, sealed_row, record_retry_allowance. cbn. by rewrite lookup_insert_ne. }
    split; rewrite ?H0; unfold earlier; try done; try (intros; constructor).
    - cbn. lia.
    - cbn. change (count_if (spends _) []) with 0. lia. }
  induction Hsteps as [|p q r Hstep _ IH]; [done|]. apply IH. by eapply step_ok.
Qed.

(** Routes are tried in order, one at a time, and a writer that ran is not
    replaced.  The attempts of a node are its routes from the first one on, each
    under its own index; all but the last are over; and of a node that writes,
    every attempt another route followed was never launched. *)
Theorem attempts_in_route_order retries origin p :
  0 ≤ retries ≤ 255 → rtc node_step (sealed_row retries origin) p →
  (length (np_attempts p) ≤ length (pn_routes node))%nat ∧
  ∀ i a, np_attempts p !! i = Some a →
    ak_route_index (at_key a) = Z.of_nat i ∧
    ((S i < length (np_attempts p))%nat →
       is_terminal a = true ∧ (pn_access node = WorktreeWrite → at_launched a = false)).
Proof.
  intros Hr Hs. destruct (reachable_ok _ _ _ Hr Hs). split; [done|]. intros i a Hi. split; [by apply ok_keys0|].
  intros Hlt. assert (a ∈ earlier p) as Hin.
  { unfold earlier. destruct (np_attempts p) as [|x l] using rev_ind; [done|]. rewrite List.removelast_last.
    rewrite length_app in Hlt. cbn in Hlt. rewrite lookup_app_l in Hi by lia. by eapply list_elem_of_lookup_2. }
  rewrite Forall_forall in ok_terminal0. split; [by apply ok_terminal0|]. intros Hw.
  specialize (ok_writer0 Hw). rewrite Forall_forall in ok_writer0. by apply ok_writer0.
Qed.

(** C25: A change of route is justified.  When the decision after an attempt that
    is over is to run a route, that route is the next one, and either the attempt
    is a failed review whose replacement the limit still allows, or it ended in
    a failure of its lane: one that ran was on a node that only reads and did
    not fail for its adapter; one that did not run is proved by the host to have
    failed before the handoff with its custody released, or, on a node that only
    reads, at the launched provider.  The attempts spent are within the
    allowance. *)
Theorem switch_justified p clock facts route_index retries a limit :
  next_attempt_transition node p limits clock facts = Decided (Candidate route_index retries) →
  last (np_attempts p) = Some a → is_terminal a = true → allowance p = Some limit →
  route_index = length (np_attempts p) ∧ justified p facts a ∧ (at_launched a = true → spent p ≤ limit).
Proof.
  intros [Hroute Hacc]%next_candidate_inv Ha Ht Hlim.
  destruct (next_route_terminal _ _ _ _ Hroute Ha Ht) as [-> Hj]. split_and!; [done|done|].
  intros Hl. eapply accounted_Candidate; [exact Hacc|done|]. unfold switching, spends. rewrite Ha. cbn [is_some_and].
  rewrite Ht, Hl. cbn. rewrite andb_true_r. pose proof Ha as [l ->]%last_snoc_inv. rewrite length_app, Nat.add_comm. done.
Qed.

(** ** Launch errors *)

Lemma retry_wake_le policy failures now deadline : retry_wake timestamp policy failures now deadline ≤ deadline.
Proof. unfold retry_wake. destruct (wall_add_seconds _ _ _); lia. Qed.

(** The outcome of one transient launch error while the clock reads [now]. *)
Lemma transient_error_inv error now admission_seconds policy p q :
  launch_retry_kind error = true →
  launch_disposition_row timestamp graph_id error (Some now) admission_seconds policy p = Ok q →
  let r := unwrap_or (np_launch_retry p) (mkRetry (bounded_launch_retry_policy policy) 0 None None None) in
  let failures := Z.min 255 (rt_failures r + 1) in
  ∃ deadline, (∀ d, rt_deadline r = Some d → d = deadline) ∧
    ((now < deadline ∧ failures ≤ rp_limit (rt_policy r) ∧ np_state q = np_state p ∧
      ∃ r' wake, np_launch_retry q = Some r' ∧ rt_policy r' = rt_policy r ∧ rt_failures r' = failures ∧
        rt_deadline r' = Some deadline ∧ rt_wake_at r' = Some wake ∧ wake ≤ deadline) ∨
     ((deadline ≤ now ∨ rp_limit (rt_policy r) < failures) ∧ np_state q = NodeState.Blocked ∧
      np_advance_error_code q = Some "launch_retry_exhausted")).
Proof.
  intros Hk. unfold launch_disposition_row. rewrite Hk. cbn [negb].
  intros (deadline & Hd & H)%result_bind_Ok. cbn in Hd, H |- *.
  set (r := unwrap_or _ _) in *. exists deadline. split; [by intros d E; rewrite E in Hd; injection Hd|].
  destruct ((now <? deadline) && _) eqn:E; injection H as <-.
  - left. apply andb_true_iff in E as [Hlt%Z.ltb_lt Hle%Z.leb_le]. split_and!; [done|done|done|].
    eexists _, _. split_and!; [done|done|done|done|done|]. apply retry_wake_le.
  - right. split; [|done]. apply andb_false_iff in E as [E%Z.ltb_ge|E%Z.leb_gt]; auto.
Qed.

(** Consecutive transient launch errors of a node that is still to run. *)
Inductive failing : nat → NodeProgress → NodeProgress → Prop :=
| failing_O p : failing 0 p p
| failing_S n p q q' error now admission_seconds policy :
    failing n p q → settled (np_state q) = false → launch_retry_kind error = true →
    launch_disposition_row timestamp graph_id error (Some now) admission_seconds policy q = Ok q' →
    failing (S n) p q'.

(** C31: Launch retries end.  When the launch of an attempt fails again and again
    with errors that may pass, a node whose policy allows [limit < 255] retries
    is tried at most [limit + 1] times: until then it waits under the policy and
    the deadline it was begun with, with every wake at or before that deadline,
    and what is not waiting is blocked as exhausted. *)
Theorem launch_retries_bounded p q n r deadline :
  np_launch_retry p = Some r → rt_failures r = 0 → rt_deadline r = Some deadline →
  0 ≤ rp_limit (rt_policy r) < 255 → settled (np_state p) = false → failing n p q →
  Z.of_nat n ≤ rp_limit (rt_policy r) + 1 ∧
  ((settled (np_state q) = false ∧ Z.of_nat n ≤ rp_limit (rt_policy r) ∧
    ∃ r', np_launch_retry q = Some r' ∧ rt_policy r' = rt_policy r ∧ rt_failures r' = Z.of_nat n ∧
      rt_deadline r' = Some deadline ∧ ((0 < n)%nat → ∃ wake, rt_wake_at r' = Some wake ∧ wake ≤ deadline)) ∨
   (np_state q = NodeState.Blocked ∧ np_advance_error_code q = Some "launch_retry_exhausted")).
Proof.
  intros Hr H0 Hd Hlim Hopen. induction 1 as [p|n p q q' error now secs policy Hf IH Hset Hk Hrow].
  { split; [lia|]. left. split_and!; [done|lia|]. exists r. split_and!; try done. lia. }
  destruct (IH Hr Hopen) as [Hn [(_ & Hle & r' & Hr' & Hpol & Hfail & Hdl & _)|[Hb _]]]; [|by rewrite Hb in Hset].
  destruct (transient_error_inv _ _ _ _ _ _ Hk Hrow) as (d & Hdd & Hcase). rewrite Hr' in Hdd, Hcase. cbn in Hdd, Hcase.
  specialize (Hdd _ Hdl) as <-. rewrite Hpol, Hfail in Hcase. split; [lia|].
  destruct Hcase as [(Hnow & Hfl & Hst & r'' & wake & Hr'' & Hp' & Hf' & Hd' & Hw & Hwle)|(_ & Hb & Hc)]; [left|by right].
  rewrite Hst. split_and!; [done|lia|]. exists r''. split_and!; [done|congruence|lia|done|]. intros _. by exists wake.
Qed.
End Steps.

(** ** Decisions *)

Lemma asks_for_acceptance node p limits clock facts :
  next_attempt_transition node p limits clock facts = ObserveLaunchAcceptance → nf_launch_accepted facts = None.
Proof.
  unfold next_attempt_transition. destruct (waits_for_wake p clock); [done|].
  destruct (launch_deadline_check p clock facts) as [d|] eqn:Hd.
  - intros ->. revert Hd. unfold launch_deadline_check. repeat (case_match; try done).
  - destruct (next_route node p limits facts) as [d|] eqn:Hn; [|done]. intros ->. exfalso. revert Hn.
    unfold next_route. repeat (destruct (fallback_denial _ _ _ _ _) || case_match; try done).
Qed.
Lemma asks_for_fallback node p limits clock facts :
  next_attempt_transition node p limits clock facts = ObservePreparationFallback → nf_fallback facts = None.
Proof.
  unfold next_attempt_transition. destruct (waits_for_wake p clock); [done|].
  destruct (launch_deadline_check p clock facts) as [d|] eqn:Hd.
  - intros ->. exfalso. revert Hd. unfold launch_deadline_check. repeat (case_match; try done).
  - destruct (next_route node p limits facts) as [d|] eqn:Hn; [|done]. intros ->. revert Hn.
    unfold next_route. repeat (destruct (fallback_denial _ _ _ _ _) || case_match; try done).
Qed.

Lemma asks_with_attempt node p limits clock facts :
  next_attempt_transition node p limits clock facts = ObservePreparationFallback → last (np_attempts p) ≠ None.
Proof.
  unfold next_attempt_transition. destruct (waits_for_wake p clock); [done|].
  destruct (launch_deadline_check p clock facts) as [d|] eqn:Hd.
  - intros ->. exfalso. revert Hd. unfold launch_deadline_check. repeat (case_match; try done).
  - unfold next_route. by destruct (last (np_attempts p)).
Qed.

(** A decision is always reached.  Asking the host for the facts the decision
    wants ends: no fact is asked for twice, and unless the host fails the answer
    is the one the transition gives on the facts observed. *)
Theorem decide_next_attempt_returns {E} accepted evidence cause node p limits clock :
  ∃ r, decide_next_attempt (E := E) accepted evidence cause node p limits clock = Some r ∧
    ∀ decision, r = Ok decision →
      (∃ facts, next_attempt_transition node p limits clock facts = Decided decision).
Proof.
  assert (∀ fuel facts,
    ((if nf_launch_accepted facts then 0 else 1) + (if nf_fallback facts then 0 else 1) < fuel)%nat →
    ∃ r, decide_loop (E := E) accepted evidence cause fuel node p limits clock facts = Some r ∧
      ∀ decision, r = Ok decision →
        ∃ facts, next_attempt_transition node p limits clock facts = Decided decision) as Hloop.
  { induction fuel as [|fuel IH]; intros facts Hfuel; [lia|]. cbn [decide_loop].
    destruct (next_attempt_transition node p limits clock facts) as [| |d] eqn:Ht.
    - pose proof (asks_for_acceptance _ _ _ _ _ Ht) as Hn. rewrite Hn in Hfuel.
      destruct (match last (np_attempts p) with Some attempt => accepted attempt | None => Ok false end) as [b|e].
      + apply IH. cbn. lia.
      + by exists (Err e).
    - pose proof (asks_for_fallback _ _ _ _ _ Ht) as Hn. rewrite Hn in Hfuel.
      destruct (last (np_attempts p)) as [a|] eqn:Ha.
      + apply IH. cbn. lia.
      + by exists (Ok NextNone); destruct (asks_with_attempt _ _ _ _ _ Ht Ha).
    - exists (Ok d). split; [done|]. intros ? [= <-]. by exists facts. }
  apply Hloop. cbn. lia.
Qed.

(** ** Witnesses *)

(** A reader with two routes and one retry: its first lane ran and then asked for
    authentication, the second one is starting. *)
Definition ex_route (alias : string) : GraphRoute := mkRoute None None None (Some alias) None None.
Definition ex_reader : PlannedNode := ex_task "n" [] [ex_route "standard"; ex_route "frontier"].
Definition ex_limits : GraphLimits := mkLimits 1 65536 None.
Definition ex_launch : LaunchFacts := mkLaunchFacts 65536 None "chair" None.
Definition ex_key (p : NodeProgress) (i : nat) : AttemptKey :=
  match attempt_key "g" ex_reader p i with Ok key => key | Err _ => mkKey ∅ "" "" 0 end.
Definition ex_contract : Contract := mkContract false None false false false (mkOutputs None None [] None).
Definition ex_observation : AttemptObservation :=
  ObservedTerminal (Some "run-1") AttemptOutcome.AuthRequired true ex_contract.
Definition ex_facts : ObservationFacts := mkObservationFacts 0 None None false None.
Definition ex_seen : NextAttemptFacts := mkFacts None (Some (mkPreparation None false None)).
Definition ex_row0 : NodeProgress := sealed_row ex_reader 1 "node".
Definition ex_row1 : NodeProgress :=
  begin_attempt (λ _, true) ex_reader (ex_key ex_row0 0) (ex_route "standard") ex_launch ex_row0.
Definition ex_row2 : NodeProgress :=
  match apply_attempt_observation ex_reader ex_limits ex_observation ex_facts ex_row1 with
  | Ok (p, _) => p | Err _ => ex_row1
  end.
Definition ex_row3 : NodeProgress :=
  begin_attempt (λ _, true) ex_reader (ex_key ex_row2 1) (ex_route "frontier") ex_launch ex_row2.
Definition ex_attempt (p : NodeProgress) : GraphAttempt :=
  unwrap_or (last (np_attempts p)) (mkAttempt ∅ false false (mkKey ∅ "" "" 0) (ex_route "") AttemptState.Starting None None "" None None 0).

Lemma ex_run : rtc (node_step (λ _, true) "g" ex_reader ex_limits) ex_row0 ex_row3.
Proof.
  eapply rtc_l; [apply (step_begin _ _ _ _ ex_row0 None no_facts 0 (Some 1) (ex_key ex_row0 0) (ex_route "standard") ex_launch);
                 vm_compute; reflexivity|].
  eapply rtc_l; [apply (step_observe _ _ _ _ ex_row1 (ex_attempt ex_row1) ex_observation ex_facts ex_row2 true);
                 vm_compute; reflexivity|].
  eapply rtc_l; [apply (step_begin _ _ _ _ ex_row2 None ex_seen 1 (Some 0) (ex_key ex_row2 1) (ex_route "frontier") ex_launch);
                 vm_compute; reflexivity|].
  apply rtc_refl.
Qed.

Lemma attempts_in_route_order_witness :
  length (np_attempts ex_row3) = 2%nat ∧ (length (np_attempts ex_row3) ≤ length (pn_routes ex_reader))%nat.
Proof.
  split; [vm_compute; reflexivity|].
  exact (proj1 (attempts_in_route_order (λ _, true) "g" ex_reader ex_limits 1 "node" ex_row3 ltac:(lia) ex_run)).
Defined.

Lemma switch_justified_witness :
  is_terminal (ex_attempt ex_row2) = true ∧ justified ex_reader ex_limits ex_row2 ex_seen (ex_attempt ex_row2) ∧
  spent ex_row2 ≤ 1.
Proof.
  destruct (switch_justified ex_reader ex_limits ex_row2 None ex_seen 1 (Some 0) (ex_attempt ex_row2) 1
              ltac:(vm_compute; reflexivity) ltac:(vm_compute; reflexivity) ltac:(vm_compute; reflexivity)
              ltac:(vm_compute; reflexivity)) as (_ & Hj & Hs).
  split; [vm_compute; reflexivity|]. split; [exact Hj|]. apply Hs. vm_compute. reflexivity.
Defined.

(** A launch that times out twice under a policy of one retry. *)
Definition ex_policy : LaunchRetryPolicy := mkRetryPolicy 1 "default" 5 600.
Definition ex_retry : LaunchRetry := mkRetry ex_policy 0 (Some 1000000000) None None.
Definition ex_waiting : NodeProgress := set_np_launch_retry (Some ex_retry) ex_row1.
Definition ex_timeout : LaunchError := FacadeLaunchError FacadeError.Timeout (mkDiagnostic "timeout" None None).
Definition ex_after (now : Z) (p : NodeProgress) : NodeProgress :=
  match launch_disposition_row (λ _, true) "g" ex_timeout (Some now) 3600 ex_policy p with Ok q => q | Err _ => p end.

Lemma launch_retries_bounded_witness :
  np_state (ex_after 1000000 ex_waiting) = NodeState.Running ∧
  np_state (ex_after 6000000 (ex_after 1000000 ex_waiting)) = NodeState.Blocked ∧ 2 ≤ rp_limit ex_policy + 1.
Proof.
  split; [vm_compute; reflexivity|]. split; [vm_compute; reflexivity|].
  apply (launch_retries_bounded (λ _, true) "g" ex_waiting (ex_after 6000000 (ex_after 1000000 ex_waiting)) 2 ex_retry 1000000000
           eq_refl eq_refl eq_refl ltac:(cbn; lia) eq_refl).
  eapply (failing_S _ _ 1 ex_waiting (ex_after 1000000 ex_waiting) _ ex_timeout 6000000 3600 ex_policy);
    [|vm_compute; reflexivity|reflexivity|vm_compute; reflexivity].
  eapply (failing_S _ _ 0 ex_waiting ex_waiting _ ex_timeout 1000000 3600 ex_policy);
    [apply failing_O|reflexivity|reflexivity|vm_compute; reflexivity].
Defined.
