(* ===== verification/GraphContinue.v ===== *)
(** * The automatic continuation of a writer that stopped without work

    The row side of [fabric-runtime/src/graph/no_work.rs]: which stopped writer
    the host continues, what it keeps of the row, and how often it does so.  The
    patch that records the continuation enters by its reason. *)

From stdpp Require Import base option list strings gmap sets relations.
From S2P Require Import Prelude RoutingTypes GraphModel GraphAttempts GraphAttemptRuns.

#[local] Open Scope string_scope.
#[local] Open Scope list_scope.
#[local] Open Scope Z_scope.
#[local] Open Scope rust_scope.

(** ** Operations *)

Definition STOP_FENCE : string := "no_work_stop_fence".
Definition stopped_no_work : string := "stopped_no_work".

(** [fence_stopped]: a subtree that is cancelled is not continued later. *)
Definition fence_stopped (p : NodeProgress) : NodeProgress :=
  if (np_state p == NodeState.Failed) && (np_advance_error_code p == Some stopped_no_work)
  then set_np_extra (<[STOP_FENCE := JBool true]> (np_extra p)) p else p.

Definition unfenced_stop (p : NodeProgress) : bool :=
  (np_advance_error_code p == Some stopped_no_work) && negb (extra_true (np_extra p) STOP_FENCE).

Definition no_work_reason (id : string) : string := "continue node " +:+ id +:+ " after stop with no work".

(** The records of the patches a checkpoint has admitted. *)
Definition patches (cp : GraphCheckpoint) : list PatchRecord := omap ex_patch (cp_expansions cp).

Definition eligible (node : PlannedNode) (p : NodeProgress) (cp : GraphCheckpoint) : bool :=
  negb (cp_cancelled cp) && is_none (cp_pause_reason cp) && (pn_access node == WorktreeWrite)
  && unwrap_or (pn_auto_continue_no_work node) true && (np_state p == NodeState.Failed) && unfenced_stop p
  && negb (existsb (λ record, pt_reason record == Some (no_work_reason (pn_id node))) (patches cp)).

(** The row of [continue_stopped]: the retry of [patch.rs] resets it once its
    attempts are over, and it keeps what it has spent. *)
Definition continue_row (p : NodeProgress) : option NodeProgress :=
  if forallb is_terminal (np_attempts p) then
    next ← reset_progress p;
    Some (retain_automatic_retry_accounting p next)
  else None.

(** ** The life of a row *)

Section Life.
  Context (timestamp : Z → bool) (graph_id : string) (node : PlannedNode) (limits : GraphLimits).
  Context (retries : Z) (origin : string).

(** A row in its checkpoint, which never forgets an admitted patch: the steps of
    the driver, and continuations when the host finds the row eligible. *)
Inductive life : GraphCheckpoint → NodeProgress → Prop :=
| life_sealed cp : life cp (sealed_row node retries origin)
| life_step cp cp' p q :
    life cp p → node_step timestamp graph_id node limits p q → patches cp ⊆ patches cp' → life cp' q
| life_continue cp cp' p q :
    life cp p → eligible node p cp = true → continue_row p = Some q →
    patches cp' = patches cp ++ [mkPatch None (Some (no_work_reason (pn_id node)))] → life cp' q.

Definition continued (cp : GraphCheckpoint) : Prop :=
  ∃ record, record ∈ patches cp ∧ pt_reason record = Some (no_work_reason (pn_id node)).

Lemma continued_ineligible p cp : continued cp → eligible node p cp = false.
Proof.
  intros (record & Hin & Hr). unfold eligible. apply andb_false_iff. right. apply negb_false_iff, existsb_exists.
  exists record. split; [by apply list_elem_of_In|]. by apply bool_decide_eq_true.
Qed.

(** Starting over charges the attempts that are archived. *)
Lemma continue_ok limit p q :
  row_ok node limit 0 p → continue_row p = Some q → row_ok node limit 1 q.
Proof.
  intros Hok Hq. unfold continue_row in Hq. destruct (forallb _ _) eqn:Hterm; [|done].
  unfold reset_progress in Hq. apply bind_Some in Hq as (next & Hnext & [= <-]).
  apply bind_Some in Hnext as (generation & _ & [= <-]).
  match goal with |- row_ok _ _ _ ?x => set (q := x) end.
  set (extra := if is_some_and (last (np_attempts p)) (λ a, negb (at_launched a)) then 1 else 0).
  assert (count_if at_launched (np_attempts p) + extra ≤ count_if (spends (redraw_spent p)) (earlier p) + 1 ∧ 0 ≤ extra) as [Hle H0].
  { unfold extra, earlier. destruct (np_attempts p) as [|x l] using rev_ind; [by cbn|].
    rewrite last_snoc, List.removelast_last, count_if_app, count_if_single.
    rewrite List.forallb_app in Hterm. apply andb_true_iff in Hterm as [Hl _].
    assert (count_if at_launched l ≤ count_if (spends (redraw_spent p)) l) as Hc.
    { apply count_if_le, Forall_forall. intros a Ha Hla. rewrite List.forallb_forall in Hl.
      unfold spends. rewrite (Hl a) by (by apply list_elem_of_In). by rewrite Hla. }
    cbn [is_some_and]. destruct (at_launched x); cbn; lia. }
  pose proof (count_if_nonneg at_launched (np_attempts p)) as Hn. destruct Hok.
  assert (redraw_spent q = redraw_spent p + count_if at_launched (np_attempts p) + extra) as Hs.
  { unfold q, redraw_spent at 1, retain_automatic_retry_accounting, extra_u64. cbn -[saturating_add_u64].
    rewrite lookup_insert_ne, lookup_insert_eq by done. cbn -[saturating_add_u64]. fold extra.
    unfold saturating_add_u64, clamp, u64_max. lia. }
  assert (allowance q = Some limit) as Hall.
  { unfold allowance in *. unfold q, retain_automatic_retry_accounting. cbn -[saturating_add_u64].
    rewrite !lookup_insert_ne by done. destruct (np_extra p !! "retry") as [policy|]; [|done].
    by rewrite lookup_insert_eq. }
  split; unfold earlier; try done; try (rewrite Hs; lia); try (intros; constructor).
  - rewrite Hs. cbn. rewrite count_if_app. lia.
  - cbn. lia.
  - rewrite Hs. cbn. change (count_if (spends _) []) with 0. lia.
Qed.

Lemma life_ok cp p :
  0 ≤ retries ≤ 255 → life cp p →
  row_ok node retries 0 p ∨ (row_ok node retries 1 p ∧ continued cp).
Proof.
  intros Hr. induction 1 as [cp|cp cp' p q _ IH Hstep Hsub|cp cp' p q _ IH Helig Hq Hpatches].
  - left. eapply (reachable_ok timestamp graph_id node limits); [done|apply rtc_refl].
  - destruct IH as [Hok|[Hok (record & Hin & Hrec)]]; [left|right; split].
    + by eapply step_ok.
    + by eapply step_ok.
    + exists record. split; [by apply Hsub|done].
  - destruct IH as [Hok|[_ Hc]]; [|by rewrite (continued_ineligible p cp Hc) in Helig].
    right. split; [by eapply continue_ok|]. exists (mkPatch None (Some (no_work_reason (pn_id node)))). split; [|done]. rewrite Hpatches. apply elem_of_app; right; by apply list_elem_of_singleton.
Qed.

(** C8: The sealed allowance bounds the launches of a node for good.  A node
    sealed with an allowance of [retries] is launched at most [retries + 1] times
    over all its routes and automatic redraws, whatever the host observes and in
    whatever order launches fail; the automatic continuation of a writer that
    stopped without work, which happens once at most, adds at most one launch. *)
Theorem launches_within_allowance cp p :
  0 ≤ retries ≤ 255 → life cp p →
  launches p ≤ retries + 2 ∧ (¬ continued cp → launches p ≤ retries + 1).
Proof.
  intros Hr [Hok|[Hok Hc]]%life_ok; [| |done]; pose proof (row_ok_launches _ _ _ _ Hok).
  - split; [lia|intros; lia].
  - split; [lia|by intros []].
Qed.
End Life.

(** ** Witnesses *)

(** A writer with one route and no retry stops without work, is continued, and
    is launched a second time: one more than its allowance. *)
Definition ex_stopper : PlannedNode :=
  {| pn_extra := ∅; pn_auto_continue_no_work := None; pn_composite_members := []; pn_composite := None;
     pn_attempt_host := None; pn_role := None; pn_source := None; pn_after_expansion := []; pn_loop_body := false;
     pn_decide := false; pn_continues := None; pn_land := false; pn_round := None; pn_kind := None;
     pn_condition := None; pn_on_fail := None; pn_access := WorktreeWrite; pn_worktree := Some "/work/w";
     pn_write_scope := ["src"]; pn_id := "w"; pn_title := None; pn_depends_on := []; pn_advisory := false;
     pn_inputs := []; pn_routes := [ex_route "standard"];
     pn_required_verdict := None; pn_skip_without_findings := None |}.
Definition ex_stop_plan : GraphCheckpoint := initial_checkpoint (mkPlan "g" [ex_stopper]).
Definition ex_continued : GraphCheckpoint :=
  mkCheckpoint [mkExpansion [] (Some (mkPatch None (Some (no_work_reason "w"))))] None false None None [] 0 [] 0 0 [] []
    None "g" [].
Definition ex_key_of (p : NodeProgress) : AttemptKey :=
  match attempt_key "g" ex_stopper p 0 with Ok key => key | Err _ => mkKey ∅ "" "" 0 end.
Definition ex_begin (p : NodeProgress) : NodeProgress :=
  begin_attempt (λ _, true) ex_stopper (ex_key_of p) (ex_route "standard") ex_launch p.
Definition ex_stop : AttemptObservation :=
  ObservedTerminal (Some "run-1") AttemptOutcome.StoppedNoWork true ex_contract.
Definition ex_stop0 : NodeProgress := sealed_row ex_stopper 0 "node".
Definition ex_stop1 : NodeProgress := ex_begin ex_stop0.
Definition ex_stop2 : NodeProgress :=
  match apply_attempt_observation ex_stopper ex_limits ex_stop ex_facts ex_stop1 with Ok (p, _) => p | Err _ => ex_stop1 end.
Definition ex_stop3 : NodeProgress := unwrap_or (continue_row ex_stop2) ex_stop2.
Definition ex_stop4 : NodeProgress := ex_begin ex_stop3.

Lemma ex_stop_life :
  life (λ _, true) "g" ex_stopper ex_limits 0 "node" ex_continued ex_stop4.
Proof.
  apply (life_step _ _ _ _ _ _ ex_continued ex_continued ex_stop3); [|
    apply (step_begin _ _ _ _ ex_stop3 None no_facts 0 (Some 0) (ex_key_of ex_stop3) (ex_route "standard") ex_launch);
      vm_compute; reflexivity|done].
  apply (life_continue _ _ _ _ _ _ ex_stop_plan _ ex_stop2); [|vm_compute; reflexivity..].
  apply (life_step _ _ _ _ _ _ ex_stop_plan ex_stop_plan ex_stop1); [|
    apply (step_observe _ _ _ _ ex_stop1 (ex_attempt ex_stop1) ex_stop ex_facts ex_stop2 false);
      vm_compute; reflexivity|done].
  apply (life_step _ _ _ _ _ _ ex_stop_plan ex_stop_plan ex_stop0); [apply life_sealed|
    apply (step_begin _ _ _ _ ex_stop0 None no_facts 0 (Some 0) (ex_key_of ex_stop0) (ex_route "standard") ex_launch);
      vm_compute; reflexivity|done].
Qed.

(** The continuation is not charged before it starts: without any retry the
    writer is launched twice. *)
Lemma continuation_exceeds_allowance : launches ex_stop4 = 0 + 2.
Proof. vm_compute. reflexivity. Qed.

Lemma launches_within_allowance_witness : launches ex_stop4 = 2 ∧ launches ex_stop4 ≤ 0 + 2.
Proof.
  split; [vm_compute; reflexivity|].
  exact (proj1 (launches_within_allowance (λ _, true) "g" ex_stopper ex_limits 0 "node" ex_continued ex_stop4
                  ltac:(lia) ex_stop_life)).
Defined.
