(* ===== verification/GraphBudget.v ===== *)
(** * GraphBudget: what a graph may spend

    Models [crates/fabric-runtime/src/graph/budget.rs] but for the structural
    limits: the budget check of a checkpoint, its extensions, the settlement
    order and the records of unknown usage.

    [budget_reason_exact] compares the check, which adds with saturation node by
    node, with plain sums over the attempts that count; [extension_only_relaxes]
    shows that an extension never lowers a limit and never makes a graph pause.
    Reading and writing of decimal fractions ([str::parse] and [Display] of
    [f64]) are parameters. *)

From Stdlib Require Import Ascii SpecFloat.
From stdpp Require Import base option list strings sets pretty gmap.
From S2P Require Import Prelude RoutingTypes GraphModel.

Local Open Scope string_scope.
Local Open Scope list_scope.
Local Open Scope Z_scope.
Local Open Scope rust_scope.

(** ** Data *)

Inductive UnknownUsage := UnknownWarn | UnknownPause.
#[export] Instance UnknownUsage_eq_dec : EqDecision UnknownUsage.
Proof. solve_decision. Defined.
Record BudgetLimit := mkLimit {
  bl_tokens : option Z;
  bl_cost_usd : option f64;
  bl_wall_time_seconds : option Z;
}.
Record GraphBudget := mkBudget {
  gb_unknown_usage : UnknownUsage;
  gb_per_node : BudgetLimit;
  gb_per_graph : BudgetLimit;
}.

(** [f64::max], for which a NaN is a missing value. *)
Definition f64_max (a b : f64) : f64 :=
  match a with S754_nan => b | _ => if f64_lt a b then b else a end.

Section Budget.
  Context (display_f64 : f64 → string) (parse_f64 : string → option f64).

(** ** Extensions *)

Record BudgetExtensionError := mkExtensionError { be_code : string; be_message : string }.

Definition raise_u64 (number : Z) (slot : option Z) : option Z := (λ old, Z.max old number) <$> slot.
Definition raise_f64 (number : f64) (slot : option f64) : option f64 := (λ old, f64_max old number) <$> slot.

(** The [match field] of [apply_extension] on the limits of one scope. *)
Definition extend_limit (extension key field value : string) (replay : bool) (target : BudgetLimit)
    : result BudgetExtensionError BudgetLimit :=
  let error code message := Err (mkExtensionError code message) in
  let unconfigured := error "budget_extension_unconfigured" (key +:+ " is not configured") in
  if (field == "tokens") || (field == "wall_time_seconds") then
    match parse_uint u64_max value with
    | None => error "budget_extension_value" (extension +:+ ": invalid budget value")
    | Some number =>
        let slot := if field == "tokens" then bl_tokens target else bl_wall_time_seconds target in
        if number =? 0 then error "budget_extension_value" (extension +:+ ": budget must be positive")
        else if is_none slot && negb replay then unconfigured
        else Ok (if field == "tokens"
                 then mkLimit (raise_u64 number (bl_tokens target)) (bl_cost_usd target) (bl_wall_time_seconds target)
                 else mkLimit (bl_tokens target) (bl_cost_usd target) (raise_u64 number (bl_wall_time_seconds target)))
    end
  else if field == "cost_usd" then
    match parse_f64 value with
    | None => error "budget_extension_value" (extension +:+ ": invalid budget value")
    | Some number =>
        if negb (is_finite number) || f64_le number (f64_from 0) then
          error "budget_extension_value" (extension +:+ ": budget must be finite and positive")
        else if is_none (bl_cost_usd target) && negb replay then unconfigured
        else Ok (mkLimit (bl_tokens target) (raise_f64 number (bl_cost_usd target)) (bl_wall_time_seconds target))
    end
  else error "budget_extension_key" (extension +:+ ": unknown budget key").

Definition apply_extension (budget : GraphBudget) (extension : string) (replay : bool)
    : result BudgetExtensionError GraphBudget :=
  match split_once "="%char extension with
  | None => Err (mkExtensionError "budget_extension_syntax" (extension +:+ ": expected KEY=VALUE"))
  | Some (key, value) =>
      let key := unwrap_or (strip_prefix "budget." key) key in
      let unknown := Err (mkExtensionError "budget_extension_key" (extension +:+ ": unknown budget key")) in
      match split_once "."%char key with
      | None => unknown
      | Some (scope, field) =>
          if scope == "per_node" then
            limit ← extend_limit extension key field value replay (gb_per_node budget);
            Ok (mkBudget (gb_unknown_usage budget) limit (gb_per_graph budget))
          else if scope == "per_graph" then
            limit ← extend_limit extension key field value replay (gb_per_graph budget);
            Ok (mkBudget (gb_unknown_usage budget) (gb_per_node budget) limit)
          else unknown
      end
  end.

(** ** The check *)

Definition at_least (x max : f64) : bool := f64_le max x.
Definition usd (micros : Z) : f64 := f64_div (f64_from micros) (f64_from 1000000).

Definition exceeded (scope : string) (limit : BudgetLimit) (tokens cost seconds : Z) : option string :=
  match bl_tokens limit with
  | Some max => if max <=? tokens
                then Some (scope +:+ ".tokens budget " +:+ pretty max +:+ " reached (" +:+ pretty tokens +:+ ")")
                else None
  | None => None
  end
  ∪ match bl_cost_usd limit with
    | Some max => if at_least (usd cost) max
                  then Some (scope +:+ ".cost_usd budget " +:+ display_f64 max +:+ " reached") else None
    | None => None
    end
  ∪ match bl_wall_time_seconds limit with
    | Some max => if max <=? seconds
                  then Some (scope +:+ ".wall_time_seconds budget " +:+ pretty max +:+ " reached (" +:+ pretty seconds +:+ ")")
                  else None
    | None => None
    end.

Definition unknown_budget_reason (scope : string) (limit : BudgetLimit) (unknown : bool * bool * bool)
    (policy : UnknownUsage) : option string :=
  let '(tokens, cost, seconds) := unknown in
  if policy != UnknownPause then None
  else find_map (λ '(name, configured, missing),
         if (configured : bool) && (missing : bool) then Some (scope +:+ "." +:+ name +:+ " usage unknown") else None)
       [("tokens", is_some (bl_tokens limit), tokens);
        ("cost_usd", is_some (bl_cost_usd limit), cost);
        ("wall_time_seconds", is_some (bl_wall_time_seconds limit), seconds)].

Record UsageTotals := mkTotals { us_tokens : Z; us_cost : Z; us_seconds : Z; us_unknown : bool * bool * bool }.
Definition no_usage : UsageTotals := mkTotals 0 0 0 (false, false, false).

Definition attempt_metric (f : AttemptUsage → option Z) (a : GraphAttempt) : option Z := at_usage a ≫= f.
Definition tokens_unknown (a : GraphAttempt) : bool :=
  is_none (attempt_metric au_tokens a) || is_some_and (at_usage a) au_tokens_partial.
Definition cost_unknown (a : GraphAttempt) : bool :=
  is_none (attempt_metric au_cost_micro_usd a) || is_some_and (at_usage a) au_cost_partial.
Definition seconds_unknown (a : GraphAttempt) : bool := is_none (attempt_metric au_wall_time_seconds a).

(** One round of the loop over the attempts of a node. *)
Definition add_attempt (u : UsageTotals) (a : GraphAttempt) : UsageTotals :=
  let '(t, c, s) := us_unknown u in
  mkTotals
    (saturating_add_u64 (us_tokens u) (unwrap_or (attempt_metric au_tokens a) 0))
    (saturating_add_u64 (us_cost u) (unwrap_or (attempt_metric au_cost_micro_usd a) 0))
    (saturating_add_u64 (us_seconds u) (unwrap_or (attempt_metric au_wall_time_seconds a) 0))
    (t || tokens_unknown a, c || cost_unknown a, s || seconds_unknown a).
Definition add_usage (total node : UsageTotals) : UsageTotals :=
  let '(t, c, s) := us_unknown total in
  let '(t', c', s') := us_unknown node in
  mkTotals (saturating_add_u64 (us_tokens total) (us_tokens node))
    (saturating_add_u64 (us_cost total) (us_cost node))
    (saturating_add_u64 (us_seconds total) (us_seconds node)) (t || t', c || c', s || s').

Definition counted_attempts (n : NodeProgress) : list GraphAttempt :=
  List.filter at_launched (np_previous_attempts n ++ List.filter is_terminal (np_attempts n)).
Definition node_usage (n : NodeProgress) : UsageTotals := fold_left add_attempt (counted_attempts n) no_usage.

Definition scope_reason (scope : string) (limit : BudgetLimit) (policy : UnknownUsage) (u : UsageTotals) : option string :=
  exceeded scope limit (us_tokens u) (us_cost u) (us_seconds u)
  ∪ unknown_budget_reason scope limit (us_unknown u) policy.

Fixpoint budget_loop (budget : GraphBudget) (total : UsageTotals) (nodes : list NodeProgress) : option string :=
  match nodes with
  | [] => scope_reason "per_graph" (gb_per_graph budget) (gb_unknown_usage budget) total
  | n :: nodes' =>
      let usage := node_usage n in
      let total := add_usage total usage in
      match scope_reason "per_node" (gb_per_node budget) (gb_unknown_usage budget) usage with
      | Some reason => Some ("node " +:+ np_id n +:+ ": " +:+ reason)
      | None => budget_loop budget total nodes'
      end
  end.
Definition budget_reason (cp : GraphCheckpoint) (budget : GraphBudget) : option string :=
  budget_loop budget no_usage (cp_nodes cp).

(** ** Settlement order and unknown usage *)

Definition USAGE_METRICS : list string := ["tokens"; "cost_usd"; "wall_time_seconds"].
Definition unknown_metrics (a : GraphAttempt) : list string :=
  let counted := is_terminal a && at_launched a in
  List.filter (λ name, counted && negb (is_some_and (at_usage a) (λ value,
    if name == "tokens" then is_some (au_tokens value) && negb (au_tokens_partial value)
    else if name == "cost_usd" then is_some (au_cost_micro_usd value) && negb (au_cost_partial value)
    else is_some (au_wall_time_seconds value)))) USAGE_METRICS.

Definition stamp_settlement (cp : GraphCheckpoint) (node_index : nat) : GraphCheckpoint :=
  let next := saturating_add_u64 (cp_settlements cp) 1 in
  match cp_nodes cp !! node_index ≫= λ n, last (np_attempts n) with
  | Some attempt =>
      if at_settled attempt =? 0 then
        set_cp_settlements next
          (update_node node_index (λ n,
             set_np_attempts (alter (set_at_settled next) (pred (length (np_attempts n))) (np_attempts n)) n) cp)
      else cp
  | None => cp
  end.

Definition usage_warnings (cp : GraphCheckpoint) : list string :=
  flat_map (λ '(n, a), List.map (λ name,
      "node " +:+ np_id n +:+ " route " +:+ pretty (ak_route_index (at_key a)) +:+ ": " +:+ name +:+ " usage unknown")
    (unknown_metrics a))
    (sort_by (λ '(_, a), [at_settled a])
       (flat_map (λ n, (λ a, (n, a)) <$> recorded_attempts n) (cp_nodes cp))).
Definition update_usage_warnings (cp : GraphCheckpoint) : GraphCheckpoint :=
  let warnings := usage_warnings cp in
  let omitted := (length warnings - MAX_UNKNOWN_USAGE)%nat in
  set_cp_unknown_usage_omitted (Z.of_nat omitted) (set_cp_unknown_usage (drop omitted warnings) cp).

Definition push_usage_event (event : UnknownUsageEvent) (cp : GraphCheckpoint) : GraphCheckpoint :=
  if bool_decide (event ∈ cp_usage_events cp) then cp
  else
    let events := cp_usage_events cp ++ [event] in
    let omitted := (length events - MAX_USAGE_EVENTS)%nat in
    set_cp_usage_events_omitted (saturating_add_u64 (cp_usage_events_omitted cp) (Z.of_nat omitted))
      (set_cp_usage_events (drop omitted events) cp).

Definition settlement_events (n : NodeProgress) (attempt : GraphAttempt) (usage_error cost_error : option string)
    : list UnknownUsageEvent :=
  let event metric reason :=
    mkUsageEvent ∅ (np_id n) (ak_route_index (at_key attempt)) metric reason in
  match usage_error with Some reason => [event "telemetry" (Some reason)] | None => [] end
  ++ match cost_error with Some reason => [event "cost_usd" (Some reason)] | None => [] end
  ++ List.map (λ name, event name (if name == "cost_usd" then at_usage attempt ≫= au_cost_unknown_reason else None))
       (unknown_metrics attempt).
Definition record_usage_events (cp : GraphCheckpoint) (node_index : nat) (usage_error cost_error : option string)
    : GraphCheckpoint :=
  match cp_nodes cp !! node_index with
  | None => cp
  | Some n =>
      match last (np_attempts n) with
      | None => cp
      | Some attempt =>
          fold_left (λ cp event, push_usage_event event cp) (settlement_events n attempt usage_error cost_error) cp
      end
  end.

(** ** Reference: plain sums *)

Definition metric (f : AttemptUsage → option Z) (a : GraphAttempt) : Z := unwrap_or (attempt_metric f a) 0.
Definition sum_of (f : AttemptUsage → option Z) (l : list GraphAttempt) : Z := foldr Z.add 0 (metric f <$> l).
Definition total (f : AttemptUsage → option Z) (l : list GraphAttempt) : Z := Z.min u64_max (sum_of f l).

(** The attempts [l] stay below each configured limit and, when unknown usage
    pauses, each of them has every configured metric. *)
Record within (limit : BudgetLimit) (policy : UnknownUsage) (l : list GraphAttempt) : Prop := {
  within_tokens max : bl_tokens limit = Some max → total au_tokens l < max;
  within_cost max : bl_cost_usd limit = Some max → f64_le max (usd (total au_cost_micro_usd l)) = false;
  within_seconds max : bl_wall_time_seconds limit = Some max → total au_wall_time_seconds l < max;
  within_known : policy = UnknownPause → ∀ a, a ∈ l →
    (bl_tokens limit ≠ None → tokens_unknown a = false) ∧
    (bl_cost_usd limit ≠ None → cost_unknown a = false) ∧
    (bl_wall_time_seconds limit ≠ None → seconds_unknown a = false);
}.

(** Recorded numbers are unsigned. *)
Definition unsigned (a : GraphAttempt) : Prop :=
  0 ≤ metric au_tokens a ∧ 0 ≤ metric au_cost_micro_usd a ∧ 0 ≤ metric au_wall_time_seconds a.

Definition usage_of (l : list GraphAttempt) : UsageTotals :=
  mkTotals (total au_tokens l) (total au_cost_micro_usd l) (total au_wall_time_seconds l)
    (existsb tokens_unknown l, existsb cost_unknown l, existsb seconds_unknown l).

Lemma sum_of_app f l k : sum_of f (l ++ k) = sum_of f l + sum_of f k.
Proof. unfold sum_of. rewrite fmap_app. induction (metric f <$> l) as [|x xs IH]; cbn; lia. Qed.
Lemma sum_of_nonneg f l : Forall (λ a, 0 ≤ metric f a) l → 0 ≤ sum_of f l.
Proof. unfold sum_of. induction 1; cbn; lia. Qed.
Lemma total_app f l k :
  Forall (λ a, 0 ≤ metric f a) l → Forall (λ a, 0 ≤ metric f a) k →
  saturating_add_u64 (total f l) (total f k) = total f (l ++ k).
Proof.
  intros Hl%sum_of_nonneg Hk%sum_of_nonneg. unfold total, saturating_add_u64, clamp. rewrite sum_of_app.
  unfold u64_max. lia.
Qed.
Lemma unsigned_metrics l :
  Forall unsigned l →
  Forall (λ a, 0 ≤ metric au_tokens a) l ∧ Forall (λ a, 0 ≤ metric au_cost_micro_usd a) l ∧
  Forall (λ a, 0 ≤ metric au_wall_time_seconds a) l.
Proof. intros H. split_and!; (eapply Forall_impl; [exact H|]); unfold unsigned; naive_solver. Qed.

Lemma add_usage_of l k :
  Forall unsigned l → Forall unsigned k → add_usage (usage_of l) (usage_of k) = usage_of (l ++ k).
Proof.
  intros (Ht & Hc & Hs)%unsigned_metrics (Ht' & Hc' & Hs')%unsigned_metrics.
  unfold add_usage, usage_of. cbn. rewrite !total_app, !existsb_app by done. done.
Qed.

Lemma add_attempt_usage l a :
  Forall unsigned l → unsigned a →
  (metric au_tokens a ≤ u64_max ∧ metric au_cost_micro_usd a ≤ u64_max ∧ metric au_wall_time_seconds a ≤ u64_max) →
  add_attempt (usage_of l) a = usage_of (l ++ [a]).
Proof.
  intros Hl Ha (H1 & H2 & H3). rewrite <-add_usage_of; [|done|by constructor].
  assert (∀ f, metric f a ≤ u64_max → total f [a] = metric f a) as Hone.
  { intros f Hf. unfold total, sum_of. cbn. lia. }
  unfold add_attempt, add_usage, usage_of. cbn. rewrite !Hone, !orb_false_r by done. done.
Qed.

(** The numbers an attempt records fit an unsigned 64-bit integer. *)
Definition recorded (a : GraphAttempt) : Prop :=
  ∀ u n, at_usage a = Some u → (au_tokens u = Some n ∨ au_cost_micro_usd u = Some n ∨ au_wall_time_seconds u = Some n) →
    0 ≤ n ≤ u64_max.
Lemma recorded_metrics a : recorded a → unsigned a ∧
  (metric au_tokens a ≤ u64_max ∧ metric au_cost_micro_usd a ≤ u64_max ∧ metric au_wall_time_seconds a ≤ u64_max).
Proof.
  intros H. unfold unsigned, metric, attempt_metric, recorded in *. destruct (at_usage a) as [u|]; cbn.
  - assert (∀ o, o = au_tokens u ∨ o = au_cost_micro_usd u ∨ o = au_wall_time_seconds u →
      0 ≤ unwrap_or o 0 ≤ u64_max) as Ho.
    { intros [n|] Ho; cbn; [|unfold u64_max; lia]. apply (H u n); [done|]. naive_solver. }
    repeat split; apply Ho; auto.
  - unfold u64_max. lia.
Qed.

Lemma node_usage_of n : Forall recorded (counted_attempts n) → node_usage n = usage_of (counted_attempts n).
Proof.
  unfold node_usage. assert (∀ k l, Forall recorded (k ++ l) → fold_left add_attempt l (usage_of k) = usage_of (k ++ l)) as H.
  { intros k l. revert k. induction l as [|a l IH]; intros k H; [by rewrite app_nil_r|]. cbn [fold_left].
    apply Forall_app in H as Hs. destruct Hs as [Hk Hal]. inversion Hal as [|? ? Ha Hl]; subst.
    rewrite add_attempt_usage.
    - rewrite IH; by rewrite <-(assoc_L (++)).
    - eapply Forall_impl; [exact Hk|]. intros x Hx. by apply recorded_metrics.
    - by apply recorded_metrics.
    - by apply recorded_metrics. }
  intros Hr. exact (H [] _ Hr).
Qed.

(** ** The check is exact *)

Lemma union_None {A} (o p : option A) : o ∪ p = None ↔ o = None ∧ p = None.
Proof. destruct o, p; cbn; naive_solver. Qed.

Lemma unknown_reason_None scope limit t c s policy :
  unknown_budget_reason scope limit (t, c, s) policy = None ↔
  (policy = UnknownPause → (bl_tokens limit ≠ None → t = false) ∧ (bl_cost_usd limit ≠ None → c = false) ∧
     (bl_wall_time_seconds limit ≠ None → s = false)).
Proof.
  unfold unknown_budget_reason. destruct policy; cbn; [naive_solver|].
  destruct (bl_tokens limit), (bl_cost_usd limit), (bl_wall_time_seconds limit), t, c, s; cbn; naive_solver.
Qed.

Lemma limit_None (o : option Z) x (f : Z → string) :
  match o with Some max => if max <=? x then Some (f max) else None | None => None end = None ↔
  ∀ max, o = Some max → x < max.
Proof.
  destruct o as [max|]; [|naive_solver]. destruct (Z.leb_spec max x); split; try done.
  - intros H'. specialize (H' max eq_refl). lia.
  - by intros _ ? [= <-].
Qed.

Lemma scope_reason_None scope limit policy l :
  scope_reason scope limit policy (usage_of l) = None ↔ within limit policy l.
Proof.
  unfold scope_reason, exceeded, usage_of. cbn [us_tokens us_cost us_seconds us_unknown].
  rewrite !union_None, unknown_reason_None, !existsb_false_elem, !limit_None.
  assert (match bl_cost_usd limit with
          | Some max => if at_least (usd (total au_cost_micro_usd l)) max
                        then Some (scope +:+ ".cost_usd budget " +:+ display_f64 max +:+ " reached") else None
          | None => None end = None ↔
    ∀ max, bl_cost_usd limit = Some max → f64_le max (usd (total au_cost_micro_usd l)) = false) as ->.
  { unfold at_least. destruct (bl_cost_usd limit) as [max|]; [|naive_solver].
    destruct (f64_le max _) eqn:E; split; try done; [intros H; by rewrite (H max eq_refl) in E|by intros _ ? [= <-]]. }
  split.
  - intros (((Ht & Hc) & Hs) & Hu). split; try done. intros Hp a Ha. specialize (Hu Hp). naive_solver.
  - intros [Ht Hc Hs Hu]. split_and!; try done. intros Hp. split_and!; intros Hcfg a Ha; by apply (Hu Hp a Ha).
Qed.

Lemma budget_loop_None budget l nodes :
  Forall unsigned l → Forall (λ n, Forall recorded (counted_attempts n)) nodes →
  budget_loop budget (usage_of l) nodes = None ↔
  Forall (λ n, within (gb_per_node budget) (gb_unknown_usage budget) (counted_attempts n)) nodes ∧
  within (gb_per_graph budget) (gb_unknown_usage budget) (l ++ flat_map counted_attempts nodes).
Proof.
  intros Hl Hn. revert l Hl. induction Hn as [|n nodes Hr _ IH]; intros l Hl; cbn [budget_loop flat_map].
  { rewrite app_nil_r, scope_reason_None. split; [by split; [constructor|]|by intros []]. }
  assert (Forall unsigned (counted_attempts n)) as Hu.
  { eapply Forall_impl; [exact Hr|]. intros x Hx. by apply recorded_metrics. }
  rewrite node_usage_of, add_usage_of by done.
  destruct (scope_reason _ _ _ (usage_of (counted_attempts n))) eqn:E.
  - split; [done|]. intros [Hall _]. inversion Hall as [|? ? Hw _]; subst.
    apply scope_reason_None with (scope := "per_node") in Hw. by rewrite Hw in E.
  - apply scope_reason_None in E. rewrite IH, <-(assoc_L (++)) by (by apply Forall_app). rewrite Forall_cons. tauto.
Qed.

(** C18: The budget check is exact.  Work may start exactly when each node, and
    the graph as a whole, stays below every configured limit by the plain sums
    over the attempts that were launched and are over (earlier redos included),
    and when unknown usage pauses the graph, every such attempt has every metric
    a limit is configured for. *)
Theorem budget_reason_exact cp budget :
  (∀ n a, n ∈ cp_nodes cp → a ∈ counted_attempts n → recorded a) →
  budget_reason cp budget = None ↔
  (∀ n, n ∈ cp_nodes cp → within (gb_per_node budget) (gb_unknown_usage budget) (counted_attempts n)) ∧
  within (gb_per_graph budget) (gb_unknown_usage budget) (flat_map counted_attempts (cp_nodes cp)).
Proof.
  intros Hrec. unfold budget_reason. change no_usage with (usage_of []).
  rewrite budget_loop_None; [|constructor|].
  - by rewrite Forall_forall.
  - apply Forall_forall. intros n Hn. apply Forall_forall. intros a Ha. by eapply Hrec.
Qed.

(** ** Extensions only relax *)

Lemma f64_lt_le_trans a b c : f64_lt a b = true → f64_le b c = true → f64_le a c = true.
Proof.
  unfold f64_lt, f64_le, SFltb, SFleb.
  destruct a as [sa|sa| |sa ma ea], b as [sb|sb| |sb mb eb], c as [sc|sc| |sc mc ec]; cbn; try done;
    try (destruct sa; done); try (destruct sb; done); try (destruct sc; done);
    try (destruct sa, sb; done); try (destruct sb, sc; done); try (destruct sa, sb, sc; done).
  change (Pos.compare_cont Eq) with Pos.compare.
  destruct sa, sb, sc; try done;
    destruct (Z.compare_spec ea eb), (Z.compare_spec eb ec), (Z.compare_spec ea ec); try done; try lia;
    destruct (Pos.compare_spec ma mb), (Pos.compare_spec mb mc), (Pos.compare_spec ma mc); try done; lia.
Qed.
Lemma f64_lt_irrefl a : f64_lt a a = false.
Proof.
  unfold f64_lt, SFltb. destruct a as [s|s| |s m e]; cbn; try done; [by destruct s|].
  change (Pos.compare_cont Eq m m) with (Pos.compare m m). rewrite Z.compare_refl, Pos.compare_refl. by destruct s.
Qed.
Lemma f64_max_idem a b : is_finite b = true → f64_max (f64_max a b) b = f64_max a b.
Proof.
  intros Hb. assert (f64_max b b = b) as Hbb by (unfold f64_max; rewrite f64_lt_irrefl; by destruct b).
  unfold f64_max at 2 3. destruct a; [..|]; try (destruct (f64_lt _ b) eqn:E; [done|]; unfold f64_max; by rewrite E). done.
Qed.

(** A limit is left alone or raised. *)
Record relaxed (old new : BudgetLimit) : Prop := {
  relaxed_tokens max : bl_tokens new = Some max → ∃ max', bl_tokens old = Some max' ∧ max' ≤ max;
  relaxed_cost max : bl_cost_usd new = Some max → ∃ max', bl_cost_usd old = Some max' ∧
    ∀ x, f64_le max x = true → f64_le max' x = true;
  relaxed_seconds max : bl_wall_time_seconds new = Some max → ∃ max', bl_wall_time_seconds old = Some max' ∧ max' ≤ max;
}.
Definition finite_costs (b : GraphBudget) : Prop :=
  ∀ max, bl_cost_usd (gb_per_node b) = Some max ∨ bl_cost_usd (gb_per_graph b) = Some max → is_finite max = true.

Lemma relaxed_refl limit : relaxed limit limit.
Proof. split; intros max Hmax; exists max; (split; [done|]); (lia || auto). Qed.

Lemma within_relaxed old new policy l : relaxed old new → within old policy l → within new policy l.
Proof.
  intros [Rt Rc Rs] [Ht Hc Hs Hu]. split.
  - intros max Hm. destruct (Rt max Hm) as (max' & Ho & Hle). specialize (Ht max' Ho). lia.
  - intros max Hm. destruct (Rc max Hm) as (max' & Ho & Hle). specialize (Hc max' Ho).
    destruct (f64_le max _) eqn:E; [|done]. by rewrite (Hle _ E) in Hc.
  - intros max Hm. destruct (Rs max Hm) as (max' & Ho & Hle). specialize (Hs max' Ho). lia.
  - intros Hp a Ha. destruct (Hu Hp a Ha) as (U1 & U2 & U3). split_and!; intros Hcfg.
    + destruct (bl_tokens new) as [m|] eqn:E; [|done]. apply U1. destruct (Rt m eq_refl) as (? & -> & _). done.
    + destruct (bl_cost_usd new) as [m|] eqn:E; [|done]. apply U2. destruct (Rc m eq_refl) as (? & -> & _). done.
    + destruct (bl_wall_time_seconds new) as [m|] eqn:E; [|done]. apply U3. destruct (Rs m eq_refl) as (? & -> & _). done.
Qed.

Lemma raise_u64_relaxed number slot max :
  raise_u64 number slot = Some max → ∃ max', slot = Some max' ∧ max' ≤ max.
Proof. unfold raise_u64. destruct slot as [old|]; [|done]. intros [= <-]. exists old. split; [done|lia]. Qed.
Lemma raise_u64_idem number slot : raise_u64 number (raise_u64 number slot) = raise_u64 number slot.
Proof. unfold raise_u64. destruct slot; [|done]. cbn. f_equal. lia. Qed.

Lemma extend_limit_Ok extension key field value replay old new :
  (∀ max, bl_cost_usd old = Some max → is_finite max = true) →
  extend_limit extension key field value replay old = Ok new →
  relaxed old new ∧ extend_limit extension key field value true new = Ok new.
Proof.
  intros Hfin. unfold extend_limit. destruct ((field == "tokens") || _).
  - destruct (parse_uint u64_max value) as [number|]; [|done]. destruct (number =? 0); [done|].
    destruct (is_none _ && negb replay); [done|]. cbn [negb]. rewrite andb_false_r.
    destruct (field == "tokens"); intros [= <-]; cbn [bl_tokens bl_cost_usd bl_wall_time_seconds]; rewrite raise_u64_idem; (split; [|done]);
      (split; cbn [bl_tokens bl_cost_usd bl_wall_time_seconds]; intros max Hm; first [by eapply raise_u64_relaxed | by apply (relaxed_refl old)]).
  - destruct (field == "cost_usd"); [|done]. destruct (parse_f64 value) as [number|]; [|done].
    destruct (negb (is_finite number) || _) eqn:Hnum; [done|].
    destruct (is_none _ && negb replay); [done|]. cbn [negb]. rewrite andb_false_r. intros [= <-]. cbn.
    apply orb_false_iff in Hnum as [Hf%negb_false_iff _].
    split; [|by destruct (bl_cost_usd old); cbn; [rewrite f64_max_idem|]].
    split; cbn; intros max Hm; try by apply (relaxed_refl old). unfold raise_f64 in Hm.
    destruct (bl_cost_usd old) as [c|]; [|done]. injection Hm as <-. exists c. split; [done|].
    specialize (Hfin c eq_refl). unfold f64_max. destruct (f64_lt c number) eqn:E.
    + intros x Hx. destruct c; try done; by eapply f64_lt_le_trans.
    + by destruct c.
Qed.

(** A budget extension never tightens a budget.  An accepted extension leaves
    every limit where it was or raises it, cannot add a limit, makes no graph
    pause that did not, and replaying it changes nothing more. *)
Theorem extension_only_relaxes budget extension replay extended :
  finite_costs budget → apply_extension budget extension replay = Ok extended →
  relaxed (gb_per_node budget) (gb_per_node extended) ∧ relaxed (gb_per_graph budget) (gb_per_graph extended) ∧
  gb_unknown_usage extended = gb_unknown_usage budget ∧
  apply_extension extended extension true = Ok extended ∧
  ∀ cp, (∀ n a, n ∈ cp_nodes cp → a ∈ counted_attempts n → recorded a) →
    budget_reason cp budget = None → budget_reason cp extended = None.
Proof.
  intros Hfin H. unfold apply_extension in *. destruct (split_once "="%char extension) as [[key value]|]; [|done].
  destruct (split_once "."%char _) as [[scope field]|]; [|done].
  assert (relaxed (gb_per_node budget) (gb_per_node extended) ∧ relaxed (gb_per_graph budget) (gb_per_graph extended) ∧
    gb_unknown_usage extended = gb_unknown_usage budget) as (Rn & Rg & Hu).
  { destruct (scope == "per_node"); [|destruct (scope == "per_graph"); [|done]];
      apply result_bind_Ok in H as (limit & Hl & [= <-]); apply extend_limit_Ok in Hl as [Hr _];
      naive_solver eauto using relaxed_refl. }
  split_and!; [done..| |].
  - destruct (scope == "per_node"); [|destruct (scope == "per_graph"); [|done]];
      apply result_bind_Ok in H as (limit & Hl & [= <-]); apply extend_limit_Ok in Hl as [_ Hl];
      cbn [gb_per_node gb_per_graph gb_unknown_usage]; try (by rewrite Hl); naive_solver.
  - intros cp Hrec. unfold budget_reason. change no_usage with (usage_of []).
    assert (Forall (λ n, Forall recorded (counted_attempts n)) (cp_nodes cp)) as Hr.
    { apply Forall_forall. intros n Hn. apply Forall_forall. intros a Ha. by eapply Hrec. }
    rewrite !budget_loop_None by done. rewrite Hu. intros [Hn Hg]. split; [|by eapply within_relaxed].
    eapply Forall_impl; [exact Hn|]. intros n. by apply within_relaxed.
Qed.

(** ** Records of unknown usage *)

(** What recording an event keeps of the record. *)
Record usage_kept (cp cp' : GraphCheckpoint) : Prop := {
  kept_once : NoDup (cp_usage_events cp');
  kept_few : (length (cp_usage_events cp') ≤ MAX_USAGE_EVENTS)%nat;
  kept_count : cp_usage_events_omitted cp ≤ cp_usage_events_omitted cp' ≤ u64_max;
  kept_newest : ∃ dropped fresh, cp_usage_events cp ++ fresh = dropped ++ cp_usage_events cp';
}.
Definition usage_ok (cp : GraphCheckpoint) : Prop :=
  NoDup (cp_usage_events cp) ∧ (length (cp_usage_events cp) ≤ MAX_USAGE_EVENTS)%nat ∧
  0 ≤ cp_usage_events_omitted cp ≤ u64_max.

Lemma usage_kept_refl cp : usage_ok cp → usage_kept cp cp.
Proof. intros (? & ? & ?). split; try done; [lia|]. exists [], []. by rewrite app_nil_r. Qed.
Lemma usage_kept_ok cp cp' : usage_ok cp → usage_kept cp cp' → usage_ok cp'.
Proof. intros (_ & _ & ?) []. split_and!; try done; lia. Qed.
Lemma usage_kept_trans cp1 cp2 cp3 : usage_kept cp1 cp2 → usage_kept cp2 cp3 → usage_kept cp1 cp3.
Proof.
  intros [_ _ Hc (d & f & Hd)] [Hn Hl Hc' (d' & f' & Hd')]. split; [done|done|lia|]. exists (d ++ d'), (f ++ f').
  by rewrite (assoc_L (++)), Hd, <-(assoc_L (++)), Hd', (assoc_L (++)).
Qed.

Lemma push_usage_kept e cp : usage_ok cp → usage_kept cp (push_usage_event e cp).
Proof.
  intros Hok. unfold push_usage_event. case_bool_decide as Hin; [by apply usage_kept_refl|]. destruct Hok as (Hn & Hl & Ho).
  set (k := (length (cp_usage_events cp ++ [e]) - MAX_USAGE_EVENTS)%nat).
  assert (NoDup (cp_usage_events cp ++ [e])) as Hnd.
  { apply NoDup_app. split_and!; [done| |apply NoDup_singleton]. set_solver. }
  split; cbn [cp_usage_events cp_usage_events_omitted set_cp_usage_events set_cp_usage_events_omitted].
  - rewrite <-(take_drop k (cp_usage_events cp ++ [e])) in Hnd. by apply NoDup_app in Hnd as (_ & _ & ?).
  - rewrite length_drop. unfold k. lia.
  - unfold saturating_add_u64, clamp, u64_max in *. lia.
  - exists (take k (cp_usage_events cp ++ [e])), [e]. by rewrite take_drop.
Qed.

(** The record of unknown usage stays bounded and free of duplicates.
    Recording the events of a settled attempt keeps at most [MAX_USAGE_EVENTS]
    events, each once, the newest last, and the count of dropped events never
    falls. *)
Theorem usage_events_bounded cp node_index usage_error cost_error :
  usage_ok cp → usage_kept cp (record_usage_events cp node_index usage_error cost_error).
Proof.
  intros Hok. unfold record_usage_events. destruct (cp_nodes cp !! node_index) as [n|]; [|by apply usage_kept_refl].
  destruct (last (np_attempts n)) as [a|]; [|by apply usage_kept_refl].
  revert cp Hok. induction (settlement_events n a usage_error cost_error) as [|e events IH]; intros cp Hok; cbn [fold_left].
  - by apply usage_kept_refl.
  - pose proof (push_usage_kept e cp Hok) as Hp. eapply usage_kept_trans; [exact Hp|].
    apply IH. by eapply usage_kept_ok.
Qed.
End Budget.

(** ** Witnesses *)

(** One launched attempt that used 900 of 1000 tokens and records no cost. *)
Definition ex_spent_attempt : GraphAttempt :=
  mkAttempt ∅ true false (mkKey ∅ "g" "n" 0) (mkRoute None None None (Some "standard") None None)
    AttemptState.Terminal (Some "run-1") (Some AttemptOutcome.Succeeded) "chair" None
    (Some (mkUsage (Some 900) None (Some 60) false false None)) 1.
Definition ex_spent_checkpoint : GraphCheckpoint :=
  update_node 0 (set_np_attempts [ex_spent_attempt]) (initial_checkpoint (mkPlan "g" [ex_task "n" [] []])).
Definition ex_budget (tokens : Z) : GraphBudget :=
  mkBudget UnknownPause (mkLimit None None None) (mkLimit (Some tokens) None None).

Lemma ex_recorded n a : n ∈ cp_nodes ex_spent_checkpoint → a ∈ counted_attempts n → recorded a.
Proof.
  intros Hn Ha. assert (a = ex_spent_attempt) as ->.
  { apply list_elem_of_singleton in Hn as ->. by apply list_elem_of_singleton in Ha. }
  intros u k [= <-] [H|[H|H]]; cbn in H; [injection H as <-|done|injection H as <-]; unfold u64_max; lia.
Qed.

Lemma budget_reason_exact_witness :
  budget_reason (λ _, "") ex_spent_checkpoint (ex_budget 900) = Some "per_graph.tokens budget 900 reached (900)" ∧
  within (gb_per_graph (ex_budget 1000)) UnknownPause (flat_map counted_attempts (cp_nodes ex_spent_checkpoint)).
Proof.
  split; [vm_compute; reflexivity|].
  exact (proj2 (proj1 (budget_reason_exact (λ _, "") (λ _, None) ex_spent_checkpoint (ex_budget 1000) ex_recorded)
           ltac:(vm_compute; reflexivity))).
Defined.

Lemma extension_only_relaxes_witness :
  apply_extension (λ _, None) (ex_budget 900) "budget.per_graph.tokens=1000" false = Ok (ex_budget 1000) ∧
  relaxed (gb_per_graph (ex_budget 900)) (gb_per_graph (ex_budget 1000)).
Proof.
  assert (apply_extension (λ _, None) (ex_budget 900) "budget.per_graph.tokens=1000" false = Ok (ex_budget 1000)) as H
    by (vm_compute; reflexivity).
  split; [exact H|].
  exact (proj1 (proj2 (extension_only_relaxes (λ _, "") (λ _, None) (ex_budget 900) "budget.per_graph.tokens=1000" false
    (ex_budget 1000) ltac:(intros max [Hm|Hm]; discriminate Hm) H))).
Defined.

Lemma usage_events_bounded_witness :
  length (cp_usage_events (record_usage_events ex_spent_checkpoint 0 None None)) = 1%nat ∧
  NoDup (cp_usage_events (record_usage_events ex_spent_checkpoint 0 None None)).
Proof.
  assert (usage_ok ex_spent_checkpoint) as Hok.
  { split; [apply NoDup_nil_2|]. split; [apply Nat.le_0_l|]. split; vm_compute; discriminate. }
  split; [vm_compute; reflexivity|].
  exact (kept_once ex_spent_checkpoint (record_usage_events ex_spent_checkpoint 0 None None)
    (usage_events_bounded ex_spent_checkpoint 0 None None Hok)).
Defined.
