(* ===== verification/GraphSchedule.v ===== *)
(** * GraphSchedule: when a graph node may run

    Models of [crates/fabric-runtime/src/] the scheduling decisions of a task
    graph: [dependency_state] and [attribute_blocker] of [graph/transitions.rs]
    with [round_failure_edge] of [graph/loops.rs], the verdict and budget gates
    ([gate_failure] of [graph.rs]), the cancellation of a graph and its reversal
    ([mark_cancelled_nodes_without_live_attempts] and [restore_cancelled_nodes]
    of [graph.rs], [apply_resume] of [graph/transitions.rs]).

    [runnable_exact] says when a node is let through to its effects,
    [gate_threshold_exact] when a verdict gate passes, and
    [cancel_resume_roundtrip] that resuming a cancelled graph restores it. *)

From Stdlib Require Import Ascii.
From stdpp Require Import base option list strings sets pretty gmap.
From S2P Require Import Prelude RoutingTypes GraphModel GraphOutcome GraphBudget.

Local Open Scope string_scope.
Local Open Scope list_scope.
Local Open Scope Z_scope.
Local Open Scope rust_scope.

(** ** Dependencies *)

(** [loops::round_failure_edge]. *)
Definition round_failure_edge (child parent : PlannedNode) : bool :=
  is_some_and (pn_round parent) (λ r,
    lr_until r
    && (is_some_and (pn_round child) (λ c, (lr_loop_id c == lr_loop_id r) && (lr_round c =? lr_round r + 1))
        || (pn_loop_body child && (pn_id child == lr_loop_id r)))).

Definition skips_without_findings (node : PlannedNode) (gate : string) : bool :=
  match pn_skip_without_findings node with
  | Some skip => skip
  | None => existsb (λ input, (in_node input == gate) && bool_decide (OutputKind.Findings ∈ in_outputs input))
              (pn_inputs node)
  end.

(** A failure target of the parent, or a node of the round that is. *)
Definition recovers (node parent : PlannedNode) : bool :=
  is_some_and (pn_on_fail parent) (λ target,
    (target == pn_id node) || is_some_and (pn_round node) (λ round, lr_loop_id round == target)).
(** A failed CI gate that reported no failing check leaves nothing to act on. *)
Definition nothing_to_recover (node parent : PlannedNode) (progress : NodeProgress) : bool :=
  skips_without_findings node (pn_id parent)
  && match pn_condition parent with Some GateCi => true | _ => false end
  && is_some_and (np_outputs progress) (λ outputs, bool_decide (no_findings outputs = [])).

Inductive Edge := EdgeOpen | EdgeSkipped | EdgeBlocked | EdgeWaiting.
#[export] Instance Edge_eq_dec : EqDecision Edge.
Proof. solve_decision. Defined.

(** One round of the loop over [depends_on]. *)
Definition edge_state (node parent : PlannedNode) (progress : NodeProgress) : Edge :=
  if round_failure_edge node parent && (np_state progress == NodeState.Failed) then EdgeOpen
  else
    let recovery := recovers node parent in
    match np_state progress with
    | NodeState.Failed =>
        if pn_advisory parent then EdgeOpen
        else if recovery && nothing_to_recover node parent progress then EdgeSkipped
        else if recovery then EdgeOpen
        else if is_some (pn_on_fail parent) then EdgeSkipped
        else EdgeBlocked
    | NodeState.Blocked => if pn_advisory parent then EdgeOpen else EdgeBlocked
    | NodeState.Succeeded => if recovery then EdgeSkipped else EdgeOpen
    | NodeState.Skipped => EdgeSkipped
    | NodeState.Pending | NodeState.Running => EdgeWaiting
    end.

Section Schedule.
  (** The plan, and where each node of it is. *)
  Context (plan : PlannedGraph) (positions : gmap string nat).

(** [plan.nodes[positions[id]]] and [checkpoint.nodes[positions[id]]]; [None] is
    the panic of an index out of range. *)
Definition planned_at (id : string) : option PlannedNode := positions !! id ≫= λ i, pg_nodes plan !! i.
Definition progress_at (cp : GraphCheckpoint) (id : string) : option NodeProgress :=
  positions !! id ≫= λ i, cp_nodes cp !! i.

(** A parent of the expansion has to succeed, unless it is advisory. *)
Definition expansion_blocks (cp : GraphCheckpoint) (parent : string) : option bool :=
  pn ← planned_at parent;
  pp ← progress_at cp parent;
  good ← node_successful (owner_fuel cp) cp pp;
  Some (negb (good : bool)
        && negb (pn_advisory pn && match np_state pp with NodeState.Failed | NodeState.Blocked => true | _ => false end)).
Definition edge_at (cp : GraphCheckpoint) (node : PlannedNode) (parent : string) : option Edge :=
  pn ← planned_at parent;
  pp ← progress_at cp parent;
  Some (edge_state node pn pp).

Definition dependency_state (node : PlannedNode) (cp : GraphCheckpoint) : option (option NodeState.t) :=
  unsettled ← any_opt (λ parent, pp ← progress_at cp parent; Some (negb (settled (np_state pp)))) (pn_after_expansion node);
  if (unsettled : bool) then Some (Some NodeState.Pending) else
  blocks ← any_opt (expansion_blocks cp) (pn_after_expansion node);
  if (blocks : bool) then Some (Some NodeState.Blocked) else
  edges ← mapM (edge_at cp node) (pn_depends_on node);
  Some (if bool_decide (EdgeWaiting ∈ edges) then Some NodeState.Pending
        else if bool_decide (EdgeBlocked ∈ edges) then Some NodeState.Blocked
        else if bool_decide (EdgeSkipped ∈ edges) then Some NodeState.Skipped
        else None).

(** [{:?}] of a node state. *)
Definition debug_state (s : NodeState.t) : string :=
  match s with
  | NodeState.Pending => "Pending" | NodeState.Running => "Running" | NodeState.Succeeded => "Succeeded"
  | NodeState.Failed => "Failed" | NodeState.Blocked => "Blocked" | NodeState.Skipped => "Skipped"
  end.
Definition attribute_blocker (node_index : nat) (node : PlannedNode) (cp : GraphCheckpoint)
    : option (GraphCheckpoint * bool) :=
  p ← cp_nodes cp !! node_index;
  if is_some (pn_condition node) || is_some (pn_composite node) || pn_land node || is_some (np_advance_error p)
  then Some (cp, false)
  else
    parents ← mapM (progress_at cp) (pn_after_expansion node ++ pn_depends_on node);
    match List.find (λ pp, match np_state pp with NodeState.Failed | NodeState.Blocked => true | _ => false end) parents with
    | Some parent =>
        let reason := "blocked by " +:+ np_id parent +:+ " (" +:+ debug_state (np_state parent) +:+ ")" in
        Some (update_node node_index (λ p,
                set_np_advance_error_code (Some "upstream_blocked")
                  (set_np_advance_error (Some (bounded reason MAX_ADVANCE_ERROR_BYTES)) p)) cp, true)
    | None => Some (cp, false)
    end.

(** ** Gates *)

Inductive ReviewVerdict := Approve | ApproveWithNits | RequestChanges | Inconclusive.
#[export] Instance ReviewVerdict_eq_dec : EqDecision ReviewVerdict.
Proof. solve_decision. Defined.
Definition from_token (token : string) : option ReviewVerdict :=
  let token := unwrap_or (strip_prefix "VERDICT: " token) token in
  if (token == "APPROVE") || (token == "PASS") then Some Approve
  else if token == "APPROVE_WITH_NITS" then Some ApproveWithNits
  else if (token == "REQUEST_CHANGES") || (token == "FAIL") then Some RequestChanges
  else if token == "INCONCLUSIVE" then Some Inconclusive
  else None.
Definition verdict_matches (actual expected : string) : bool :=
  match from_token actual, from_token expected with
  | Some a, Some e => a == e
  | _, _ => actual == expected
  end.

Definition input_outputs (cp : GraphCheckpoint) (input : GraphInput) : option (option NodeOutputs) :=
  np_outputs <$> progress_at cp (in_node input).
Definition threshold_met (threshold : VerdictThreshold) (matched total : Z) : bool :=
  match threshold with
  | All => matched =? total
  | Any => 0 <? matched
  | Majority => total / 2 <? matched
  | Count count => count <=? matched
  end.

(** [gate_failure]: the outer [None] is a panic, also for a CI gate, which the
    host observes. *)
Definition gate_failure (display_f64 : f64 → string) (condition : GateCondition) (node : PlannedNode)
    (cp : GraphCheckpoint) (budget : GraphBudget) : option (option string) :=
  match condition with
  | GateVerdict expected threshold =>
      outputs ← mapM (input_outputs cp) (pn_inputs node);
      match find_map (λ '(input, out), (λ error, "input " +:+ in_node input +:+ ": " +:+ error) <$> (out ≫= no_verdict_error))
              (zip (pn_inputs node) outputs) with
      | Some error => Some (Some error)
      | None =>
          let matched := len (List.filter (λ out, is_some_and (out ≫= no_verdict) (λ actual, verdict_matches actual expected)) outputs) in
          let total := len (pn_inputs node) in
          Some (if threshold_met threshold matched total then None
                else Some ("verdict threshold not met: " +:+ pretty matched +:+ "/" +:+ pretty total +:+ " matched"))
      end
  | GateCi => None
  | GateBudget =>
      Some (budget_reason display_f64 cp (mkBudget UnknownPause (gb_per_node budget) (gb_per_graph budget)))
  end.
End Schedule.

(** ** Cancelling a graph and resuming it *)

Definition DETACHED_FROM_GRAPH_CANCEL : string := "detached_from_graph_cancel".
Definition cancellable (n : NodeProgress) : bool :=
  negb (settled (np_state n)) && negb (extra_true (np_extra n) DETACHED_FROM_GRAPH_CANCEL)
  && forallb is_terminal (np_attempts n).
Definition mark_cancelled (n : NodeProgress) : NodeProgress :=
  if cancellable n then
    set_np_skip_reason (Some "graph cancelled")
      (set_np_state NodeState.Skipped (set_np_cancelled_from (Some (np_state n)) n))
  else n.
Definition mark_cancelled_nodes_without_live_attempts (cp : GraphCheckpoint) : GraphCheckpoint * bool :=
  if negb (cp_cancelled cp) then (cp, false)
  else
    let changed := existsb cancellable (cp_nodes cp) in
    let cp := set_cp_nodes (mark_cancelled <$> cp_nodes cp) cp in
    (if changed then refresh_wake cp else cp, changed).

Definition restore_cancelled (cancelled : bool) (n : NodeProgress) : result (string * string) NodeProgress :=
  match np_cancelled_from n with
  | None => Ok n
  | Some state =>
      let n0 := set_np_cancelled_from None n in
      if settled state then
        Err (np_id n, "cancelled node can only be restored from pending or running")
      else if cancelled && (np_state n == NodeState.Skipped) && (np_skip_reason n == Some "graph cancelled") then
        Ok (set_np_skip_reason None (set_np_state state n0))
      else if (np_state n == NodeState.Skipped) && is_some_and (np_skip_reason n) (λ reason, starts_with reason "parent ") then
        Ok n
      else Err (np_id n, "cancelled node can only be restored from pending or running")
  end.
Definition restore_cancelled_nodes (cp : GraphCheckpoint) : result (string * string) GraphCheckpoint :=
  if cp_wake_at cp != next_wake cp then Err ("", "graph wake time disagrees with its pending asks")
  else
    nodes ← mapM (M := result (string * string)) (restore_cancelled (cp_cancelled cp)) (cp_nodes cp);
    Ok (refresh_wake (set_cp_nodes nodes cp)).

Definition deactivate_expansion_pause (n : NodeProgress) : NodeProgress :=
  match np_expansion_cause n with
  | Some (PlanExpansionPaused _ fallback) =>
      set_np_expansion_cause (if is_none (np_expansion_pause n) then None else Some (PlanExpansionPaused false fallback)) n
  | _ => n
  end.
Definition deactivate_expansion_pauses (cp : GraphCheckpoint) : GraphCheckpoint :=
  set_cp_nodes (deactivate_expansion_pause <$> cp_nodes cp) cp.

Definition record_extension (extensions : list string) (extension : string) : list string :=
  if bool_decide (extension ∈ extensions) then extensions else extensions ++ [extension].
Definition apply_resume (cp : GraphCheckpoint) (extensions : list string) : result (string * string) GraphCheckpoint :=
  cp ← (if cp_cancelled cp then
          cp ← restore_cancelled_nodes cp;
          Ok (set_cp_cancelled false cp)
        else Ok cp);
  let cp := set_cp_extensions (fold_left record_extension extensions (cp_extensions cp)) cp in
  let cp := deactivate_expansion_pauses cp in
  Ok (set_cp_pause_code None (set_cp_pause_reason None cp)).

Definition clear_settled_pause (cp : GraphCheckpoint) : GraphCheckpoint * bool :=
  if forallb (λ n, settled (np_state n)) (cp_nodes cp)
     && forallb (λ n, is_none (np_expansion_pause n)) (cp_nodes cp)
     && is_some (cp_pause_reason cp)
  then (set_cp_pause_code None (deactivate_expansion_pauses (set_cp_pause_reason None cp)), true)
  else (cp, false).

(** ** When a node runs *)

Lemma any_opt_false {A} (f : A → option bool) l :
  any_opt f l = Some false ↔ ∀ x, x ∈ l → f x = Some false.
Proof.
  split; [intros [[? _]|[_ H]]%any_opt_Some; [done|exact H]|].
  induction l as [|x l IH]; intros H; [done|]. cbn. rewrite (H x) by set_solver. cbn. apply IH. set_solver.
Qed.

(** The parent lets the child run: it succeeded and the child is not its
    recovery, or its failure is one the child may follow. *)
Definition lets_run (node parent : PlannedNode) (progress : NodeProgress) : Prop :=
  match np_state progress with
  | NodeState.Succeeded => recovers node parent = false
  | NodeState.Failed =>
      round_failure_edge node parent = true ∨ pn_advisory parent = true ∨
      (recovers node parent = true ∧ nothing_to_recover node parent progress = false)
  | NodeState.Blocked => pn_advisory parent = true
  | _ => False
  end.

Lemma edge_open node parent progress : edge_state node parent progress = EdgeOpen ↔ lets_run node parent progress.
Proof.
  unfold edge_state, lets_run. destruct (np_state progress); cbn;
    destruct (round_failure_edge node parent), (pn_advisory parent), (recovers node parent),
      (nothing_to_recover node parent progress), (is_some (pn_on_fail parent)); cbn; naive_solver.
Qed.

#[local] Arguments node_successful : simpl never.

Section Runnable.
  Context (plan : PlannedGraph) (positions : gmap string nat).

(** What the three passes over the parents conclude together. *)
Lemma dependency_open node cp :
  dependency_state plan positions node cp = Some None ↔
  (∀ id, id ∈ pn_after_expansion node →
     (pp ← progress_at positions cp id; Some (negb (settled (np_state pp)))) = Some false) ∧
  (∀ id, id ∈ pn_after_expansion node → expansion_blocks plan positions cp id = Some false) ∧
  (∀ id, id ∈ pn_depends_on node → edge_at plan positions cp node id = Some EdgeOpen).
Proof.
  rewrite <-!any_opt_false. unfold dependency_state.
  set (B := any_opt (expansion_blocks _ _ _) _). set (U := any_opt _ _). clearbody U B.
  destruct U as [[]|]; cbn; [split; [done|by intros [? _]]| |split; [done|by intros [? _]]].
  destruct B as [[]|]; cbn; [split; [done|by intros (_ & ? & _)]| |split; [done|by intros (_ & ? & _)]].
  destruct (mapM (edge_at plan positions cp node) (pn_depends_on node)) as [edges|] eqn:Hm; cbn.
  - apply mapM_Some in Hm. split.
    + intros H. split_and!; [done..|]. intros id [i Hi]%list_elem_of_lookup.
      destruct (Forall2_lookup_l _ _ _ _ _ Hm Hi) as (e & He & ->). f_equal.
      apply list_elem_of_lookup_2 in He. repeat case_bool_decide; try done. by destruct e.
    + intros (_ & _ & H). assert (∀ e, e ∈ edges → e = EdgeOpen) as Hall.
      { intros e [i Hi]%list_elem_of_lookup. destruct (Forall2_lookup_r _ _ _ _ _ Hm Hi) as (id & Hid & He).
        apply list_elem_of_lookup_2 in Hid. rewrite (H id Hid) in He. by injection He. }
      rewrite !bool_decide_eq_false_2; [done|..]; intros Hin; by specialize (Hall _ Hin).
  - split; [done|]. intros (_ & _ & H). exfalso.
    assert (∃ edges, mapM (edge_at plan positions cp node) (pn_depends_on node) = Some edges) as [? Hs]; [|congruence].
    exists ((λ _, EdgeOpen) <$> pn_depends_on node). apply mapM_Some, Forall2_fmap_r, Forall_Forall2_diag, Forall_forall, H.
Qed.

Lemma progress_at_elem cp id pp : progress_at positions cp id = Some pp → pp ∈ cp_nodes cp.
Proof. unfold progress_at. intros (i & _ & Hi)%bind_Some. by eapply list_elem_of_lookup_2. Qed.

(** C19: A node runs exactly when what it waits for allows it.  In a checkpoint
    whose loops come after their rounds it is let through when every node its
    expansion follows is settled and good, or is advisory and failed, and every
    dependency succeeded without being recovered by it, or failed in a way it
    may follow: as an advisory node, as the gate of the round before it, or as a
    node it recovers from with something to act on.  No node runs after a
    dependency that is pending, running or skipped. *)
Theorem runnable_exact node cp :
  owners_later cp = true →
  dependency_state plan positions node cp = Some None ↔
  (∀ id, id ∈ pn_after_expansion node →
     ∃ pn pp, planned_at plan positions id = Some pn ∧ progress_at positions cp id = Some pp ∧
       settled (np_state pp) = true ∧
       (good cp pp ∨
        (pn_advisory pn = true ∧ (np_state pp = NodeState.Failed ∨ np_state pp = NodeState.Blocked)))) ∧
  (∀ id, id ∈ pn_depends_on node →
     ∃ pn pp, planned_at plan positions id = Some pn ∧ progress_at positions cp id = Some pp ∧ lets_run node pn pp).
Proof.
  intros Howners. rewrite dependency_open. split.
  - intros (Hu & Hb & He). split.
    + intros id Hid. specialize (Hu id Hid). specialize (Hb id Hid). unfold expansion_blocks in Hb.
      destruct (planned_at plan positions id) as [pn|]; [|done].
      destruct (progress_at positions cp id) as [pp|] eqn:Hpp; [|done]. cbn in Hu, Hb.
      injection Hu as Hs%negb_false_iff. exists pn, pp. split_and!; try done.
      destruct (good_exact cp pp Howners (progress_at_elem _ _ _ Hpp)) as [[Hg _]|[_ Hf]]; [by left|right].
      rewrite Hf in Hb. destruct (pn_advisory pn), (np_state pp); naive_solver.
    + intros id Hid. specialize (He id Hid). unfold edge_at in He.
      destruct (planned_at plan positions id) as [pn|]; [|done].
      destruct (progress_at positions cp id) as [pp|]; [|done]. cbn in He. injection He as He%edge_open. eauto.
  - intros [Ha Hd]. split_and!.
    + intros id Hid. destruct (Ha id Hid) as (pn & pp & _ & -> & Hs & _). cbn. by rewrite Hs.
    + intros id Hid. destruct (Ha id Hid) as (pn & pp & Hpn & Hpp & Hs & Hcase). unfold expansion_blocks.
      rewrite Hpn, Hpp. cbn.
      destruct (good_exact cp pp Howners (progress_at_elem _ _ _ Hpp)) as [[_ ->]|[Hng ->]]; cbn; [done|].
      destruct Hcase as [?|(-> & [-> | ->])]; done.
    + intros id Hid. destruct (Hd id Hid) as (pn & pp & Hpn & Hpp & Hl%edge_open). unfold edge_at.
      rewrite Hpn, Hpp. cbn. by rewrite Hl.
Qed.
End Runnable.

(** ** When a gate passes *)

Definition input_matches (expected : string) (out : option NodeOutputs) : bool :=
  is_some_and (out ≫= no_verdict) (λ actual, verdict_matches actual expected).
(** The quorum a threshold asks for. *)
Definition quorum (expected : string) (threshold : VerdictThreshold) (outputs : list (option NodeOutputs)) : Prop :=
  let matched := len (List.filter (input_matches expected) outputs) in
  match threshold with
  | All => ∀ out, out ∈ outputs → input_matches expected out = true
  | Any => ∃ out, out ∈ outputs ∧ input_matches expected out = true
  | Majority => len outputs < 2 * matched
  | Count count => count ≤ matched
  end.

Lemma filter_all {A} (f : A → bool) l : len (List.filter f l) = len l ↔ ∀ x, x ∈ l → f x = true.
Proof.
  unfold len. assert (length (List.filter f l) ≤ length l)%nat as Hle by apply List.filter_length_le.
  induction l as [|x l IH]; [split; [set_solver|done]|]. cbn in *.
  assert (length (List.filter f l) ≤ length l)%nat as Hle' by apply List.filter_length_le. destruct (f x) eqn:Hx; cbn.
  - rewrite !Nat2Z.inj_succ, <-(Z.add_1_r (Z.of_nat (length l))). split.
    + intros H y [->|Hy]%elem_of_cons; [done|]. apply IH; [done|lia|done].
    + intros H. rewrite (proj2 (IH Hle')); [lia|]. set_solver.
  - split; [lia|]. intros H. specialize (H x). rewrite Hx in H. set_solver.
Qed.
Lemma filter_any {A} (f : A → bool) l : 0 < len (List.filter f l) ↔ ∃ x, x ∈ l ∧ f x = true.
Proof.
  unfold len. split.
  - intros H. destruct (List.filter f l) as [|x k] eqn:E; [done|]. exists x.
    assert (In x (List.filter f l)) as Hin by (rewrite E; by left). apply List.filter_In in Hin as [Hin ?].
    split; [by apply list_elem_of_In|done].
  - intros (x & Hx & Hf). assert (In x (List.filter f l)) as Hin by (apply List.filter_In; split; [by apply list_elem_of_In|done]).
    destruct (List.filter f l); [done|]. cbn. lia.
Qed.

(** A verdict gate passes exactly when its quorum is met.  With the outputs
    of its inputs at hand, it passes when no input has a verdict error and the
    verdicts that mean the expected one are all of them, some, more than half or
    the counted number, as its threshold says. *)
Theorem gate_threshold_exact positions display_f64 expected threshold node cp budget outputs :
  mapM (input_outputs positions cp) (pn_inputs node) = Some outputs →
  gate_failure positions display_f64 (GateVerdict expected threshold) node cp budget = Some None ↔
  (∀ out, out ∈ outputs → out ≫= no_verdict_error = None) ∧ quorum expected threshold outputs.
Proof.
  intros Hm. unfold gate_failure. rewrite Hm. cbn [mbind option_bind].
  apply mapM_Some in Hm as Hf. pose proof (Forall2_length _ _ _ Hf) as Hlen.
  assert (find_map (λ '(input, out), (λ error, "input " +:+ in_node input +:+ ": " +:+ error) <$> (out ≫= no_verdict_error))
            (zip (pn_inputs node) outputs) = None ↔ ∀ out, out ∈ outputs → out ≫= no_verdict_error = None) as Herr.
  { rewrite find_map_None. split.
    - intros H out [i Hi]%list_elem_of_lookup. destruct (Forall2_lookup_r _ _ _ _ _ Hf Hi) as (input & Hin & _).
      specialize (H (input, out)). cbn in H. destruct (out ≫= no_verdict_error); [|done]. exfalso.
      assert ((input, out) ∈ zip (pn_inputs node) outputs) as Hz; [|by specialize (H Hz)].
      apply list_elem_of_lookup. exists i. by apply lookup_zip_with_Some; eauto 6.
    - intros H [input out] Hin. apply elem_of_zip_r in Hin. cbn. by rewrite (H out Hin). }
  destruct (find_map _ _) as [e|]; [split; [done|]; intros [H _]; by apply Herr in H|].
  assert (threshold_met threshold (len (List.filter (input_matches expected) outputs)) (len (pn_inputs node)) = true ↔
    quorum expected threshold outputs) as Hq.
  { assert (len (pn_inputs node) = len outputs) as -> by (unfold len; by rewrite Hlen).
    destruct threshold; cbn; [rewrite Z.eqb_eq; apply filter_all|rewrite Z.ltb_lt; apply filter_any| |apply Z.leb_le].
    rewrite Z.ltb_lt. pose proof (Z.div_mod (len outputs) 2 ltac:(lia)). pose proof (Z.mod_pos_bound (len outputs) 2 ltac:(lia)). lia. }
  fold (input_matches expected). rewrite <-Hq. destruct (threshold_met _ _ _); naive_solver.
Qed.

(** ** Cancelling and resuming *)

(** The checkpoint after a resume that had nothing to undo. *)
Definition resumed_checkpoint (cp : GraphCheckpoint) : GraphCheckpoint :=
  set_cp_pause_code None (set_cp_pause_reason None (deactivate_expansion_pauses cp)).

Lemma restore_mark n :
  np_cancelled_from n = None → (settled (np_state n) = false → np_skip_reason n = None) →
  restore_cancelled true (mark_cancelled n) = Ok n.
Proof.
  intros Hc Hs. unfold mark_cancelled. destruct (cancellable n) eqn:E.
  - apply andb_true_iff in E as [[Hset%negb_true_iff _]%andb_true_iff _]. unfold restore_cancelled. cbn. rewrite Hset.
    specialize (Hs Hset). destruct n. cbn in *. by subst.
  - unfold restore_cancelled. by rewrite Hc.
Qed.

(** C32: Resuming undoes a cancellation.  A graph that was open and consistent,
    is fenced by a cancellation and then resumed comes back with the nodes it
    had: each one in its old state with its attempts, no longer cancelled, its
    pauses closed. *)
Theorem cancel_resume_roundtrip cp :
  cp_cancelled cp = false → cp_wake_at cp = next_wake cp →
  (∀ n, n ∈ cp_nodes cp → np_cancelled_from n = None ∧ (settled (np_state n) = false → np_skip_reason n = None)) →
  apply_resume (fst (mark_cancelled_nodes_without_live_attempts (set_cp_cancelled true cp))) [] = Ok (resumed_checkpoint cp).
Proof.
  intros Hopen Hwake Hnodes. unfold mark_cancelled_nodes_without_live_attempts. cbn.
  set (cp1 := set_cp_nodes (mark_cancelled <$> cp_nodes cp) (set_cp_cancelled true cp)).
  assert (mapM (M := result (string * string)) (restore_cancelled true) (mark_cancelled <$> cp_nodes cp) = Ok (cp_nodes cp)) as Hrestore.
  { clear cp1 Hwake Hopen. induction (cp_nodes cp) as [|n l IH]; [done|]. cbn.
    destruct (Hnodes n) as [Hc Hs]; [set_solver|]. rewrite restore_mark by done. cbn. rewrite IH; [done|]. set_solver. }
  assert (∀ w, w = next_wake cp1 → apply_resume (set_cp_wake_at w cp1) [] = Ok (resumed_checkpoint cp)) as Hresume.
  { intros w Hw. unfold apply_resume, restore_cancelled_nodes.
    change (cp_cancelled (set_cp_wake_at w cp1)) with true. change (next_wake (set_cp_wake_at w cp1)) with (next_wake cp1).
    change (cp_wake_at (set_cp_wake_at w cp1)) with w. rewrite bool_decide_eq_true_2 by done. cbn [negb].
    change (cp_nodes (set_cp_wake_at w cp1)) with (mark_cancelled <$> cp_nodes cp). rewrite Hrestore. cbn. unfold resumed_checkpoint, deactivate_expansion_pauses. cbn.
    destruct cp; cbn in *. subst. done. }
  destruct (existsb cancellable (cp_nodes cp)) eqn:Hex; cbn.
  - by apply Hresume.
  - assert (mark_cancelled <$> cp_nodes cp = cp_nodes cp) as Hsame.
    { rewrite <-(list_fmap_id (cp_nodes cp)) at 2. apply list_fmap_ext. intros i n Hi. unfold mark_cancelled.
      apply existsb_false_elem with (x := n) in Hex; [by rewrite Hex|]. by eapply list_elem_of_lookup_2. }
    assert (cp1 = set_cp_wake_at (cp_wake_at cp) cp1) as -> by done. apply Hresume. rewrite Hwake. unfold cp1. rewrite Hsame.
    by destruct cp.
Qed.

(** ** Witnesses *)

(** Two lenses, one of which approved, read by a gate. *)
Definition ex_gate : PlannedNode :=
  {| pn_extra := ∅; pn_auto_continue_no_work := None; pn_composite_members := []; pn_composite := None;
     pn_attempt_host := None; pn_role := None; pn_source := None; pn_after_expansion := []; pn_loop_body := false;
     pn_decide := false; pn_continues := None; pn_land := false; pn_round := None; pn_kind := Some NodeKind.Gate;
     pn_condition := Some (GateVerdict "PASS" Any); pn_on_fail := None; pn_access := ReadOnly; pn_worktree := None; pn_write_scope := [];
     pn_id := "gate"; pn_title := None; pn_depends_on := ["a"; "b"]; pn_advisory := false;
     pn_inputs := [mkInput "a" [OutputKind.Verdict]; mkInput "b" [OutputKind.Verdict]];
     pn_routes := []; pn_required_verdict := None; pn_skip_without_findings := None |}.
Definition ex_plan : PlannedGraph := mkPlan "g" [ex_task "a" [] []; ex_task "b" [] []; ex_gate].
Definition ex_positions : gmap string nat := {[ "a" := 0%nat; "b" := 1%nat; "gate" := 2%nat ]}.
Definition ex_verdict (verdict : string) (n : NodeProgress) : NodeProgress :=
  set_np_outputs (Some (mkOutputs None (Some verdict) [] None)) (set_np_state NodeState.Succeeded n).
Definition ex_reviewed : GraphCheckpoint :=
  update_node 1 (ex_verdict "VERDICT: FAIL") (update_node 0 (ex_verdict "VERDICT: PASS") (initial_checkpoint ex_plan)).
Definition ex_outputs : list (option NodeOutputs) :=
  [Some (mkOutputs None (Some "VERDICT: PASS") [] None); Some (mkOutputs None (Some "VERDICT: FAIL") [] None)].
Definition ex_no_budget : GraphBudget := mkBudget UnknownWarn (mkLimit None None None) (mkLimit None None None).

Lemma runnable_exact_witness :
  dependency_state ex_plan ex_positions ex_gate ex_reviewed = Some None ∧
  ∀ id, id ∈ ["a"; "b"] → ∃ pn pp, planned_at ex_plan ex_positions id = Some pn ∧
    progress_at ex_positions ex_reviewed id = Some pp ∧ lets_run ex_gate pn pp.
Proof.
  split; [vm_compute; reflexivity|].
  exact (proj2 (proj1 (runnable_exact ex_plan ex_positions ex_gate ex_reviewed ltac:(vm_compute; reflexivity))
                  ltac:(vm_compute; reflexivity))).
Defined.

Lemma gate_threshold_exact_witness :
  dependency_state ex_plan ex_positions ex_gate ex_reviewed = Some None ∧
  (∀ out, out ∈ ex_outputs → out ≫= no_verdict_error = None) ∧ quorum "PASS" Any ex_outputs.
Proof.
  split; [vm_compute; reflexivity|].
  exact (proj1 (gate_threshold_exact ex_positions (λ _, "") "PASS" Any ex_gate ex_reviewed ex_no_budget ex_outputs
                  ltac:(vm_compute; reflexivity)) ltac:(vm_compute; reflexivity)).
Defined.

Lemma cancel_resume_roundtrip_witness :
  np_state <$> cp_nodes (fst (mark_cancelled_nodes_without_live_attempts (set_cp_cancelled true ex_reviewed)))
    = [NodeState.Succeeded; NodeState.Succeeded; NodeState.Skipped] ∧
  apply_resume (fst (mark_cancelled_nodes_without_live_attempts (set_cp_cancelled true ex_reviewed))) []
    = Ok (resumed_checkpoint ex_reviewed).
Proof.
  split; [vm_compute; reflexivity|]. apply cancel_resume_roundtrip; [reflexivity|reflexivity|].
  assert (forallb (λ n, is_none (np_cancelled_from n) && is_none (np_skip_reason n)) (cp_nodes ex_reviewed) = true) as H
    by (vm_compute; reflexivity).
  intros n Hn. rewrite forallb_forall in H. specialize (H n (proj1 (list_elem_of_In _ _) Hn)).
  destruct (np_cancelled_from n), (np_skip_reason n); try discriminate H. split; [reflexivity|intros _; reflexivity].
Defined.
