(* ===== verification/GraphAdmission.v ===== *)
(** * GraphAdmission: which attempts may start together

    Models [admit_attempt] of [crates/fabric-runtime/src/graph/transitions.rs]
    with the conflict of two writers ([writers_conflict], [overlaps] and
    [valid_scope] of [graph/plans.rs]), the yielded slot of [graph/relay.rs] and
    the concurrency limit.  Whether the selected inputs are there and fit the
    prompt enters as [InputFacts].

    [conflict_free_isolated] shows what the comparison of write scopes
    establishes and [admission_sound] what an admission checked.  [GraphRuns] has
    the runs of the scheduler. *)

From Stdlib Require Import Ascii.
From stdpp Require Import base option list strings sets pretty gmap.
From S2P Require Import Prelude RoutingTypes GraphModel GraphAttempts GraphBudget GraphSchedule.

Local Open Scope string_scope.
Local Open Scope list_scope.
Local Open Scope Z_scope.
Local Open Scope rust_scope.

(** ** Writers *)

Definition valid_scope (scope : string) : bool :=
  (scope == ".")
  || (negb (str_is_empty scope)
      && negb (existsb (λ part, str_is_empty part || (part == ".") || (part == "..")) (split_all "/"%char scope))
      && all_bytes (λ c, negb (existsb (Ascii.eqb c) ["\"; "*"; "?"; "["; "]"]%char)) scope).
Definition scopes_meet (a b : string) : bool :=
  (a == ".") || (b == ".") || (a == b) || starts_with a (b +:+ "/") || starts_with b (a +:+ "/").
Definition overlaps (left right : list string) : bool :=
  bool_decide (left = []) || bool_decide (right = [])
  || existsb (λ scope, negb (valid_scope scope)) (left ++ right)
  || existsb (λ a, existsb (scopes_meet a) right) left.
Definition writers_conflict (left right : PlannedNode) : bool :=
  (pn_access left == WorktreeWrite) && (pn_access right == WorktreeWrite)
  && ((pn_worktree left == pn_worktree right) || overlaps (pn_write_scope left) (pn_write_scope right)).

Definition YIELDED_SLOT : string := "yielded_slot".
Definition yields_slot (p : NodeProgress) : bool :=
  (np_state p == NodeState.Running) && extra_true (np_extra p) YIELDED_SLOT.
(** A node a waiting parent spawned carries its name and two dashes in front. *)
Definition descends (child parent : string) : bool := starts_with child (parent +:+ "--").

(** Positions other than [index] with their rows. *)
Definition other_rows (index : nat) (cp : GraphCheckpoint) : list (nat * NodeProgress) :=
  List.filter (λ '(i, _), negb (i =? index)%nat) (imap pair (cp_nodes cp)).

Definition writer_busy (plan : PlannedGraph) (cp : GraphCheckpoint) (node_index : nat) (node : PlannedNode) : bool :=
  (pn_access node == WorktreeWrite)
  && existsb (λ '(_, other),
       (np_state other == NodeState.Running)
       && negb (yields_slot other && descends (pn_id node) (np_id other))
       && existsb (λ peer, (pn_id peer == np_id other) && writers_conflict node peer) (pg_nodes plan))
     (other_rows node_index cp).

(** The nodes that hold one of the slots. *)
Definition holds_slot (plan : PlannedGraph) (e : nat * NodeProgress) : bool :=
  let '(i, p) := e in
  (np_state p == NodeState.Running) && is_none (np_ci p) && negb (yields_slot p)
  && is_some_and (pg_nodes plan !! i) (λ pn, is_none (pn_composite pn) && negb (pn_decide pn) && negb (pn_land pn)).
Definition slots_full (plan : PlannedGraph) (cp : GraphCheckpoint) (limits : GraphLimits) (node_index : nat) : bool :=
  is_some_and (gl_concurrency limits) (λ cap, cap <=? len (List.filter (holds_slot plan) (other_rows node_index cp))).

(** ** Admission *)

(** What the selection of inputs says: a required output that is missing, and
    whether the rendered input exceeds the prompt, which may be too large alone. *)
Record InputFacts := mkInputFacts {
  if_missing : option string;
  if_overflows : bool;
  if_prompt_too_large : bool;
}.

Inductive Admission := Ready | WriterBusy | SlotWait (changed : bool) | SaveAndWait.
#[export] Instance Admission_eq_dec : EqDecision Admission.
Proof. solve_decision. Defined.

Definition fail_with (code message : string) (p : NodeProgress) : NodeProgress :=
  fail_node p (Some code) (Some message).

Definition admit_attempt (display_f64 : f64 → string) (plan : PlannedGraph) (node_index : nat) (node : PlannedNode)
    (limits : GraphLimits) (budget : GraphBudget) (inputs : InputFacts) (cp : GraphCheckpoint)
    : GraphCheckpoint * Admission :=
  if writer_busy plan cp node_index node then (cp, WriterBusy)
  else if slots_full plan cp limits node_index then
    let changed := is_some_and (cp_nodes cp !! node_index) (λ p, is_none (np_extra p !! "slot_wait")) in
    (update_node node_index (λ p, set_np_extra (<["slot_wait" := JBool true]> (np_extra p)) p) cp, SlotWait changed)
  else
    let cp := update_node node_index (λ p, set_np_extra (delete "slot_wait" (np_extra p)) p) cp in
    let cp := update_usage_warnings cp in
    match cp_pause_reason cp ∪ budget_reason display_f64 cp budget with
    | Some reason =>
        let cp := set_cp_pause_reason (Some (bounded reason PAUSE_REASON_BYTES)) cp in
        (set_cp_pause_code (Some (unwrap_or (cp_pause_code cp) "budget_exceeded")) cp, SaveAndWait)
    | None =>
        match if_missing inputs with
        | Some missing =>
            (update_node node_index (fail_with "required_input_unavailable"
               ("node " +:+ pn_id node +:+ ": required input " +:+ missing
                +:+ " is unavailable or invalid; repair the producer and rerun the graph")) cp, SaveAndWait)
        | None =>
            if negb (bool_decide (length (pn_inputs node) = O)) && if_overflows inputs then
              let '(code, reason) :=
                if if_prompt_too_large inputs
                then ("input_prompt_too_large", "node prompt leaves no room for upstream data")
                else ("upstream_outputs_too_large", "selected upstream outputs do not fit") in
              (update_node node_index (fail_with code
                 ("node " +:+ pn_id node +:+ ": " +:+ reason
                  +:+ "; increase node_prompt_bytes and restart the graph")) cp, SaveAndWait)
            else (cp, Ready)
        end
    end.

(** ** Write scopes *)

(** A path inside a scope: the whole worktree, the path itself, or below it. *)
Definition in_scope (scope path : string) : Prop :=
  scope = "." ∨ path = scope ∨ ∃ rest, path = scope +:+ "/" +:+ rest.

Lemma starts_with_true s p : starts_with s p = true ↔ ∃ t, s = p +:+ t.
Proof.
  unfold starts_with. split.
  - destruct (strip_prefix p s) as [t|] eqn:E; [|done]. intros _. exists t. by apply strip_prefix_Some.
  - intros [t ->]. by rewrite (proj2 (strip_prefix_Some p (p +:+ t) t) eq_refl).
Qed.

Lemma slash_prefixes a b t u :
  a +:+ "/" +:+ t = b +:+ "/" +:+ u →
  a = b ∨ (∃ r, a = (b +:+ "/") +:+ r) ∨ (∃ r, b = (a +:+ "/") +:+ r).
Proof.
  revert b. induction a as [|c a IH]; intros [|d b] H; cbn in *.
  - by left.
  - injection H as <- H. right. right. by exists b.
  - injection H as -> H. right. left. by exists a.
  - injection H as <- H. destruct (IH b H) as [->|[[r ->]|[r ->]]]; eauto.
Qed.

Lemma scopes_meet_false a b path :
  scopes_meet a b = false → in_scope a path → in_scope b path → False.
Proof.
  unfold scopes_meet. rewrite !orb_false_iff, !bool_decide_eq_false. intros ((((Ha & Hb) & Hab) & H1) & H2).
  assert (∀ s t r, t = (s +:+ "/") +:+ r → starts_with t (s +:+ "/") = true) as Hsw.
  { intros s t r ->. apply starts_with_true. by exists r. }
  intros [?|[->|[t ->]]] [?|[Hp|[u Hp]]]; try done.
  - rewrite (Hsw b a u) in H1; [done|]. by rewrite Hp, string_app_assoc.
  - rewrite (Hsw a b t) in H2; [done|]. by rewrite <-Hp, string_app_assoc.
  - destruct (slash_prefixes _ _ _ _ Hp) as [?|[[r Hr]|[r Hr]]]; [done| |]; by rewrite (Hsw _ _ r Hr) in H1 || by rewrite (Hsw _ _ r Hr) in H2.
Qed.

(** Two writers share neither a worktree nor a file. *)
Definition isolated (left right : PlannedNode) : Prop :=
  pn_worktree left ≠ pn_worktree right ∧
  ∀ a b path, a ∈ pn_write_scope left → b ∈ pn_write_scope right → in_scope a path → in_scope b path → False.

Lemma isolated_sym left right : isolated left right → isolated right left.
Proof. intros [Hw Hs]. split; [by apply not_eq_sym|]. intros a b path Ha Hb Hpa Hpb. by eapply (Hs b a path). Qed.

Lemma conflict_free_isolated left right :
  pn_access left = WorktreeWrite → pn_access right = WorktreeWrite → writers_conflict left right = false →
  isolated left right ∧ pn_write_scope left ≠ [] ∧ pn_write_scope right ≠ [].
Proof.
  intros Hl Hr. unfold writers_conflict, overlaps. rewrite !bool_decide_eq_true_2 by done. cbn.
  rewrite !orb_false_iff, !bool_decide_eq_false. intros (Hw & ((Hl0 & Hr0) & _) & Hmeet). split; [|done]. split; [done|].
  intros a b path Ha Hb. apply scopes_meet_false.
  rewrite existsb_false_elem in Hmeet. specialize (Hmeet a Ha). rewrite existsb_false_elem in Hmeet. exact (Hmeet b Hb).
Qed.

Lemma others_elem index cp j p :
  (j, p) ∈ other_rows index cp ↔ j ≠ index ∧ cp_nodes cp !! j = Some p.
Proof.
  unfold other_rows. rewrite list_elem_of_In, List.filter_In, <-list_elem_of_In. rewrite elem_of_lookup_imap.
  rewrite negb_true_iff, Nat.eqb_neq. naive_solver.
Qed.

Section Admit.
  Context (display_f64 : f64 → string) (plan : PlannedGraph) (limits : GraphLimits) (budget : GraphBudget).

(** The other writers that run while a node starts are apart from it, or wait for
    it as its parent. *)
Definition apart_from_running (cp : GraphCheckpoint) (node_index : nat) (node : PlannedNode) : Prop :=
  pn_access node = WorktreeWrite →
  ∀ j other peer, j ≠ node_index → cp_nodes cp !! j = Some other → np_state other = NodeState.Running →
    peer ∈ pg_nodes plan → pn_id peer = np_id other → pn_access peer = WorktreeWrite →
    (yields_slot other = true ∧ descends (pn_id node) (np_id other) = true) ∨ isolated node peer.

Lemma writer_free cp node_index node :
  writer_busy plan cp node_index node = false → apart_from_running cp node_index node.
Proof.
  intros Hfree Hw j other peer Hj Hother Hrun Hpeer Hid Hpw. unfold writer_busy in Hfree.
  rewrite bool_decide_eq_true_2 in Hfree by done. cbn in Hfree.
  pose proof (proj1 (existsb_false_elem _ _) Hfree (j, other) ltac:(by apply others_elem)) as H. cbn in H.
  rewrite Hrun, bool_decide_eq_true_2 in H by done. cbn in H.
  destruct (yields_slot other && descends (pn_id node) (np_id other)) eqn:E.
  { left. by apply andb_true_iff in E. }
  right. cbn in H. pose proof (proj1 (existsb_false_elem _ _) H peer Hpeer) as Hc. cbn in Hc.
  rewrite bool_decide_eq_true_2 in Hc by done. cbn in Hc. by apply conflict_free_isolated.
Qed.

(** What an admission has found, and the checkpoint it leaves. *)
Lemma admit_Ready cp cp' node_index node inputs :
  admit_attempt display_f64 plan node_index node limits budget inputs cp = (cp', Ready) →
  writer_busy plan cp node_index node = false ∧ slots_full plan cp limits node_index = false ∧
  cp' = update_usage_warnings (update_node node_index (λ p, set_np_extra (delete "slot_wait" (np_extra p)) p) cp) ∧
  cp_pause_reason cp' ∪ budget_reason display_f64 cp' budget = None ∧ if_missing inputs = None ∧
  negb (bool_decide (length (pn_inputs node) = O)) && if_overflows inputs = false.
Proof.
  unfold admit_attempt. destruct (writer_busy plan cp node_index node); [done|].
  destruct (slots_full plan cp limits node_index); [done|].
  match goal with |- context [update_usage_warnings ?x] => set (cp1 := update_usage_warnings x) end.
  destruct (cp_pause_reason cp1 ∪ budget_reason display_f64 cp1 budget) eqn:Hreason; [done|].
  destruct (if_missing inputs); [done|].
  destruct (negb _ && if_overflows inputs); [by destruct (if_prompt_too_large inputs)|]. by intros [= <-].
Qed.

(** C24: An attempt is admitted only when it is safe to start.  When admission
    says that an attempt may start and the node is a writer, every other writer
    whose row runs is apart from it, except a parent that waits for it: the two
    work in different worktrees and no path is in both of their write scopes.
    For any node, fewer nodes than the concurrency limit hold a slot, the graph is
    not paused, its budget is not reached, and the inputs the node requires are
    there.  (A node that only reads is not compared with the writers.) *)
Theorem admission_sound cp cp' node_index node inputs :
  admit_attempt display_f64 plan node_index node limits budget inputs cp = (cp', Ready) →
  apart_from_running cp node_index node ∧
  (∀ cap, gl_concurrency limits = Some cap → len (List.filter (holds_slot plan) (other_rows node_index cp)) < cap) ∧
  cp_pause_reason cp = None ∧ budget_reason display_f64 cp' budget = None ∧ if_missing inputs = None ∧
  (pn_inputs node ≠ [] → if_overflows inputs = false).
Proof.
  intros (Hbusy & Hfull & -> & [Hpause Hbudget]%union_None & Hmissing & Hover)%admit_Ready. split_and!; try done.
  - by apply writer_free.
  - intros cap Hcap. unfold slots_full in Hfull. rewrite Hcap in Hfull. cbn in Hfull. by apply Z.leb_gt in Hfull.
  - intros Hin. destruct (if_overflows inputs); [|done]. destruct (pn_inputs node); [done|]. discriminate Hover.
Qed.

End Admit.

(** ** Witnesses *)

(** Two writers in their own worktrees that write below different directories. *)
Definition ex_writer (id scope : string) : PlannedNode :=
  {| pn_extra := ∅; pn_auto_continue_no_work := None; pn_composite_members := []; pn_composite := None;
     pn_attempt_host := None; pn_role := None; pn_source := None; pn_after_expansion := []; pn_loop_body := false;
     pn_decide := false; pn_continues := None; pn_land := false; pn_round := None; pn_kind := None;
     pn_condition := None; pn_on_fail := None; pn_access := WorktreeWrite; pn_worktree := Some ("/work/" +:+ id);
     pn_write_scope := [scope]; pn_id := id; pn_title := None; pn_depends_on := []; pn_advisory := false;
     pn_inputs := []; pn_routes := [mkRoute None None None (Some "standard") None None];
     pn_required_verdict := None; pn_skip_without_findings := None |}.
Definition ex_core : PlannedNode := ex_writer "a" "src/core".
Definition ex_docs : PlannedNode := ex_writer "b" "docs".
Definition ex_src : PlannedNode := ex_writer "b" "src".
Definition ex_two_slots : GraphLimits := mkLimits 1 65536 (Some 2).
Definition ex_unlimited : GraphBudget := mkBudget UnknownWarn (mkLimit None None None) (mkLimit None None None).
Definition ex_inputs : InputFacts := mkInputFacts None false false.
Definition ex_first_route : GraphRoute := mkRoute None None None (Some "standard") None None.
Definition ex_admit (plan : PlannedGraph) (i : nat) (node : PlannedNode) (cp : GraphCheckpoint)
    : GraphCheckpoint * Admission :=
  admit_attempt (λ _, "") plan i node ex_two_slots ex_unlimited ex_inputs cp.
Definition ex_start (plan : PlannedGraph) (i : nat) (node : PlannedNode) (cp : GraphCheckpoint) : GraphCheckpoint :=
  update_node i (begin_attempt (λ _, true) node (mkKey ∅ "g" (pn_id node) 0) ex_first_route
                   (mkLaunchFacts 65536 None "chair" None)) (fst (ex_admit plan i node cp)).

(** The plan whose writers are apart, and its checkpoint with the first running. *)
Definition ex_pair : PlannedGraph := mkPlan "g" [ex_core; ex_docs].
Definition ex_running : GraphCheckpoint := ex_start ex_pair 0 ex_core (initial_checkpoint ex_pair).

Lemma admission_sound_witness :
  snd (ex_admit (mkPlan "g" [ex_core; ex_src]) 1 ex_src ex_running) = WriterBusy ∧
  len (List.filter (holds_slot ex_pair) (other_rows 1 ex_running)) < 2.
Proof.
  split; [vm_compute; reflexivity|].
  destruct (ex_admit ex_pair 1 ex_docs ex_running) as [cp' a] eqn:E.
  assert (a = Ready) as -> by (change a with (snd (cp', a)); rewrite <-E; vm_compute; reflexivity).
  exact (proj1 (proj2 (admission_sound (λ _, "") ex_pair ex_two_slots ex_unlimited ex_running cp' 1 ex_docs ex_inputs E))
           2 eq_refl).
Defined.
