(* ===== verification/GraphRuns.v ===== *)
(** * GraphRuns: runs of the scheduler

    What the driver of a graph ([advance_inner] of
    [crates/fabric-runtime/src/graph.rs]) does to the rows of one plan, as far as
    it decides which writers run: starts after an admission ([GraphAdmission]),
    cancellation and resume ([GraphSchedule]), the detached nodes that go on in a
    cancelled graph, and the rows that a late delivery reopens
    ([retry_delivered_attempt] of [graph/journal.rs]).

    Admission compares a writer with the rows that run.  Two kinds of pairs it
    does not compare: a detached node that starts in a cancelled graph with the
    rows the cancellation took from running, which a resume puts back; and a
    reopened row with any other.  A run carries the list of these pairs, and
    [writers_exclusive] says that all other writers are apart.
    [detached_start_overlaps] and [redelivery_overlaps] are runs that need the
    exceptions. *)

From Stdlib Require Import Ascii.
From stdpp Require Import base option list strings sets pretty gmap relations.
From S2P Require Import Prelude RoutingTypes GraphModel GraphAttempts GraphBudget GraphSchedule GraphAdmission.

Local Open Scope string_scope.
Local Open Scope list_scope.
Local Open Scope Z_scope.
Local Open Scope rust_scope.

(** ** A delivery reopens its rows *)

(** [rsplit('/').next()]. *)
Definition last_segment (reference : string) : option string := last (split_all "/"%char reference).
(** A failed row whose last attempt is the delivered one, and ended in a way a
    delivery can mend. *)
Definition awaits_delivery (attempt : string) (p : NodeProgress) : bool :=
  (np_state p == NodeState.Failed)
  && is_some_and (last (np_attempts p)) (λ a,
       ((at_outcome a == Some AttemptOutcome.OtherFailure) || (at_outcome a == Some AttemptOutcome.ReviewRequired))
       && ((at_ref a ≫= last_segment) == Some attempt)).
Definition alter_last {A} (f : A → A) (l : list A) : list A := alter f (pred (length l)) l.
Definition redelivered (p : NodeProgress) : NodeProgress :=
  set_np_state NodeState.Running
    (set_np_attempts
       (alter_last (λ a, set_at_settled 0 (set_at_outcome None (set_at_state AttemptState.Starting a))) (np_attempts p)) p).

(** [loops::reopen_after_delivery]. *)
Definition reopen_after_delivery (loops : list string) (cp : GraphCheckpoint) : GraphCheckpoint :=
  set_cp_nodes
    ((λ p, if bool_decide (np_id p ∈ loops) && (np_state p == NodeState.Failed)
              && negb (bool_decide ("loop." +:+ np_id p +:+ ".decision=stop" ∈ cp_extensions cp))
           then set_np_outputs None (set_np_state NodeState.Pending p) else p) <$> cp_nodes cp) cp.
Definition unblock (p : NodeProgress) : NodeProgress :=
  if np_state p == NodeState.Blocked then set_np_state NodeState.Pending p else p.

(** [retry_delivered_attempt], on the checkpoint of one graph. *)
Definition retry_delivered_attempt (attempt : string) (cp : GraphCheckpoint) : GraphCheckpoint :=
  if cp_cancelled cp || negb (existsb (awaits_delivery attempt) (cp_nodes cp)) then cp
  else
    let loops := omap (λ p, if awaits_delivery attempt p then lr_loop_id <$> np_round p else None) (cp_nodes cp) in
    let cp := set_cp_nodes ((λ p, if awaits_delivery attempt p then redelivered p else p) <$> cp_nodes cp) cp in
    let cp := reopen_after_delivery loops cp in
    set_cp_nodes (unblock <$> cp_nodes cp) cp.

(** ** Runs of the scheduler *)

Section Runs.
  Context (display_f64 : f64 → string) (plan : PlannedGraph) (limits : GraphLimits) (budget : GraphBudget).

(** A row that a cancellation took from running, and that a resume puts back. *)
Definition is_fenced (p : NodeProgress) : bool :=
  (np_state p == NodeState.Skipped) && (np_cancelled_from p == Some NodeState.Running)
  && (np_skip_reason p == Some "graph cancelled").
Definition is_running (p : NodeProgress) : bool := np_state p == NodeState.Running.
Definition detached (p : NodeProgress) : bool := extra_true (np_extra p) DETACHED_FROM_GRAPH_CANCEL.
Definition fenced (p : NodeProgress) : Prop := is_fenced p = true.
Definition held (p : NodeProgress) : Prop := np_state p = NodeState.Running ∨ fenced p.

(** The positions of the rows that satisfy [f]. *)
Definition positions (f : NodeProgress → bool) (cp : GraphCheckpoint) : list nat :=
  fst <$> List.filter (λ '(_, p), f p) (imap pair (cp_nodes cp)).

(** The pairs of rows that the scheduler has not compared, after a start: the
    started row was compared with the rows that run, not with the fenced ones. *)
Definition after_start (cp : GraphCheckpoint) (k : nat) (uncompared : list (nat * nat)) : list (nat * nat) :=
  ((λ j, (j, k)) <$> positions is_fenced cp)
  ++ List.filter (λ '(i, j), negb (i =? k)%nat && negb (j =? k)%nat) uncompared.
(** And after a delivery, whose rows are compared with none. *)
Definition after_delivery (attempt : string) (cp : GraphCheckpoint) (uncompared : list (nat * nat)) : list (nat * nat) :=
  list_prod (positions (λ p, is_running p || awaits_delivery attempt p) cp) (positions (awaits_delivery attempt) cp)
  ++ uncompared.

(** The driver starts an attempt that was admitted, on a graph that is not
    cancelled or for a node detached from the cancellation; resumes the graph; a
    delivery reopens its rows; or the driver does something that makes no writer
    run: it observes, settles, blocks, waits, pauses, retries, cancels or detaches;
    a cancelled graph alone has fenced rows. *)
Inductive sched_step (timestamp : Z → bool)
    : GraphCheckpoint * list (nat * nat) → GraphCheckpoint * list (nat * nat) → Prop :=
| sched_start cp cp' uncompared k p node inputs key route launch :
    cp_nodes cp !! k = Some p → cp_cancelled cp = false ∨ detached p = true →
    pg_nodes plan !! k = Some node →
    admit_attempt display_f64 plan k node limits budget inputs cp = (cp', Ready) →
    sched_step timestamp (cp, uncompared)
      (update_node k (begin_attempt timestamp node key route launch) cp', after_start cp k uncompared)
| sched_resume cp cp' uncompared extensions :
    apply_resume cp extensions = Ok cp' → sched_step timestamp (cp, uncompared) (cp', uncompared)
| sched_delivery cp uncompared attempt :
    cp_cancelled cp = false →
    sched_step timestamp (cp, uncompared)
      (retry_delivered_attempt attempt cp, after_delivery attempt cp uncompared)
| sched_other cp cp' uncompared :
    (∀ j p', cp_nodes cp' !! j = Some p' →
       ∃ p, cp_nodes cp !! j = Some p ∧ np_id p' = np_id p ∧
         (held p' → held p ∨ ∃ pn, pg_nodes plan !! j = Some pn ∧ pn_access pn = ReadOnly) ∧
         (cp_cancelled cp' = false → fenced p' → cp_cancelled cp = false ∧ fenced p)) →
    sched_step timestamp (cp, uncompared) (cp', uncompared).

(** Two writers are apart, or one was spawned by the other. *)
Definition may_share_time (pn qn : PlannedNode) : Prop :=
  descends (pn_id pn) (pn_id qn) = true ∨ descends (pn_id qn) (pn_id pn) = true ∨ isolated pn qn.
(** The writers among the rows that satisfy [P] are, or were not compared. *)
Definition apart_among (P : NodeProgress → Prop) (uncompared : list (nat * nat)) (cp : GraphCheckpoint) : Prop :=
  ∀ i j p q pn qn, i ≠ j → cp_nodes cp !! i = Some p → cp_nodes cp !! j = Some q → P p → P q →
    pg_nodes plan !! i = Some pn → pg_nodes plan !! j = Some qn →
    pn_access pn = WorktreeWrite → pn_access qn = WorktreeWrite →
    may_share_time pn qn ∨ (i, j) ∈ uncompared ∨ (j, i) ∈ uncompared.
Definition rows_match (cp : GraphCheckpoint) : Prop :=
  ∀ i p, cp_nodes cp !! i = Some p → ∃ pn, pg_nodes plan !! i = Some pn ∧ np_id p = pn_id pn.

Record sched_ok (st : GraphCheckpoint * list (nat * nat)) : Prop := {
  so_rows : rows_match st.1;
  so_apart : apart_among held st.2 st.1;
  so_open : cp_cancelled st.1 = false → ∀ j p, cp_nodes st.1 !! j = Some p → ¬ fenced p;
}.

Lemma fenced_iff p :
  fenced p ↔ np_state p = NodeState.Skipped ∧ np_cancelled_from p = Some NodeState.Running ∧
    np_skip_reason p = Some "graph cancelled".
Proof. unfold fenced, is_fenced. rewrite !andb_true_iff, !bool_decide_eq_true. tauto. Qed.

Lemma may_share_time_sym pn qn : may_share_time pn qn → may_share_time qn pn.
Proof. unfold may_share_time. intros [?|[?|?]]; auto using isolated_sym. Qed.

Lemma positions_elem f cp j : j ∈ positions f cp ↔ ∃ p, cp_nodes cp !! j = Some p ∧ f p = true.
Proof.
  unfold positions. rewrite list_elem_of_fmap. split.
  - intros ([i p] & -> & Hin). apply list_elem_of_In, List.filter_In in Hin as [Hin Hf].
    apply list_elem_of_In, elem_of_lookup_imap in Hin as (j & q & [= -> ->] & Hq). by exists q.
  - intros (p & Hp & Hf). exists (j, p). split; [done|]. apply list_elem_of_In, List.filter_In. split; [|done].
    apply list_elem_of_In, elem_of_lookup_imap. by exists j, p.
Qed.

Lemma after_start_keeps cp k uncompared i j :
  i ≠ k → j ≠ k → (i, j) ∈ uncompared → (i, j) ∈ after_start cp k uncompared.
Proof.
  intros Hi Hj Hin. unfold after_start. apply elem_of_app. right. apply list_elem_of_In, List.filter_In.
  rewrite <-list_elem_of_In, andb_true_iff, !negb_true_iff, !Nat.eqb_neq. done.
Qed.
Lemma after_start_fenced cp k uncompared j p :
  cp_nodes cp !! j = Some p → fenced p → (j, k) ∈ after_start cp k uncompared.
Proof.
  intros Hj Hf. unfold after_start. apply elem_of_app. left. apply list_elem_of_fmap. exists j. split; [done|].
  apply positions_elem. by exists p.
Qed.

Lemma admit_rows cp cp' node_index node inputs :
  admit_attempt display_f64 plan node_index node limits budget inputs cp = (cp', Ready) →
  ∀ j p', cp_nodes cp' !! j = Some p' →
    ∃ p, cp_nodes cp !! j = Some p ∧ np_id p' = np_id p ∧ (j ≠ node_index → p' = p).
Proof.
  intros (_ & _ & -> & _)%admit_Ready j p'. cbn. intros Hj. destruct (decide (j = node_index)) as [->|Hne].
  - rewrite list_lookup_alter_eq in Hj. destruct (cp_nodes cp !! node_index) as [p|]; [|done].
    injection Hj as <-. by exists p.
  - rewrite list_lookup_alter_ne in Hj by done. by exists p'.
Qed.

Lemma started_row timestamp node key route launch p :
  np_id (begin_attempt timestamp node key route launch p) = np_id p ∧
  np_state (begin_attempt timestamp node key route launch p) = NodeState.Running.
Proof. unfold begin_attempt. by destruct (lf_timing launch). Qed.

(** After a start only the started row differs, and it runs. *)
Lemma start_rows timestamp cp cp' node_index node inputs key route launch :
  admit_attempt display_f64 plan node_index node limits budget inputs cp = (cp', Ready) →
  ∀ j p', cp_nodes (update_node node_index (begin_attempt timestamp node key route launch) cp') !! j = Some p' →
    ∃ p, cp_nodes cp !! j = Some p ∧ np_id p' = np_id p ∧
      (j ≠ node_index → p' = p) ∧ (j = node_index → np_state p' = NodeState.Running).
Proof.
  intros Hadmit j p' Hj. cbn in Hj. destruct (decide (j = node_index)) as [->|Hne].
  - rewrite list_lookup_alter_eq in Hj. destruct (cp_nodes cp' !! node_index) as [p1|] eqn:E; [|done]. injection Hj as <-.
    destruct (admit_rows _ _ _ _ _ Hadmit _ _ E) as (p & Hp & Hid & _).
    destruct (started_row timestamp node key route launch p1) as [-> ->]. by exists p.
  - rewrite list_lookup_alter_ne in Hj by done. destruct (admit_rows _ _ _ _ _ Hadmit _ _ Hj) as (p & ? & ? & ?).
    by exists p.
Qed.

(** A started writer is apart from a row that was running before. *)
Lemma started_apart cp cp' node_index node inputs j q qn :
  admit_attempt display_f64 plan node_index node limits budget inputs cp = (cp', Ready) → rows_match cp →
  pn_access node = WorktreeWrite → j ≠ node_index → cp_nodes cp !! j = Some q → np_state q = NodeState.Running →
  pg_nodes plan !! j = Some qn → pn_access qn = WorktreeWrite →
  descends (pn_id node) (pn_id qn) = true ∨ isolated node qn.
Proof.
  intros (Hapart%writer_free & _)%admit_Ready Hrows Hw Hj Hq Hrun Hqn Hqw.
  destruct (Hrows j q Hq) as (qn' & Hqn' & Hid). rewrite Hqn in Hqn'. injection Hqn' as <-.
  destruct (Hapart Hw j q qn Hj Hq Hrun) as [[_ Hd]|Hiso]; [by eapply list_elem_of_lookup_2|done|done| |by right].
  left. by rewrite Hid in Hd.
Qed.

Lemma start_ok timestamp cp cp' uncompared k p0 node inputs key route launch :
  cp_nodes cp !! k = Some p0 → pg_nodes plan !! k = Some node →
  admit_attempt display_f64 plan k node limits budget inputs cp = (cp', Ready) → sched_ok (cp, uncompared) →
  sched_ok (update_node k (begin_attempt timestamp node key route launch) cp', after_start cp k uncompared).
Proof.
  intros Hk0 Hk Hadmit [Hrows Hw Hunfenced]. cbn [fst snd] in *.
  pose proof (start_rows timestamp cp cp' k node inputs key route launch Hadmit) as Hs.
  assert (∀ j q qn, j ≠ k → cp_nodes cp !! j = Some q → held q → pg_nodes plan !! j = Some qn →
    pn_access node = WorktreeWrite → pn_access qn = WorktreeWrite →
    may_share_time node qn ∨ (j, k) ∈ after_start cp k uncompared) as Hnew.
  { intros j q qn Hjk Hq [Hrun|Hf] Hqn Hnw Hqw; [left|right; by eapply after_start_fenced].
    destruct (started_apart _ _ _ _ _ j q qn Hadmit Hrows Hnw) as [?|?]; unfold may_share_time; auto. }
  split; cbn [fst snd].
  - intros i p' Hi. destruct (Hs i p' Hi) as (p & Hp & -> & _). by apply Hrows.
  - intros i j p q pn qn Hne Hi Hj Hpr Hqr Hpn Hqn Hpw Hqw.
    destruct (Hs i p Hi) as (p1 & Hp1 & _ & Hst & _). destruct (Hs j q Hj) as (q1 & Hq1 & _ & Hst' & _).
    destruct (decide (i = k)) as [->|Hik]; [|destruct (decide (j = k)) as [->|Hjk]].
    + rewrite Hk in Hpn. injection Hpn as <-. rewrite Hst' in Hqr by done.
      destruct (Hnew j q1 qn ltac:(done) Hq1 Hqr Hqn Hpw Hqw); auto.
    + rewrite Hk in Hqn. injection Hqn as <-. rewrite Hst in Hpr by done.
      destruct (Hnew i p1 pn Hik Hp1 Hpr Hpn Hqw Hpw); auto using may_share_time_sym.
    + rewrite Hst in Hpr by done. rewrite Hst' in Hqr by done.
      destruct (Hw i j p1 q1 pn qn Hne Hp1 Hq1 Hpr Hqr Hpn Hqn Hpw Hqw) as [?|[?|?]]; auto using after_start_keeps.
  - intros Hopen j p' Hj Hf. destruct (Hs j p' Hj) as (p & Hp & _ & Hst & Hr).
    assert (cp_cancelled cp = false) as Hc.
    { apply admit_Ready in Hadmit as (_ & _ & -> & _). exact Hopen. }
    destruct (decide (j = k)) as [->|Hjk].
    + apply fenced_iff in Hf as (Hskip & _). by rewrite Hr in Hskip.
    + rewrite Hst in Hf by done. by apply (Hunfenced Hc j p Hp).
Qed.

(** ** Resuming in a run *)

(** What a resume does to one row, in a graph that was cancelled or was not. *)
Lemma resumed_row cancelled n n' :
  restore_cancelled cancelled n = Ok n' →
  np_id n' = np_id n ∧ (held n' → held n) ∧ (cancelled = true → ¬ fenced n').
Proof.
  unfold restore_cancelled, held. rewrite !fenced_iff. destruct (np_cancelled_from n) as [state|] eqn:Hc.
  2:{ intros [= <-]. rewrite Hc. naive_solver. }
  destruct (settled state) eqn:Hs; [done|].
  destruct (cancelled && (np_state n == NodeState.Skipped) && (np_skip_reason n == Some "graph cancelled")) eqn:Hf.
  - apply andb_true_iff in Hf as [[_ H1%bool_decide_eq_true]%andb_true_iff H2%bool_decide_eq_true]. intros [= <-].
    cbn. split_and!; [done| |].
    + intros [Hr|(Hr & _)]; [subst; by right|by subst].
    + intros _ (Hr & _). by subst.
  - destruct ((np_state n == NodeState.Skipped) && _); [|done]. intros [= <-]. rewrite Hc. split_and!; [done|done|].
    intros -> (H1 & _ & H2). rewrite H1, H2, !bool_decide_eq_true_2 in Hf by done. done.
Qed.

Lemma restored_lookup cancelled l l' :
  mapM (M := result (string * string)) (restore_cancelled cancelled) l = Ok l' →
  ∀ j n', l' !! j = Some n' → ∃ n, l !! j = Some n ∧ restore_cancelled cancelled n = Ok n'.
Proof.
  revert l'. induction l as [|n l IH]; cbn; [by intros l' [= <-]|]. intros l'.
  destruct (restore_cancelled cancelled n) as [m|] eqn:Hn; cbn; [|done].
  destruct (mapM _ l) as [k|] eqn:Hk; cbn; [|done]. intros [= <-] [|j] n' Hj; cbn in Hj.
  - injection Hj as <-. by exists n.
  - by apply (IH k).
Qed.

Lemma deactivated_row n :
  np_id (deactivate_expansion_pause n) = np_id n ∧ (held (deactivate_expansion_pause n) ↔ held n) ∧
  (fenced (deactivate_expansion_pause n) ↔ fenced n).
Proof. unfold deactivate_expansion_pause. by destruct (np_expansion_cause n) as [[]|]. Qed.

Lemma resume_rows cp cp' extensions :
  apply_resume cp extensions = Ok cp' →
  ∀ j p', cp_nodes cp' !! j = Some p' →
    ∃ p, cp_nodes cp !! j = Some p ∧ np_id p' = np_id p ∧ (held p' → held p) ∧
      (fenced p' → cp_cancelled cp = false ∧ fenced p).
Proof.
  unfold apply_resume. intros H j p' Hj. destruct (cp_cancelled cp) eqn:Hc; cbn in H.
  - unfold restore_cancelled_nodes in H. destruct (negb _); [done|]. rewrite Hc in H.
    destruct (mapM _ (cp_nodes cp)) as [l|] eqn:Hm; cbn in H; [|done]. injection H as <-. cbn in Hj.
    rewrite list_lookup_fmap in Hj. destruct (l !! j) as [n|] eqn:Hn; [|done]. injection Hj as <-.
    destruct (restored_lookup _ _ _ Hm j n Hn) as (p & Hp & Hr). exists p.
    destruct (resumed_row _ _ _ Hr) as (Hid & Hh & Hf). destruct (deactivated_row n) as (-> & Hh' & Hf').
    rewrite Hh', Hf'. naive_solver.
  - injection H as <-. cbn in Hj. rewrite list_lookup_fmap in Hj.
    destruct (cp_nodes cp !! j) as [p|] eqn:Hp; [|done]. injection Hj as <-. exists p.
    destruct (deactivated_row p) as (-> & Hh' & Hf'). rewrite Hh', Hf'. naive_solver.
Qed.

(** ** Deliveries in a run *)

(** What a delivery does to one row. *)
Definition delivered_row (attempt : string) (loops : list string) (extensions : list string) (p : NodeProgress) : NodeProgress :=
  let p := if awaits_delivery attempt p then redelivered p else p in
  unblock (if bool_decide (np_id p ∈ loops) && (np_state p == NodeState.Failed)
              && negb (bool_decide ("loop." +:+ np_id p +:+ ".decision=stop" ∈ extensions))
           then set_np_outputs None (set_np_state NodeState.Pending p) else p).

Lemma delivered_rows attempt cp :
  cp_cancelled (retry_delivered_attempt attempt cp) = cp_cancelled cp ∧
  ∀ j p', cp_nodes (retry_delivered_attempt attempt cp) !! j = Some p' →
    ∃ p, cp_nodes cp !! j = Some p ∧ (p' = p ∨ ∃ loops extensions, p' = delivered_row attempt loops extensions p).
Proof.
  unfold retry_delivered_attempt. destruct (_ || _); [by eauto|]. split; [done|]. intros j p'. cbn.
  rewrite !list_lookup_fmap. destruct (cp_nodes cp !! j) as [p|]; [|done]. intros [= <-]. exists p. split; [done|].
  right. by eexists _, _.
Qed.

Lemma delivered_row_held attempt loops extensions p :
  np_id (delivered_row attempt loops extensions p) = np_id p ∧
  (held (delivered_row attempt loops extensions p) → held p ∨ awaits_delivery attempt p = true) ∧
  (fenced (delivered_row attempt loops extensions p) → fenced p).
Proof.
  unfold delivered_row. cbv zeta. destruct (awaits_delivery attempt p) eqn:Hd.
  - assert (np_state (redelivered p) = NodeState.Running) as Hr by done. rewrite Hr. cbn [andb].
    rewrite (bool_decide_eq_false_2 (NodeState.Running = NodeState.Failed)) by done. rewrite andb_false_r. cbn [andb].
    unfold unblock. rewrite Hr. cbn. split_and!; [done|auto|]. intros (Hf & _)%fenced_iff. done.
  - destruct (bool_decide (np_id p ∈ loops) && _ && _); unfold unblock.
    + cbn. rewrite bool_decide_eq_false_2 by done. split_and!; [done|intros [Hh|(Hh & _)%fenced_iff]; done|].
      intros (Hh & _)%fenced_iff. done.
    + case_bool_decide; [|auto]. split_and!; [done|intros [Hh|(Hh & _)%fenced_iff]; done|]. intros (Hh & _)%fenced_iff. done.
Qed.

Lemma after_delivery_elem attempt cp uncompared i j p q :
  cp_nodes cp !! i = Some p → cp_nodes cp !! j = Some q →
  np_state p = NodeState.Running ∨ awaits_delivery attempt p = true → awaits_delivery attempt q = true →
  (i, j) ∈ after_delivery attempt cp uncompared.
Proof.
  intros Hi Hj Hp Hq. unfold after_delivery. apply elem_of_app. left. apply list_elem_of_In, in_prod; apply list_elem_of_In.
  - apply positions_elem. exists p. split; [done|]. unfold is_running. rewrite orb_true_iff, bool_decide_eq_true. done.
  - apply positions_elem. by exists q.
Qed.

Lemma delivery_ok cp uncompared attempt :
  cp_cancelled cp = false → sched_ok (cp, uncompared) →
  sched_ok (retry_delivered_attempt attempt cp, after_delivery attempt cp uncompared).
Proof.
  intros Hopen [Hrows Hw Hunfenced]. cbn [fst snd] in *. specialize (Hunfenced Hopen).
  destruct (delivered_rows attempt cp) as [_ Hdel].
  assert (∀ j p', cp_nodes (retry_delivered_attempt attempt cp) !! j = Some p' → ∃ p, cp_nodes cp !! j = Some p ∧
    np_id p' = np_id p ∧ (held p' → np_state p = NodeState.Running ∨ awaits_delivery attempt p = true) ∧
    (fenced p' → fenced p)) as Hrow.
  { intros j p' Hj. destruct (Hdel j p' Hj) as (p & Hp & [->|(loops & extensions & ->)]).
    - exists p. split_and!; [done..| |done]. intros [?|Hf]; [by left|]. by destruct (Hunfenced j p Hp).
    - destruct (delivered_row_held attempt loops extensions p) as (Hid & Hh & Hf). exists p. split_and!; [done..| |done].
      intros [[?|Hf']|?]%Hh; [by left|by destruct (Hunfenced j p Hp)|by right]. }
  split; cbn [fst snd].
  - intros i p' Hi. destruct (Hrow i p' Hi) as (p & Hp & -> & _). by apply Hrows.
  - intros i j p q pn qn Hne Hi Hj Hpr Hqr Hpn Hqn Hpw Hqw.
    destruct (Hrow i p Hi) as (p1 & Hp1 & _ & Hp2 & _). destruct (Hrow j q Hj) as (q1 & Hq1 & _ & Hq2 & _).
    specialize (Hp2 Hpr). specialize (Hq2 Hqr).
    destruct (awaits_delivery attempt q1) eqn:Hdq; [right; left; by eapply after_delivery_elem|].
    destruct Hq2 as [Hq2|?]; [|done].
    destruct (awaits_delivery attempt p1) eqn:Hdp; [right; right; eapply after_delivery_elem; eauto|].
    destruct Hp2 as [Hp2|?]; [|done].
    destruct (Hw i j p1 q1 pn qn Hne Hp1 Hq1 (or_introl Hp2) (or_introl Hq2) Hpn Hqn Hpw Hqw) as [?|[?|?]];
      [by left|right; left|right; right]; unfold after_delivery; apply elem_of_app; by right.
  - intros _ j p' Hj Hf. destruct (Hrow j p' Hj) as (p & Hp & _ & _ & Hf'). by apply (Hunfenced j p Hp), Hf'.
Qed.

(** A cancellation is one of the steps that make no writer run. *)
Lemma cancel_is_step timestamp cp uncompared :
  sched_step timestamp (cp, uncompared)
    (fst (mark_cancelled_nodes_without_live_attempts (set_cp_cancelled true cp)), uncompared).
Proof.
  apply sched_other; unfold mark_cancelled_nodes_without_live_attempts; cbn.
  intros j p' Hj. assert (cp_nodes cp !! j ≫= (λ p, Some (mark_cancelled p)) = Some p') as Hl.
  { destruct (existsb _ _); cbn in Hj; rewrite list_lookup_fmap in Hj; exact Hj. }
  destruct (cp_nodes cp !! j) as [p|]; [|done]. injection Hl as <-. exists p. split; [done|].
  split; [unfold mark_cancelled; by destruct (cancellable p)|]. split; [|by destruct (existsb _ _)].
  intros Hh. left. unfold mark_cancelled in Hh. destruct (cancellable p); [|done]. left.
  destruct Hh as [Hh|(_ & Hh & _)%fenced_iff]; [done|]. cbn in Hh. congruence.
Qed.

Lemma same_rows_ok cp cp' uncompared :
  sched_ok (cp, uncompared) →
  (∀ j p', cp_nodes cp' !! j = Some p' →
     ∃ p, cp_nodes cp !! j = Some p ∧ np_id p' = np_id p ∧
       (held p' → held p ∨ ∃ pn, pg_nodes plan !! j = Some pn ∧ pn_access pn = ReadOnly) ∧
       (cp_cancelled cp' = false → fenced p' → cp_cancelled cp = false ∧ fenced p)) →
  sched_ok (cp', uncompared).
Proof.
  intros [Hrows Hw Hopen] Hother. cbn [fst snd] in *. split; cbn [fst snd].
  - intros i p' Hi. destruct (Hother i p' Hi) as (p & Hp & -> & _). by apply Hrows.
  - intros i j p q pn qn Hne Hi Hj Hpr Hqr Hpn Hqn Hpw Hqw.
    destruct (Hother i p Hi) as (p0 & Hp0 & _ & Hp1 & _). destruct (Hother j q Hj) as (q0 & Hq0 & _ & Hq1 & _).
    destruct (Hp1 Hpr) as [Hp2|(? & ? & ?)]; [|congruence]. destruct (Hq1 Hqr) as [Hq2|(? & ? & ?)]; [|congruence].
    by eapply (Hw i j p0 q0).
  - intros Hc j p' Hj Hf. destruct (Hother j p' Hj) as (p & Hp & _ & _ & Hf').
    destruct (Hf' Hc Hf) as [Ho Hfp]. by apply (Hopen Ho j p Hp).
Qed.

Lemma sched_step_ok timestamp st st' : sched_step timestamp st st' → sched_ok st → sched_ok st'.
Proof.
  destruct 1 as [cp cp' u k p node inputs key route launch Hp _ Hk Hadmit|cp cp' u extensions Hresume|cp u attempt Hopen|cp cp' u Hother];
    intros Hok.
  - by eapply start_ok.
  - apply (same_rows_ok cp cp' _ Hok). intros j p' Hj.
    destruct (resume_rows _ _ _ Hresume j p' Hj) as (p & ? & ? & ? & ?). exists p. split_and!; auto.
  - by apply delivery_ok.
  - apply (same_rows_ok cp cp' _ Hok). intros j p' Hj. destruct (Hother j p' Hj) as (p & ? & ? & ? & ?).
    exists p. split_and!; auto.
Qed.

Lemma initial_ok : sched_ok (initial_checkpoint plan, []).
Proof.
  assert (∀ j p, cp_nodes (initial_checkpoint plan) !! j = Some p →
    ∃ pn, pg_nodes plan !! j = Some pn ∧ np_id p = pn_id pn ∧ np_state p = NodeState.Pending) as Hinit.
  { intros j p Hj. cbn in Hj. rewrite list_lookup_fmap in Hj. destruct (pg_nodes plan !! j) as [pn|]; [|done].
    injection Hj as <-. by exists pn. }
  assert (∀ j p, cp_nodes (initial_checkpoint plan) !! j = Some p → ¬ held p) as Hidle.
  { intros j p (pn & _ & _ & Hs)%Hinit [Hh|(Hh & _)%fenced_iff]; congruence. }
  split; cbn [fst snd].
  - intros j p (pn & ? & ? & _)%Hinit. by exists pn.
  - intros i j p q pn qn _ Hi _ Hh. by destruct (Hidle i p Hi).
  - intros _ j p Hj Hf. destruct (Hidle j p Hj). by right.
Qed.

(** C9: Writers that run together do not share files.  In every run of the
    scheduler over one plan, with cancellations, resumes, detached nodes and late
    deliveries on the way, two writers whose rows run at the same time work in
    different worktrees and have no path in both of their write scopes, unless
    one of them was spawned by the other, or the pair is one the scheduler has
    not compared: one last started in a cancelled graph while the other was
    fenced by the cancellation, or was reopened by a delivery. *)
Theorem writers_exclusive timestamp cp uncompared :
  rtc (sched_step timestamp) (initial_checkpoint plan, []) (cp, uncompared) →
  apart_among (λ p, np_state p = NodeState.Running) uncompared cp.
Proof.
  intros Hrun. assert (sched_ok (cp, uncompared)) as [_ Hw _].
  { apply (rtc_ind_r sched_ok (initial_checkpoint plan, [])) in Hrun; [done|exact initial_ok|].
    intros a b _ Hstep. by eapply sched_step_ok. }
  intros i j p q pn qn Hne Hi Hj Hp Hq. by apply (Hw i j p q); [..|left|left].
Qed.
End Runs.

(** ** Witnesses *)

Lemma ex_started plan i node cp p uncompared :
  cp_nodes cp !! i = Some p → cp_cancelled cp = false ∨ detached p = true → pg_nodes plan !! i = Some node →
  snd (ex_admit plan i node cp) = Ready →
  sched_step (λ _, "") plan ex_two_slots ex_unlimited (λ _, true) (cp, uncompared)
    (ex_start plan i node cp, after_start cp i uncompared).
Proof.
  intros Hp Hc Hi Hr. unfold ex_start. destruct (ex_admit plan i node cp) as [cp' a] eqn:E. cbn [fst snd] in *. subst a.
  exact (sched_start _ _ _ _ _ cp cp' uncompared i p node ex_inputs _ _ _ Hp Hc Hi E).
Qed.

(** *** Runs that need the exceptions: the scopes of the two writers overlap *)

Definition ex_clash : PlannedGraph := mkPlan "g" [ex_core; ex_src].
Definition ex_step := sched_step (λ _, "") ex_clash ex_two_slots ex_unlimited (λ _, true).
(** The attempt of the first row fails, and with it the row or only the attempt. *)
Definition ex_ended (state : NodeState.t) (p : NodeProgress) : NodeProgress :=
  set_np_state state
    (set_np_attempts
       (alter_last (λ a, set_at_ref (Some "project/7") (set_at_outcome (Some AttemptOutcome.OtherFailure)
                          (set_at_state AttemptState.Terminal a))) (np_attempts p)) p).
Definition ex_detach (p : NodeProgress) : NodeProgress :=
  set_np_extra (<[DETACHED_FROM_GRAPH_CANCEL := JBool true]> (np_extra p)) p.
Definition ex_first : GraphCheckpoint := ex_start ex_clash 0 ex_core (initial_checkpoint ex_clash).
Definition ex_failed : GraphCheckpoint := update_node 0 (ex_ended NodeState.Failed) ex_first.
Definition ex_cancelled : GraphCheckpoint :=
  fst (mark_cancelled_nodes_without_live_attempts
         (set_cp_cancelled true (update_node 1 ex_detach (update_node 0 (ex_ended NodeState.Running) ex_first)))).
Definition ex_second (cp : GraphCheckpoint) : GraphCheckpoint := ex_start ex_clash 1 ex_src cp.

Lemma row_changed cp k f uncompared :
  (∀ p, cp_nodes cp !! k = Some p → np_id (f p) = np_id p ∧ (held (f p) → held p) ∧ (fenced (f p) → fenced p)) →
  ex_step (cp, uncompared) (update_node k f cp, uncompared).
Proof.
  intros Hf. apply sched_other. cbn. intros j p' Hj. destruct (decide (j = k)) as [->|Hne].
  - rewrite list_lookup_alter_eq in Hj. destruct (cp_nodes cp !! k) as [p|]; [|done]. injection Hj as <-.
    destruct (Hf p eq_refl) as (? & ? & ?). exists p. split_and!; auto.
  - rewrite list_lookup_alter_ne in Hj by done. exists p'. split_and!; auto.
Qed.

Lemma clash_not_apart cp :
  np_state <$> cp_nodes cp = [NodeState.Running; NodeState.Running] →
  ¬ apart_among ex_clash (λ p, np_state p = NodeState.Running) [] cp.
Proof.
  intros Hs Hw. destruct (cp_nodes cp) as [|p [|q [|? ?]]] eqn:Hn; try done. cbn in Hs. injection Hs as Hp Hq.
  assert (cp_nodes cp !! 0%nat = Some p) as Hi by (rewrite Hn; done).
  assert (cp_nodes cp !! 1%nat = Some q) as Hj by (rewrite Hn; done).
  destruct (Hw 0%nat 1%nat p q ex_core ex_src ltac:(done) Hi Hj Hp Hq eq_refl eq_refl eq_refl eq_refl)
    as [[?|[?|[_ Hs]]]|[[]%elem_of_nil|[]%elem_of_nil]]; try done.
  apply (Hs "src/core" "src" "src/core"); [by apply list_elem_of_singleton..|by right; left|].
  right; right. by exists "core".
Qed.

(** The first writer fails, the second starts, a late delivery reopens the first. *)
Lemma redelivery_overlaps :
  ∃ uncompared, let cp := retry_delivered_attempt "7" (ex_second ex_failed) in
    rtc ex_step (initial_checkpoint ex_clash, []) (cp, uncompared) ∧
    ¬ apart_among ex_clash (λ p, np_state p = NodeState.Running) [] cp.
Proof.
  eexists. cbv zeta. split; [|apply clash_not_apart; vm_compute; reflexivity].
  eapply rtc_l; [eapply (ex_started ex_clash 0 ex_core); [vm_compute; reflexivity|by left|vm_compute; reflexivity..]|].
  eapply rtc_l; [apply (row_changed ex_first 0 (ex_ended NodeState.Failed))|].
  { intros p _. split; [done|]. split; [intros [?|(? & _)%fenced_iff]; done|intros (? & _)%fenced_iff; done]. }
  eapply rtc_l; [eapply (ex_started ex_clash 1 ex_src); [vm_compute; reflexivity|by left|vm_compute; reflexivity..]|].
  eapply rtc_l; [|apply rtc_refl]. by apply sched_delivery.
Qed.

(** The first writer waits for a retry, the second is detached; a cancellation
    fences the first, the second starts, and a resume puts the first back. *)
Lemma detached_start_overlaps :
  ∃ cp uncompared, rtc ex_step (initial_checkpoint ex_clash, []) (cp, uncompared) ∧
    ¬ apart_among ex_clash (λ p, np_state p = NodeState.Running) [] cp.
Proof.
  destruct (apply_resume (ex_second ex_cancelled) []) as [cp|e] eqn:Hr; [|vm_compute in Hr; done].
  exists cp. eexists. split; [|apply clash_not_apart; vm_compute in Hr; injection Hr as <-; reflexivity].
  eapply rtc_l; [eapply (ex_started ex_clash 0 ex_core); [vm_compute; reflexivity|by left|vm_compute; reflexivity..]|].
  eapply rtc_l; [apply (row_changed ex_first 0 (ex_ended NodeState.Running))|].
  { intros p Hp. vm_compute in Hp. injection Hp as <-. split; [done|]. split; [by left|].
    intros (? & _)%fenced_iff; done. }
  eapply rtc_l; [apply (row_changed _ 1 ex_detach); by auto|].
  apply (rtc_l _ _ (ex_cancelled, [])); [exact (cancel_is_step _ _ _ _ _ _ [])|].
  eapply (rtc_l _ _ (ex_second ex_cancelled, after_start ex_cancelled 1 []));
    [eapply (ex_started ex_clash 1 ex_src); [vm_compute; reflexivity|right; vm_compute; reflexivity|vm_compute; reflexivity..]|].
  eapply rtc_l; [|apply rtc_refl]. exact (sched_resume _ _ _ _ _ (ex_second ex_cancelled) cp _ [] Hr).
Qed.

Lemma writers_exclusive_witness :
  np_state <$> cp_nodes (ex_start ex_pair 1 ex_docs ex_running) = [NodeState.Running; NodeState.Running] ∧
  apart_among ex_pair (λ p, np_state p = NodeState.Running) [] (ex_start ex_pair 1 ex_docs ex_running).
Proof.
  split; [vm_compute; reflexivity|].
  apply (writers_exclusive (λ _, "") ex_pair ex_two_slots ex_unlimited (λ _, true)).
  apply (rtc_l _ _ (ex_running, after_start (initial_checkpoint ex_pair) 0 [])).
  { eapply (ex_started ex_pair); [vm_compute; reflexivity|left; vm_compute; reflexivity|vm_compute; reflexivity..]. }
  apply (rtc_l _ _ (ex_start ex_pair 1 ex_docs ex_running, after_start ex_running 1 [])); [|apply rtc_refl].
  eapply (ex_started ex_pair); [vm_compute; reflexivity|left; vm_compute; reflexivity|vm_compute; reflexivity..].
Defined.
