(* ===== verification/RunLedger.v ===== *)
(** * RunLedger: the host admission ledger

    Models [crates/run/src/ledger.rs]: the leases of every lane on the host and
    the last start of each lane class, in one database file; with the limits of
    [crates/config/src/gc.rs] and the token budget of
    [crates/run/src/token_budget.rs].  A transaction is a function that answers an
    error, which leaves the tables alone, or the new tables.  What the
    transaction reads of the host (clocks, processes, the owning stores) is the
    record [Host]; the JSON of a process identity is the class [IdentityCodec].
    A file that is not of a known version, and rows of other types than the
    schema's, are outside.  The theorems are in [RunLedgerRuns]. *)

From stdpp Require Import base option list strings.
From S2P Require Import Prelude JsonDocument.

Local Open Scope string_scope.
Local Open Scope list_scope.
Local Open Scope Z_scope.
Local Open Scope rust_scope.

(** ** Data *)

Inductive LaneClass := Writer | ReadOnlyLane.
#[export] Instance LaneClass_eq_dec : EqDecision LaneClass.
Proof. solve_decision. Defined.

(** The fields of a ticket the ledger reads. *)
Record AdmissionTicket := mkTicket {
  tk_attempt_id : string;
  tk_project_id : string;
  tk_startup_spacing_ms : Z;
  tk_lane_class : LaneClass;
}.

(** A row of [leases], in the order of the row identifiers. *)
Record LeaseRow := mkLeaseRow {
  le_attempt : string;
  le_project : string;
  le_store : string;
  le_class : LaneClass;
  le_boot : string;
  le_guardian : string;
  le_owner_id : string;
  le_yielded : bool;
}.
#[export] Instance LeaseRow_eq_dec : EqDecision LeaseRow.
Proof. solve_decision. Defined.

(** A reading of the monotonic clock and the boot it belongs to. *)
Record HostInstant := mkInstant { hi_boot : string; hi_micros : Z }.
Record Ledger := mkLedger {
  lg_leases : list LeaseRow;
  lg_spacing : list (LaneClass * HostInstant);
}.

(** A process, without its group and session. *)
Record ProcessIdentity := mkIdentity { pi_boot : string; pi_pid : Z; pi_native_start : Z }.
(** Equality denotes the native process. *)
Definition same_process (a b : ProcessIdentity) : bool :=
  (pi_boot a == pi_boot b) && (pi_pid a =? pi_pid b) && (pi_native_start a =? pi_native_start b).
Inductive ProcessObservation :=
| Present (identity : ProcessIdentity) (zombie : bool)
| Absent
| Unknown.

(** [serde_json] on a process identity. *)
Class IdentityCodec := {
  encode_identity : ProcessIdentity → option string;
  decode_identity : string → option ProcessIdentity;
}.

(** The three looks at a store file while its row is asked for. *)
Inductive Look := BeforeOpen | AfterOpen | AfterQuery.
Record Host := mkHost {
  h_wall_now : option Z;
  h_boot_identity : option string;
  h_monotonic_micros : option Z;
  h_observe_process : Z → ProcessObservation;
  h_guardian_identity : option ProcessIdentity;
  h_store_identity : Look → string → option string;
  h_opens : string → bool;
  (** whether the admission row of an attempt is gone, if the query answers *)
  h_row_gone : string → string → option bool;
}.

Inductive LedgerError :=
| Validation (what : string)
| AdmissionClock
| AdmissionGuardianIdentity
| Refused.
#[export] Instance LedgerError_eq_dec : EqDecision LedgerError.
Proof. solve_decision. Defined.

(** ** Limits *)

Definition WRITER_LANES_CEILING : Z := 64.
Definition PROJECT_WRITER_LANES_CEILING : Z := 32.
Definition DEFAULT_MAX_WRITER_LANES : Z := 40.
Definition DEFAULT_MAX_PROJECT_WRITER_LANES : Z := 30.

(** The lane limits among the build settings. *)
Record LaneBuildSettings := mkLaneSettings {
  lb_max_lanes : option Z;
  lb_max_project_lanes : option Z;
  lb_max_writer_lanes : option Z;
  lb_max_project_writer_lanes : option Z;
}.
Definition total_lanes (s : LaneBuildSettings) : Z :=
  clamp 1 WRITER_LANES_CEILING (unwrap_or (lb_max_lanes s) WRITER_LANES_CEILING).
Definition project_total_lanes (s : LaneBuildSettings) : Z :=
  Z.min (clamp 1 PROJECT_WRITER_LANES_CEILING (unwrap_or (lb_max_project_lanes s) PROJECT_WRITER_LANES_CEILING))
    (total_lanes s).
Definition writer_lanes (s : LaneBuildSettings) : Z :=
  clamp 1 WRITER_LANES_CEILING (unwrap_or (lb_max_writer_lanes s) DEFAULT_MAX_WRITER_LANES).
Definition project_writer_lanes (s : LaneBuildSettings) : Z :=
  Z.min (clamp 1 PROJECT_WRITER_LANES_CEILING
           (unwrap_or (lb_max_project_writer_lanes s) DEFAULT_MAX_PROJECT_WRITER_LANES)) (writer_lanes s).

Inductive SettingSource := Configuration | ShippedDefault.
Definition source_of (setting : option Z) : SettingSource :=
  if is_some setting then Configuration else ShippedDefault.
Record LaneCaps := mkCaps {
  host_writers : Z;
  project_writers : Z;
  host_total : Z;
  project_total : Z;
  host_total_source : SettingSource;
  project_total_source : SettingSource;
  host_source : SettingSource;
  project_source : SettingSource;
}.
(** [LaneCaps::of]. *)
Definition caps_of (s : LaneBuildSettings) : LaneCaps :=
  mkCaps (writer_lanes s) (project_writer_lanes s) (total_lanes s) (project_total_lanes s)
    (source_of (lb_max_lanes s)) (source_of (lb_max_project_lanes s))
    (source_of (lb_max_writer_lanes s)) (source_of (lb_max_project_writer_lanes s)).

Inductive LaneLimit := HostWriters | ProjectWriters | HostTotal | ProjectTotal.
Record CapHit := mkCapHit { hit_active : Z; hit_limit : Z; hit_kind : LaneLimit; hit_origin : SettingSource }.

(** [COUNT] over the rows that hold capacity. *)
Definition holds_capacity (l : LeaseRow) : bool := negb (le_yielded l).
Definition of_project (project : string) (l : LeaseRow) : bool := le_project l == project.
Definition is_writer (l : LeaseRow) : bool := le_class l == Writer.
Definition active (f : LeaseRow → bool) (leases : list LeaseRow) : Z :=
  len (List.filter (λ l, holds_capacity l && f l) leases).

Definition hit (count limit : Z) (kind : LaneLimit) (origin : SettingSource) : option CapHit :=
  if limit <=? count then Some (mkCapHit count limit kind origin) else None.
Definition cap_hit (leases : list LeaseRow) (project : string) (class : LaneClass) (caps : LaneCaps) : option CapHit :=
  let found :=
    match class with
    | Writer =>
        hit (active is_writer leases) (host_writers caps) HostWriters (host_source caps)
        ∪ hit (active (λ l, is_writer l && of_project project l) leases) (project_writers caps) ProjectWriters
            (project_source caps)
    | ReadOnlyLane => None
    end in
  found
  ∪ hit (active (λ _, true) leases) (host_total caps) HostTotal (host_total_source caps)
  ∪ hit (active (of_project project) leases) (project_total caps) ProjectTotal (project_total_source caps).

(** ** Releasing leases *)

Section Ledger.
  Context `{IdentityCodec}.

(** [String::from_utf8] on a column. *)
Definition text_column (column : string) : option string :=
  if is_none (from_utf8 (String.list_ascii_of_string column)) then Some column else None.
Definition nonempty (text : option string) : option string :=
  text ≫= λ t, if str_is_empty t then None else Some t.

(** [Owner::open] and [Owner::released]: the store still is the file of the lease
    and has no admission row for the attempt. *)
Definition owner_released (host : Host) (path : string) (owner_id : option string) (attempt : string) : bool :=
  match nonempty owner_id with
  | None => false
  | Some identity =>
      (h_store_identity host BeforeOpen path == Some identity) && h_opens host path
      && (h_store_identity host AfterOpen path == Some identity)
      && unwrap_or (h_row_gone host path attempt) false
      && (h_store_identity host AfterQuery path == Some identity)
  end.

Definition guardian_gone (host : Host) (guardian : option string) : bool :=
  match guardian ≫= decode_identity with
  | None => false
  | Some identity =>
      if negb (str_is_empty (pi_boot identity)) && (0 <? pi_pid identity) && (0 <? pi_native_start identity) then
        match h_observe_process host (pi_pid identity) with
        | Absent => true
        | Present seen zombie => negb (same_process seen identity) || zombie
        | Unknown => false
        end
      else false
  end.

Definition other_boot (boot : string) (lease_boot : option string) : bool :=
  is_some_and (nonempty lease_boot) (λ b, b != boot).

(** [store.join("run.sqlite3")]. *)
Definition store_file (store : string) : string :=
  if str_is_empty store then "run.sqlite3"
  else if ends_with store "/" then store +:+ "run.sqlite3" else store +:+ "/run.sqlite3".

(** [released], for a row whose attempt can be read and for one whose cannot. *)
Definition row_released (host : Host) (boot : string) (l : LeaseRow) : bool :=
  other_boot boot (text_column (le_boot l))
  || guardian_gone host (text_column (le_guardian l))
  || match nonempty (text_column (le_attempt l)) with
     | Some attempt => owner_released host (store_file (le_store l)) (text_column (le_owner_id l)) attempt
     | None => false
     end.

(** At most 256 rows, those that hold capacity first. *)
Definition inspected (leases : list LeaseRow) : list LeaseRow :=
  take 256 (List.filter holds_capacity leases ++ List.filter le_yielded leases).
Definition pruned (host : Host) (boot : string) (leases : list LeaseRow) : list LeaseRow :=
  List.filter (λ l, negb (bool_decide (l ∈ inspected leases) && row_released host boot l)) leases.
Definition prune (host : Host) (leases : list LeaseRow) : result LedgerError (list LeaseRow) :=
  boot ← ok_or (h_boot_identity host) AdmissionClock;
  Ok (pruned host boot leases).

(** ** Spacing *)

(** [HostInstant::read]. *)
Definition read_instant (host : Host) : result LedgerError HostInstant :=
  boot ← ok_or (h_boot_identity host) AdmissionClock;
  micros ← ok_or (h_monotonic_micros host) AdmissionClock;
  Ok (mkInstant boot micros).

Definition recorded_start (spacing : list (LaneClass * HostInstant)) (class : LaneClass) : option HostInstant :=
  snd <$> List.find (λ row, fst row == class) spacing.
(** [INSERT ... ON CONFLICT(class) DO UPDATE]. *)
Definition record_start (class : LaneClass) (now : HostInstant) (spacing : list (LaneClass * HostInstant))
    : list (LaneClass * HostInstant) :=
  (class, now) :: List.filter (λ row, fst row != class) spacing.

Definition spacing_micros (spacing_ms : Z) : result LedgerError Z :=
  ok_or (checked_mul_u64 spacing_ms 1000) (Validation "startup spacing").
Definition spacing_wait (last : option HostInstant) (now : HostInstant) (spacing : Z) : Z :=
  match last with
  | Some last =>
      if hi_boot last == hi_boot now
      then saturating_sub_u64 (saturating_add_u64 (hi_micros last) spacing) (hi_micros now)
      else 0
  | None => 0
  end.
(** [spacing_left], on a ledger that can be read. *)
Definition spacing_left (ledger : Ledger) (class : LaneClass) (spacing_ms : Z) (host : Host) : option Z :=
  match read_instant host, spacing_micros spacing_ms with
  | Ok now, Ok spacing => Some ((spacing_wait (recorded_start (lg_spacing ledger) class) now spacing + 999) / 1000)
  | _, _ => None
  end.

(** ** Leases *)

Definition has_lease (id : string) (leases : list LeaseRow) : bool := existsb (λ l, le_attempt l == id) leases.
(** The [yielded] column of the lease of [id], 0 without one. *)
Definition lease_yielded (id : string) (leases : list LeaseRow) : bool :=
  is_some_and (List.find (λ l, le_attempt l == id) leases) le_yielded.
Definition set_yielded (yielded : bool) (l : LeaseRow) : LeaseRow :=
  mkLeaseRow (le_attempt l) (le_project l) (le_store l) (le_class l) (le_boot l) (le_guardian l) (le_owner_id l) yielded.

(** What a claim came to: the lease was held, it starts now, or it waits. *)
Inductive Claim := Held | Started (at_ : HostInstant) | Waits.

(** Spacing, and the row of a start that capacity allows. *)
Definition start (ledger : Ledger) (store : string) (ticket : AdmissionTicket) (spacing : Z) (host : Host)
    : result LedgerError (Ledger * Claim) :=
  let id := tk_attempt_id ticket in
  let class := tk_lane_class ticket in
  now ← read_instant host;
  if 0 <? spacing_wait (recorded_start (lg_spacing ledger) class) now spacing then Ok (ledger, Waits)
  else if negb (hi_micros now <=? i64_max) then Err (Validation "integer exceeds SQLite range")
  else
    let starts := record_start class now (lg_spacing ledger) in
    if has_lease id (lg_leases ledger) then
      let leases := (λ l, if le_attempt l == id then set_yielded false l else l) <$> lg_leases ledger in
      Ok (mkLedger leases starts, Started now)
    else
      identity ← ok_or (h_guardian_identity host) AdmissionGuardianIdentity;
      guardian ← ok_or (encode_identity identity) Refused;
      owner_id ← ok_or (h_store_identity host BeforeOpen (store_file store)) AdmissionGuardianIdentity;
      let row := mkLeaseRow id (tk_project_id ticket) store class (hi_boot now) guardian owner_id false in
      Ok (mkLedger (lg_leases ledger ++ [row]) starts, Started now).

(** The transaction of [lease]. *)
Definition claim (ledger : Ledger) (store : string) (ticket : AdmissionTicket) (caps : LaneCaps) (host : Host)
    : result LedgerError (Ledger * Claim) :=
  let id := tk_attempt_id ticket in
  let full leases := is_some (cap_hit leases (tk_project_id ticket) (tk_lane_class ticket) caps) in
  spacing ← spacing_micros (tk_startup_spacing_ms ticket);
  _ ← ok_or (h_wall_now host) (Validation "wall clock");
  leases ← (if has_lease id (lg_leases ledger) then prune host (lg_leases ledger) else Ok (lg_leases ledger));
  if has_lease id leases && negb (lease_yielded id leases) then Ok (mkLedger leases (lg_spacing ledger), Held)
  else
    pruned_leases ← (if full leases then prune host leases else Ok leases);
    if full leases && full pruned_leases then Ok (mkLedger pruned_leases (lg_spacing ledger), Waits)
    else start (mkLedger pruned_leases (lg_spacing ledger)) store ticket spacing host.
(** [lease]: the wall time of the claim when the lease is held. *)
Definition lease (ledger : Ledger) (store : string) (ticket : AdmissionTicket) (caps : LaneCaps) (host : Host)
    : result LedgerError (Ledger * option Z) :=
  '(ledger, outcome) ← claim ledger store ticket caps host;
  Ok (ledger, match outcome with Waits => None | _ => h_wall_now host end).

Definition yield_lease (ledger : Ledger) (store id : string) : Ledger :=
  mkLedger ((λ l, if (le_attempt l == id) && (le_store l == store) then set_yielded true l else l) <$> lg_leases ledger)
    (lg_spacing ledger).

(** ** Opening and upgrading the file *)

Record LedgerFile := mkFile {
  lf_version : Z;
  lf_timed : bool;          (** whether [spacing] has a [boot] column *)
  lf_recorded : bool;       (** whether an untimed [spacing] has a row *)
  lf_tables : Ledger;
}.

Definition carried_starts (recorded : bool) (host : Host) : result LedgerError (list (LaneClass * HostInstant)) :=
  now ← read_instant host;
  if negb recorded then Ok []
  else if negb (hi_micros now <=? i64_max) then Err (Validation "integer exceeds SQLite range")
  else Ok [(Writer, now); (ReadOnlyLane, now)].

(** The upgrade of [open]; a file of version 0 has no tables. *)
Definition open_ledger (file : LedgerFile) (host : Host) : result LedgerError LedgerFile :=
  let version := lf_version file in
  if negb (version <? 6) && lf_timed file then Ok file
  else
    spacing ← (if version =? 0 then Ok []
               else if version =? 1 then carried_starts (lf_recorded file) host
               else Ok (if lf_timed file then lg_spacing (lf_tables file) else []));
    let leases := if version <? 5 then []
                  else if version =? 5 then set_yielded false <$> lg_leases (lf_tables file)
                  else lg_leases (lf_tables file) in
    Ok (mkFile 6 true false (mkLedger leases spacing)).
End Ledger.

(** ** The token budget of a writer *)

(** The token counts of a usage record. *)
Record UsageRecord := mkUsageRecord {
  ur_uncached_input : option Z;
  ur_cache_read : option Z;
  ur_cache_write : option Z;
  ur_output_excluding_reasoning : option Z;
  ur_reasoning : option Z;
}.
Inductive Verdict := Off | Within (used : Z) | Over (used budget : Z) | Unreported.

Definition enforces (provider : string) : bool := (provider == "claude") || (provider == "codex").
Definition fresh_parts (u : UsageRecord) : list (option Z) :=
  [ur_uncached_input u; ur_cache_write u; ur_output_excluding_reasoning u; ur_reasoning u].
Definition used (u : UsageRecord) : option Z :=
  fold_left (λ sum part, match part with
                         | Some n => Some (saturating_add_u64 (unwrap_or sum 0) n)
                         | None => sum
                         end) (fresh_parts u) None.
Definition judge (u : UsageRecord) (budget : Z) : Verdict :=
  if budget =? 0 then Off
  else match used u with
       | None => Unreported
       | Some n => if budget <? n then Over n budget else Within n
       end.

(** [used] is the sum of the reported fresh tokens, at most [u64_max], and is
    [None] only when none was reported. *)
Lemma used_exact (u : UsageRecord) :
  Forall (λ p, 0 ≤ unwrap_or p 0) (fresh_parts u) →
  used u = (if forallb is_none (fresh_parts u) then None
            else Some (Z.min u64_max (fold_right Z.add 0 (map (λ p, unwrap_or p 0) (fresh_parts u))))).
Proof.
  unfold used, fresh_parts. rewrite !Forall_cons. destruct u as [a b c d e]; cbn. intros (? & ? & ? & ? & _).
  destruct a as [a|], c as [c|], d as [d|], e as [e|]; cbn in *; try reflexivity; f_equal;
    unfold saturating_add_u64, clamp, u64_max; lia.
Qed.
