(* ===== verification/RunLedgerRuns.v ===== *)
(** * RunLedgerRuns: the admission ledger over every history of the host

    Claims and yields of any number of processes, in the order of the ledger's
    lock, on the clocks of one host ([RunLedger] has the operations).
    [caps_respected] and [starts_spaced] hold in every history;
    [dead_leases_do_not_block] says when a claim is granted at once, and
    [lease_kept] what pruning leaves alone. *)

From Stdlib Require Import Sorted.
From stdpp Require Import base option list strings relations.
From S2P Require Import Prelude RunLedger.

Local Open Scope string_scope.
Local Open Scope list_scope.
Local Open Scope Z_scope.
Local Open Scope rust_scope.

(** ** Counting *)

Lemma active_nonneg f l : 0 ≤ active f l.
Proof. unfold active, len. lia. Qed.

Lemma active_cons f x l :
  active f (x :: l) = (if holds_capacity x && f x then 1 else 0) + active f l.
Proof. unfold active, len. cbn. destruct (_ && _); cbn; lia. Qed.

Lemma active_snoc f l x :
  active f (l ++ [x]) = active f l + (if holds_capacity x && f x then 1 else 0).
Proof. unfold active, len. rewrite List.filter_app, length_app. cbn. destruct (_ && _); cbn; lia. Qed.

Lemma active_filter f g l : active f (List.filter g l) ≤ active f l.
Proof.
  induction l as [|x l IH]; [done|]. cbn. rewrite (active_cons f x l).
  destruct (g x); [rewrite active_cons|]; destruct (_ && _); lia.
Qed.

Lemma active_map f g l :
  (∀ x, f (g x) = f x) → (∀ x, holds_capacity (g x) = true → holds_capacity x = true) → active f (g <$> l) ≤ active f l.
Proof.
  intros Hf Hg. induction l as [|x l IH]; [done|]. rewrite fmap_cons, !active_cons, Hf. specialize (Hg x).
  destruct (holds_capacity (g x)) eqn:E; [rewrite Hg by done|]; destruct (f x), (holds_capacity x); cbn; lia.
Qed.

(** Counting ignores rows that hold no capacity. *)
Lemma active_holding f l k :
  List.filter holds_capacity l = List.filter holds_capacity k → active f l = active f k.
Proof.
  assert (∀ m, List.filter (λ x, holds_capacity x && f x) m = List.filter f (List.filter holds_capacity m)) as Hm.
  { induction m as [|x m IH]; [done|]. cbn. destruct (holds_capacity x); cbn; [destruct (f x)|]; by rewrite IH. }
  intros H. unfold active. by rewrite !Hm, H.
Qed.

Definition reclaimed (id : string) (l : LeaseRow) : LeaseRow := if le_attempt l == id then set_yielded false l else l.

(** Reclaiming a lease adds at most that lease. *)
Lemma active_reclaimed f id (b : bool) l :
  NoDup (le_attempt <$> l) → (∀ v x, f (set_yielded v x) = f x) →
  (∀ x, x ∈ l → le_attempt x = id → f x = b) →
  active f (reclaimed id <$> l) ≤ active f l + (if b then 1 else 0).
Proof.
  intros Hnd Hf Hb. induction l as [|x l IH]; [destruct b; cbn; unfold active, len; cbn; lia|].
  rewrite fmap_cons in Hnd. apply NoDup_cons in Hnd as [Hx Hnd]. rewrite fmap_cons, !active_cons.
  unfold reclaimed at 1 2. case_bool_decide as Hid.
  - assert (reclaimed id <$> l = l) as ->.
    { rewrite <-(list_fmap_id l) at 2. apply list_fmap_ext. intros i y Hy. unfold reclaimed.
      rewrite bool_decide_eq_false_2; [done|]. intros Hyid. apply Hx. rewrite Hid, <-Hyid.
      apply list_elem_of_fmap. exists y. split; [done|]. by eapply list_elem_of_lookup_2. }
    rewrite Hf, (Hb x) by (done || set_solver). destruct b, (holds_capacity x); cbn; lia.
  - assert (active f (reclaimed id <$> l) ≤ active f l + (if b then 1 else 0)); [|lia].
    apply IH; [done|]. intros y Hy. apply Hb. set_solver.
Qed.

(** ** Limits *)

Lemma hit_None count limit kind origin : hit count limit kind origin = None ↔ count < limit.
Proof. unfold hit. destruct (limit <=? count) eqn:E; bool_prop; split; (done || lia). Qed.

Lemma union_hit_None {A} (o p : option A) : o ∪ p = None ↔ o = None ∧ p = None.
Proof. destruct o, p; cbn; naive_solver. Qed.

Definition writer_of (project : string) (l : LeaseRow) : bool := is_writer l && of_project project l.

(** A lease more of [class] for [project] stays within the limits. *)
Lemma cap_hit_None leases project class caps :
  cap_hit leases project class caps = None ↔
  active (λ _, true) leases < host_total caps ∧ active (of_project project) leases < project_total caps ∧
  (class = Writer → active is_writer leases < host_writers caps ∧
                    active (writer_of project) leases < project_writers caps).
Proof.
  unfold cap_hit. fold (writer_of project). rewrite !union_hit_None, !hit_None. destruct class.
  - rewrite union_hit_None, !hit_None. naive_solver.
  - naive_solver.
Qed.

Lemma caps_of_range settings :
  1 ≤ host_total (caps_of settings) ≤ 64 ∧ 1 ≤ project_total (caps_of settings) ∧
  1 ≤ host_writers (caps_of settings) ∧ 1 ≤ project_writers (caps_of settings).
Proof.
  cbn. unfold project_total_lanes, project_writer_lanes, total_lanes, writer_lanes, clamp,
    WRITER_LANES_CEILING, PROJECT_WRITER_LANES_CEILING. lia.
Qed.

Record within_caps (caps : LaneCaps) (leases : list LeaseRow) : Prop := {
  wc_host : active (λ _, true) leases ≤ host_total caps;
  wc_project p : active (of_project p) leases ≤ project_total caps;
  wc_writers : active is_writer leases ≤ host_writers caps;
  wc_project_writers p : active (writer_of p) leases ≤ project_writers caps;
}.

Lemma within_caps_le caps l k :
  (∀ f, (∀ v x, f (set_yielded v x) = f x) → active f k ≤ active f l) → within_caps caps l → within_caps caps k.
Proof.
  intros Hle [Hh Hp Hw Hpw]. split; intros.
  - etransitivity; [by apply Hle|done].
  - etransitivity; [by apply Hle|apply Hp].
  - etransitivity; [by apply Hle|done].
  - etransitivity; [by apply Hle|apply Hpw].
Qed.

(** ** Pruning *)

Section Runs.
  Context `{IdentityCodec}.

Lemma pruned_elem host boot leases l :
  l ∈ pruned host boot leases ↔ l ∈ leases ∧ ¬ (l ∈ inspected leases ∧ row_released host boot l = true).
Proof.
  unfold pruned. rewrite list_elem_of_In, List.filter_In, <-list_elem_of_In, negb_true_iff, andb_false_iff.
  rewrite bool_decide_eq_false. destruct (row_released host boot l); naive_solver.
Qed.

(** A lane that may live keeps its lease: of this boot, with a guardian that is
    not seen to be gone, and a store that still has its admission row or cannot
    be asked. *)
Lemma lease_kept host boot leases l :
  l ∈ leases → le_boot l = boot → guardian_gone host (text_column (le_guardian l)) = false →
  (∀ path attempt, h_row_gone host path attempt ≠ Some true) → l ∈ pruned host boot leases.
Proof.
  intros Hl Hb Hg Hrow. apply pruned_elem. split; [done|]. intros [_ Hr]. unfold row_released in Hr.
  rewrite Hg, orb_false_r in Hr. apply orb_true_iff in Hr as [Hr|Hr].
  - unfold other_boot, is_some_and in Hr. destruct (nonempty _) as [b|] eqn:Hn; [|done].
    unfold nonempty, text_column in Hn. rewrite Hb in Hn. destruct (is_none _); cbn in Hn; [|done].
    destruct (str_is_empty boot); [done|]. injection Hn as <-. by rewrite bool_decide_eq_true_2 in Hr.
  - destruct (nonempty _) as [attempt|]; [|done]. unfold owner_released in Hr. destruct (nonempty _); [|done].
    destruct (h_row_gone _ _ _) as [[]|] eqn:Hgone; [by apply Hrow in Hgone| |];
      cbn in Hr; by rewrite ?andb_false_r in Hr.
Qed.

(** When few rows hold capacity, all of them are inspected. *)
Lemma pruned_holding host boot leases :
  active (λ _, true) leases ≤ 256 →
  List.filter holds_capacity (pruned host boot leases) =
    List.filter holds_capacity (List.filter (λ l, negb (row_released host boot l)) leases).
Proof.
  intros Hfew. assert (∀ l, l ∈ leases → holds_capacity l = true → l ∈ inspected leases) as Hin.
  { intros l Hl Hh. unfold inspected. rewrite take_app_ge; [apply elem_of_app; left|].
    - apply list_elem_of_In, List.filter_In. by rewrite <-list_elem_of_In.
    - revert Hfew. unfold active, len. rewrite (List.filter_ext _ holds_capacity); [lia|].
      intros x. by rewrite andb_true_r. }
  unfold pruned. set (I := inspected leases) in *. clearbody I. revert Hin. clear Hfew.
  induction leases as [|l leases IH]; intros Hin; [done|]. cbn.
  assert (∀ l', l' ∈ leases → holds_capacity l' = true → l' ∈ I) as Hin' by (intros; apply Hin; set_solver).
  destruct (holds_capacity l) eqn:Hh.
  - rewrite bool_decide_eq_true_2 by (apply Hin; set_solver). cbn.
    destruct (row_released host boot l); cbn; [by apply IH|]. rewrite Hh. f_equal. by apply IH.
  - destruct (bool_decide _ && _), (row_released host boot l); cbn; rewrite ?Hh; by apply IH.
Qed.

(** ** The state of the host *)

(** The lanes of the host, each attempt of one project and class, and the lane
    settings, one configuration for the whole history. *)
  Context (project_of : string → string) (class_of : string → LaneClass) (settings : LaneBuildSettings).

Record StartEvent := mkStart { st_class : LaneClass; st_at : HostInstant; st_spacing : Z }.
(** The ledger, the host's clock with the boots that are over, and the starts it
    has granted, newest first. *)
Record HostState := mkHostState {
  hs_ledger : Ledger;
  hs_now : HostInstant;
  hs_past : list string;
  hs_starts : list StartEvent;
}.

(** Within a boot the clock does not step back, and a boot does not return. *)
Definition clock_advances (st : HostState) (now : HostInstant) : Prop :=
  0 ≤ hi_micros now ∧
  ((hi_boot now = hi_boot (hs_now st) ∧ hi_micros (hs_now st) ≤ hi_micros now) ∨
   (hi_boot now ≠ hi_boot (hs_now st) ∧ hi_boot now ∉ hs_past st)).
Definition advanced (st : HostState) (now : HostInstant) : list string :=
  if hi_boot now == hi_boot (hs_now st) then hs_past st else hi_boot (hs_now st) :: hs_past st.

Inductive host_step : HostState → HostState → Prop :=
| step_tick st now :
    clock_advances st now → host_step st (mkHostState (hs_ledger st) now (advanced st now) (hs_starts st))
| step_claim st store ticket host ledger outcome :
    tk_project_id ticket = project_of (tk_attempt_id ticket) →
    tk_lane_class ticket = class_of (tk_attempt_id ticket) →
    0 ≤ tk_startup_spacing_ms ticket →
    h_boot_identity host = Some (hi_boot (hs_now st)) → h_monotonic_micros host = Some (hi_micros (hs_now st)) →
    claim (hs_ledger st) store ticket (caps_of settings) host = Ok (ledger, outcome) →
    host_step st (mkHostState ledger (hs_now st) (hs_past st)
      (match outcome with
       | Started now => [mkStart (tk_lane_class ticket) now (tk_startup_spacing_ms ticket * 1000)]
       | _ => []
       end ++ hs_starts st))
| step_yield st store id :
    host_step st (mkHostState (yield_lease (hs_ledger st) store id) (hs_now st) (hs_past st) (hs_starts st)).

Definition initial_host (now : HostInstant) : HostState := mkHostState (mkLedger [] []) now [] [].

(** ** The invariant of the leases *)

Record leases_ok (leases : list LeaseRow) : Prop := {
  lo_unique : NoDup (le_attempt <$> leases);
  lo_owned l : l ∈ leases → le_project l = project_of (le_attempt l) ∧ le_class l = class_of (le_attempt l);
  lo_within : within_caps (caps_of settings) leases;
}.

Lemma filter_ok g leases : leases_ok leases → leases_ok (List.filter g leases).
Proof.
  intros [Hu Ho Hw]. split.
  - clear Ho Hw. induction leases as [|x l IH]; [done|]. cbn in Hu |- *. apply NoDup_cons in Hu as [Hx Hu].
    destruct (g x); [|by apply IH]. cbn. apply NoDup_cons. split; [|by apply IH]. intros Hin. apply Hx.
    apply list_elem_of_fmap in Hin as (y & Hy & Hin). apply list_elem_of_fmap. exists y. split; [done|].
    apply list_elem_of_In, List.filter_In in Hin as [Hin _]. by apply list_elem_of_In.
  - intros l Hl. apply Ho. apply list_elem_of_In, List.filter_In in Hl as [Hl _]. by apply list_elem_of_In.
  - eapply within_caps_le; [|exact Hw]. intros f _. apply active_filter.
Qed.

Lemma map_ok g leases :
  (∀ x, le_attempt (g x) = le_attempt x ∧ le_project (g x) = le_project x ∧ le_class (g x) = le_class x) →
  leases_ok leases → within_caps (caps_of settings) (g <$> leases) → leases_ok (g <$> leases).
Proof.
  intros Hg [Hu Ho _] Hw. split; [| |done].
  - assert (le_attempt <$> (g <$> leases) = le_attempt <$> leases) as ->; [|done].
    rewrite <-list_fmap_compose. apply list_fmap_ext. intros i x _. cbn. apply Hg.
  - intros l Hl. apply list_elem_of_fmap in Hl as (x & -> & Hx). destruct (Hg x) as (-> & -> & ->). by apply Ho.
Qed.

Lemma prune_ok host leases leases' : prune host leases = Ok leases' → leases_ok leases → leases_ok leases'.
Proof. unfold prune. destruct (h_boot_identity host); cbn; [|done]. intros [= <-]. apply filter_ok. Qed.

(** One lease more, of the class and project that were checked. *)
Lemma grown_within l k id :
  (∀ f, (∀ v x, f (set_yielded v x) = f x) → ∀ b : bool,
     (∀ x, le_attempt x = id → le_project x = project_of id → le_class x = class_of id → f x = b) →
     active f k ≤ active f l + (if b then 1 else 0)) →
  cap_hit l (project_of id) (class_of id) (caps_of settings) = None →
  within_caps (caps_of settings) l → within_caps (caps_of settings) k.
Proof.
  intros Hgrow (Hh & Hp & Hwr)%cap_hit_None [Hh' Hp' Hw' Hpw'].
  assert (∀ p x, le_project x = project_of id → of_project p x = bool_decide (project_of id = p)) as Hof.
  { intros p x Hx. unfold of_project. by rewrite Hx. }
  assert (∀ x, le_class x = class_of id → is_writer x = bool_decide (class_of id = Writer)) as Hcl.
  { intros x Hx. unfold is_writer. by rewrite Hx. }
  split.
  - pose proof (Hgrow (λ _, true) ltac:(done) true ltac:(done)) as Hone. cbv match in Hone. lia.
  - intros p. pose proof (Hgrow (of_project p) ltac:(done) (bool_decide (project_of id = p)) ltac:(intros; by apply Hof)).
    specialize (Hp' p). case_bool_decide; subst; lia.
  - pose proof (Hgrow is_writer ltac:(done) (bool_decide (class_of id = Writer)) ltac:(intros; by apply Hcl)).
    case_bool_decide as E; [destruct (Hwr E); lia|lia].
  - intros p.
    pose proof (Hgrow (writer_of p) ltac:(done) (bool_decide (class_of id = Writer) && bool_decide (project_of id = p))
      ltac:(intros; unfold writer_of; by rewrite Hof, Hcl)).
    specialize (Hpw' p). case_bool_decide as E; cbn in *; [|lia]. case_bool_decide; subst; [destruct (Hwr E)|]; lia.
Qed.

Lemma has_lease_false id leases : has_lease id leases = false → id ∉ le_attempt <$> leases.
Proof.
  intros Hno Hin. apply list_elem_of_fmap in Hin as (l & -> & Hl). unfold has_lease in Hno.
  rewrite existsb_false_elem in Hno. specialize (Hno l Hl). by rewrite bool_decide_eq_true_2 in Hno.
Qed.

Lemma start_lease_ok ledger store ticket spacing host ledger' outcome :
  tk_project_id ticket = project_of (tk_attempt_id ticket) →
  tk_lane_class ticket = class_of (tk_attempt_id ticket) →
  cap_hit (lg_leases ledger) (tk_project_id ticket) (tk_lane_class ticket) (caps_of settings) = None →
  start ledger store ticket spacing host = Ok (ledger', outcome) →
  leases_ok (lg_leases ledger) → leases_ok (lg_leases ledger').
Proof.
  intros Hproj Hclass Hcap Hstart Hok. unfold start in Hstart. rewrite Hproj, Hclass in Hcap.
  apply result_bind_Ok in Hstart as (now & _ & Hstart). destruct (0 <? _); [by injection Hstart as <- <-|].
  destruct (negb _); [done|]. destruct (has_lease _ _) eqn:Hhas; [injection Hstart as <- <-|].
  - cbn [lg_leases]. apply (map_ok (reclaimed (tk_attempt_id ticket))); [|done|].
    { intros x. unfold reclaimed. by case_bool_decide. }
    eapply grown_within; [|exact Hcap|apply Hok]. intros f Hf b Hb. apply active_reclaimed; [apply Hok|done|].
    intros x Hx Hid. destruct (lo_owned _ Hok x Hx). rewrite <-Hid in Hb. by apply Hb.
  - apply result_bind_Ok in Hstart as (identity & _ & Hstart).
    apply result_bind_Ok in Hstart as (guardian & _ & Hstart).
    apply result_bind_Ok in Hstart as (owner_id & _ & Hstart). injection Hstart as <- <-. cbn [lg_leases].
    set (row := mkLeaseRow _ _ _ _ _ _ _ _). split.
    + rewrite fmap_app. apply NoDup_app. split; [apply Hok|]. split; [|apply NoDup_singleton].
      intros x Hx Hrow. apply list_elem_of_singleton in Hrow as ->. by apply (has_lease_false _ _ Hhas).
    + intros l [Hl|Hl]%elem_of_app; [by apply (lo_owned _ Hok)|]. apply list_elem_of_singleton in Hl as ->.
      unfold row. cbn. by split.
    + eapply grown_within; [|exact Hcap|apply Hok]. intros f Hf b Hb. rewrite active_snoc. cbn.
      rewrite (Hb row); [destruct b; lia|done..].
Qed.

Lemma claim_ok ledger store ticket host ledger' outcome :
  tk_project_id ticket = project_of (tk_attempt_id ticket) →
  tk_lane_class ticket = class_of (tk_attempt_id ticket) →
  claim ledger store ticket (caps_of settings) host = Ok (ledger', outcome) →
  leases_ok (lg_leases ledger) → leases_ok (lg_leases ledger').
Proof.
  intros Hproj Hclass Hclaim Hok. unfold claim in Hclaim.
  apply result_bind_Ok in Hclaim as (spacing & _ & Hclaim). apply result_bind_Ok in Hclaim as (wall & _ & Hclaim).
  apply result_bind_Ok in Hclaim as (leases & Hleases & Hclaim).
  assert (leases_ok leases) as Hok'.
  { destruct (has_lease _ _); [by eapply prune_ok|by injection Hleases as <-]. }
  destruct (_ && negb _); [by injection Hclaim as <- <-|].
  apply result_bind_Ok in Hclaim as (kept & Hkept & Hclaim).
  assert (leases_ok kept) as Hok''.
  { destruct (is_some _); [by eapply prune_ok|by injection Hkept as <-]. }
  destruct (_ && is_some _) eqn:Hfull; [by injection Hclaim as <- <-|].
  apply (start_lease_ok _ _ _ _ _ _ _ Hproj Hclass) in Hclaim; [done| |done]. cbn [lg_leases].
  destruct (is_some (cap_hit leases _ _ _)) eqn:Hbefore; cbn in Hfull.
  - by destruct (cap_hit kept _ _ _).
  - injection Hkept as <-. by destruct (cap_hit leases _ _ _).
Qed.

Lemma host_step_leases st st' :
  host_step st st' → leases_ok (lg_leases (hs_ledger st)) → leases_ok (lg_leases (hs_ledger st')).
Proof.
  destruct 1 as [st now _|st store ticket host ledger outcome Hp Hc _ _ _ Hclaim|st store id]; intros Hok; [done| |].
  - by eapply claim_ok.
  - cbn. set (g := λ l : LeaseRow, _). apply map_ok; [|done|].
    { intros x. unfold g. by destruct (_ && _). }
    eapply within_caps_le; [|apply Hok]. intros f Hf. apply active_map.
    + intros x. unfold g. destruct (_ && _); [apply Hf|done].
    + intros x. unfold g, holds_capacity. by destruct (_ && _).
Qed.

(** C10: The lane limits hold for the whole host.  Whatever lanes of however many
    projects and stores claim, yield and reclaim capacity, and whatever is pruned
    in between, the leases that hold capacity never exceed the configured limits:
    for the host and for each project, for all lanes and for writers. *)
Theorem caps_respected now st :
  rtc host_step (initial_host now) st → within_caps (caps_of settings) (lg_leases (hs_ledger st)).
Proof.
  intros Hrun. assert (leases_ok (lg_leases (hs_ledger st))) as [_ _ Hw]; [|done].
  refine (rtc_ind_r (λ s, leases_ok (lg_leases (hs_ledger s))) (initial_host now) _ _ st Hrun).
  - pose proof (caps_of_range settings) as (? & ? & ? & ?).
    split; cbn; [apply NoDup_nil_2|set_solver|]. split; intros; change (active _ _) with 0; lia.
  - intros a b _ Hstep. by apply host_step_leases.
Qed.

(** ** Startup spacing *)

(** [later] starts at least one of its spacings after [earlier], when the two are
    of one class and one boot. *)
Definition spaced_after (later earlier : StartEvent) : Prop :=
  st_class later = st_class earlier → hi_boot (st_at later) = hi_boot (st_at earlier) →
  hi_micros (st_at earlier) + st_spacing later ≤ hi_micros (st_at later).
(** A start of the boot [b] is followed by starts of that boot. *)
Definition follows (b : string) (later earlier : StartEvent) : Prop :=
  spaced_after later earlier ∧ (hi_boot (st_at earlier) = b → hi_boot (st_at later) = b).

Definition latest_start (class : LaneClass) (starts : list StartEvent) : option HostInstant :=
  st_at <$> List.find (λ s, st_class s == class) starts.

Record starts_ok (st : HostState) : Prop := {
  so_recorded c : recorded_start (lg_spacing (hs_ledger st)) c = latest_start c (hs_starts st);
  so_boots s : s ∈ hs_starts st → hi_boot (st_at s) ∈ hi_boot (hs_now st) :: hs_past st;
  so_spacing s : s ∈ hs_starts st → 0 ≤ st_spacing s;
  so_fresh : hi_boot (hs_now st) ∉ hs_past st;
  so_time : 0 ≤ hi_micros (hs_now st);
  so_follows : StronglySorted (follows (hi_boot (hs_now st))) (hs_starts st);
}.

Lemma recorded_start_record class now spacing c :
  recorded_start (record_start class now spacing) c = if class == c then Some now else recorded_start spacing c.
Proof.
  unfold recorded_start, record_start. cbn. case_bool_decide as Hc; [done|]. f_equal.
  induction spacing as [|[c' i] rows IH]; [done|]. cbn. case_bool_decide as E; cbn; rewrite IH; [|done].
  subst c'. by rewrite bool_decide_eq_false_2.
Qed.

Lemma spacing_wait_zero last now spacing :
  0 ≤ hi_micros now ≤ i64_max → spacing_wait last now spacing ≤ 0 →
  match last with
  | Some last => hi_boot last = hi_boot now → hi_micros last + spacing ≤ hi_micros now
  | None => True
  end.
Proof.
  intros Hmax Hwait. destruct last as [last|]; [|done]. intros Hb. unfold spacing_wait in Hwait.
  rewrite bool_decide_eq_true_2 in Hwait by done.
  unfold saturating_sub_u64, saturating_add_u64, clamp, i64_max, u64_max in *. lia.
Qed.

(** What a claim does to the starts. *)
Lemma claim_spacing ledger store ticket caps host ledger' outcome :
  claim ledger store ticket caps host = Ok (ledger', outcome) →
  match outcome with
  | Started now =>
      read_instant host = Ok now ∧ hi_micros now ≤ i64_max ∧
      spacing_wait (recorded_start (lg_spacing ledger) (tk_lane_class ticket)) now
        (tk_startup_spacing_ms ticket * 1000) ≤ 0 ∧
      lg_spacing ledger' = record_start (tk_lane_class ticket) now (lg_spacing ledger)
  | _ => lg_spacing ledger' = lg_spacing ledger
  end.
Proof.
  intros Hclaim. unfold claim in Hclaim. apply result_bind_Ok in Hclaim as (spacing & Hsp & Hclaim).
  assert (spacing = tk_startup_spacing_ms ticket * 1000) as ->.
  { unfold spacing_micros, checked_mul_u64 in Hsp. destruct (in_u64 _); [by injection Hsp as <-|done]. }
  apply result_bind_Ok in Hclaim as (wall & _ & Hclaim). apply result_bind_Ok in Hclaim as (leases & _ & Hclaim).
  destruct (_ && negb _); [by injection Hclaim as <- <-|].
  apply result_bind_Ok in Hclaim as (kept & _ & Hclaim). destruct (_ && is_some _); [by injection Hclaim as <- <-|].
  unfold start in Hclaim. cbn [lg_spacing lg_leases] in Hclaim.
  apply result_bind_Ok in Hclaim as (now & Hnow & Hclaim). destruct (0 <? _) eqn:Hwait; [by injection Hclaim as <- <-|].
  destruct (negb _) eqn:Hmax; [done|]. bool_prop.
  assert (∀ l, Ok (mkLedger l (record_start (tk_lane_class ticket) now (lg_spacing ledger)), Started now)
               = Ok (E := LedgerError) (ledger', outcome) →
    match outcome with
    | Started now => read_instant host = Ok now ∧ hi_micros now ≤ i64_max ∧
        spacing_wait (recorded_start (lg_spacing ledger) (tk_lane_class ticket)) now
          (tk_startup_spacing_ms ticket * 1000) ≤ 0 ∧
        lg_spacing ledger' = record_start (tk_lane_class ticket) now (lg_spacing ledger)
    | _ => lg_spacing ledger' = lg_spacing ledger
    end) as Hdone.
  { intros l [= <- <-]. cbn. repeat split; [done|lia|lia]. }
  destruct (has_lease _ kept); [by apply Hdone in Hclaim|].
  apply result_bind_Ok in Hclaim as (identity & _ & Hclaim). apply result_bind_Ok in Hclaim as (guardian & _ & Hclaim).
  apply result_bind_Ok in Hclaim as (owner_id & _ & Hclaim). by apply Hdone in Hclaim.
Qed.

Lemma spaced_tick st now :
  clock_advances st now → starts_ok st →
  starts_ok (mkHostState (hs_ledger st) now (advanced st now) (hs_starts st)).
Proof.
  intros [Hnow Hadv] [Hr Hb Hsp Hf Ht Hs]. unfold advanced. case_bool_decide as Hboot.
  - split; cbn; rewrite ?Hboot; auto.
  - destruct Hadv as [[? _]|[_ Hnew]]; [done|].
    assert (∀ s, s ∈ hs_starts st → hi_boot (st_at s) ≠ hi_boot now) as Hother.
    { intros s Hin E. apply Hb in Hin. rewrite E in Hin. by apply elem_of_cons in Hin as [?|?]. }
    split; cbn; [done| |done|set_solver|done|].
    + intros s Hin. apply Hb in Hin. set_solver.
    + clear Hr Hb Hsp Hf Ht. induction Hs as [|x l Hl IH Hx]; constructor; [apply IH; set_solver|].
      apply Forall_forall. intros y Hy. rewrite Forall_forall in Hx. split; [by apply Hx|].
      intros E. destruct (Hother y); set_solver.
Qed.

Lemma spaced_start st ledger ticket now :
  starts_ok st → 0 ≤ tk_startup_spacing_ms ticket → now = hs_now st → hi_micros now ≤ i64_max →
  spacing_wait (recorded_start (lg_spacing (hs_ledger st)) (tk_lane_class ticket)) now
    (tk_startup_spacing_ms ticket * 1000) ≤ 0 →
  lg_spacing ledger = record_start (tk_lane_class ticket) now (lg_spacing (hs_ledger st)) →
  starts_ok (mkHostState ledger (hs_now st) (hs_past st)
    (mkStart (tk_lane_class ticket) now (tk_startup_spacing_ms ticket * 1000) :: hs_starts st)).
Proof.
  intros [Hr Hb Hsp Hf Ht Hs] Hms -> Hmax Hwait Hledger. apply spacing_wait_zero in Hwait; [|lia].
  rewrite Hr in Hwait. split; cbn; [| | |done|done|].
  - intros c. rewrite Hledger, recorded_start_record, Hr. unfold latest_start. cbn. by case_bool_decide.
  - intros s [->|Hin]%elem_of_cons; [set_solver|by apply Hb].
  - intros s [->|Hin]%elem_of_cons; [cbn; lia|by apply Hsp].
  - constructor; [done|]. apply Forall_forall. intros y Hy. split; [|done]. unfold spaced_after. cbn.
    intros Hclass Hboot. rewrite Hclass in Hwait. unfold latest_start in Hwait. clear Hr Hb Hf.
    induction Hs as [|x l Hl IH Hx]; [by apply elem_of_nil in Hy|]. cbn in Hwait. case_bool_decide as Hxc.
    + cbn in Hwait. apply elem_of_cons in Hy as [<-|Hy]; [by apply Hwait|]. rewrite Forall_forall in Hx.
      destruct (Hx y Hy) as [Hxy Hboots]. specialize (Hxy Hxc ltac:(by rewrite Hboots)).
      specialize (Hwait ltac:(by rewrite Hboots)). specialize (Hsp x ltac:(set_solver)). lia.
    + apply elem_of_cons in Hy as [<-|Hy]; [done|]. apply IH; [|done..]. intros s Hin. apply Hsp. set_solver.
Qed.

Lemma host_step_starts st st' : host_step st st' → starts_ok st → starts_ok st'.
Proof.
  destruct 1 as [st now Hadv|st store ticket host ledger outcome _ _ Hms Hboot Hmicros Hclaim|st store id]; intros Hok.
  - by apply spaced_tick.
  - apply claim_spacing in Hclaim. destruct outcome as [|now|]; cbn [app].
    + destruct Hok. by split; cbn; rewrite ?Hclaim.
    + destruct Hclaim as (Hread & Hmax & Hwait & Hledger). eapply spaced_start; try done.
      unfold read_instant in Hread. rewrite Hboot, Hmicros in Hread. cbn in Hread. injection Hread as <-.
      by destruct (hs_now st).
    + destruct Hok. by split; cbn; rewrite ?Hclaim.
  - destruct Hok. by split.
Qed.

(** C14: Startup spacing holds for the whole host.  Of the starts the ledger grants
    to any lanes of any projects, newest first, each is at least its own spacing
    later than every earlier start of its class in the same boot of the host,
    whatever the claims, yields and clock readings in between. *)
Theorem starts_spaced now st :
  0 ≤ hi_micros now → rtc host_step (initial_host now) st → StronglySorted spaced_after (hs_starts st).
Proof.
  intros Hnow Hrun. assert (starts_ok st) as [_ _ _ _ _ Hs].
  { refine (rtc_ind_r starts_ok (initial_host now) _ _ st Hrun).
    - split; cbn; (done || set_solver || constructor).
    - intros a b _ Hstep. by apply host_step_starts. }
  induction Hs as [|x l _ IH Hx]; constructor; [done|]. eapply Forall_impl; [exact Hx|]. by intros y [].
Qed.

(** ** Capacity comes back *)

(** What a claim that takes a new lease reads of the host. *)
Record host_readable (host : Host) (store : string) (now : HostInstant) : Prop := {
  hr_now : read_instant host = Ok now;
  hr_range : hi_micros now ≤ i64_max;
  hr_wall : is_some (h_wall_now host) = true;
  hr_guardian : ∃ identity text, h_guardian_identity host = Some identity ∧ encode_identity identity = Some text;
  hr_store : is_some (h_store_identity host BeforeOpen (store_file store)) = true;
}.
(** The leases that no look at the host releases. *)
Definition living (host : Host) (boot : string) (leases : list LeaseRow) : list LeaseRow :=
  List.filter (λ l, negb (row_released host boot l)) leases.

Lemma cap_hit_holding l k project class caps :
  List.filter holds_capacity l = List.filter holds_capacity k → cap_hit l project class caps = cap_hit k project class caps.
Proof. intros Hlk. unfold cap_hit. by rewrite !(active_holding _ l k Hlk). Qed.

Lemma has_lease_filter g id leases : has_lease id leases = false → has_lease id (List.filter g leases) = false.
Proof.
  unfold has_lease. rewrite !existsb_false_elem. intros Hno l Hl. apply Hno.
  apply list_elem_of_In, List.filter_In in Hl as [Hl _]. by apply list_elem_of_In.
Qed.

Lemma start_new ledger store ticket spacing host now :
  host_readable host store now → has_lease (tk_attempt_id ticket) (lg_leases ledger) = false →
  spacing_wait (recorded_start (lg_spacing ledger) (tk_lane_class ticket)) now spacing ≤ 0 →
  ∃ row, le_attempt row = tk_attempt_id ticket ∧ holds_capacity row = true ∧
    start ledger store ticket spacing host =
      Ok (mkLedger (lg_leases ledger ++ [row]) (record_start (tk_lane_class ticket) now (lg_spacing ledger)), Started now).
Proof.
  intros [Hnow Hmax _ (identity & text & Hid & Htext) Hstore] Hno Hwait.
  destruct (h_store_identity host BeforeOpen (store_file store)) as [owner|] eqn:Howner; [|done]. unfold start. rewrite Hnow. cbn.
  destruct (0 <? _) eqn:E; bool_prop; [lia|]. destruct (hi_micros now <=? _) eqn:E'; bool_prop; [cbn|lia].
  rewrite Hno, Hid. cbn. rewrite Htext. cbn. rewrite Howner. cbn.
  eexists (mkLeaseRow _ _ _ _ _ _ _ false). split; [|split]; reflexivity.
Qed.

(** C29: Lanes that are gone do not block a start.  When the leases within the
    limits leave no room, but those of them that are not released (of another
    boot, of a guardian that is gone, or of a store without the admission row)
    do, a claim of a lane without a lease starts at once, with a lease that holds
    capacity, as soon as spacing has passed and the host can be read. *)
Theorem dead_leases_do_not_block ledger store ticket host now :
  within_caps (caps_of settings) (lg_leases ledger) →
  host_readable host store now → has_lease (tk_attempt_id ticket) (lg_leases ledger) = false →
  in_u64 (tk_startup_spacing_ms ticket * 1000) = true →
  spacing_wait (recorded_start (lg_spacing ledger) (tk_lane_class ticket)) now
    (tk_startup_spacing_ms ticket * 1000) ≤ 0 →
  cap_hit (living host (hi_boot now) (lg_leases ledger)) (tk_project_id ticket) (tk_lane_class ticket)
    (caps_of settings) = None →
  ∃ leases row, le_attempt row = tk_attempt_id ticket ∧ holds_capacity row = true ∧
    claim ledger store ticket (caps_of settings) host =
      Ok (mkLedger (leases ++ [row]) (record_start (tk_lane_class ticket) now (lg_spacing ledger)), Started now).
Proof.
  intros Hwithin Hhost Hno Hms Hwait Hroom.
  assert (h_boot_identity host = Some (hi_boot now)) as Hboot.
  { pose proof (hr_now _ _ _ Hhost) as Hnow. unfold read_instant in Hnow.
    destruct (h_boot_identity host), (h_monotonic_micros host); try done. by injection Hnow as <-. }
  assert (cap_hit (pruned host (hi_boot now) (lg_leases ledger)) (tk_project_id ticket) (tk_lane_class ticket)
    (caps_of settings) = None) as Hpruned.
  { rewrite <-Hroom. apply cap_hit_holding, pruned_holding. pose proof (caps_of_range settings).
    pose proof (wc_host _ _ Hwithin). lia. }
  assert (∀ kept, has_lease (tk_attempt_id ticket) kept = false → ∃ leases row,
    le_attempt row = tk_attempt_id ticket ∧ holds_capacity row = true ∧
    start (mkLedger kept (lg_spacing ledger)) store ticket (tk_startup_spacing_ms ticket * 1000) host =
      Ok (mkLedger (leases ++ [row]) (record_start (tk_lane_class ticket) now (lg_spacing ledger)), Started now)) as Hgo.
  { intros kept Hkept. exists kept. exact (start_new (mkLedger kept _) store ticket _ host now Hhost Hkept Hwait). }
  pose proof (hr_wall _ _ _ Hhost) as Hwall. destruct (h_wall_now host) as [wall|] eqn:Hw; [|done].
  unfold claim, spacing_micros, checked_mul_u64, prune. rewrite Hms, Hw, Hno, Hboot.
  cbn [mbind result_bind ok_or andb lg_leases lg_spacing]. rewrite Hno. cbn [andb].
  destruct (is_some (cap_hit (lg_leases ledger) _ _ _)); cbn [mbind result_bind andb].
  - rewrite Hpruned. cbn [is_some]. apply Hgo. by apply has_lease_filter.
  - by apply Hgo.
Qed.
End Runs.

(** ** A host with one lane *)

#[local] Instance demo_codec : IdentityCodec := {|
  encode_identity i := Some (pi_boot i);
  decode_identity text := Some (mkIdentity text 7 11);
|}.
Definition demo_settings : LaneBuildSettings := mkLaneSettings (Some 1) None None None.
Definition demo_host (boot : string) (micros : Z) : Host :=
  mkHost (Some 1000) (Some boot) (Some micros) (λ pid, Present (mkIdentity boot pid 11) false)
    (Some (mkIdentity boot 7 11)) (λ _ _, Some "store") (λ _, true) (λ _ _, Some false).
Definition demo_ticket (id : string) : AdmissionTicket := mkTicket id "p" 250 Writer.
Definition demo_claim (ledger : Ledger) (id boot : string) (micros : Z) : result LedgerError (Ledger * Claim) :=
  claim ledger "/s" (demo_ticket id) (caps_of demo_settings) (demo_host boot micros).
Definition demo_row (id boot : string) (yielded : bool) : LeaseRow :=
  mkLeaseRow id "p" "/s" Writer boot boot "store" yielded.

(** The one lane of the host is taken by [a], so [b] waits; when [a] yields, [b]
    starts after the spacing. *)
Definition demo_first : Ledger := mkLedger [demo_row "a" "b1" false] [(Writer, mkInstant "b1" 500)].
Definition demo_second : Ledger :=
  mkLedger [demo_row "a" "b1" true; demo_row "b" "b1" false] [(Writer, mkInstant "b1" 300000)].
Definition demo_state : HostState :=
  mkHostState demo_second (mkInstant "b1" 300000) []
    [mkStart Writer (mkInstant "b1" 300000) 250000; mkStart Writer (mkInstant "b1" 500) 250000].

Lemma demo_run :
  rtc (host_step (λ _, "p") (λ _, Writer) demo_settings) (initial_host (mkInstant "b1" 500)) demo_state.
Proof.
  eapply rtc_l; [eapply (step_claim _ _ _ _ "/s" (demo_ticket "a") (demo_host "b1" 500) demo_first); (done || reflexivity)|].
  eapply rtc_l; [eapply (step_claim _ _ _ _ "/s" (demo_ticket "b") (demo_host "b1" 500) demo_first Waits);
    (done || reflexivity)|].
  eapply rtc_l; [apply (step_yield _ _ _ _ "/s" "a")|].
  eapply rtc_l; [apply (step_tick _ _ _ _ (mkInstant "b1" 300000)); split; [|left; split; [done|]]; cbn; lia|].
  eapply rtc_l; [eapply (step_claim _ _ _ _ "/s" (demo_ticket "b") (demo_host "b1" 300000) demo_second);
    (done || reflexivity)|].
  apply rtc_refl.
Qed.

Lemma caps_respected_witness : within_caps (caps_of demo_settings) [demo_row "a" "b1" true; demo_row "b" "b1" false].
Proof. exact (caps_respected (λ _, "p") (λ _, Writer) demo_settings (mkInstant "b1" 500) demo_state demo_run). Defined.

Lemma starts_spaced_witness :
  0 ≤ 500 ∧ StronglySorted spaced_after [mkStart Writer (mkInstant "b1" 300000) 250000;
                                         mkStart Writer (mkInstant "b1" 500) 250000].
Proof.
  split; [lia|].
  apply (starts_spaced (λ _, "p") (λ _, Writer) demo_settings (mkInstant "b1" 500) demo_state); [cbn; lia|exact demo_run].
Defined.

(** After a reboot [a] is gone, and its lease with it. *)
Lemma dead_leases_do_not_block_witness :
  ∃ leases row, le_attempt row = "b" ∧ holds_capacity row = true ∧
    demo_claim demo_first "b" "b2" 100 =
      Ok (mkLedger (leases ++ [row]) [(Writer, mkInstant "b2" 100)], Started (mkInstant "b2" 100)).
Proof.
  apply (dead_leases_do_not_block demo_settings demo_first "/s" (demo_ticket "b") (demo_host "b2" 100)
    (mkInstant "b2" 100)); try reflexivity.
  - assert (∀ f, active f [demo_row "a" "b1" false] ≤ 1) as Hone.
    { intros f. rewrite active_cons. change (active f []) with 0. destruct (_ && _); lia. }
    split; intros; (etransitivity; [eapply Hone|vm_compute; discriminate]).
  - split; try reflexivity; [discriminate|]. by eexists _, _.
Defined.
